(* ===== verification/_CoqProject ===== *)
-Q . S2P
Prelude.v
ConsensusRules.v
Strings.v
Lines.v
Crypto.v
Types.v
Wire.v
WireProofs.v
Block.v
Staking.v
Shielded.v
ShieldedProofs.v
Script.v
ScriptProofs.v
Chain.v
ChainBlock.v
ChainProofs.v
ChainSupply.v
ChainRules.v
Mempool.v
MempoolProofs.v
Channel.v
ChannelPenalty.v
ChannelProofs.v
ChannelRoute.v
ChannelPeer.v
ChannelText.v
PowSearch.v
Mining.v
MiningProofs.v
Wallet.v
WalletProofs.v
ChannelOpen.v
Onion.v
OnionProofs.v
RChannel.v
RChannelOut.v
RChannelProofs.v
RChannelUpdate.v
Bridge.v
BridgeProofs.v
Dandelion.v
DandelionProofs.v
Peers.v
PeersProofs.v
Votes.v
NodeCodec.v
NodeCodecProofs.v
Node.v
NodeInbound.v
NodeSync.v
NodeGossip.v
NodeProofs.v
NodeSyncProofs.v
StateStore.v
StateStoreProofs.v
PqSession.v
PmRelay.v
PqMessenger.v
PqSessionProofs.v
PqCodecProofs.v
PmRelayProofs.v
NodeCatchUp.v
RpcAccess.v
RpcProofs.v
TokenEngine.v
TokenProofs.v
TokenSafety.v
TokenState.v
TokenStateProofs.v
Toy.v
WitnessCore.v
WitnessChain.v
WitnessMarket.v
WitnessMining.v
WitnessNet.v
WitnessChannel.v
WitnessNode.v
WitnessSync.v
WitnessPm.v
