(* ===== verification/Prelude.v ===== *)
(** * ADDITION: a verification development for the node

    ADDITION is a UTXO chain with hybrid (post-quantum) signatures, proof of work with
    optional stake votes, a shielded pool, spend scripts, payment channels, and a token
    market, a bridge and private messages kept beside the chain. This library models the C++
    of the node under [src/] (the sources are named relative to it) and proves what makes its
    parts correct.

    ** How the program is put together, and which file models what

    - Texts and numbers: [Prelude] (results, machine words, ledgers over finite maps),
      [Strings] ([std::string], [std::stoull], byte order), [Lines] ([std::getline], [>>],
      iteration over unordered containers).
    - [src/consensus_rules.cpp]: [ConsensusRules]. [src/crypto.cpp]: [Crypto].
      [include/addition/block.hpp], [staking.hpp], [config.hpp]: the records of [Types].
      [src/wire_v3.cpp]: [Wire]. [src/block.cpp]: [Block]. [src/staking.cpp]: [Staking].
      [src/shielded.cpp]: [Shielded]. [src/script.cpp]: [Script].
    - [src/chain.cpp]: [Chain] (state, transactions), [ChainBlock] (headers, blocks,
      [add_block], [replace_with_chain]), [Mining] (templates and the producer), [Wallet]
      (queries, coin selection, signing with [src/wallet.cpp]).
      [src/mempool.cpp]: [Mempool]. [src/miner.cpp]: [Mining], [PowSearch].
    - [src/channel.cpp]: [Channel], [ChannelText] (its file), [ChannelOpen].
      [src/htlc_onion.cpp]: [Onion]. [src/rpc_rchannel.cpp]: [RChannel] (the messages of the
      peer), [RChannelOut] (the node's own proposals and the periodic step).
    - [src/decentralized_node.cpp]: [NodeCodec], [Node], [NodeInbound] (what a peer may send),
      [NodeSync] (the node as a client: handshake, block download, reorganisation),
      [NodeGossip] (stems, gossip, submission, the periodic work); with [src/p2p.cpp]:
      [Peers], [src/dandelion.cpp]: [Dandelion], [src/consensus_engine.cpp]: [Votes].
    - [src/pq_session.cpp]: [PqSession] (key packages, the ratchet, the form of a session),
      [PqMessenger] (files, initial frames, the messenger). [src/pm_relay.cpp]: [PmRelay].
    - [src/token_engine.cpp]: [TokenEngine], [TokenState]. [src/bridge.cpp]: [Bridge].
    - [src/state_store.cpp]: [StateStore]. [src/rpc_access.cpp] and the listeners of
      [apps/additiond_main.cpp]: [RpcAccess].

    The listeners hand text commands to the engines; the node hands decoded transactions to
    the mempool and blocks to the chain and private messages to the relay, from whose packages
    and messages the messenger runs its sessions; the miner takes transactions from the
    mempool and gives blocks to the chain; the chain asks the scripts, the shielded pool and
    the draw of tickets. The models are composed the same way: a handler calls the model of
    what the code calls.

    ** Conventions

    A method [bool f(.., std::string& error)] is a [result]; one that also writes its object
    returns the new object next to it, also where it fails, so what a failure leaves behind
    is visible. An exception is [None] (or an error, where the caller turns it into one).
    Integers are [Z] with [u64], [u32] and [u128] written where the source's type wraps.
    [std::map] and [std::unordered_map] are [gmap]s; where the order of iteration can be seen
    it is the order of the keys, or a parameter ([IterationOrder], [MempoolOrder]) with the
    standard's guarantee for unordered containers and unstable sorting. Clocks and random
    draws are arguments. Locks: every public method of the chain, mempool, peer table and
    router holds its mutex throughout, so it is one step; the nonce search, which does not,
    is a relation on interleavings ([PowSearch]), and the outbox of [RChannelOut], which
    lets go of the lock while it waits for a peer, handles arbitrary messages in between.

    Code outside the repository is a parameter: the class [Crypto] (hashes, signatures),
    [Stark] (the proof verifier), [OnionCrypto] (KEM, MAC, stream cipher), [PmCrypto] (KEM,
    MAC and sealing of messages, with the laws [PmLaws]), [ChanEnv] (wallet files, random
    generator, file system). Hypotheses about it are named where they are used
    ([sha3_512_digests], [collision_free] on the strings that are hashed, correctness of
    signing) and hold of the concrete instances of [Toy] and [WitnessPm].

    ** What is proved

    - Chain ([ChainProofs], [ChainSupply], [ChainRules], [MiningProofs], [PowSearch]):
      supply cap, the state as a function of the accepted blocks, rollback, reorganisation,
      linkage, authorization of spends, replay protection, stake votes; what a mined block
      pays, that a block can be mined, and the nonce search under all interleavings.
    - Shielded pool and scripts ([ShieldedProofs], [ScriptProofs]): no note is spent twice,
      the incremental tree is the full tree, scripts parse back and a spend is accepted
      exactly when its policy holds.
    - Codecs and files ([WireProofs], [NodeCodecProofs], [ChannelText],
      [TokenStateProofs], [StateStoreProofs], [OnionProofs]): round trips, and what a decoder
      accepts fits its machine types.
    - Pool and wallet ([MempoolProofs], [WalletProofs]): the indexed pool refines a list that
      compares every pair; coin selection is sound and complete.
    - Channels ([ChannelProofs], [ChannelRoute], [ChannelPenalty], [ChannelPeer],
      [ChannelOpen], [RChannelProofs], [RChannelUpdate]): two ends refine one exact-integer
      contract, routes are atomic, revoked states are punished, a peer's messages take
      nothing without a preimage, and the protocol between nodes refines the in-process one.
    - Market and bridge ([TokenProofs], [TokenSafety], [BridgeProofs]): conservation, the swap
      formula, the best route, accounts and attestations.
    - Node and listeners ([NodeProofs], [PeersProofs], [DandelionProofs], [RpcProofs]): an
      invariant under any traffic, trust on first use, nothing happens without a handshake,
      equivocation is caught; who may run which command.
    - The node as a client ([NodeSyncProofs], [NodeCatchUp]): whatever peers answer, each
      operation ends and keeps the invariant and the pinned keys, a peer that is counted has proved
      its identity, and an honest peer with more work brings the node to its chain.
    - Private messages ([PqSessionProofs], [PqCodecProofs], [PmRelayProofs]): two sessions
      read each other's frames in any order, from their files and from the bytes on the wire;
      the bounds of a relay; how long a message lives, and that it arrives and can be deleted.

    The [Witness] files apply each theorem with hypotheses to concrete values on the network
    of [Toy], and hold the inputs on which the code does not do what it means to.

    ** Bounds and fuel

    Recursion that is not structural runs on fuel: the route search and the parsers take the
    length of their input (each step consumes some); [isqrt_u64] takes any fuel, and
    [isqrt_u64_spec] says on which arguments some fuel is enough; the nonce search is a
    relation and needs none; a loop of the client takes one turn of the network per request,
    and the theorems say how many are enough. [std::size_t] counts bytes in memory and stays
    in [Z] or [nat].

    ** Not modelled

    Sockets, threads and files as such ([net_io], the transport of [net_transport], writing
    and renaming); reading the configuration ([config.cpp] beyond its predicates and
    profiles); key generation, encrypted wallet files; the bodies of the text commands of
    [rpc_server.cpp], including those that start a channel ([handle_rchan_command]), beyond
    the engines they call; the older [private_messaging.cpp] and the listing of message
    sessions; the note pool of [privacy.cpp], toy contracts and the storage and compute
    markets, which are outside the ledger. Timings, statistics, counters for reports and
    caches that cannot change an answer are left out. Operations that create funds outside
    blocks ([credit_balance]) are called by tests only and are no step of the reachable
    chains. *)
From stdpp Require Export base tactics numbers list gmap fin_maps sets strings pretty.
From Stdlib Require Export ZArith Lia.
From Stdlib Require Ascii String.
Export Stdlib.Strings.Ascii (ascii(..)).
Export (notations) Stdlib.Strings.Ascii.
#[export] Set Warnings "-notation-overridden".

(** Strings are C++ [std::string]s, that is byte strings. *)
#[global] Open Scope Z_scope.

(** ** Results: a C++ method [bool f(..., std::string& error)] *)

(** [Ok a] stands for [return true] with the out-parameters [a]; [Err e] for
    [error = e; return false]. *)
Inductive result (A : Type) : Type :=
  | Ok (a : A)
  | Err (e : string).
Arguments Ok {A} a.
Arguments Err {A} e.

#[export] Instance result_ret : MRet result := @Ok.
#[export] Instance result_bind : MBind result := λ A B f m,
  match m with Ok a => f a | Err e => Err e end.
#[export] Instance result_fmap : FMap result := λ A B f m,
  match m with Ok a => Ok (f a) | Err e => Err e end.
#[export] Instance result_eq_dec `{EqDecision A} : EqDecision (result A).
Proof. solve_decision. Defined.

Definition is_ok {A} (r : result A) : bool :=
  match r with Ok _ => true | Err _ => false end.

(** An error for a missing value. *)
Definition or_err {A} (e : string) (o : option A) : result A :=
  match o with Some a => Ok a | None => Err e end.

Declare Scope addition_scope.
Delimit Scope addition_scope with addition.
#[global] Open Scope addition_scope.

(** An early return: [if (c) { error = e; return false; }]. *)
Notation "'reject_if' c 'as' e ;; k" := (if c then Err e else k)
  (at level 10, c at level 99, e at level 99, k at level 200,
   format "'[v' 'reject_if'  c  'as'  e  ;;  '/' k ']'") : addition_scope.

Lemma bind_Ok {A B} (m : result A) (f : A → result B) b :
  m ≫= f = Ok b ↔ ∃ a, m = Ok a ∧ f a = Ok b.
Proof.
  destruct m as [x|e]; cbn; split.
  - intros Hf. by exists x.
  - by intros (? & [= ->] & ?).
  - done.
  - by intros (? & ? & ?).
Qed.

Lemma reject_if_Ok {A} (c : bool) e (k : result A) a :
  (if c then Err e else k) = Ok a ↔ c = false ∧ k = Ok a.
Proof. destruct c; split; (done || by intros [? ?]). Qed.

Lemma or_err_Ok {A} e (o : option A) a : or_err e o = Ok a → o = Some a.
Proof. destruct o; cbn; congruence. Qed.

(** Split the conjunctions of the goal, and nothing else. *)
Ltac conjs := repeat match goal with |- _ ∧ _ => split end.

(** Peel the early returns of a computation known to succeed. *)
Ltac peel H :=
  repeat match type of H with
  | (if ?c then Err _ else _) = Ok _ =>
      let E := fresh "G" in destruct c eqn:E; [discriminate H|]
  | (_ ≫= _) = Ok _ =>
      let a := fresh "a" in let E := fresh "E" in
      apply bind_Ok in H as (a & E & H); cbn beta in H
  end.

(** ** Machine integers: [std::uint64_t], [std::uint32_t], [unsigned __int128] *)

Abbreviation W32 := 4294967296%Z.
Abbreviation W64 := 18446744073709551616%Z.
Abbreviation W128 := 340282366920938463463374607431768211456%Z.
Abbreviation U64_MAX := 18446744073709551615%Z.

Definition u32 (z : Z) : Z := z mod W32.
Definition u64 (z : Z) : Z := z mod W64.
Definition u128 (z : Z) : Z := z mod W128.

#[global] Arguments u32 : simpl never.
#[global] Arguments u64 : simpl never.
#[global] Arguments u128 : simpl never.

Definition is_u32 (z : Z) : Prop := 0 ≤ z < W32.
Definition is_u64 (z : Z) : Prop := 0 ≤ z < W64.

#[export] Instance is_u32_dec z : Decision (is_u32 z).
Proof. unfold is_u32. apply _. Defined.
#[export] Instance is_u64_dec z : Decision (is_u64 z).
Proof. unfold is_u64. apply _. Defined.

Lemma u64_small z : is_u64 z → u64 z = z.
Proof. unfold u64, is_u64. intros. apply Z.mod_small. lia. Qed.
Lemma u64_range z : is_u64 (u64 z).
Proof. unfold u64, is_u64. apply Z.mod_pos_bound. lia. Qed.
Lemma u64_le z : 0 ≤ z → u64 z ≤ z.
Proof. unfold u64. intros. apply Z.mod_le; lia. Qed.
Lemma u128_small z : 0 ≤ z < W128 → u128 z = z.
Proof. unfold u128. intros. apply Z.mod_small. lia. Qed.
Lemma u128_range z : 0 ≤ u128 z < W128.
Proof. unfold u128. apply Z.mod_pos_bound. lia. Qed.
Lemma u32_small z : is_u32 z → u32 z = z.
Proof. unfold u32, is_u32. intros. apply Z.mod_small. lia. Qed.
Lemma u32_range z : is_u32 (u32 z).
Proof. unfold u32, is_u32. apply Z.mod_pos_bound. lia. Qed.

Lemma u128_add_l a b : u128 (u128 a + b) = u128 (a + b).
Proof. unfold u128. apply Zplus_mod_idemp_l. Qed.
Lemma u128_add_r a b : u128 (a + u128 b) = u128 (a + b).
Proof. unfold u128. apply Zplus_mod_idemp_r. Qed.
Lemma u64_add_l a b : u64 (u64 a + b) = u64 (a + b).
Proof. unfold u64. apply Zplus_mod_idemp_l. Qed.
Lemma u64_add_r a b : u64 (a + u64 b) = u64 (a + b).
Proof. unfold u64. apply Zplus_mod_idemp_r. Qed.

Create HintDb machine.
#[export] Hint Resolve u64_range u128_range u32_range : machine.

(** Reduce boolean comparisons in the context and goal to propositions. *)
Ltac bools :=
  repeat match goal with
  | H : andb _ _ = true |- _ => apply andb_prop in H as [? ?]
  | H : orb _ _ = false |- _ => apply orb_false_elim in H as [? ?]
  | H : negb _ = true |- _ => apply negb_true_iff in H
  | H : negb _ = false |- _ => apply negb_false_iff in H
  | H : (_ <? _)%Z = true |- _ => apply Z.ltb_lt in H
  | H : (_ <? _)%Z = false |- _ => apply Z.ltb_ge in H
  | H : (_ <=? _)%Z = true |- _ => apply Z.leb_le in H
  | H : (_ <=? _)%Z = false |- _ => apply Z.leb_gt in H
  | H : (_ =? _)%Z = true |- _ => apply Z.eqb_eq in H
  | H : (_ =? _)%Z = false |- _ => apply Z.eqb_neq in H
  | H : bool_decide _ = true |- _ => apply bool_decide_eq_true in H
  | H : bool_decide _ = false |- _ => apply bool_decide_eq_false in H
  end.

(** Prove a closed decidable proposition by evaluating it. *)
Ltac by_eval := apply (bool_decide_unpack _); vm_compute; exact I.

(** ** Sums over lists and maps *)

Fixpoint list_sum {A} (f : A → Z) (l : list A) : Z :=
  match l with [] => 0 | x :: l => f x + list_sum f l end.

Lemma list_sum_app {A} (f : A → Z) l k : list_sum f (l ++ k) = list_sum f l + list_sum f k.
Proof. induction l; cbn in *; lia. Qed.
Lemma list_sum_nonneg {A} (f : A → Z) l : (∀ x, x ∈ l → 0 ≤ f x) → 0 ≤ list_sum f l.
Proof.
  induction l as [|x l IH]; cbn; [lia|]. intros H.
  pose proof (H x ltac:(set_solver)).
  assert (0 ≤ list_sum f l) by (apply IH; set_solver). lia.
Qed.
Lemma list_sum_Permutation {A} (f : A → Z) l k : l ≡ₚ k → list_sum f l = list_sum f k.
Proof. induction 1; cbn; lia. Qed.
Lemma list_sum_ext {A} (f g : A → Z) l :
  (∀ x, x ∈ l → f x = g x) → list_sum f l = list_sum g l.
Proof.
  induction l as [|x l IH]; cbn; [done|]. intros H.
  rewrite (H x) by set_solver. rewrite IH by set_solver. done.
Qed.
Lemma list_sum_cons {A} (f : A → Z) x l : list_sum f (x :: l) = f x + list_sum f l.
Proof. done. Qed.
Lemma list_sum_sublist {A} (f : A → Z) l k :
  (∀ x, x ∈ k → 0 ≤ f x) → l `sublist_of` k → list_sum f l ≤ list_sum f k.
Proof.
  intros Hf Hs. induction Hs as [|x l k _ IH|x l k _ IH]; [done| |]; cbn [list_sum].
  - assert (list_sum f l ≤ list_sum f k) by (apply IH; set_solver). lia.
  - assert (0 ≤ f x) by (apply Hf; set_solver). assert (list_sum f l ≤ list_sum f k) by (apply IH; set_solver). lia.
Qed.
Lemma list_sum_elem_le {A} (f : A → Z) l x :
  (∀ y, y ∈ l → 0 ≤ f y) → x ∈ l → f x ≤ list_sum f l.
Proof.
  intros Hf Hx. apply list_elem_of_split in Hx as (l1 & l2 & ->).
  rewrite list_sum_app, list_sum_cons.
  assert (0 ≤ list_sum f l1) by (apply list_sum_nonneg; set_solver).
  assert (0 ≤ list_sum f l2) by (apply list_sum_nonneg; set_solver). lia.
Qed.

Section map_sum.
Context {K V : Type} `{Countable K}.
Implicit Types (m : gmap K V) (f : V → Z).

Definition map_sum f m : Z := list_sum (λ kv, f kv.2) (map_to_list m).

Lemma map_sum_empty f : map_sum f ∅ = 0.
Proof. unfold map_sum. by rewrite map_to_list_empty. Qed.
Lemma map_sum_insert_None f m k v :
  m !! k = None → map_sum f (<[k:=v]> m) = f v + map_sum f m.
Proof.
  intros Hk. unfold map_sum.
  by rewrite (list_sum_Permutation _ _ _ (map_to_list_insert m k v Hk)).
Qed.
Lemma map_sum_delete f m k v :
  m !! k = Some v → map_sum f (delete k m) = map_sum f m - f v.
Proof.
  intros Hk. rewrite <-(insert_delete_id m k v Hk) at 2.
  rewrite map_sum_insert_None by apply lookup_delete_eq. lia.
Qed.
(** The value a lookup contributes to a sum. *)
Definition contrib f (o : option V) : Z := match o with Some v => f v | None => 0 end.
Lemma map_sum_insert f m k v :
  map_sum f (<[k:=v]> m) = f v + map_sum f m - contrib f (m !! k).
Proof.
  destruct (m !! k) as [w|] eqn:Hk; cbn.
  - rewrite <-insert_delete_eq, map_sum_insert_None by apply lookup_delete_eq.
    rewrite (map_sum_delete _ _ _ _ Hk). lia.
  - rewrite map_sum_insert_None by done. lia.
Qed.
Lemma map_sum_nonneg f m : (∀ k v, m !! k = Some v → 0 ≤ f v) → 0 ≤ map_sum f m.
Proof.
  intros Hf. apply list_sum_nonneg. intros [k v] Hin%elem_of_map_to_list. eauto.
Qed.
Lemma map_sum_lookup_le f m k v :
  (∀ k v, m !! k = Some v → 0 ≤ f v) → m !! k = Some v → f v ≤ map_sum f m.
Proof.
  intros Hf Hk. rewrite <-(insert_delete_id m k v Hk).
  rewrite map_sum_insert_None by apply lookup_delete_eq.
  enough (0 ≤ map_sum f (delete k m)) by lia.
  apply map_sum_nonneg. intros k' v' [_ ?]%lookup_delete_Some. eauto.
Qed.
Lemma map_sum_contrib_le f m k :
  (∀ k v, m !! k = Some v → 0 ≤ f v) → contrib f (m !! k) ≤ map_sum f m.
Proof.
  intros Hf. destruct (m !! k) eqn:Hk; cbn; [by eapply map_sum_lookup_le|].
  by apply map_sum_nonneg.
Qed.
Lemma map_sum_union f m1 m2 : m1 ##ₘ m2 → map_sum f (m1 ∪ m2) = map_sum f m1 + map_sum f m2.
Proof.
  induction m1 as [|k v m1 Hk IH] using map_ind; intros Hd.
  - rewrite (left_id ∅ (∪)), map_sum_empty. lia.
  - apply map_disjoint_insert_l in Hd as [Hk2 Hd].
    rewrite <-insert_union_l, !map_sum_insert_None, IH; [lia|done..|]. by apply lookup_union_None.
Qed.
(** Two maps that agree where both are defined differ in what only one has. *)
Lemma map_sum_difference f m1 m2 :
  (∀ k v w, m1 !! k = Some v → m2 !! k = Some w → v = w) →
  map_sum f m1 + map_sum f (m2 ∖ m1) = map_sum f m2 + map_sum f (m1 ∖ m2).
Proof.
  intros Hag. rewrite <-!map_sum_union by
    (apply map_disjoint_spec; intros k x y Hx [_ Hy]%lookup_difference_Some; congruence). f_equal.
  apply map_eq. intros k. apply option_eq. intros v.
  rewrite !lookup_union_Some_raw, !lookup_difference_Some.
  destruct (m1 !! k) as [a|] eqn:E1, (m2 !! k) as [b|] eqn:E2;
    try (pose proof (Hag k a b E1 E2); subst); naive_solver.
Qed.
End map_sum.

(** A [std::unordered_map<K, std::uint64_t>] read with [operator[]]: a missing
    entry reads as zero (and is created; the creation is written out where the
    source does it). *)
Definition map_get0 `{Countable K} (m : gmap K Z) (k : K) : Z := default 0 (m !! k).

Lemma contrib_id `{Countable K} (m : gmap K Z) k : contrib id (m !! k) = map_get0 m k.
Proof. unfold map_get0. by destruct (m !! k). Qed.

Lemma map_get0_insert_eq `{Countable K} (m : gmap K Z) k v : map_get0 (<[k := v]> m) k = v.
Proof. unfold map_get0. by rewrite lookup_insert_eq. Qed.
Lemma map_get0_insert_ne `{Countable K} (m : gmap K Z) k k' v :
  k ≠ k' → map_get0 (<[k := v]> m) k' = map_get0 m k'.
Proof. intros Hk. unfold map_get0. by rewrite lookup_insert_ne. Qed.

(** ** Strings *)

Definition is_empty (s : string) : bool := String.eqb s "".
Lemma is_empty_true s : is_empty s = true ↔ s = "".
Proof. apply String.eqb_eq. Qed.
Lemma is_empty_false s : is_empty s = false ↔ s ≠ "".
Proof. apply String.eqb_neq. Qed.

(** [std::to_string] and [operator<<] on an unsigned integer. *)
Definition to_string (z : Z) : string := pretty (Z.to_N z).
Lemma to_string_inj a b : 0 ≤ a → 0 ≤ b → to_string a = to_string b → a = b.
Proof. unfold to_string. intros ?? Hab%(inj pretty). lia. Qed.

(** [s.rfind(prefix, 0) == 0]. *)
Definition starts_with (p s : string) : bool := String.prefix p s.

Lemma str_app_cons x (a b : string) : String x a +:+ b = String x (a +:+ b).
Proof. done. Qed.
Lemma str_app_nil_l (b : string) : "" +:+ b = b.
Proof. done. Qed.
Lemma starts_with_self p x : starts_with p (p +:+ x) = true.
Proof.
  unfold starts_with. induction p as [|c p IH]; [by destruct x|]. rewrite str_app_cons. cbn [String.prefix].
  destruct (Ascii.ascii_dec c c); [done|congruence].
Qed.
Lemma str_app_assoc (a b c : string) : (a +:+ b) +:+ c = a +:+ (b +:+ c).
Proof. induction a as [|x a IH]; [done|]. by rewrite !str_app_cons, IH. Qed.
Lemma str_app_nil_r (a : string) : a +:+ "" = a.
Proof. induction a as [|x a IH]; [done|]. by rewrite str_app_cons, IH. Qed.
Lemma str_length_app (a b : string) :
  String.length (a +:+ b) = (String.length a + String.length b)%nat.
Proof. induction a as [|x a IH]; [done|]. rewrite str_app_cons; cbn. by rewrite IH. Qed.

Create Rewrite HintDb str.
#[export] Hint Rewrite str_app_cons str_app_nil_l str_app_assoc str_app_nil_r str_length_app : str.
