(* ===== verification/ConsensusRules.v ===== *)
(** * Consensus arithmetic ([include/addition/consensus_rules.hpp],
      [src/consensus_rules.cpp])

    The LWMA retarget and the emission schedule. Every intermediate value is
    written at the width the source gives it: [u64] for [std::uint64_t], [u128]
    for [unsigned __int128]. *)
From S2P Require Import Prelude.

Definition kDefaultLwmaWindow : Z := 60.
Definition kLwmaMaxSolvetimeMultiple : Z := 6.
Definition kFutureTimeLimitBlocks : Z := 15.

Definition clamp_u64 (v lo hi : Z) : Z :=
  let '(lo, hi) := if hi <? lo then (hi, lo) else (lo, hi) in
  if v <? lo then lo else if hi <? v then hi else u64 v.

(** One turn of the weighting loop, for solvetime number [j]. *)
Definition lwma_step (timestamps targets : list Z) (off_ts off_tg : nat) (max_st : Z)
    (acc : Z * Z) (j : nat) : Z * Z :=
  let '(weighted, sum_target) := acc in
  let cur := nth (off_ts + j) timestamps 0 in
  let prev := nth (off_ts + j - 1) timestamps 0 in
  let st := if prev <? cur then cur - prev else 0 in
  let st := if max_st <? st then max_st else st in
  (u128 (weighted + u128 (st * Z.of_nat j)),
   u128 (sum_target + nth (off_tg + j) targets 0)).

Definition lwma_next_target (timestamps targets : list Z)
    (target_block_time_sec min_target max_target fallback : Z) : Z :=
  let count := Nat.min (length timestamps) (length targets) in
  if (count <? 2)%nat || (target_block_time_sec =? 0) then
    clamp_u64 fallback min_target max_target
  else
    let off_ts := (length timestamps - count)%nat in
    let off_tg := (length targets - count)%nat in
    let T := target_block_time_sec in
    let max_st := u128 (T * kLwmaMaxSolvetimeMultiple) in
    let n := (count - 1)%nat in
    let '(weighted, sum_target) :=
      foldl (lwma_step timestamps targets off_ts off_tg max_st) (0, 0) (seq 1 n) in
    let nz := Z.of_nat n in
    let k := u128 (nz * (nz + 1)) / 2 in
    let floor_w := u128 (k * T) / 10 in
    let weighted := if weighted <? floor_w then floor_w else weighted in
    let avg_target := sum_target / nz in
    let next := u128 (avg_target * weighted) / u128 (k * T) in
    let prev_target := List.last targets 0 in
    let lo := prev_target / 2 in
    let hi := u128 (prev_target * 2) in
    let next := if next <? lo then lo else next in
    let next := if hi <? next then hi else next in
    let next := if next =? 0 then 1 else next in
    clamp_u64 next min_target max_target.

Definition scheduled_block_subsidy
    (height block_reward halving_interval subsidy_floor : Z) : Z :=
  if halving_interval =? 0 then block_reward
  else
    let halvings := height / halving_interval in
    let r := if 64 <=? halvings then 0 else Z.shiftr block_reward halvings in
    Z.max r (Z.min subsidy_floor block_reward).

Definition max_mintable_subsidy
    (height total_emitted max_supply block_reward halving_interval subsidy_floor : Z) : Z :=
  let scheduled :=
    scheduled_block_subsidy height block_reward halving_interval subsidy_floor in
  let left := if total_emitted <? max_supply then max_supply - total_emitted else 0 in
  Z.min scheduled left.

(** The loop over halving eras [e], [64 - fuel <= e < 64]. The result is the
    returned total and [*cap_height]. *)
Fixpoint emission_eras (fuel : nat) (e : Z)
    (max_supply block_reward halving_interval subsidy_floor total : Z) : Z * Z :=
  match fuel with
  | O => (u64 total, 0)
  | S fuel =>
      let floor_r := Z.min subsidy_floor block_reward in
      let r := Z.max (Z.shiftr block_reward e) floor_r in
      if r =? 0 then (u64 total, 0)
      else
        let first := if e =? 0 then 1 else u64 (e * halving_interval) in
        let floor_era := (0 <? floor_r) && (Z.shiftr block_reward e <=? floor_r) in
        let last := if floor_era then U64_MAX / 2
                    else u64 (u64 ((e + 1) * halving_interval) - 1) in
        let n := u64 (last - first + 1) in
        let add := u128 (r * n) in
        if max_supply <=? u128 (total + add) then
          let need := u64 (u128 (max_supply - total)) in
          (max_supply, u64 (first + u64 (need + r - 1) / r - 1))
        else
          emission_eras fuel (e + 1) max_supply block_reward halving_interval subsidy_floor
            (u128 (total + add))
  end.

Definition scheduled_total_emission
    (max_supply block_reward halving_interval subsidy_floor : Z) : Z * Z :=
  if halving_interval =? 0 then (0, 0)
  else emission_eras 64 0 max_supply block_reward halving_interval subsidy_floor 0.

(** ** LWMA: the 128-bit loop computes the unbounded formula *)

Lemma last_u64 l : (∀ t, t ∈ l → is_u64 t) → is_u64 (List.last l 0).
Proof.
  induction l as [|x l IH]; [unfold is_u64; cbn; lia|]. intros Hl.
  destruct l as [|y l]; [apply Hl; set_solver|]. apply IH. set_solver.
Qed.
Lemma clamp_u64_le v lo hi : lo ≤ hi → is_u64 lo → is_u64 hi →
  clamp_u64 v lo hi = Z.max lo (Z.min hi v).
Proof.
  intros Hle [] []. unfold clamp_u64.
  destruct (hi <? lo) eqn:?; [bools; lia|].
  destruct (v <? lo) eqn:?; [bools; lia|].
  destruct (hi <? v) eqn:?; bools; [lia|]. rewrite u64_small by (unfold is_u64; lia). lia.
Qed.

Section lwma.
Context (timestamps targets : list Z) (T min_target max_target fallback : Z).

Let count := Nat.min (length timestamps) (length targets).
Let n := (count - 1)%nat.
Let off_ts := (length timestamps - count)%nat.
Let off_tg := (length targets - count)%nat.

(** The [j]-th solvetime, clamped to [[0, 6T]]. *)
Definition solvetime (j : nat) : Z :=
  Z.min (6 * T)
    (Z.max 0 (nth (off_ts + j) timestamps 0 - nth (off_ts + j - 1) timestamps 0)).

Definition lwma_weighted : Z := list_sum (λ j, solvetime j * Z.of_nat j) (seq 1 n).
Definition lwma_sum_target : Z := list_sum (λ j, nth (off_tg + j) targets 0) (seq 1 n).

(** The documented formula
    [next = avg(target) * max(sum(j * solvetime_j), kT/10) / (kT)], limited to
    [[prev/2, 2 prev]] and clamped, over unbounded integers. *)
Definition lwma_spec : Z :=
  let nz := Z.of_nat n in
  let k := nz * (nz + 1) / 2 in
  let next := lwma_sum_target / nz * Z.max lwma_weighted (k * T / 10) / (k * T) in
  let prev := List.last targets 0 in
  let next := Z.max 1 (Z.min (2 * prev) (Z.max (prev / 2) next)) in
  Z.max min_target (Z.min max_target next).

Lemma lwma_loop_sums max_st l acc :
  max_st = 6 * T → 0 ≤ T →
  foldl (lwma_step timestamps targets off_ts off_tg max_st) (u128 acc.1, u128 acc.2) l =
  (u128 (acc.1 + list_sum (λ j, solvetime j * Z.of_nat j) l),
   u128 (acc.2 + list_sum (λ j, nth (off_tg + j) targets 0) l)).
Proof.
  intros -> HT. revert acc. induction l as [|j l IH]; intros acc.
  { cbn [list_sum foldl]. by rewrite !Z.add_0_r. }
  cbn [foldl list_sum].
  replace (lwma_step timestamps targets off_ts off_tg (6 * T) (u128 acc.1, u128 acc.2) j)
    with (u128 (acc.1 + solvetime j * Z.of_nat j),
          u128 (acc.2 + nth (off_tg + j) targets 0)).
  { specialize (IH (acc.1 + solvetime j * Z.of_nat j, acc.2 + nth (off_tg + j) targets 0)).
    cbn [fst snd] in IH. by rewrite IH, !Z.add_assoc. }
  unfold lwma_step. rewrite u128_add_r, !u128_add_l. do 2 f_equal.
  f_equal. f_equal. unfold solvetime.
  repeat case_match; bools; lia.
Qed.

Lemma weighted_bound m :
  0 ≤ T → 0 ≤ list_sum (λ j, solvetime j * Z.of_nat j) (seq 1 m) ≤
          3 * T * (Z.of_nat m * (Z.of_nat m + 1)).
Proof.
  intros HT. induction m as [|m IH]; [cbn; lia|].
  rewrite seq_S, list_sum_app. cbn [list_sum].
  assert (0 ≤ solvetime (1 + m) ≤ 6 * T) by (unfold solvetime; lia). nia.
Qed.

Lemma sum_target_bound m :
  (∀ t, t ∈ targets → is_u64 t) →
  0 ≤ list_sum (λ j, nth (off_tg + j) targets 0) (seq 1 m) ≤ Z.of_nat m * U64_MAX.
Proof.
  intros Ht. induction m as [|m IH]; [cbn; lia|].
  rewrite seq_S, list_sum_app. cbn [list_sum].
  assert (is_u64 (nth (off_tg + (1 + m)) targets 0)).
  { destruct (nth_in_or_default (off_tg + (1 + m)) targets 0) as [Hin| ->].
    - apply Ht. by apply list_elem_of_In.
    - unfold is_u64. lia. }
  unfold is_u64 in *. lia.
Qed.

End lwma.

Lemma lwma_exact timestamps targets T min_target max_target fallback :
  let count := Nat.min (length timestamps) (length targets) in
  let n := Z.of_nat (count - 1) in
  (2 ≤ count)%nat → 0 < T → 3 * T * (n * (n + 1)) < W64 →
  (∀ t, t ∈ targets → is_u64 t) →
  is_u64 min_target → is_u64 max_target → min_target ≤ max_target →
  lwma_next_target timestamps targets T min_target max_target fallback =
  lwma_spec timestamps targets T min_target max_target.
Proof.
  intros count n Hcount HT Hbound Htg Hmin Hmax Hle.
  unfold lwma_next_target. fold count.
  replace ((count <? 2)%nat || (T =? 0)) with false
    by (symmetry; apply orb_false_intro; [apply Nat.ltb_ge|apply Z.eqb_neq]; lia).
  assert (Hn1 : 1 ≤ n) by (unfold n; lia).
  assert (Hmst : u128 (T * kLwmaMaxSolvetimeMultiple) = 6 * T).
  { unfold kLwmaMaxSolvetimeMultiple. rewrite u128_small by nia. lia. }
  rewrite Hmst.
  pose proof (lwma_loop_sums timestamps targets T (6 * T) (seq 1 (count - 1)) (0, 0)
    eq_refl ltac:(lia)) as Hloop. cbn [fst snd] in Hloop.
  change (u128 0) with 0 in Hloop. fold count in Hloop. rewrite Hloop, !Z.add_0_l. clear Hloop.
  pose proof (weighted_bound timestamps targets T (count - 1) ltac:(lia)) as Hw.
  pose proof (sum_target_bound timestamps targets (count - 1) Htg) as Hs.
  pose proof (last_u64 targets Htg) as Hlast. fold count n in Hw, Hs |- *.
  unfold lwma_spec, lwma_weighted, lwma_sum_target. fold count n.
  set (W := list_sum (λ j : nat, solvetime timestamps targets T j * Z.of_nat j) _) in *.
  set (S := list_sum (λ j : nat, nth _ targets 0) _) in *.
  set (prev := List.last targets 0) in *.
  unfold is_u64 in *.
  assert (Hnb : n * (n + 1) < W64) by nia.
  assert (HS : S < W128) by nia.
  rewrite (u128_small W) by lia. rewrite (u128_small S) by lia.
  rewrite (u128_small (n * (n + 1))) by lia.
  set (k := n * (n + 1) / 2).
  assert (Hk : 1 ≤ k ∧ 2 * k ≤ n * (n + 1)).
  { split; [apply Z.div_le_lower_bound; nia|]. apply Z.mul_div_le. lia. }
  rewrite (u128_small (k * T)) by nia.
  rewrite (u128_small (prev * 2)) by lia.
  assert (Hfl : 0 ≤ k * T / 10 ≤ k * T)
    by (split; [apply Z.div_pos; nia|apply Z.div_le_upper_bound; nia]).
  assert (Havg : 0 ≤ S / n < W64).
  { split; [apply Z.div_pos; lia|]. apply Z.div_lt_upper_bound; nia. }
  replace (if W <? k * T / 10 then k * T / 10 else W) with (Z.max W (k * T / 10))
    by (case_match; bools; lia).
  assert (HkT : 2 * k * T ≤ n * (n + 1) * T) by (apply Z.mul_le_mono_nonneg_r; lia).
  assert (HkT0 : 0 ≤ k * T) by (apply Z.mul_nonneg_nonneg; lia).
  assert (HM : 0 ≤ Z.max W (k * T / 10) < W64) by (clear -Hw Hfl HkT HkT0 Hbound; lia).
  rewrite (u128_small (S / n * _)) by (clear -HM Havg; nia).
  set (nx := S / n * Z.max W (k * T / 10) / (k * T)).
  assert (Hnx : 0 ≤ nx) by (apply Z.div_pos; nia). clearbody nx.
  rewrite clamp_u64_le by (unfold is_u64; lia).
  do 2 f_equal. clear -Hnx Hlast. repeat case_match; bools; lia.
Qed.

(** C10. The 128-bit LWMA computation never wraps and equals the documented formula
    over unbounded integers, for every window with [3 T n (n+1) < 2^64]. *)
Theorem lwma_next_target_exact timestamps targets T min_target max_target fallback :
  let count := Nat.min (length timestamps) (length targets) in
  let n := Z.of_nat (count - 1) in
  (2 ≤ count)%nat → 0 < T → 3 * T * (n * (n + 1)) < W64 →
  (∀ t, t ∈ targets → is_u64 t) →
  is_u64 min_target → is_u64 max_target → min_target ≤ max_target →
  lwma_next_target timestamps targets T min_target max_target fallback =
  lwma_spec timestamps targets T min_target max_target.
Proof. apply lwma_exact. Qed.

(** A retarget stays within the consensus bounds and moves the target by at
    most a factor of two in either direction. *)
Lemma lwma_next_target_move timestamps targets T min_target max_target fallback :
  let count := Nat.min (length timestamps) (length targets) in
  let n := Z.of_nat (count - 1) in
  let prev := List.last targets 0 in
  let next := lwma_next_target timestamps targets T min_target max_target fallback in
  (2 ≤ count)%nat → 0 < T → 3 * T * (n * (n + 1)) < W64 →
  (∀ t, t ∈ targets → is_u64 t) →
  is_u64 max_target → 1 ≤ min_target ≤ max_target → min_target ≤ prev ≤ max_target →
  min_target ≤ next ≤ max_target ∧ prev / 2 ≤ next ≤ 2 * prev.
Proof.
  intros count n prev next Hc HT Hb Ht Hmax Hle Hprev.
  unfold next. rewrite lwma_exact by (unfold is_u64 in *; done || lia).
  unfold lwma_spec. fold prev. set (x := _ / _).
  assert (prev / 2 ≤ prev) by (apply Z.div_le_upper_bound; lia). lia.
Qed.

(** ** Emission: the era-by-era total is the block-by-block issuance *)

Section emission.
Context (max_supply block_reward halving_interval subsidy_floor : Z).
Context (Hhi : 1 ≤ halving_interval < W32) (Hbr : 0 ≤ block_reward < 2 ^ 62)
  (Hfl : 0 ≤ subsidy_floor) (Hms : 0 ≤ max_supply < 2 ^ 62).

Definition subsidy (h : Z) : Z :=
  scheduled_block_subsidy h block_reward halving_interval subsidy_floor.

(** Coins in existence after block [h] when every miner claims all a block may
    mint: genesis mints nothing, block [h] mints [max_mintable_subsidy]. *)
Fixpoint emitted_after (h : nat) : Z :=
  match h with
  | O => 0
  | S h' =>
      emitted_after h' +
      max_mintable_subsidy (Z.of_nat h) (emitted_after h') max_supply block_reward
        halving_interval subsidy_floor
  end.

Definition scheduled_sum (h : nat) : Z := list_sum (λ i : nat, subsidy (Z.of_nat i)) (seq 1 h).

Lemma subsidy_nonneg h : 0 ≤ subsidy h.
Proof using All.
  unfold subsidy, scheduled_block_subsidy. destruct (_ =? 0); [lia|].
  assert (0 ≤ Z.min subsidy_floor block_reward) by lia. lia.
Qed.

Lemma scheduled_sum_S h : scheduled_sum (S h) = scheduled_sum h + subsidy (Z.of_nat (S h)).
Proof. unfold scheduled_sum. rewrite seq_S, list_sum_app. cbn [list_sum]. by rewrite Z.add_0_r. Qed.

Lemma scheduled_sum_mono h k : (h ≤ k)%nat → scheduled_sum h ≤ scheduled_sum k.
Proof using All.
  induction 1 as [|k _ IH]; [lia|]. rewrite scheduled_sum_S.
  pose proof (subsidy_nonneg (Z.of_nat (S k))). lia.
Qed.

Lemma emitted_after_scheduled h : emitted_after h = Z.min max_supply (scheduled_sum h).
Proof using All.
  induction h as [|h IH]; [unfold scheduled_sum; cbn; lia|].
  cbn [emitted_after]. rewrite IH, scheduled_sum_S.
  unfold max_mintable_subsidy. fold (subsidy (Z.of_nat (S h))).
  pose proof (subsidy_nonneg (Z.of_nat (S h))). case_match; bools; lia.
Qed.

(** A run of heights with constant subsidy. *)
Lemma scheduled_sum_run r a m :
  (∀ i, (a < i ≤ a + m)%nat → subsidy (Z.of_nat i) = r) →
  scheduled_sum (a + m) = scheduled_sum a + r * Z.of_nat m.
Proof.
  induction m as [|m IH]; intros Hr.
  { rewrite Nat.add_0_r. lia. }
  rewrite Nat.add_succ_r, scheduled_sum_S, IH by (intros; apply Hr; lia).
  rewrite Hr by lia. lia.
Qed.

Definition era_rate (e : Z) : Z :=
  Z.max (Z.shiftr block_reward e) (Z.min subsidy_floor block_reward).

Lemma subsidy_in_era e h :
  0 ≤ e < 64 → e * halving_interval ≤ h < (e + 1) * halving_interval →
  subsidy h = era_rate e.
Proof using All.
  intros He Hh. unfold subsidy, scheduled_block_subsidy, era_rate.
  destruct (halving_interval =? 0) eqn:?; bools; [lia|].
  assert (h / halving_interval = e) as ->.
  { symmetry. apply (Z.div_unique h halving_interval e (h - e * halving_interval)); lia. }
  destruct (64 <=? e) eqn:?; bools; lia.
Qed.

Lemma subsidy_past_era e h :
  0 ≤ e → e * halving_interval ≤ h →
  Z.shiftr block_reward e ≤ Z.min subsidy_floor block_reward →
  subsidy h = Z.min subsidy_floor block_reward.
Proof using All.
  intros He Hh Hle. unfold subsidy, scheduled_block_subsidy.
  destruct (halving_interval =? 0) eqn:?; bools; [lia|].
  assert (He' : e ≤ h / halving_interval) by (apply Z.div_le_lower_bound; lia).
  assert (Z.shiftr block_reward (h / halving_interval) ≤ Z.shiftr block_reward e).
  { rewrite !Z.shiftr_div_pow2 by lia. apply Z.div_le_compat_l; [lia|].
    split; [lia|]. apply Z.pow_le_mono_r; lia. }
  destruct (64 <=? _) eqn:?; bools; lia.
Qed.

(** What the pair [(total, cap_height)] promises. *)
Definition emission_result (res : Z * Z) : Prop :=
  let '(total, cap) := res in
  if cap =? 0 then
    ∃ h0 : nat, ∀ h : nat, (h0 ≤ h)%nat → emitted_after h = total
  else
    total = max_supply ∧ 0 < cap ∧ emitted_after (Z.to_nat cap) = max_supply ∧
    ∀ h : nat, Z.of_nat h < cap → emitted_after h < max_supply.

Lemma cap_in_run (a : nat) r n total :
  scheduled_sum a = total → 0 < r → total < max_supply →
  (∀ i : nat, (a < i)%nat → Z.of_nat i ≤ Z.of_nat a + n → subsidy (Z.of_nat i) = r) →
  max_supply ≤ total + r * n →
  let cap := Z.of_nat a + (max_supply - total + r - 1) / r in
  0 < cap ∧ emitted_after (Z.to_nat cap) = max_supply ∧
  ∀ h : nat, Z.of_nat h < cap → emitted_after h < max_supply.
Proof using All.
  intros Ha Hr Hlt Hrun Hreach. cbv zeta.
  set (q := (max_supply - total + r - 1) / r). set (cap := Z.of_nat a + q).
  assert (Hq1 : 1 ≤ q) by (apply Z.div_le_lower_bound; lia).
  assert (Hql : r * q ≤ max_supply - total + r - 1) by (apply Z.mul_div_le; lia).
  assert (Hqu : max_supply - total ≤ r * q).
  { pose proof (Z.mod_pos_bound (max_supply - total + r - 1) r Hr).
    pose proof (Z.div_mod (max_supply - total + r - 1) r ltac:(lia)) as Hdm.
    fold q in Hdm. lia. }
  assert (Hqn : q ≤ n) by nia.
  assert (Hsum : ∀ j : nat, Z.of_nat j ≤ q → scheduled_sum (a + j) = total + r * Z.of_nat j).
  { intros j Hj. rewrite (scheduled_sum_run r) by (intros; apply Hrun; lia). lia. }
  split; [unfold cap; lia|]. split.
  - rewrite emitted_after_scheduled.
    replace (Z.to_nat cap) with (a + Z.to_nat q)%nat by (unfold cap; lia).
    rewrite Hsum by lia. rewrite Z2Nat.id by lia. lia.
  - intros h Hh. rewrite emitted_after_scheduled.
    destruct (decide (h ≤ a)%nat) as [Hle|Hgt].
    { pose proof (scheduled_sum_mono h a Hle). lia. }
    replace h with (a + (h - a))%nat by lia.
    rewrite Hsum by (unfold cap in *; lia).
    assert (Z.of_nat (h - a) ≤ q - 1) by (unfold cap in *; lia). nia.
Qed.

(** Once the subsidy is zero for ever, issuance is what the schedule summed to. *)
Lemma exhausted_emission (a : nat) total :
  scheduled_sum a = total → total ≤ max_supply →
  (∀ i : nat, (a < i)%nat → subsidy (Z.of_nat i) = 0) →
  ∃ h0 : nat, ∀ h : nat, (h0 ≤ h)%nat → emitted_after h = total.
Proof using All.
  intros Ha Hle Hz. exists a. intros h Hh. rewrite emitted_after_scheduled.
  replace h with (a + (h - a))%nat by lia.
  rewrite (scheduled_sum_run 0) by (intros; apply Hz; lia). lia.
Qed.

(** The last height before era [e]. *)
Definition era_start (e : Z) : nat := Z.to_nat (e * halving_interval - 1).

Let floor_r := Z.min subsidy_floor block_reward.

Lemma emission_exhausts e total :
  0 ≤ e → scheduled_sum (era_start e) = total → total < max_supply →
  Z.shiftr block_reward e = 0 → floor_r = 0 →
  ∃ h0 : nat, ∀ h : nat, (h0 ≤ h)%nat → emitted_after h = total.
Proof using All.
  intros He Hsum Hlt Hsh Hfr. apply (exhausted_emission (era_start e)); [done|lia|].
  intros i Hi. unfold era_start in Hi.
  rewrite (subsidy_past_era e) by (fold floor_r; lia). done.
Qed.

(** An era that does not reach the cap hands its sum to the next one. *)
Lemma era_sum e total :
  0 ≤ e < 64 → scheduled_sum (era_start e) = total →
  scheduled_sum (era_start (e + 1)) =
  total + era_rate e * (if e =? 0 then halving_interval - 1 else halving_interval).
Proof using All.
  intros He Hsum. set (m := Z.to_nat (if e =? 0 then halving_interval - 1 else halving_interval)).
  assert (Hnext : era_start (e + 1) = (era_start e + m)%nat).
  { unfold era_start, m. destruct (e =? 0) eqn:?; bools; [subst e; lia|]. nia. }
  rewrite Hnext, (scheduled_sum_run (era_rate e)).
  - unfold m. rewrite Hsum. by rewrite Z2Nat.id by (destruct (e =? 0); lia).
  - intros i Hi. apply subsidy_in_era; [done|]. rewrite <-Hnext in Hi.
    unfold era_start in Hi. clear -He Hhi Hi.
    rewrite Z.mul_add_distr_r, Z.mul_1_l in *. assert (0 ≤ e * halving_interval) by nia.
    generalize dependent (e * halving_interval). intros x. lia.
Qed.

Lemma emission_eras_correct fuel e total :
  e = 64 - Z.of_nat fuel → 0 ≤ e → (1 ≤ e → 0 < floor_r → floor_r < Z.shiftr block_reward (e - 1)) →
  scheduled_sum (era_start e) = total → total < max_supply →
  emission_result
    (emission_eras fuel e max_supply block_reward halving_interval subsidy_floor total).
Proof using All.
  revert e total. induction fuel as [|fuel IH]; intros e total He He0 Hnf Hsum Hlt.
  all: assert (0 ≤ total) by (rewrite <-Hsum; apply (scheduled_sum_mono 0); lia).
  all: assert (Hfr : 0 ≤ floor_r) by (unfold floor_r; lia).
  all: cbn [emission_eras]; fold floor_r.
  { cbn. rewrite u64_small by (unfold is_u64; lia).
    assert (Hs63 : ∀ k, 63 ≤ k → Z.shiftr block_reward k = 0).
    { intros k Hk. rewrite Z.shiftr_div_pow2 by lia. apply Z.div_small. split; [lia|].
      transitivity (2 ^ 62); [lia|]. apply Z.pow_lt_mono_r; lia. }
    apply (emission_exhausts e); [done..|apply Hs63; lia|].
    rewrite Hs63 in Hnf by lia. lia. }
  change (Z.max (Z.shiftr block_reward e) floor_r) with (era_rate e). set (r := era_rate e).
  assert (Hr : floor_r ≤ r ∧ Z.shiftr block_reward e ≤ r) by (unfold r, era_rate; fold floor_r; lia).
  assert (Hsh : 0 ≤ Z.shiftr block_reward e ≤ block_reward).
  { rewrite Z.shiftr_div_pow2 by lia. split; [apply Z.div_pos; lia|].
    apply Z.div_le_upper_bound; [lia|]. nia. }
  assert (r ≤ block_reward) by (unfold r, era_rate; fold floor_r; unfold floor_r; lia).
  destruct (r =? 0) eqn:Hr0; bools.
  { cbn. rewrite u64_small by (unfold is_u64; lia). apply (emission_exhausts e); (done || lia). }
  set (a := era_start e) in *. cbv zeta.
  set (F := if e =? 0 then 1 else u64 (e * halving_interval)).
  assert (Hehi : 0 ≤ e * halving_interval ≤ 64 * W32) by nia.
  assert (HF : F = Z.of_nat a + 1 ∧ Z.of_nat a + 1 ≤ 64 * W32).
  { unfold F, a, era_start. destruct (e =? 0) eqn:?; bools; [subst e; lia|].
    rewrite u64_small by (unfold is_u64; lia). split; nia. }
  assert (Hreach : ∀ n, 0 ≤ n → max_supply ≤ total + r * n →
    (∀ i : nat, (a < i)%nat → Z.of_nat i ≤ Z.of_nat a + n → subsidy (Z.of_nat i) = r) →
    emission_result (max_supply,
      u64 (F + u64 (u64 (u128 (max_supply - total)) + r - 1) / r - 1))).
  { intros n Hn0 Hn Hrun.
    rewrite (u128_small (max_supply - total)), (u64_small (max_supply - total))
      by (unfold is_u64; lia).
    rewrite (u64_small (_ + r - 1)) by (unfold is_u64; lia).
    pose proof (cap_in_run a r n total Hsum ltac:(lia) Hlt Hrun Hn) as Hcap. cbv zeta in Hcap.
    assert ((max_supply - total + r - 1) / r ≤ max_supply - total + r - 1).
    { apply Z.div_le_upper_bound; [lia|]. nia. }
    destruct HF as [-> HF].
    replace (Z.of_nat a + 1 + (max_supply - total + r - 1) / r - 1)
      with (Z.of_nat a + (max_supply - total + r - 1) / r) by lia.
    rewrite u64_small by (unfold is_u64; lia).
    unfold emission_result; cbv beta iota zeta. destruct Hcap as (Hc0 & Hc & Hmin).
    destruct (_ =? 0) eqn:Hz; [bools; lia|done]. }
  destruct ((0 <? floor_r) && _) eqn:Hera.
  - bools. change (U64_MAX / 2) with 9223372036854775807 in *.
    rewrite (u64_small (_ - F + 1)) by (unfold is_u64; lia).
    assert (HrF : r = floor_r) by (unfold r, era_rate; fold floor_r; lia).
    assert (Hadd : 2 ^ 62 ≤ r * (9223372036854775807 - F + 1) < W64 * W64) by (split; nia).
    rewrite (u128_small (r * _)) by lia.
    rewrite u128_small by lia. destruct (max_supply <=? _) eqn:?; bools; [|lia].
    apply (Hreach (9223372036854775807 - F + 1)); [lia..|]. intros i Hi _.
    rewrite (subsidy_past_era e); [by rewrite HrF|lia| |by fold floor_r].
    unfold a, era_start in Hi. lia.
  - assert (Hnext := era_sum e total ltac:(lia) Hsum). fold r in Hnext.
    set (w := if e =? 0 then halving_interval - 1 else halving_interval) in Hnext.
    assert (Hw : 0 ≤ w < W32) by (unfold w; case_match; lia).
    assert (Hn : u64 (u64 (u64 ((e + 1) * halving_interval) - 1) - F + 1) = w).
    { rewrite (u64_small ((e + 1) * _)) by (unfold is_u64; nia).
      rewrite (u64_small (_ - 1)) by (unfold is_u64; nia). unfold F, w.
      destruct (e =? 0) eqn:?; bools; [subst e; rewrite u64_small; unfold is_u64; lia|].
      rewrite (u64_small (e * _)), u64_small by (unfold is_u64; nia). lia. }
    rewrite Hn. rewrite (u128_small (r * w)) by nia. rewrite u128_small by nia.
    destruct (max_supply <=? _) eqn:Hcap; bools.
    + apply (Hreach w); [lia..|]. intros i Hi Hle. apply subsidy_in_era; [lia|].
      assert (Hstart : Z.of_nat (era_start (e + 1)) = Z.of_nat a + w).
      { unfold a, w, era_start. destruct (e =? 0) eqn:?; bools; [subst e; lia|]. nia. }
      unfold era_start in *. unfold a in Hi. clear -Hi Hle Hstart Hehi Hhi He0. nia.
    + apply IH; [lia..| |done|done].
      replace (e + 1 - 1) with e by lia. intros _ Hpos.
      apply andb_false_iff in Hera as [|]; bools; lia.
Qed.
End emission.

(** The closed-form era computation of [scheduled_total_emission] agrees with
    issuing blocks one at a time: a nonzero [cap_height] is exactly the first
    height at which issuance reaches [max_supply], and a zero one means issuance
    settles at the returned total for ever. *)
Theorem scheduled_total_emission_correct max_supply block_reward halving_interval
    subsidy_floor :
  1 ≤ halving_interval < W32 → 0 ≤ block_reward < 2 ^ 62 → 0 ≤ subsidy_floor →
  0 < max_supply < 2 ^ 62 →
  emission_result max_supply block_reward halving_interval subsidy_floor
    (scheduled_total_emission max_supply block_reward halving_interval subsidy_floor).
Proof.
  intros Hhi Hbr Hfl Hms. unfold scheduled_total_emission.
  destruct (_ =? 0) eqn:?; bools; [lia|].
  apply emission_eras_correct; try lia; done.
Qed.
