(* ===== verification/Strings.v ===== *)
(** * [std::string] operations and little-endian bytes

    The parts of the C++ standard library the sources use on strings, as
    functions on byte strings: slicing, searching, [std::stoull], and the byte
    order used by the binary formats. *)
From S2P Require Import Prelude.

(** ** Bytes *)

Definition byte_of_char (c : ascii) : Z := Z.of_N (Ascii.N_of_ascii c).
Definition char_of_byte (z : Z) : ascii := Ascii.ascii_of_N (Z.to_N (z mod 256)).

Lemma byte_of_char_range c : 0 ≤ byte_of_char c < 256.
Proof. unfold byte_of_char. pose proof (Ascii.N_ascii_bounded c). lia. Qed.
Lemma byte_of_char_of_byte z : byte_of_char (char_of_byte z) = z mod 256.
Proof.
  unfold byte_of_char, char_of_byte. pose proof (Z.mod_pos_bound z 256).
  rewrite Ascii.N_ascii_embedding; lia.
Qed.
Lemma char_of_byte_of_char c : char_of_byte (byte_of_char c) = c.
Proof.
  unfold char_of_byte. rewrite Z.mod_small by apply byte_of_char_range.
  unfold byte_of_char. by rewrite N2Z.id, Ascii.ascii_N_embedding.
Qed.

(** ** Slices *)

Fixpoint str_drop (n : nat) (s : string) : string :=
  match n, s with
  | S n, String _ s => str_drop n s
  | _, _ => s
  end.
Fixpoint str_take (n : nat) (s : string) : string :=
  match n, s with
  | S n, String c s => String c (str_take n s)
  | _, _ => ""
  end.

(** [s.substr(pos, len)] and [s.substr(pos)], for [pos <= s.size()]. *)
Definition substr (s : string) (pos len : nat) : string := str_take len (str_drop pos s).
Definition substr_from (s : string) (pos : nat) : string := str_drop pos s.

(** [s[i]] as an unsigned byte, for [i < s.size()]. *)
Definition str_byte (s : string) (i : nat) : Z :=
  match String.get i s with Some c => byte_of_char c | None => 0 end.

Lemma str_drop_0 s : str_drop 0 s = s.
Proof. done. Qed.
Lemma str_drop_app a b : str_drop (String.length a) (a +:+ b) = b.
Proof. induction a as [|x a IH]; [done|]. rewrite str_app_cons. cbn. done. Qed.
Lemma str_take_app a b : str_take (String.length a) (a +:+ b) = a.
Proof. induction a as [|x a IH]; [by destruct b|]. rewrite str_app_cons. cbn. by rewrite IH. Qed.
Lemma str_take_drop n s : str_take n s +:+ str_drop n s = s.
Proof. revert s. induction n; intros [|c s]; try done. cbn. rewrite str_app_cons. by f_equal. Qed.
Lemma str_drop_drop n m s : str_drop m (str_drop n s) = str_drop (n + m) s.
Proof. revert s. induction n as [|n IH]; intros [|c s]; cbn; try done. by destruct m. Qed.
Lemma str_length_drop n s : String.length (str_drop n s) = (String.length s - n)%nat.
Proof. revert s. induction n; intros [|c s]; cbn; auto. Qed.
Lemma str_length_take n s : String.length (str_take n s) = Nat.min n (String.length s).
Proof. revert s. induction n; intros [|c s]; cbn; auto. Qed.
Lemma str_get_drop n i s : String.get i (str_drop n s) = String.get (n + i) s.
Proof. revert s. induction n; intros [|c s]; cbn; try done; by destruct i. Qed.
Lemma str_byte_drop n i s : str_byte (str_drop n s) i = str_byte s (n + i).
Proof. unfold str_byte. by rewrite str_get_drop. Qed.
Lemma str_take_all s : str_take (String.length s) s = s.
Proof. rewrite <-(str_app_nil_r s) at 2. apply str_take_app. Qed.
Lemma str_length_0 s : String.length s = 0%nat → s = "".
Proof. by destruct s. Qed.

#[export] Hint Rewrite str_drop_drop str_length_drop str_length_take str_take_app str_drop_app : str.

(** ** Searching *)

Fixpoint all_chars (p : ascii → bool) (s : string) : bool :=
  match s with "" => true | String c s => p c && all_chars p s end.
Fixpoint any_char (p : ascii → bool) (s : string) : bool :=
  match s with "" => false | String c s => p c || any_char p s end.

(** [s.find(c)]: the index of the first [c]. *)
Fixpoint find_char (c : ascii) (s : string) : option nat :=
  match s with
  | "" => None
  | String d s => if Ascii.eqb c d then Some 0%nat else S <$> find_char c s
  end.
(** [s.rfind(c)]: the index of the last [c]. *)
Fixpoint rfind_char (c : ascii) (s : string) : option nat :=
  match s with
  | "" => None
  | String d s =>
      match rfind_char c s with
      | Some i => Some (S i)
      | None => if Ascii.eqb c d then Some 0%nat else None
      end
  end.

Lemma all_chars_app p a b : all_chars p (a +:+ b) = all_chars p a && all_chars p b.
Proof.
  induction a as [|x a IH]; [done|]. rewrite str_app_cons. cbn. by rewrite IH, andb_assoc.
Qed.

(** ** [std::stoull] *)

Definition is_space (c : ascii) : bool :=
  let b := byte_of_char c in (b =? 32) || ((9 <=? b) && (b <=? 13)).
Fixpoint skip_spaces (s : string) : string :=
  match s with String c s' => if is_space c then skip_spaces s' else s | "" => "" end.

(** The value of a digit in bases up to 16. *)
Definition digit_value (c : ascii) : option Z :=
  let b := byte_of_char c in
  if (48 <=? b) && (b <=? 57) then Some (b - 48)
  else if (97 <=? b) && (b <=? 102) then Some (b - 87)
  else if (65 <=? b) && (b <=? 70) then Some (b - 55)
  else None.

(** Longest run of digits: the value and the rest of the string. *)
Fixpoint read_digits (base acc : Z) (s : string) : Z * string :=
  match s with
  | String c s' =>
      match digit_value c with
      | Some d => if d <? base then read_digits base (acc * base + d) s' else (acc, s)
      | None => (acc, s)
      end
  | "" => (acc, "")
  end.

(** [std::stoull(s, &idx, base)]: [None] is an exception, otherwise the value and
    the unread suffix ([idx = s.size()] when it is empty). *)
Definition stoull (base : Z) (s : string) : option (Z * string) :=
  let s := skip_spaces s in
  let '(neg, s) := match s with
                   | String "-" s => (true, s)
                   | String "+" s => (false, s)
                   | _ => (false, s)
                   end in
  let s := if base =? 16 then
             match s with
             | String "0" (String x (String d r)) =>
                 if (Ascii.eqb x "x" || Ascii.eqb x "X") &&
                    (if digit_value d is Some v then v <? 16 else false)
                 then String d r else s
             | _ => s
             end else s in
  let '(v, rest) := read_digits base 0 s in
  if (String.length rest =? String.length s)%nat then None
  else if U64_MAX <? v then None
  else Some (u64 (if neg : bool then - v else v), rest).

(** ** Little-endian integers *)

Fixpoint put_le (n : nat) (v : Z) : string :=
  match n with
  | O => ""
  | S n => String (char_of_byte (Z.land v 255)) (put_le n (Z.shiftr v 8))
  end.

(** [v |= in[off + i] << (8 * i)] for [i < n]. *)
Definition get_le (n : nat) (s : string) (off : nat) : Z :=
  foldl (λ v i, Z.lor v (Z.shiftl (str_byte s (off + i)) (8 * Z.of_nat i))) 0 (seq 0 n).

Lemma put_le_length n v : String.length (put_le n v) = n.
Proof. revert v. induction n; intros; cbn; auto. Qed.

Lemma put_le_byte n v i :
  (i < n)%nat → 0 ≤ v → str_byte (put_le n v) i = Z.land (Z.shiftr v (8 * Z.of_nat i)) 255.
Proof.
  revert v i. induction n as [|n IH]; intros v i Hi Hv; [lia|].
  destruct i as [|i].
  - unfold str_byte. cbn [put_le String.get]. rewrite byte_of_char_of_byte.
    change 255 with (Z.ones 8). rewrite !Z.land_ones by lia.
    change (8 * Z.of_nat 0) with 0. rewrite Z.shiftr_0_r. change (2 ^ 8) with 256.
    rewrite Z.mod_mod; lia.
  - change (str_byte (put_le (S n) v) (S i)) with (str_byte (put_le n (Z.shiftr v 8)) i).
    rewrite IH; [|lia|by apply Z.shiftr_nonneg]. rewrite Z.shiftr_shiftr by lia.
    do 2 f_equal. lia.
Qed.

Lemma str_byte_app_l a b i : (i < String.length a)%nat → str_byte (a +:+ b) i = str_byte a i.
Proof.
  revert i. induction a as [|x a IH]; intros i Hi; [cbn in Hi; lia|].
  destruct i as [|i]; rewrite str_app_cons; [done|]. unfold str_byte in *. cbn in *. apply IH. lia.
Qed.

Lemma get_le_mod n v s off r :
  0 ≤ v → str_drop off s = put_le n v +:+ r → get_le n s off = v mod 2 ^ (8 * Z.of_nat n).
Proof.
  intros Hv Hs.
  assert (Hb : ∀ i, (i < n)%nat →
    str_byte s (off + i) = Z.land (Z.shiftr v (8 * Z.of_nat i)) 255).
  { intros i Hi. rewrite <-str_byte_drop, Hs, str_byte_app_l by (rewrite put_le_length; lia).
    by apply put_le_byte. }
  clear Hs. unfold get_le. induction n as [|n IH].
  { cbn. by rewrite Z.mod_1_r. }
  rewrite seq_S, foldl_app. cbn [foldl]. rewrite IH by (intros; apply Hb; lia).
  rewrite Hb by lia. rewrite Nat.add_0_l.
  set (k := 8 * Z.of_nat n). replace (8 * Z.of_nat (S n)) with (k + 8) by lia.
  change 255 with (Z.ones 8). rewrite <-!Z.land_ones by lia.
  apply Z.bits_inj'. intros b Hb0.
  rewrite Z.lor_spec, Z.shiftl_spec, !Z.land_spec by lia.
  rewrite (Z.testbit_ones_nonneg k), (Z.testbit_ones_nonneg (k + 8)) by lia.
  destruct (decide (k ≤ b)).
  - rewrite Z.testbit_ones_nonneg, Z.shiftr_spec by lia.
    replace (b - k + k) with b by lia.
    destruct (Z.ltb_spec b k), (Z.ltb_spec (b - k) 8), (Z.ltb_spec b (k + 8)); try lia;
      by rewrite ?andb_false_r, ?andb_true_r.
  - rewrite (Z.testbit_neg_r (Z.shiftr v k)) by lia.
    destruct (Z.ltb_spec b k), (Z.ltb_spec b (k + 8)); try lia.
    by rewrite ?andb_true_r, orb_false_r.
Qed.

(** ** Separators *)

(** [c] does not occur in [s]. *)
Definition free_of (c : ascii) (s : string) : bool := all_chars (λ d, negb (Ascii.eqb c d)) s.

(** A separator that occurs in neither prefix splits a string in one way. *)
Lemma split_unique c a a' b b' :
  free_of c a = true → free_of c a' = true →
  a +:+ String c b = a' +:+ String c b' → a = a' ∧ b = b'.
Proof.
  revert a'. induction a as [|x a IH]; intros [|x' a']; rewrite ?str_app_cons, ?str_app_nil_l;
    cbn; intros H1 H2; bools.
  - by intros [= ->].
  - intros [= -> _]. by rewrite Ascii.eqb_refl in *.
  - intros [= -> _]. by rewrite Ascii.eqb_refl in *.
  - intros [= -> Heq]. by destruct (IH a') as [-> ->].
Qed.

(** The same, splitting at the last occurrence. *)
Lemma split_unique_r c a a' b b' :
  free_of c b = true → free_of c b' = true →
  a +:+ String c b = a' +:+ String c b' → a = a' ∧ b = b'.
Proof.
  intros Hb Hb'. revert a'.
  assert (Hin : ∀ s t, free_of c (s +:+ String c t) = false).
  { intros s t. unfold free_of. rewrite all_chars_app. cbn. by rewrite Ascii.eqb_refl, andb_false_r. }
  induction a as [|x a IH]; intros [|x' a']; rewrite ?str_app_cons, ?str_app_nil_l.
  - by intros [= ->].
  - intros [= _ ->]. by rewrite Hin in Hb.
  - intros [= _ <-]. by rewrite Hin in Hb'.
  - intros [= -> Heq]. by destruct (IH a') as [-> ->].
Qed.

(** Decimal numerals contain digits only. *)
Definition is_digit_char (c : ascii) : bool :=
  let b := byte_of_char c in (48 <=? b) && (b <=? 57).

Lemma pretty_N_char_digit x : (x < 10)%N → is_digit_char (pretty_N_char x) = true.
Proof.
  intros Hx. destruct x as [|p]; [done|].
  do 4 (destruct p as [p|p|]; [..|done]; try done); lia.
Qed.

Lemma pretty_N_go_digits x s :
  all_chars is_digit_char s = true → all_chars is_digit_char (pretty_N_go x s) = true.
Proof.
  revert s. induction (N.lt_wf_0 x) as [x _ IH]; intros s Hs.
  destruct (decide (x = 0)%N) as [->|Hx]; [by rewrite pretty_N_go_0|].
  rewrite pretty_N_go_step by lia. apply IH; [by apply N.div_lt; lia|].
  cbn. rewrite Hs, pretty_N_char_digit; [done|]. by apply N.mod_lt.
Qed.

Lemma to_string_digits z : all_chars is_digit_char (to_string z) = true.
Proof.
  unfold to_string, pretty, pretty_N. case_decide; [done|]. by apply pretty_N_go_digits.
Qed.

Lemma all_chars_impl (p q : ascii → bool) s :
  (∀ c, p c = true → q c = true) → all_chars p s = true → all_chars q s = true.
Proof.
  intros Hpq. induction s as [|c s IH]; [done|]. cbn. intros [Hp Hs]%andb_prop.
  by rewrite (Hpq c Hp), IH.
Qed.

Lemma to_string_free_of c z : is_digit_char c = false → free_of c (to_string z) = true.
Proof.
  intros Hc. apply (all_chars_impl is_digit_char); [|apply to_string_digits].
  intros d Hd. apply negb_true_iff, Ascii.eqb_neq. intros ->. congruence.
Qed.

(** ** Decimal numerals *)

Fixpoint dec_val (acc : Z) (s : string) : Z :=
  match s with "" => acc | String c s => dec_val (acc * 10 + (byte_of_char c - 48)) s end.

Notation digits s := (all_chars is_digit_char s = true).

Lemma dec_val_acc acc s :
  dec_val acc s = acc * 10 ^ Z.of_nat (String.length s) + dec_val 0 s.
Proof.
  revert acc. induction s as [|c s IH]; intros acc; cbn [dec_val String.length]; [cbn; lia|].
  rewrite IH, (IH (0 * 10 + _)), Nat2Z.inj_succ, Z.pow_succ_r by lia. lia.
Qed.

Lemma digit_range c : is_digit_char c = true → 48 ≤ byte_of_char c ≤ 57.
Proof. unfold is_digit_char. intros. bools. lia. Qed.

Lemma dec_val_range s : digits s → 0 ≤ dec_val 0 s < 10 ^ Z.of_nat (String.length s).
Proof.
  induction s as [|c s IH]; [done|]. cbn [all_chars dec_val String.length]. intros [Hc Hs]%andb_prop.
  apply digit_range in Hc. specialize (IH Hs). rewrite dec_val_acc, Nat2Z.inj_succ, Z.pow_succ_r by lia.
  nia.
Qed.

Lemma read_digits_dec acc s : digits s → read_digits 10 acc s = (dec_val acc s, "").
Proof.
  revert acc. induction s as [|c s IH]; intros acc; [done|]. cbn [all_chars read_digits dec_val].
  intros [Hc Hs]%andb_prop. apply digit_range in Hc as Hr. unfold digit_value.
  unfold is_digit_char in Hc. rewrite Hc. replace (_ <? 10) with true by (symmetry; apply Z.ltb_lt; lia).
  by apply IH.
Qed.

Lemma byte_of_char_eq x y : byte_of_char x = byte_of_char y → x = y.
Proof. intros H. rewrite <-(char_of_byte_of_char x), H. apply char_of_byte_of_char. Qed.

Lemma dec_val_inj a b :
  digits a → digits b → String.length a = String.length b → dec_val 0 a = dec_val 0 b → a = b.
Proof.
  revert b. induction a as [|x a IH]; intros [|y b]; cbn [all_chars String.length dec_val]; try done.
  intros [Hx Ha]%andb_prop [Hy Hb]%andb_prop [= Hl] H. apply digit_range in Hx, Hy.
  rewrite (dec_val_acc _ a), (dec_val_acc _ b), Hl in H.
  pose proof (dec_val_range a Ha) as Ra. pose proof (dec_val_range b Hb) as Rb. rewrite Hl in Ra.
  assert (byte_of_char x = byte_of_char y) by nia.
  f_equal; [by apply byte_of_char_eq|]. apply IH; [done..|]. nia.
Qed.

Lemma pretty_N_char_val x : (x < 10)%N → byte_of_char (pretty_N_char x) = 48 + Z.of_N x.
Proof.
  intros Hx. destruct x as [|p]; [done|].
  do 4 (destruct p as [p|p|]; [..|done]; try done); lia.
Qed.

Lemma dec_val_pretty_go x s :
  dec_val 0 (pretty_N_go x s) = Z.of_N x * 10 ^ Z.of_nat (String.length s) + dec_val 0 s.
Proof.
  revert s. induction (N.lt_wf_0 x) as [x _ IH]; intros s.
  destruct (decide (x = 0)%N) as [->|Hx]; [by rewrite pretty_N_go_0|].
  rewrite pretty_N_go_step by lia. rewrite IH by (apply N.div_lt; lia).
  cbn [dec_val String.length]. rewrite (dec_val_acc (0 * 10 + _)), Nat2Z.inj_succ, Z.pow_succ_r by lia.
  rewrite pretty_N_char_val by by apply N.mod_lt.
  assert (H : Z.of_N x = 10 * Z.of_N (x / 10) + Z.of_N (x mod 10)).
  { rewrite (N.Div0.div_mod x 10) at 1. by rewrite N2Z.inj_add, N2Z.inj_mul. }
  rewrite H. ring.
Qed.

Lemma dec_val_to_string z : 0 ≤ z → dec_val 0 (to_string z) = z.
Proof.
  intros Hz. unfold to_string, pretty, pretty_N. case_decide as Hd.
  - change (dec_val 0 "0") with 0. lia.
  - rewrite dec_val_pretty_go, Z2N.id by lia. change (10 ^ Z.of_nat (String.length "")) with 1. cbn [dec_val]. lia.
Qed.

(** A numeral without a superfluous leading zero. *)
Definition canonical_num (s : string) : Prop :=
  digits s ∧ s ≠ "" ∧ ((1 < String.length s)%nat → starts_with "0" s = false).

Lemma pretty_N_go_head x s :
  (0 < x)%N → starts_with "0" (pretty_N_go x s) = false.
Proof.
  revert s. induction (N.lt_wf_0 x) as [x _ IH]; intros s Hx.
  rewrite pretty_N_go_step by lia. destruct (decide (x / 10 = 0)%N) as [H0|].
  - rewrite H0, pretty_N_go_0. apply N.div_small_iff in H0; [|done].
    rewrite N.mod_small by done. destruct x as [|p]; [lia|].
    do 4 (destruct p as [p|p|]; [..|done]; try done); lia.
  - apply IH; [apply N.div_lt; lia|by apply N.neq_0_lt_0].
Qed.

Lemma to_string_canonical z : canonical_num (to_string z).
Proof.
  split_and!; [apply to_string_digits| |].
  - unfold to_string, pretty, pretty_N. case_decide as Hd; [done|]. intros H.
    pose proof (dec_val_pretty_go (Z.to_N z) "") as Hv. rewrite H in Hv.
    change (10 ^ Z.of_nat (String.length "")) with 1 in Hv. cbn [dec_val] in Hv. lia.
  - unfold to_string, pretty, pretty_N. case_decide as Hd; [cbn; lia|].
    intros _. apply pretty_N_go_head. lia.
Qed.

Lemma canonical_low s :
  canonical_num s → (1 < String.length s)%nat → 10 ^ (Z.of_nat (String.length s) - 1) ≤ dec_val 0 s.
Proof.
  intros (Hd & _ & Hz) Hl. destruct s as [|c s]; [done|]. specialize (Hz Hl).
  cbn [all_chars] in Hd. apply andb_prop in Hd as [Hc Hs]. apply digit_range in Hc.
  pose proof (dec_val_range s Hs). cbn [dec_val String.length] in *.
  rewrite dec_val_acc. replace (Z.of_nat (S _) - 1) with (Z.of_nat (String.length s)) by lia.
  assert (byte_of_char c ≠ 48).
  { intros H48. assert (c = "0"%char) as -> by by apply byte_of_char_eq.
    unfold starts_with in Hz. cbn in Hz. by destruct s. }
  nia.
Qed.

Lemma canonical_unique a b :
  canonical_num a → canonical_num b → dec_val 0 a = dec_val 0 b → a = b.
Proof.
  intros Ha Hb Heq. pose proof Ha as (Hda & Hna & _). pose proof Hb as (Hdb & Hnb & _).
  apply dec_val_inj; [done..| |done].
  pose proof (dec_val_range a Hda). pose proof (dec_val_range b Hdb).
  assert (Hlt : ∀ x y, canonical_num x → digits y → y ≠ "" → dec_val 0 x = dec_val 0 y →
    ¬ (String.length y < String.length x)%nat).
  { intros x y Hx Hy Hny Hxy Hl. assert (0 < String.length y)%nat by (destruct y; [done|cbn; lia]).
    pose proof (canonical_low x Hx ltac:(lia)). pose proof (dec_val_range y Hy).
    assert (10 ^ Z.of_nat (String.length y) ≤ 10 ^ (Z.of_nat (String.length x) - 1))
      by (apply Z.pow_le_mono_r; lia). lia. }
  pose proof (Hlt a b Ha Hdb Hnb Heq). pose proof (Hlt b a Hb Hda Hna (eq_sym Heq)). lia.
Qed.

Lemma to_string_dec_val s : canonical_num s → to_string (dec_val 0 s) = s.
Proof.
  intros Hs. apply canonical_unique; [apply to_string_canonical|done|].
  apply dec_val_to_string. by apply dec_val_range, Hs.
Qed.

Lemma stoull_digits s :
  digits s → s ≠ "" → dec_val 0 s ≤ U64_MAX → stoull 10 s = Some (dec_val 0 s, "").
Proof.
  intros Hd Hne Hmax. destruct s as [|c s]; [done|]. pose proof (dec_val_range _ Hd) as Hr.
  cbn [all_chars] in Hd. pose proof Hd as [Hc _]%andb_prop. apply digit_range in Hc as Hb.
  unfold stoull.
  assert (Hsk : skip_spaces (String c s) = String c s).
  { cbn. unfold is_space.
    replace (_ || _) with false; [done|]. symmetry. apply orb_false_iff.
    split; [apply Z.eqb_neq; lia|]. apply andb_false_iff. right. apply Z.leb_gt. lia. }
  rewrite Hsk.
  assert (Hsg : match String c s with String "-" s => (true, s) | String "+" s => (false, s)
                | _ => (false, String c s) end = (false, String c s)).
  { destruct c as [[][][][][][][][]]; try done; cbn in Hb; lia. }
  cbv zeta. rewrite Hsg. change (10 =? 16) with false. cbv iota.
  rewrite read_digits_dec by done. cbn [String.length Nat.eqb].
  replace (U64_MAX <? _) with false by (symmetry; apply Z.ltb_ge; lia).
  by rewrite u64_small by (unfold is_u64; lia).
Qed.

Lemma stoull_to_string z : is_u64 z → stoull 10 (to_string z) = Some (z, "").
Proof.
  intros Hz. unfold is_u64 in Hz. destruct (to_string_canonical z) as (Hd & Hne & _).
  rewrite stoull_digits by (try done; rewrite dec_val_to_string; lia).
  by rewrite dec_val_to_string by lia.
Qed.

(** ** The order of strings *)

(** [a < b]: bytewise lexicographic order of [std::string]. *)
Fixpoint str_ltb (a b : string) : bool :=
  match a, b with
  | _, "" => false
  | "", _ => true
  | String x a, String y b =>
      (byte_of_char x <? byte_of_char y) ||
      ((byte_of_char x =? byte_of_char y) && str_ltb a b)
  end.

Lemma str_ltb_irrefl a : str_ltb a a = false.
Proof.
  induction a as [|x a IH]; [done|]. cbn. by rewrite IH, Z.ltb_irrefl, Z.eqb_refl.
Qed.

Lemma str_ltb_total a b : str_ltb a b = false → str_ltb b a = false → a = b.
Proof.
  revert b. induction a as [|x a IH]; intros [|y b]; cbn; try done.
  intros H1 H2. bools. destruct (Z.eqb_spec (byte_of_char x) (byte_of_char y)) as [He|]; [|lia].
  rewrite He, Z.eqb_refl in *. cbn in *. apply byte_of_char_eq in He as ->. f_equal. by apply IH.
Qed.

Lemma str_ltb_trans a b c : str_ltb a b = true → str_ltb b c = true → str_ltb a c = true.
Proof.
  revert b c. induction a as [|x a IH]; intros [|y b] [|z c]; cbn; try done.
  intros [H1|H1]%orb_prop [H2|H2]%orb_prop; bools; apply orb_true_iff.
  - left. apply Z.ltb_lt. lia.
  - left. apply Z.ltb_lt. lia.
  - left. apply Z.ltb_lt. lia.
  - right. apply andb_true_iff. split; [apply Z.eqb_eq; lia|by eapply IH].
Qed.

Lemma str_ltb_asym a b : str_ltb a b = true → str_ltb b a = false.
Proof.
  intros H. destruct (str_ltb b a) eqn:E; [|done].
  rewrite <-(str_ltb_irrefl a). symmetry. by apply (str_ltb_trans a b a).
Qed.

(** The order of [std::sort] on strings. *)
Definition str_le (a b : string) : Prop := str_ltb b a = false.
#[export] Instance str_le_dec a b : Decision (str_le a b).
Proof. unfold str_le. apply _. Defined.

(** [s.find(sub) != npos] *)
Fixpoint contains (sub s : string) : bool :=
  starts_with sub s || match s with String _ s => contains sub s | "" => false end.
