(* ===== verification/Lines.v ===== *)
(** * Text records: [std::getline] on an [std::istringstream], and the iteration of the
    standard library's unordered containers

    The node's stores are text files of lines with separated fields. The readers are
    translated on a stream state; the printers join their fields. *)
From S2P Require Import Prelude Strings.

(** ** [std::getline] *)

(** What is left of the stream; [None] after the end of the file was hit. *)
Definition stream := option string.

Fixpoint cut (c : ascii) (s : string) : string * stream :=
  match s with
  | "" => ("", None)
  | String d s' =>
      if Ascii.eqb d c then ("", Some s')
      else let '(f, r) := cut c s' in (String d f, r)
  end.

(** [std::getline(in, field, c)] into an empty [field]; on a stream that is exhausted
    the field stays empty. *)
Definition getline (c : ascii) (st : stream) : string * stream :=
  match st with None => ("", None) | Some s => cut c s end.

(** The same into a field that holds a text: an exhausted stream leaves it there. *)
Definition getline_into (old : string) (c : ascii) (st : stream) : string * stream :=
  match st with None => (old, None) | Some s => cut c s end.

(** [std::getline] as a condition: it fails on a stream with nothing left. *)
Definition getline_ok (c : ascii) (st : stream) : option (string * stream) :=
  match st with None | Some "" => None | Some s => Some (cut c s) end.

Fixpoint split_at (c : ascii) (s : string) : list string :=
  match s with
  | "" => [""]
  | String d s' =>
      if Ascii.eqb d c then "" :: split_at c s'
      else match split_at c s' with
           | f :: fs => String d f :: fs
           | [] => [String d ""]
           end
  end.

(** The fields [for (std::string f; std::getline(in, f, c);)] visits: a separator at the
    end does not start another field. *)
Definition getlines (c : ascii) (st : stream) : list string :=
  match st with
  | None => []
  | Some s => let fs := split_at c s in
              if is_empty (List.last fs "") then removelast fs else fs
  end.

Definition nl : ascii := "010".

(** [iss >> word]: the word and what follows it. *)
Fixpoint word (s : string) : string * string :=
  match s with
  | "" => ("", "")
  | String c s' => if is_space c then ("", s) else let '(w, r) := word s' in (String c w, r)
  end.

(** ** Printing *)

Fixpoint join (c : ascii) (fs : list string) : string :=
  match fs with
  | [] => ""
  | [f] => f
  | f :: fs => f +:+ String c (join c fs)
  end.

(** Every line with its newline. *)
Fixpoint unlines (ls : list string) : string :=
  match ls with [] => "" | l :: ls => l +:+ String "010" (unlines ls) end.

Definition clean (c : ascii) (fs : list string) : Prop := Forall (λ f, free_of c f = true) fs.
#[export] Instance clean_dec c fs : Decision (clean c fs).
Proof. unfold clean. apply _. Defined.

Lemma split_at_app c f s :
  free_of c f = true → split_at c (f +:+ String c s) = f :: split_at c s.
Proof.
  intros Hf. induction f as [|d f IH]; rewrite ?str_app_cons; cbn [split_at].
  - rewrite str_app_nil_l. cbn [split_at]. by rewrite Ascii.eqb_refl.
  - cbn in Hf. bools. rewrite IH by done. by rewrite Ascii.eqb_sym, H.
Qed.
Lemma split_at_last c f : free_of c f = true → split_at c f = [f].
Proof.
  induction f as [|d f IH]; [done|]. cbn. intros Hf. bools. rewrite IH by done.
  by rewrite Ascii.eqb_sym, H.
Qed.
Lemma split_at_join c fs : clean c fs → fs ≠ [] → split_at c (join c fs) = fs.
Proof.
  induction 1 as [|f fs Hf Hfs IH]; [done|]. intros _. destruct fs as [|g fs]; [by apply split_at_last|].
  change (join c (f :: g :: fs)) with (f +:+ String c (join c (g :: fs))).
  rewrite split_at_app by done. by rewrite IH.
Qed.
Lemma split_at_unlines ls : clean "010" ls → split_at "010" (unlines ls) = ls ++ [""].
Proof. induction 1 as [|l ls Hl _ IH]; [done|]. cbn [unlines]. by rewrite split_at_app, IH. Qed.

(** Reading back what was printed. *)
Lemma getlines_unlines ls : clean "010" ls → getlines "010" (Some (unlines ls)) = ls.
Proof.
  intros Hl. unfold getlines. rewrite split_at_unlines by done.
  rewrite last_last. cbn [is_empty String.eqb]. apply removelast_last.
Qed.
Lemma getlines_join c fs :
  clean c fs → List.last fs "" ≠ "" → getlines c (Some (join c fs)) = fs.
Proof.
  intros Hc Hl. unfold getlines. rewrite split_at_join; [|done|by intros ->].
  by rewrite (proj2 (is_empty_false _)).
Qed.

Lemma cut_app c f s : free_of c f = true → cut c (f +:+ String c s) = (f, Some s).
Proof.
  intros Hf. induction f as [|d f IH]; rewrite ?str_app_cons; cbn [cut].
  - rewrite str_app_nil_l. cbn [cut]. by rewrite Ascii.eqb_refl.
  - cbn in Hf. bools. rewrite IH by done. by rewrite Ascii.eqb_sym, H.
Qed.
Lemma getline_join c f g fs :
  free_of c f = true → getline c (Some (join c (f :: g :: fs))) = (f, Some (join c (g :: fs))).
Proof. apply cut_app. Qed.
Lemma getline_last c f : free_of c f = true → getline c (Some f) = (f, None).
Proof.
  cbn. induction f as [|d f IH]; [done|]. cbn. intros Hf. bools. rewrite IH by done.
  by rewrite Ascii.eqb_sym, H.
Qed.

Lemma free_of_app c a b : free_of c (a +:+ b) = free_of c a && free_of c b.
Proof. apply all_chars_app. Qed.
Lemma free_of_join c d fs : c ≠ d → clean c fs → free_of c (join d fs) = true.
Proof.
  intros Hcd. induction 1 as [|f fs Hf _ IH]; [done|]. destruct fs as [|g fs]; [done|].
  change (join d (f :: g :: fs)) with (f +:+ String d (join d (g :: fs))).
  rewrite free_of_app, Hf. unfold free_of. cbn [all_chars]. fold (free_of c (join d (g :: fs))).
  rewrite IH. by rewrite (proj2 (Ascii.eqb_neq c d)).
Qed.

(** ** Iteration over unordered containers *)

(** The order in which a range-for visits a container: some listing of its elements. *)
Class IterationOrder := {
  iter_map {A} : gmap string A → list (string * A);
  iter_map_perm {A} (m : gmap string A) : iter_map m ≡ₚ map_to_list m;
  iter_set : gset string → list string;
  iter_set_perm X : iter_set X ≡ₚ elements X;
}.

(** Reading a listing back by insertion gives the container. *)
Lemma fold_insert_map `{Countable K} {A} (l : list (K * A)) (m m0 : gmap K A) :
  l ≡ₚ map_to_list m → foldl (λ a kv, <[kv.1 := kv.2]> a) m0 l = m ∪ m0.
Proof.
  intros Hl. assert (Hnd : NoDup l.*1).
  { rewrite Hl. apply NoDup_fst_map_to_list. }
  rewrite <-(list_to_map_to_list m), <-(list_to_map_proper l _ Hnd Hl). clear Hl m.
  revert m0 Hnd. induction l as [|[k v] l IH]; intros m0 Hnd; cbn.
  - by rewrite map_empty_union.
  - apply NoDup_cons in Hnd as [Hk Hnd]. rewrite IH by done.
    rewrite <-insert_union_r; [by rewrite insert_union_l|]. by apply not_elem_of_list_to_map_1.
Qed.
Lemma fold_insert_set (l : list string) (X X0 : gset string) :
  l ≡ₚ elements X → foldl (λ a w, {[w]} ∪ a) X0 l = X ∪ X0.
Proof.
  intros Hl. assert (HX : X = list_to_set l) by (apply set_eq; intros w; rewrite elem_of_list_to_set, Hl; set_solver).
  subst X. clear Hl. revert X0. induction l as [|w l IH]; intros X0; cbn; [set_solver|].
  rewrite IH. set_solver.
Qed.

(** ** Stores

    A reader of a store is a fold over its non-empty lines. [load_line] is [None] where it
    throws; an error or an exception leaves what was read so far. *)
Definition number (s : string) : option Z := fst <$> stoull 10 s.

Section reader.
Context {E : Type} (load_line : string → E → option (result E)).

Fixpoint read_lines (e : E) (ls : list string) : E * option (result ()) :=
  match ls with
  | [] => (e, Some (Ok ()))
  | l :: ls =>
      if is_empty l then read_lines e ls
      else match load_line l e with
           | None => (e, None)
           | Some (Err m) => (e, Some (Err m))
           | Some (Ok e) => read_lines e ls
           end
  end.

Definition loads (e : E) (ls : list string) (e' : E) : Prop := read_lines e ls = (e', Some (Ok ())).
Lemma loads_nil e : loads e [] e.
Proof. done. Qed.
Lemma loads_one e l e' : l ≠ "" → load_line l e = Some (Ok e') → loads e [l] e'.
Proof.
  intros Hl H. unfold loads. cbn [read_lines]. by rewrite (proj2 (is_empty_false _) Hl), H.
Qed.
Lemma loads_app e e1 e2 l1 l2 : loads e l1 e1 → loads e1 l2 e2 → loads e (l1 ++ l2) e2.
Proof.
  unfold loads. revert e. induction l1 as [|l l1 IH]; intros e; cbn [read_lines app].
  - by intros [= <-].
  - destruct (is_empty l); [apply IH|]. destruct (load_line l e) as [[e'|m]|]; [apply IH|done..].
Qed.
Lemma loads_cons e e1 e2 l ls :
  l ≠ "" → load_line l e = Some (Ok e1) → loads e1 ls e2 → loads e (l :: ls) e2.
Proof. intros Hl H. apply (loads_app e e1 e2 [l]). by apply loads_one. Qed.

Lemma loads_concat {A} (f : A → list string) (g : E → A → E) e l :
  (∀ x e, x ∈ l → loads e (f x) (g e x)) → loads e (concat (f <$> l)) (foldl g e l).
Proof.
  revert e. induction l as [|x l IH]; intros e Hf; cbn; [apply loads_nil|].
  eapply loads_app; [apply Hf; set_solver|]. apply IH. set_solver.
Qed.
Lemma loads_map {A} (f : A → string) (g : E → A → E) e l :
  (∀ x e, x ∈ l → f x ≠ "" ∧ load_line (f x) e = Some (Ok (g e x))) → loads e (f <$> l) (foldl g e l).
Proof.
  revert e. induction l as [|x l IH]; intros e Hf; cbn; [apply loads_nil|].
  eapply loads_cons; [apply Hf; set_solver..|]. apply IH. set_solver.
Qed.
End reader.

(** A field inside a line, the last field of a line. *)
Definition field (s : string) : Prop := free_of "|" s = true ∧ free_of "010" s = true.
Definition last_field (s : string) : Prop := s ≠ "" ∧ free_of "010" s = true.
#[export] Instance field_dec s : Decision (field s).
Proof. unfold field. apply _. Defined.
#[export] Instance last_field_dec s : Decision (last_field s).
Proof. unfold last_field. apply _. Defined.

Lemma to_string_ne z : to_string z ≠ "".
Proof. by destruct (to_string_canonical z) as (_ & ? & _). Qed.
Lemma to_string_empty z : is_empty (to_string z) = false.
Proof. apply is_empty_false, to_string_ne. Qed.
Lemma number_to_string z : is_u64 z → number (to_string z) = Some z.
Proof. intros Hz. unfold number. by rewrite stoull_to_string. Qed.

Lemma join_ne c f g fs : f ≠ "" → join c (f :: g :: fs) ≠ "".
Proof. by destruct f. Qed.
Lemma iter_map_Forall `{IterationOrder} {A} (P : string → A → Prop) (m : gmap string A) k x :
  map_Forall P m → (k, x) ∈ iter_map m → P k x.
Proof. intros Hm. rewrite iter_map_perm. intros Hin%elem_of_map_to_list. by apply Hm. Qed.
Lemma iter_set_Forall `{IterationOrder} (P : string → Prop) X w :
  Forall P (elements X) → w ∈ iter_set X → P w.
Proof. intros HX. rewrite iter_set_perm. by apply Forall_forall. Qed.

(** Reading the entries of a map, each written as some lines, into an empty one. *)
Lemma loads_map_entries `{IterationOrder} {A} load_line (f : string * A → list string) (P : string → A → Prop) m :
  (∀ (e : gmap string A) k a, e !! k = None → P k a → loads load_line e (f (k, a)) (<[k := a]> e)) →
  map_Forall P m → loads load_line ∅ (concat (f <$> iter_map m)) m.
Proof.
  intros Hf Hm.
  assert (G : ∀ l e, NoDup l.*1 → (∀ k a, (k, a) ∈ l → P k a ∧ e !! k = None) →
    loads load_line e (concat (f <$> l)) (foldl (λ e kv, <[kv.1 := kv.2]> e) e l)).
  { intros l. induction l as [|[k a] l IH]; intros e; cbn [fmap list_fmap concat foldl fst snd].
    { intros _ _. apply loads_nil. }
    intros [Hk Hnd]%NoDup_cons Hl. destruct (Hl k a ltac:(left)) as [Ha Hn].
    eapply loads_app; [by apply Hf|]. apply IH; [done|]. intros k' a' Hin.
    destruct (Hl k' a') as [Ha' Hn']; [by right|]. split; [done|].
    rewrite lookup_insert_ne; [done|]. intros ->. apply Hk. by apply (list_elem_of_fmap_2 fst) in Hin. }
  specialize (G (iter_map m) ∅). rewrite (fold_insert_map _ m), (right_id_L ∅ (∪) m) in G by apply iter_map_perm.
  apply G.
  - rewrite iter_map_perm. apply NoDup_fst_map_to_list.
  - intros k a Hin. split; [by apply (iter_map_Forall _ _ _ _ Hm)|apply lookup_empty].
Qed.

Lemma concat_clean {A} (f : A → list string) l :
  (∀ x, x ∈ l → clean "010" (f x)) → clean "010" (concat (f <$> l)).
Proof.
  induction l as [|x l IH]; intros Hf; cbn; [by apply Forall_nil|].
  apply Forall_app. split; [apply Hf; by left|]. apply IH. intros y Hy. apply Hf. by right.
Qed.
Lemma fmap_clean {A} (f : A → string) l :
  (∀ x, x ∈ l → free_of "010" (f x) = true) → clean "010" (f <$> l).
Proof.
  intros Hf. apply Forall_forall. intros s (x & -> & Hx)%list_elem_of_fmap. by apply Hf.
Qed.

(** Opening the hypotheses about fields, a list of fields that are clean, a line. *)
Ltac cleanup := unfold field, last_field in *; repeat match goal with
  | H : Forall _ (_ :: _) |- _ => apply Forall_cons in H as [? H]
  | H : _ ∧ _ |- _ => destruct H
  end.
Ltac by_clean := repeat (apply Forall_cons; split); try apply Forall_nil; try done;
  try (by apply to_string_free_of).
Ltac by_line := apply free_of_join; [done|]; unfold clean; by_clean.
Ltac no_empty := cbn [join]; repeat match goal with H : ?s ≠ "" |- context [is_empty ?s] => rewrite (proj2 (is_empty_false s) H) end.
