(* ===== verification/Crypto.v ===== *)
(** * Hashing, address binding and signature checks ([src/crypto.cpp])

    OpenSSL and liboqs are not part of the repository: they are the fields of the
    class [Crypto]. Everything the node builds on them (hex, hash-committed
    addresses, the scheme policy, the verified-signature cache, the PoW heads) is
    defined here. *)
From S2P Require Import Prelude Strings.

Inductive SigScheme := Unknown | MlDsa87 | SlhDsaShake256s.
#[export] Instance SigScheme_eq_dec : EqDecision SigScheme.
Proof. solve_decision. Defined.

Record PqKeySizes := mkPqKeySizes { public_key : nat; secret_key : nat; signature_len : nat }.

(** The third-party primitives. *)
Class Crypto := {
  (** [EVP_sha3_512] and [EVP_sha256] *)
  evp_sha3_512 : string → string;
  evp_sha256 : string → string;
  (** [OQS_SIG_new(name)] and its lengths; [None] when the algorithm is missing *)
  oqs_sizes : SigScheme → option PqKeySizes;
  (** the sign/verify probe of [scheme_supports_ctx_sign] *)
  oqs_ctx_probe : SigScheme → bool;
  (** [OQS_SIG_verify] on ML-DSA-87: key bytes, message, signature bytes *)
  oqs_sig_verify : string → string → string → bool;
  (** [OQS_SIG_verify_with_ctx_str] on SLH-DSA: context, key, message, signature *)
  oqs_sig_verify_with_ctx : string → string → string → string → bool;
}.

(** No two of the strings in [P] share a SHA3-512 digest. *)
Definition collision_free {C : Crypto} (P : string → Prop) : Prop :=
  ∀ a b, P a → P b → evp_sha3_512 a = evp_sha3_512 b → a = b.

Lemma collision_free_mono {C : Crypto} (P Q : string → Prop) :
  (∀ s, P s → Q s) → collision_free Q → collision_free P.
Proof. intros HPQ HQ a b Ha Hb. apply HQ; by apply HPQ. Qed.

(** Decide collision freedom on a finite list. *)
Lemma collision_free_list {C : Crypto} l :
  NoDup (evp_sha3_512 <$> l) → collision_free (.∈ l).
Proof.
  intros Hnd a b Ha Hb H. apply list_elem_of_lookup in Ha as [i Hi], Hb as [j Hj].
  assert (i = j) as ->; [|congruence].
  apply (NoDup_lookup _ _ _ (evp_sha3_512 a) Hnd); rewrite list_lookup_fmap, ?Hi, ?Hj; simpl; congruence.
Qed.

(** ** Hex *)

(** [nib] inverse: one lowercase hex digit. *)
Definition hex_digit (n : Z) : ascii :=
  match String.get (Z.to_nat n) "0123456789abcdef" with Some c => c | None => "0"%char end.

Definition nibble (c : ascii) : Z :=
  let b := byte_of_char c in if (48 <=? b) && (b <=? 57) then b - 48 else b - 97 + 10.

Definition is_lower_hex_char (c : ascii) : bool :=
  let b := byte_of_char c in ((48 <=? b) && (b <=? 57)) || ((97 <=? b) && (b <=? 102)).

(** [bytes_to_hex] and [to_hex] (two digits per byte, [setw(2)]). *)
Fixpoint bytes_to_hex (s : string) : string :=
  match s with
  | "" => ""
  | String c s =>
      let b := byte_of_char c in
      String (hex_digit (Z.shiftr b 4)) (String (hex_digit (Z.land b 15)) (bytes_to_hex s))
  end.
Definition to_hex (hash : string) : string := bytes_to_hex hash.

Definition is_hex_char (c : ascii) : bool := if digit_value c is Some _ then true else false.

Definition is_hex_strict (hex : string) (max_hex_len : nat) : result () :=
  reject_if is_empty hex as "empty hex" ;;
  reject_if (max_hex_len <? String.length hex)%nat as "hex too large" ;;
  reject_if negb (Nat.even (String.length hex)) as "invalid hex length" ;;
  reject_if negb (all_chars is_hex_char hex) as "invalid hex data" ;;
  Ok ().

(** Decode pairs of hex digits of either case; [None] if one is not a digit. *)
Fixpoint hex_pairs (s : string) : option string :=
  match s with
  | "" => Some ""
  | String a (String b s) =>
      match digit_value a, digit_value b with
      | Some x, Some y => String (char_of_byte (x * 16 + y)) <$> hex_pairs s
      | _, _ => None
      end
  | _ => None
  end.

(** The [131072] cap of the source, written so that it does not unfold. *)
Definition kMaxHexLen : nat := Z.to_nat 131072.

Definition hex_to_bytes (hex : string) : result string :=
  _ ← is_hex_strict hex kMaxHexLen;
  match hex_pairs hex with Some b => Ok b | None => Err "invalid hex data" end.

(** ** Digests *)

Section crypto.
Context {C : Crypto}.

Definition sha3_512_bytes (data : string) : string := evp_sha3_512 data.
(** [strong_hash] of [block.cpp] and every [to_hex(sha3_512_bytes(.))]. *)
Definition strong_hash (data : string) : string := to_hex (sha3_512_bytes data).

(** [std::stoull(hex.substr(0, 16), nullptr, 16)]; [None] is its exception. *)
Definition hash_head64 (hex_hash : string) : option Z :=
  if is_empty hex_hash then Some U64_MAX
  else fst <$> stoull 16 (str_take 16 hex_hash).

(** ** Schemes and addresses *)

Definition sig_scheme_id (scheme : SigScheme) : string :=
  match scheme with
  | MlDsa87 => "ml-dsa-87"
  | SlhDsaShake256s => "slh-dsa-shake-256s"
  | Unknown => "unknown"
  end.

Definition get_scheme_sizes (scheme : SigScheme) : option PqKeySizes :=
  match scheme with Unknown => None | _ => oqs_sizes scheme end.

Definition sig_scheme_available (scheme : SigScheme) : bool :=
  if get_scheme_sizes scheme is Some _ then true else false.

Definition scheme_supports_ctx_sign (scheme : SigScheme) : bool :=
  match scheme with
  | Unknown => false
  | _ => sig_scheme_available scheme && oqs_ctx_probe scheme
  end.

Definition sig_scheme_allowed_strict (scheme : SigScheme) : bool :=
  match scheme with
  | MlDsa87 => sig_scheme_available scheme
  | SlhDsaShake256s => sig_scheme_available scheme && scheme_supports_ctx_sign scheme
  | Unknown => false
  end.

Definition infer_sig_scheme_from_key_bytes (nbytes : nat) : SigScheme :=
  let matches scheme :=
    match get_scheme_sizes scheme with
    | Some sz => (nbytes =? public_key sz)%nat
    | None => false
    end in
  if matches MlDsa87 then MlDsa87
  else if matches SlhDsaShake256s then SlhDsaShake256s
  else Unknown.

Definition infer_sig_scheme_from_pubkey_hex (pubkey_hex : string) : SigScheme :=
  if negb (Nat.even (String.length pubkey_hex)) then Unknown
  else infer_sig_scheme_from_key_bytes (Nat.div2 (String.length pubkey_hex)).

Definition kHashCommittedAddressHexLen : nat := 128.

Definition nul : string := String (char_of_byte 0) "".

Definition hash_committed_address (scheme_id pubkey : string) : string :=
  if is_empty scheme_id || is_empty pubkey then ""
  else to_hex (sha3_512_bytes (scheme_id +:+ nul +:+ pubkey)).

Definition address_binds_pubkey_id (address scheme_id pubkey_hex : string) : result () :=
  reject_if is_empty scheme_id as "missing scheme_id" ;;
  reject_if negb (String.length address =? kHashCommittedAddressHexLen)%nat
    as "address is not a 128-hex hash commitment" ;;
  reject_if negb (all_chars is_hex_char address)
    as "address is not a 128-hex hash commitment" ;;
  match hex_to_bytes pubkey_hex with
  | Err _ => Err "invalid pubkey hex"
  | Ok pk =>
      reject_if is_empty pk as "invalid pubkey hex" ;;
      let derived := hash_committed_address scheme_id pk in
      reject_if is_empty derived || negb (String.eqb derived address)
        as "signer/pubkey hash-address mismatch" ;;
      Ok ()
  end.

Definition address_binds_pubkey (address : string) (scheme : SigScheme) (pubkey_hex : string) :
    result () :=
  reject_if bool_decide (scheme = Unknown) as "unknown scheme rejected in strict mode" ;;
  address_binds_pubkey_id address (sig_scheme_id scheme) pubkey_hex.

(** ** Signature verification *)

Definition kSlhDsaSignCtx : string := "ADDITION|slh-dsa-shake-256s".

Definition pq_verify_message (pk message sig : string) : bool :=
  match oqs_sizes MlDsa87 with
  | None => false
  | Some sz =>
      (String.length pk =? public_key sz)%nat && negb (is_empty sig) &&
      (String.length sig <=? signature_len sz)%nat && oqs_sig_verify pk message sig
  end.

Definition slh_verify_with_ctx (pk message sig : string) : bool :=
  sig_scheme_allowed_strict SlhDsaShake256s &&
  match oqs_sizes SlhDsaShake256s with
  | None => false
  | Some sz =>
      (String.length pk =? public_key sz)%nat && negb (is_empty sig) &&
      (String.length sig <=? signature_len sz)%nat &&
      oqs_sig_verify_with_ctx kSlhDsaSignCtx pk message sig
  end.

Definition verify_message_signature_hybrid_uncached
    (public_key_hex message signature : string) : bool :=
  starts_with "pq=" signature && Nat.even (String.length public_key_hex) &&
  let scheme := infer_sig_scheme_from_key_bytes (Nat.div2 (String.length public_key_hex)) in
  sig_scheme_allowed_strict scheme &&
  match get_scheme_sizes scheme with
  | None => false
  | Some sizes =>
      is_ok (is_hex_strict public_key_hex (public_key sizes * 2)) &&
      (String.length public_key_hex =? public_key sizes * 2)%nat &&
      let sig_hex := substr_from signature 3 in
      is_ok (is_hex_strict sig_hex (signature_len sizes * 2)) &&
      match hex_to_bytes sig_hex, hex_to_bytes public_key_hex with
      | Ok sig_bytes, Ok pk_bytes =>
          negb (is_empty sig_bytes) &&
          (String.length sig_bytes <=? signature_len sizes)%nat &&
          (String.length pk_bytes =? public_key sizes)%nat &&
          match scheme with
          | MlDsa87 => pq_verify_message pk_bytes message sig_bytes
          | SlhDsaShake256s => slh_verify_with_ctx pk_bytes message sig_bytes
          | Unknown => false
          end
      | _, _ => false
      end
  end.
End crypto.

(** ** The verified-signature cache *)

Record SigCache := mkSigCache {
  sc_enabled : bool;
  sc_entries : gset string;
  sc_hits : Z;
  sc_misses : Z;
}.

Definition kSigCacheMax : Z := 200000.

Section sigcache.
Context {C : Crypto}.

Definition sigcache_preimage (pk msg sig : string) : string :=
  pk +:+ nul +:+ msg +:+ nul +:+ sig.
Definition sigcache_key (pk msg sig : string) : string :=
  sha3_512_bytes (sigcache_preimage pk msg sig).

Definition sig_cache_set_enabled (enabled : bool) (c : SigCache) : SigCache :=
  mkSigCache enabled (sc_entries c) (sc_hits c) (sc_misses c).
Definition sig_cache_clear (c : SigCache) : SigCache := mkSigCache (sc_enabled c) ∅ 0 0.

Definition verify_message_signature_hybrid (c : SigCache) (pk msg sig : string) :
    SigCache * bool :=
  if negb (starts_with "pq=" sig) || negb (Nat.even (String.length pk)) then (c, false)
  else
    let scheme := infer_sig_scheme_from_key_bytes (Nat.div2 (String.length pk)) in
    if bool_decide (scheme = Unknown) || negb (sig_scheme_allowed_strict scheme) then (c, false)
    else if negb (sc_enabled c) then
      (c, verify_message_signature_hybrid_uncached pk msg sig)
    else
      let key := sigcache_key pk msg sig in
      if bool_decide (key ∈ sc_entries c) then
        (mkSigCache (sc_enabled c) (sc_entries c) (u64 (sc_hits c + 1)) (sc_misses c), true)
      else
        let c := mkSigCache (sc_enabled c) (sc_entries c) (sc_hits c) (u64 (sc_misses c + 1)) in
        if negb (verify_message_signature_hybrid_uncached pk msg sig) then (c, false)
        else
          let entries := if kSigCacheMax <=? Z.of_nat (size (sc_entries c)) then ∅
                         else sc_entries c in
          (mkSigCache (sc_enabled c) ({[key]} ∪ entries) (sc_hits c) (sc_misses c), true).

(** A sequence of checks threading the cache. *)
Fixpoint verify_all (c : SigCache) (qs : list (string * string * string)) :
    SigCache * list bool :=
  match qs with
  | [] => (c, [])
  | (pk, msg, sig) :: qs =>
      let '(c, b) := verify_message_signature_hybrid c pk msg sig in
      let '(c, bs) := verify_all c qs in
      (c, b :: bs)
  end.

Definition uncached_query (q : string * string * string) : bool :=
  verify_message_signature_hybrid_uncached q.1.1 q.1.2 q.2.
Definition query_preimage (q : string * string * string) : string :=
  sigcache_preimage q.1.1 q.1.2 q.2.

Definition query_nul_free (q : string * string * string) : Prop :=
  free_of (char_of_byte 0) q.1.1 = true ∧ free_of (char_of_byte 0) q.1.2 = true.

Lemma query_preimage_inj q1 q2 :
  query_nul_free q1 → query_nul_free q2 → query_preimage q1 = query_preimage q2 → q1 = q2.
Proof.
  destruct q1 as [[p1 m1] s1], q2 as [[p2 m2] s2]. unfold query_preimage, sigcache_preimage, nul.
  cbn [fst snd]. intros [Hp1 Hm1] [Hp2 Hm2]. autorewrite with str. intros H.
  apply split_unique in H as [-> H]; [|done..]. autorewrite with str in H.
  by apply split_unique in H as [-> ->].
Qed.

(** Every cached key is the digest of a check in [Q] that succeeds uncached. *)
Definition cache_sound (Q : list (string * string * string)) (c : SigCache) : Prop :=
  ∀ k, k ∈ sc_entries c → ∃ q, q ∈ Q ∧ k = sha3_512_bytes (query_preimage q) ∧
    uncached_query q = true.

Lemma verify_cached_step Q c q :
  (∀ q, q ∈ Q → query_nul_free q) →
  collision_free (λ s, ∃ q, q ∈ Q ∧ s = query_preimage q) →
  q ∈ Q → cache_sound Q c →
  ∀ c' b, verify_message_signature_hybrid c q.1.1 q.1.2 q.2 = (c', b) →
  b = uncached_query q ∧ cache_sound Q c'.
Proof.
  intros Hnul Hcf Hq Hc c' b. unfold verify_message_signature_hybrid.
  destruct (negb _ || negb _) eqn:Hpre.
  { intros [= <- <-]. split; [|done]. unfold uncached_query, verify_message_signature_hybrid_uncached.
    apply orb_true_iff in Hpre as [H|H]; apply negb_true_iff in H; rewrite H;
      by rewrite ?andb_false_r. }
  destruct (bool_decide _ || negb _) eqn:Hsch.
  { intros [= <- <-]. split; [|done]. unfold uncached_query, verify_message_signature_hybrid_uncached. cbv zeta.
    apply orb_true_iff in Hsch as [H|H];
      [apply bool_decide_eq_true in H|apply negb_true_iff in H]; rewrite H;
      by rewrite ?andb_false_r. }
  destruct (negb (sc_enabled c)); [by intros [= <- <-]|].
  change (sigcache_key q.1.1 q.1.2 q.2) with (sha3_512_bytes (query_preimage q)).
  change (verify_message_signature_hybrid_uncached q.1.1 q.1.2 q.2) with (uncached_query q).
  destruct (bool_decide (_ ∈ _)) eqn:Hin; [apply bool_decide_eq_true in Hin|clear Hin].
  { intros [= <- <-]. split; [|done]. destruct (Hc _ Hin) as (q' & Hq' & Hk & Hu).
    apply Hcf in Hk; [|by eauto..]. apply query_preimage_inj in Hk; auto. by subst. }
  destruct (uncached_query q) eqn:Hu; cbn [negb]; [|by intros [= <- <-]].
  intros [= <- <-]. split; [done|]. intros k. cbn [sc_entries]. rewrite elem_of_union, elem_of_singleton.
  intros [->|Hk]; [by exists q|]. destruct (_ <=? _); [set_solver|by apply Hc].
Qed.

Lemma verify_all_sound Q qs c :
  (∀ q, q ∈ Q → query_nul_free q) →
  collision_free (λ s, ∃ q, q ∈ Q ∧ s = query_preimage q) →
  (∀ q, q ∈ qs → q ∈ Q) → cache_sound Q c →
  (verify_all c qs).2 = uncached_query <$> qs.
Proof.
  intros Hnul Hcf. revert c. induction qs as [|[[pk msg] sig] qs IH]; intros c Hqs Hc; [done|].
  cbn [verify_all].
  pose proof (verify_cached_step Q c (pk, msg, sig) Hnul Hcf ltac:(set_solver) Hc) as Hstep.
  cbn [fst snd] in Hstep. destruct (verify_message_signature_hybrid c pk msg sig) as [c' b].
  destruct (Hstep c' b eq_refl) as [-> Hc'].
  specialize (IH c' ltac:(set_solver) Hc'). destruct (verify_all c' qs) as [c'' bs].
  cbn in *. by rewrite IH.
Qed.

(** The cache never changes an answer: over any sequence of checks whose keys
    and messages hold no NUL byte and whose cache preimages do not collide under
    SHA3-512, starting from a cleared cache, the cached verifier answers exactly
    as the uncached one, whatever was hit, missed or evicted. *)
Theorem sig_cache_equiv c qs :
  (∀ q, q ∈ qs → query_nul_free q) →
  collision_free (λ s, ∃ q, q ∈ qs ∧ s = query_preimage q) →
  (verify_all (sig_cache_clear c) qs).2 = uncached_query <$> qs.
Proof.
  intros Hnul Hcf. apply (verify_all_sound qs); [done..|]. intros k Hk. set_solver.
Qed.

(** With a NUL byte in the message the preimage is ambiguous: no digest
    collision is needed for two different checks to share a cache entry. *)
Lemma sigcache_key_ambiguous pk a b sig :
  sigcache_key pk (a +:+ nul +:+ b) sig = sigcache_key pk a (b +:+ nul +:+ sig).
Proof. unfold sigcache_key, sigcache_preimage. by autorewrite with str. Qed.
End sigcache.

(** ** Hex round trip and address binding *)

Lemma digit_value_hex_digit n : 0 ≤ n < 16 → digit_value (hex_digit n) = Some n.
Proof.
  intros Hn. destruct n as [|p|p]; [done| |lia].
  do 4 (destruct p as [p|p|]; [..|done]); lia.
Qed.

Lemma byte_split b : 0 ≤ b < 256 →
  0 ≤ Z.shiftr b 4 < 16 ∧ 0 ≤ Z.land b 15 < 16 ∧ Z.shiftr b 4 * 16 + Z.land b 15 = b.
Proof.
  intros Hb. change 15 with (Z.ones 4). rewrite Z.land_ones, Z.shiftr_div_pow2 by lia.
  change (2 ^ 4) with 16. pose proof (Z.mod_pos_bound b 16). pose proof (Z.div_mod b 16).
  split_and!; lia.
Qed.

Lemma hex_pairs_bytes_to_hex b : hex_pairs (bytes_to_hex b) = Some b.
Proof.
  induction b as [|c b IH]; [done|]. cbn [bytes_to_hex hex_pairs].
  destruct (byte_split (byte_of_char c) (byte_of_char_range c)) as (H1 & H2 & H3).
  rewrite !digit_value_hex_digit, IH, H3 by done. cbn. by rewrite char_of_byte_of_char.
Qed.

Lemma bytes_to_hex_length b : String.length (bytes_to_hex b) = (2 * String.length b)%nat.
Proof. induction b as [|c b IH]; [done|]. cbn [bytes_to_hex String.length]. lia. Qed.

Lemma bytes_to_hex_chars b : all_chars is_hex_char (bytes_to_hex b) = true.
Proof.
  induction b as [|c b IH]; [done|]. cbn [bytes_to_hex all_chars].
  destruct (byte_split (byte_of_char c) (byte_of_char_range c)) as (H1 & H2 & H3).
  unfold is_hex_char at 1 2. by rewrite !digit_value_hex_digit, IH by done.
Qed.

Lemma bytes_to_hex_inj a b : bytes_to_hex a = bytes_to_hex b → a = b.
Proof. intros H%(f_equal hex_pairs). rewrite !hex_pairs_bytes_to_hex in H. by injection H. Qed.

(** Decoding the hex of any non-empty byte string within the decoder's cap gives
    the bytes back. *)
Theorem hex_to_bytes_to_hex b :
  b ≠ "" → (2 * String.length b ≤ kMaxHexLen)%nat → hex_to_bytes (bytes_to_hex b) = Ok b.
Proof.
  intros Hb Hlen. unfold hex_to_bytes, is_hex_strict.
  assert (is_empty (bytes_to_hex b) = false) as ->.
  { apply is_empty_false. by destruct b. }
  rewrite bytes_to_hex_length, bytes_to_hex_chars, hex_pairs_bytes_to_hex.
  destruct (Nat.ltb_spec kMaxHexLen (2 * String.length b)); [lia|].
  rewrite Nat.even_mul. done.
Qed.

Section binding.
Context {C : Crypto}.

Definition address_preimage (scheme : SigScheme) (pk : string) : string :=
  sig_scheme_id scheme +:+ nul +:+ pk.

Lemma address_binds_pubkey_Ok address scheme pubkey_hex :
  address_binds_pubkey address scheme pubkey_hex = Ok () →
  scheme ≠ Unknown ∧ ∃ pk, hex_to_bytes pubkey_hex = Ok pk ∧ pk ≠ "" ∧
    address = strong_hash (address_preimage scheme pk).
Proof.
  unfold address_binds_pubkey, address_binds_pubkey_id. intros H. peel H.
  destruct (hex_to_bytes pubkey_hex) as [pk|]; [|done]. peel H. bools.
  split; [done|]. exists pk. split_and!; [done|by apply is_empty_false|].
  apply String.eqb_eq in H1. rewrite <-H1. unfold hash_committed_address in *.
  by destruct (_ || _) in H0 |- *.
Qed.

(** A hash-committed address commits to one key: if an address binds two
    public keys, they have the same scheme and the same bytes. *)
Theorem address_binds_unique address s1 s2 hex1 hex2 :
  collision_free (λ s, ∃ pk, (hex_to_bytes hex1 = Ok pk ∧ s = address_preimage s1 pk) ∨
                             (hex_to_bytes hex2 = Ok pk ∧ s = address_preimage s2 pk)) →
  address_binds_pubkey address s1 hex1 = Ok () →
  address_binds_pubkey address s2 hex2 = Ok () →
  s1 = s2 ∧ hex_to_bytes hex1 = hex_to_bytes hex2.
Proof.
  intros Hcf (Hs1 & pk1 & Hpk1 & _ & ->)%address_binds_pubkey_Ok
    (Hs2 & pk2 & Hpk2 & _ & Heq)%address_binds_pubkey_Ok.
  rewrite Hpk1, Hpk2 in *. apply bytes_to_hex_inj, Hcf in Heq; [|by eauto..].
  unfold address_preimage, nul in Heq. autorewrite with str in Heq.
  apply split_unique in Heq as [Hid ->]; [|by destruct s1|by destruct s2].
  split; [|done]. by destruct s1, s2.
Qed.
End binding.

(** ** The memory-hard proof-of-work head *)

Definition kMemoryHardScratchBytes : Z := 1048576.
Definition kMemoryHardRounds : nat := 16.

Section memory_hard.
Context {C : Crypto}.

Definition bytes_string (l : list Z) : string := foldr (λ b s, String (char_of_byte b) s) "" l.

Definition mh_cells : list nat := seq 0 (Z.to_nat kMemoryHardScratchBytes).

Definition mh_init (digest : string) : list Z :=
  (λ i, Z.lxor (str_byte digest (i mod String.length digest)) (Z.land (Z.of_nat i) 255)) <$> mh_cells.

(** One cell of the mixing loop of round [r]. *)
Definition mh_mix (r : nat) (scratch : list Z) (i : nat) : list Z :=
  let cell := nth i scratch 0 in
  let j := u64 (u64 (cell * 1315423911) + Z.of_nat i + Z.of_nat r) mod kMemoryHardScratchBytes in
  <[i := Z.lxor (Z.lxor cell (nth (Z.to_nat j) scratch 0)) (Z.land (Z.of_nat i + Z.of_nat r) 255)]>
    scratch.

(** Fold the digest of the scratchpad back into it. *)
Definition mh_fold (r : nat) (digest : string) (scratch : list Z) (i : nat) : list Z :=
  let k := Z.to_nat ((Z.of_nat i * 8191 + Z.of_nat r) mod kMemoryHardScratchBytes) in
  <[k := Z.lxor (nth k scratch 0) (str_byte digest i)]> scratch.

Definition mh_round (scratch : list Z) (r : nat) : list Z :=
  let scratch := foldl (mh_mix r) scratch mh_cells in
  let digest := sha3_512_bytes (bytes_string scratch) in
  foldl (mh_fold r digest) scratch (seq 0 (String.length digest)).

Definition memory_hard_head64 (seed_hex : string) : option Z :=
  let scratch := foldl mh_round (mh_init (sha3_512_bytes seed_hex)) (seq 0 kMemoryHardRounds) in
  hash_head64 (to_hex (sha3_512_bytes (bytes_string scratch))).
End memory_hard.

(** ** The batch verifier, as a function

    [pq_verify_messages_parallel] accepts when every item verifies. The error names
    the first failing index; with several workers the code may name a later one. *)

Record PqVerifyItem := mkPqVerifyItem { item_pubkey : string; item_message : string; item_signature : string }.

Section batch.
Context {C : Crypto}.

Definition verify_item (it : PqVerifyItem) : bool :=
  verify_message_signature_hybrid_uncached (item_pubkey it) (item_message it) (item_signature it).

Fixpoint verify_items_from (i : nat) (items : list PqVerifyItem) : result () :=
  match items with
  | [] => Ok ()
  | it :: items =>
      if verify_item it then verify_items_from (S i) items
      else Err ("batch pq verify failed at index " +:+ to_string (Z.of_nat i))
  end.
Definition pq_verify_messages (items : list PqVerifyItem) : result () := verify_items_from 0 items.
End batch.
