(* ===== verification/Types.v ===== *)
(** * Chain data ([include/addition/block.hpp], [staking.hpp], [config.hpp])

    Integers are [Z]; the well-formedness predicates at the end say which width
    the C++ field has. *)
From S2P Require Import Prelude.

Record TxInput := mkTxInput {
  previous_txid : string;
  output_index : Z;
  witness : string;
}.

Record TxOutput := mkTxOutput { recipient : string; amount : Z }.

Record Transaction := mkTransaction {
  inputs : list TxInput;
  outputs : list TxOutput;
  signer : string;
  signer_pubkey : string;
  signature : string;
  fee : Z;
  nonce : Z;
  shielded : string;
}.

(** [Transaction{}]. *)
Definition empty_transaction : Transaction := mkTransaction [] [] "" "" "" 0 0 "".

Record BlockHeader := mkBlockHeader {
  height : Z;
  previous_hash : string;
  timestamp : Z;
  header_nonce : Z;
  difficulty_target : Z;
  merkle_root : string;
}.

Record StakeVote := mkStakeVote {
  ticket_id : string;
  voted_height : Z;
  voted_hash : string;
  approve : bool;
  vote_signature : string;
}.

Record SlashEvidence := mkSlashEvidence { ev_a : StakeVote; ev_b : StakeVote }.

Record Block := mkBlock {
  header : BlockHeader;
  transactions : list Transaction;
  votes : list StakeVote;
  slashes : list SlashEvidence;
}.

Record StakeTicket := mkStakeTicket {
  id : string;
  owner : string;
  owner_pubkey : string;
  ticket_amount : Z;
  lock_height : Z;
}.

Inductive PowAlgorithm := Sha3_512 | MemoryHard.

(** The fields of [ChainConfig] that consensus reads. *)
Record ChainConfig := mkChainConfig {
  network_id : string;
  genesis_timestamp : Z;
  max_supply : Z;
  block_reward : Z;
  target_block_time_sec : Z;
  pow_algorithm : PowAlgorithm;
  initial_difficulty_target : Z;
  min_difficulty_target : Z;
  max_difficulty_target : Z;
  retarget_window : Z;
  difficulty_fork_height : Z;
  lwma_window : Z;
  legacy_min_difficulty_target : Z;
  halving_interval : Z;
  subsidy_floor : Z;
  require_pq_signatures : bool;
  allow_zero_reward_blocks : bool;
  min_fee : Z;
  staking_activation_height : Z;
  stake_min_amount : Z;
  stake_maturity : Z;
  stake_unbond_delay : Z;
  stake_votes_per_block : Z;
  stake_vote_quorum : Z;
  stake_min_live_tickets : Z;
  stake_reward_bps : Z;
  max_block_weight : Z;
  shielded_enabled : bool;
}.

Definition kStakeAddress : string := "@stake".

#[export] Instance TxInput_eq_dec : EqDecision TxInput.
Proof. solve_decision. Defined.
#[export] Instance TxOutput_eq_dec : EqDecision TxOutput.
Proof. solve_decision. Defined.
#[export] Instance Transaction_eq_dec : EqDecision Transaction.
Proof. solve_decision. Defined.
#[export] Instance BlockHeader_eq_dec : EqDecision BlockHeader.
Proof. solve_decision. Defined.
#[export] Instance StakeVote_eq_dec : EqDecision StakeVote.
Proof. solve_decision. Defined.
#[export] Instance SlashEvidence_eq_dec : EqDecision SlashEvidence.
Proof. solve_decision. Defined.
#[export] Instance Block_eq_dec : EqDecision Block.
Proof. solve_decision. Defined.
#[export] Instance StakeTicket_eq_dec : EqDecision StakeTicket.
Proof. solve_decision. Defined.

(** ** Field widths *)

Definition output_u64 (o : TxOutput) : Prop := is_u64 (amount o).
Definition tx_u64 (tx : Transaction) : Prop :=
  Forall (λ i, is_u32 (output_index i)) (inputs tx) ∧ Forall output_u64 (outputs tx) ∧
  is_u64 (fee tx) ∧ is_u64 (nonce tx).
Definition header_u64 (h : BlockHeader) : Prop :=
  is_u64 (height h) ∧ is_u64 (timestamp h) ∧ is_u64 (header_nonce h) ∧
  is_u64 (difficulty_target h).
Definition block_u64 (b : Block) : Prop :=
  header_u64 (header b) ∧ Forall tx_u64 (transactions b).

#[export] Instance tx_u64_dec tx : Decision (tx_u64 tx).
Proof. unfold tx_u64, output_u64. apply _. Defined.
#[export] Instance block_u64_dec b : Decision (block_u64 b).
Proof. unfold block_u64, header_u64. apply _. Defined.
