(* ===== verification/Wire.v ===== *)
(** * Wire format v3 ([include/addition/wire_v3.hpp], [src/wire_v3.cpp])

    The canonical binary encoding of transactions and blocks, its decoders, and
    the base64 line framing. Decoders take the whole buffer and an offset, as in
    the source, and return the decoded value with the advanced offset. *)
From S2P Require Import Prelude Strings Crypto Types.

Definition kMaxFieldBytes : Z := 4 * 1024 * 1024.
Definition kMaxTxIo : Z := 10000.
Definition kMaxBlockTxs : Z := 100000.
Definition kTxSectionWitness : Z := 1.
Definition kExtVotes : Z := 1.
Definition kExtSlashes : Z := 2.
Definition kMaxExtItems : Z := 256.

Definition str_size (s : string) : Z := Z.of_nat (String.length s).
Definition list_size {A} (l : list A) : Z := Z.of_nat (List.length l).

(** ** Primitive fields *)

Definition put_u8 (v : Z) : string := put_le 1 v.
Definition put_u32 (v : Z) : string := put_le 4 v.
Definition put_u64 (v : Z) : string := put_le 8 v.

Definition get_uint (n : nat) (s : string) (off : nat) : option (Z * nat) :=
  if (String.length s <? off + n)%nat then None else Some (get_le n s off, (off + n)%nat).
Definition get_u8 := get_uint 1.
Definition get_u32 := get_uint 4.
Definition get_u64 := get_uint 8.

Definition is_lower_hex (s : string) (from : nat) : bool :=
  if (String.length s <=? from)%nat || negb (Nat.even (String.length s - from)) then false
  else all_chars is_lower_hex_char (str_drop from s).

Fixpoint hex_to_raw (s : string) : string :=
  match s with
  | String a (String b s) =>
      String (char_of_byte (Z.lor (Z.shiftl (nibble a) 4) (nibble b))) (hex_to_raw s)
  | _ => ""
  end.

Definition raw_to_hex (raw : string) : string := bytes_to_hex raw.

(** [write_tagged]: tag 0 raw, 1 lowercase hex, 2 ["pq="] and lowercase hex. *)
Definition tagged_parts (s : string) : Z * string :=
  if starts_with "pq=" s && is_lower_hex s 3 then (2, hex_to_raw (str_drop 3 s))
  else if is_lower_hex s 0 then (1, hex_to_raw s)
  else (0, s).

Definition write_tagged (s : string) : string :=
  let '(tag, raw) := tagged_parts s in
  put_u8 tag +:+ put_u32 (u32 (str_size raw)) +:+ raw.

Definition read_tagged (inp : string) (off : nat) : option (string * nat) :=
  '(tag, off) ← get_u8 inp off;
  '(n, off) ← get_u32 inp off;
  if (kMaxFieldBytes <? n) || (str_size inp <? Z.of_nat off + n) then None
  else
    let raw := substr inp off (Z.to_nat n) in
    let off' := (off + Z.to_nat n)%nat in
    if tag =? 0 then Some (raw, off')
    else if (tag =? 1) || (tag =? 2) then
      if n =? 0 then None
      else Some ((if tag =? 2 then "pq=" else "") +:+ raw_to_hex raw, off')
    else None.

(** Decode [n] items in sequence. *)
Fixpoint get_many {A} (get : string → nat → option (A * nat)) (n : nat) (inp : string)
    (off : nat) : option (list A * nat) :=
  match n with
  | O => Some ([], off)
  | S n =>
      '(x, off) ← get inp off;
      '(xs, off) ← get_many get n inp off;
      Some (x :: xs, off)
  end.

Definition put_many {A} (put : A → string) (l : list A) : string :=
  foldr (λ x acc, put x +:+ acc) "" l.

(** ** Transactions *)

Section wire.
Context {C : Crypto}.

Definition checksum32 (data : string) : Z := get_le 4 (sha3_512_bytes data) 0.

Definition check_tail (bin : string) (off : nat) (what : string) : result () :=
  reject_if negb (off + 4 =? String.length bin)%nat
    as "invalid " +:+ what +:+ " checksum bounds" ;;
  let expected := get_le 4 bin off in
  reject_if negb (expected =? checksum32 (str_take (String.length bin - 4) bin))
    as what +:+ " checksum mismatch" ;;
  Ok ().

Definition put_input (i : TxInput) : string :=
  write_tagged (previous_txid i) +:+ put_u32 (output_index i).
Definition get_input (inp : string) (off : nat) : option (TxInput * nat) :=
  '(txid, off) ← read_tagged inp off;
  '(idx, off) ← get_u32 inp off;
  Some (mkTxInput txid idx "", off).

Definition put_output (o : TxOutput) : string :=
  write_tagged (recipient o) +:+ put_u64 (amount o).
Definition get_output (inp : string) (off : nat) : option (TxOutput * nat) :=
  '(r, off) ← read_tagged inp off;
  '(a, off) ← get_u64 inp off;
  Some (mkTxOutput r a, off).

Definition put_witness (i : TxInput) : string :=
  put_u32 (u32 (str_size (witness i))) +:+ witness i.

Definition has_witness (tx : Transaction) : bool :=
  existsb (λ i, negb (is_empty (witness i))) (inputs tx).

(** Everything before the trailing checksum. *)
Definition encode_tx_body (tx : Transaction) : string :=
  "TXV3" +:+ write_tagged (signer tx) +:+ write_tagged (signer_pubkey tx) +:+
  write_tagged (signature tx) +:+ put_u64 (fee tx) +:+ put_u64 (nonce tx) +:+
  put_u32 (u32 (list_size (inputs tx))) +:+ put_many put_input (inputs tx) +:+
  put_u32 (u32 (list_size (outputs tx))) +:+ put_many put_output (outputs tx) +:+
  write_tagged (shielded tx) +:+
  (if has_witness tx then put_u8 kTxSectionWitness +:+ put_many put_witness (inputs tx)
   else "").

Definition encode_tx_v3 (tx : Transaction) : string :=
  let b := encode_tx_body tx in b +:+ put_u32 (checksum32 b).

(** The witness loop over the decoded inputs. *)
Fixpoint get_witnesses (ins : list TxInput) (inp : string) (off : nat) :
    option (list TxInput * bool * nat) :=
  match ins with
  | [] => Some ([], false, off)
  | i :: ins =>
      '(wl, off) ← get_u32 inp off;
      if (kMaxFieldBytes <? wl) || (str_size inp <? Z.of_nat off + wl) then None
      else
        let w := substr inp off (Z.to_nat wl) in
        '(ins, any, off) ← get_witnesses ins inp (off + Z.to_nat wl);
        Some (mkTxInput (previous_txid i) (output_index i) w :: ins,
              negb (wl =? 0) || any, off)
  end.

Definition decode_tx_v3 (bin : string) : result Transaction :=
  reject_if (String.length bin <? 8)%nat || negb (String.eqb (str_take 4 bin) "TXV3")
    as "invalid tx v3 magic" ;;
  '(signer, pubkey, sig, fee, nonce, off) ← or_err "invalid tx v3 header"
    ('(signer, off) ← read_tagged bin 4;
     '(pubkey, off) ← read_tagged bin off;
     '(sig, off) ← read_tagged bin off;
     '(fee, off) ← get_u64 bin off;
     '(nonce, off) ← get_u64 bin off;
     Some (signer, pubkey, sig, fee, nonce, off));
  '(n, off) ← or_err "invalid tx v3 inputs count" (get_u32 bin off);
  reject_if kMaxTxIo <? n as "invalid tx v3 inputs count" ;;
  '(ins, off) ← or_err "invalid tx v3 input" (get_many get_input (Z.to_nat n) bin off);
  '(n, off) ← or_err "invalid tx v3 outputs count" (get_u32 bin off);
  reject_if kMaxTxIo <? n as "invalid tx v3 outputs count" ;;
  '(outs, off) ← or_err "invalid tx v3 output" (get_many get_output (Z.to_nat n) bin off);
  '(sh, off) ← or_err "invalid tx v3 shielded" (read_tagged bin off);
  '(ins, off) ←
    (if (4 <=? String.length bin)%nat && (off + 4 <? String.length bin)%nat then
       '(sec, off) ← or_err "unknown tx v3 section" (get_u8 bin off);
       reject_if negb (sec =? kTxSectionWitness) as "unknown tx v3 section" ;;
       '(ins, any, off) ← or_err "invalid tx v3 witness" (get_witnesses ins bin off);
       reject_if negb any as "non-canonical empty tx v3 witness section" ;;
       Ok (ins, off)
     else Ok (ins, off));
  _ ← check_tail bin off "tx v3";
  reject_if bool_decide (outs = []) && is_empty sh as "tx payload has no outputs" ;;
  Ok (mkTransaction ins outs signer pubkey sig fee nonce sh).

(** ** Blocks *)

Definition put_vote (v : StakeVote) : string :=
  write_tagged (ticket_id v) +:+ put_u64 (voted_height v) +:+ write_tagged (voted_hash v) +:+
  put_u8 (if approve v then 1 else 0) +:+ write_tagged (vote_signature v).

Definition get_vote (inp : string) (off : nat) : option (StakeVote * nat) :=
  '(tid, off) ← read_tagged inp off;
  '(h, off) ← get_u64 inp off;
  '(hash, off) ← read_tagged inp off;
  '(a, off) ← get_u8 inp off;
  if 1 <? a then None
  else
    '(sig, off) ← read_tagged inp off;
    Some (mkStakeVote tid h hash (a =? 1) sig, off).

Definition put_slash (e : SlashEvidence) : string := put_vote (ev_a e) +:+ put_vote (ev_b e).
Definition get_slash (inp : string) (off : nat) : option (SlashEvidence * nat) :=
  '(a, off) ← get_vote inp off;
  '(b, off) ← get_vote inp off;
  Some (mkSlashEvidence a b, off).

Definition put_block_tx (tx : Transaction) : string :=
  let t := encode_tx_v3 tx in put_u32 (u32 (str_size t)) +:+ t.

(** One extension section: kind, length, then the counted items. *)
Definition put_section {A} (kind : Z) (put : A → string) (l : list A) : string :=
  match l with
  | [] => ""
  | _ => let sec := put_u32 (u32 (list_size l)) +:+ put_many put l in
         put_u8 kind +:+ put_u32 (u32 (str_size sec)) +:+ sec
  end.

Definition encode_block_body (block : Block) : string :=
  let h := header block in
  "BLV3" +:+ put_u64 (height h) +:+ write_tagged (previous_hash h) +:+
  put_u64 (timestamp h) +:+ put_u64 (header_nonce h) +:+ put_u64 (difficulty_target h) +:+
  write_tagged (merkle_root h) +:+ put_u32 (u32 (list_size (transactions block))) +:+
  put_many put_block_tx (transactions block) +:+
  put_u32 ((if decide (votes block = []) then 0 else 1) +
           (if decide (slashes block = []) then 0 else 1)) +:+
  put_section kExtVotes put_vote (votes block) +:+
  put_section kExtSlashes put_slash (slashes block).

Definition encode_block_v3 (block : Block) : string :=
  let b := encode_block_body block in b +:+ put_u32 (checksum32 b).

(** The transaction loop: a length, a bounds check, a nested decode. *)
Fixpoint decode_block_txs (n : nat) (bin : string) (off : nat) :
    result (list Transaction * nat) :=
  match n with
  | O => Ok ([], off)
  | S n =>
      '(sz, off) ← or_err "invalid block v3 tx bounds" (get_u32 bin off);
      reject_if str_size bin <? Z.of_nat off + sz as "invalid block v3 tx bounds" ;;
      tx ← decode_tx_v3 (substr bin off (Z.to_nat sz));
      '(txs, off) ← decode_block_txs n bin (off + Z.to_nat sz);
      Ok (tx :: txs, off)
  end.

(** The items of one section buffer, which must be used up. *)
Definition decode_items {A} (get : string → nat → option (A * nat)) (what sec : string) :
    result (list A) :=
  '(cnt, so) ← or_err "invalid block v3 extension count" (get_u32 sec 0);
  reject_if (cnt =? 0) || (kMaxExtItems <? cnt) as "invalid block v3 extension count" ;;
  '(items, so) ← or_err ("invalid block v3 " +:+ what) (get_many get (Z.to_nat cnt) sec so);
  reject_if negb (so =? String.length sec)%nat as "invalid block v3 extension trailing bytes" ;;
  Ok items.

Fixpoint decode_exts (n : nat) (last_kind : Z) (vs : list StakeVote) (ss : list SlashEvidence)
    (bin : string) (off : nat) : result (list StakeVote * list SlashEvidence * nat) :=
  match n with
  | O => Ok (vs, ss, off)
  | S n =>
      '(kind, len, off) ← or_err "invalid block v3 extension"
        ('(kind, off) ← get_u8 bin off;
         '(len, off) ← get_u32 bin off;
         Some (kind, len, off));
      reject_if (str_size bin <? Z.of_nat off + len) || (kind <=? last_kind) ||
                (negb (kind =? kExtVotes) && negb (kind =? kExtSlashes))
        as "invalid block v3 extension" ;;
      let sec := substr bin off (Z.to_nat len) in
      let off := (off + Z.to_nat len)%nat in
      if kind =? kExtVotes then
        items ← decode_items get_vote "vote" sec;
        decode_exts n kind (vs ++ items) ss bin off
      else
        items ← decode_items get_slash "slash" sec;
        decode_exts n kind vs (ss ++ items) bin off
  end.

Definition decode_block_v3 (bin : string) : result Block :=
  reject_if (String.length bin <? 8)%nat || negb (String.eqb (str_take 4 bin) "BLV3")
    as "invalid block v3 magic" ;;
  '(hdr, off) ← or_err "invalid block v3 header"
    ('(h, off) ← get_u64 bin 4;
     '(prev, off) ← read_tagged bin off;
     '(ts, off) ← get_u64 bin off;
     '(nonce, off) ← get_u64 bin off;
     '(target, off) ← get_u64 bin off;
     '(root, off) ← read_tagged bin off;
     Some (mkBlockHeader h prev ts nonce target root, off));
  '(n, off) ← or_err "invalid block v3 tx count" (get_u32 bin off);
  reject_if kMaxBlockTxs <? n as "invalid block v3 tx count" ;;
  '(txs, off) ← decode_block_txs (Z.to_nat n) bin off;
  '(ext, off) ← or_err "unsupported block v3 extension section" (get_u32 bin off);
  reject_if 2 <? ext as "unsupported block v3 extension section" ;;
  '(vs, ss, off) ← decode_exts (Z.to_nat ext) 0 [] [] bin off;
  _ ← check_tail bin off "block v3";
  reject_if bool_decide (txs = []) && negb (height hdr =? 0)
    as "block payload has no transactions" ;;
  Ok (mkBlock hdr txs vs ss).
End wire.

(** ** Base64 *)

Definition kB64 : string := "ABCDEFGHIJKLMNOPQRSTUVWXYZabcdefghijklmnopqrstuvwxyz0123456789+/".

Definition b64_char (n : Z) : ascii :=
  match String.get (Z.to_nat (Z.land n 63)) kB64 with Some c => c | None => "A"%char end.

Fixpoint base64_encode (bin : string) : string :=
  match bin with
  | "" => ""
  | String a "" =>
      let n := Z.shiftl (byte_of_char a) 16 in
      String (b64_char (Z.shiftr n 18)) (String (b64_char (Z.shiftr n 12)) "==")
  | String a (String b "") =>
      let n := Z.lor (Z.shiftl (byte_of_char a) 16) (Z.shiftl (byte_of_char b) 8) in
      String (b64_char (Z.shiftr n 18)) (String (b64_char (Z.shiftr n 12))
        (String (b64_char (Z.shiftr n 6)) "="))
  | String a (String b (String c bin)) =>
      let n := Z.lor (Z.lor (Z.shiftl (byte_of_char a) 16) (Z.shiftl (byte_of_char b) 8))
                 (byte_of_char c) in
      String (b64_char (Z.shiftr n 18)) (String (b64_char (Z.shiftr n 12))
        (String (b64_char (Z.shiftr n 6)) (String (b64_char n) (base64_encode bin))))
  end.

(** The reverse table: [-1] for a character outside the alphabet. *)
Definition b64_rev (c : ascii) : Z :=
  match find_char c kB64 with Some k => Z.of_nat k | None => -1 end.

(** One group of four characters: the values and the padding count. [last] tells
    whether the group ends the text, [k] is the position inside the group. *)
Fixpoint b64_group (last : bool) (k : nat) (pad : nat) (cs : list ascii) :
    option (list Z * nat) :=
  match cs with
  | [] => Some ([], pad)
  | c :: cs =>
      if Ascii.eqb c "=" then
        if negb last || (k <? 2)%nat then None
        else '(vs, pad) ← b64_group last (S k) (S pad) cs; Some (0 :: vs, pad)
      else
        if negb (pad =? 0)%nat then None
        else if b64_rev c <? 0 then None
        else '(vs, pad) ← b64_group last (S k) pad cs; Some (b64_rev c :: vs, pad)
  end.

Fixpoint base64_decode (text : string) : option string :=
  match text with
  | "" => Some ""
  | String a (String b (String c (String d text))) =>
      '(vs, pad) ← b64_group (is_empty text) 0 0 [a; b; c; d];
      let v i := nth i vs 0 in
      let n := Z.lor (Z.lor (Z.lor (Z.shiftl (v 0%nat) 18) (Z.shiftl (v 1%nat) 12))
                 (Z.shiftl (v 2%nat) 6)) (v 3%nat) in
      rest ← base64_decode text;
      Some (String (char_of_byte (Z.land (Z.shiftr n 16) 255))
        ((if (pad <? 2)%nat then String (char_of_byte (Z.land (Z.shiftr n 8) 255)) "" else "")
         +:+ (if (pad <? 1)%nat then String (char_of_byte (Z.land n 255)) "" else "") +:+ rest))
  | _ => None
  end.
