(* ===== verification/WireProofs.v ===== *)
(** * Round trips of the wire format

    [WireCodec put get wf] says that [get] reads back what [put] wrote, wherever
    it stands in a buffer and whatever follows; the decoders of [Wire.v] are
    instances, and the transaction, block and base64 round trips follow. *)
From S2P Require Import Prelude Strings Crypto Types Wire.

Class WireCodec {A} (put : A → string) (get : string → nat → option (A * nat))
    (wf : A → Prop) : Prop :=
  wire_codec : ∀ inp off x r, wf x → str_drop off inp = put x +:+ r →
    get inp off = Some (x, (off + String.length (put x))%nat).

(** The cursor past a field that was read. *)
Lemma cursor_next inp off a r :
  str_drop off inp = a +:+ r → str_drop (off + String.length a) inp = r.
Proof. intros H. by rewrite <-str_drop_drop, H, str_drop_app. Qed.

Lemma cursor_length inp off a r :
  str_drop off inp = a +:+ r →
  (String.length inp - off = String.length a + String.length r)%nat.
Proof. intros H. by rewrite <-str_length_drop, H, str_length_app. Qed.

Lemma get_uint_put n inp off v r :
  (0 < n)%nat → 0 ≤ v < 2 ^ (8 * Z.of_nat n) →
  str_drop off inp = put_le n v +:+ r → get_uint n inp off = Some (v, (off + n)%nat).
Proof.
  intros Hn Hv H. unfold get_uint. pose proof (cursor_length _ _ _ _ H) as Hl.
  rewrite put_le_length in Hl. destruct (Nat.ltb_spec (String.length inp) (off + n)); [lia|].
  rewrite (get_le_mod n v inp off r) by (done || lia). by rewrite Z.mod_small.
Qed.

#[export] Instance u8_codec : WireCodec put_u8 get_u8 (λ v, 0 ≤ v < 256).
Proof. intros inp off v r Hv H. by apply (get_uint_put 1 _ _ _ r); [lia|..]. Qed.
#[export] Instance u32_codec : WireCodec put_u32 get_u32 is_u32.
Proof. intros inp off v r Hv H. by apply (get_uint_put 4 _ _ _ r); [lia|..]. Qed.
#[export] Instance u64_codec : WireCodec put_u64 get_u64 is_u64.
Proof. intros inp off v r Hv H. by apply (get_uint_put 8 _ _ _ r); [lia|..]. Qed.

(** ** Tagged strings *)

Lemma lower_hex_nibble c :
  is_lower_hex_char c = true → 0 ≤ nibble c < 16 ∧ hex_digit (nibble c) = c.
Proof. by destruct c as [[][][][][][][][]]. Qed.

Lemma land_shiftl_small a b n : 0 ≤ n → 0 ≤ b < 2 ^ n → Z.land (Z.shiftl a n) b = 0.
Proof.
  intros Hn Hb. replace b with (Z.land b (Z.ones n))
    by (rewrite Z.land_ones by done; by apply Z.mod_small).
  apply Z.bits_inj'. intros i Hi. rewrite !Z.land_spec, Z.bits_0, Z.testbit_ones_nonneg by done.
  rewrite Z.shiftl_spec by done. destruct (Z.ltb_spec i n).
  - by rewrite (Z.testbit_neg_r a) by lia.
  - by rewrite !andb_false_r.
Qed.

Lemma lor_shiftl_add a b n :
  0 ≤ n → 0 ≤ b < 2 ^ n → Z.lor (Z.shiftl a n) b = a * 2 ^ n + b.
Proof.
  intros Hn Hb. pose proof (land_shiftl_small a b n Hn Hb) as H0.
  rewrite <-Z.lxor_lor by done. rewrite <-Z.add_nocarry_lxor by done.
  by rewrite Z.shiftl_mul_pow2.
Qed.

Lemma nibbles_byte hi lo :
  0 ≤ hi < 16 → 0 ≤ lo < 16 →
  let b := Z.lor (Z.shiftl hi 4) lo in 0 ≤ b < 256 ∧ Z.shiftr b 4 = hi ∧ Z.land b 15 = lo.
Proof.
  intros Hh Hl. cbv zeta.
  assert (Hb : Z.lor (Z.shiftl hi 4) lo = hi * 16 + lo) by exact (lor_shiftl_add hi lo 4 ltac:(done) Hl).
  rewrite Hb. split; [lia|]. rewrite Z.shiftr_div_pow2 by lia.
  change 15 with (Z.ones 4). rewrite Z.land_ones by lia. change (2 ^ 4) with 16. split.
  - rewrite Z.div_add_l, Z.div_small; lia.
  - rewrite Z.add_comm, Z.mod_add, Z.mod_small; lia.
Qed.

Lemma raw_to_hex_to_raw s :
  Nat.even (String.length s) = true → all_chars is_lower_hex_char s = true →
  raw_to_hex (hex_to_raw s) = s.
Proof.
  remember (String.length s) as n eqn:Hn. revert s Hn.
  induction (lt_wf n) as [n _ IH]. intros [|a [|b s]] Hn He Ha; [done|by subst|].
  cbn [all_chars] in Ha. apply andb_prop in Ha as [Ha Hs]. apply andb_prop in Hs as [Hb Hs].
  apply lower_hex_nibble in Ha as [Ha1 Ha2], Hb as [Hb1 Hb2].
  destruct (nibbles_byte _ _ Ha1 Hb1) as (Hr & H1 & H2).
  unfold raw_to_hex in *. cbn [hex_to_raw bytes_to_hex].
  rewrite byte_of_char_of_byte, Z.mod_small by done. rewrite H1, H2, Ha2, Hb2.
  do 2 f_equal. subst n. apply (IH (String.length s)); cbn in *; (done || lia).
Qed.

Lemma is_lower_hex_spec s from :
  is_lower_hex s from = true →
  (from < String.length s)%nat ∧ Nat.even (String.length (str_drop from s)) = true ∧
  all_chars is_lower_hex_char (str_drop from s) = true.
Proof.
  unfold is_lower_hex. destruct (_ || _) eqn:E; [done|]. apply orb_false_iff in E as [E1 E2].
  apply Nat.leb_gt in E1. apply negb_false_iff in E2. by rewrite str_length_drop.
Qed.

Lemma starts_with_split p s :
  starts_with p s = true → s = p +:+ str_drop (String.length p) s.
Proof.
  revert s. unfold starts_with. induction p as [|x p IH]; intros s; [by destruct s|].
  destruct s as [|y s]; cbn; [done|]. destruct (Ascii.ascii_dec x y) as [->|]; [|done].
  intros H. rewrite str_app_cons. f_equal. by apply IH.
Qed.

(** What the tag and the raw bytes stand for. *)
Definition untag (tag : Z) (raw : string) : string :=
  if tag =? 0 then raw else (if tag =? 2 then "pq=" else "") +:+ raw_to_hex raw.

Lemma tagged_parts_spec s :
  let '(tag, raw) := tagged_parts s in
  (tag = 0 ∨ tag = 1 ∨ tag = 2) ∧ (tag ≠ 0 → raw ≠ "") ∧ untag tag raw = s.
Proof.
  assert (Hne : ∀ t, (0 < String.length t)%nat → Nat.even (String.length t) = true →
    hex_to_raw t ≠ "") by (intros [|? [|? ?]]; cbn; (done || lia)).
  unfold tagged_parts. destruct (_ && _) eqn:E; [|destruct (is_lower_hex s 0) eqn:E0].
  - apply andb_prop in E as [Hp (Hl & He & Hh)%is_lower_hex_spec].
    split_and!; [lia|intros _; apply Hne; [rewrite str_length_drop; lia|done]|].
    unfold untag. cbn. rewrite raw_to_hex_to_raw by done. symmetry. by apply starts_with_split.
  - apply is_lower_hex_spec in E0 as (Hl & He & Hh).
    split_and!; [lia|intros _; by apply Hne|]. unfold untag. cbn. by apply raw_to_hex_to_raw.
  - split_and!; [lia|done|done].
Qed.

(** A string whose raw form fits the decoder's field cap. *)
Definition tagged_wf (s : string) : Prop := str_size (tagged_parts s).2 ≤ kMaxFieldBytes.

#[export] Instance tagged_codec : WireCodec write_tagged read_tagged tagged_wf.
Proof.
  intros inp off s r Hwf. unfold write_tagged, read_tagged, tagged_wf in *.
  pose proof (tagged_parts_spec s) as Hs. destruct (tagged_parts s) as [tag raw].
  destruct Hs as (Htag & Hne & Hun). cbn [snd] in Hwf. autorewrite with str. intros H0.
  assert (Hsz : u32 (str_size raw) = str_size raw).
  { apply u32_small. unfold is_u32, str_size, kMaxFieldBytes in *. lia. }
  assert (Ht : 0 ≤ tag < 256) by lia.
  assert (Hu : is_u32 (str_size raw)) by (unfold is_u32, str_size, kMaxFieldBytes in *; lia).
  rewrite Hsz in *. rewrite (u8_codec _ _ tag _ Ht H0).
  apply cursor_next in H0. cbn [mbind option_bind].
  rewrite (u32_codec _ _ _ _ Hu H0).
  pose proof (cursor_length _ _ _ _ H0) as Hl. rewrite str_length_app in Hl.
  apply cursor_next in H0. cbn [mbind option_bind].
  change (String.length (put_u8 tag)) with 1%nat in *.
  change (String.length (put_u32 (str_size raw))) with 4%nat in *.
  replace (_ || _) with false; cycle 1.
  { symmetry. apply orb_false_iff. split; apply Z.ltb_ge; [done|]. unfold str_size. lia. }
  assert (Hn : Z.to_nat (str_size raw) = String.length raw) by (unfold str_size; lia).
  unfold substr. rewrite Hn, H0, str_take_app. autorewrite with str.
  rewrite !Nat.add_assoc. unfold untag in Hun. rewrite <-Hun.
  assert (Hz : tag ≠ 0 → (str_size raw =? 0) = false).
  { intros H%Hne. apply Z.eqb_neq. intros Hz. apply H, str_length_0. unfold str_size in Hz. lia. }
  destruct Htag as [->|[->| ->]]; cbn [Z.eqb orb Pos.eqb]; [done|by rewrite Hz..].
Qed.

(** ** Composition *)

(** A list of items read by [get_many]. *)
Lemma get_many_put {A} (put : A → string) get wf `{!WireCodec put get wf} l inp off r :
  Forall wf l → str_drop off inp = put_many put l +:+ r →
  get_many get (length l) inp off = Some (l, (off + String.length (put_many put l))%nat).
Proof.
  intros Hwf. revert off. induction Hwf as [|x l Hx Hl IH]; intros off H.
  { cbn. by rewrite Nat.add_0_r. }
  unfold put_many in *. cbn [foldr] in *. rewrite str_app_assoc in H. cbn [get_many length].
  rewrite (wire_codec _ _ _ _ Hx H). apply cursor_next in H. cbn [mbind option_bind].
  rewrite (IH _ H). cbn [mbind option_bind]. by rewrite str_length_app, Nat.add_assoc.
Qed.

(** Read the next field with its codec and move the cursor. [H] is the fact that
    the buffer continues with that field. *)
Ltac read_field H lem :=
  let E := fresh "E" in
  pose proof (λ wf, lem _ _ _ _ wf H) as E; rewrite (E ltac:(first [assumption|done])); clear E;
  apply cursor_next in H;
  cbn [mbind option_bind result_bind or_err].

Definition vote_wf (v : StakeVote) : Prop :=
  tagged_wf (ticket_id v) ∧ is_u64 (voted_height v) ∧ tagged_wf (voted_hash v) ∧
  tagged_wf (vote_signature v).
Definition slash_wf (e : SlashEvidence) : Prop := vote_wf (ev_a e) ∧ vote_wf (ev_b e).
(** An input without its witness: what the input section carries. *)
Definition strip_witness (i : TxInput) : TxInput :=
  mkTxInput (previous_txid i) (output_index i) "".
Definition input_wf (i : TxInput) : Prop :=
  tagged_wf (previous_txid i) ∧ is_u32 (output_index i).
Definition output_wf (o : TxOutput) : Prop := tagged_wf (recipient o) ∧ is_u64 (amount o).

#[export] Instance input_codec :
  WireCodec put_input get_input (λ i, input_wf i ∧ witness i = "").
Proof.
  intros inp off [txid idx w] r [[Htx Hi] Hw] H. unfold put_input, get_input in *.
  cbn [previous_txid output_index witness] in *. subst w. rewrite str_app_assoc in H.
  read_field H tagged_codec. read_field H u32_codec. by rewrite str_length_app, Nat.add_assoc.
Qed.

#[export] Instance output_codec : WireCodec put_output get_output output_wf.
Proof.
  intros inp off [rc a] r [Hr Ha] H. unfold put_output, get_output in *.
  cbn [recipient amount] in *. rewrite str_app_assoc in H.
  read_field H tagged_codec. read_field H u64_codec. by rewrite str_length_app, Nat.add_assoc.
Qed.

#[export] Instance vote_codec : WireCodec put_vote get_vote vote_wf.
Proof.
  intros inp off [tid vh hash a sig] r (H1 & H2 & H3 & H4) H. unfold put_vote, get_vote in *.
  cbn [ticket_id voted_height voted_hash approve vote_signature] in *.
  rewrite !str_app_assoc in H.
  read_field H tagged_codec. read_field H u64_codec. read_field H tagged_codec.
  assert (Ha : 0 ≤ (if a then 1 else 0) < 256) by (destruct a; lia).
  read_field H u8_codec. replace (1 <? (if a then 1 else 0)) with false by (by destruct a).
  read_field H tagged_codec. rewrite !str_length_app, !Nat.add_assoc. by destruct a.
Qed.

#[export] Instance slash_codec : WireCodec put_slash get_slash slash_wf.
Proof.
  intros inp off [a b] r [Ha Hb] H. unfold put_slash, get_slash in *. cbn [ev_a ev_b] in *.
  rewrite str_app_assoc in H. read_field H vote_codec. read_field H vote_codec.
  by rewrite str_length_app, Nat.add_assoc.
Qed.

(** ** Checksums *)

Lemma get_le_range n s off : 0 ≤ get_le n s off < 2 ^ (8 * Z.of_nat n).
Proof.
  unfold get_le. induction n as [|n IH]; [cbn; lia|].
  rewrite seq_S, foldl_app, Nat.add_0_l. cbn [foldl].
  set (v := foldl _ _ _) in *.
  assert (Hb : 0 ≤ str_byte s (off + n) < 256).
  { unfold str_byte. destruct (String.get _ _); [apply byte_of_char_range|lia]. }
  rewrite Z.lor_comm, lor_shiftl_add by lia.
  replace (2 ^ (8 * Z.of_nat (S n))) with (256 * 2 ^ (8 * Z.of_nat n)).
  - nia.
  - change 256 with (2 ^ 8). rewrite <-Z.pow_add_r by lia. f_equal. lia.
Qed.

Section checksum.
Context {C : Crypto}.

Lemma checksum32_u32 data : is_u32 (checksum32 data).
Proof. apply (get_le_range 4). Qed.

Lemma check_tail_ok body what :
  check_tail (body +:+ put_u32 (checksum32 body)) (String.length body) what = Ok ().
Proof.
  unfold check_tail. autorewrite with str.
  change (String.length (put_u32 (checksum32 body))) with 4%nat.
  rewrite Nat.eqb_refl. cbn [negb].
  replace (String.length body + 4 - 4)%nat with (String.length body) by lia.
  rewrite str_take_app.
  rewrite (get_le_mod 4 (checksum32 body) _ _ "").
  - rewrite Z.mod_small by apply checksum32_u32. by rewrite Z.eqb_refl.
  - apply checksum32_u32.
  - by rewrite str_drop_app, str_app_nil_r.
Qed.
End checksum.

(** ** Transactions *)

Definition witness_wf (i : TxInput) : Prop := str_size (witness i) ≤ kMaxFieldBytes.

(** What [decode_tx_v3] can represent: every field within the decoder's caps. *)
Definition tx_wire_wf (tx : Transaction) : Prop :=
  tagged_wf (signer tx) ∧ tagged_wf (signer_pubkey tx) ∧ tagged_wf (signature tx) ∧
  tagged_wf (shielded tx) ∧ is_u64 (fee tx) ∧ is_u64 (nonce tx) ∧
  list_size (inputs tx) ≤ kMaxTxIo ∧ list_size (outputs tx) ≤ kMaxTxIo ∧
  Forall input_wf (inputs tx) ∧ Forall witness_wf (inputs tx) ∧
  Forall output_wf (outputs tx) ∧ (outputs tx ≠ [] ∨ shielded tx ≠ "").

#[export] Instance tx_wire_wf_dec tx : Decision (tx_wire_wf tx).
Proof. unfold tx_wire_wf, tagged_wf, input_wf, output_wf, witness_wf, tagged_wf. apply _. Defined.

Lemma get_witnesses_put ins inp off r :
  Forall witness_wf ins → str_drop off inp = put_many put_witness ins +:+ r →
  get_witnesses (strip_witness <$> ins) inp off =
  Some (ins, existsb (λ i, negb (is_empty (witness i))) ins,
        (off + String.length (put_many put_witness ins))%nat).
Proof.
  intros Hwf. revert off. induction Hwf as [|[txid idx w] ins Hw Hins IH]; intros off H.
  { cbn. by rewrite Nat.add_0_r. }
  unfold witness_wf, put_many, put_witness in *. cbn [witness] in *.
  cbn [foldr] in *. cbn [witness] in *.
  rewrite !str_app_assoc in H. cbn [fmap list_fmap get_witnesses].
  assert (Hu : is_u32 (str_size w)) by (unfold is_u32, str_size, kMaxFieldBytes in *; lia).
  rewrite (u32_small _ Hu) in *.
  pose proof (cursor_length _ _ _ _ H) as Hl. rewrite str_length_app in Hl.
  change (String.length (put_u32 (str_size w))) with 4%nat in Hl.
  read_field H u32_codec.
  change (String.length (put_u32 (str_size w))) with 4%nat in *.
  replace (_ || _) with false; cycle 1.
  { symmetry. apply orb_false_iff. split; apply Z.ltb_ge; [done|]. unfold str_size in *. lia. }
  assert (Hn : Z.to_nat (str_size w) = String.length w) by (unfold str_size; lia).
  unfold substr. rewrite Hn, H, str_take_app. apply cursor_next in H.
  rewrite (IH _ H). cbn [mbind option_bind previous_txid output_index strip_witness existsb].
  cbn [witness]. do 2 f_equal.
  - do 2 f_equal. unfold str_size. by destruct w.
  - rewrite !str_length_app. change (String.length (put_u32 (str_size w))) with 4%nat. lia.
Qed.

Lemma put_many_strip ins : put_many put_input (strip_witness <$> ins) = put_many put_input ins.
Proof. unfold put_many. induction ins as [|i ins IH]; [done|]. cbn. by rewrite IH. Qed.

Lemma strip_witness_none ins :
  existsb (λ i, negb (is_empty (witness i))) ins = false → strip_witness <$> ins = ins.
Proof.
  induction ins as [|[t x w] ins IH]; [done|]. cbn. intros [Hw Hi]%orb_false_elim.
  rewrite IH by done. apply negb_false_iff, is_empty_true in Hw. cbn in Hw. by subst.
Qed.

Lemma list_size_u32 {A} (l : list A) m : list_size l ≤ m → m < W32 →
  is_u32 (list_size l) ∧ Z.to_nat (list_size l) = length l.
Proof. unfold is_u32, list_size. lia. Qed.

Lemma size_guard {A} (l : list A) m : list_size l ≤ m → (m <? list_size l) = false.
Proof. intros. by apply Z.ltb_ge. Qed.

Section transactions.
Context {C : Crypto}.

Lemma put_u32_length v : String.length (put_u32 v) = 4%nat.
Proof. apply put_le_length. Qed.

Lemma encode_tx_length tx : String.length (encode_tx_v3 tx) =
  (String.length (encode_tx_body tx) + 4)%nat.
Proof. unfold encode_tx_v3. by rewrite str_length_app, put_u32_length. Qed.

(** The input count and list, as read back without witnesses. *)
Lemma get_inputs_put ins inp off r :
  Forall input_wf ins → str_drop off inp = put_many put_input ins +:+ r →
  get_many get_input (length ins) inp off =
  Some (strip_witness <$> ins, (off + String.length (put_many put_input ins))%nat).
Proof.
  intros Hwf H. rewrite <-put_many_strip, <-(length_fmap strip_witness ins).
  rewrite <-put_many_strip in H.
  eapply (get_many_put put_input get_input _ (strip_witness <$> ins)); [|exact H].
  apply Forall_fmap. eapply Forall_impl; [exact Hwf|]. intros i [??]. done.
Qed.

(** The optional witness section restores the stripped witnesses. *)
Lemma read_witness_section tx bin off :
  Forall witness_wf (inputs tx) →
  str_drop off bin =
    (if has_witness tx then put_u8 kTxSectionWitness +:+ put_many put_witness (inputs tx)
     else "") +:+ put_u32 (checksum32 (encode_tx_body tx)) →
  (if (4 <=? String.length bin)%nat && (off + 4 <? String.length bin)%nat then
     '(sec, off) ← or_err "unknown tx v3 section" (get_u8 bin off);
     reject_if negb (sec =? kTxSectionWitness) as "unknown tx v3 section" ;;
     '(ins, any, off) ← or_err "invalid tx v3 witness"
        (get_witnesses (strip_witness <$> inputs tx) bin off);
     reject_if negb any as "non-canonical empty tx v3 witness section" ;;
     Ok (ins, off)
   else Ok (strip_witness <$> inputs tx, off)) =
  Ok (inputs tx, (String.length bin - 4)%nat).
Proof.
  intros Hw H. pose proof (cursor_length _ _ _ _ H) as Hl. rewrite put_u32_length in Hl.
  unfold has_witness in *. destruct (existsb _ _) eqn:Hany.
  - rewrite str_length_app in Hl. change (String.length (put_u8 _)) with 1%nat in Hl.
    replace (_ && _) with true; cycle 1.
    { symmetry. apply andb_true_iff. split; [apply Nat.leb_le|apply Nat.ltb_lt]; lia. }
    rewrite str_app_assoc in H. assert (Hs : 0 ≤ kTxSectionWitness < 256) by (by split).
    read_field H u8_codec. cbn [negb Z.eqb kTxSectionWitness].
    change (negb (kTxSectionWitness =? kTxSectionWitness)) with false. cbv iota.
    rewrite (get_witnesses_put _ _ _ _ Hw H). cbn [or_err mbind result_bind].
    rewrite Hany. cbn [negb]. do 2 f_equal.
    change (String.length (put_u8 _)) with 1%nat. lia.
  - cbn in Hl. replace (_ && _) with false; cycle 1.
    { symmetry. apply andb_false_iff. right. apply Nat.ltb_ge. lia. }
    rewrite strip_witness_none by done. do 2 f_equal. lia.
Qed.

(** Decoding an encoded transaction gives the transaction back, witnesses and
    shielded field included. *)
Theorem decode_encode_tx_v3 tx : tx_wire_wf tx → decode_tx_v3 (encode_tx_v3 tx) = Ok tx.
Proof.
  intros (H1 & H2 & H3 & H4 & H5 & H6 & Hni & Hno & Hin & Hw & Hout & Hne).
  unfold decode_tx_v3. set (bin := encode_tx_v3 tx).
  destruct (list_size_u32 _ _ Hni ltac:(done)) as [Hiu Hin'].
  destruct (list_size_u32 _ _ Hno ltac:(done)) as [Hou Hon'].
  assert (Hlen : (8 ≤ String.length bin)%nat).
  { unfold bin. rewrite encode_tx_length. unfold encode_tx_body. rewrite str_length_app.
    cbn [String.length]. lia. }
  assert (H : str_drop 4 bin = str_drop 4 (encode_tx_body tx) +:+
    put_u32 (checksum32 (encode_tx_body tx))) by done.
  replace (_ || _) with false; cycle 1.
  { symmetry. apply orb_false_iff. split; [by apply Nat.ltb_ge|]. done. }
  unfold encode_tx_body in H at 1. rewrite (str_drop_app "TXV3") in H.
  rewrite !(u32_small (list_size _)) in H by done. rewrite !str_app_assoc in H.
  read_field H tagged_codec. read_field H tagged_codec. read_field H tagged_codec.
  read_field H u64_codec. read_field H u64_codec. read_field H u32_codec.
  rewrite (size_guard _ _ Hni), Hin', (get_inputs_put _ _ _ _ Hin H).
  apply cursor_next in H. cbn [mbind option_bind result_bind or_err].
  read_field H u32_codec. rewrite (size_guard _ _ Hno), Hon'.
  rewrite (get_many_put put_output get_output _ _ _ _ _ Hout H).
  apply cursor_next in H. cbn [mbind option_bind result_bind or_err].
  read_field H tagged_codec.
  rewrite (read_witness_section tx bin _ Hw H). cbn [mbind result_bind].
  unfold bin at 2. rewrite encode_tx_length, Nat.add_sub. unfold bin, encode_tx_v3.
  rewrite check_tail_ok. cbn [mbind result_bind].
  destruct (bool_decide _ && _) eqn:He.
  { exfalso. apply andb_prop in He as [Ho%bool_decide_eq_true Hs%is_empty_true]. tauto. }
  by destruct tx.
Qed.
End transactions.

(** ** Blocks *)

Section blocks.
Context {C : Crypto}.

Definition block_tx_wf (tx : Transaction) : Prop :=
  tx_wire_wf tx ∧ is_u32 (str_size (encode_tx_v3 tx)).

Definition section_wf {A} (put : A → string) (l : list A) : Prop :=
  list_size l ≤ kMaxExtItems ∧
  is_u32 (str_size (put_u32 (u32 (list_size l)) +:+ put_many put l)).

Definition block_wire_wf (b : Block) : Prop :=
  header_u64 (header b) ∧ tagged_wf (previous_hash (header b)) ∧
  tagged_wf (merkle_root (header b)) ∧ list_size (transactions b) ≤ kMaxBlockTxs ∧
  Forall block_tx_wf (transactions b) ∧ Forall vote_wf (votes b) ∧
  Forall slash_wf (slashes b) ∧ section_wf put_vote (votes b) ∧
  section_wf put_slash (slashes b) ∧ (transactions b ≠ [] ∨ height (header b) = 0).

#[export] Instance block_wire_wf_dec b : Decision (block_wire_wf b).
Proof.
  unfold block_wire_wf, header_u64, tagged_wf, block_tx_wf, slash_wf, vote_wf, section_wf,
    tagged_wf. apply _.
Defined.

Lemma str_size_guard bin off (sz : Z) s r :
  str_drop off bin = s +:+ r → sz = str_size s →
  (0 < String.length s + String.length r)%nat →
  (str_size bin <? Z.of_nat off + sz) = false.
Proof.
  intros H -> Hpos. apply cursor_length in H. unfold str_size. apply Z.ltb_ge. lia.
Qed.

Lemma decode_block_txs_put txs bin off r :
  Forall block_tx_wf txs → str_drop off bin = put_many put_block_tx txs +:+ r →
  decode_block_txs (length txs) bin off =
  Ok (txs, (off + String.length (put_many put_block_tx txs))%nat).
Proof.
  intros Hwf. revert off. induction Hwf as [|tx txs [Hx Hsz] Htxs IH]; intros off H.
  { cbn. by rewrite Nat.add_0_r. }
  unfold put_many in *. cbn [foldr length decode_block_txs] in *.
  unfold put_block_tx at 1 in H. rewrite !str_app_assoc, (u32_small _ Hsz) in H.
  read_field H u32_codec.
  assert (Hpos : (0 < String.length (encode_tx_v3 tx))%nat) by (rewrite encode_tx_length; lia).
  rewrite (str_size_guard _ _ _ _ _ H eq_refl ltac:(lia)).
  assert (Hn : Z.to_nat (str_size (encode_tx_v3 tx)) = String.length (encode_tx_v3 tx))
    by (unfold str_size; lia).
  unfold substr. rewrite Hn, H, str_take_app, decode_encode_tx_v3 by done.
  apply cursor_next in H. cbn [mbind result_bind]. rewrite (IH _ H).
  cbn [mbind result_bind]. unfold put_block_tx. rewrite (u32_small _ Hsz).
  by rewrite !str_length_app, !Nat.add_assoc.
Qed.

Lemma decode_items_put {A} (put : A → string) get wf `{!WireCodec put get wf} what l :
  l ≠ [] → list_size l ≤ kMaxExtItems → Forall wf l →
  decode_items get what (put_u32 (u32 (list_size l)) +:+ put_many put l) = Ok l.
Proof.
  intros Hne Hn Hwf. unfold decode_items.
  destruct (list_size_u32 _ _ Hn ltac:(done)) as [Hu Hnat]. rewrite (u32_small _ Hu).
  set (sec := _ +:+ _).
  assert (H : str_drop 0 sec = put_u32 (list_size l) +:+ put_many put l +:+ "").
  { by rewrite str_app_nil_r. }
  read_field H u32_codec. rewrite (size_guard _ _ Hn).
  replace (list_size l =? 0) with false; cycle 1.
  { symmetry. apply Z.eqb_neq. unfold list_size. destruct l; [done|cbn; lia]. }
  cbn [orb]. rewrite Hnat, (get_many_put put get wf _ _ _ _ Hwf H).
  cbn [or_err mbind result_bind]. unfold sec. rewrite str_length_app, Nat.eqb_refl. done.
Qed.

(** One section: its kind is above the last one seen, its buffer is decoded. *)
Lemma decode_exts_section {A} (put : A → string) kind last n (l : list A) vs ss bin off r :
  l ≠ [] → section_wf put l → last < kind → (kind = kExtVotes ∨ kind = kExtSlashes) →
  str_drop off bin = put_section kind put l +:+ r →
  decode_exts (S n) last vs ss bin off =
    let sec := put_u32 (u32 (list_size l)) +:+ put_many put l in
    let off := (off + String.length (put_section kind put l))%nat in
    if kind =? kExtVotes then
      items ← decode_items get_vote "vote" sec; decode_exts n kind (vs ++ items) ss bin off
    else
      items ← decode_items get_slash "slash" sec; decode_exts n kind vs (ss ++ items) bin off.
Proof.
  intros Hne [Hn Hsz] Hlast Hkind H. cbn [decode_exts].
  unfold put_section in *. destruct l as [|x l]; [done|].
  set (sec := put_u32 (u32 (list_size (x :: l))) +:+ put_many put (x :: l)) in *.
  rewrite (u32_small _ Hsz) in *. rewrite !str_app_assoc in H.
  assert (Hk : 0 ≤ kind < 256) by (unfold kExtVotes, kExtSlashes in *; lia).
  read_field H u8_codec. read_field H u32_codec.
  assert (Hpos : (0 < String.length sec)%nat)
    by (unfold sec; rewrite str_length_app, put_u32_length; lia).
  rewrite (str_size_guard _ _ _ _ _ H eq_refl ltac:(lia)).
  replace (kind <=? last) with false by (symmetry; apply Z.leb_gt; lia).
  replace (negb (kind =? kExtVotes) && negb (kind =? kExtSlashes)) with false
    by (by destruct Hkind as [->| ->]).
  cbn [orb].
  assert (Hnat : Z.to_nat (str_size sec) = String.length sec) by (unfold str_size; lia).
  unfold substr. rewrite Hnat, H, str_take_app.
  by rewrite !str_length_app, !Nat.add_assoc.
Qed.

(** The extension area: votes, then slashes, an empty list has no section. *)
Lemma decode_exts_put b bin off r :
  Forall vote_wf (votes b) → Forall slash_wf (slashes b) →
  section_wf put_vote (votes b) → section_wf put_slash (slashes b) →
  str_drop off bin = put_section kExtVotes put_vote (votes b) +:+
    put_section kExtSlashes put_slash (slashes b) +:+ r →
  decode_exts ((if decide (votes b = []) then 0 else 1) +
               (if decide (slashes b = []) then 0 else 1)) 0 [] [] bin off =
  Ok (votes b, slashes b,
      (off + String.length (put_section kExtVotes put_vote (votes b)) +
       String.length (put_section kExtSlashes put_slash (slashes b)))%nat).
Proof.
  intros Hvs Hss Hsv Hs H.
  assert (Hslash : ∀ last vs o, last < kExtSlashes →
    str_drop o bin = put_section kExtSlashes put_slash (slashes b) +:+ r →
    decode_exts (if decide (slashes b = []) then 0 else 1) last vs [] bin o =
    Ok (vs, slashes b,
        (o + String.length (put_section kExtSlashes put_slash (slashes b)))%nat)).
  { intros last vs o Hlast Ho. destruct (decide (slashes b = [])) as [->|Hne].
    { cbn. by rewrite Nat.add_0_r. }
    rewrite (decode_exts_section _ _ _ _ _ _ _ _ _ _ Hne Hs Hlast (or_intror eq_refl) Ho).
    cbv zeta. cbn [Z.eqb kExtSlashes kExtVotes Pos.eqb].
    by rewrite (decode_items_put put_slash get_slash slash_wf _ _ Hne (proj1 Hs) Hss). }
  destruct (decide (votes b = [])) as [Hv|Hne].
  { rewrite Hv in *. cbn [put_section String.length Nat.add]. rewrite Nat.add_0_r.
    by apply Hslash. }
  cbn [Nat.add].
  assert (H01 : 0 < kExtVotes) by done.
  rewrite (decode_exts_section _ _ _ _ _ _ _ _ _ _ Hne Hsv H01 (or_introl eq_refl) H).
  cbv zeta. cbn [Z.eqb kExtVotes Pos.eqb].
  rewrite (decode_items_put put_vote get_vote vote_wf _ _ Hne (proj1 Hsv) Hvs).
  cbn [mbind result_bind app]. rewrite (Hslash kExtVotes _ _ eq_refl); [done|].
  by apply cursor_next in H.
Qed.

(** Decoding an encoded block gives the block back, votes and slashes included. *)
Theorem decode_encode_block_v3 b :
  block_wire_wf b → decode_block_v3 (encode_block_v3 b) = Ok b.
Proof.
  intros ((Hh & Ht & Hno & Hd) & Hp & Hr & Hn & Htxs & Hvs & Hss & Hsv & Hs & Hne).
  unfold decode_block_v3. set (bin := encode_block_v3 b).
  destruct (list_size_u32 _ _ Hn ltac:(done)) as [Hnu Hn'].
  assert (H : str_drop 4 bin = str_drop 4 (encode_block_body b) +:+
    put_u32 (checksum32 (encode_block_body b))) by done.
  assert (Hlen : String.length bin = (String.length (encode_block_body b) + 4)%nat)
    by (unfold bin, encode_block_v3; by rewrite str_length_app, put_u32_length).
  replace (_ || _) with false; cycle 1.
  { symmetry. apply orb_false_iff. split; [apply Nat.ltb_ge|done].
    rewrite Hlen. unfold encode_block_body. rewrite str_length_app. cbn [String.length]. lia. }
  unfold encode_block_body in H at 1. rewrite (str_drop_app "BLV3") in H.
  rewrite (u32_small (list_size _)) in H by done. rewrite !str_app_assoc in H.
  read_field H u64_codec. read_field H tagged_codec. read_field H u64_codec.
  read_field H u64_codec. read_field H u64_codec. read_field H tagged_codec.
  read_field H u32_codec. rewrite (size_guard _ _ Hn), Hn', (decode_block_txs_put _ _ _ _ Htxs H).
  apply cursor_next in H. cbn [mbind option_bind result_bind or_err].
  set (ext := (if decide (votes b = []) then 0 else 1) + _) in *.
  assert (Hext : 0 ≤ ext ≤ 2) by (unfold ext; repeat case_decide; lia).
  assert (Hextu : is_u32 ext) by (unfold is_u32; lia). read_field H u32_codec.
  replace (2 <? ext) with false by (symmetry; apply Z.ltb_ge; lia).
  replace (Z.to_nat ext) with ((if decide (votes b = []) then 0 else 1) +
    (if decide (slashes b = []) then 0 else 1))%nat by (unfold ext; repeat case_decide; lia).
  rewrite (decode_exts_put _ _ _ _ Hvs Hss Hsv Hs H). cbn [mbind result_bind].
  apply cursor_next in H. apply cursor_next in H.
  apply (f_equal String.length) in H. rewrite str_length_drop, !put_u32_length in H.
  rewrite !put_u32_length.
  match goal with |- context [check_tail bin ?o _] =>
    replace o with (String.length bin - 4)%nat by lia end.
  rewrite Hlen, Nat.add_sub. unfold bin, encode_block_v3.
  rewrite check_tail_ok. cbn [mbind result_bind].
  destruct (bool_decide _ && _) eqn:He.
  { exfalso. bools. tauto. }
  by destruct b as [[]].
Qed.
End blocks.

(** ** Base64 *)

Lemma b64_char_spec n :
  b64_rev (b64_char n) = Z.land n 63 ∧ Ascii.eqb (b64_char n) "=" = false.
Proof.
  assert (Hn : 0 ≤ Z.land n 63 < 64).
  { change 63 with (Z.ones 6). rewrite Z.land_ones by done. by apply Z.mod_pos_bound. }
  assert (H : Forall (λ k,
    b64_rev (match String.get k kB64 with Some c => c | None => "A"%char end) = Z.of_nat k ∧
    Ascii.eqb (match String.get k kB64 with Some c => c | None => "A"%char end) "=" = false)
    (seq 0 64)) by (repeat constructor).
  rewrite Forall_forall in H. unfold b64_char.
  rewrite (proj1 (H (Z.to_nat (Z.land n 63)) ltac:(apply elem_of_seq; lia))).
  split; [lia|]. apply H, elem_of_seq. lia.
Qed.

Lemma b64_rev_ge n : (b64_rev (b64_char n) <? 0) = false.
Proof. rewrite (proj1 (b64_char_spec n)). apply Z.ltb_ge, Z.land_nonneg. lia. Qed.

(** A group of four encoded characters holds the four six-bit digits of [n]. *)
Lemma b64_digits n :
  0 ≤ n < 2 ^ 24 →
  Z.lor (Z.lor (Z.lor (Z.shiftl (Z.land (Z.shiftr n 18) 63) 18)
    (Z.shiftl (Z.land (Z.shiftr n 12) 63) 12)) (Z.shiftl (Z.land (Z.shiftr n 6) 63) 6))
    (Z.land n 63) = n.
Proof.
  intros Hn. apply Z.bits_inj'. intros i Hi.
  rewrite !Z.lor_spec, !Z.shiftl_spec, !Z.land_spec by done. change 63 with (Z.ones 6).
  assert (Hhi : 24 ≤ i → Z.testbit n i = false).
  { intros. destruct (decide (n = 0)) as [->|]; [by rewrite Z.bits_0|].
    apply Z.bits_above_log2; [lia|]. apply Z.log2_lt_pow2; [lia|].
    apply Z.lt_le_trans with (2 ^ 24); [lia|]. apply Z.pow_le_mono_r; lia. }
  rewrite !Z.testbit_ones by done.
  destruct (decide (i < 6)); [|destruct (decide (i < 12)); [|destruct (decide (i < 18));
    [|destruct (decide (i < 24)); [|rewrite Hhi by lia]]]];
  repeat match goal with |- context [Z.testbit (Z.shiftr n ?k) (i - ?k)] =>
    destruct (decide (0 ≤ i - k));
    [rewrite (Z.shiftr_spec n k (i - k)) by lia; rewrite Z.sub_add|
     rewrite (Z.testbit_neg_r (Z.shiftr n k)) by lia] end;
  repeat match goal with |- context [?a <? ?b] => destruct (Z.ltb_spec a b); [|try lia]; try lia end;
  repeat match goal with |- context [?a <=? ?b] => destruct (Z.leb_spec a b); [|try lia]; try lia end;
  cbn [andb orb]; rewrite ?andb_false_r, ?andb_true_r, ?orb_false_r; try done; try lia.
Qed.

Lemma b64_bytes a b c :
  0 ≤ a < 256 → 0 ≤ b < 256 → 0 ≤ c < 256 →
  let n := Z.lor (Z.lor (Z.shiftl a 16) (Z.shiftl b 8)) c in
  0 ≤ n < 2 ^ 24 ∧ Z.land (Z.shiftr n 16) 255 = a ∧ Z.land (Z.shiftr n 8) 255 = b ∧
  Z.land n 255 = c.
Proof.
  intros Ha Hb Hc. cbv zeta.
  assert (Hn : Z.lor (Z.lor (Z.shiftl a 16) (Z.shiftl b 8)) c = a * 65536 + b * 256 + c).
  { assert (0 ≤ Z.lor (Z.shiftl b 8) c < 2 ^ 16)
      by (rewrite lor_shiftl_add by lia; change (2 ^ 8) with 256; change (2 ^ 16) with 65536; lia).
    rewrite <-Z.lor_assoc, lor_shiftl_add, lor_shiftl_add by (done || lia).
    change (2 ^ 16) with 65536. change (2 ^ 8) with 256. lia. }
  rewrite Hn, !Z.shiftr_div_pow2 by done. change 255 with (Z.ones 8).
  rewrite !Z.land_ones by done. change (2 ^ 24) with 16777216. change (2 ^ 16) with 65536.
  change (2 ^ 8) with 256. Z.to_euclidean_division_equations. lia.
Qed.

(** One full group: the four values, no padding. *)
Lemma b64_group_digits last a b c d :
  b64_group last 0 0 [b64_char a; b64_char b; b64_char c; b64_char d] =
  Some ([Z.land a 63; Z.land b 63; Z.land c 63; Z.land d 63], 0%nat).
Proof.
  cbn [b64_group]. rewrite !(proj2 (b64_char_spec _)), !b64_rev_ge, !(proj1 (b64_char_spec _)).
  done.
Qed.

(** A closing group: the padding reads as zero digits. *)
Lemma b64_group_pad2 a b :
  b64_group true 0 0 [b64_char a; b64_char b; "="%char; "="%char] =
  Some ([Z.land a 63; Z.land b 63; 0; 0], 2%nat).
Proof.
  cbn [b64_group]. rewrite !(proj2 (b64_char_spec _)), !b64_rev_ge, !(proj1 (b64_char_spec _)). done.
Qed.
Lemma b64_group_pad1 a b c :
  b64_group true 0 0 [b64_char a; b64_char b; b64_char c; "="%char] =
  Some ([Z.land a 63; Z.land b 63; Z.land c 63; 0], 1%nat).
Proof.
  cbn [b64_group]. rewrite !(proj2 (b64_char_spec _)), !b64_rev_ge, !(proj1 (b64_char_spec _)). done.
Qed.

(** The strict decoder inverts the encoder on every byte string, whatever its
    length modulo three. *)
Theorem base64_decode_encode s : base64_decode (base64_encode s) = Some s.
Proof.
  remember (String.length s) as n eqn:Hn. revert s Hn.
  induction n as [n IH] using lt_wf_ind. intros s ->.
  destruct s as [|a [|b [|c s]]]; [done|..]; cbn [base64_encode];
    pose proof (byte_of_char_range a) as Ha; try pose proof (byte_of_char_range b) as Hb;
    try pose proof (byte_of_char_range c) as Hc.
  - destruct (b64_bytes _ 0 0 Ha ltac:(done) ltac:(done)) as (Hr & H1 & _).
    rewrite Z.shiftl_0_l, !Z.lor_0_r in *. set (n := Z.shiftl _ _) in *.
    pose proof (b64_digits n Hr) as Hd.
    replace (Z.land n 63) with 0 in Hd
      by (unfold n; change 63 with (Z.ones 6); rewrite Z.land_ones, Z.shiftl_mul_pow2 by done;
          change (2 ^ 16) with (1024 * 2 ^ 6); rewrite Z.mul_assoc; by rewrite Z_mod_mult).
    replace (Z.land (Z.shiftr n 6) 63) with 0 in Hd
      by (unfold n; change 63 with (Z.ones 6); rewrite Z.shiftr_shiftl_l, Z.land_ones, Z.shiftl_mul_pow2 by done;
          change (2 ^ (16 - 6)) with (16 * 2 ^ 6); rewrite Z.mul_assoc; by rewrite Z_mod_mult).
    cbn [base64_decode is_empty String.eqb]. rewrite b64_group_pad2.
    cbn [mbind option_bind nth Nat.ltb Nat.leb]. rewrite Hd, H1.
    by rewrite char_of_byte_of_char.
  - destruct (b64_bytes _ _ 0 Ha Hb ltac:(done)) as (Hr & H1 & H2 & _).
    rewrite !Z.lor_0_r in *. set (n := Z.lor _ _) in *.
    pose proof (b64_digits n Hr) as Hd.
    replace (Z.land n 63) with 0 in Hd; cycle 1.
    { unfold n. rewrite Z.land_lor_distr_l. change 63 with (Z.ones 6).
      rewrite !Z.land_ones, !Z.shiftl_mul_pow2 by done.
      change (2 ^ 16) with (1024 * 2 ^ 6). change (2 ^ 8) with (4 * 2 ^ 6).
      by rewrite !Z.mul_assoc, !Z_mod_mult. }
    cbn [base64_decode is_empty String.eqb]. rewrite b64_group_pad1.
    cbn [mbind option_bind nth Nat.ltb Nat.leb]. rewrite Hd, H1, H2.
    by rewrite !char_of_byte_of_char.
  - destruct (b64_bytes _ _ _ Ha Hb Hc) as (Hr & H1 & H2 & H3).
    set (n := Z.lor _ (byte_of_char c)) in *.
    cbn [base64_decode]. rewrite b64_group_digits.
    cbn [mbind option_bind nth Nat.ltb Nat.leb]. rewrite (b64_digits n Hr).
    rewrite (IH (String.length s)) by (cbn; lia || done). cbn [mbind option_bind].
    by rewrite H1, H2, H3, !char_of_byte_of_char.
Qed.
