(* ===== verification/Block.v ===== *)
(** * Transaction and block identities ([src/block.cpp])

    Hash preimages, the merkle tree, the header commitment and the consensus
    weights; what each hash commits to, under collision freedom of the strings
    that are actually hashed. [std::size_t] sums stay in [Z]: they count bytes of
    strings held in memory. *)
From S2P Require Import Prelude Strings Crypto Types Wire WireProofs.

Section block.
Context {C : Crypto}.

(** ** Preimages and hashes *)

Definition input_preimage (i : TxInput) : string :=
  previous_txid i +:+ ":" +:+ to_string (output_index i) +:+ ";".
Definition output_preimage (o : TxOutput) : string :=
  recipient o +:+ ":" +:+ to_string (amount o) +:+ ";".

(** The string [hash_transaction] streams. *)
Definition tx_preimage (tx : Transaction) : string :=
  "in[" +:+ put_many input_preimage (inputs tx) +:+
  "]out[" +:+ put_many output_preimage (outputs tx) +:+
  "]signer=" +:+ signer tx +:+ "|pub=" +:+ signer_pubkey tx +:+
  "|fee=" +:+ to_string (fee tx) +:+ "|nonce=" +:+ to_string (nonce tx) +:+
  (if is_empty (shielded tx) then "" else "|sh=" +:+ strong_hash (shielded tx)).

Definition hash_transaction (tx : Transaction) : string := strong_hash (tx_preimage tx).

Definition wtx_preimage (tx : Transaction) : string :=
  hash_transaction tx +:+ "|wit[" +:+
  put_many (λ i, strong_hash (witness i) +:+ ";") (inputs tx) +:+ "]".

Definition hash_transaction_with_witness (tx : Transaction) : string :=
  if existsb (λ i, negb (is_empty (witness i))) (inputs tx)
  then strong_hash (wtx_preimage tx) else hash_transaction tx.

(** ** The merkle tree *)

(** One layer: pairs are hashed, an odd last node is paired with itself. *)
Fixpoint merkle_next (layer : list string) : list string :=
  match layer with
  | [] => []
  | [l] => [strong_hash (l +:+ l)]
  | l :: r :: rest => strong_hash (l +:+ r) :: merkle_next rest
  end.

(** [while (layer.size() > 1)]; [None] means that the fuel ran out. *)
Fixpoint merkle_loop (fuel : nat) (layer : list string) : option string :=
  match layer, fuel with
  | [h], _ => Some h
  | _, O => None
  | _, S fuel => merkle_loop fuel (merkle_next layer)
  end.

Definition compute_merkle_root (txs : list Transaction) : string :=
  match txs with
  | [] => strong_hash "empty"
  | _ => default "" (merkle_loop (length txs) (hash_transaction_with_witness <$> txs))
  end.

Definition header_preimage (h : BlockHeader) : string :=
  to_string (height h) +:+ "|" +:+ previous_hash h +:+ "|" +:+ to_string (timestamp h) +:+ "|" +:+
  to_string (header_nonce h) +:+ "|" +:+ to_string (difficulty_target h) +:+ "|" +:+ merkle_root h.
Definition hash_block_header (h : BlockHeader) : string := strong_hash (header_preimage h).

Definition hash_stake_vote (v : StakeVote) : string :=
  strong_hash ("vote|" +:+ ticket_id v +:+ "|" +:+ to_string (voted_height v) +:+ "|" +:+
    voted_hash v +:+ "|" +:+ (if approve v then "1" else "0") +:+ "|" +:+ vote_signature v).

Definition commitment_preimage (b : Block) : string :=
  "blockcommit_v1|" +:+ compute_merkle_root (transactions b) +:+ "|votes[" +:+
  put_many (λ v, hash_stake_vote v +:+ ";") (votes b) +:+ "]slashes[" +:+
  put_many (λ s, hash_stake_vote (ev_a s) +:+ "," +:+ hash_stake_vote (ev_b s) +:+ ";")
    (slashes b) +:+ "]".

Definition compute_block_commitment (b : Block) : string :=
  let tx_root := compute_merkle_root (transactions b) in
  match votes b, slashes b with
  | [], [] => tx_root
  | _, _ => strong_hash (commitment_preimage b)
  end.

(** ** Weights *)

Definition weight_bin (n : Z) : Z := 4 + (n + 1) / 2.

Definition stake_vote_weight (v : StakeVote) : Z :=
  let ticket := match find_char ":" (ticket_id v) with
                | None => 4 + str_size (ticket_id v)
                | Some colon => weight_bin (str_size (substr (ticket_id v) 0 colon)) + 4
                end in
  ticket + 8 + weight_bin (str_size (voted_hash v)) + 1 + weight_bin (str_size (vote_signature v)).

Definition stake_extension_weight (b : Block) : Z :=
  match votes b, slashes b with
  | [], [] => 0
  | _, _ => 8 + list_sum stake_vote_weight (votes b) +
            list_sum (λ s, stake_vote_weight (ev_a s) + stake_vote_weight (ev_b s)) (slashes b)
  end.

Definition tx_weight (tx : Transaction) : Z := 4 + str_size (encode_tx_v3 tx).

Definition block_weight (b : Block) : Z :=
  let hdr := write_tagged (previous_hash (header b)) +:+ write_tagged (merkle_root (header b)) in
  4 + 8 + 24 + str_size hdr + 4 + 4 + 4 + list_sum tx_weight (transactions b) +
  stake_extension_weight b.

Definition tx_wire_bytes (tx : Transaction) : Z := (tx_weight tx * 4 + 2) / 3 + 1.
End block.

(** ** The merkle loop ends *)

Section merkle.
Context {C : Crypto}.

Lemma merkle_next_length layer : length (merkle_next layer) = ((length layer + 1) / 2)%nat.
Proof.
  remember (length layer) as n eqn:Hn. revert layer Hn.
  induction n as [n IH] using lt_wf_ind. intros [|l [|r rest]] ->; [done..|].
  cbn [merkle_next length]. rewrite (IH (length rest)) by (cbn; lia || done).
  replace (S (S (length rest)) + 1)%nat with (length rest + 1 + 1 * 2)%nat by lia.
  rewrite Nat.div_add by lia. lia.
Qed.

Lemma merkle_loop_some fuel layer :
  layer ≠ [] → (length layer ≤ fuel)%nat → ∃ h, merkle_loop fuel layer = Some h.
Proof.
  revert layer. induction fuel as [|fuel IH]; intros layer Hne Hlen.
  { destruct layer; [done|cbn in Hlen; lia]. }
  destruct layer as [|l [|r rest]]; [done|by eexists|].
  change (merkle_loop (S fuel) (l :: r :: rest)) with
    (merkle_loop fuel (merkle_next (l :: r :: rest))).
  apply IH; [done|]. rewrite merkle_next_length. cbn [length] in *.
  assert ((S (S (length rest)) + 1) / 2 < S (S (length rest)))%nat; [|lia].
  apply Nat.Div0.div_lt_upper_bound. lia.
Qed.

(** More fuel does not change the root. *)
Lemma merkle_loop_fuel n m layer h :
  merkle_loop n layer = Some h → (n ≤ m)%nat → merkle_loop m layer = Some h.
Proof.
  revert m layer. induction n as [|n IH]; intros m layer H Hle.
  { destruct layer as [|l [|]]; [done| |done]. by destruct m. }
  destruct m as [|m]; [lia|]. destruct layer as [|l [|r rest]]; cbn in *;
    [apply (IH m) in H; [done|lia]|done|apply (IH m) in H; [done|lia]].
Qed.
End merkle.

(** ** What the hashes commit to *)

(** A sequence of self-delimiting items closed by a character none starts with
    is read back in one way. *)
Lemma put_many_split {A} (p : A → string) (P : A → Prop) c l1 l2 r1 r2 :
  (∀ x y r s, P x → P y → p x +:+ r = p y +:+ s → x = y ∧ r = s) →
  (∀ x r s, P x → p x +:+ r ≠ String c s) →
  Forall P l1 → Forall P l2 →
  put_many p l1 +:+ String c r1 = put_many p l2 +:+ String c r2 → l1 = l2 ∧ r1 = r2.
Proof.
  intros Hinj Hc Hl1. revert l2. unfold put_many.
  induction Hl1 as [|x l1 Hx _ IH]; intros [|y l2] Hl2; cbn; rewrite ?str_app_nil_l, ?str_app_assoc.
  - by intros [= ->].
  - inv Hl2. intros H. symmetry in H. by apply Hc in H.
  - by intros H%Hc.
  - inv Hl2. intros H. apply Hinj in H as [-> H]; [|done..]. by apply IH in H as [-> ->].
Qed.

(** Text without the separators of the items it is printed in. *)
Definition clean_item (s : string) : Prop := free_of ":" s = true ∧ free_of "]" s = true.
Definition clean_input (i : TxInput) : Prop :=
  clean_item (previous_txid i) ∧ 0 ≤ output_index i ∧ witness i = "".
Definition clean_output (o : TxOutput) : Prop := clean_item (recipient o) ∧ 0 ≤ amount o.

(** The transaction that the txid and the signature are about: no signature, no
    witnesses. *)
Definition unsigned (tx : Transaction) : Transaction :=
  mkTransaction (strip_witness <$> inputs tx) (outputs tx) (signer tx) (signer_pubkey tx) ""
    (fee tx) (nonce tx) (shielded tx).

Definition tx_clean (tx : Transaction) : Prop :=
  Forall clean_input (strip_witness <$> inputs tx) ∧ Forall clean_output (outputs tx) ∧
  free_of "|" (signer tx) = true ∧ free_of "|" (signer_pubkey tx) = true ∧
  0 ≤ fee tx ∧ 0 ≤ nonce tx.

#[export] Instance tx_clean_dec tx : Decision (tx_clean tx).
Proof. unfold tx_clean, clean_input, clean_output, clean_item. apply _. Defined.

Lemma item_split (a b : string) m n r s :
  clean_item a → clean_item b → 0 ≤ m → 0 ≤ n →
  (a +:+ ":" +:+ to_string m +:+ ";") +:+ r = (b +:+ ":" +:+ to_string n +:+ ";") +:+ s →
  a = b ∧ m = n ∧ r = s.
Proof.
  intros [Ha _] [Hb _] Hm Hn H. rewrite !str_app_assoc, !str_app_cons, !str_app_nil_l in H.
  apply split_unique in H as [-> H]; [|done..].
  apply split_unique in H as [Hmn ->]; [|by apply to_string_free_of..].
  split; [done|]. split; [|done]. by apply to_string_inj.
Qed.

Lemma item_not_close (a t : string) s : clean_item a → a +:+ String ":" t ≠ String "]" s.
Proof.
  intros [_ Ha]. destruct a as [|x a]; rewrite ?str_app_nil_l, ?str_app_cons; [done|].
  intros [= -> _]. cbn in Ha. done.
Qed.

Section commits.
Context {C : Crypto}.

Lemma inputs_split l1 l2 r1 r2 :
  Forall clean_input l1 → Forall clean_input l2 →
  put_many input_preimage l1 +:+ String "]" r1 = put_many input_preimage l2 +:+ String "]" r2 →
  l1 = l2 ∧ r1 = r2.
Proof.
  apply put_many_split.
  - intros [a i w] [b j w'] r s (Ha & Hi & Hw) (Hb & Hj & Hw') H.
    unfold input_preimage in H. cbn in *.
    apply item_split in H as (-> & -> & ->); [|done..]. by subst.
  - intros [a i w] r s (Ha & _) H. unfold input_preimage in H.
    rewrite !str_app_assoc, !str_app_cons in H. by apply (item_not_close a) in H.
Qed.
Lemma outputs_split l1 l2 r1 r2 :
  Forall clean_output l1 → Forall clean_output l2 →
  put_many output_preimage l1 +:+ String "]" r1 = put_many output_preimage l2 +:+ String "]" r2 →
  l1 = l2 ∧ r1 = r2.
Proof.
  apply put_many_split.
  - intros [a i] [b j] r s (Ha & Hi) (Hb & Hj) H.
    unfold output_preimage in H. cbn in *.
    by apply item_split in H as (-> & -> & ->).
  - intros [a i] r s (Ha & _) H. unfold output_preimage in H.
    rewrite !str_app_assoc, !str_app_cons in H. by apply (item_not_close a) in H.
Qed.

Lemma input_preimage_strip l :
  put_many input_preimage (strip_witness <$> l) = put_many input_preimage l.
Proof. unfold put_many. induction l as [|i l IH]; cbn; [done|]. by rewrite IH. Qed.

(** The end of a preimage: the nonce and the optional shielded digest. *)
Lemma nonce_split m n a b (d e : string) :
  0 ≤ m → 0 ≤ n →
  to_string m +:+ (if is_empty a then "" else "|sh=" +:+ d) =
  to_string n +:+ (if is_empty b then "" else "|sh=" +:+ e) →
  m = n ∧ (a = "" ↔ b = "") ∧ (a ≠ "" → d = e).
Proof.
  intros Hm Hn.
  assert (Hf : ∀ z t, to_string z +:+ "|sh=" +:+ t ≠ to_string m ∧
                      to_string z +:+ "|sh=" +:+ t ≠ to_string n).
  { intros z t. split; intros H; apply (f_equal (free_of "|")) in H;
      rewrite (to_string_free_of "|") in H by done; unfold free_of in H;
      rewrite all_chars_app in H; cbn in H; by rewrite andb_false_r in H. }
  destruct (is_empty a) eqn:Ha, (is_empty b) eqn:Hb; rewrite ?str_app_nil_r; intros H;
    rewrite ?is_empty_true, ?is_empty_false in *.
  - apply to_string_inj in H; [|done..]. tauto.
  - symmetry in H. by apply Hf in H.
  - by apply Hf in H.
  - rewrite !str_app_cons, !str_app_nil_l in H.
    apply split_unique in H as [Hmn H]; [|by apply to_string_free_of..].
    injection H as ->. apply to_string_inj in Hmn; [|done..]. tauto.
Qed.

Lemma tx_preimage_inj tx1 tx2 :
  tx_clean tx1 → tx_clean tx2 →
  (shielded tx1 ≠ "" → strong_hash (shielded tx1) = strong_hash (shielded tx2) →
    shielded tx1 = shielded tx2) →
  tx_preimage tx1 = tx_preimage tx2 → unsigned tx1 = unsigned tx2.
Proof.
  intros (Hi1 & Ho1 & Hs1 & Hp1 & Hf1 & Hn1) (Hi2 & Ho2 & Hs2 & Hp2 & Hf2 & Hn2) Hsh H.
  unfold tx_preimage in H. rewrite <-!(input_preimage_strip (inputs _)) in H.
  rewrite !str_app_cons, !str_app_nil_l in H. injection H as H.
  apply inputs_split in H as [Hin H]; [|done..]. injection H as H.
  apply outputs_split in H as [Hout H]; [|done..]. injection H as H.
  apply split_unique in H as [Hsig H]; [|done..]. injection H as H.
  apply split_unique in H as [Hpub H]; [|done..]. injection H as H.
  apply split_unique in H as [Hfee H]; [|by apply to_string_free_of..]. injection H as H.
  apply to_string_inj in Hfee; [|done..].
  apply nonce_split in H as (Hnon & Hem & Hd); [|done..].
  unfold unsigned. rewrite Hin, Hout, Hsig, Hpub, Hfee, Hnon.
  destruct (decide (shielded tx1 = "")) as [He|He]; [|by rewrite Hsh by auto].
  by rewrite He, (proj1 Hem He).
Qed.

(** The strings hashed to compute the txid of [tx]. *)
Definition txid_hashed (tx : Transaction) : list string := [tx_preimage tx; shielded tx].

Lemma strong_hash_inj (P : string → Prop) a b :
  collision_free P → P a → P b → strong_hash a = strong_hash b → a = b.
Proof. intros HP ?? H. apply bytes_to_hex_inj in H. by apply HP. Qed.

(** A txid commits to the whole transaction except its signature and its
    witnesses. *)
Theorem hash_transaction_commits tx1 tx2 :
  tx_clean tx1 → tx_clean tx2 →
  collision_free (.∈ txid_hashed tx1 ++ txid_hashed tx2) →
  hash_transaction tx1 = hash_transaction tx2 → unsigned tx1 = unsigned tx2.
Proof.
  intros H1 H2 Hcf H. apply tx_preimage_inj; [done..| |].
  - intros _ Hh. apply (strong_hash_inj _ _ _ Hcf) in Hh; unfold txid_hashed; set_solver.
  - apply (strong_hash_inj _ _ _ Hcf) in H; unfold txid_hashed; set_solver.
Qed.
End commits.

(** ** The merkle root *)

Definition sha3_512_digests {C : Crypto} : Prop := ∀ s, String.length (evp_sha3_512 s) = 64%nat.

(** What a block commits to of a transaction: everything but the signature. *)
Definition committed (tx : Transaction) : Transaction :=
  mkTransaction (inputs tx) (outputs tx) (signer tx) (signer_pubkey tx) "" (fee tx) (nonce tx)
    (shielded tx).

Section root.
Context {C : Crypto}.

Fixpoint merkle_pairs (layer : list string) : list string :=
  match layer with
  | [] => []
  | [l] => [l +:+ l]
  | l :: r :: rest => (l +:+ r) :: merkle_pairs rest
  end.
(** The strings hashed above a layer. *)
Fixpoint merkle_hashed (fuel : nat) (layer : list string) : list string :=
  match layer, fuel with
  | [_], _ | _, O => []
  | _, S fuel => merkle_pairs layer ++ merkle_hashed fuel (merkle_next layer)
  end.
Definition wtxid_hashed (tx : Transaction) : list string :=
  wtx_preimage tx :: txid_hashed tx ++ (witness <$> inputs tx).
(** The strings hashed to compute the root of a block's transactions. *)
Definition root_hashed (txs : list Transaction) : list string :=
  merkle_hashed (length txs) (hash_transaction_with_witness <$> txs) ++
  (txs ≫= wtxid_hashed).

Lemma list_pair_ind {A} (P : list A → Prop) :
  P [] → (∀ x, P [x]) → (∀ x y l, P l → P (x :: y :: l)) → ∀ l, P l.
Proof.
  intros H0 H1 H2. fix IH 1. intros [|x [|y l]]; [done|done|by apply H2, IH].
Qed.

Lemma merkle_next_pairs layer : merkle_next layer = strong_hash <$> merkle_pairs layer.
Proof. induction layer as [|l|l r rest IH] using list_pair_ind; [done..|]. cbn. by rewrite IH. Qed.

Lemma str_app_inj (a b r s : string) :
  String.length a = String.length b → a +:+ r = b +:+ s → a = b ∧ r = s.
Proof.
  revert b. induction a as [|x a IH]; intros [|y b]; cbn; try done.
  rewrite !str_app_cons. intros [= Hl] [= -> H]. by destruct (IH b) as [-> ->].
Qed.

Definition hashes (l : list string) : Prop := Forall (λ h, ∃ s, h = strong_hash s) l.

Lemma strong_hash_length s : sha3_512_digests → String.length (strong_hash s) = 128%nat.
Proof. intros H. unfold strong_hash, to_hex, sha3_512_bytes. by rewrite bytes_to_hex_length, H. Qed.

Lemma merkle_pairs_inj l1 l2 :
  sha3_512_digests → hashes l1 → hashes l2 → length l1 = length l2 →
  merkle_pairs l1 = merkle_pairs l2 → l1 = l2.
Proof.
  intros Hd. revert l2. induction l1 as [|x|x y l1 IH] using list_pair_ind;
    intros [|x' [|y' l2]] H1 H2 Hl; try done; inversion_clear H1 as [|?? [sx ->] H1'];
    inversion_clear H2 as [|?? [sx' ->] H2']; cbn; intros H; injection H as H.
  - by apply str_app_inj in H as [-> _]; [|rewrite !strong_hash_length].
  - inversion H1' as [|?? [sy Hy] H1'']. inversion H2' as [|?? [sy' Hy'] H2'']. subst.
    apply str_app_inj in H as [Hx Hy]; [|by rewrite !strong_hash_length].
    cbn in Hl. rewrite Hx, Hy, (IH l2); (done || lia).
Qed.

Lemma hashes_fmap l : hashes (strong_hash <$> l).
Proof. apply Forall_fmap, Forall_true. intros s. by exists s. Qed.

Lemma fmap_hash_inj (P : string → Prop) l1 l2 :
  collision_free P → Forall P l1 → Forall P l2 →
  strong_hash <$> l1 = strong_hash <$> l2 → l1 = l2.
Proof.
  intros HP H1. revert l2. induction H1 as [|a l1 Ha _ IH]; intros [|b l2] H2; cbn; try done.
  inversion_clear H2 as [|?? Hb H2']. intros [= Hab H].
  apply (strong_hash_inj P) in Hab as ->; [|done..]. f_equal. by apply IH.
Qed.

Lemma merkle_loop_inj (P : string → Prop) n l1 l2 :
  sha3_512_digests → collision_free P → hashes l1 → hashes l2 → length l1 = length l2 →
  (length l1 ≤ n)%nat → l1 ≠ [] →
  (∀ s, s ∈ merkle_hashed n l1 → P s) → (∀ s, s ∈ merkle_hashed n l2 → P s) →
  merkle_loop n l1 = merkle_loop n l2 → l1 = l2.
Proof.
  intros Hd HP. revert l1 l2. induction n as [|n IH]; intros l1 l2 Hh1 Hh2 Hl Hn Hne H1 H2 Hr.
  { destruct l1; [done|cbn in Hn; lia]. }
  destruct l1 as [|x [|y l1]], l2 as [|x' [|y' l2]]; try done.
  { cbn in Hr. congruence. }
  change (merkle_loop n (merkle_next (x :: y :: l1)) = merkle_loop n (merkle_next (x' :: y' :: l2)))
    in Hr.
  change (merkle_hashed (S n) (x' :: y' :: l2)) with
    (merkle_pairs (x' :: y' :: l2) ++ merkle_hashed n (merkle_next (x' :: y' :: l2))) in H2.
  change (merkle_hashed (S n) (x :: y :: l1)) with
    (merkle_pairs (x :: y :: l1) ++ merkle_hashed n (merkle_next (x :: y :: l1))) in H1.
  apply merkle_pairs_inj; [done..|]. apply (fmap_hash_inj P); [done|..].
  { apply Forall_forall. intros s Hs. apply H1, elem_of_app. by left. }
  { apply Forall_forall. intros s Hs. apply H2, elem_of_app. by left. }
  rewrite <-!merkle_next_pairs. apply IH; try done.
  - rewrite merkle_next_pairs. apply hashes_fmap.
  - rewrite merkle_next_pairs. apply hashes_fmap.
  - rewrite !merkle_next_length. by rewrite Hl.
  - rewrite merkle_next_length. cbn [length] in *.
    assert ((S (S (length l1)) + 1) / 2 < S (S (length l1)))%nat; [|lia].
    apply Nat.Div0.div_lt_upper_bound. lia.
  - intros s Hs. apply H1, elem_of_app. by right.
  - intros s Hs. apply H2, elem_of_app. by right.
Qed.

Lemma witness_hashes_split ws1 ws2 :
  sha3_512_digests → length ws1 = length ws2 →
  put_many (λ w, strong_hash w +:+ ";") ws1 = put_many (λ w, strong_hash w +:+ ";") ws2 →
  strong_hash <$> ws1 = strong_hash <$> ws2.
Proof.
  intros Hd. unfold put_many. revert ws2.
  induction ws1 as [|w ws1 IH]; intros [|v ws2]; try done.
  cbn. rewrite !str_app_assoc. intros [= Hl] H.
  apply str_app_inj in H as [-> H]; [|by rewrite !strong_hash_length].
  f_equal. apply IH; [done|]. by injection H.
Qed.

Lemma put_many_length {A} (p : A → string) n l :
  (∀ x, String.length (p x) = n) → String.length (put_many p l) = (length l * n)%nat.
Proof.
  intros Hn. unfold put_many. induction l as [|x l IH]; [done|].
  cbn. by rewrite str_length_app, Hn, IH.
Qed.

Lemma put_many_fmap {A B} (f : A → B) (p : B → string) l :
  put_many p (f <$> l) = put_many (p ∘ f) l.
Proof. unfold put_many. induction l as [|x l IH]; cbn; [done|]. by rewrite IH. Qed.

Lemma committed_unsigned tx1 tx2 :
  unsigned tx1 = unsigned tx2 → witness <$> inputs tx1 = witness <$> inputs tx2 →
  committed tx1 = committed tx2.
Proof.
  unfold unsigned, committed. intros [= Hi -> -> -> -> -> ->] Hw. f_equal.
  revert Hi Hw. generalize (inputs tx1) (inputs tx2). clear.
  induction l as [|[] l IH]; intros [|[] k]; cbn; try done.
  intros [= -> -> Hi] [= -> Hw]. f_equal. by apply IH.
Qed.

Lemma wtxid_inj (P : string → Prop) tx1 tx2 :
  sha3_512_digests → collision_free P → tx_clean tx1 → tx_clean tx2 →
  (∀ s, s ∈ wtxid_hashed tx1 → P s) → (∀ s, s ∈ wtxid_hashed tx2 → P s) →
  hash_transaction_with_witness tx1 = hash_transaction_with_witness tx2 →
  committed tx1 = committed tx2.
Proof.
  intros Hd HP Hc1 Hc2 H1 H2 H. unfold wtxid_hashed, txid_hashed in *.
  assert (Htx : hash_transaction tx1 = hash_transaction tx2 → unsigned tx1 = unsigned tx2).
  { intros Ht. apply hash_transaction_commits; [done..| |done].
    intros a b Ha Hb. apply HP; unfold txid_hashed in *;
      apply elem_of_app in Ha, Hb; set_solver. }
  assert (Hne : ∀ a b, wtx_preimage a ≠ tx_preimage b).
  { intros a b. unfold wtx_preimage, tx_preimage, hash_transaction.
      intros Heq. apply (f_equal (String.get 0)) in Heq. revert Heq.
    pose proof (strong_hash_length (tx_preimage a) Hd) as Hl.
    pose proof (bytes_to_hex_chars (sha3_512_bytes (tx_preimage a))) as Hh.
    change (bytes_to_hex _) with (strong_hash (tx_preimage a)) in Hh.
    destruct (strong_hash (tx_preimage a)) as [|x s]; [done|].
    rewrite !str_app_cons. cbn. intros [= ->]. done. }
  unfold hash_transaction_with_witness in H.
  destruct (existsb _ (inputs tx1)) eqn:E1, (existsb _ (inputs tx2)) eqn:E2.
  - apply (strong_hash_inj P) in H; [|done|set_solver..]. unfold wtx_preimage in H.
    apply str_app_inj in H as [Ht H]; [|unfold hash_transaction; by rewrite !strong_hash_length].
    apply Htx in Ht as Hu. apply committed_unsigned; [done|].
    rewrite !str_app_cons, !str_app_nil_l in H. injection H as H.
    assert (Hlen : length (inputs tx1) = length (inputs tx2)).
    { unfold unsigned in Hu. apply (f_equal (length ∘ inputs)) in Hu. cbn in Hu.
      by rewrite !length_fmap in Hu. }
    apply str_app_inj in H as [H _].
    + apply (fmap_hash_inj P); [done|..].
      { apply Forall_forall. set_solver. }
      { apply Forall_forall. set_solver. }
      apply witness_hashes_split; [done|by rewrite !length_fmap|].
      by rewrite !put_many_fmap.
    + rewrite !(put_many_length _ 129); [by rewrite Hlen|..];
        intros i; by rewrite str_length_app, strong_hash_length.
  - apply (strong_hash_inj P) in H; [|done|set_solver..]. by apply Hne in H.
  - apply (strong_hash_inj P) in H; [|done|set_solver..]. symmetry in H. by apply Hne in H.
  - apply Htx in H. apply committed_unsigned; [done|].
    assert (Hno : ∀ l : list TxInput, existsb (λ i, negb (is_empty (witness i))) l = false →
      witness <$> l = (λ _, "") <$> l).
    { clear. induction l as [|i l IH]; cbn; [done|]. intros Hb. bools.
      rewrite IH by done. f_equal. by apply is_empty_true. }
    rewrite !Hno by done. unfold unsigned in H. injection H as Hi _ _ _ _ _ _.
    apply (f_equal (fmap (λ _ : TxInput, ""))) in Hi.
    by rewrite <-!list_fmap_compose in Hi.
Qed.

Lemma wtxids_inj (P : string → Prop) txs1 txs2 :
  sha3_512_digests → collision_free P → Forall tx_clean txs1 → Forall tx_clean txs2 →
  Forall (λ tx, ∀ s, s ∈ wtxid_hashed tx → P s) txs1 →
  Forall (λ tx, ∀ s, s ∈ wtxid_hashed tx → P s) txs2 →
  hash_transaction_with_witness <$> txs1 = hash_transaction_with_witness <$> txs2 →
  committed <$> txs1 = committed <$> txs2.
Proof.
  intros Hd HP Hc1. revert txs2. induction Hc1 as [|tx1 txs1 Hx _ IH]; intros [|tx2 txs2];
    cbn; try done.
  intros Hc2 H1 H2 [= Hw Hws]. inversion Hc2. inversion H1. inversion H2. subst.
  f_equal; [by apply (wtxid_inj P)|by apply IH].
Qed.

End root.

(** ** Weights and the wire *)

Section weights.
Context {C : Crypto}.

Lemma str_size_app (a b : string) : str_size (a +:+ b) = str_size a + str_size b.
Proof. unfold str_size. rewrite str_length_app. lia. Qed.

Lemma str_size_put_many {A} (p : A → string) l :
  str_size (put_many p l) = list_sum (λ x, str_size (p x)) l.
Proof. unfold put_many. induction l as [|x l IH]; [done|]. cbn. rewrite str_size_app. lia. Qed.

(** The consensus weight of a block without votes and slashes is the size of
    its canonical wire encoding, byte for byte. *)
Theorem block_weight_exact b :
  votes b = [] → slashes b = [] → block_weight b = str_size (encode_block_v3 b).
Proof.
  intros Hv Hs. unfold block_weight, stake_extension_weight, encode_block_v3, encode_block_body.
  rewrite Hv, Hs. cbn [put_section]. rewrite !str_size_app, str_size_put_many.
  assert (Hle : ∀ n v, str_size (put_le n v) = Z.of_nat n)
    by (intros; unfold str_size; by rewrite put_le_length).
  unfold put_u64, put_u32. rewrite !Hle.
  replace (list_sum (λ x, str_size (put_block_tx x)) (transactions b)) with
    (list_sum tx_weight (transactions b)); cycle 1.
  { apply list_sum_ext. intros tx _. unfold put_block_tx, tx_weight, put_u32.
    by rewrite str_size_app, Hle. }
  change (str_size "BLV3") with 4. change (str_size "") with 0. lia.
Qed.
End weights.

(** A vote on the wire is larger than its weight: the ticket id ["txid:index"] is
    not hex, so [write_tagged] stores it as text, while [stake_vote_weight] counts
    its txid at half size. *)
Example stake_vote_weight_below_wire :
  let v := mkStakeVote "abababababababababababababababababababababababababababababababab:0" 7
             "cdcd" true "pq=efef" in
  stake_vote_weight v < str_size (put_vote v).
Proof. vm_compute. reflexivity. Qed.
