(* ===== verification/Staking.v ===== *)
(** * Ticket selection and stake rewards ([src/staking.cpp])

    The deterministic draw of voting tickets and the split of the stakers' pool.
    [std::sort] is the language's: the model uses an insertion sort on ids and
    proves the draw independent of which sorting permutation is used. *)
From stdpp Require Import sorting.
From S2P Require Import Prelude Strings Crypto Types.

Fixpoint insert_ticket (t : StakeTicket) (l : list StakeTicket) : list StakeTicket :=
  match l with
  | [] => [t]
  | u :: l' => if str_ltb (id u) (id t) then u :: insert_ticket t l' else t :: l
  end.
Definition sort_tickets (l : list StakeTicket) : list StakeTicket := foldr insert_ticket [] l.

Section staking.
Context {C : Crypto}.

(** Eight big-endian bytes of the digest. *)
Definition seed_u64 (seed : string) (round : Z) : Z :=
  let digest := sha3_512_bytes
    ("ADDITION_TICKET_DRAW_V1|" +:+ seed +:+ "|" +:+ to_string round) in
  foldl (λ v i, Z.lor (u64 (Z.shiftl v 8)) (str_byte digest i)) 0 (seq 0 8).

Definition stake_vote_message (network_id : string) (voted_height : Z)
    (voted_hash ticket : string) (approve : bool) : string :=
  "ADDITION_STAKE_VOTE_V1|" +:+ network_id +:+ "|" +:+ to_string voted_height +:+ "|" +:+
  voted_hash +:+ "|" +:+ ticket +:+ "|" +:+ (if approve then "approve" else "reject").

(** The 128-bit draw of one round, modulo the total. *)
Definition ticket_draw (seed : string) (round total : Z) : Z :=
  Z.lor (u128 (Z.shiftl (seed_u64 seed (u32 (round * 2))) 64))
        (seed_u64 seed (u32 (u32 (round * 2) + 1))) mod total.

(** The inner loop: the ticket whose interval holds [r], and the others. *)
Fixpoint pick_ticket (r acc : Z) (l : list StakeTicket) : option (StakeTicket * list StakeTicket) :=
  match l with
  | [] => None
  | t :: l =>
      let acc := u128 (acc + ticket_amount t) in
      if r <? acc then Some (t, l)
      else '(u, rest) ← pick_ticket r acc l; Some (u, t :: rest)
  end.

(** [for (round = 0; round < count && !eligible.empty() && total > 0; ++round)]:
    [n] is [count - round]. *)
Fixpoint draw_rounds (n : nat) (seed : string) (round total : Z) (l : list StakeTicket) :
    list string :=
  match n with
  | O => []
  | S n =>
      if bool_decide (l = []) || negb (0 <? total) then []
      else
        match pick_ticket (ticket_draw seed round total) 0 l with
        | None => draw_rounds n seed (u32 (round + 1)) total l
        | Some (t, rest) =>
            id t :: draw_rounds n seed (u32 (round + 1)) (u128 (total - ticket_amount t)) rest
        end
  end.

Definition select_tickets (eligible : list StakeTicket) (seed : string) (count : Z) : list string :=
  let eligible := sort_tickets eligible in
  let total := foldl (λ total t, u128 (total + ticket_amount t)) 0 eligible in
  draw_rounds (Z.to_nat count) seed 0 total eligible.

Definition stake_reward_pool (subsidy_plus_fees bps : Z) : Z :=
  let capped := Z.min bps 10000 in
  u64 (u128 (subsidy_plus_fees * capped) / 10000).

Definition stake_reward_per_vote (subsidy_plus_fees bps nvotes : Z) : Z :=
  if nvotes =? 0 then 0 else stake_reward_pool subsidy_plus_fees bps / nvotes.
End staking.

(** ** The order of tickets *)

(** [t] may stand before [u] in the sorted pool. *)
Definition ticket_le (t u : StakeTicket) : Prop := str_ltb (id u) (id t) = false.

#[export] Instance ticket_le_trans : Transitive ticket_le.
Proof.
  intros t u v Htu Huv. unfold ticket_le in *. destruct (str_ltb (id v) (id t)) eqn:E; [|done].
  destruct (str_ltb (id t) (id u)) eqn:E'.
  - by rewrite (str_ltb_trans _ _ _ E E') in Huv.
  - by rewrite (str_ltb_total _ _ E' Htu) in E; rewrite Huv in E.
Qed.

Lemma insert_ticket_perm t l : insert_ticket t l ≡ₚ t :: l.
Proof.
  induction l as [|u l IH]; [done|]. cbn. destruct (str_ltb _ _); [|done].
  rewrite IH. by rewrite Permutation_swap.
Qed.
Lemma sort_tickets_perm l : sort_tickets l ≡ₚ l.
Proof. induction l as [|t l IH]; [done|]. cbn. rewrite insert_ticket_perm. by f_equiv. Qed.

Lemma insert_ticket_sorted t l :
  StronglySorted ticket_le l → StronglySorted ticket_le (insert_ticket t l).
Proof.
  induction 1 as [|u l Hl IH Hu]; cbn; [by repeat constructor|].
  destruct (str_ltb (id u) (id t)) eqn:E; constructor; [done| |by constructor|].
  - rewrite insert_ticket_perm. constructor; [|done]. by apply str_ltb_asym.
  - constructor; [done|]. eapply Forall_impl; [exact Hu|]. intros v Hv. by transitivity u.
Qed.
Lemma sort_tickets_sorted l : StronglySorted ticket_le (sort_tickets l).
Proof. induction l; cbn; [constructor|by apply insert_ticket_sorted]. Qed.

(** Any sorted permutation of a pool with distinct ids is the one used here, so
    the choice of sorting algorithm is immaterial. *)
Lemma sort_tickets_unique l k :
  NoDup (id <$> l) → l ≡ₚ k → StronglySorted ticket_le k → k = sort_tickets l.
Proof.
  intros Hnd Hperm Hk. apply (StronglySorted_unique_strong ticket_le).
  - intros t u Ht Hu H1 H2. rewrite sort_tickets_perm in Hu. rewrite <-Hperm in Ht.
    assert (Hid : id t = id u) by by apply str_ltb_total.
    apply list_elem_of_lookup in Ht as [i Hi], Hu as [j Hj].
    assert (i = j) as ->; [|congruence].
    apply (NoDup_lookup _ _ _ (id t) Hnd); rewrite list_lookup_fmap, ?Hi, ?Hj; cbn; congruence.
  - done.
  - apply sort_tickets_sorted.
  - by rewrite sort_tickets_perm.
Qed.

(** ** The draw *)

Definition stake_sum (l : list StakeTicket) : Z := list_sum ticket_amount l.
Definition positive_tickets (l : list StakeTicket) : list StakeTicket :=
  filter (λ t, 0 < ticket_amount t) l.
(** A pool whose amounts are unsigned and whose total fits the 128-bit accumulator
    (fewer than [2^64] tickets of 64-bit amounts always do). *)
Definition pool_wf (l : list StakeTicket) : Prop :=
  Forall (λ t, 0 ≤ ticket_amount t) l ∧ stake_sum l < W128.

#[export] Instance pool_wf_dec l : Decision (pool_wf l).
Proof. unfold pool_wf. apply _. Defined.

Lemma stake_sum_nonneg l : Forall (λ t, 0 ≤ ticket_amount t) l → 0 ≤ stake_sum l.
Proof. rewrite Forall_forall. apply list_sum_nonneg. Qed.

Lemma pool_wf_perm l k : l ≡ₚ k → pool_wf l → pool_wf k.
Proof.
  intros Hp [Hnn Hs]. split; [by rewrite <-Hp|].
  unfold stake_sum in *. by rewrite <-(list_sum_Permutation _ _ _ Hp).
Qed.

Lemma total_stake acc l :
  0 ≤ acc → Forall (λ t, 0 ≤ ticket_amount t) l → acc + stake_sum l < W128 →
  foldl (λ total t, u128 (total + ticket_amount t)) acc l = acc + stake_sum l.
Proof.
  intros Ha Hl. revert acc Ha. unfold stake_sum.
  induction Hl as [|t l Ht Hl IH]; intros acc Ha Hs; cbn in *; [lia|].
  pose proof (stake_sum_nonneg l Hl). unfold stake_sum in *.
  rewrite u128_small by lia. rewrite IH; lia.
Qed.

(** The ticket drawn by [r] is the one whose interval of the cumulated stake holds
    [r]: the chance of a ticket is its share of the stake. *)
Lemma pick_ticket_interval r acc l :
  0 ≤ acc → Forall (λ t, 0 ≤ ticket_amount t) l → acc + stake_sum l < W128 →
  acc ≤ r < acc + stake_sum l →
  ∃ l1 t l2, l = l1 ++ t :: l2 ∧ pick_ticket r acc l = Some (t, l1 ++ l2) ∧
    acc + stake_sum l1 ≤ r < acc + stake_sum l1 + ticket_amount t.
Proof.
  intros Ha Hl. revert acc Ha. unfold stake_sum.
  induction Hl as [|t l Ht Hl IH]; intros acc Ha Hs Hr; cbn in *; [lia|].
  pose proof (stake_sum_nonneg l Hl). unfold stake_sum in *.
  rewrite u128_small by lia. destruct (Z.ltb_spec r (acc + ticket_amount t)).
  - exists [], t, l. split_and!; [done|done|cbn; lia..].
  - destruct (IH (acc + ticket_amount t)) as (l1 & u & l2 & -> & -> & Hi); [lia..|].
    exists (t :: l1), u, l2. split_and!; [done|done|cbn in *; lia..].
Qed.

Lemma positive_of_sum l :
  Forall (λ t, 0 ≤ ticket_amount t) l → stake_sum l = 0 → positive_tickets l = [].
Proof.
  unfold stake_sum, positive_tickets. induction 1 as [|t l Ht Hl IH]; [done|].
  rewrite list_sum_cons. intros Hs.
  pose proof (stake_sum_nonneg l Hl). unfold stake_sum in *.
  rewrite filter_cons_False by lia. apply IH. lia.
Qed.

Section draw.
Context {C : Crypto}.

Lemma ticket_draw_range seed round total : 0 < total → 0 ≤ ticket_draw seed round total < total.
Proof. intros. unfold ticket_draw. by apply Z.mod_pos_bound. Qed.

(** The rounds draw positive tickets of the pool, none twice, until the count or
    the positive tickets run out. *)
Lemma draw_rounds_spec n seed round l :
  pool_wf l →
  (∃ rest, (draw_rounds n seed round (stake_sum l) l) ++ rest ≡ₚ id <$> positive_tickets l) ∧
  length (draw_rounds n seed round (stake_sum l) l) = Nat.min n (length (positive_tickets l)).
Proof.
  revert round l. induction n as [|n IH]; intros round l [Hnn Hs]; cbn [draw_rounds].
  { split; [by exists (id <$> positive_tickets l)|done]. }
  pose proof (stake_sum_nonneg _ Hnn) as H0.
  destruct (bool_decide (l = []) || negb (0 <? stake_sum l)) eqn:Hstop.
  { assert (positive_tickets l = []) as ->.
    { apply orb_prop in Hstop as [H|H]; bools; [by subst|]. apply positive_of_sum; [done|lia]. }
    split; [by exists []|by rewrite Nat.min_0_r]. }
  bools. pose proof (ticket_draw_range seed round (stake_sum l) ltac:(done)) as Hd.
  destruct (pick_ticket_interval (ticket_draw seed round (stake_sum l)) 0 l)
    as (l1 & t & l2 & -> & -> & Hi); [done..|lia|].
  assert (Hsum : stake_sum (l1 ++ t :: l2) = ticket_amount t + stake_sum (l1 ++ l2)).
  { unfold stake_sum. rewrite !list_sum_app. cbn. lia. }
  apply Forall_app in Hnn as [Hn1 Hn2]. inversion_clear Hn2 as [|?? Ht Hn3].
  assert (Hwf : pool_wf (l1 ++ l2)) by (split; [by apply Forall_app|lia]).
  pose proof (stake_sum_nonneg _ (proj1 Hwf)) as H2.
  rewrite (u128_small (stake_sum _ - _)) by lia.
  replace (stake_sum (l1 ++ t :: l2) - ticket_amount t) with (stake_sum (l1 ++ l2)) by lia.
  destruct (IH (u32 (round + 1)) _ Hwf) as [(rest & Hrest) Hlen].
  assert (Hpos : positive_tickets (l1 ++ t :: l2) ≡ₚ t :: positive_tickets (l1 ++ l2)).
  { unfold positive_tickets. rewrite !filter_app, filter_cons_True by lia.
    by rewrite Permutation_middle. }
  split.
  - exists rest. rewrite Hpos. cbn. by rewrite Hrest.
  - rewrite (Permutation_length Hpos). cbn. by rewrite Hlen.
Qed.

(** The selection draws tickets of the pool with positive stake, no ticket twice,
    and as many as asked for unless the pool has fewer. *)
Theorem select_tickets_spec eligible seed count :
  pool_wf eligible → NoDup (id <$> eligible) →
  NoDup (select_tickets eligible seed count) ∧
  (∀ i, i ∈ select_tickets eligible seed count →
     ∃ t, t ∈ eligible ∧ id t = i ∧ 0 < ticket_amount t) ∧
  length (select_tickets eligible seed count) =
    Nat.min (Z.to_nat count) (length (positive_tickets eligible)).
Proof.
  intros Hwf Hnd. pose proof (sort_tickets_perm eligible) as Hp. unfold select_tickets.
  apply (pool_wf_perm _ _ (symmetry Hp)) in Hwf.
  rewrite (total_stake 0) by (done || apply Hwf || rewrite Z.add_0_l; apply Hwf).
  rewrite Z.add_0_l.
  destruct (draw_rounds_spec (Z.to_nat count) seed 0 _ Hwf) as [(rest & Hrest) Hlen].
  assert (Hpos : positive_tickets (sort_tickets eligible) ≡ₚ positive_tickets eligible)
    by (unfold positive_tickets; by rewrite Hp).
  rewrite Hpos in Hrest. split_and!.
  - assert (Hnd' : NoDup (id <$> positive_tickets eligible)).
    { eapply sublist_NoDup; [exact Hnd|]. apply fmap_sublist, sublist_filter. }
    rewrite <-Hrest in Hnd'. by apply NoDup_app in Hnd' as (? & _).
  - intros i Hi. assert (Hi' : i ∈ id <$> positive_tickets eligible)
      by (rewrite <-Hrest; apply elem_of_app; by left).
    apply list_elem_of_fmap in Hi' as (t & -> & Ht). apply list_elem_of_filter in Ht as [??].
    by exists t.
  - by rewrite Hlen, (Permutation_length Hpos).
Qed.

(** The selection does not depend on the order in which the pool is listed. *)
Theorem select_tickets_order l k seed count :
  NoDup (id <$> l) → l ≡ₚ k → select_tickets l seed count = select_tickets k seed count.
Proof.
  intros Hnd Hp. unfold select_tickets.
  rewrite (sort_tickets_unique l (sort_tickets k)); [done|done| |apply sort_tickets_sorted].
  by rewrite sort_tickets_perm.
Qed.
End draw.

(** The stakers' pool is exactly the capped share of subsidy and fees. *)
Lemma stake_reward_pool_exact s bps :
  is_u64 s → 0 ≤ bps → stake_reward_pool s bps = s * Z.min bps 10000 / 10000.
Proof.
  intros Hs Hb. unfold stake_reward_pool, is_u64 in *. rewrite u128_small by nia.
  apply u64_small. unfold is_u64. split; [apply Z.div_pos; nia|].
  apply Z.div_lt_upper_bound; nia.
Qed.

(** The votes are never paid more than the stakers' pool, the pool is never more
    than subsidy plus fees, and what division leaves over is less than one unit
    per vote. *)
Theorem stake_reward_split s bps n :
  is_u64 s → 0 ≤ bps → 0 < n →
  0 ≤ stake_reward_per_vote s bps n ∧
  stake_reward_per_vote s bps n * n ≤ stake_reward_pool s bps ≤ s ∧
  stake_reward_pool s bps < stake_reward_per_vote s bps n * n + n.
Proof.
  intros Hs Hb Hn. unfold stake_reward_per_vote.
  replace (n =? 0) with false by (symmetry; apply Z.eqb_neq; lia).
  assert (Hp : 0 ≤ stake_reward_pool s bps ≤ s).
  { rewrite stake_reward_pool_exact by done. unfold is_u64 in *.
    split; [apply Z.div_pos; nia|]. apply Z.div_le_upper_bound; nia. }
  pose proof (Z.div_mod (stake_reward_pool s bps) n). pose proof (Z.mod_pos_bound (stake_reward_pool s bps) n).
  split_and!; [apply Z.div_pos; lia|nia..].
Qed.

(** A signed vote message determines the network, the height, the hash, the
    ticket and the choice. *)
Theorem stake_vote_message_binds n1 h1 b1 t1 a1 n2 h2 b2 t2 a2 :
  free_of "|" n1 = true → free_of "|" n2 = true → free_of "|" b1 = true → free_of "|" b2 = true →
  free_of "|" t1 = true → free_of "|" t2 = true → 0 ≤ h1 → 0 ≤ h2 →
  stake_vote_message n1 h1 b1 t1 a1 = stake_vote_message n2 h2 b2 t2 a2 →
  n1 = n2 ∧ h1 = h2 ∧ b1 = b2 ∧ t1 = t2 ∧ a1 = a2.
Proof.
  intros ?????? Hh1 Hh2 H. unfold stake_vote_message in H.
  rewrite !str_app_cons, !str_app_nil_l in H. injection H as H.
  apply split_unique in H as [-> H]; [|done..].
  apply split_unique in H as [Hh H]; [|by apply to_string_free_of..].
  apply split_unique in H as [-> H]; [|done..].
  apply split_unique in H as [-> H]; [|done..].
  apply to_string_inj in Hh; [|done..]. by destruct a1, a2.
Qed.
