(* ===== verification/Shielded.v ===== *)
(** * The shielded pool ([include/addition/shielded.hpp], [src/shielded.cpp])

    Bundles and their encoding, the note-commitment tree, and the pool's consensus
    state. [H32] and [Bytes] are byte strings. The STARK verifier is the Rust
    library behind [addition_shielded.h], a parameter here; note encryption, the
    keystore and the prover (ML-KEM, AES-GCM, randomness) are not modelled. *)
From S2P Require Import Prelude Strings Crypto Types Wire.

(** What [addition_shielded.h] offers when it is linked in. *)
Class Stark := {
  stark_linked : bool;
  addition_shielded_image_id : string;
  addition_shielded_verify : string → string → Z;
}.

Definition kTreeDepth : nat := 32.
Definition kMaxIn : Z := 4.
Definition kMaxOut : Z := 4.
Definition kRecentAnchors : nat := 256.
Definition kMaxProofBytes : Z := 4 * 1024 * 1024.

Definition zero_h32 : string := put_le 32 0.

(** ** Bundles *)

Record EncryptedNote := mkEncryptedNote { kem_ct : string; aead : string }.
Record Bundle := mkBundle {
  vpub_in : Z;
  vpub_out : Z;
  anchor : string;
  nullifiers : list string;
  commitments : list string;
  enc : list EncryptedNote;
  proof : string;
}.

#[export] Instance EncryptedNote_eq_dec : EqDecision EncryptedNote.
Proof. solve_decision. Defined.
#[export] Instance Bundle_eq_dec : EqDecision Bundle.
Proof. solve_decision. Defined.

Definition puth (h : string) : string := h.
Definition putv (v : string) : string := put_u32 (u32 (str_size v)) +:+ v.
Definition put_enc (e : EncryptedNote) : string := putv (kem_ct e) +:+ putv (aead e).

Definition serialize (b : Bundle) : string :=
  "Z1" +:+ put_u64 (vpub_in b) +:+ put_u64 (vpub_out b) +:+ puth (anchor b) +:+
  put_u32 (u32 (list_size (nullifiers b))) +:+ put_many puth (nullifiers b) +:+
  put_u32 (u32 (list_size (commitments b))) +:+ put_many puth (commitments b) +:+
  put_u32 (u32 (list_size (enc b))) +:+ put_many put_enc (enc b) +:+ putv (proof b).

(** [Rd]: the reader over a buffer and its position. *)
Definition rd_take (n : nat) (inp : string) (off : nat) : option (string * nat) :=
  if (String.length inp - off <? n)%nat then None else Some (substr inp off n, (off + n)%nat).

(** [for (k = n - 1; k >= 0; --k) v = (v << 8) | p[k]]. *)
Definition rd_uint (n : nat) (inp : string) (off : nat) : option (Z * nat) :=
  '(p, off) ← rd_take n inp off;
  Some (foldr (λ k v, Z.lor (Z.shiftl v 8) (str_byte p k)) 0 (seq 0 n), off).
Definition rd_u64 := rd_uint 8.
Definition rd_u32 := rd_uint 4.
Definition rd_h := rd_take 32.
Definition rd_vec (max : Z) (inp : string) (off : nat) : option (string * nat) :=
  '(n, off) ← rd_u32 inp off;
  if max <? n then None else rd_take (Z.to_nat n) inp off.
Definition rd_enc (inp : string) (off : nat) : option (EncryptedNote * nat) :=
  '(ct, off) ← rd_vec 4096 inp off;
  '(ae, off) ← rd_vec 4096 inp off;
  Some (mkEncryptedNote ct ae, off).

Definition deserialize (inp : string) : result Bundle :=
  or_err "malformed shielded bundle"
    ('(magic, off) ← rd_take 2 inp 0;
     if negb (String.eqb magic "Z1") then None else
     '(vin, off) ← rd_u64 inp off;
     '(vout, off) ← rd_u64 inp off;
     '(anc, off) ← rd_h inp off;
     '(n, off) ← rd_u32 inp off;
     if kMaxIn <? n then None else
     '(nfs, off) ← get_many rd_h (Z.to_nat n) inp off;
     '(n, off) ← rd_u32 inp off;
     if kMaxOut <? n then None else
     '(cms, off) ← get_many rd_h (Z.to_nat n) inp off;
     '(n, off) ← rd_u32 inp off;
     if negb (n =? list_size cms) then None else
     '(encs, off) ← get_many rd_enc (Z.to_nat n) inp off;
     '(prf, off) ← rd_vec kMaxProofBytes inp off;
     if negb (off =? String.length inp)%nat then None else
     Some (mkBundle vin vout anc nfs cms encs prf)).

Definition to_tx_field (b : Bundle) : string := bytes_to_hex (serialize b).

Definition kMaxHex : Z := 2 * (kMaxProofBytes + 64 * 1024).

(** [nib]: lowercase digits only. *)
Definition nib (c : ascii) : option Z :=
  let b := byte_of_char c in
  if (48 <=? b) && (b <=? 57) then Some (b - 48)
  else if (97 <=? b) && (b <=? 102) then Some (b - 97 + 10)
  else None.

Fixpoint nib_pairs (s : string) : option string :=
  match s with
  | "" => Some ""
  | String a (String b s) =>
      hi ← nib a; lo ← nib b; rest ← nib_pairs s;
      Some (String (char_of_byte (Z.lor (Z.shiftl hi 4) lo)) rest)
  | _ => None
  end.

Definition from_tx_field (hex : string) : result Bundle :=
  reject_if is_empty hex || (kMaxHex <? str_size hex) || negb (Nat.even (String.length hex))
    as "malformed shielded bundle hex" ;;
  raw ← or_err "malformed shielded bundle hex" (nib_pairs hex);
  deserialize raw.

(** ** Hashes and the proof statement *)

Section shielded.
Context {C : Crypto} {ST : Stark}.

Definition hex32 (h : string) : string := bytes_to_hex h.
Definition sha256_dom (dom : string) (parts : list string) : string :=
  evp_sha256 (dom +:+ put_many puth parts).
Definition owner_tag (nk : string) : string := sha256_dom "ADD/owner/v1" [nk].
Definition note_commitment (value : Z) (owner rho r : string) : string :=
  sha256_dom "ADD/cm/v1" [put_u64 value; owner; rho; r].
Definition nullifier (nk rho : string) : string := sha256_dom "ADD/nf/v1" [nk; rho].
Definition merkle_node (l r : string) : string := sha256_dom "ADD/mk/v1" [l; r].

Definition put_str (s : string) : string := put_u32 (u32 (str_size s)) +:+ s.

Definition bind_preimage (tx : Transaction) (b : Bundle) : string :=
  "ADD/bind/v1" +:+ put_u32 (u32 (list_size (inputs tx))) +:+
  put_many (λ i, put_str (previous_txid i) +:+ put_u32 (output_index i)) (inputs tx) +:+
  put_u32 (u32 (list_size (outputs tx))) +:+
  put_many (λ o, put_str (recipient o) +:+ put_u64 (amount o)) (outputs tx) +:+
  put_str (signer tx) +:+ put_str (signer_pubkey tx) +:+ put_u64 (fee tx) +:+
  put_u64 (nonce tx) +:+ put_u64 (vpub_in b) +:+ put_u64 (vpub_out b) +:+
  put_u32 (u32 (list_size (enc b))) +:+ put_many put_enc (enc b) +:+
  (if stark_linked then addition_shielded_image_id else zero_h32).
Definition bind_hash (tx : Transaction) (b : Bundle) : string :=
  evp_sha256 (bind_preimage tx b).

Definition expected_journal (bind : string) (b : Bundle) : string :=
  "ADDSHLD1" +:+ puth bind +:+ puth (anchor b) +:+ put_u64 (vpub_in b) +:+
  put_u64 (vpub_out b) +:+
  put_u32 (u32 (list_size (nullifiers b))) +:+ put_many puth (nullifiers b) +:+
  put_u32 (u32 (list_size (commitments b))) +:+ put_many puth (commitments b).

Definition verify_bundle_proof (tx : Transaction) (b : Bundle) : result () :=
  if stark_linked then
    let rc := addition_shielded_verify (proof b) (expected_journal (bind_hash tx b) b) in
    reject_if negb (rc =? 0)
      as "shielded: STARK verification failed (code " +:+ to_string rc +:+ ")" ;;
    Ok ()
  else Err "shielded: node built without STARK verifier; rejecting (fail-closed)".

(** ** The commitment tree *)

(** [empty_[d]]: the root of an empty subtree of depth [d]. *)
Fixpoint empty_root (d : nat) : string :=
  match d with
  | O => zero_h32
  | S d => let e := empty_root d in merkle_node e e
  end.

Record CommitmentTree := mkTree {
  leaves : list string;
  frontier : list string;
  root_ : string;
}.

Definition tree_empty : CommitmentTree :=
  mkTree [] (replicate kTreeDepth zero_h32) (empty_root kTreeDepth).

(** One level of [append]: the frontier and the hash carried up. *)
Definition append_level (pos : Z) (st : list string * string) (d : nat) : list string * string :=
  let '(fr, cur) := st in
  if Z.land (Z.shiftr pos (Z.of_nat d)) 1 =? 0
  then (<[d := cur]> fr, merkle_node cur (empty_root d))
  else (fr, merkle_node (nth d fr zero_h32) cur).

Definition append (cm : string) (t : CommitmentTree) : CommitmentTree :=
  let pos := list_size (leaves t) in
  let '(fr, cur) := foldl (append_level pos) (frontier t, cm) (seq 0 kTreeDepth) in
  mkTree (leaves t ++ [cm]) fr cur.

Definition tree_root (t : CommitmentTree) : string := root_ t.

(** One layer of [path]: pairs, an odd last node padded with an empty subtree. *)
Fixpoint path_layer (e : string) (layer : list string) : list string :=
  match layer with
  | [] => []
  | [l] => [merkle_node l e]
  | l :: r :: rest => merkle_node l r :: path_layer e rest
  end.

(** The sibling hashes from depth [d] up, [n] levels. *)
Fixpoint path_loop (n d : nat) (pos : Z) (layer : list string) : list string :=
  match n with
  | O => []
  | S n =>
      let s := Z.lxor pos 1 in
      let sib := if s <? list_size layer then nth (Z.to_nat s) layer zero_h32 else empty_root d in
      sib :: path_loop n (S d) (Z.shiftr pos 1) (path_layer (empty_root d) layer)
  end.

Definition path (pos : Z) (t : CommitmentTree) : option (list string) :=
  if list_size (leaves t) <=? pos then None
  else Some (path_loop kTreeDepth 0 pos (leaves t)).

(** ** Consensus state *)

Record State := mkState {
  tree : CommitmentTree;
  recent : list string;
  recent_set : gset string;
  nfs : gset string;
  cms : gset string;
}.

(** [while (recent_.size() > kRecentAnchors)]: drop the oldest roots. *)
Fixpoint trim_recent (q : list string) (rs : gset string) : list string * gset string :=
  match q with
  | h :: q' => if (kRecentAnchors <? length q)%nat then trim_recent q' (rs ∖ {[hex32 h]})
               else (q, rs)
  | [] => ([], rs)
  end.

Definition remember_root (s : State) : State :=
  let r := hex32 (tree_root (tree s)) in
  let '(q, rs) := if bool_decide (r ∈ recent_set s) then (recent s, recent_set s)
                  else (recent s ++ [tree_root (tree s)], {[r]} ∪ recent_set s) in
  let '(q, rs) := trim_recent q rs in
  mkState (tree s) q rs (nfs s) (cms s).

Definition state_init : State := remember_root (mkState tree_empty [] ∅ ∅ ∅).

Definition nullifier_spent (s : State) (nf : string) : bool := bool_decide (hex32 nf ∈ nfs s).

(** The nullifier loop of [check], with its [local] set. *)
Fixpoint check_nullifiers (s : State) (pending local : gset string) (ns : list string) : result () :=
  match ns with
  | [] => Ok ()
  | n :: ns =>
      let k := hex32 n in
      reject_if bool_decide (k ∈ nfs s) || bool_decide (k ∈ pending) || bool_decide (k ∈ local)
        as "shielded: nullifier already spent" ;;
      check_nullifiers s pending ({[k]} ∪ local) ns
  end.

Definition check (s : State) (b : Bundle) (pending : gset string) : result () :=
  reject_if negb (length (commitments b) =? length (enc b))%nat
    as "shielded: enc/cm count mismatch" ;;
  reject_if bool_decide (nullifiers b = []) && bool_decide (commitments b = [])
    as "shielded: empty bundle" ;;
  reject_if negb (bool_decide (nullifiers b = [])) &&
            negb (bool_decide (hex32 (anchor b) ∈ recent_set s))
    as "shielded: unknown or stale anchor" ;;
  reject_if bool_decide (nullifiers b = []) && negb (String.eqb (anchor b) zero_h32)
    as "shielded: anchor must be zero without spends" ;;
  reject_if 2 ^ Z.of_nat kTreeDepth <? list_size (leaves (tree s)) + list_size (commitments b)
    as "shielded: tree full" ;;
  _ ← check_nullifiers s pending ∅ (nullifiers b);
  reject_if existsb (λ c, bool_decide (hex32 c ∈ cms s)) (commitments b)
    as "shielded: duplicate commitment" ;;
  Ok ().

Definition apply (b : Bundle) (s : State) : State :=
  let ns := foldl (λ acc n, {[hex32 n]} ∪ acc) (nfs s) (nullifiers b) in
  let '(t, cs) := foldl (λ '(t, cs) c, (append c t, {[hex32 c]} ∪ cs))
                    (tree s, cms s) (commitments b) in
  remember_root (mkState t (recent s) (recent_set s) ns cs).
End shielded.
