(* ===== verification/ShieldedProofs.v ===== *)
(** * The shielded pool: proofs

    Bundle encoding (round trip and canonicity), the note-commitment tree (its
    frontier computes the full merkle root, membership paths verify), and the
    nullifier set (no note is spent twice). *)
From S2P Require Import Prelude Strings Crypto Types Wire WireProofs Shielded.

(** ** Little-endian reads *)

Fixpoint le_val (s : string) : Z :=
  match s with "" => 0 | String c s => byte_of_char c + 256 * le_val s end.

Lemma le_val_range s : 0 ≤ le_val s < 256 ^ Z.of_nat (String.length s).
Proof.
  induction s as [|c s IH]; [done|]. cbn [le_val String.length].
  rewrite Nat2Z.inj_succ, Z.pow_succ_r by lia. pose proof (byte_of_char_range c). lia.
Qed.

Lemma rd_fold p :
  foldr (λ k v, Z.lor (Z.shiftl v 8) (str_byte p k)) 0 (seq 0 (String.length p)) = le_val p.
Proof.
  induction p as [|c p IH]; [done|]. cbn [String.length seq foldr le_val].
  rewrite <-fmap_S_seq, foldr_fmap.
  change (str_byte (String c p) 0) with (byte_of_char c).
  rewrite lor_shiftl_add by (try apply (byte_of_char_range c); done).
  rewrite <-IH. change (2 ^ 8) with 256. rewrite Z.add_comm, Z.mul_comm. do 2 f_equal.
Qed.

Lemma put_le_le_val p : put_le (String.length p) (le_val p) = p.
Proof.
  induction p as [|c p IH]; [done|]. cbn [String.length put_le le_val].
  pose proof (byte_of_char_range c). f_equal.
  - change 255 with (Z.ones 8). rewrite Z.land_ones by done. change (2 ^ 8) with 256.
    rewrite (Z.mul_comm 256), Z.mod_add, Z.mod_small by lia. apply char_of_byte_of_char.
  - rewrite Z.shiftr_div_pow2 by done. change (2 ^ 8) with 256.
    rewrite Z.add_comm, Z.mul_comm, Z.div_add_l, Z.div_small by lia. by rewrite Z.add_0_r.
Qed.

Lemma le_val_put_le n v : 0 ≤ v < 256 ^ Z.of_nat n → le_val (put_le n v) = v.
Proof.
  revert v. induction n as [|n IH]; intros v Hv; [cbn in *; lia|].
  rewrite Nat2Z.inj_succ, Z.pow_succ_r in Hv by lia. cbn [put_le le_val].
  rewrite Z.shiftr_div_pow2 by done. change 255 with (Z.ones 8). rewrite Z.land_ones by done.
  change (2 ^ 8) with 256. rewrite byte_of_char_of_byte, Z.mod_mod by done.
  rewrite IH; [pose proof (Z.div_mod v 256); lia|].
  split; [apply Z.div_pos; lia|apply Z.div_lt_upper_bound; lia].
Qed.

(** ** Bundle codecs *)

(** [get] only accepts what [put] writes: the bytes it consumed are the encoding
    of the value it returned. *)
Class WireCanon {A} (put : A → string) (get : string → nat → option (A * nat)) : Prop :=
  wire_canon : ∀ inp off x off', get inp off = Some (x, off') → (off ≤ String.length inp)%nat →
    str_drop off inp = put x +:+ str_drop off' inp ∧ (off' ≤ String.length inp)%nat.

Lemma rd_take_put n inp off s r :
  String.length s = n → str_drop off inp = s +:+ r → rd_take n inp off = Some (s, (off + n)%nat).
Proof.
  intros <- H. unfold rd_take. pose proof (cursor_length _ _ _ _ H).
  replace (_ <? _)%nat with false by (symmetry; apply Nat.ltb_ge; lia).
  unfold substr. by rewrite H, str_take_app.
Qed.

Lemma rd_take_canon n inp off s off' :
  rd_take n inp off = Some (s, off') → (off ≤ String.length inp)%nat →
  str_drop off inp = s +:+ str_drop off' inp ∧ String.length s = n ∧ off' = (off + n)%nat ∧
  (off' ≤ String.length inp)%nat.
Proof.
  unfold rd_take. destruct (Nat.ltb_spec (String.length inp - off) n); [done|].
  intros [= <- <-] Hoff. unfold substr. split_and!; [|..|done|lia].
  - rewrite <-str_drop_drop. by rewrite str_take_drop.
  - rewrite str_length_take, str_length_drop. lia.
Qed.

Lemma rd_uint_put n inp off v r :
  0 ≤ v < 256 ^ Z.of_nat n → str_drop off inp = put_le n v +:+ r →
  rd_uint n inp off = Some (v, (off + n)%nat).
Proof.
  intros Hv H. unfold rd_uint. rewrite (rd_take_put n _ _ _ _ (put_le_length n v) H).
  cbn [mbind option_bind].
  replace (seq 0 n) with (seq 0 (String.length (put_le n v))) by (by rewrite put_le_length).
  by rewrite rd_fold, le_val_put_le.
Qed.

Lemma rd_uint_canon n : WireCanon (put_le n) (rd_uint n).
Proof.
  intros inp off v off' H Hoff. unfold rd_uint in H.
  apply bind_Some in H as ([p off1] & (Hp & Hl & -> & Hle)%rd_take_canon & H); [|done].
  injection H as <- <-. split; [|done]. subst n. by rewrite rd_fold, put_le_le_val.
Qed.

#[export] Instance rd_u32_codec : WireCodec put_u32 rd_u32 is_u32.
Proof.
  intros inp off v r Hv H. unfold put_u32. rewrite put_le_length.
  by apply (rd_uint_put 4 _ _ _ r).
Qed.
#[export] Instance rd_u64_codec : WireCodec put_u64 rd_u64 is_u64.
Proof.
  intros inp off v r Hv H. unfold put_u64. rewrite put_le_length.
  by apply (rd_uint_put 8 _ _ _ r).
Qed.
Definition h32_wf (h : string) : Prop := String.length h = 32%nat.
#[export] Instance rd_h_codec : WireCodec puth rd_h h32_wf.
Proof. intros inp off h r Hh H. unfold puth. rewrite Hh. by apply (rd_take_put 32 _ _ _ r). Qed.
#[export] Instance rd_u32_canon : WireCanon put_u32 rd_u32 := rd_uint_canon 4.
#[export] Instance rd_u64_canon : WireCanon put_u64 rd_u64 := rd_uint_canon 8.
#[export] Instance rd_h_canon : WireCanon puth rd_h.
Proof. intros inp off h off' H Hoff. by apply rd_take_canon in H as (? & _ & _ & ?). Qed.

Lemma rd_u32_range inp off v off' : rd_u32 inp off = Some (v, off') → is_u32 v.
Proof.
  unfold rd_u32, rd_uint. intros ([p o] & Hp & H)%bind_Some.
  assert (Hl : String.length p = 4%nat).
  { unfold rd_take in Hp. case_match eqn:E; [done|]. injection Hp as <- _.
    unfold substr. apply Nat.ltb_ge in E. rewrite str_length_take, str_length_drop. lia. }
  pose proof (rd_fold p) as Hf. pose proof (le_val_range p) as Hr. rewrite Hl in Hf, Hr.
  rewrite Hf in H. injection H as <- <-. exact Hr.
Qed.

Lemma rd_vec_codec max : max < W32 → WireCodec putv (rd_vec max) (λ v, str_size v ≤ max).
Proof.
  intros Hmax inp off v r Hv H. unfold putv, rd_vec in *. rewrite str_app_assoc in H.
  assert (Hu : is_u32 (str_size v)) by (unfold is_u32, str_size in *; lia).
  rewrite (u32_small _ Hu) in *. read_field H rd_u32_codec.
  replace (max <? str_size v) with false by (symmetry; apply Z.ltb_ge; lia).
  replace (Z.to_nat (str_size v)) with (String.length v) by (unfold str_size; lia).
  rewrite (rd_take_put (String.length v) _ _ v r); [|done..].
  by rewrite str_length_app, Nat.add_assoc.
Qed.
Lemma rd_vec_canon max : WireCanon putv (rd_vec max).
Proof.
  intros inp off v off' H Hoff. unfold rd_vec in H.
  apply bind_Some in H as ([n o] & Hn & H). pose proof (rd_u32_range _ _ _ _ Hn) as Hu.
  apply wire_canon in Hn as [Hn Ho]; [|done].
  destruct (max <? n); [done|]. apply rd_take_canon in H as (Hv & Hl & -> & Hle); [|done].
  split; [|done]. unfold putv. rewrite Hn, Hv, str_app_assoc. f_equal.
  unfold str_size. rewrite Hl. unfold is_u32 in Hu. rewrite Z2Nat.id by lia.
  by rewrite u32_small.
Qed.

(** [WireCanon] of a sequence of items. *)
Lemma get_many_canon {A} (put : A → string) get `{!WireCanon put get} n inp off xs off' :
  get_many get n inp off = Some (xs, off') → (off ≤ String.length inp)%nat →
  str_drop off inp = put_many put xs +:+ str_drop off' inp ∧ length xs = n ∧
  (off' ≤ String.length inp)%nat.
Proof.
  revert off xs. induction n as [|n IH]; intros off xs H Hoff; cbn in H.
  { by injection H as <- <-. }
  apply bind_Some in H as ([x o] & Hx & H). apply bind_Some in H as ([ys o'] & Hys & H).
  injection H as <- <-. apply wire_canon in Hx as [Hx Ho]; [|done].
  apply IH in Hys as (Hys & Hl & Hle); [|done]. unfold put_many in *. cbn.
  rewrite Hx, Hys, str_app_assoc, Hl. done.
Qed.

Definition enc_wf (e : EncryptedNote) : Prop := str_size (kem_ct e) ≤ 4096 ∧ str_size (aead e) ≤ 4096.

#[export] Instance rd_enc_codec : WireCodec put_enc rd_enc enc_wf.
Proof.
  intros inp off [ct ae] r [H1 H2] H. unfold put_enc, rd_enc in *. cbn [kem_ct aead] in *.
  rewrite str_app_assoc in H. assert (Hm : 4096 < W32) by done.
  read_field H (rd_vec_codec 4096 Hm). read_field H (rd_vec_codec 4096 Hm).
  by rewrite str_length_app, Nat.add_assoc.
Qed.
#[export] Instance rd_enc_canon : WireCanon put_enc rd_enc.
Proof.
  intros inp off e off' H Hoff. unfold rd_enc in H.
  apply bind_Some in H as ([ct o] & Hc & H). apply bind_Some in H as ([ae o'] & Ha & H).
  injection H as <- <-. destruct (rd_vec_canon 4096 _ _ _ _ Hc Hoff) as [Hc' Ho].
  destruct (rd_vec_canon 4096 _ _ _ _ Ha Ho) as [Ha' Ho'].
  split; [|done]. unfold put_enc. cbn. by rewrite Hc', Ha', str_app_assoc.
Qed.

(** The bundles the encoder is used on: field widths and the reader's caps. *)
Definition bundle_wf (b : Bundle) : Prop :=
  is_u64 (vpub_in b) ∧ is_u64 (vpub_out b) ∧ h32_wf (anchor b) ∧
  list_size (nullifiers b) ≤ kMaxIn ∧ Forall h32_wf (nullifiers b) ∧
  list_size (commitments b) ≤ kMaxOut ∧ Forall h32_wf (commitments b) ∧
  length (enc b) = length (commitments b) ∧ Forall enc_wf (enc b) ∧
  str_size (proof b) ≤ kMaxProofBytes.

#[export] Instance bundle_wf_dec b : Decision (bundle_wf b).
Proof. unfold bundle_wf, h32_wf, enc_wf. apply _. Defined.

Lemma deserialize_serialize b : bundle_wf b → deserialize (serialize b) = Ok b.
Proof.
  intros (Hvi & Hvo & Ha & Hnn & Hns & Hnc & Hcs & Hel & Hes & Hp).
  unfold deserialize. set (inp := serialize b).
  destruct (list_size_u32 _ _ Hnn ltac:(done)) as [Hnu Hnn'].
  destruct (list_size_u32 _ _ Hnc ltac:(done)) as [Hcu Hnc'].
  assert (Heu : list_size (enc b) = list_size (commitments b)) by (unfold list_size; lia).
  assert (H : str_drop 0 inp = serialize b +:+ "") by (rewrite str_app_nil_r; done).
  unfold serialize in H. rewrite Heu in H. rewrite !u32_small in H by done.
  rewrite !str_app_assoc in H.
  rewrite (rd_take_put 2 _ _ "Z1" _ eq_refl H). apply cursor_next in H.
  cbn [mbind option_bind]. change (negb (String.eqb "Z1" "Z1")) with false. cbv iota.
  change (0 + 2)%nat with (0 + String.length "Z1")%nat.
  read_field H rd_u64_codec. read_field H rd_u64_codec. read_field H rd_h_codec.
  read_field H rd_u32_codec. rewrite (size_guard _ _ Hnn), Hnn'.
  rewrite (get_many_put puth rd_h _ _ _ _ _ Hns H). apply cursor_next in H.
  cbn [mbind option_bind]. read_field H rd_u32_codec. rewrite (size_guard _ _ Hnc), Hnc'.
  rewrite (get_many_put puth rd_h _ _ _ _ _ Hcs H). apply cursor_next in H.
  cbn [mbind option_bind]. read_field H rd_u32_codec. rewrite Z.eqb_refl, Hnc', <-Hel.
  cbn [negb]. rewrite (get_many_put put_enc rd_enc _ _ _ _ _ Hes H). apply cursor_next in H.
  cbn [mbind option_bind]. assert (Hm : kMaxProofBytes < W32) by done.
  read_field H (rd_vec_codec _ Hm). clear H.
  replace (_ =? _)%nat with true; [by destruct b|]. symmetry. apply Nat.eqb_eq.
  unfold inp, serialize. rewrite Heu, !u32_small by done. rewrite !str_length_app. lia.
Qed.

Lemma list_size_of_u32 {A} (l : list A) n : is_u32 n → length l = Z.to_nat n → list_size l = n.
Proof. unfold is_u32, list_size. lia. Qed.

Lemma serialize_deserialize inp b : deserialize inp = Ok b → serialize b = inp.
Proof.
  unfold deserialize, or_err. case_match eqn:H; [|done]. intros [= ->].
  apply bind_Some in H as ([magic o] & Hmagic & H).
  apply rd_take_canon in Hmagic as (Em & _ & -> & Ho); [|lia].
  destruct (String.eqb_spec magic "Z1") as [->|]; [cbn [negb] in H|done].
  apply bind_Some in H as ([vin o1] & Hr & H). destruct (rd_u64_canon _ _ _ _ Hr Ho) as [E1 Ho1].
  apply bind_Some in H as ([vout o2] & Hr2 & H). destruct (rd_u64_canon _ _ _ _ Hr2 Ho1) as [E2 Ho2].
  apply bind_Some in H as ([anc o3] & Hr3 & H). destruct (rd_h_canon _ _ _ _ Hr3 Ho2) as [E3 Ho3].
  apply bind_Some in H as ([n o4] & Hr4 & H). destruct (rd_u32_canon _ _ _ _ Hr4 Ho3) as [E4 Ho4].
  apply rd_u32_range in Hr4. destruct (kMaxIn <? n); [done|].
  apply bind_Some in H as ([ns o5] & Hr5 & H).
  destruct (get_many_canon puth rd_h _ _ _ _ _ Hr5 Ho4) as (E5 & Hl5 & Ho5).
  apply bind_Some in H as ([m o6] & Hr6 & H). destruct (rd_u32_canon _ _ _ _ Hr6 Ho5) as [E6 Ho6].
  apply rd_u32_range in Hr6. destruct (kMaxOut <? m); [done|].
  apply bind_Some in H as ([cs o7] & Hr7 & H).
  destruct (get_many_canon puth rd_h _ _ _ _ _ Hr7 Ho6) as (E7 & Hl7 & Ho7).
  apply bind_Some in H as ([k o8] & Hr8 & H). destruct (rd_u32_canon _ _ _ _ Hr8 Ho7) as [E8 Ho8].
  apply rd_u32_range in Hr8. destruct (Z.eqb_spec k (list_size cs)) as [Hk|]; [cbn [negb] in H|done].
  apply bind_Some in H as ([es o9] & Hr9 & H).
  destruct (get_many_canon put_enc rd_enc _ _ _ _ _ Hr9 Ho8) as (E9 & Hl9 & Ho9).
  apply bind_Some in H as ([prf o10] & Hr10 & H).
  destruct (rd_vec_canon _ _ _ _ _ Hr10 Ho9) as [E10 Ho10].
  destruct (Nat.eqb_spec o10 (String.length inp)) as [->|]; [cbn [negb] in H|done].
  injection H as <-. unfold serialize. cbn [vpub_in vpub_out anchor nullifiers commitments enc proof].
  rewrite (list_size_of_u32 ns n), (list_size_of_u32 cs m), (list_size_of_u32 es k) by done.
  rewrite !u32_small by done.
  pose proof (str_drop_app inp "") as Hend. rewrite str_app_nil_r in Hend.
  rewrite Hend, str_app_nil_r in E10. change (str_drop 0 inp) with inp in Em.
  by rewrite <-E10, <-E9, <-E8, <-E7, <-E6, <-E5, <-E4, <-E3, <-E2, <-E1, <-Em.
Qed.

(** ** The transaction field *)

Lemma nib_hex_digit n : 0 ≤ n < 16 → nib (hex_digit n) = Some n.
Proof.
  intros Hn. destruct n as [|p|p]; [done| |lia].
  do 4 (destruct p as [p|p|]; [..|done]); lia.
Qed.
Lemma nib_nibble c n : nib c = Some n → is_lower_hex_char c = true ∧ n = nibble c.
Proof.
  unfold nib, is_lower_hex_char, nibble. cbv zeta.
  destruct ((48 <=? byte_of_char c) && (byte_of_char c <=? 57)); [by intros [= <-]|].
  destruct ((97 <=? byte_of_char c) && (byte_of_char c <=? 102)); [by intros [= <-]|done].
Qed.

Lemma nib_pairs_raw s raw :
  nib_pairs s = Some raw → Nat.even (String.length s) = true ∧
    all_chars is_lower_hex_char s = true ∧ raw = hex_to_raw s.
Proof.
  remember (String.length s) as n eqn:Hn. revert s Hn raw.
  induction n as [n IH] using lt_wf_ind. intros [|a [|b s]] ->; intros raw H; [by injection H as <-|done|].
  cbn in H. apply bind_Some in H as (hi & Hhi & H). apply bind_Some in H as (lo & Hlo & H).
  apply bind_Some in H as (rest & Hrest & [= <-]).
  apply nib_nibble in Hhi as [Ha ->], Hlo as [Hb ->].
  destruct (IH (String.length s)) with (s := s) (raw := rest) as (He & Hs & ->); [cbn; lia|done..|].
  cbn. by rewrite Ha, Hb.
Qed.

Lemma nib_pairs_bytes_to_hex b : nib_pairs (bytes_to_hex b) = Some b.
Proof.
  induction b as [|c b IH]; [done|]. cbn [bytes_to_hex nib_pairs].
  destruct (byte_split (byte_of_char c) (byte_of_char_range c)) as (H1 & H2 & H3).
  rewrite !nib_hex_digit, IH by done. cbn [mbind option_bind]. do 2 f_equal.
  rewrite lor_shiftl_add by done. change (2 ^ 4) with 16. rewrite H3. apply char_of_byte_of_char.
Qed.

Lemma raw_to_hex_pairs s raw : nib_pairs s = Some raw → bytes_to_hex raw = s.
Proof. intros (He & Hs & ->)%nib_pairs_raw. by apply raw_to_hex_to_raw. Qed.

(** A shielded field is the encoding of the bundle it decodes to: there is one
    encoding per bundle. *)
Theorem from_tx_field_canonical hex b : from_tx_field hex = Ok b → to_tx_field b = hex.
Proof.
  unfold from_tx_field, to_tx_field, or_err. intros H. peel H.
  case_match eqn:Hp; [|done]. injection E as <-. apply serialize_deserialize in H as ->.
  by apply raw_to_hex_pairs.
Qed.

(** The encoder's field decodes to the bundle it was made from. *)
Theorem from_to_tx_field b :
  bundle_wf b → str_size (to_tx_field b) ≤ kMaxHex → from_tx_field (to_tx_field b) = Ok b.
Proof.
  intros Hwf Hsz. unfold from_tx_field, to_tx_field in *.
  assert (Hne : is_empty (bytes_to_hex (serialize b)) = false) by done.
  rewrite Hne, bytes_to_hex_length, Nat.even_mul. cbn [orb negb Nat.even].
  replace (kMaxHex <? _) with false by (symmetry; by apply Z.ltb_ge). cbn [orb negb].
  rewrite nib_pairs_bytes_to_hex. cbn [or_err mbind result_bind]. by apply deserialize_serialize.
Qed.

(** ** The commitment tree computes the full merkle root *)

Section tree.
Context {C : Crypto} {ST : Stark}.

(** Specification: the root of the [i]-th subtree of depth [d] over the leaves,
    missing leaves being zero. *)
Fixpoint subroot (d i : nat) (L : list string) : string :=
  match d with
  | O => nth i L zero_h32
  | S d => merkle_node (subroot d (2 * i) L) (subroot d (2 * i + 1) L)
  end.

Lemma empty_root_S d : empty_root (S d) = merkle_node (empty_root d) (empty_root d).
Proof. done. Qed.

Lemma subroot_empty d i L : (length L ≤ i * 2 ^ d)%nat → subroot d i L = empty_root d.
Proof.
  revert i. induction d as [|d IH]; intros i Hi.
  { cbn in *. apply nth_overflow. lia. }
  rewrite Nat.pow_succ_r' in Hi. cbn [subroot]. rewrite empty_root_S, !IH by lia. done.
Qed.

Lemma subroot_prefix d i L k :
  ((i + 1) * 2 ^ d ≤ length L)%nat → subroot d i (L ++ k) = subroot d i L.
Proof.
  revert i. induction d as [|d IH]; intros i Hi.
  { cbn in *. rewrite app_nth1; [done|lia]. }
  rewrite Nat.pow_succ_r' in Hi. cbn [subroot]. rewrite !IH by lia. done.
Qed.

(** [frontier[d]] is the root of the last complete subtree of depth [d] that is a
    left child. *)
Definition frontier_ok (fr L : list string) (from : nat) : Prop :=
  ∀ e, (from ≤ e < kTreeDepth)%nat → Nat.odd (length L / 2 ^ e) = true →
    nth e fr zero_h32 = subroot e (length L / 2 ^ e - 1) L.

Lemma bit_test n d :
  (Z.land (Z.shiftr (Z.of_nat n) (Z.of_nat d)) 1 =? 0) = Nat.even (n / 2 ^ d).
Proof.
  change 1 with (Z.ones 1). rewrite Z.land_ones by done.
  rewrite Z.shiftr_div_pow2 by lia. change 2 with (Z.of_nat 2) at 1.
  rewrite <-Nat2Z.inj_pow, <-Nat2Z.inj_div.
  generalize (n / 2 ^ d)%nat. intros m. change (2 ^ 1) with 2.
  destruct (Nat.even m) eqn:E.
  - apply Nat.even_spec in E as [k ->]. apply Z.eqb_eq.
    rewrite Nat2Z.inj_mul, Z.mul_comm. apply Z.mod_mul. done.
  - apply Z.eqb_neq. assert (Ho : Nat.odd m = true) by (unfold Nat.odd; by rewrite E).
    apply Nat.odd_spec in Ho as [k ->]. rewrite Nat2Z.inj_add, Nat2Z.inj_mul, Z.add_comm, Z.mul_comm.
    rewrite Z.mod_add by done. done.
Qed.

Lemma div_pow_succ n d : (n / 2 ^ S d)%nat = (n / 2 ^ d / 2)%nat.
Proof. by rewrite Nat.pow_succ_r', Nat.mul_comm, Nat.Div0.div_div. Qed.

Lemma div_step n p : (0 < p)%nat →
  ((n + 1) / p = n / p ∨ (n + 1) / p = n / p + 1)%nat ∧ (n / p * p ≤ n < (n / p + 1) * p)%nat.
Proof.
  intros Hp. pose proof (Nat.div_mod n p). pose proof (Nat.mod_upper_bound n p).
  pose proof (Nat.div_mod (n + 1) p). pose proof (Nat.mod_upper_bound (n + 1) p).
  split; [|nia].
  assert ((n + 1) / p < n / p + 2)%nat by (apply Nat.Div0.div_lt_upper_bound; nia).
  assert (n / p ≤ (n + 1) / p)%nat by (apply Nat.Div0.div_le_mono; lia). lia.
Qed.

(** The state of the loop of [append] before level [d]. *)
Definition append_inv (L : list string) (cm : string) (d : nat) (st : list string * string) : Prop :=
  length st.1 = kTreeDepth ∧
  st.2 = subroot d (length L / 2 ^ d) (L ++ [cm]) ∧
  (∀ e, (e < d)%nat → Nat.odd ((length L + 1) / 2 ^ e) = true →
    nth e st.1 zero_h32 = subroot e ((length L + 1) / 2 ^ e - 1) (L ++ [cm])) ∧
  frontier_ok st.1 L d.

Lemma append_level_inv L cm d st :
  (d < kTreeDepth)%nat → append_inv L cm d st →
  append_inv L cm (S d) (append_level (list_size L) st d).
Proof.
  destruct st as [fr cur]. intros Hd (Hlen & Hcur & Hdone & Hfr). cbn [fst snd] in *.
  unfold append_level. unfold list_size. rewrite bit_test.
  assert (Hp : (0 < 2 ^ d)%nat) by (apply Nat.neq_0_lt_0, Nat.pow_nonzero; lia).
  destruct (div_step (length L) (2 ^ d) Hp) as [Hstep Hbnd].
  assert (Hup : ∀ m, (length L / 2 ^ d = m)%nat →
    subroot (S d) (length L / 2 ^ S d) (L ++ [cm]) =
    if Nat.even m then merkle_node (subroot d m (L ++ [cm])) (subroot d (m + 1) (L ++ [cm]))
    else merkle_node (subroot d (m - 1) (L ++ [cm])) (subroot d m (L ++ [cm]))).
  { intros m Hm. rewrite div_pow_succ, Hm. cbn [subroot]. destruct (Nat.even m) eqn:E.
    - apply Nat.even_spec in E as [k ->]. by replace (2 * k / 2)%nat with k by (rewrite Nat.mul_comm, Nat.div_mul; lia).
    - assert (Ho : Nat.odd m = true) by (unfold Nat.odd; by rewrite E).
      apply Nat.odd_spec in Ho as [k ->].
      replace ((2 * k + 1) / 2)%nat with k
        by (rewrite (Nat.mul_comm 2 k), Nat.div_add_l by done; change (1 / 2)%nat with 0%nat; lia).
      by rewrite Nat.add_sub. }
  specialize (Hup _ eq_refl). destruct (Nat.even (length L / 2 ^ d)) eqn:E.
  - split_and!; cbn [fst snd].
    + by rewrite length_insert.
    + rewrite Hup, Hcur. f_equal. symmetry. apply subroot_empty. rewrite length_app. cbn. lia.
    + intros e He Ho. rewrite nth_lookup. destruct (decide (e = d)) as [->|].
      * rewrite list_lookup_insert_eq by lia. cbn. rewrite Hcur. f_equal.
        destruct Hstep as [Hs|Hs]; [|lia]. rewrite Hs in Ho. unfold Nat.odd in Ho.
        by rewrite E in Ho.
      * rewrite list_lookup_insert_ne, <-nth_lookup by done. apply Hdone; [lia|done].
    + intros e He Ho. rewrite nth_lookup, list_lookup_insert_ne, <-nth_lookup by lia.
      apply Hfr; [lia|done].
  - assert (Hodd : Nat.odd (length L / 2 ^ d) = true) by (unfold Nat.odd; by rewrite E).
    assert (Hpos : (0 < length L / 2 ^ d)%nat) by (destruct (length L / 2 ^ d)%nat; [done|lia]).
    assert (Hd' : nth d fr zero_h32 = subroot d (length L / 2 ^ d - 1) (L ++ [cm])).
    { rewrite Hfr by (done || lia). symmetry. apply subroot_prefix.
      rewrite Nat.sub_add by lia. lia. }
    split_and!; cbn [fst snd]; [done| | |].
    + by rewrite Hup, Hcur, Hd'.
    + intros e He Ho. destruct (decide (e = d)) as [->|]; [|apply Hdone; [lia|done]].
      rewrite Hd'. f_equal. destruct Hstep as [Hs|Hs]; [by rewrite Hs|].
      rewrite Hs in Ho. rewrite Nat.add_1_r, Nat.odd_succ, E in Ho. done.
    + intros e He Ho. apply Hfr; [lia|done].
Qed.

Lemma append_loop_inv L cm fr n :
  length fr = kTreeDepth → frontier_ok fr L 0 → (n ≤ kTreeDepth)%nat →
  append_inv L cm n (foldl (append_level (list_size L)) (fr, cm) (seq 0 n)).
Proof.
  intros Hlen Hfr. induction n as [|n IH]; intros Hn.
  - split_and!; cbn [fst snd foldl seq]; [done| |lia|done].
    cbn [subroot]. rewrite Nat.div_1_r, app_nth2, Nat.sub_diag by lia. done.
  - rewrite seq_S, foldl_app. cbn [foldl]. rewrite Nat.add_0_l.
    apply append_level_inv; [lia|]. apply IH. lia.
Qed.

Definition tree_ok (t : CommitmentTree) : Prop :=
  length (frontier t) = kTreeDepth ∧ frontier_ok (frontier t) (leaves t) 0 ∧
  root_ t = subroot kTreeDepth 0 (leaves t).

Lemma tree_empty_ok : tree_ok tree_empty.
Proof.
  split_and!; cbn [frontier leaves root_ tree_empty].
  - apply length_replicate.
  - intros e _. by rewrite Nat.Div0.div_0_l.
  - symmetry. apply subroot_empty. cbn [length]. lia.
Qed.

Lemma div_tree_full n : Z.of_nat n < 2 ^ Z.of_nat kTreeDepth → (n / 2 ^ kTreeDepth = 0)%nat.
Proof.
  intros Hn. apply Nat.div_small. apply Nat2Z.inj_lt. by rewrite Nat2Z.inj_pow.
Qed.

Lemma append_ok cm t :
  tree_ok t → list_size (leaves t) < 2 ^ Z.of_nat kTreeDepth → tree_ok (append cm t).
Proof.
  intros (Hlen & Hfr & _) Hsz. unfold append.
  pose proof (append_loop_inv (leaves t) cm (frontier t) kTreeDepth Hlen Hfr (le_n _)) as Hinv.
  destruct (foldl _ _ _) as [fr cur]. destruct Hinv as (Hl & Hc & Hd & _). cbn [fst snd] in *.
  split_and!; cbn [frontier leaves root_]; [done| |].
  - intros e He. rewrite length_app. cbn [length]. intros Ho. apply Hd; [lia|done].
  - rewrite Hc. by rewrite div_tree_full.
Qed.

Definition append_all (cs : list string) : CommitmentTree :=
  foldl (λ t c, append c t) tree_empty cs.

Lemma append_leaves c t : leaves (append c t) = leaves t ++ [c].
Proof. unfold append. by destruct (foldl _ _ _). Qed.

Lemma append_all_ok cs :
  list_size cs ≤ 2 ^ Z.of_nat kTreeDepth →
  tree_ok (append_all cs) ∧ leaves (append_all cs) = cs.
Proof.
  unfold append_all, list_size. intros Hsz.
  induction cs as [|c cs IH] using rev_ind; [split; [apply tree_empty_ok|done]|].
  rewrite length_app in Hsz. cbn [length] in Hsz. destruct IH as [Hok Hl]; [lia|].
  rewrite foldl_app. cbn [foldl]. rewrite append_leaves, Hl. split; [|done].
  apply append_ok; [done|]. unfold list_size. rewrite Hl. lia.
Qed.

Lemma append_all_tree cs :
  list_size cs ≤ 2 ^ Z.of_nat kTreeDepth →
  leaves (append_all cs) = cs ∧ tree_root (append_all cs) = subroot kTreeDepth 0 cs.
Proof.
  intros Hsz. destruct (append_all_ok cs Hsz) as [(_ & _ & Hr) Hl].
  split; [done|]. unfold tree_root. rewrite Hr. by f_equal.
Qed.

(** After any number of appends up to the capacity, the incrementally kept root
    is the root of the full tree over all the commitments, in order. *)
Theorem append_all_root cs :
  list_size cs ≤ 2 ^ Z.of_nat kTreeDepth →
  leaves (append_all cs) = cs ∧ tree_root (append_all cs) = subroot kTreeDepth 0 cs.
Proof. apply append_all_tree. Qed.

#[local] Opaque kTreeDepth.

(** *** Membership paths *)

(** What the spend statement checks: hashing a leaf up along a path. *)
Fixpoint climb (pos : nat) (cur : string) (sibs : list string) : string :=
  match sibs with
  | [] => cur
  | s :: sibs =>
      climb (pos / 2) (if Nat.even pos then merkle_node cur s else merkle_node s cur) sibs
  end.

Definition layer_ok (d : nat) (L layer : list string) : Prop :=
  ∃ m, layer = (λ i, subroot d i L) <$> seq 0 m ∧ (length L ≤ m * 2 ^ d)%nat.

Lemma path_layer_seq d L k m :
  (length L ≤ (2 * k + m) * 2 ^ d)%nat →
  path_layer (empty_root d) ((λ i, subroot d i L) <$> seq (2 * k) m) =
  (λ i, subroot (S d) i L) <$> seq k ((m + 1) / 2).
Proof.
  revert k. induction m as [m IH] using lt_wf_ind. intros k Hm.
  destruct m as [|[|m]]; [done| |].
  - cbn [seq fmap list_fmap path_layer]. change ((1 + 1) / 2)%nat with 1%nat.
    cbn [seq fmap list_fmap subroot]. do 2 f_equal. symmetry. by apply subroot_empty.
  - replace ((S (S m) + 1) / 2)%nat with (S ((m + 1) / 2)).
    2: { replace (S (S m) + 1)%nat with (m + 1 + 1 * 2)%nat by lia. rewrite Nat.div_add; lia. }
    cbn [seq fmap list_fmap path_layer]. f_equal.
    { cbn [subroot]. by rewrite Nat.add_1_r. }
    replace (S (S (2 * k))) with (2 * S k)%nat by lia. apply IH; lia.
Qed.

Lemma path_layer_ok d L layer : layer_ok d L layer → layer_ok (S d) L (path_layer (empty_root d) layer).
Proof.
  intros (m & -> & Hm). exists ((m + 1) / 2)%nat. split; [by apply (path_layer_seq d L 0 m)|].
  rewrite Nat.pow_succ_r'. pose proof (Nat.div_mod (m + 1) 2 ltac:(done)).
  pose proof (Nat.mod_upper_bound (m + 1) 2 ltac:(done)). nia.
Qed.

Lemma lxor_1 p : Z.lxor (Z.of_nat p) 1 = Z.of_nat (if Nat.even p then p + 1 else p - 1)%nat.
Proof.
  destruct (Nat.even p) eqn:E.
  - apply Nat.even_spec in E as [k ->].
    replace (Z.of_nat (2 * k)) with (2 * Z.of_nat k) by lia.
    replace (Z.of_nat (2 * k + 1)) with (2 * Z.of_nat k + 1) by lia.
    pose proof (Nat2Z.is_nonneg k). destruct (Z.of_nat k); (done || lia).
  - assert (Ho : Nat.odd p = true) by (unfold Nat.odd; by rewrite E).
    apply Nat.odd_spec in Ho as [k ->].
    replace (Z.of_nat (2 * k + 1 - 1)) with (2 * Z.of_nat k) by lia.
    replace (Z.of_nat (2 * k + 1)) with (2 * Z.of_nat k + 1) by lia.
    pose proof (Nat2Z.is_nonneg k). destruct (Z.of_nat k); (done || lia).
Qed.

Lemma path_loop_length n d pos layer : length (path_loop n d pos layer) = n.
Proof. revert d pos layer. induction n; intros; cbn; auto. Qed.

Lemma climb_path_loop n d p L layer :
  layer_ok d L layer →
  climb p (subroot d p L) (path_loop n d (Z.of_nat p) layer) = subroot (d + n) (p / 2 ^ n) L.
Proof.
  revert d p layer. induction n as [|n IH]; intros d p layer Hl.
  { cbn [path_loop climb Nat.pow]. by rewrite Nat.add_0_r, Nat.div_1_r. }
  cbn [path_loop climb]. rewrite lxor_1.
  set (s := if Nat.even p then (p + 1)%nat else (p - 1)%nat).
  assert (Hs : (if Z.of_nat s <? list_size layer then nth (Z.to_nat (Z.of_nat s)) layer zero_h32
                else empty_root d) = subroot d s L).
  { destruct Hl as (m & -> & Hm). unfold list_size. rewrite length_fmap, length_seq, Nat2Z.id.
    destruct (Z.ltb_spec (Z.of_nat s) (Z.of_nat m)).
    - rewrite nth_lookup, list_lookup_fmap, lookup_seq_lt by lia. done.
    - symmetry. apply subroot_empty. nia. }
  rewrite Hs. replace (Z.shiftr (Z.of_nat p) 1) with (Z.of_nat (p / 2)).
  2: { rewrite Z.shiftr_div_pow2 by done. change (2 ^ 1) with (Z.of_nat 2). by rewrite Nat2Z.inj_div. }
  replace (if Nat.even p then merkle_node (subroot d p L) (subroot d s L)
           else merkle_node (subroot d s L) (subroot d p L)) with (subroot (S d) (p / 2) L).
  - rewrite IH by by apply path_layer_ok.
    by rewrite Nat.pow_succ_r', <-Nat.Div0.div_div, Nat.add_succ_comm.
  - cbn [subroot]. subst s. destruct (Nat.even p) eqn:E.
    + apply Nat.even_spec in E as [k ->].
      by replace (2 * k / 2)%nat with k by (rewrite Nat.mul_comm, Nat.div_mul; lia).
    + assert (Ho : Nat.odd p = true) by (unfold Nat.odd; by rewrite E).
      apply Nat.odd_spec in Ho as [k ->].
      replace ((2 * k + 1) / 2)%nat with k
        by (rewrite (Nat.mul_comm 2 k), Nat.div_add_l by done; change (1 / 2)%nat with 0%nat; lia).
      by rewrite Nat.add_sub.
Qed.

Lemma path_verifies t pos sibs :
  tree_ok t → 0 ≤ pos → list_size (leaves t) ≤ 2 ^ Z.of_nat kTreeDepth →
  path pos t = Some sibs →
  length sibs = kTreeDepth ∧ climb (Z.to_nat pos) (nth (Z.to_nat pos) (leaves t) zero_h32) sibs = tree_root t.
Proof.
  intros (_ & _ & Hr) Hpos Hsz. unfold path.
  destruct (Z.leb_spec (list_size (leaves t)) pos); [done|]. intros [= <-].
  split; [apply path_loop_length|].
  assert (Hl : layer_ok 0 (leaves t) (leaves t)).
  { exists (length (leaves t)). split; [|cbn; lia]. apply list_eq. intros i.
    rewrite list_lookup_fmap. destruct (decide (i < length (leaves t))%nat).
    - rewrite lookup_seq_lt by done. destruct (lookup_lt_is_Some_2 (leaves t) i) as [x Hx]; [done|].
      rewrite Hx. cbn. by rewrite nth_lookup, Hx.
    - rewrite lookup_ge_None_2 by lia. rewrite lookup_seq_ge by lia. done. }
  rewrite <-(Z2Nat.id pos) at 3 by done.
  change (nth (Z.to_nat pos) (leaves t) zero_h32) with (subroot 0 (Z.to_nat pos) (leaves t)).
  rewrite (climb_path_loop kTreeDepth 0 _ _ _ Hl). unfold tree_root. rewrite Hr.
  change (0 + kTreeDepth)%nat with kTreeDepth.
  rewrite div_tree_full; [done|]. rewrite Z2Nat.id by done. lia.
Qed.

(** The path handed out for any leaf of a tree built by appends verifies against
    the tree's root. *)
Theorem path_sound cs pos sibs :
  list_size cs ≤ 2 ^ Z.of_nat kTreeDepth → 0 ≤ pos →
  path pos (append_all cs) = Some sibs →
  length sibs = kTreeDepth ∧
  climb (Z.to_nat pos) (nth (Z.to_nat pos) cs zero_h32) sibs = tree_root (append_all cs).
Proof.
  intros Hsz Hpos Hp. destruct (append_all_ok cs Hsz) as [Hok Hl].
  apply path_verifies in Hp; rewrite ?Hl in *; done.
Qed.
End tree.

(** ** The consensus state of the pool *)

Section state.
Context {C : Crypto} {ST : Stark}.
#[local] Opaque kTreeDepth kRecentAnchors.

Lemma hex32_inj a b : hex32 a = hex32 b → a = b.
Proof. apply bytes_to_hex_inj. Qed.

Lemma check_nullifiers_Ok s pending local ns :
  check_nullifiers s pending local ns = Ok () →
  NoDup ns ∧ ∀ n, n ∈ ns → hex32 n ∉ nfs s ∧ hex32 n ∉ pending ∧ hex32 n ∉ local.
Proof.
  revert local. induction ns as [|n ns IH]; intros local H; cbn in H.
  { split; [constructor|set_solver]. }
  peel H. bools. apply IH in H as [Hnd Hns]. split.
  - constructor; [|done]. intros Hin. apply Hns in Hin. set_solver.
  - intros m [->|Hm]%elem_of_cons; [done|]. apply Hns in Hm. set_solver.
Qed.

Lemma check_Ok s b pending :
  check s b pending = Ok () →
  NoDup (nullifiers b) ∧
  (∀ n, n ∈ nullifiers b → hex32 n ∉ nfs s ∧ hex32 n ∉ pending) ∧
  (nullifiers b ≠ [] → hex32 (anchor b) ∈ recent_set s) ∧
  length (commitments b) = length (enc b) ∧
  (∀ c, c ∈ commitments b → hex32 c ∉ cms s) ∧
  list_size (leaves (tree s)) + list_size (commitments b) ≤ 2 ^ Z.of_nat kTreeDepth.
Proof.
  unfold check. intros H. peel H. bools.
  apply Nat.eqb_eq in H0 || apply Nat.eqb_eq in G. destruct a.
  apply check_nullifiers_Ok in E as [Hnd Hns].
  split_and!; [done|naive_solver| | | |done].
  - intros Hne. apply andb_false_iff in G1 as [Hb|Hb]; bools; done.
  - done.
  - intros c Hc Hin. apply Bool.not_true_iff_false in G4. apply G4, existsb_exists.
    exists c. split; [by apply list_elem_of_In|]. by apply bool_decide_eq_true.
Qed.

Lemma fold_nfs (acc : gset string) ns :
  foldl (λ acc n, {[hex32 n]} ∪ acc) acc ns = list_to_set (hex32 <$> ns) ∪ acc.
Proof.
  revert acc. induction ns as [|n ns IH]; intros acc; cbn; [set_solver|]. rewrite IH. set_solver.
Qed.

Lemma fold_cms t (cs : gset string) l :
  foldl (λ '(t, cs) c, (append c t, {[hex32 c]} ∪ cs)) (t, cs) l =
  (foldl (λ t c, append c t) t l, list_to_set (hex32 <$> l) ∪ cs).
Proof.
  revert t cs. induction l as [|c l IH]; intros t cs; cbn; [f_equal; set_solver|].
  rewrite IH. f_equal. set_solver.
Qed.

Lemma remember_root_fields s :
  tree (remember_root s) = tree s ∧ nfs (remember_root s) = nfs s ∧
  cms (remember_root s) = cms s.
Proof.
  unfold remember_root. destruct (if bool_decide _ then _ else _) as [q rs].
  by destruct (trim_recent q rs).
Qed.

Lemma apply_fields b s :
  tree (apply b s) = foldl (λ t c, append c t) (tree s) (commitments b) ∧
  nfs (apply b s) = list_to_set (hex32 <$> nullifiers b) ∪ nfs s ∧
  cms (apply b s) = list_to_set (hex32 <$> commitments b) ∪ cms s.
Proof.
  unfold apply. rewrite fold_nfs, fold_cms.
  match goal with |- context [remember_root ?s'] =>
    destruct (remember_root_fields s') as (-> & -> & ->) end. done.
Qed.

(** The anchors window: at most [kRecentAnchors] distinct roots, the set mirrors
    the queue. *)
Definition window_ok (q : list string) (rs : gset string) : Prop :=
  NoDup q ∧ rs = list_to_set (hex32 <$> q).

Lemma trim_recent_ok q rs q' rs' :
  window_ok q rs → trim_recent q rs = (q', rs') →
  window_ok q' rs' ∧ (length q' ≤ kRecentAnchors)%nat ∧ suffix q' q.
Proof.
  revert rs. induction q as [|h q IH]; intros rs [Hnd ->] H.
  { injection H as <- <-. split_and!; [split; [constructor|done]|cbn; lia|done]. }
  cbn [trim_recent] in H. destruct (Nat.ltb_spec kRecentAnchors (length (h :: q))).
  - apply IH in H as (Hw & Hl & Hs).
    + split_and!; [done..|]. by apply suffix_cons_r.
    + inversion_clear Hnd as [|?? Hh Hq]. split; [done|]. cbn.
      enough (hex32 h ∉ (list_to_set (hex32 <$> q) : gset string)) by set_solver.
      rewrite elem_of_list_to_set, list_elem_of_fmap. intros (x & Hx%hex32_inj & Hin). by subst.
  - injection H as <- <-. split_and!; [done|done|done].
Qed.

Lemma remember_root_window s :
  window_ok (recent s) (recent_set s) →
  window_ok (recent (remember_root s)) (recent_set (remember_root s)) ∧
  (length (recent (remember_root s)) ≤ kRecentAnchors)%nat.
Proof.
  intros [Hnd Hset]. unfold remember_root.
  destruct (if bool_decide _ then _ else _) as [q rs] eqn:E.
  destruct (trim_recent q rs) as [q' rs'] eqn:Ht. cbn [recent recent_set].
  apply trim_recent_ok in Ht as (Hw & Hl & _); [done|].
  case_bool_decide as Hin; injection E as <- <-; [done|]. split.
  - apply NoDup_app. split_and!; [done| |apply NoDup_singleton].
    intros x Hx ->%list_elem_of_singleton. apply Hin. rewrite Hset.
    apply elem_of_list_to_set, list_elem_of_fmap. by eexists.
  - rewrite fmap_app, list_to_set_app_L, Hset. set_solver.
Qed.

(** The pool as a transition system: a bundle that passes [check], against any
    set of nullifiers pending in the same block, is applied. *)
Inductive pool_run : State → list Bundle → State → Prop :=
  | pool_done s : pool_run s [] s
  | pool_spend s b pending bs s' :
      check s b pending = Ok () → pool_run (apply b s) bs s' → pool_run s (b :: bs) s'.

Definition pool_ok (s : State) (spent created : list string) : Prop :=
  NoDup spent ∧ nfs s = list_to_set (hex32 <$> spent) ∧
  list_size created ≤ 2 ^ Z.of_nat kTreeDepth ∧ tree s = append_all created ∧
  window_ok (recent s) (recent_set s) ∧ (length (recent s) ≤ kRecentAnchors)%nat.

Lemma pool_init_ok : pool_ok state_init [] [].
Proof.
  unfold state_init.
  destruct (remember_root_fields (mkState tree_empty [] ∅ ∅ ∅)) as (Ht & Hn & _).
  destruct (remember_root_window (mkState tree_empty [] ∅ ∅ ∅)) as [Hw Hl].
  { split; [constructor|done]. }
  split_and!; [constructor|done|done|done|done|done].
Qed.

Lemma pool_apply_ok s b pending spent created :
  pool_ok s spent created → check s b pending = Ok () →
  pool_ok (apply b s) (spent ++ nullifiers b) (created ++ commitments b).
Proof.
  intros (Hnd & Hnfs & Hsz & Ht & Hw & Hl) (Hbn & Hfresh & _ & _ & _ & Hfull)%check_Ok.
  destruct (apply_fields b s) as (Hat & Han & _).
  destruct (append_all_ok _ Hsz) as [_ Hleaves]. rewrite Ht, Hleaves in Hfull.
  unfold list_size in *. split_and!.
  - apply NoDup_app. split_and!; [done| |done]. intros n Hn Hb%Hfresh. destruct Hb as [Hb _].
    apply Hb. rewrite Hnfs. apply elem_of_list_to_set, list_elem_of_fmap. by eexists.
  - rewrite Han, Hnfs, fmap_app, list_to_set_app_L. set_solver.
  - unfold list_size. rewrite length_app. lia.
  - rewrite Hat, Ht. unfold append_all. by rewrite foldl_app.
  - unfold apply. destruct (foldl _ (tree s, cms s) _). by apply remember_root_window.
  - unfold apply. destruct (foldl _ (tree s, cms s) _). by apply remember_root_window.
Qed.

Lemma pool_run_ok s bs s' spent created :
  pool_ok s spent created → pool_run s bs s' →
  pool_ok s' (spent ++ (bs ≫= nullifiers)) (created ++ (bs ≫= commitments)).
Proof.
  intros Hok Hrun. revert spent created Hok.
  induction Hrun as [s|s b pending bs s' Hc _ IH]; intros spent created Hok.
  { cbn. by rewrite !app_nil_r. }
  cbn. rewrite !app_assoc. apply IH. by eapply pool_apply_ok.
Qed.

(** C6. No note is spent twice: over any run of the pool, the nullifiers revealed by
    all the accepted bundles are pairwise distinct, and exactly they are spent. *)
Theorem no_double_spend bs s :
  pool_run state_init bs s →
  NoDup (bs ≫= nullifiers) ∧ ∀ nf, nullifier_spent s nf = true ↔ nf ∈ bs ≫= nullifiers.
Proof.
  intros (Hnd & Hnfs & _)%(pool_run_ok _ _ _ [] [] pool_init_ok). cbn in *. split; [done|].
  intros nf. unfold nullifier_spent. rewrite bool_decide_eq_true, Hnfs, elem_of_list_to_set.
  rewrite list_elem_of_fmap. split; [|by eexists]. by intros (m & ->%hex32_inj & Hm).
Qed.

End state.
