(* ===== verification/Script.v ===== *)
(** * Spend scripts ([include/addition/script.hpp], [src/script.cpp])

    The policy language of script outputs: its parser with the depth and node
    bounds, the eager evaluator that marks the witness items it used, the witness
    encoding, and [verify_input]. The evaluator's signature cache ([sig_checked],
    [sig_ok_cached]) remembers the answer of a pure function and is left out. *)
From S2P Require Import Prelude Strings Crypto Types Wire WireProofs Block.

Definition kMaxScriptBytes : nat := 4096.
Definition kMaxNodes : nat := 64.
Definition kMaxDepth : nat := 16.
Definition kMaxSigs : Z := 4.
Definition kMaxPreimages : Z := 4.
Definition kMaxPreimageBytes : nat := 64.

Inductive Node :=
  | Pk (arg : string)
  | Sha3 (arg : string)
  | After (n : Z)
  | Older (n : Z)
  | And (a b : Node)
  | Or (a b : Node).

#[export] Instance Node_eq_dec : EqDecision Node.
Proof. solve_decision. Defined.

(** ** The parser *)

Definition is_alpha_char (c : ascii) : bool :=
  let b := byte_of_char c in ((65 <=? b) && (b <=? 90)) || ((97 <=? b) && (b <=? 122)).
Definition is_atom_char (c : ascii) : bool :=
  is_digit_char c || is_alpha_char c || Ascii.eqb c "_".

Fixpoint span_atom (s : string) : string * string :=
  match s with
  | String c s' => if is_atom_char c then let '(a, r) := span_atom s' in (String c a, r) else ("", s)
  | "" => ("", "")
  end.

(** [s] is the whole text, [r] what is left of it: the position is [s.size() -
    r.size()]. *)
Definition parse_pos (s r : string) : string :=
  to_string (Z.of_nat (String.length s) - Z.of_nat (String.length r)).

Definition atom (s r : string) : result (string * string) :=
  let '(a, r') := span_atom r in
  reject_if is_empty a as "expected atom at " +:+ parse_pos s r ;;
  Ok (a, r').

Definition expect (c : ascii) (s r : string) : result string :=
  match r with
  | String d r' =>
      if Ascii.eqb c d then Ok r'
      else Err ("expected '" +:+ String c "' at " +:+ parse_pos s r)
  | "" => Err ("expected '" +:+ String c "' at " +:+ parse_pos s r)
  end.

Definition parse_leaf (name arg : string) : result Node :=
  if String.eqb name "pk" then Ok (Pk arg)
  else if String.eqb name "sha3" then
    reject_if negb (String.length arg =? 128)%nat as "sha3 arg must be 128 hex chars" ;;
    reject_if negb (all_chars is_lower_hex_char arg) as "sha3 arg must be lowercase hex" ;;
    Ok (Sha3 arg)
  else if String.eqb name "after" || String.eqb name "older" then
    reject_if is_empty arg || (12 <? String.length arg)%nat ||
              ((1 <? String.length arg)%nat && starts_with "0" arg) as "bad number" ;;
    reject_if negb (all_chars is_digit_char arg) as "bad number" ;;
    match stoull 10 arg with
    | Some (n, _) => Ok (if String.eqb name "after" then After n else Older n)
    | None => Err "std::stoull"
    end
  else Err ("unknown opcode " +:+ name).

(** [node(n, depth)]: [fuel] is [kMaxDepth + 1 - depth], so that running out of it
    is the source's depth check; [nodes] counts the nodes begun. *)
Fixpoint parse_node (s : string) (fuel : nat) (nodes : nat) (r : string) :
    result (Node * nat * string) :=
  match fuel with
  | O => Err "script too deep"
  | S fuel =>
      let nodes := S nodes in
      reject_if (kMaxNodes <? nodes)%nat as "script too many nodes" ;;
      '(name, r) ← atom s r;
      r ← expect "(" s r;
      if String.eqb name "and" || String.eqb name "or" then
        '(a, nodes, r) ← parse_node s fuel nodes r;
        r ← expect "," s r;
        '(b, nodes, r) ← parse_node s fuel nodes r;
        r ← expect ")" s r;
        Ok (if String.eqb name "and" then And a b else Or a b, nodes, r)
      else
        '(arg, r) ← atom s r;
        r ← expect ")" s r;
        n ← parse_leaf name arg;
        Ok (n, nodes, r)
  end.

Definition parse (text : string) : result Node :=
  reject_if is_empty text || (kMaxScriptBytes <? String.length text)%nat as "script size" ;;
  '(n, _, r) ← parse_node text (S kMaxDepth) 0 text;
  reject_if negb (is_empty r) as "trailing script bytes" ;;
  Ok n.

(** ** Witnesses *)

Record Witness := mkWitness {
  script : string;
  sigs : list (string * string);
  preimages : list string;
}.

#[export] Instance Witness_eq_dec : EqDecision Witness.
Proof. solve_decision. Defined.

Definition encode_witness (w : Witness) : string :=
  script w +:+ ";" +:+ to_string (list_size (sigs w)) +:+ ";" +:+
  put_many (λ p : string * string, p.1 +:+ ":" +:+ p.2 +:+ ";") (sigs w) +:+
  to_string (list_size (preimages w)) +:+ ";" +:+
  put_many (λ x, x +:+ ";") (preimages w).

(** The parts closed by [';'], and what follows the last one. *)
Fixpoint split_semi (s : string) : list string * string :=
  match s with
  | "" => ([], "")
  | String c s =>
      let '(parts, rest) := split_semi s in
      if Ascii.eqb c ";" then ("" :: parts, rest)
      else match parts with
           | p :: parts => (String c p :: parts, rest)
           | [] => ([], String c rest)
           end
  end.

Definition is_lower_hex_max (h : string) (max_len : nat) : bool :=
  negb (is_empty h || (max_len <? String.length h)%nat || negb (Nat.even (String.length h))) &&
  all_chars is_lower_hex_char h.

(** [num(max, v)]: one digit. *)
Definition witness_num (max : Z) (parts : list string) : option (Z * list string) :=
  match parts with
  | String c "" :: parts =>
      if is_digit_char c && (byte_of_char c - 48 <=? max) then Some (byte_of_char c - 48, parts)
      else None
  | _ => None
  end.

Fixpoint witness_sigs (n : nat) (parts : list string) :
    result (list (string * string) * list string) :=
  match n with
  | O => Ok ([], parts)
  | S n =>
      match parts with
      | [] => Err "malformed witness"
      | p :: parts =>
          match find_char ":" p with
          | None => Err "malformed sig"
          | Some c =>
              '(ss, rest) ← witness_sigs n parts;
              Ok ((str_take c p, str_drop (S c) p) :: ss, rest)
          end
      end
  end.

Fixpoint witness_preimages (n : nat) (parts : list string) : result (list string * list string) :=
  match n with
  | O => Ok ([], parts)
  | S n =>
      match parts with
      | [] => Err "bad preimage"
      | p :: parts =>
          reject_if negb (is_lower_hex_max p (2 * kMaxPreimageBytes)) as "bad preimage" ;;
          '(ps, rest) ← witness_preimages n parts;
          Ok (p :: ps, rest)
      end
  end.

Definition decode_witness (s : string) : result Witness :=
  let '(parts, rest) := split_semi s in
  reject_if negb (is_empty rest) || (length parts <? 3)%nat as "malformed witness" ;;
  match parts with
  | [] => Err "malformed witness"
  | scr :: parts =>
      match witness_num kMaxSigs parts with
      | None => Err "bad sig count"
      | Some (ns, parts) =>
          '(ss, parts) ← witness_sigs (Z.to_nat ns) parts;
          match witness_num kMaxPreimages parts with
          | None => Err "bad preimage count"
          | Some (np, parts) =>
              '(ps, parts) ← witness_preimages (Z.to_nat np) parts;
              reject_if negb (bool_decide (parts = [])) as "trailing witness items" ;;
              Ok (mkWitness scr ss ps)
          end
      end
  end.

(** ** Evaluation *)

Record SpendContext := mkSpendContext { ctx_sighash : string; spend_height : Z; utxo_height : Z }.

Section script.
Context {C : Crypto}.

Definition script_address (t : string) : string :=
  "sh1" +:+ to_hex (sha3_512_bytes ("ADD/script/v1|" +:+ t)).
Definition is_script_address (a : string) : bool :=
  (String.length a =? 3 + 128)%nat && starts_with "sh1" a.
Definition hash_preimage_hex (preimage_hex : string) : string :=
  match hex_to_bytes preimage_hex with
  | Ok b => to_hex (sha3_512_bytes b)
  | Err _ => ""
  end.
Definition sighash (tx : Transaction) : string := "ADD/sighash/v1|" +:+ hash_transaction tx.

(** Does signature item [p] satisfy [pk(addr)]? *)
Definition sig_matches (ctx : SpendContext) (addr : string) (p : string * string) : bool :=
  is_ok (address_binds_pubkey addr (infer_sig_scheme_from_pubkey_hex p.1) p.1) &&
  verify_message_signature_hybrid_uncached p.1 (ctx_sighash ctx) p.2.

(** The first item that satisfies a leaf. *)
Fixpoint find_index {A} (f : A → bool) (l : list A) : option nat :=
  match l with
  | [] => None
  | x :: l => if f x then Some O else S <$> find_index f l
  end.

(** [eval]: the flags are [sig_used] and [pre_used]; both branches of [and] and
    [or] are always evaluated. *)
Fixpoint eval (ctx : SpendContext) (w : Witness) (n : Node) (used : list bool * list bool) :
    bool * (list bool * list bool) :=
  match n with
  | Pk addr =>
      match find_index (sig_matches ctx addr) (sigs w) with
      | Some k => (true, (<[k := true]> used.1, used.2))
      | None => (false, used)
      end
  | Sha3 arg =>
      match find_index (λ x, String.eqb (hash_preimage_hex x) arg) (preimages w) with
      | Some k => (true, (used.1, <[k := true]> used.2))
      | None => (false, used)
      end
  | After m => (m <=? spend_height ctx, used)
  | Older m => ((utxo_height ctx <=? spend_height ctx) &&
                (m <=? spend_height ctx - utxo_height ctx), used)
  | And a b =>
      let '(x, used) := eval ctx w a used in
      let '(y, used) := eval ctx w b used in (x && y, used)
  | Or a b =>
      let '(x, used) := eval ctx w a used in
      let '(y, used) := eval ctx w b used in (x || y, used)
  end.

Definition verify_input (owner wit : string) (ctx : SpendContext) : result () :=
  reject_if negb (is_script_address owner) as "input is not a script output" ;;
  w ← decode_witness wit;
  reject_if negb (String.eqb (script_address (script w)) owner)
    as "witness script does not match output" ;;
  root ← parse (script w);
  let '(ok, (sig_used, pre_used)) :=
    eval ctx w root (replicate (length (sigs w)) false, replicate (length (preimages w)) false) in
  reject_if negb ok as "script not satisfied" ;;
  reject_if existsb negb sig_used as "unused witness signature" ;;
  reject_if existsb negb pre_used as "unused witness preimage" ;;
  Ok ().
End script.
