(* ===== verification/ScriptProofs.v ===== *)
(** * Spend scripts: proofs

    The parser inverts the printer and accepts nothing else; witnesses round trip;
    [verify_input] accepts exactly the spends that satisfy the committed script
    and use every witness item. *)
From S2P Require Import Prelude Strings Crypto Types Wire WireProofs Block Script.

(** ** Printing *)

Fixpoint print (n : Node) : string :=
  match n with
  | Pk a => "pk(" +:+ a +:+ ")"
  | Sha3 a => "sha3(" +:+ a +:+ ")"
  | After n => "after(" +:+ to_string n +:+ ")"
  | Older n => "older(" +:+ to_string n +:+ ")"
  | And a b => "and(" +:+ print a +:+ "," +:+ print b +:+ ")"
  | Or a b => "or(" +:+ print a +:+ "," +:+ print b +:+ ")"
  end.

Definition is_atom (s : string) : Prop := s ≠ "" ∧ all_chars is_atom_char s = true.
Definition is_hash_arg (s : string) : Prop :=
  String.length s = 128%nat ∧ all_chars is_lower_hex_char s = true.
Definition is_number_arg (n : Z) : Prop := 0 ≤ n < 10 ^ 12.

Fixpoint node_wf (n : Node) : Prop :=
  match n with
  | Pk a => is_atom a
  | Sha3 a => is_hash_arg a
  | After n | Older n => is_number_arg n
  | And a b | Or a b => node_wf a ∧ node_wf b
  end.
Fixpoint node_count (n : Node) : nat :=
  match n with And a b | Or a b => S (node_count a + node_count b) | _ => 1 end.
Fixpoint node_depth (n : Node) : nat :=
  match n with And a b | Or a b => S (Nat.max (node_depth a) (node_depth b)) | _ => 0 end.

#[export] Instance node_wf_dec n : Decision (node_wf n).
Proof. induction n; cbn; unfold is_atom, is_hash_arg, is_number_arg; apply _. Defined.

(** The scripts the parser accepts. *)
Definition script_wf (n : Node) : Prop :=
  node_wf n ∧ (node_count n ≤ kMaxNodes)%nat ∧ (node_depth n ≤ kMaxDepth)%nat ∧
  (String.length (print n) ≤ kMaxScriptBytes)%nat.

#[export] Instance script_wf_dec n : Decision (script_wf n).
Proof. unfold script_wf. apply _. Defined.

(** ** Atoms *)

Lemma span_atom_spec s a r :
  span_atom s = (a, r) → s = a +:+ r ∧ all_chars is_atom_char a = true.
Proof.
  revert a r. induction s as [|c s IH]; intros a r H; cbn in H; [by injection H as <- <-|].
  destruct (is_atom_char c) eqn:Hc; [|by injection H as <- <-].
  destruct (span_atom s) as [a' r'] eqn:E. injection H as <- <-.
  destruct (IH _ _ eq_refl) as [-> Ha]. cbn. by rewrite str_app_cons, Hc.
Qed.

Lemma span_atom_app a c r :
  all_chars is_atom_char a = true → is_atom_char c = false →
  span_atom (a +:+ String c r) = (a, String c r).
Proof.
  intros Ha Hc. induction a as [|x a IH]; cbn [all_chars] in *.
  - rewrite str_app_nil_l. cbn. by rewrite Hc.
  - apply andb_prop in Ha as [Hx Ha]. rewrite str_app_cons. cbn. by rewrite Hx, IH.
Qed.

Lemma atom_app s a c r : is_atom a → is_atom_char c = false →
  atom s (a +:+ String c r) = Ok (a, String c r).
Proof.
  intros [Hne Ha] Hc. unfold atom. rewrite span_atom_app by done.
  by rewrite (proj2 (is_empty_false a) Hne).
Qed.

Lemma atom_Ok s r a r' : atom s r = Ok (a, r') → r = a +:+ r' ∧ is_atom a.
Proof.
  unfold atom. destruct (span_atom r) as [a0 r0] eqn:E. intros H. peel H. injection H as <- <-.
  apply span_atom_spec in E as [-> Ha]. split; [done|]. split; [by apply is_empty_false|done].
Qed.

Lemma expect_Ok c s r r' : expect c s r = Ok r' → r = String c r'.
Proof.
  unfold expect. destruct r as [|d r]; [done|]. destruct (Ascii.eqb_spec c d) as [->|]; [|done].
  by intros [= ->].
Qed.
Lemma expect_app c s r : expect c s (String c r) = Ok r.
Proof. unfold expect. by rewrite Ascii.eqb_refl. Qed.

Lemma to_string_atom n : is_atom (to_string n).
Proof.
  destruct (to_string_canonical n) as (Hd & Hne & _). split; [done|].
  apply (all_chars_impl is_digit_char); [|done]. intros c Hc. unfold is_atom_char. by rewrite Hc.
Qed.

Lemma hash_arg_atom a : is_hash_arg a → is_atom a.
Proof.
  intros [Hl Hh]. split; [by intros ->|]. apply (all_chars_impl is_lower_hex_char); [|done].
  intros c. by destruct c as [[][][][][][][][]].
Qed.

(** ** Leaves *)

Lemma number_length n : is_number_arg n → (String.length (to_string n) ≤ 12)%nat.
Proof.
  intros Hn. unfold is_number_arg in Hn. pose proof (to_string_canonical n) as Hc.
  destruct (decide (String.length (to_string n) ≤ 12)%nat) as [|Hl]; [done|]. exfalso.
  pose proof (canonical_low _ Hc ltac:(lia)) as Hlow. rewrite dec_val_to_string in Hlow by lia.
  assert (10 ^ 12 ≤ 10 ^ (Z.of_nat (String.length (to_string n)) - 1))
    by (apply Z.pow_le_mono_r; lia). lia.
Qed.

Lemma number_leaf n : is_number_arg n →
  parse_leaf "after" (to_string n) = Ok (After n) ∧ parse_leaf "older" (to_string n) = Ok (Older n).
Proof.
  intros Hn. pose proof (number_length n Hn) as Hl.
  destruct (to_string_canonical n) as (Hd & Hne & Hz). unfold is_number_arg in Hn.
  assert (Hs : stoull 10 (to_string n) = Some (n, "")).
  { apply stoull_to_string. unfold is_u64. change (10 ^ 12) with 1000000000000 in Hn. lia. }
  unfold parse_leaf. rewrite Hs, Hd. apply is_empty_false in Hne. rewrite Hne.
  replace (12 <? _)%nat with false by (symmetry; apply Nat.ltb_ge; lia).
  assert (Hlz : ((1 <? String.length (to_string n))%nat && starts_with "0" (to_string n)) = false).
  { destruct (Nat.ltb_spec 1 (String.length (to_string n))); [by rewrite Hz|done]. }
  by rewrite Hlz.
Qed.

Lemma number_leaf_Ok arg n rest :
  is_empty arg || (12 <? String.length arg)%nat ||
    ((1 <? String.length arg)%nat && starts_with "0" arg) = false →
  negb (all_chars is_digit_char arg) = false → stoull 10 arg = Some (n, rest) →
  is_number_arg n ∧ to_string n = arg.
Proof.
  intros [[Hne%is_empty_false Hl%Nat.ltb_ge]%orb_false_elim Hz]%orb_false_elim
    Hd%negb_false_iff Hs.
  assert (Hc : canonical_num arg).
  { split_and!; [done|done|]. intros Hlt%Nat.ltb_lt. by rewrite Hlt in Hz. }
  pose proof (dec_val_range arg Hd) as Hr.
  assert (10 ^ Z.of_nat (String.length arg) ≤ 10 ^ 12) by (apply Z.pow_le_mono_r; lia).
  change (10 ^ 12) with 1000000000000 in *.
  rewrite stoull_digits in Hs; [|done|done|lia].
  injection Hs as <- _. split; [unfold is_number_arg; lia|by apply to_string_dec_val].
Qed.

Lemma parse_leaf_Ok name arg n :
  is_atom arg → parse_leaf name arg = Ok n →
  node_wf n ∧ print n = name +:+ "(" +:+ arg +:+ ")" ∧ node_count n = 1%nat ∧ node_depth n = 0%nat.
Proof.
  intros Ha. unfold parse_leaf.
  destruct (String.eqb_spec name "pk") as [->|]; [by intros [= <-]|].
  destruct (String.eqb_spec name "sha3") as [->|].
  { intros H. peel H. injection H as <-. apply negb_false_iff, Nat.eqb_eq in G.
    apply negb_false_iff in G0. done. }
  destruct (String.eqb name "after" || String.eqb name "older") eqn:En; [|done].
  intros H. peel H. destruct (stoull 10 arg) as [[m rest]|] eqn:Es; [|done].
  destruct (number_leaf_Ok _ _ _ G G0 Es) as [Hn Hp].
  destruct (String.eqb_spec name "after") as [->|]; injection H as <-.
  - cbn. by rewrite Hp.
  - cbn [orb] in En. apply String.eqb_eq in En as ->. cbn. by rewrite Hp.
Qed.

(** ** The parser *)

Lemma parse_node_Ok s fuel nodes r n nodes' r' :
  parse_node s fuel nodes r = Ok (n, nodes', r') →
  node_wf n ∧ r = print n +:+ r' ∧ nodes' = (nodes + node_count n)%nat ∧
  (node_depth n < fuel)%nat ∧ (nodes' ≤ kMaxNodes)%nat.
Proof.
  revert nodes r n nodes' r'. induction fuel as [|fuel IH]; intros nodes r n nodes' r' H; [done|].
  cbn [parse_node] in H. peel H. apply Nat.ltb_ge in G.
  destruct a as [name r1]. apply atom_Ok in E as [-> Hname].
  peel H. apply expect_Ok in E as ->. rename a into r2.
  destruct (String.eqb name "and" || String.eqb name "or") eqn:En.
  - apply bind_Ok in H as ([[a n1] r3] & (Ha & -> & -> & Hda & Hna)%IH & H).
    apply bind_Ok in H as (r4 & ->%expect_Ok & H).
    apply bind_Ok in H as ([[b n2] r5] & (Hb & -> & -> & Hdb & Hnb)%IH & H).
    apply bind_Ok in H as (r6 & ->%expect_Ok & [= <- <- <-]).
    apply orb_prop in En as [->%String.eqb_eq| ->%String.eqb_eq]; cbn;
      (split_and!; [done..| |lia|lia|lia]); by autorewrite with str.
  - apply bind_Ok in H as ([arg r3] & (-> & Harg)%atom_Ok & H).
    apply bind_Ok in H as (r4 & ->%expect_Ok & H).
    apply bind_Ok in H as (m & (Hwf & Hp & Hc & Hd)%(parse_leaf_Ok _ _ _ Harg) & [= <- <- <-]).
    rewrite Hp, Hc, Hd. split_and!; [done| |lia|lia|lia]. by autorewrite with str.
Qed.

Lemma parse_node_leaf s fuel nodes name arg r n :
  is_atom name → is_atom arg → String.eqb name "and" || String.eqb name "or" = false →
  (S nodes ≤ kMaxNodes)%nat → parse_leaf name arg = Ok n →
  parse_node s (S fuel) nodes ((name +:+ "(" +:+ arg +:+ ")") +:+ r) = Ok (n, S nodes, r).
Proof.
  intros Hn Ha Hno Hk Hl. cbn [parse_node].
  replace (kMaxNodes <? S nodes)%nat with false by (symmetry; by apply Nat.ltb_ge).
  replace ((name +:+ "(" +:+ arg +:+ ")") +:+ r) with (name +:+ String "(" (arg +:+ String ")" r))
    by by autorewrite with str.
  rewrite atom_app by done. cbn [mbind result_bind]. rewrite expect_app. cbn [mbind result_bind].
  rewrite Hno, atom_app by done. cbn [mbind result_bind]. rewrite expect_app. cbn [mbind result_bind].
  by rewrite Hl.
Qed.

Lemma parse_node_branch s fuel nodes name ra rb a b n1 n2 r :
  (name = "and" ∨ name = "or") → (S nodes ≤ kMaxNodes)%nat →
  (∀ r, parse_node s fuel (S nodes) (ra +:+ r) = Ok (a, n1, r)) →
  (∀ r, parse_node s fuel n1 (rb +:+ r) = Ok (b, n2, r)) →
  parse_node s (S fuel) nodes ((name +:+ "(" +:+ ra +:+ "," +:+ rb +:+ ")") +:+ r) =
  Ok (if String.eqb name "and" then And a b else Or a b, n2, r).
Proof.
  intros Hn Hk Ha Hb. cbn [parse_node].
  replace (kMaxNodes <? S nodes)%nat with false by (symmetry; by apply Nat.ltb_ge).
  replace ((name +:+ "(" +:+ ra +:+ "," +:+ rb +:+ ")") +:+ r) with
    (name +:+ String "(" (ra +:+ String "," (rb +:+ String ")" r))) by by autorewrite with str.
  rewrite atom_app by (done || by destruct Hn as [->| ->]).
  cbn [mbind result_bind]. rewrite expect_app. cbn [mbind result_bind].
  replace (String.eqb name "and" || String.eqb name "or") with true by by destruct Hn as [->| ->].
  rewrite Ha. cbn [mbind result_bind]. rewrite expect_app. cbn [mbind result_bind].
  rewrite Hb. cbn [mbind result_bind]. rewrite expect_app. done.
Qed.

Lemma parse_node_print s fuel nodes n r :
  node_wf n → (nodes + node_count n ≤ kMaxNodes)%nat → (node_depth n < fuel)%nat →
  parse_node s fuel nodes (print n +:+ r) = Ok (n, (nodes + node_count n)%nat, r).
Proof.
  revert fuel nodes r. induction n as [a|a|m|m|a IHa b IHb|a IHa b IHb]; intros fuel nodes r Hwf Hk Hd;
    (destruct fuel as [|fuel]; [cbn in Hd; lia|]); cbn [node_wf node_count node_depth] in *.
  1-4: rewrite Nat.add_1_r in *.
  - by apply (parse_node_leaf s fuel nodes "pk").
  - apply (parse_node_leaf s fuel nodes "sha3"); [done|by apply hash_arg_atom|done|done|].
    destruct Hwf as [Hl Hh]. unfold parse_leaf. cbn [String.eqb Ascii.eqb Bool.eqb].
    by rewrite Hl, Hh.
  - apply (parse_node_leaf s fuel nodes "after"); [done|apply to_string_atom|done|done|].
    by apply number_leaf.
  - apply (parse_node_leaf s fuel nodes "older"); [done|apply to_string_atom|done|done|].
    by apply number_leaf.
  - apply (parse_node_branch s fuel nodes "and" (print a) (print b) a b
      (S nodes + node_count a)); [by left|lia|intros; apply IHa; (apply Hwf || lia)|].
    intros r'. rewrite IHb; [do 3 f_equal; lia|apply Hwf|lia..].
  - apply (parse_node_branch s fuel nodes "or" (print a) (print b) a b
      (S nodes + node_count a)); [by right|lia|intros; apply IHa; (apply Hwf || lia)|].
    intros r'. rewrite IHb; [do 3 f_equal; lia|apply Hwf|lia..].
Qed.

(** The parser reads back every script within its bounds. *)
Theorem parse_print n : script_wf n → parse (print n) = Ok n.
Proof.
  intros (Hwf & Hc & Hd & Hl). unfold parse.
  assert (is_empty (print n) = false) as ->.
  { apply is_empty_false. by destruct n. }
  replace (kMaxScriptBytes <? _)%nat with false by (symmetry; by apply Nat.ltb_ge). cbn [orb].
  rewrite <-(str_app_nil_r (print n)) at 2.
  rewrite parse_node_print by (done || lia). done.
Qed.

(** The parser accepts nothing else: an accepted text is the printed form of the
    node it returns, which is within the bounds. Two different texts never denote
    the same policy. *)
Theorem parse_sound text n : parse text = Ok n → print n = text ∧ script_wf n.
Proof.
  unfold parse. intros H. peel H. apply orb_false_elim in G as [_ Hl%Nat.ltb_ge].
  destruct a as [[m k] r].
  apply parse_node_Ok in E as (Hwf & Hr & Hk & Hd & Hk').
  peel H. injection H as <-. apply negb_false_iff, is_empty_true in G as ->.
  rewrite str_app_nil_r in Hr. subst text. split; [done|].
  unfold script_wf. cbn in Hk. split_and!; [done|lia|lia|done].
Qed.

(** ** Witnesses *)

Lemma split_semi_part p r parts rest :
  free_of ";" p = true → split_semi r = (parts, rest) →
  split_semi (p +:+ String ";" r) = (p :: parts, rest).
Proof.
  intros Hp Hr. induction p as [|c p IH].
  { rewrite str_app_nil_l. cbn. by rewrite Hr. }
  unfold free_of in Hp. cbn [all_chars] in Hp. apply andb_prop in Hp as [Hc Hp].
  rewrite str_app_cons. cbn [split_semi].
  rewrite IH by done. apply negb_true_iff in Hc. rewrite Ascii.eqb_sym in Hc. by rewrite Hc.
Qed.

Lemma split_semi_parts parts :
  Forall (λ p, free_of ";" p = true) parts →
  split_semi (put_many (λ p, p +:+ ";") parts) = (parts, "").
Proof.
  induction 1 as [|p parts Hp _ IH]; [done|]. unfold put_many in *. cbn [foldr].
  rewrite str_app_assoc. by apply split_semi_part.
Qed.

Definition sig_wf (p : string * string) : Prop :=
  free_of ":" p.1 = true ∧ free_of ";" p.1 = true ∧ free_of ";" p.2 = true.
Definition witness_item_wf (w : Witness) : Prop :=
  free_of ";" (script w) = true ∧ list_size (sigs w) ≤ kMaxSigs ∧ Forall sig_wf (sigs w) ∧
  list_size (preimages w) ≤ kMaxPreimages ∧
  Forall (λ x, is_lower_hex_max x (2 * kMaxPreimageBytes) = true) (preimages w).

#[export] Instance witness_item_wf_dec w : Decision (witness_item_wf w).
Proof. unfold witness_item_wf, sig_wf. apply _. Defined.

Definition witness_parts (w : Witness) : list string :=
  script w :: to_string (list_size (sigs w)) ::
  ((λ p : string * string, p.1 +:+ String ":" p.2) <$> sigs w) ++
  to_string (list_size (preimages w)) :: preimages w.

Lemma put_many_app {A} (p : A → string) l k : put_many p (l ++ k) = put_many p l +:+ put_many p k.
Proof.
  unfold put_many. induction l as [|x l IH]; [done|]. cbn. by rewrite IH, str_app_assoc.
Qed.

Lemma put_many_cons {A} (p : A → string) x l : put_many p (x :: l) = p x +:+ put_many p l.
Proof. done. Qed.
Lemma put_many_ext {A} (p q : A → string) l : (∀ x, p x = q x) → put_many p l = put_many q l.
Proof. intros Hpq. unfold put_many. induction l as [|x l IH]; cbn; congruence. Qed.

Lemma encode_witness_parts w : encode_witness w = put_many (λ p, p +:+ ";") (witness_parts w).
Proof.
  unfold encode_witness, witness_parts.
  rewrite !put_many_cons, put_many_app, put_many_fmap, put_many_cons.
  rewrite (put_many_ext (_ ∘ _) (λ p : string * string, p.1 +:+ ":" +:+ p.2 +:+ ";")).
  - by rewrite !str_app_assoc.
  - intros p. cbn. by autorewrite with str.
Qed.

Lemma find_char_split c a b :
  free_of c a = true → find_char c (a +:+ String c b) = Some (String.length a).
Proof.
  unfold free_of. induction a as [|x a IH]; intros H; cbn [all_chars] in H.
  - rewrite str_app_nil_l. cbn [find_char]. by rewrite Ascii.eqb_refl.
  - apply andb_prop in H as [Hx H]. rewrite str_app_cons. cbn [find_char].
    apply negb_true_iff in Hx. by rewrite Hx, IH.
Qed.

Lemma witness_sigs_parts ss parts :
  Forall sig_wf ss →
  witness_sigs (length ss) (((λ p : string * string, p.1 +:+ String ":" p.2) <$> ss) ++ parts) =
  Ok (ss, parts).
Proof.
  induction 1 as [|[pk sg] ss (Hc & _ & _) _ IH]; [done|]. cbn. cbn [fst snd] in *.
  rewrite find_char_split, IH by done. cbn.
  assert (Hd : str_drop (S (String.length pk)) (pk +:+ String ":" sg) = sg).
  { replace (S (String.length pk)) with (String.length (pk +:+ ":"))
      by (rewrite str_length_app; cbn; lia).
    change (String ":" sg) with (":" +:+ sg). rewrite <-str_app_assoc. apply str_drop_app. }
  cbn in Hd. rewrite str_take_app. by rewrite Hd.
Qed.

Lemma witness_preimages_parts ps :
  Forall (λ x, is_lower_hex_max x (2 * kMaxPreimageBytes) = true) ps →
  witness_preimages (length ps) ps = Ok (ps, []).
Proof.
  induction 1 as [|p ps Hp _ IH]; [done|].
  change (length (p :: ps)) with (S (length ps)). cbn [witness_preimages]. by rewrite Hp, IH.
Qed.

Lemma witness_num_to_string {A} (l : list A) parts :
  list_size l ≤ 4 → witness_num 4 (to_string (list_size l) :: parts) = Some (list_size l, parts).
Proof.
  unfold list_size. intros Hl.
  by destruct (length l) as [|[|[|[|[|n]]]]]; [reflexivity..|lia].
Qed.

Lemma sig_part_free p : sig_wf p → free_of ";" (p.1 +:+ String ":" p.2) = true.
Proof. intros (_ & H1 & H2). unfold free_of in *. rewrite all_chars_app, H1. exact H2. Qed.

Lemma lower_hex_free x n : is_lower_hex_max x n = true → free_of ";" x = true.
Proof.
  unfold is_lower_hex_max. intros [_ H]%andb_prop.
  apply (all_chars_impl is_lower_hex_char); [|done]. intros c. by destruct c as [[][][][][][][][]].
Qed.

(** A witness decodes to what was encoded. *)
Theorem decode_encode_witness w : witness_item_wf w → decode_witness (encode_witness w) = Ok w.
Proof.
  intros (Hs & Hns & Hss & Hnp & Hps). rewrite encode_witness_parts. unfold decode_witness.
  rewrite split_semi_parts; cycle 1.
  { unfold witness_parts. constructor; [done|]. constructor; [by apply to_string_free_of|].
    apply Forall_app. split; [|constructor; [by apply to_string_free_of|]].
    - apply Forall_fmap. eapply Forall_impl; [exact Hss|]. intros p. apply sig_part_free.
    - eapply Forall_impl; [exact Hps|]. intros x. apply lower_hex_free. }
  unfold witness_parts. cbn [is_empty String.eqb negb orb].
  replace (_ <? 3)%nat with false; cycle 1.
  { symmetry. apply Nat.ltb_ge. cbn [length]. rewrite length_app. cbn [length]. lia. }
  unfold kMaxSigs, kMaxPreimages. rewrite witness_num_to_string by done.
  replace (Z.to_nat (list_size (sigs w))) with (length (sigs w)) by (unfold list_size; lia).
  rewrite witness_sigs_parts by done. cbn [mbind result_bind].
  rewrite witness_num_to_string by done.
  replace (Z.to_nat (list_size (preimages w))) with (length (preimages w)) by (unfold list_size; lia).
  rewrite witness_preimages_parts by done. cbn. by destruct w.
Qed.

(** ** [verify_input] accepts exactly the satisfied scripts *)

Section verify.
Context {C : Crypto}.

(** The meaning of a policy for a witness in a spending context. *)
Fixpoint satisfied (ctx : SpendContext) (w : Witness) (n : Node) : Prop :=
  match n with
  | Pk addr => ∃ p, p ∈ sigs w ∧
      address_binds_pubkey addr (infer_sig_scheme_from_pubkey_hex p.1) p.1 = Ok () ∧
      verify_message_signature_hybrid_uncached p.1 (ctx_sighash ctx) p.2 = true
  | Sha3 h => ∃ x, x ∈ preimages w ∧ hash_preimage_hex x = h
  | After m => m ≤ spend_height ctx
  | Older m => utxo_height ctx ≤ spend_height ctx ∧ m ≤ spend_height ctx - utxo_height ctx
  | And a b => satisfied ctx w a ∧ satisfied ctx w b
  | Or a b => satisfied ctx w a ∨ satisfied ctx w b
  end.

(** The witness items the leaves of a policy draw on: the first one that fits. *)
Fixpoint sig_marks (ctx : SpendContext) (w : Witness) (n : Node) : list nat :=
  match n with
  | Pk addr => from_option (λ k, [k]) [] (find_index (sig_matches ctx addr) (sigs w))
  | And a b | Or a b => sig_marks ctx w a ++ sig_marks ctx w b
  | _ => []
  end.
Fixpoint pre_marks (w : Witness) (n : Node) : list nat :=
  match n with
  | Sha3 h => from_option (λ k, [k]) []
                (find_index (λ x, String.eqb (hash_preimage_hex x) h) (preimages w))
  | And a b | Or a b => pre_marks w a ++ pre_marks w b
  | _ => []
  end.
Definition mark (l : list bool) (ks : list nat) : list bool := foldl (λ l k, <[k := true]> l) l ks.

Lemma find_index_Some {A} (f : A → bool) l :
  (∃ k, find_index f l = Some k) ↔ ∃ x, x ∈ l ∧ f x = true.
Proof.
  induction l as [|y l IH]; cbn [find_index].
  { split; [by intros [? ?]|]. intros (x & Hx & _). by apply elem_of_nil in Hx. }
  destruct (f y) eqn:Hy.
  - split; [|by eexists]. intros _. exists y. split; [constructor|done].
  - split.
    + intros [k Hk]. apply fmap_Some in Hk as (j & Hj & _).
      destruct (proj1 IH ltac:(by eexists)) as (x & Hx & Hf). exists x. split; [by right|done].
    + intros (x & [->|Hx]%elem_of_cons & Hf); [congruence|].
      destruct (proj2 IH ltac:(by eexists)) as [k Hk]. exists (S k). by rewrite Hk.
Qed.

Lemma sig_matches_true ctx addr p :
  sig_matches ctx addr p = true ↔
  address_binds_pubkey addr (infer_sig_scheme_from_pubkey_hex p.1) p.1 = Ok () ∧
  verify_message_signature_hybrid_uncached p.1 (ctx_sighash ctx) p.2 = true.
Proof.
  unfold sig_matches. rewrite andb_true_iff.
  destruct (address_binds_pubkey _ _ _) as [[]|]; cbn; naive_solver.
Qed.

Lemma eval_spec ctx w n us ps :
  eval ctx w n (us, ps) =
    ((eval ctx w n (us, ps)).1, (mark us (sig_marks ctx w n), mark ps (pre_marks w n))) ∧
  ((eval ctx w n (us, ps)).1 = true ↔ satisfied ctx w n).
Proof.
  revert us ps. induction n as [a|h|m|m|a IHa b IHb|a IHa b IHb]; intros us ps; cbn.
  - destruct (find_index _ _) as [k|] eqn:E; cbn; (split; [done|]).
    + assert (Hex : ∃ k, find_index (sig_matches ctx a) (sigs w) = Some k) by by exists k.
      apply find_index_Some in Hex as (p & Hp & Hm%sig_matches_true). naive_solver.
    + split; [done|]. intros (p & Hp & Hm%sig_matches_true).
      destruct (proj2 (find_index_Some (sig_matches ctx a) (sigs w)) ltac:(by eexists)). congruence.
  - destruct (find_index _ _) as [k|] eqn:E; cbn; (split; [done|]).
    + assert (Hex : ∃ k, find_index (λ x, String.eqb (hash_preimage_hex x) h) (preimages w) = Some k)
        by by exists k.
      apply find_index_Some in Hex as (x & Hx & Hm%String.eqb_eq). naive_solver.
    + split; [done|]. intros (x & Hx & Hm%String.eqb_eq).
      destruct (proj2 (find_index_Some (λ x, String.eqb (hash_preimage_hex x) h) (preimages w))
        ltac:(by eexists)). congruence.
  - split; [done|]. apply Z.leb_le.
  - split; [done|]. rewrite andb_true_iff, !Z.leb_le. done.
  - destruct (IHa us ps) as [Ea Ha]. rewrite Ea. destruct (IHb (mark us (sig_marks ctx w a))
      (mark ps (pre_marks w a))) as [Eb Hb]. rewrite Eb. cbn. unfold mark.
    rewrite !foldl_app. split; [done|]. rewrite andb_true_iff. tauto.
  - destruct (IHa us ps) as [Ea Ha]. rewrite Ea. destruct (IHb (mark us (sig_marks ctx w a))
      (mark ps (pre_marks w a))) as [Eb Hb]. rewrite Eb. cbn. unfold mark.
    rewrite !foldl_app. split; [done|]. rewrite orb_true_iff. tauto.
Qed.

Lemma mark_length l ks : length (mark l ks) = length l.
Proof.
  unfold mark. revert l. induction ks as [|k ks IH]; intros l; [done|].
  cbn. by rewrite IH, length_insert.
Qed.

Lemma mark_lookup l ks i :
  (i < length l)%nat → mark l ks !! i = Some true ↔ i ∈ ks ∨ l !! i = Some true.
Proof.
  unfold mark. revert l. induction ks as [|k ks IH]; intros l Hi; cbn [foldl].
  { rewrite elem_of_nil. tauto. }
  rewrite IH by by rewrite length_insert. rewrite elem_of_cons. destruct (decide (i = k)) as [->|].
  - rewrite list_lookup_insert_eq by done. tauto.
  - rewrite list_lookup_insert_ne by done. tauto.
Qed.

(** No flag is left unset iff every item is marked. *)
Lemma all_marked n ks :
  existsb negb (mark (replicate n false) ks) = false ↔ ∀ k, (k < n)%nat → k ∈ ks.
Proof.
  rewrite <-not_true_iff_false, existsb_exists. split.
  - intros H k Hk. destruct (mark (replicate n false) ks !! k) as [[]|] eqn:E.
    + apply mark_lookup in E; [|by rewrite length_replicate].
      destruct E as [|E]; [done|]. rewrite lookup_replicate_2 in E by done. done.
    + exfalso. apply H. exists false. split; [|done]. apply list_elem_of_In.
      by eapply list_elem_of_lookup_2.
    + apply lookup_ge_None in E. rewrite mark_length, length_replicate in E. lia.
  - intros H ([] & Hin & Hneg); [done|]. apply list_elem_of_In, list_elem_of_lookup in Hin as [k Hk].
    assert (Hlt : (k < n)%nat).
    { apply lookup_lt_Some in Hk. by rewrite mark_length, length_replicate in Hk. }
    assert (Ht : mark (replicate n false) ks !! k = Some true).
    { apply mark_lookup; [by rewrite length_replicate|]. left. by apply H. }
    congruence.
Qed.

(** The two directions. *)
Lemma verify_input_inv owner wit ctx :
  verify_input owner wit ctx = Ok () →
  is_script_address owner = true ∧ ∃ w n,
    decode_witness wit = Ok w ∧ script_address (script w) = owner ∧
    parse (script w) = Ok n ∧ satisfied ctx w n ∧
    (∀ k, (k < length (sigs w))%nat → k ∈ sig_marks ctx w n) ∧
    (∀ k, (k < length (preimages w))%nat → k ∈ pre_marks w n).
Proof.
  unfold verify_input. rewrite reject_if_Ok, negb_false_iff, bind_Ok.
  intros [Ha (w & Hw & H)]. split; [done|]. rewrite reject_if_Ok, negb_false_iff, String.eqb_eq, bind_Ok in H.
  destruct H as (Ho & n & Hn & H). exists w, n.
  destruct (eval_spec ctx w n (replicate (length (sigs w)) false)
    (replicate (length (preimages w)) false)) as [Ee Hs].
  rewrite Ee in H. rewrite !reject_if_Ok, negb_false_iff, !all_marked in H. naive_solver.
Qed.
Lemma verify_input_ok wit ctx w n :
  is_script_address (script_address (script w)) = true →
  decode_witness wit = Ok w → parse (script w) = Ok n → satisfied ctx w n →
  (∀ k, (k < length (sigs w))%nat → k ∈ sig_marks ctx w n) →
  (∀ k, (k < length (preimages w))%nat → k ∈ pre_marks w n) →
  verify_input (script_address (script w)) wit ctx = Ok ().
Proof.
  intros Ha Hw Hn Hsat Hsig Hpre. unfold verify_input. rewrite reject_if_Ok, negb_false_iff, bind_Ok.
  split; [done|]. exists w. split; [done|].
  rewrite reject_if_Ok, negb_false_iff, String.eqb_eq, bind_Ok. split; [done|]. exists n.
  split; [done|]. destruct (eval_spec ctx w n (replicate (length (sigs w)) false)
    (replicate (length (preimages w)) false)) as [Ee Hs].
  rewrite Ee. rewrite !reject_if_Ok, negb_false_iff, !all_marked. naive_solver.
Qed.

(** C8. A spend of a script output is accepted if and only if its witness decodes, its
    script is the one the output committed to and parses, the policy holds, and
    every signature and preimage of the witness is the one some leaf used. *)
Theorem verify_input_iff owner wit ctx :
  verify_input owner wit ctx = Ok () ↔
  is_script_address owner = true ∧ ∃ w n,
    decode_witness wit = Ok w ∧ script_address (script w) = owner ∧
    parse (script w) = Ok n ∧ satisfied ctx w n ∧
    (∀ k, (k < length (sigs w))%nat → k ∈ sig_marks ctx w n) ∧
    (∀ k, (k < length (preimages w))%nat → k ∈ pre_marks w n).
Proof.
  split; [apply verify_input_inv|]. intros (Ha & w & n & Hw & <- & Hn & Hsat & Hsig & Hpre).
  by apply (verify_input_ok wit ctx w n).
Qed.

(** A script address commits to one policy: two accepted spends of the same output
    reveal the same script. *)
Theorem script_address_commits t1 t2 :
  collision_free (.∈ ["ADD/script/v1|" +:+ t1; "ADD/script/v1|" +:+ t2]) →
  script_address t1 = script_address t2 → t1 = t2.
Proof.
  intros Hcf H. unfold script_address in H. rewrite !str_app_cons, !str_app_nil_l in H.
  injection H as H. apply bytes_to_hex_inj, Hcf in H; [|set_solver..].
  by injection H.
Qed.
End verify.
