(* ===== verification/Chain.v ===== *)
(** * The chain state and its transactions ([src/chain.cpp], first half)

    [Chain] is the class's state. A method that returns [bool] with an error is a
    [result]; one that also writes the state returns the new state next to it, also
    when it fails, because [apply_transaction] leaves its partial writes to the
    rollback of [add_block]. [std::unordered_map] and [std::map] are [gmap]s. *)
From S2P Require Import Prelude ConsensusRules Strings Crypto Types Wire Block Staking Shielded Script.

Record UTXO := mkUTXO {
  u_owner : string;
  u_amount : Z;
  u_spent : bool;
  u_spendable_height : Z;
  u_height : Z;
}.

Record Chain := mkChain {
  blocks : list Block;
  utxo_set : gmap string UTXO;
  address_index : gmap string Z;
  signer_last_nonce : gmap string Z;
  seen_transactions : gset string;
  pubkey_registry : gmap string string;
  chain_target : Z;
  total_emitted : Z;
  total_fees_last_block : Z;
  cumulative_work : Z;
  tickets : gmap string StakeTicket;
  total_slashed : Z;
  applying_height : Z;
  shielded_state : State;
}.

(** Single-field writes. *)
Definition set_utxo_index (m : gmap string UTXO) (idx : gmap string Z) (c : Chain) : Chain :=
  mkChain (blocks c) m idx (signer_last_nonce c) (seen_transactions c) (pubkey_registry c)
    (chain_target c) (total_emitted c) (total_fees_last_block c) (cumulative_work c) (tickets c)
    (total_slashed c) (applying_height c) (shielded_state c).
Definition set_tickets (t : gmap string StakeTicket) (c : Chain) : Chain :=
  mkChain (blocks c) (utxo_set c) (address_index c) (signer_last_nonce c) (seen_transactions c)
    (pubkey_registry c) (chain_target c) (total_emitted c) (total_fees_last_block c)
    (cumulative_work c) t (total_slashed c) (applying_height c) (shielded_state c).
Definition set_nonce_registry (n : gmap string Z) (r : gmap string string) (c : Chain) : Chain :=
  mkChain (blocks c) (utxo_set c) (address_index c) n (seen_transactions c) r
    (chain_target c) (total_emitted c) (total_fees_last_block c) (cumulative_work c) (tickets c)
    (total_slashed c) (applying_height c) (shielded_state c).
Definition set_seen (s : gset string) (c : Chain) : Chain :=
  mkChain (blocks c) (utxo_set c) (address_index c) (signer_last_nonce c) s (pubkey_registry c)
    (chain_target c) (total_emitted c) (total_fees_last_block c) (cumulative_work c) (tickets c)
    (total_slashed c) (applying_height c) (shielded_state c).
Definition set_shielded (s : State) (c : Chain) : Chain :=
  mkChain (blocks c) (utxo_set c) (address_index c) (signer_last_nonce c) (seen_transactions c)
    (pubkey_registry c) (chain_target c) (total_emitted c) (total_fees_last_block c)
    (cumulative_work c) (tickets c) (total_slashed c) (applying_height c) s.
Definition set_applying (h : Z) (c : Chain) : Chain :=
  mkChain (blocks c) (utxo_set c) (address_index c) (signer_last_nonce c) (seen_transactions c)
    (pubkey_registry c) (chain_target c) (total_emitted c) (total_fees_last_block c)
    (cumulative_work c) (tickets c) (total_slashed c) h (shielded_state c).
Definition set_slashed (t : Z) (c : Chain) : Chain :=
  mkChain (blocks c) (utxo_set c) (address_index c) (signer_last_nonce c) (seen_transactions c)
    (pubkey_registry c) (chain_target c) (total_emitted c) (total_fees_last_block c)
    (cumulative_work c) (tickets c) t (applying_height c) (shielded_state c).
Definition set_emitted_fees (e f : Z) (c : Chain) : Chain :=
  mkChain (blocks c) (utxo_set c) (address_index c) (signer_last_nonce c) (seen_transactions c)
    (pubkey_registry c) (chain_target c) e f (cumulative_work c) (tickets c)
    (total_slashed c) (applying_height c) (shielded_state c).
Definition set_tip (bs : list Block) (work target : Z) (c : Chain) : Chain :=
  mkChain bs (utxo_set c) (address_index c) (signer_last_nonce c) (seen_transactions c)
    (pubkey_registry c) target (total_emitted c) (total_fees_last_block c) work (tickets c)
    (total_slashed c) (applying_height c) (shielded_state c).

(** ** Shared loops *)

(** Validate the outputs and add their amounts, with the caller's messages. *)
Fixpoint check_outputs (e_recipient e_amount e_overflow : string) (total : Z) (outs : list TxOutput) :
    result Z :=
  match outs with
  | [] => Ok total
  | o :: outs =>
      reject_if is_empty (recipient o) as e_recipient ;;
      reject_if amount o =? 0 as e_amount ;;
      reject_if U64_MAX - amount o <? total as e_overflow ;;
      check_outputs e_recipient e_amount e_overflow (total + amount o) outs
  end.

Definition outpoint_key (txid : string) (output_index : Z) : string :=
  txid +:+ ":" +:+ to_string output_index.
Definition input_key (i : TxInput) : string := outpoint_key (previous_txid i) (output_index i).

(** [address_index_[owner]] lowered by an amount, at zero at least. *)
Definition index_sub (idx : gmap string Z) (who : string) (amt : Z) : gmap string Z :=
  let bal := map_get0 idx who in <[who := if amt <=? bal then bal - amt else 0]> idx.

Definition work_for_target (target : Z) : Z := if target =? 0 then U64_MAX else U64_MAX / target.

Definition unsigned_tx (tx : Transaction) : Transaction :=
  mkTransaction (inputs tx) (outputs tx) (signer tx) (signer_pubkey tx) "" (fee tx) (nonce tx)
    (shielded tx).

(** The bundle of a transaction without one. *)
Definition empty_bundle : Bundle := mkBundle 0 0 zero_h32 [] [] [] "".

Section chain.
Context {C : Crypto} {ST : Stark} (cfg : ChainConfig).

(** ** Reading the state *)

Definition tip (c : Chain) : Block :=
  List.last (blocks c) (mkBlock (mkBlockHeader 0 "" 0 0 0 "") [] [] []).
Definition height_of (c : Chain) : Z := height (header (tip c)).
Definition next_height (c : Chain) : Z := u64 (height_of c + 1).
Definition context_height (c : Chain) : Z :=
  if applying_height c =? 0 then next_height c else applying_height c.

Definition staking_active_at (h : Z) : bool := staking_activation_height cfg <=? h.

Definition compute_block_reward (h : Z) : Z :=
  scheduled_block_subsidy h (block_reward cfg) (halving_interval cfg) (subsidy_floor cfg).
Definition max_mintable_at (c : Chain) (h : Z) : Z :=
  max_mintable_subsidy h (total_emitted c) (max_supply cfg) (block_reward cfg)
    (halving_interval cfg) (subsidy_floor cfg).

Definition balance_of (c : Chain) (address : string) : Z := map_get0 (address_index c) address.
Definition last_nonce (c : Chain) (address : string) : Z := map_get0 (signer_last_nonce c) address.
Definition remaining_supply (c : Chain) : Z :=
  if total_emitted c <? max_supply cfg then max_supply cfg - total_emitted c else 0.

(** An outpoint that exists and is unspent. *)
Definition unspent (m : gmap string UTXO) (key : string) : option UTXO :=
  u ← m !! key; if u_spent u then None else Some u.

(** ** Genesis *)

Definition make_genesis (target : Z) : Block :=
  let prev := if String.eqb (network_id cfg) "ADDITION_MAINNET_V1" ||
                 String.eqb (network_id cfg) "ADDITION_REGTEST_V1" ||
                 String.eqb (network_id cfg) "ADDITION_FAST_V1"
              then "genesis:" +:+ network_id cfg else "0" in
  mkBlock (mkBlockHeader 0 prev (genesis_timestamp cfg) 0 target (compute_merkle_root [])) [] [] [].

(** [reset] and the constructor leave the same state. *)
Definition reset : Chain :=
  let g := make_genesis (initial_difficulty_target cfg) in
  mkChain [g] ∅ ∅ ∅ ∅ ∅ (initial_difficulty_target cfg) 0 0
    (work_for_target (difficulty_target (header g))) ∅ 0 0 state_init.

(** ** Signatures and scripts *)

Definition signer_binds_pubkey (signer pubkey_hex : string) : result () :=
  let scheme := infer_sig_scheme_from_pubkey_hex pubkey_hex in
  reject_if bool_decide (scheme = Unknown) || negb (sig_scheme_allowed_strict scheme)
    as "unknown scheme rejected in strict mode" ;;
  address_binds_pubkey signer scheme pubkey_hex.

Definition resolve_signer_pubkey (c : Chain) (overlay : option (gmap string string))
    (tx : Transaction) : result string :=
  if negb (is_empty (signer_pubkey tx)) then
    _ ← signer_binds_pubkey (signer tx) (signer_pubkey tx); Ok (signer_pubkey tx)
  else
    match overlay ≫= λ m, m !! signer tx with
    | Some pk => Ok pk
    | None =>
        match pubkey_registry c !! signer tx with
        | Some pk => Ok pk
        | None => Err "missing signer public key (not in registry)"
        end
    end.

(** Is input [i] controlled by the signer (a ticket by its owner)? *)
Definition controls_input (c : Chain) (who : string) (i : TxInput) : bool :=
  match unspent (utxo_set c) (input_key i) with
  | None => false
  | Some u =>
      if String.eqb (u_owner u) kStakeAddress then
        match tickets c !! input_key i with
        | Some t => String.eqb (owner t) who
        | None => false
        end
      else String.eqb (u_owner u) who
  end.

Definition validate_transaction_signature (c : Chain) (tx : Transaction) (check_crypto : bool) :
    result () :=
  reject_if require_pq_signatures cfg && negb (starts_with "pq=" (signature tx))
    as "non-PQ signature rejected in strict mode" ;;
  reject_if is_empty (signer tx) as "missing signer" ;;
  reject_if is_empty (signature tx) as "missing signature" ;;
  pubkey ← resolve_signer_pubkey c None tx;
  reject_if bool_decide (inputs tx = []) || negb (forallb (controls_input c (signer tx)) (inputs tx))
    as "signer does not control inputs" ;;
  if negb check_crypto then Ok ()
  else
    reject_if negb (verify_message_signature_hybrid_uncached pubkey
                      (hash_transaction (unsigned_tx tx)) (signature tx))
      as "invalid signature" ;;
    Ok ().

Fixpoint validate_script_inputs_from (c : Chain) (sh : string) (i : Z) (ins : list TxInput) :
    result () :=
  match ins with
  | [] => Ok ()
  | x :: ins =>
      match unspent (utxo_set c) (input_key x) with
      | None => Err "input utxo not found or spent"
      | Some u =>
          match verify_input (u_owner u) (witness x) (mkSpendContext sh (next_height c) (u_height u)) with
          | Err e => Err ("input " +:+ to_string i +:+ ": " +:+ e)
          | Ok _ => validate_script_inputs_from c sh (i + 1) ins
          end
      end
  end.
Definition validate_script_inputs (c : Chain) (tx : Transaction) : result () :=
  validate_script_inputs_from c (sighash tx) 0 (inputs tx).

(** ** Shielded part *)

Definition validate_shielded_part (c : Chain) (tx : Transaction) (pending_nfs : gset string)
    (check_proof : bool) : result Bundle :=
  reject_if negb (shielded_enabled cfg) as "shielded transactions not enabled on this network" ;;
  bundle ← from_tx_field (shielded tx);
  reject_if bool_decide (inputs tx = []) &&
            (negb (is_empty (signer tx)) || negb (is_empty (signature tx)) ||
             negb (is_empty (signer_pubkey tx)))
    as "fully shielded tx must not carry a transparent signer" ;;
  reject_if bool_decide (inputs tx = []) && negb (vpub_in bundle =? 0)
    as "vpub_in requires transparent inputs" ;;
  reject_if bool_decide (inputs tx = []) && bool_decide (nullifiers bundle = [])
    as "fully shielded tx must spend at least one note" ;;
  _ ← check (shielded_state c) bundle pending_nfs;
  _ ← (if check_proof then verify_bundle_proof tx bundle else Ok ());
  Ok bundle.

(** ** [validate_transaction] *)

(** The input loop: existence, freeze, duplicates, total. *)
Fixpoint validate_inputs (c : Chain) (seen : gset string) (total : Z) (ins : list TxInput) :
    result Z :=
  match ins with
  | [] => Ok total
  | i :: ins =>
      let key := input_key i in
      reject_if bool_decide (key ∈ seen) as "duplicate input in transaction" ;;
      match unspent (utxo_set c) key with
      | None => Err "input utxo not found or spent"
      | Some u =>
          reject_if context_height c <? u_spendable_height u
            as "input still unbonding (spendable at height " +:+
               to_string (u_spendable_height u) +:+ ")" ;;
          reject_if U64_MAX - u_amount u <? total as "inputs overflow" ;;
          validate_inputs c ({[key]} ∪ seen) (total + u_amount u) ins
      end
  end.

Definition spends_ticket (c : Chain) (tx : Transaction) : bool :=
  existsb (λ i, bool_decide (is_Some (tickets c !! input_key i))) (inputs tx).

(** Outputs to [@stake]. *)
Fixpoint validate_stake_outputs (c : Chain) (spends : bool) (outs : list TxOutput) : result () :=
  match outs with
  | [] => Ok ()
  | o :: outs =>
      if negb (String.eqb (recipient o) kStakeAddress) then validate_stake_outputs c spends outs
      else
        reject_if spends as "stake unlock cannot create new stake" ;;
        reject_if negb (staking_active_at (context_height c)) as "staking not active" ;;
        reject_if amount o <? stake_min_amount cfg
          as "stake below minimum (" +:+ to_string (stake_min_amount cfg) +:+ ")" ;;
        validate_stake_outputs c spends outs
  end.

(** The last part, for a transaction with inputs: authorization, nonce, inputs,
    stake outputs and value balance. *)
Definition validate_spend (c : Chain) (tx : Transaction) (bundle : Bundle) (outputs_total : Z)
    (check_signature : bool) : result () :=
  reject_if (0 <? min_fee cfg) && (fee tx <? min_fee cfg) as "fee below network minimum" ;;
  let script_tx := is_empty (signer tx) in
  _ ← (if script_tx then
         reject_if negb (is_empty (signature tx)) || negb (is_empty (signer_pubkey tx))
           as "script tx must not carry a signer signature" ;;
         validate_script_inputs c tx
       else
         reject_if existsb (λ i, negb (is_empty (witness i))) (inputs tx)
           as "witness on signer-authorized input" ;;
         _ ← validate_transaction_signature c tx check_signature;
         match signer_last_nonce c !! signer tx with
         | Some n => reject_if nonce tx <=? n as "nonce replay or out-of-order" ;; Ok ()
         | None => Ok ()
         end);
  inputs_total ← validate_inputs c ∅ 0 (inputs tx);
  _ ← validate_stake_outputs c (spends_ticket c tx) (outputs tx);
  reject_if U64_MAX - fee tx <? outputs_total as "outputs+fee overflow" ;;
  if negb (is_empty (shielded tx)) then
    reject_if negb (u128 (inputs_total + vpub_out bundle) =?
                    u128 (outputs_total + fee tx + vpub_in bundle))
      as "shielded value balance mismatch" ;;
    Ok ()
  else
    reject_if inputs_total <? u64 (outputs_total + fee tx) as "inputs < outputs + fee" ;;
    Ok ().

Definition validate_transaction (c : Chain) (tx : Transaction) (check_signature : bool) :
    result () :=
  let is_shielded := negb (is_empty (shielded tx)) in
  bundle ← (if is_shielded then validate_shielded_part c tx ∅ check_signature else Ok empty_bundle);
  reject_if bool_decide (outputs tx = []) && negb is_shielded &&
            negb (bool_decide (inputs tx = []) && negb (applying_height c =? 0))
    as "transaction has no outputs" ;;
  outputs_total ← check_outputs "output recipient empty" "output amount zero" "outputs overflow" 0
    (outputs tx);
  if bool_decide (inputs tx = []) && is_shielded then
    reject_if (0 <? min_fee cfg) && (fee tx <? min_fee cfg) as "fee below network minimum" ;;
    reject_if negb (vpub_out bundle =? u128 (outputs_total + fee tx))
      as "shielded value balance mismatch" ;;
    Ok ()
  else if bool_decide (inputs tx = []) then
    reject_if negb (is_empty (signer tx)) || negb (is_empty (signature tx))
      as "coinbase must not be signed" ;;
    reject_if existsb (λ o, String.eqb (recipient o) kStakeAddress) (outputs tx)
      as "coinbase cannot lock stake" ;;
    reject_if (applying_height c =? 0) && (u64 (block_reward cfg + fee tx) <? outputs_total)
      as "coinbase exceeds allowed emission" ;;
    Ok ()
  else validate_spend c tx bundle outputs_total check_signature.

(** ** [apply_transaction] *)

(** The input loop; the flag tells whether a ticket was unlocked. *)
Fixpoint spend_inputs (c : Chain) (unlocking : bool) (ins : list TxInput) : Chain * result bool :=
  match ins with
  | [] => (c, Ok unlocking)
  | i :: ins =>
      let key := input_key i in
      match unspent (utxo_set c) key with
      | None => (c, Err "cannot spend missing utxo")
      | Some u =>
          let m := <[key := mkUTXO (u_owner u) (u_amount u) true (u_spendable_height u) (u_height u)]>
                     (utxo_set c) in
          let c := set_utxo_index m (index_sub (address_index c) (u_owner u) (u_amount u)) c in
          let ticket := bool_decide (is_Some (tickets c !! key)) in
          spend_inputs (set_tickets (delete key (tickets c)) c) (unlocking || ticket) ins
      end
  end.

(** The ticket created by an output to [@stake]. *)
Definition new_ticket (c : Chain) (tx : Transaction) (key : string) (amt h : Z) : StakeTicket :=
  let pk := if is_empty (signer_pubkey tx) then default "" (pubkey_registry c !! signer tx)
            else signer_pubkey tx in
  mkStakeTicket key (signer tx) pk amt h.

Fixpoint create_outputs (c : Chain) (tx : Transaction) (txid : string) (unlocking : bool) (h i : Z)
    (outs : list TxOutput) : Chain * result () :=
  match outs with
  | [] => (c, Ok ())
  | o :: outs =>
      let key := outpoint_key txid i in
      let u := mkUTXO (recipient o) (amount o) false
                 (if unlocking then u64 (h + stake_unbond_delay cfg) else 0) (next_height c) in
      let c := if String.eqb (recipient o) kStakeAddress
               then set_tickets (<[key := new_ticket c tx key (amount o) h]> (tickets c)) c else c in
      let c := set_utxo_index (<[key := u]> (utxo_set c))
                 (<[recipient o := map_get0 (address_index c) (recipient o)]> (address_index c)) c in
      if U64_MAX - amount o <? map_get0 (address_index c) (recipient o)
      then (c, Err "balance index overflow")
      else
        let idx := <[recipient o := map_get0 (address_index c) (recipient o) + amount o]>
                     (address_index c) in
        create_outputs (set_utxo_index (utxo_set c) idx c) tx txid unlocking h (i + 1) outs
  end.

Definition record_signer (tx : Transaction) (c : Chain) : Chain :=
  if negb (bool_decide (inputs tx = [])) && negb (is_empty (signer tx)) then
    let reg := if negb (is_empty (signer_pubkey tx)) && bool_decide (pubkey_registry c !! signer tx = None)
               then <[signer tx := signer_pubkey tx]> (pubkey_registry c) else pubkey_registry c in
    set_nonce_registry (<[signer tx := nonce tx]> (signer_last_nonce c)) reg c
  else c.

Definition apply_transaction (c : Chain) (tx : Transaction) (txid : string) (check_signature : bool) :
    Chain * result () :=
  match validate_transaction c tx check_signature with
  | Err e => (c, Err e)
  | Ok _ =>
      match spend_inputs c false (inputs tx) with
      | (c, Err e) => (c, Err e)
      | (c, Ok unlocking) =>
          match create_outputs c tx txid unlocking (context_height c) 0 (outputs tx) with
          | (c, Err e) => (c, Err e)
          | (c, Ok _) =>
              let c := record_signer tx c in
              if negb (is_empty (shielded tx)) then
                match from_tx_field (shielded tx) with
                | Err e => (c, Err e)
                | Ok b =>
                    (set_seen ({[txid]} ∪ seen_transactions c)
                       (set_shielded (apply b (shielded_state c)) c), Ok ())
                end
              else (set_seen ({[txid]} ∪ seen_transactions c) c, Ok ())
          end
      end
  end.
End chain.
