(* ===== verification/ChainBlock.v ===== *)
(** * Blocks and chains ([src/chain.cpp], second half)

    Difficulty, header, transaction and staking rules of a block, [add_block] with
    its snapshots, [replace_with_chain], and the block producer. The wall clock is
    an argument. The commit hook and the timing counters of the batch verifier are
    not part of the state. *)
From S2P Require Import Prelude ConsensusRules Strings Crypto Types Wire Block Staking Shielded Script Chain.

Section chain.
Context {C : Crypto} {ST : Stark} (cfg : ChainConfig).

(** ** Difficulty *)

Definition hash_meets_target (hex_hash : string) (target : Z) : option bool :=
  h ← (match pow_algorithm cfg with
       | Sha3_512 => hash_head64 hex_hash
       | MemoryHard => memory_hard_head64 hex_hash
       end);
  Some (h <=? target).

Definition clamp_difficulty_target (target : Z) : Z :=
  if target <? min_difficulty_target cfg then min_difficulty_target cfg
  else if max_difficulty_target cfg <? target then max_difficulty_target cfg
  else target.

Definition compute_legacy_difficulty_target (c : Chain) : Z :=
  let legacy_min := if negb (legacy_min_difficulty_target cfg =? 0)
                    then Z.max (legacy_min_difficulty_target cfg) (min_difficulty_target cfg)
                    else min_difficulty_target cfg in
  let clamp_legacy t := Z.min (Z.max t legacy_min) (max_difficulty_target cfg) in
  let window := Z.to_nat (retarget_window cfg) in
  let n := length (blocks c) in
  if (window =? 0)%nat || (n <? window + 1)%nat then clamp_legacy (chain_target c)
  else if negb (height_of c mod Z.of_nat window =? 0) then clamp_legacy (chain_target c)
  else
    let oldest_index := (n - 1 - window)%nat in
    let oldest_index := if (oldest_index =? 0)%nat then 1%nat else oldest_index in
    if (n - 1 <=? oldest_index)%nat then clamp_legacy (chain_target c)
    else
      let newest := timestamp (header (tip c)) in
      let oldest := timestamp (header (nth oldest_index (blocks c) (tip c))) in
      let observed := if oldest <? newest then newest - oldest else 1 in
      let expected := u64 (Z.of_nat window * target_block_time_sec cfg) in
      if expected =? 0 then clamp_legacy (chain_target c)
      else
        let floor_span := Z.max 1 (expected / 4) in
        let observed_capped := Z.min (Z.max observed floor_span) (u64 (expected * 4)) in
        let next := if U64_MAX / observed_capped <? chain_target c
                    then max_difficulty_target cfg
                    else u64 (chain_target c * observed_capped) / expected in
        clamp_legacy next.

Definition compute_next_difficulty_target (c : Chain) : Z :=
  let next_h := if bool_decide (blocks c = []) then 0 else next_height c in
  if next_h <? difficulty_fork_height cfg then compute_legacy_difficulty_target c
  else
    let window := Nat.max 2 (Z.to_nat (lwma_window cfg)) in
    let n := length (blocks c) in
    if (n <? 3)%nat then clamp_difficulty_target (initial_difficulty_target cfg)
    else
      let first := Nat.max 1 (n - Nat.min n (window + 1)) in
      let recent := drop first (blocks c) in
      lwma_next_target ((λ b, timestamp (header b)) <$> recent)
        ((λ b, difficulty_target (header b)) <$> recent) (target_block_time_sec cfg)
        (min_difficulty_target cfg) (max_difficulty_target cfg) (chain_target c).

(** ** Header rules *)

Definition validate_block_header (now : Z) (c : Chain) (b : Block) : result () :=
  let h := header b in
  let t := header (tip c) in
  reject_if negb (height h =? u64 (height t + 1)) as "invalid height" ;;
  reject_if negb (String.eqb (previous_hash h) (hash_block_header t)) as "invalid previous hash" ;;
  reject_if negb (String.eqb (merkle_root h) (compute_block_commitment b)) as "invalid merkle root" ;;
  reject_if timestamp h <? timestamp t as "timestamp regression" ;;
  reject_if (difficulty_fork_height cfg <=? height h) &&
            (u64 (now + u64 (kFutureTimeLimitBlocks * Z.max 1 (target_block_time_sec cfg))) <? timestamp h)
    as "timestamp too far in future" ;;
  reject_if max_difficulty_target cfg <? difficulty_target h as "min-diff: toy difficulty rejected" ;;
  reject_if difficulty_target h <? min_difficulty_target cfg
    as "invalid difficulty target (below min-diff floor)" ;;
  reject_if negb (difficulty_target h =? chain_target c) as "invalid difficulty target" ;;
  match hash_meets_target (hash_block_header h) (difficulty_target h) with
  | Some true => Ok ()
  | Some false => Err "invalid proof of work"
  | None => Err "std::stoull"
  end.

(** ** Transaction rules of a block *)

(** The fee loop over the transactions after the coinbase. *)
Fixpoint sum_fees (fees : Z) (txs : list Transaction) : result Z :=
  match txs with
  | [] => Ok fees
  | tx :: txs =>
      reject_if bool_decide (inputs tx = []) && is_empty (shielded tx)
        as "non-coinbase tx must have inputs" ;;
      reject_if U64_MAX - fee tx <? fees as "fees overflow" ;;
      sum_fees (fees + fee tx) txs
  end.

(** The shielded loop: one [option Bundle] per transaction after the coinbase. *)
Fixpoint scan_shielded (c : Chain) (block_nfs block_cms : gset string) (txs : list Transaction) :
    result (list (Transaction * option Bundle)) :=
  match txs with
  | [] => Ok []
  | tx :: txs =>
      if is_empty (shielded tx) then
        rest ← scan_shielded c block_nfs block_cms txs; Ok ((tx, None) :: rest)
      else
        bundle ← validate_shielded_part cfg c tx block_nfs false;
        let block_nfs := foldl (λ s n, {[hex32 n]} ∪ s) block_nfs (nullifiers bundle) in
        block_cms ← foldl (λ acc x, s ← acc;
                      reject_if bool_decide (hex32 x ∈ s) as "shielded: duplicate commitment in block" ;;
                      Ok ({[hex32 x]} ∪ s)) (Ok block_cms) (commitments bundle);
        rest ← scan_shielded c block_nfs block_cms txs; Ok ((tx, Some bundle) :: rest)
  end.

Fixpoint verify_shielded_jobs (jobs : list (Transaction * option Bundle)) : result () :=
  match jobs with
  | [] => Ok ()
  | (tx, Some b) :: jobs => _ ← verify_bundle_proof tx b; verify_shielded_jobs jobs
  | (_, None) :: jobs => verify_shielded_jobs jobs
  end.

(** The input loop over the block's snapshot of the UTXO set and the index. *)
Fixpoint scan_inputs (h : Z) (m : gmap string UTXO) (idx : gmap string Z) (total : Z)
    (ins : list TxInput) : result (gmap string UTXO * gmap string Z * Z) :=
  match ins with
  | [] => Ok (m, idx, total)
  | i :: ins =>
      let key := input_key i in
      match unspent m key with
      | None => Err "invalid or spent input in block"
      | Some u =>
          reject_if h <? u_spendable_height u as "input still unbonding" ;;
          reject_if U64_MAX - u_amount u <? total as "inputs overflow" ;;
          scan_inputs h
            (<[key := mkUTXO (u_owner u) (u_amount u) true (u_spendable_height u) (u_height u)]> m)
            (index_sub idx (u_owner u) (u_amount u)) (total + u_amount u) ins
      end
  end.

Fixpoint scan_outputs (h : Z) (txid : string) (i : Z) (m : gmap string UTXO) (idx : gmap string Z)
    (outs : list TxOutput) : result (gmap string UTXO * gmap string Z) :=
  match outs with
  | [] => Ok (m, idx)
  | o :: outs =>
      let m := <[outpoint_key txid i := mkUTXO (recipient o) (amount o) false 0 h]> m in
      reject_if U64_MAX - amount o <? map_get0 idx (recipient o) as "balance index overflow" ;;
      scan_outputs h txid (i + 1) m
        (<[recipient o := map_get0 idx (recipient o) + amount o]> idx) outs
  end.

Definition scan_tx (h : Z) (may_be_empty : bool) (m : gmap string UTXO) (idx : gmap string Z)
    (job : Transaction * option Bundle) : result (gmap string UTXO * gmap string Z) :=
  let '(tx, ob) := job in
  reject_if bool_decide (outputs tx = []) && is_empty (shielded tx) && negb may_be_empty
    as "tx outputs empty" ;;
  outputs_total ← check_outputs "invalid tx output" "invalid tx output" "block tx outputs overflow" 0
    (outputs tx);
  '(m, idx, inputs_total) ← scan_inputs h m idx 0 (inputs tx);
  let has_inputs := negb (bool_decide (inputs tx = [])) in
  reject_if has_inputs && (U64_MAX - fee tx <? outputs_total) as "block tx outputs+fee overflow" ;;
  _ ← (if negb (is_empty (shielded tx)) then
         let b := default empty_bundle ob in
         reject_if negb (u128 (inputs_total + vpub_out b) =? u128 (outputs_total + fee tx + vpub_in b))
           as "block shielded value mismatch" ;;
         Ok ()
       else
         reject_if has_inputs && (inputs_total <? u64 (outputs_total + fee tx))
           as "block tx value mismatch" ;;
         Ok ());
  scan_outputs h (hash_transaction tx) 0 m idx (outputs tx).

Fixpoint scan_txs (h : Z) (m : gmap string UTXO) (idx : gmap string Z)
    (jobs : list (Transaction * option Bundle)) : result () :=
  match jobs with
  | [] => Ok ()
  | job :: jobs => '(m, idx) ← scan_tx h false m idx job; scan_txs h m idx jobs
  end.

(** The signature jobs, with the registrations of earlier transactions of the
    block. *)
Fixpoint collect_jobs (c : Chain) (overlay : gmap string string) (txs : list Transaction) :
    result (list PqVerifyItem) :=
  match txs with
  | [] => Ok []
  | tx :: txs =>
      if bool_decide (inputs tx = []) && negb (is_empty (shielded tx)) then collect_jobs c overlay txs
      else if is_empty (signer tx) && is_empty (signature tx) && is_empty (signer_pubkey tx)
      then collect_jobs c overlay txs
      else
        reject_if is_empty (signer tx) || negb (starts_with "pq=" (signature tx))
          as "non-coinbase tx missing PQ signature" ;;
        pubkey ← resolve_signer_pubkey c (Some overlay) tx;
        let overlay :=
          if negb (is_empty (signer_pubkey tx)) && negb (bool_decide (inputs tx = [])) &&
             bool_decide (pubkey_registry c !! signer tx = None) &&
             bool_decide (overlay !! signer tx = None)
          then <[signer tx := signer_pubkey tx]> overlay else overlay in
        rest ← collect_jobs c overlay txs;
        Ok (mkPqVerifyItem pubkey (hash_transaction (unsigned_tx tx)) (signature tx) :: rest)
  end.

(** ** Staking rules *)

Definition eligible_tickets_at (c : Chain) (voted_height : Z) : list StakeTicket :=
  filter (λ t, u64 (lock_height t + stake_maturity cfg) ≤ voted_height)
    ((map_to_list (tickets c)).*2).

Definition vote_signature_ok (t : StakeTicket) (v : StakeVote) : bool :=
  starts_with "pq=" (vote_signature v) &&
  verify_message_signature_hybrid_uncached (owner_pubkey t)
    (stake_vote_message (network_id cfg) (voted_height v) (voted_hash v) (ticket_id v) (approve v))
    (vote_signature v).

Definition ticket_with_key (c : Chain) (t : StakeTicket) : StakeTicket :=
  if is_empty (owner_pubkey t) then
    match pubkey_registry c !! owner t with
    | Some pk => mkStakeTicket (id t) (owner t) pk (ticket_amount t) (lock_height t)
    | None => t
    end
  else t.

Definition validate_slash (c : Chain) (ev : SlashEvidence) : result () :=
  let a := ev_a ev in
  let b := ev_b ev in
  reject_if negb (String.eqb (ticket_id a) (ticket_id b)) || negb (voted_height a =? voted_height b)
    as "slash: votes are not from the same ticket/height" ;;
  reject_if String.eqb (voted_hash a) (voted_hash b) && Bool.eqb (approve a) (approve b)
    as "slash: votes do not conflict" ;;
  match tickets c !! ticket_id a with
  | None => Err "slash: unknown or spent ticket"
  | Some t =>
      reject_if negb (vote_signature_ok (ticket_with_key c t) a) ||
                negb (vote_signature_ok (ticket_with_key c t) b)
        as "slash: invalid vote signature" ;;
      Ok ()
  end.

Fixpoint validate_slashes (c : Chain) (slashed : gset string) (evs : list SlashEvidence) : result () :=
  match evs with
  | [] => Ok ()
  | ev :: evs =>
      _ ← validate_slash c ev;
      reject_if bool_decide (ticket_id (ev_a ev) ∈ slashed) as "duplicate slash evidence" ;;
      validate_slashes c ({[ticket_id (ev_a ev)]} ∪ slashed) evs
  end.

(** The vote loop: the owners of the approving tickets, in vote order. *)
Fixpoint validate_votes (c : Chain) (voted_h : Z) (hash : string) (selected : list string)
    (seen : gset string) (vs : list StakeVote) : result (list string) :=
  match vs with
  | [] => Ok []
  | v :: vs =>
      reject_if negb (voted_height v =? voted_h) || negb (String.eqb (voted_hash v) hash)
        as "vote not on parent block" ;;
      reject_if negb (bool_decide (ticket_id v ∈ selected)) as "vote from unselected ticket" ;;
      reject_if bool_decide (ticket_id v ∈ seen) as "duplicate vote" ;;
      match tickets c !! ticket_id v with
      | None => Err "invalid stake vote signature"
      | Some t =>
          reject_if negb (vote_signature_ok (ticket_with_key c t) v) as "invalid stake vote signature" ;;
          owners ← validate_votes c voted_h hash selected ({[ticket_id v]} ∪ seen) vs;
          Ok (if approve v then owner t :: owners else owners)
      end
  end.

(** The last outputs of the coinbase pay the approving votes, in order. *)
Definition rewards_match (outs : list TxOutput) (owners : list string) (per : Z) : bool :=
  let base := (length outs - length owners)%nat in
  forallb (λ '(o, who), String.eqb (recipient o) who && (amount o =? per))
    (zip (drop base outs) owners).

Definition validate_block_staking (c : Chain) (b : Block) : result () :=
  let h := height (header b) in
  if negb (staking_active_at cfg h) then
    reject_if negb (bool_decide (votes b = [])) || negb (bool_decide (slashes b = []))
      as "votes/slashes before staking activation" ;;
    Ok ()
  else
    _ ← validate_slashes c ∅ (slashes b);
    let voted_h := u64 (h - 1) in
    let hash := previous_hash (header b) in
    let eligible := eligible_tickets_at c voted_h in
    let selected := select_tickets eligible hash (stake_votes_per_block cfg) in
    reject_if (length selected <? length (votes b))%nat as "too many votes" ;;
    owners ← validate_votes c voted_h hash selected ∅ (votes b);
    reject_if (stake_min_live_tickets cfg <=? list_size eligible) &&
              (list_size owners <? stake_vote_quorum cfg) as "insufficient stake votes" ;;
    if bool_decide (owners = []) then Ok ()
    else
      let fees := foldl (λ f tx, u64 (f + fee tx)) 0 (tail (transactions b)) in
      let pot := u64 (max_mintable_at cfg c h + fees) in
      let per := stake_reward_per_vote pot (stake_reward_bps cfg) (list_size owners) in
      if negb (0 <? per) then Ok ()
      else
        let outs := from_option outputs [] (head (transactions b)) in
        reject_if (length outs <? length owners)%nat as "coinbase missing staker rewards" ;;
        reject_if negb (rewards_match outs owners per) as "coinbase staker reward mismatch" ;;
        Ok ().

(** ** [validate_block_transactions] *)

Definition validate_block_transactions (c : Chain) (b : Block) : result () :=
  match transactions b with
  | [] => Err "block must include coinbase"
  | coinbase :: txs =>
      let h := height (header b) in
      reject_if max_block_weight cfg <? block_weight b as "block weight exceeds max_block_weight" ;;
      reject_if negb (is_empty (shielded coinbase)) as "coinbase must not carry a shielded bundle" ;;
      reject_if negb (bool_decide (inputs coinbase = [])) as "coinbase must not have inputs" ;;
      reject_if bool_decide (outputs coinbase = []) && negb (allow_zero_reward_blocks cfg) &&
                negb (max_mintable_at cfg c h =? 0) as "coinbase must have output" ;;
      coinbase_total ← check_outputs "invalid coinbase output" "invalid coinbase output"
        "coinbase overflow" 0 (outputs coinbase);
      fees ← sum_fees 0 txs;
      let base_reward := compute_block_reward cfg h in
      reject_if U64_MAX - fees <? base_reward as "allowed reward overflow" ;;
      reject_if base_reward + fees <? coinbase_total as "coinbase exceeds allowed reward+fees" ;;
      let minted := if fees <? coinbase_total then coinbase_total - fees else 0 in
      reject_if max_mintable_at cfg c h <? minted as "max supply exceeded" ;;
      jobs ← scan_shielded c ∅ ∅ txs;
      _ ← verify_shielded_jobs jobs;
      '(m, idx) ← scan_tx h (coinbase_total =? 0) (utxo_set c) (address_index c) (coinbase, None);
      _ ← scan_txs h m idx jobs;
      items ← collect_jobs c ∅ txs;
      _ ← pq_verify_messages items;
      validate_block_staking c b
  end.

(** ** [add_block] *)

Fixpoint apply_all (c : Chain) (txs : list Transaction) : Chain * result () :=
  match txs with
  | [] => (c, Ok ())
  | tx :: txs =>
      match apply_transaction cfg c tx (hash_transaction tx) false with
      | (c, Err e) => (c, Err e)
      | (c, Ok _) => apply_all c txs
      end
  end.

(** Every snapshot taken before the transactions are applied is put back. The
    guard's destructor clears [applying_height_]. *)
Definition rollback (old cur : Chain) : Chain :=
  mkChain (take (length (blocks old)) (blocks cur)) (utxo_set old) (address_index old)
    (signer_last_nonce old) (seen_transactions old) (pubkey_registry old) (chain_target old)
    (total_emitted old) (total_fees_last_block old) (cumulative_work old) (tickets old)
    (total_slashed old) 0 (shielded_state old).

(** [u64] addition of the fees, stopping at an overflow. *)
Fixpoint add_fees (fees : Z) (txs : list Transaction) : result Z :=
  match txs with
  | [] => Ok fees
  | tx :: txs => reject_if U64_MAX - fee tx <? fees as "fees overflow" ;; add_fees (fees + fee tx) txs
  end.
Fixpoint add_coinbase (total : Z) (outs : list TxOutput) : result Z :=
  match outs with
  | [] => Ok total
  | o :: outs =>
      reject_if U64_MAX - amount o <? total as "coinbase overflow" ;; add_coinbase (total + amount o) outs
  end.

(** Burn the ticket named by one piece of slash evidence. *)
Definition burn_ticket (c : Chain) (ev : SlashEvidence) : Chain :=
  let key := ticket_id (ev_a ev) in
  match tickets c !! key with
  | None => c
  | Some _ =>
      let c := match unspent (utxo_set c) key with
               | None => c
               | Some u =>
                   set_slashed (u64 (total_slashed c + u_amount u))
                     (set_utxo_index
                        (<[key := mkUTXO (u_owner u) (u_amount u) true (u_spendable_height u) (u_height u)]>
                           (utxo_set c))
                        (index_sub (address_index c) (u_owner u) (u_amount u)) c)
               end in
      set_tickets (delete key (tickets c)) c
  end.

(** After the transactions are applied: fees, slashing, emission, the new tip. The
    early returns here do not roll back. *)
Definition commit_block (c : Chain) (b : Block) : Chain * result () :=
  match add_fees 0 (tail (transactions b)) with
  | Err e => (c, Err e)
  | Ok fees =>
      let c := set_emitted_fees (total_emitted c) fees c in
      let c := foldl burn_ticket c (slashes b) in
      match (match transactions b with
             | [] => Ok (total_emitted c)
             | coinbase :: _ =>
                 coinbase_total ← add_coinbase 0 (outputs coinbase);
                 let minted := if fees <? coinbase_total then coinbase_total - fees else 0 in
                 reject_if max_mintable_at cfg c (height (header b)) <? minted as "max supply exceeded" ;;
                 Ok (u64 (total_emitted c + minted))
             end) with
      | Err e => (c, Err e)
      | Ok emitted =>
          let c := set_emitted_fees emitted fees c in
          let c := set_tip (blocks c ++ [b])
                     (u64 (cumulative_work c + work_for_target (difficulty_target (header b))))
                     (chain_target c) c in
          (set_tip (blocks c) (cumulative_work c) (compute_next_difficulty_target c) c, Ok ())
      end
  end.

Definition add_block (now : Z) (c : Chain) (b : Block) : Chain * result () :=
  if max_block_weight cfg <? block_weight b then (c, Err "block weight exceeds max_block_weight")
  else
    match validate_block_header now c b with
    | Err e => (c, Err e)
    | Ok _ =>
        match validate_block_transactions c b with
        | Err e => (c, Err e)
        | Ok _ =>
            match apply_all (set_applying (height (header b)) c) (transactions b) with
            | (c', Err e) => (rollback c c', Err e)
            | (c', Ok _) =>
                let '(c'', r) := commit_block c' b in (set_applying 0 c'', r)
            end
        end
    end.

(** ** [replace_with_chain] *)

(** Every field that [replace_with_chain] saved is put back. *)
Definition restore (old cur : Chain) : Chain :=
  mkChain (blocks old) (utxo_set old) (address_index old) (signer_last_nonce old)
    (seen_transactions old) (pubkey_registry old) (chain_target old) (total_emitted old)
    (total_fees_last_block old) (cumulative_work old) (tickets old) (total_slashed old)
    (applying_height cur) (shielded_state old).

(** The replay loop from candidate block [i] on. *)
Fixpoint replay (now : Z) (c : Chain) (i : Z) (bs : list Block) : Chain * result () :=
  match bs with
  | [] => (c, Ok ())
  | b :: bs =>
      match add_block now c b with
      | (c, Err e) => (c, Err ("invalid candidate at height " +:+ to_string i +:+ ": " +:+ e))
      | (c, Ok _) => replay now c (i + 1) bs
      end
  end.

Definition replace_with_chain (now : Z) (c : Chain) (candidate : list Block) : Chain * result () :=
  match candidate with
  | [] => (c, Err "candidate chain empty")
  | g :: bs =>
      let genesis := from_option (λ b, hash_block_header (header b)) "" (head (blocks c)) in
      if negb (String.eqb (hash_block_header (header g)) genesis) then (c, Err "genesis mismatch")
      else
        match replay now (reset cfg) 1 bs with
        | (c', Err e) => (restore c c', Err e)
        | (c', Ok _) =>
            if cumulative_work c' <=? cumulative_work c
            then (restore c c', Err "candidate work not higher")
            else (c', Ok ())
        end
  end.
End chain.
