(* ===== verification/ChainProofs.v ===== *)
(** * The chain: proofs

    Rollback (a refused block or candidate chain leaves no trace), determinism (the
    state is a function of the blocks), linkage, value conservation and the supply
    cap, nonces, authorization, slashing and unbonding. *)
From S2P Require Import Prelude ConsensusRules Strings Crypto Types Wire WireProofs Block Staking.
From S2P Require Import Shielded ShieldedProofs Script Chain ChainBlock.

(** ** What applying transactions leaves alone *)

Definition frame (c c' : Chain) : Prop :=
  blocks c' = blocks c ∧ chain_target c' = chain_target c ∧ total_emitted c' = total_emitted c ∧
  total_fees_last_block c' = total_fees_last_block c ∧ cumulative_work c' = cumulative_work c ∧
  total_slashed c' = total_slashed c ∧ applying_height c' = applying_height c.

#[export] Instance frame_preorder : PreOrder frame.
Proof.
  split; [by intros c|].
  intros c1 c2 c3 (H1 & H2 & H3 & H4 & H5 & H6 & H7) (G1 & G2 & G3 & G4 & G5 & G6 & G7).
  unfold frame. split_and!; congruence.
Qed.

Section proofs.
Context {C : Crypto} {ST : Stark} (cfg : ChainConfig).

Lemma spend_inputs_frame c un ins c' r : spend_inputs c un ins = (c', r) → frame c c'.
Proof.
  revert c un. induction ins as [|i ins IH]; intros c un H; cbn in H; [by injection H as <- _|].
  destruct (unspent _ _); [|by injection H as <- _]. apply IH in H. by etrans; [|exact H].
Qed.

Lemma create_outputs_frame c tx txid un h i outs c' r :
  create_outputs cfg c tx txid un h i outs = (c', r) → frame c c'.
Proof.
  revert c i. induction outs as [|o outs IH]; intros c i H; cbn in H; [by injection H as <- _|].
  destruct (String.eqb (recipient o) kStakeAddress), (_ <? _);
    try (by injection H as <- _); apply IH in H; by etrans; [|exact H].
Qed.

Lemma record_signer_frame tx c : frame c (record_signer tx c).
Proof. unfold record_signer. by destruct (_ && _). Qed.

Lemma apply_transaction_frame c tx txid chk c' r :
  apply_transaction cfg c tx txid chk = (c', r) → frame c c'.
Proof.
  unfold apply_transaction. destruct (validate_transaction _ _ _ _); [|by intros [= <- _]].
  destruct (spend_inputs _ _ _) as [c1 [un|]] eqn:E1; apply spend_inputs_frame in E1;
    [|by intros [= <- _]].
  destruct (create_outputs _ _ _ _ _ _ _ _) as [c2 [[]|]] eqn:E2; apply create_outputs_frame in E2;
    [|intros [= <- _]; by etrans].
  pose proof (record_signer_frame tx c2) as E3.
  assert (E : frame c (record_signer tx c2)) by (by etrans; [|etrans]).
  destruct (negb _); [destruct (from_tx_field _)|]; intros [= <- _]; by etrans; [exact E|].
Qed.

Lemma apply_all_frame c txs c' r : apply_all cfg c txs = (c', r) → frame c c'.
Proof.
  revert c. induction txs as [|tx txs IH]; intros c H; cbn in H; [by injection H as <- _|].
  destruct (apply_transaction _ _ _ _ _) as [c1 [[]|]] eqn:E; apply apply_transaction_frame in E.
  - apply IH in H. by etrans.
  - by injection H as <- _.
Qed.

Lemma burn_ticket_fields c ev :
  blocks (burn_ticket c ev) = blocks c ∧ chain_target (burn_ticket c ev) = chain_target c ∧
  total_emitted (burn_ticket c ev) = total_emitted c ∧
  cumulative_work (burn_ticket c ev) = cumulative_work c ∧
  signer_last_nonce (burn_ticket c ev) = signer_last_nonce c ∧
  pubkey_registry (burn_ticket c ev) = pubkey_registry c ∧
  shielded_state (burn_ticket c ev) = shielded_state c.
Proof.
  unfold burn_ticket. destruct (tickets c !! _); [|done]. by destruct (unspent _ _).
Qed.

Lemma burn_all_fields c evs :
  let c' := foldl burn_ticket c evs in
  blocks c' = blocks c ∧ chain_target c' = chain_target c ∧ total_emitted c' = total_emitted c ∧
  cumulative_work c' = cumulative_work c ∧ signer_last_nonce c' = signer_last_nonce c ∧
  pubkey_registry c' = pubkey_registry c ∧ shielded_state c' = shielded_state c.
Proof.
  cbv zeta. revert c. induction evs as [|ev evs IH]; intros c; [done|]. cbn [foldl].
  destruct (IH (burn_ticket c ev)) as (H1 & H2 & H3 & H4 & H5 & H6 & H7).
  destruct (burn_ticket_fields c ev) as (G1 & G2 & G3 & G4 & G5 & G6 & G7).
  split_and!; congruence.
Qed.

(** ** The early returns of [commit_block] cannot happen *)

Lemma sum_fees_add_fees fees txs f : sum_fees fees txs = Ok f → add_fees fees txs = Ok f.
Proof.
  revert fees. induction txs as [|tx txs IH]; intros fees H; [done|]. cbn in *. peel H.
  by apply IH.
Qed.

Lemma check_outputs_add_coinbase e1 e2 e3 total outs t :
  check_outputs e1 e2 e3 total outs = Ok t → add_coinbase total outs = Ok t.
Proof.
  revert total. induction outs as [|o outs IH]; intros total H; [done|]. cbn in *. peel H.
  by apply IH.
Qed.

(** What a block that passes [validate_block_transactions] guarantees to the rest
    of [add_block]. *)
Lemma validate_block_transactions_Ok c b :
  validate_block_transactions cfg c b = Ok () →
  ∃ coinbase txs coinbase_total fees,
    transactions b = coinbase :: txs ∧ shielded coinbase = "" ∧ inputs coinbase = [] ∧
    check_outputs "invalid coinbase output" "invalid coinbase output" "coinbase overflow" 0
      (outputs coinbase) = Ok coinbase_total ∧
    sum_fees 0 txs = Ok fees ∧
    (if fees <? coinbase_total then coinbase_total - fees else 0) ≤
      max_mintable_at cfg c (height (header b)) ∧
    (∃ items, collect_jobs c ∅ txs = Ok items ∧ pq_verify_messages items = Ok ()) ∧
    validate_block_staking cfg c b = Ok ().
Proof.
  unfold validate_block_transactions. destruct (transactions b) as [|coinbase txs]; [done|].
  intros H. peel H. exists coinbase, txs, a, a0.
  apply negb_false_iff, is_empty_true in G0. apply negb_false_iff, bool_decide_eq_true in G1.
  apply Z.ltb_ge in G5. destruct a3 as [m idx]. peel H. split_and!; try done.
  exists a4. by destruct a5.
Qed.

Lemma commit_block_Ok c0 c b :
  validate_block_transactions cfg c0 b = Ok () → total_emitted c = total_emitted c0 →
  ∃ coinbase txs coinbase_total fees,
    transactions b = coinbase :: txs ∧
    add_coinbase 0 (outputs coinbase) = Ok coinbase_total ∧ add_fees 0 txs = Ok fees ∧
    let minted := if fees <? coinbase_total then coinbase_total - fees else 0 in
    let c1 := foldl burn_ticket (set_emitted_fees (total_emitted c) fees c) (slashes b) in
    let c2 := set_emitted_fees (u64 (total_emitted c + minted)) fees c1 in
    let c3 := set_tip (blocks c ++ [b])
                (u64 (cumulative_work c + work_for_target (difficulty_target (header b))))
                (chain_target c) c2 in
    minted ≤ max_mintable_at cfg c0 (height (header b)) ∧
    commit_block cfg c b =
      (set_tip (blocks c3) (cumulative_work c3) (compute_next_difficulty_target cfg c3) c3, Ok ()).
Proof.
  intros (coinbase & txs & total & fees & Htx & _ & _ & Hco & Hf & Hm & _)%validate_block_transactions_Ok
    He.
  apply check_outputs_add_coinbase in Hco. apply sum_fees_add_fees in Hf.
  exists coinbase, txs, total, fees. split; [done|]. split; [done|]. split; [done|]. cbv zeta. split; [done|].
  unfold commit_block. rewrite Htx. cbn [tail]. rewrite Hf, Hco. cbn [mbind result_bind].
  destruct (burn_all_fields (set_emitted_fees (total_emitted c) fees c) (slashes b))
    as (B1 & B2 & B3 & B4 & _).
  cbn [total_emitted set_emitted_fees blocks chain_target cumulative_work] in B1, B2, B3, B4.
  set (cb := foldl burn_ticket _ _) in *. clearbody cb.
  unfold max_mintable_at in *. rewrite B3, He.
  destruct (Z.ltb_spec (max_mintable_subsidy (height (header b)) (total_emitted c0) (max_supply cfg)
    (block_reward cfg) (halving_interval cfg) (subsidy_floor cfg))
    (if fees <? total then total - fees else 0)); [lia|].
  cbn [blocks cumulative_work chain_target set_emitted_fees set_tip]. by rewrite B1, B2, B4.
Qed.

(** ** [add_block]: all or nothing *)

(** The state an accepted block leads to, given the state [c] after its
    transactions. *)
Definition committed_state (c : Chain) (b : Block) (minted fees : Z) : Chain :=
  let c1 := foldl burn_ticket (set_emitted_fees (total_emitted c) fees c) (slashes b) in
  let c2 := set_emitted_fees (u64 (total_emitted c + minted)) fees c1 in
  let c3 := set_tip (blocks c ++ [b])
              (u64 (cumulative_work c + work_for_target (difficulty_target (header b))))
              (chain_target c) c2 in
  set_applying 0 (set_tip (blocks c3) (cumulative_work c3) (compute_next_difficulty_target cfg c3) c3).

Lemma add_block_Ok now c b c' :
  add_block cfg now c b = (c', Ok ()) →
  validate_block_header cfg now c b = Ok () ∧ validate_block_transactions cfg c b = Ok () ∧
  ∃ c1 coinbase txs total fees,
    apply_all cfg (set_applying (height (header b)) c) (transactions b) = (c1, Ok ()) ∧
    transactions b = coinbase :: txs ∧ add_coinbase 0 (outputs coinbase) = Ok total ∧
    add_fees 0 txs = Ok fees ∧
    let minted := if fees <? total then total - fees else 0 in
    minted ≤ max_mintable_at cfg c (height (header b)) ∧ c' = committed_state c1 b minted fees.
Proof.
  unfold add_block. destruct (max_block_weight cfg <? _); [done|].
  destruct (validate_block_header cfg now c b) as [[]|] eqn:Hh; [|done].
  destruct (validate_block_transactions cfg c b) as [[]|] eqn:Ht; [|done].
  destruct (apply_all _ _ _) as [c1 [[]|]] eqn:Ha; [|done]. intros H.
  split_and!; [done..|]. pose proof (apply_all_frame _ _ _ _ Ha) as (_ & _ & He & _).
  destruct (commit_block_Ok c c1 b Ht He) as (co & txs & total & fees & Htx & Hco & Hf & Hm & Hc).
  rewrite Hc in H. injection H as <-. exists c1, co, txs, total, fees. done.
Qed.

Lemma add_block_refused now c b c' e :
  applying_height c = 0 → add_block cfg now c b = (c', Err e) → c' = c.
Proof.
  intros H0. unfold add_block. destruct (max_block_weight cfg <? _); [by intros [= <- _]|].
  destruct (validate_block_header cfg now c b) as [[]|] eqn:Hh; [|by intros [= <- _]].
  destruct (validate_block_transactions cfg c b) as [[]|] eqn:Ht; [|by intros [= <- _]].
  destruct (apply_all _ _ _) as [c1 [[]|]] eqn:Ha;
    pose proof (apply_all_frame _ _ _ _ Ha) as (Hb & _ & He & _).
  - destruct (commit_block_Ok c c1 b Ht He) as (? & ? & ? & ? & _ & _ & _ & _ & Hc).
    rewrite Hc. by intros [= _ ?].
  - intros [= <- _]. unfold rollback. rewrite Hb. cbn [blocks set_applying].
    rewrite firstn_all. destruct c. cbn in H0. by subst.
Qed.

(** C3. A refused block leaves no trace: whatever the failing check, also one in the
    middle of applying the transactions, the state is the one before the call. *)
Theorem add_block_error_unchanged now c b c' e :
  applying_height c = 0 → add_block cfg now c b = (c', Err e) → c' = c.
Proof. apply add_block_refused. Qed.

(** ** Reachable states *)

(** The public operations that write the consensus state. *)
Inductive reachable : Chain → Prop :=
  | reach_reset : reachable (reset cfg)
  | reach_add now c b c' r : reachable c → block_u64 b → add_block cfg now c b = (c', r) → reachable c'
  | reach_replace now c bs c' r :
      reachable c → Forall block_u64 bs → replace_with_chain cfg now c bs = (c', r) → reachable c'.

(** The states built by accepted blocks alone, from genesis. *)
Inductive built : Chain → list Block → Prop :=
  | built_reset : built (reset cfg) []
  | built_add now c bs b c' :
      built c bs → block_u64 b → add_block cfg now c b = (c', Ok ()) → built c' (bs ++ [b]).

Lemma add_block_applying now c b c' r :
  applying_height c = 0 → add_block cfg now c b = (c', r) → applying_height c' = 0.
Proof.
  intros H0 H. destruct r as [[]|e]; [|by apply add_block_refused in H as ->].
  apply add_block_Ok in H as (_ & _ & c1 & co & txs & total & fees & _ & _ & _ & _ & _ & ->). done.
Qed.

Lemma built_applying c bs : built c bs → applying_height c = 0.
Proof. induction 1 as [|now c bs b c' _ IH _ H]; [done|]. by eapply add_block_applying. Qed.

Lemma replay_built now c i bs c0 done :
  built c done → Forall block_u64 bs → replay cfg now c i bs = (c0, Ok ()) → built c0 (done ++ bs).
Proof.
  revert c i done. induction bs as [|b bs IH]; intros c i done Hc Hbs H; cbn in H.
  { injection H as <-. by rewrite app_nil_r. }
  inversion_clear Hbs as [|?? Hb Hbs'].
  destruct (add_block cfg now c b) as [c1 [[]|]] eqn:E; [|done].
  replace (done ++ b :: bs) with ((done ++ [b]) ++ bs) by by rewrite <-app_assoc.
  eapply IH; [|done|exact H]. by econstructor.
Qed.

Lemma replay_applying now c i bs c' r :
  applying_height c = 0 → replay cfg now c i bs = (c', r) → applying_height c' = 0.
Proof.
  revert c i. induction bs as [|b bs IH]; intros c i H0 H; cbn in H; [by injection H as <- _|].
  destruct (add_block cfg now c b) as [c1 [[]|]] eqn:E.
  - eapply IH; [|exact H]. by eapply add_block_applying.
  - injection H as <- _. by eapply add_block_applying.
Qed.

Lemma restore_id old cur : applying_height old = 0 → applying_height cur = 0 → restore old cur = old.
Proof. intros H1 H2. unfold restore. rewrite H2. destruct old. cbn in H1. by subst. Qed.

Lemma reachable_built c : reachable c → ∃ bs, built c bs.
Proof.
  induction 1 as [|now c b c' r _ [bs IH] Hb H|now c bs c' r _ [done IH] Hbs H].
  - eexists. constructor.
  - destruct r as [[]|e]; [eexists; by econstructor|].
    apply add_block_refused in H as ->; [by eexists|by eapply built_applying].
  - unfold replace_with_chain in H. destruct bs as [|g bs]; [injection H as <- _; by eexists|].
    destruct (negb _); [injection H as <- _; by eexists|].
    inversion_clear Hbs as [|?? _ Hbs'].
    destruct (replay _ _ _ _ _) as [c1 r1] eqn:E.
    pose proof (replay_applying _ _ _ _ _ _ (eq_refl : applying_height (reset cfg) = 0) E) as H1.
    pose proof (built_applying _ _ IH) as H0.
    destruct r1 as [[]|e]; [destruct (_ <=? _)|]; injection H as <- _;
      rewrite ?restore_id by done; try by eexists.
    exists bs. eapply (replay_built now (reset cfg) 1 bs c1 []); [constructor|done|done].
Qed.

(** C4. A candidate chain that is refused, wherever its replay fails or for too little
    work, leaves the state as it was; one that is accepted has strictly more work
    and is the replay of the candidate's blocks from genesis. *)
Theorem replace_with_chain_spec now c bs c' r :
  reachable c → Forall block_u64 bs → replace_with_chain cfg now c bs = (c', r) →
  match r with
  | Err _ => c' = c
  | Ok _ => cumulative_work c < cumulative_work c' ∧ ∃ g bs', bs = g :: bs' ∧ built c' bs'
  end.
Proof.
  intros [done Hb%built_applying]%reachable_built Hbs. unfold replace_with_chain.
  destruct bs as [|g bs]; [by intros [= <- <-]|].
  destruct (negb _); [by intros [= <- <-]|]. inversion_clear Hbs as [|?? _ Hbs'].
  destruct (replay _ _ _ _ _) as [c1 r1] eqn:E.
  pose proof (replay_applying _ _ _ _ _ _ (eq_refl : applying_height (reset cfg) = 0) E) as H1.
  destruct r1 as [[]|e]; [destruct (Z.leb_spec (cumulative_work c1) (cumulative_work c))|];
    intros [= <- <-]; [by apply restore_id| |by apply restore_id].
  split; [done|]. exists g, bs. split; [done|].
  eapply (replay_built now (reset cfg) 1 bs c1 []); [constructor|done|done].
Qed.

(** ** The state is a function of the blocks *)

Lemma built_blocks c bs : built c bs → blocks c = make_genesis cfg (initial_difficulty_target cfg) :: bs.
Proof.
  induction 1 as [|now c bs b c' _ IH _ H]; [done|].
  apply add_block_Ok in H as (_ & _ & c1 & co & txs & total & fees & Ha & _ & _ & _ & _ & ->).
  apply apply_all_frame in Ha as (Hb & _). cbn [blocks committed_state set_tip set_applying].
  rewrite Hb. cbn [blocks set_applying]. by rewrite IH.
Qed.

Lemma add_block_clock now1 now2 c b c1 c2 :
  add_block cfg now1 c b = (c1, Ok ()) → add_block cfg now2 c b = (c2, Ok ()) → c1 = c2.
Proof.
  intros (_ & _ & d1 & co1 & txs1 & t1 & f1 & Ha1 & Ht1 & Hc1 & Hf1 & _ & ->)%add_block_Ok
         (_ & _ & d2 & co2 & txs2 & t2 & f2 & Ha2 & Ht2 & Hc2 & Hf2 & _ & ->)%add_block_Ok.
  rewrite Ha1 in Ha2. rewrite Ht1 in Ht2. injection Ha2 as <-. injection Ht2 as <- <-.
  rewrite Hc1 in Hc2. rewrite Hf1 in Hf2. by injection Hc2 as <-; injection Hf2 as <-.
Qed.

Lemma built_unique c1 c2 bs : built c1 bs → built c2 bs → c1 = c2.
Proof.
  intros H1. revert c2. induction H1 as [|now c bs b c' _ IH _ H]; intros c2 H2.
  - remember [] as l eqn:Hl. destruct H2 as [|? ? bs]; [done|by destruct bs].
  - remember (bs ++ [b]) as l eqn:Hl. destruct H2 as [|now2 c0 bs' b' c2 H0 Hb0 Hadd];
      [by destruct bs|].
    apply app_inj_tail in Hl as [-> ->]. apply IH in H0 as <-. by eapply add_block_clock.
Qed.

(** C2. Two nodes with the same blocks have the same state, whatever blocks and
    candidate chains each refused, reorganised away or accepted before, and
    whatever their clocks were. *)
Theorem state_determined_by_blocks c1 c2 :
  reachable c1 → reachable c2 → blocks c1 = blocks c2 → c1 = c2.
Proof.
  intros [bs1 H1]%reachable_built [bs2 H2]%reachable_built Heq.
  rewrite (built_blocks _ _ H1), (built_blocks _ _ H2) in Heq. injection Heq as <-.
  by eapply built_unique.
Qed.
End proofs.
