(* ===== verification/ChainSupply.v ===== *)
(** * The chain: value conservation and the supply cap

    The unspent outputs and the shielded pool never hold more than was emitted, and
    no more is ever emitted than the schedule and [max_supply] allow. *)
From S2P Require Import Prelude ConsensusRules Strings Crypto Types Wire WireProofs Block Staking.
From S2P Require Import Shielded ShieldedProofs Script Chain ChainBlock ChainProofs.

(** ** The value of the UTXO set *)

Definition value_of (u : UTXO) : Z := if u_spent u then 0 else u_amount u.
(** Coins that can still be spent. *)
Definition utxo_value (m : gmap string UTXO) : Z := map_sum value_of m.
Definition utxo_wf (m : gmap string UTXO) : Prop := ∀ k u, m !! k = Some u → is_u64 (u_amount u).

Lemma value_of_nonneg m : utxo_wf m → ∀ k u, m !! k = Some u → 0 ≤ value_of u.
Proof. intros Hwf k u H%Hwf. unfold value_of, is_u64 in *. destruct (u_spent u); lia. Qed.

Lemma utxo_value_nonneg m : utxo_wf m → 0 ≤ utxo_value m.
Proof. intros Hwf. by apply map_sum_nonneg, value_of_nonneg. Qed.

Lemma unspent_Some m k u : unspent m k = Some u ↔ m !! k = Some u ∧ u_spent u = false.
Proof.
  unfold unspent. rewrite bind_Some. split.
  - intros (v & Hv & H). destruct (u_spent v) eqn:E; [done|]. by injection H as <-.
  - intros [H Hs]. exists u. by rewrite Hs.
Qed.

Definition mark_spent (u : UTXO) : UTXO :=
  mkUTXO (u_owner u) (u_amount u) true (u_spendable_height u) (u_height u).

Lemma utxo_value_spend m k u :
  unspent m k = Some u → utxo_value (<[k := mark_spent u]> m) = utxo_value m - u_amount u.
Proof.
  intros [Hk Hs]%unspent_Some. unfold utxo_value. rewrite map_sum_insert, Hk.
  change (value_of (mark_spent u)) with 0. cbn [contrib].
  assert (value_of u = u_amount u) as -> by (unfold value_of; by rewrite Hs). lia.
Qed.
Lemma utxo_wf_insert m k u : utxo_wf m → is_u64 (u_amount u) → utxo_wf (<[k := u]> m).
Proof. intros Hwf Hu k' u' [[<- <-]|[_ H]]%lookup_insert_Some; [done|by eapply Hwf]. Qed.

Lemma utxo_value_create m k u :
  utxo_wf m → u_spent u = false → utxo_value (<[k := u]> m) ≤ utxo_value m + u_amount u.
Proof.
  intros Hwf Hs. unfold utxo_value. rewrite map_sum_insert.
  assert (value_of u = u_amount u) as -> by (unfold value_of; by rewrite Hs).
  enough (0 ≤ contrib value_of (m !! k)) by lia.
  destruct (m !! k) eqn:E; cbn; [|lia]. by eapply value_of_nonneg.
Qed.

(** ** Sums of outputs *)

Lemma check_outputs_sum e1 e2 e3 total outs t :
  0 ≤ total → Forall output_u64 outs → check_outputs e1 e2 e3 total outs = Ok t →
  t = total + list_sum amount outs ∧ (is_u64 total → is_u64 t).
Proof.
  intros H0 Houts. revert total H0. induction Houts as [|o outs Ho _ IH]; intros total H0 H; cbn in *.
  { injection H as <-. split; [lia|done]. }
  peel H. unfold output_u64, is_u64 in *. apply Z.ltb_ge in G1.
  apply IH in H as [-> Hu]; [|lia]. split; [lia|]. intros. apply Hu. lia.
Qed.

Lemma add_coinbase_sum total outs t :
  add_coinbase total outs = Ok t → t = total + list_sum amount outs.
Proof.
  revert total. induction outs as [|o outs IH]; intros total H; cbn in *; [injection H as <-; lia|].
  peel H. apply IH in H. lia.
Qed.
Lemma add_fees_sum total txs t : add_fees total txs = Ok t → t = total + list_sum fee txs.
Proof.
  revert total. induction txs as [|o txs IH]; intros total H; cbn in *; [injection H as <-; lia|].
  peel H. apply IH in H. lia.
Qed.
Lemma sum_fees_spends fees txs f :
  sum_fees fees txs = Ok f → Forall (λ tx, inputs tx ≠ [] ∨ shielded tx ≠ "") txs.
Proof.
  revert fees. induction txs as [|tx txs IH]; intros fees H; cbn in *; [constructor|].
  peel H. constructor; [|by eapply IH].
  apply andb_false_iff in G as [G%bool_decide_eq_false|G%is_empty_false]; auto.
Qed.

(** ** The bundle's public values *)

Lemma rd_u64_range inp off v off' : rd_u64 inp off = Some (v, off') → is_u64 v.
Proof.
  unfold rd_u64, rd_uint. intros ([p o] & Hp & H)%bind_Some.
  assert (Hl : String.length p = 8%nat).
  { unfold rd_take in Hp. case_match eqn:E; [done|]. injection Hp as <- _.
    unfold substr. apply Nat.ltb_ge in E. rewrite str_length_take, str_length_drop. lia. }
  pose proof (rd_fold p) as Hf. pose proof (le_val_range p) as Hr. rewrite Hl in Hf, Hr.
  rewrite Hf in H. injection H as <- <-. exact Hr.
Qed.

Lemma from_tx_field_vpub f b : from_tx_field f = Ok b → is_u64 (vpub_in b) ∧ is_u64 (vpub_out b).
Proof.
  unfold from_tx_field, or_err. intros H. peel H. clear G E.
  unfold deserialize, or_err in H. case_match eqn:E; [|done]. injection H as ->.
  apply bind_Some in E as ([m o] & _ & E). destruct (negb _); [done|].
  apply bind_Some in E as ([vi o1] & Hi%rd_u64_range & E).
  apply bind_Some in E as ([vo o2] & Ho%rd_u64_range & E).
  repeat (apply bind_Some in E as ([? ?] & _ & E); repeat (case_match; [done|]); cbn beta iota in E).
  repeat (case_match; try done). simplify_eq. done.
Qed.

(** What a transaction moves into the shielded pool, net. *)
Definition pool_delta (tx : Transaction) : Z :=
  match from_tx_field (shielded tx) with Ok b => vpub_in b - vpub_out b | Err _ => 0 end.
(** What the blocks of a chain moved into the shielded pool, net. *)
Definition pool_value (bs : list Block) : Z :=
  list_sum (λ b, list_sum pool_delta (transactions b)) bs.

Section supply.
Context {C : Crypto} {ST : Stark} (cfg : ChainConfig).

(** ** One transaction *)

Lemma spend_inputs_value c0 c seen total ins t un c' r :
  validate_inputs c0 seen total ins = Ok t →
  (∀ k, k ∉ seen → utxo_set c !! k = utxo_set c0 !! k) →
  utxo_wf (utxo_set c) → is_u64 total → spend_inputs c un ins = (c', r) →
  is_ok r = true ∧ utxo_wf (utxo_set c') ∧ is_u64 t ∧
  utxo_value (utxo_set c') = utxo_value (utxo_set c) - (t - total).
Proof.
  revert c seen total un. induction ins as [|i ins IH]; intros c seen total un Hv Hag Hwf Ht H.
  { cbn in *. injection H as <- <-. injection Hv as <-. split_and!; (done || lia). }
  cbn [validate_inputs spend_inputs] in *. peel Hv. bools.
  unfold unspent in *. rewrite <-(Hag _ G) in Hv.
  fold (unspent (utxo_set c) (input_key i)) in *.
  destruct (unspent (utxo_set c) (input_key i)) as [u|] eqn:Hu; [|done]. peel Hv. bools.
  pose proof Hu as [Hk Hs]%unspent_Some. pose proof (Hwf _ _ Hk) as Ha.
  fold (mark_spent u) in H. eapply IH in H; [|exact Hv|..].
  - destruct H as (Hr & Hwf' & Ht' & Hval). split_and!; [done..|]. rewrite Hval.
    cbn [utxo_set set_tickets set_utxo_index]. rewrite (utxo_value_spend _ _ _ Hu). lia.
  - cbn [utxo_set set_tickets set_utxo_index]. intros k Hk'.
    rewrite lookup_insert_ne by set_solver. apply Hag. set_solver.
  - cbn [utxo_set set_tickets set_utxo_index]. by apply utxo_wf_insert.
  - unfold is_u64 in *. lia.
Qed.

Lemma create_outputs_value c tx txid un h i outs c' :
  Forall output_u64 outs → utxo_wf (utxo_set c) →
  create_outputs cfg c tx txid un h i outs = (c', Ok ()) →
  utxo_wf (utxo_set c') ∧
  utxo_value (utxo_set c') ≤ utxo_value (utxo_set c) + list_sum amount outs.
Proof.
  intros Houts. revert c i. induction Houts as [|o outs Ho _ IH]; intros c i Hwf H.
  { cbn in *. injection H as <-. split; [done|lia]. }
  cbn [create_outputs] in H.
  set (c1 := if String.eqb (recipient o) kStakeAddress then _ else c) in H.
  assert (Hc1 : utxo_set c1 = utxo_set c) by (unfold c1; by destruct (String.eqb _ _)).
  destruct (_ <? _); [done|]. cbn [utxo_set set_utxo_index] in H. rewrite Hc1 in H.
  apply IH in H as [Hwf' Hle]; cbn [utxo_set set_utxo_index] in *; [|by apply utxo_wf_insert].
  split; [done|].
  match type of Hle with _ ≤ utxo_value (<[?k := ?u]> ?m) + _ =>
    pose proof (utxo_value_create m k u Hwf eq_refl) end.
  cbn in *. lia.
Qed.

Lemma record_signer_utxo tx c : utxo_set (record_signer tx c) = utxo_set c.
Proof. unfold record_signer. by destruct (_ && _). Qed.

(** The value balance a transaction that passes validation respects. *)
Lemma validate_transaction_value c tx chk :
  tx_u64 tx → utxo_wf (utxo_set c) → validate_transaction cfg c tx chk = Ok () →
  (inputs tx = [] ∧ shielded tx = "") ∨
  (inputs tx = [] ∧ list_sum amount (outputs tx) + fee tx + pool_delta tx ≤ 0) ∨
  (∃ t, validate_inputs c ∅ 0 (inputs tx) = Ok t ∧
     list_sum amount (outputs tx) + fee tx + pool_delta tx ≤ t).
Proof.
  intros (_ & Houts & Hfee & _) Hwf H. unfold validate_transaction in H.
  apply bind_Ok in H as (bundle & Hb & H). peel H. rename a into total, E into Hout.
  apply check_outputs_sum in Hout as [-> Hu64]; [|done|done]. specialize (Hu64 ltac:(done)).
  rewrite Z.add_0_l in *.
  assert (Hbun : if is_empty (shielded tx) then bundle = empty_bundle else
    from_tx_field (shielded tx) = Ok bundle ∧ (inputs tx = [] → vpub_in bundle = 0)).
  { destruct (is_empty (shielded tx)); cbn in Hb; [by injection Hb|].
    unfold validate_shielded_part in Hb. peel Hb. injection Hb as <-. split; [done|].
    intros Hi. apply andb_false_iff in G2 as [G2|G2]; [by apply bool_decide_eq_false in G2|].
    by bools. }
  assert (Hdelta : if is_empty (shielded tx) then pool_delta tx = 0
    else pool_delta tx = vpub_in bundle - vpub_out bundle ∧ is_u64 (vpub_in bundle) ∧
         is_u64 (vpub_out bundle)).
  { unfold pool_delta. destruct (is_empty (shielded tx)) eqn:E.
    - apply is_empty_true in E as ->. done.
    - destruct Hbun as [Hf _]. rewrite Hf. split; [done|]. by apply from_tx_field_vpub in Hf. }
  destruct (bool_decide (inputs tx = [])) eqn:Hin; [apply bool_decide_eq_true in Hin|].
  - destruct (is_empty (shielded tx)) eqn:Hsh; cbn [andb negb] in H.
    { left. by apply is_empty_true in Hsh. }
    right; left. split; [done|]. peel H. bools. destruct Hdelta as (-> & Hvi & Hvo).
    destruct Hbun as [_ Hz]. rewrite (Hz Hin).
    unfold is_u64 in *. rewrite u128_small in * by lia. lia.
  - right; right. cbn [andb] in H. unfold validate_spend in H. peel H.
    clear E. rename a0 into t, E0 into Hins.
    exists t. split; [done|].
    pose proof (spend_inputs_value c c ∅ 0 (inputs tx) t false
      (spend_inputs c false (inputs tx)).1 (spend_inputs c false (inputs tx)).2 Hins
      ltac:(done) Hwf ltac:(done) (surjective_pairing _)) as (_ & _ & Ht & _).
    unfold is_u64 in *. destruct (is_empty (shielded tx)); cbn [negb] in H; peel H; bools.
    + rewrite Hdelta. rewrite u64_small in * by (unfold is_u64; lia). lia.
    + destruct Hdelta as (-> & Hvi & Hvo). rewrite !u128_small in * by lia. lia.
Qed.

Lemma apply_transaction_value c tx txid c' :
  tx_u64 tx → utxo_wf (utxo_set c) → apply_transaction cfg c tx txid false = (c', Ok ()) →
  utxo_wf (utxo_set c') ∧
  if bool_decide (inputs tx = []) && is_empty (shielded tx)
  then utxo_value (utxo_set c') ≤ utxo_value (utxo_set c) + list_sum amount (outputs tx)
  else utxo_value (utxo_set c') + fee tx + pool_delta tx ≤ utxo_value (utxo_set c).
Proof.
  intros Htx Hwf H. unfold apply_transaction in H.
  destruct (validate_transaction _ _ _ _) as [[]|] eqn:Hv; [|done].
  apply validate_transaction_value in Hv; [|done|done].
  destruct (spend_inputs c false (inputs tx)) as [c1 [un|]] eqn:E1; [|done].
  destruct (create_outputs _ _ _ _ _ _ _ _) as [c2 [[]|]] eqn:E2; [|done].
  assert (Hc' : utxo_set c' = utxo_set c2).
  { rewrite <-(record_signer_utxo tx c2).
    destruct (negb _); [destruct (from_tx_field _); [|done]|]; by injection H as <-. }
  rewrite Hc'. pose proof Htx as (_ & Houts & _).
  apply create_outputs_value in E2; [|done|].
  - destruct E2 as [Hwf2 Hle]. split; [done|].
    destruct Hv as [[Hi Hs]|[[Hi Hb]|(t & Hins & Hb)]].
    + rewrite Hi in *. cbn in E1. injection E1 as <- _. rewrite Hs. cbn. done.
    + rewrite Hi in *. cbn in E1. injection E1 as <- _.
      destruct (is_empty (shielded tx)) eqn:Hs; cbn; [|lia].
      apply is_empty_true in Hs. lia.
    + eapply spend_inputs_value in E1; [|exact Hins|done|done|done].
      destruct E1 as (_ & _ & _ & Hval).
      destruct (bool_decide (inputs tx = [])) eqn:Hi; cbn [andb]; [|lia].
      apply bool_decide_eq_true in Hi. rewrite Hi in Hins. injection Hins as <-.
      destruct (is_empty (shielded tx)) eqn:Hs; lia.
  - destruct Hv as [[Hi _]|[[Hi _]|(t & Hins & _)]];
      [rewrite Hi in E1; by injection E1 as <- _..|].
    by eapply spend_inputs_value in E1 as (_ & Hwf1 & _).
Qed.

(** ** One block *)

Lemma apply_all_value c txs c' :
  Forall tx_u64 txs → Forall (λ tx, inputs tx ≠ [] ∨ shielded tx ≠ "") txs →
  utxo_wf (utxo_set c) → apply_all cfg c txs = (c', Ok ()) →
  utxo_wf (utxo_set c') ∧
  utxo_value (utxo_set c') + list_sum fee txs + list_sum pool_delta txs ≤ utxo_value (utxo_set c).
Proof.
  intros Hu Hs. revert c. induction Hu as [|tx txs Htx _ IH]; intros c Hwf H; cbn in *.
  { injection H as <-. split; [done|lia]. }
  inversion_clear Hs as [|?? Hx Hs'].
  destruct (apply_transaction cfg c tx _ false) as [c1 [[]|]] eqn:E; [|done].
  apply apply_transaction_value in E as [Hwf1 Hle]; [|done|done].
  replace (bool_decide (inputs tx = []) && is_empty (shielded tx)) with false in Hle; cycle 1.
  { symmetry. apply andb_false_iff. destruct Hx as [Hx|Hx]; [left|right].
    - by apply bool_decide_eq_false.
    - by apply is_empty_false. }
  apply IH in H as [Hwf' Hle']; [|done|done]. split; [done|lia].
Qed.

Lemma burn_ticket_value c ev :
  utxo_wf (utxo_set c) →
  utxo_wf (utxo_set (burn_ticket c ev)) ∧
  utxo_value (utxo_set (burn_ticket c ev)) ≤ utxo_value (utxo_set c).
Proof.
  intros Hwf. unfold burn_ticket. destruct (tickets c !! _); [|split; [done|lia]].
  destruct (unspent _ _) as [u|] eqn:Hu; cbn [utxo_set set_tickets set_slashed set_utxo_index];
    [|split; [done|lia]].
  fold (mark_spent u). pose proof Hu as [Hk _]%unspent_Some. pose proof (Hwf _ _ Hk) as Ha.
  split; [by apply utxo_wf_insert|]. rewrite (utxo_value_spend _ _ _ Hu). unfold is_u64 in Ha. lia.
Qed.
Lemma burn_all_value c evs :
  utxo_wf (utxo_set c) →
  utxo_wf (utxo_set (foldl burn_ticket c evs)) ∧
  utxo_value (utxo_set (foldl burn_ticket c evs)) ≤ utxo_value (utxo_set c).
Proof.
  revert c. induction evs as [|ev evs IH]; intros c Hwf; [split; [done|cbn; lia]|]. cbn.
  destruct (burn_ticket_value c ev Hwf) as [Hwf1 Hle]. apply IH in Hwf1 as [??]. split; [done|lia].
Qed.

(** Every unspent coin is accounted for by emission, and emission by the schedule. *)
Definition supply_inv (c : Chain) : Prop :=
  utxo_wf (utxo_set c) ∧
  utxo_value (utxo_set c) + pool_value (blocks c) ≤ total_emitted c ∧
  0 ≤ total_emitted c ≤ max_supply cfg ∧
  total_emitted c ≤ list_sum (λ b, compute_block_reward cfg (height (header b))) (tail (blocks c)).

Lemma subsidy_schedule_nonneg h : 0 ≤ block_reward cfg → 0 ≤ subsidy_floor cfg → 0 ≤ compute_block_reward cfg h.
Proof.
  intros Hr Hf. unfold compute_block_reward, scheduled_block_subsidy. destruct (_ =? 0); [done|]. lia.
Qed.

Lemma pool_value_app bs b : pool_value (bs ++ [b]) = pool_value bs + list_sum pool_delta (transactions b).
Proof. unfold pool_value. rewrite list_sum_app. cbn. lia. Qed.

Lemma add_block_supply now c b c' :
  is_u64 (max_supply cfg) → 0 ≤ block_reward cfg → 0 ≤ subsidy_floor cfg →
  blocks c ≠ [] → block_u64 b → supply_inv c → add_block cfg now c b = (c', Ok ()) → supply_inv c'.
Proof.
  intros Hmax Hr Hf Hne [_ Hb] (Hwf & Hval & Hem & Hsch) H.
  apply add_block_Ok in H as (_ & Hvt & c1 & co & txs & total & fees & Ha & Htx & Hco & Hfe & Hm & ->).
  cbv zeta in Hm.
  apply validate_block_transactions_Ok in Hvt as (co' & txs' & total' & fees' & Htx' & Hcs & Hci & _ & Hsf & _).
  rewrite Htx in Htx'. injection Htx' as <- <-. apply sum_fees_spends in Hsf.
  apply add_coinbase_sum in Hco. apply add_fees_sum in Hfe. rewrite Z.add_0_l in *.
  pose proof (apply_all_frame _ _ _ _ _ Ha) as (Fb & _ & Fe & _). rewrite Htx in Ha, Hb.
  inversion_clear Hb as [|?? Hco64 Htxs64]. cbn [apply_all] in Ha.
  destruct (apply_transaction _ _ co _ _) as [c0 [[]|]] eqn:E0; [|done].
  apply apply_transaction_value in E0 as [Hwf0 Hle0]; [|done|done]. rewrite Hci, Hcs in Hle0. cbn in Hle0.
  apply apply_all_value in Ha as [Hwf1 Hle1]; [|done..].
  destruct (burn_all_value (set_emitted_fees (total_emitted c1) fees c1) (slashes b) Hwf1) as [Hwf2 Hle2].
  cbn [utxo_set set_emitted_fees] in Hle2.
  set (minted := if fees <? total then total - fees else 0) in *.
  assert (Hmint : total - fees ≤ minted ∧ 0 ≤ minted)
    by (unfold minted; destruct (Z.ltb_spec fees total); lia).
  unfold max_mintable_at, max_mintable_subsidy in Hm.
  fold (compute_block_reward cfg (height (header b))) in Hm.
  pose proof (subsidy_schedule_nonneg (height (header b)) Hr Hf).
  assert (Hcap : total_emitted c + minted ≤ max_supply cfg)
    by (destruct (Z.ltb_spec (total_emitted c) (max_supply cfg)); lia).
  cbn [total_emitted blocks set_applying] in Fe, Fb.
  assert (Hpd : pool_delta co = 0) by (unfold pool_delta; by rewrite Hcs).
  unfold committed_state. set (cb := foldl burn_ticket _ _) in *. clearbody cb.
  split_and!; cbn [utxo_set total_emitted blocks set_applying set_tip set_emitted_fees] in *.
  - done.
  - rewrite Fe, Fb, pool_value_app, Htx. cbn [list_sum]. rewrite Hpd.
    unfold is_u64 in *. rewrite u64_small by (unfold is_u64; lia). lia.
  - rewrite Fe, u64_small by (unfold is_u64 in *; lia). lia.
  - rewrite Fe, u64_small by (unfold is_u64 in *; lia). unfold is_u64 in *. lia.
  - rewrite Fe, Fb, u64_small by (unfold is_u64 in *; lia).
    destruct (blocks c) as [|g bs]; [done|]. cbn [tail app] in *. rewrite list_sum_app. cbn. lia.
Qed.

Lemma built_supply c bs :
  is_u64 (max_supply cfg) → 0 ≤ block_reward cfg → 0 ≤ subsidy_floor cfg →
  built cfg c bs → supply_inv c.
Proof.
  intros Hmax Hr Hf. induction 1 as [|now c bs b c' Hb IH Hu H].
  - split_and!; cbn; [by intros k u ?%lookup_empty_Some| |done|unfold is_u64 in Hmax; lia|done].
    unfold utxo_value, pool_value. rewrite map_sum_empty. cbn. lia.
  - eapply add_block_supply; [done|done|done| |done|done|done].
    by rewrite (built_blocks _ _ _ Hb).
Qed.

(** C1. The hard cap. In every state a node can reach, the coins that can be spent plus
    what the blocks moved into the shielded pool never exceed what was emitted;
    what was emitted never exceeds [max_supply], nor the sum of the scheduled
    subsidies of the blocks of the chain. *)
Theorem supply_cap c :
  is_u64 (max_supply cfg) → 0 ≤ block_reward cfg → 0 ≤ subsidy_floor cfg → reachable cfg c →
  utxo_value (utxo_set c) + pool_value (blocks c) ≤ total_emitted c ∧
  total_emitted c ≤ max_supply cfg ∧
  total_emitted c ≤ list_sum (λ b, compute_block_reward cfg (height (header b))) (tail (blocks c)).
Proof.
  intros Hmax Hr Hf [bs Hb]%reachable_built. apply built_supply in Hb as (_ & H1 & H2 & H3); [|done..].
  split_and!; [done|lia|done].
Qed.
End supply.
