(* ===== verification/ChainRules.v ===== *)
(** * The chain: rules every accepted block obeyed

    Linkage and proof of work, replay protection by nonces, authorization of every
    spend, freezes and outputs, stake votes and slashing. *)
From stdpp Require Import sorting.
From S2P Require Import Prelude ConsensusRules Strings Crypto Types Wire WireProofs Block Staking.
From S2P Require Import Shielded ShieldedProofs Script Chain ChainBlock ChainProofs ChainSupply.

Section rules.
Context {C : Crypto} {ST : Stark} (cfg : ChainConfig).

(** ** Linkage *)

(** [b] was accepted on top of [p]. *)
Definition linked (p b : Block) : Prop :=
  height (header b) = u64 (height (header p) + 1) ∧
  previous_hash (header b) = hash_block_header (header p) ∧
  timestamp (header p) ≤ timestamp (header b) ∧
  merkle_root (header b) = compute_block_commitment b ∧
  min_difficulty_target cfg ≤ difficulty_target (header b) ≤ max_difficulty_target cfg ∧
  hash_meets_target cfg (hash_block_header (header b)) (difficulty_target (header b)) = Some true ∧
  block_weight b ≤ max_block_weight cfg.

Lemma validate_block_header_linked now c b :
  validate_block_header cfg now c b = Ok () → block_weight b ≤ max_block_weight cfg →
  linked (tip c) b ∧ difficulty_target (header b) = chain_target c.
Proof.
  unfold validate_block_header. intros H Hw. peel H. bools.
  apply String.eqb_eq in G0, G1. destruct (hash_meets_target _ _ _) as [[]|] eqn:E; [|done..].
  split; [|done]. unfold linked. by split_and!.
Qed.

Lemma add_block_weight now c b c' :
  add_block cfg now c b = (c', Ok ()) → block_weight b ≤ max_block_weight cfg.
Proof. unfold add_block. destruct (Z.ltb_spec (max_block_weight cfg) (block_weight b)); [done|lia]. Qed.

Lemma tip_app c l b : blocks c = l ++ [b] → tip c = b.
Proof. unfold tip. intros ->. by rewrite List.last_last. Qed.

Lemma tip_lookup c i p : blocks c !! i = Some p → S i = length (blocks c) → tip c = p.
Proof.
  unfold tip. induction (blocks c) as [|x l _] using rev_ind; [done|].
  rewrite length_app, List.last_last. cbn. intros Hp Hi.
  assert (i = length l) as -> by lia. rewrite list_lookup_middle in Hp by done. congruence.
Qed.

Definition total_work (bs : list Block) : Z :=
  list_sum (λ b, work_for_target (difficulty_target (header b))) bs.

Lemma work_u64 t : is_u64 t → is_u64 (work_for_target t).
Proof.
  unfold work_for_target, is_u64. intros Ht. destruct (Z.eqb_spec t 0); [lia|].
  split; [apply Z.div_pos; lia|]. apply Z.div_lt_upper_bound; nia.
Qed.

Lemma built_chain_ok c bs :
  is_u64 (initial_difficulty_target cfg) → built cfg c bs →
  (∀ i p b, blocks c !! i = Some p → blocks c !! S i = Some b → linked p b) ∧
  cumulative_work c = u64 (total_work (blocks c)).
Proof.
  intros Ht. induction 1 as [|now c bs b c' Hb [IHl IHw] _ H].
  - split; [by intros [|i]|]. cbn. rewrite Z.add_0_r. symmetry. by apply u64_small, work_u64.
  - pose proof (add_block_weight _ _ _ _ H) as Hwt.
    apply add_block_Ok in H as (Hh & _ & c1 & co & txs & total & fees & Ha & _ & _ & _ & _ & ->).
    apply validate_block_header_linked in Hh as [Hlink _]; [|done].
    apply apply_all_frame in Ha as (Fb & _ & _ & _ & Fw & _).
    cbn [blocks cumulative_work committed_state set_applying set_tip] in *. rewrite Fb, Fw. split.
    + intros i p b' Hp Hb'. rewrite lookup_snoc_Some in Hb'. destruct Hb' as [[Hi Hb']|[Hi <-]].
      * rewrite lookup_app_l in Hp by lia. by eapply IHl.
      * rewrite lookup_app_l in Hp by lia. by rewrite <-(tip_lookup _ _ _ Hp Hi).
    + rewrite IHw. unfold total_work. rewrite list_sum_app. cbn. by rewrite u64_add_l, Z.add_0_r.
Qed.

(** In every reachable state consecutive blocks are linked: heights count up, each
    block names its parent's hash, timestamps never go back, the header commits to
    the body, the target is within bounds and the proof of work meets it, and the
    block is within the weight limit. The recorded work is the sum over the chain. *)
Theorem chain_linked c :
  is_u64 (initial_difficulty_target cfg) → reachable cfg c →
  (∀ i p b, blocks c !! i = Some p → blocks c !! S i = Some b → linked p b) ∧
  cumulative_work c = u64 (total_work (blocks c)).
Proof. intros Ht [bs Hb]%reachable_built. by eapply built_chain_ok. Qed.

(** ** Frames for the account maps *)

Lemma spend_inputs_accounts c un ins c' r :
  spend_inputs c un ins = (c', r) →
  signer_last_nonce c' = signer_last_nonce c ∧ pubkey_registry c' = pubkey_registry c ∧
  shielded_state c' = shielded_state c.
Proof.
  revert c un. induction ins as [|i ins IH]; intros c un H; cbn in H; [by injection H as <- _|].
  destruct (unspent _ _); [|by injection H as <- _]. by apply IH in H.
Qed.
Lemma create_outputs_accounts c tx txid un h i outs c' r :
  create_outputs cfg c tx txid un h i outs = (c', r) →
  signer_last_nonce c' = signer_last_nonce c ∧ pubkey_registry c' = pubkey_registry c ∧
  shielded_state c' = shielded_state c.
Proof.
  revert c i. induction outs as [|o outs IH]; intros c i H; cbn in H; [by injection H as <- _|].
  destruct (String.eqb (recipient o) kStakeAddress), (_ <? _);
    try (by injection H as <- _); by apply IH in H.
Qed.

(** A transaction authorized by an account. *)
Definition account_tx (tx : Transaction) : Prop := inputs tx ≠ [] ∧ signer tx ≠ "".
#[export] Instance account_tx_dec tx : Decision (account_tx tx).
Proof. unfold account_tx. apply _. Defined.

(** What an applied transaction does to the accounts, and what it passed. *)
Lemma apply_transaction_accounts c tx txid chk c' :
  apply_transaction cfg c tx txid chk = (c', Ok ()) →
  validate_transaction cfg c tx chk = Ok () ∧
  signer_last_nonce c' = signer_last_nonce (record_signer tx c) ∧
  pubkey_registry c' = pubkey_registry (record_signer tx c).
Proof.
  unfold apply_transaction. destruct (validate_transaction _ _ _ _) as [[]|]; [|done].
  destruct (spend_inputs c false (inputs tx)) as [c1 [un|]] eqn:E1; [|done].
  destruct (create_outputs _ _ _ _ _ _ _ _) as [c2 [[]|]] eqn:E2; [|done].
  apply spend_inputs_accounts in E1 as (A1 & B1 & _).
  apply create_outputs_accounts in E2 as (A2 & B2 & _).
  assert (Hr : signer_last_nonce (record_signer tx c2) = signer_last_nonce (record_signer tx c) ∧
               pubkey_registry (record_signer tx c2) = pubkey_registry (record_signer tx c)).
  { unfold record_signer. rewrite A2, A1, B2, B1. destruct (_ && _); [done|].
    by rewrite A2, A1, B2, B1. }
  destruct (negb _); [destruct (from_tx_field _); [|done]|]; intros [= <-]; done.
Qed.

Lemma validate_account_tx c tx chk :
  account_tx tx → validate_transaction cfg c tx chk = Ok () →
  validate_transaction_signature cfg c tx chk = Ok () ∧
  (∀ n, signer_last_nonce c !! signer tx = Some n → n < nonce tx) ∧
  ∃ t, validate_inputs c ∅ 0 (inputs tx) = Ok t.
Proof.
  intros [Hin Hsig] H. unfold validate_transaction in H. peel H.
  rewrite bool_decide_eq_false_2 in H by done. cbn [andb] in H.
  unfold validate_spend in H. peel H. apply is_empty_false in Hsig. rewrite Hsig in *.
  peel E1. destruct a4. split; [done|]. split; [|by eexists].
  intros n Hn. rewrite Hn in E1. peel E1. by apply Z.leb_gt in G3.
Qed.

Lemma record_signer_account tx c :
  account_tx tx →
  signer_last_nonce (record_signer tx c) = <[signer tx := nonce tx]> (signer_last_nonce c).
Proof.
  intros [Hin Hsig]. unfold record_signer. apply is_empty_false in Hsig.
  rewrite bool_decide_eq_false_2, Hsig by done. done.
Qed.
Lemma record_signer_other tx c : ¬ account_tx tx → record_signer tx c = c.
Proof.
  intros Hn. unfold record_signer. destruct (bool_decide (inputs tx = [])) eqn:E; [done|].
  destruct (is_empty (signer tx)) eqn:Es; [done|]. exfalso. apply Hn.
  bools. by apply is_empty_false in Es.
Qed.

(** ** Nonces *)

(** The nonces of the account transactions of [who], in chain order. *)
Definition nonces_of (who : string) (txs : list Transaction) : list Z :=
  nonce <$> filter (λ tx, account_tx tx ∧ signer tx = who) txs.

Definition nonces_ok (c : Chain) (txs : list Transaction) : Prop :=
  ∀ who, StronglySorted Z.lt (nonces_of who txs) ∧
         signer_last_nonce c !! who = last (nonces_of who txs).

Lemma StronglySorted_snoc l x :
  StronglySorted Z.lt l → (∀ n, last l = Some n → n < x) → StronglySorted Z.lt (l ++ [x]).
Proof.
  induction 1 as [|y l Hl IH Hy]; intros Hx; cbn; [by repeat constructor|].
  assert (Hlx : StronglySorted Z.lt (l ++ [x])).
  { apply IH. intros n Hn. apply Hx. rewrite last_cons, Hn. done. }
  constructor; [done|]. apply Forall_app. split; [done|]. constructor; [|done].
  destruct (last l) as [n|] eqn:E.
  - assert (y < n) by (eapply Forall_forall; [exact Hy|]; by apply last_Some_elem_of).
    assert (n < x); [|lia]. apply Hx. by rewrite last_cons, E.
  - apply Hx. by rewrite last_cons, E.
Qed.

Lemma nonces_of_app who l k : nonces_of who (l ++ k) = nonces_of who l ++ nonces_of who k.
Proof. unfold nonces_of. by rewrite filter_app, fmap_app. Qed.

Lemma nonces_of_single who tx :
  nonces_of who [tx] = if decide (account_tx tx ∧ signer tx = who) then [nonce tx] else [].
Proof. unfold nonces_of. rewrite filter_cons. by case_decide. Qed.

Lemma apply_transaction_nonces c tx txid c' txs :
  apply_transaction cfg c tx txid false = (c', Ok ()) → nonces_ok c txs → nonces_ok c' (txs ++ [tx]).
Proof.
  intros (Hv & Hn & _)%apply_transaction_accounts Hok who. destruct (Hok who) as [Hs Hl].
  rewrite nonces_of_app, Hn, nonces_of_single.
  destruct (decide (account_tx tx)) as [Ha|Ha].
  - rewrite record_signer_account by done. apply validate_account_tx in Hv as (_ & Hlt & _); [|done].
    case_decide as Hw.
    + destruct Hw as [_ Hw]. rewrite Hw, lookup_insert_eq, last_snoc. split; [|done].
      apply StronglySorted_snoc; [done|]. intros n Hln. apply Hlt. by rewrite Hw, Hl.
    + rewrite app_nil_r, lookup_insert_ne by (intros He; by apply Hw). done.
  - rewrite record_signer_other by done. rewrite decide_False by tauto. by rewrite app_nil_r.
Qed.

Lemma apply_all_nonces c txs c' done :
  apply_all cfg c txs = (c', Ok ()) → nonces_ok c done → nonces_ok c' (done ++ txs).
Proof.
  revert c done. induction txs as [|tx txs IH]; intros c done H Hok; cbn in H.
  { injection H as <-. by rewrite app_nil_r. }
  destruct (apply_transaction cfg c tx _ false) as [c1 [[]|]] eqn:E; [|done].
  replace (done ++ tx :: txs) with ((done ++ [tx]) ++ txs) by by rewrite <-app_assoc.
  eapply IH; [exact H|]. by eapply apply_transaction_nonces.
Qed.

Lemma committed_accounts c b minted fees :
  signer_last_nonce (committed_state cfg c b minted fees) = signer_last_nonce c ∧
  pubkey_registry (committed_state cfg c b minted fees) = pubkey_registry c.
Proof.
  destruct (burn_all_fields (set_emitted_fees (total_emitted c) fees c) (slashes b))
    as (_ & _ & _ & _ & Hn & Hr & _). done.
Qed.

Lemma built_nonces c bs : built cfg c bs → nonces_ok c (bs ≫= transactions).
Proof.
  induction 1 as [|now c bs b c' Hb IH _ H]; [intros who; split; [constructor|done]|].
  apply add_block_Ok in H as (_ & _ & c1 & co & txs & total & fees & Ha & _ & _ & _ & _ & ->).
  apply apply_all_nonces with (done := bs ≫= transactions) in Ha; [|exact IH].
  rewrite bind_app. cbn. rewrite app_nil_r. intros who. destruct (Ha who) as [Hs Hl].
  by rewrite (proj1 (committed_accounts _ _ _ _)).
Qed.

(** Replay protection: along the chain of any reachable state, the nonces of each
    account's transactions strictly increase, so no account transaction is ever
    applied twice; the recorded nonce is the last one. *)
Theorem account_nonces_increase c who :
  reachable cfg c →
  StronglySorted Z.lt (nonces_of who (blocks c ≫= transactions)) ∧
  signer_last_nonce c !! who = last (nonces_of who (blocks c ≫= transactions)).
Proof.
  intros [bs Hb]%reachable_built. pose proof (built_nonces _ _ Hb who).
  by rewrite (built_blocks _ _ _ Hb).
Qed.

(** ** Authorization *)

(** Every registered key is bound to its address. *)
Definition registry_ok (m : gmap string string) : Prop :=
  ∀ who pk, m !! who = Some pk → signer_binds_pubkey who pk = Ok ().

Lemma resolve_bound c overlay tx pk :
  registry_ok (pubkey_registry c) → (∀ m, overlay = Some m → registry_ok m) →
  resolve_signer_pubkey c overlay tx = Ok pk → signer_binds_pubkey (signer tx) pk = Ok ().
Proof.
  intros Hreg Hov. unfold resolve_signer_pubkey. destruct (negb _).
  - intros H. peel H. injection H as <-. by destruct a.
  - destruct (overlay ≫= _) as [pk'|] eqn:E.
    + intros [= <-]. apply bind_Some in E as (m & Hm & Hpk). by eapply Hov.
    + destruct (pubkey_registry c !! signer tx) eqn:E'; [|done]. intros [= <-]. by apply Hreg.
Qed.

Lemma resolve_carried c overlay tx pk :
  resolve_signer_pubkey c overlay tx = Ok pk → signer_pubkey tx ≠ "" →
  signer_binds_pubkey (signer tx) (signer_pubkey tx) = Ok ().
Proof.
  unfold resolve_signer_pubkey. intros H Hne%is_empty_false. rewrite Hne in H. cbn in H.
  peel H. by destruct a.
Qed.

Lemma apply_transaction_registry c tx txid c' :
  apply_transaction cfg c tx txid false = (c', Ok ()) →
  registry_ok (pubkey_registry c) → registry_ok (pubkey_registry c').
Proof.
  intros (Hv & _ & Hr)%apply_transaction_accounts Hok. rewrite Hr.
  destruct (decide (account_tx tx)) as [Ha|Ha]; [|by rewrite record_signer_other].
  apply validate_account_tx in Hv as (Hs & _ & _); [|done].
  unfold validate_transaction_signature in Hs. peel Hs.
  unfold record_signer. destruct Ha as [Hin Hsig%is_empty_false].
  rewrite bool_decide_eq_false_2, Hsig by done. cbn [pubkey_registry set_nonce_registry negb andb].
  destruct (is_empty (signer_pubkey tx)) eqn:Ep; cbn [negb andb]; [done|].
  destruct (bool_decide (pubkey_registry c !! _ = None)); [|done].
  intros who pk [[<- <-]|[_ Hl]]%lookup_insert_Some; [|by apply Hok].
  eapply resolve_carried; [exact E|by apply is_empty_false].
Qed.

Lemma apply_all_registry c txs c' :
  apply_all cfg c txs = (c', Ok ()) → registry_ok (pubkey_registry c) → registry_ok (pubkey_registry c').
Proof.
  revert c. induction txs as [|tx txs IH]; intros c H Hok; cbn in H; [by injection H as <-|].
  destruct (apply_transaction cfg c tx _ false) as [c1 [[]|]] eqn:E; [|done].
  eapply IH; [exact H|]. by eapply apply_transaction_registry.
Qed.

Lemma built_registry c bs : built cfg c bs → registry_ok (pubkey_registry c).
Proof.
  induction 1 as [|now c bs b c' Hb IH _ H]; [intros who pk H; cbn in H; by apply lookup_empty_Some in H|].
  apply add_block_Ok in H as (_ & _ & c1 & co & txs & total & fees & Ha & _ & _ & _ & _ & ->).
  rewrite (proj2 (committed_accounts _ _ _ _)). by eapply apply_all_registry.
Qed.

(** The signature of [tx] verifies under a key bound to its signer's address. *)
Definition signed (tx : Transaction) : Prop :=
  ∃ pk, signer_binds_pubkey (signer tx) pk = Ok () ∧
    verify_message_signature_hybrid_uncached pk (hash_transaction (unsigned_tx tx)) (signature tx) = true.

Lemma verify_items_Ok i items : verify_items_from i items = Ok () → Forall (λ it, verify_item it = true) items.
Proof.
  revert i. induction items as [|it items IH]; intros i H; [constructor|]. cbn in H.
  destruct (verify_item it) eqn:E; [|done]. constructor; [done|by eapply IH].
Qed.

Lemma collect_jobs_signed c overlay txs items :
  registry_ok (pubkey_registry c) → registry_ok overlay →
  collect_jobs c overlay txs = Ok items → pq_verify_messages items = Ok () →
  Forall (λ tx, account_tx tx → signed tx) txs.
Proof.
  intros Hreg. unfold pq_verify_messages. intros Hov Hc Hv%verify_items_Ok.
  revert overlay items Hov Hc Hv. induction txs as [|tx txs IH]; intros overlay items Hov Hc Hv;
    [constructor|]. cbn in Hc.
  destruct (bool_decide (inputs tx = []) && _) eqn:E1.
  { constructor; [|by eapply IH]. intros [Hin _]. bools. done. }
  destruct (is_empty (signer tx) && _ && _) eqn:E2.
  { constructor; [|by eapply IH]. intros [_ Hs]. bools. by apply is_empty_true in H. }
  peel Hc. injection Hc as <-. inversion_clear Hv as [|?? Hit Hv'].
  assert (Hov' : registry_ok (if negb (is_empty (signer_pubkey tx)) && negb (bool_decide (inputs tx = []))
    && bool_decide (pubkey_registry c !! signer tx = None) && bool_decide (overlay !! signer tx = None)
    then <[signer tx := signer_pubkey tx]> overlay else overlay)).
  { match goal with |- registry_ok (if ?b then _ else _) => destruct b eqn:E3 end; [|done]. bools.
    intros who pk [[<- <-]|[_ Hl]]%lookup_insert_Some; [|by apply Hov].
    eapply resolve_carried; [exact E|]. by apply is_empty_false. }
  constructor; [|by eapply IH]. intros _. exists a. split; [|done].
  eapply resolve_bound; [done| |exact E]. by intros m [= <-].
Qed.

Lemma validate_script_inputs_Ok c sh i ins :
  validate_script_inputs_from c sh i ins = Ok () →
  ∀ x, x ∈ ins → ∃ u, unspent (utxo_set c) (input_key x) = Some u ∧
    verify_input (u_owner u) (witness x) (mkSpendContext sh (next_height c) (u_height u)) = Ok ().
Proof.
  revert i. induction ins as [|y ins IH]; intros i H x Hx; [by apply elem_of_nil in Hx|].
  cbn in H. destruct (unspent _ _) as [u|] eqn:Hu; [|done].
  destruct (verify_input _ _ _) as [[]|] eqn:Hv; [|done].
  apply elem_of_cons in Hx as [->|Hx]; [by exists u|by eapply IH].
Qed.

Lemma apply_all_app c l k c' :
  apply_all cfg c (l ++ k) = (c', Ok ()) →
  ∃ c1, apply_all cfg c l = (c1, Ok ()) ∧ apply_all cfg c1 k = (c', Ok ()).
Proof.
  revert c. induction l as [|tx l IH]; intros c H; [by exists c|]. cbn in *.
  destruct (apply_transaction cfg c tx _ false) as [c1 [[]|]] eqn:E; [|done]. by apply IH.
Qed.

(** Who may spend the unspent output [u] at [key] in state [c]. *)
Definition may_spend (c : Chain) (who : string) (key : string) (u : UTXO) : Prop :=
  if String.eqb (u_owner u) kStakeAddress
  then ∃ t, tickets c !! key = Some t ∧ owner t = who
  else u_owner u = who.

Lemma controls_input_spec c who i :
  controls_input c who i = true →
  ∃ u, unspent (utxo_set c) (input_key i) = Some u ∧ may_spend c who (input_key i) u.
Proof.
  unfold controls_input, may_spend. destruct (unspent _ _) as [u|]; [|done]. intros H. exists u.
  split; [done|]. destruct (String.eqb (u_owner u) kStakeAddress); [|by apply String.eqb_eq].
  destruct (tickets c !! input_key i) as [t|]; [|done]. exists t. split; [done|by apply String.eqb_eq].
Qed.

(** C5. Coins move only with their owner's authority. For every spending transaction
    of a block accepted in a reachable state there is the state just before it in
    the block in which each of its inputs is unspent and, if it has a signer, the
    signer owns the coin (or the ticket locked in it) and signed the transaction
    with a key bound to its address; otherwise the input's witness satisfies the
    script the coin is locked to. *)
Theorem accepted_spend_authorized now c b c' pre tx post :
  reachable cfg c → add_block cfg now c b = (c', Ok ()) →
  transactions b = pre ++ tx :: post → inputs tx ≠ [] →
  ∃ ck, apply_all cfg (set_applying (height (header b)) c) pre = (ck, Ok ()) ∧
    (signer tx ≠ "" → signed tx) ∧
    ∀ i, i ∈ inputs tx → ∃ u, unspent (utxo_set ck) (input_key i) = Some u ∧
      if is_empty (signer tx)
      then verify_input (u_owner u) (witness i)
             (mkSpendContext (sighash tx) (next_height ck) (u_height u)) = Ok ()
      else may_spend ck (signer tx) (input_key i) u.
Proof.
  intros [bs Hb]%reachable_built H Htx Hin.
  pose proof (built_registry _ _ Hb) as Hreg.
  apply add_block_Ok in H as (_ & Hvt & c1 & _ & _ & _ & _ & Ha & _).
  apply validate_block_transactions_Ok in Hvt as (co & txs & _ & _ & Htx' & _ & Hci & _ & _ & _ & (items & Hj & Hv) & _).
  apply collect_jobs_signed in Hj; [|done|intros who pk H; by apply lookup_empty_Some in H|done].
  rewrite Htx in Ha. apply apply_all_app in Ha as (ck & Hpre & Ha). exists ck. split; [done|].
  cbn in Ha. destruct (apply_transaction cfg ck tx _ false) as [c2 [[]|]] eqn:E; [|done].
  apply apply_transaction_accounts in E as (Hval & _). split.
  - intros Hs. rewrite Forall_forall in Hj. apply Hj; [|done].
    rewrite Htx in Htx'. destruct pre as [|co' pre]; cbn in Htx'; injection Htx' as -> <-;
      [done|]. apply elem_of_app. right. constructor.
  - destruct (is_empty (signer tx)) eqn:Es.
    + unfold validate_transaction in Hval. peel Hval.
      rewrite bool_decide_eq_false_2 in Hval by done. cbn [andb] in Hval.
      unfold validate_spend in Hval. rewrite Es in Hval. peel Hval. peel E1. destruct a1.
      unfold validate_script_inputs in E1. by eapply validate_script_inputs_Ok.
    + apply validate_account_tx in Hval as (Hs & _); [|split; [done|by apply is_empty_false]].
      unfold validate_transaction_signature in Hs. peel Hs.
      apply orb_false_iff in G2 as [_ G2]. apply negb_false_iff in G2.
      rewrite forallb_forall in G2. intros i Hi. apply controls_input_spec, G2.
      by apply list_elem_of_In.
Qed.

(** ** Outputs and the unbonding freeze *)

Lemma outpoint_key_inj txid i j :
  0 ≤ i → 0 ≤ j → outpoint_key txid i = outpoint_key txid j → i = j.
Proof.
  intros Hi Hj H. unfold outpoint_key in H.
  induction txid as [|x txid IH]; [by injection H as H; apply to_string_inj in H|].
  rewrite !str_app_cons in H. injection H as H. by apply IH.
Qed.

Lemma create_outputs_other c tx txid un h i outs c' k :
  0 ≤ i → create_outputs cfg c tx txid un h i outs = (c', Ok ()) →
  (∀ j, i ≤ j → k ≠ outpoint_key txid j) → utxo_set c' !! k = utxo_set c !! k.
Proof.
  revert c i. induction outs as [|o outs IH]; intros c i Hi H Hk; cbn [create_outputs] in H.
  { by injection H as <-. }
  destruct (String.eqb (recipient o) kStakeAddress), (_ <? _); try done;
    (apply IH in H; [rewrite H|lia|intros j Hj; apply Hk; lia]); cbn [utxo_set set_utxo_index set_tickets];
    by rewrite lookup_insert_ne by (intros He; by apply (Hk i)).
Qed.

Lemma create_outputs_lookup c tx txid un h i outs c' n o :
  0 ≤ i → create_outputs cfg c tx txid un h i outs = (c', Ok ()) → outs !! n = Some o →
  utxo_set c' !! outpoint_key txid (i + Z.of_nat n) =
    Some (mkUTXO (recipient o) (amount o) false
            (if un then u64 (h + stake_unbond_delay cfg) else 0) (next_height c)).
Proof.
  revert c i n. induction outs as [|o' outs IH]; intros c i n Hi H Hn; [done|].
  cbn [create_outputs] in H. destruct n as [|n].
  - injection Hn as ->. rewrite Z.add_0_r.
    destruct (String.eqb (recipient o) kStakeAddress), (_ <? _); try done;
      (eapply create_outputs_other in H; [rewrite H|lia|]);
      try (cbn [utxo_set set_utxo_index set_tickets]; by rewrite lookup_insert_eq);
      intros j Hj He; apply outpoint_key_inj in He; lia.
  - replace (i + Z.of_nat (S n)) with ((i + 1) + Z.of_nat n) by lia.
    destruct (String.eqb (recipient o') kStakeAddress), (_ <? _); try done;
      (eapply IH in H; [rewrite H; done|lia|done]).
Qed.

Lemma spend_inputs_unlocking c un ins c' un' :
  spend_inputs c un ins = (c', Ok un') →
  NoDup (input_key <$> ins) →
  un' = un || existsb (λ i, bool_decide (is_Some (tickets c !! input_key i))) ins.
Proof.
  revert c un. induction ins as [|i ins IH]; intros c un H Hnd; cbn in *.
  { injection H as <- <-. by rewrite orb_false_r. }
  inversion_clear Hnd as [|?? Hi Hnd']. destruct (unspent _ _) as [u|]; [|done].
  apply IH in H; [|done]. rewrite H, <-orb_assoc. f_equal. f_equal. cbn [tickets set_tickets].
  clear -Hi. induction ins as [|j ins IH]; [done|]. cbn in *. apply not_elem_of_cons in Hi as [Hne Hi].
  rewrite lookup_delete_ne by done. f_equal. by apply IH.
Qed.

Lemma validate_inputs_nodup c seen total ins t :
  validate_inputs c seen total ins = Ok t →
  NoDup (input_key <$> ins) ∧ ∀ i, i ∈ ins → input_key i ∉ seen ∧
    ∃ u, unspent (utxo_set c) (input_key i) = Some u ∧ u_spendable_height u ≤ context_height c.
Proof.
  revert seen total. induction ins as [|i ins IH]; intros seen total H; cbn in *.
  { split; [constructor|]. intros i Hi. by apply elem_of_nil in Hi. }
  peel H. bools. destruct (unspent _ _) as [u|] eqn:Hu; [|done]. peel H. bools.
  apply IH in H as [Hnd Hins]. split.
  - constructor; [|done]. intros (j & Hj & Hin)%list_elem_of_fmap.
    destruct (Hins _ Hin) as [Hs _]. apply Hs. rewrite <-Hj. set_solver.
  - intros j [->|Hj]%elem_of_cons; [split; [done|]; by exists u|].
    destruct (Hins _ Hj) as [Hs ?]. split; [set_solver|done].
Qed.

(** A coin still frozen by the unbonding delay cannot be spent. *)
Theorem frozen_coin_rejected c tx chk i u :
  i ∈ inputs tx → utxo_set c !! input_key i = Some u → context_height c < u_spendable_height u →
  validate_transaction cfg c tx chk ≠ Ok ().
Proof.
  intros Hi Hu Hfz H. unfold validate_transaction in H. peel H.
  assert (Hne : inputs tx ≠ []) by (intros He; rewrite He in Hi; by apply elem_of_nil in Hi).
  rewrite bool_decide_eq_false_2 in H by done. cbn [andb] in H. unfold validate_spend in H. peel H.
  apply validate_inputs_nodup in E2 as [_ Hins].
  destruct (Hins _ Hi) as (_ & v & [Hv _]%unspent_Some & Hle).
  rewrite Hu in Hv. injection Hv as <-. lia.
Qed.

(** Applying a transaction creates each of its outputs, at the outpoint of its
    position; spending a ticket freezes all of them for the unbonding delay. *)
Theorem apply_transaction_outputs c tx txid chk c' n o :
  apply_transaction cfg c tx txid chk = (c', Ok ()) → outputs tx !! n = Some o →
  ∃ u, unspent (utxo_set c') (outpoint_key txid (Z.of_nat n)) = Some u ∧
    u_owner u = recipient o ∧ u_amount u = amount o ∧
    u_spendable_height u =
      if spends_ticket c tx then u64 (context_height c + stake_unbond_delay cfg) else 0.
Proof.
  intros H Ho. pose proof (apply_transaction_accounts _ _ _ _ _ H) as (Hv & _).
  unfold apply_transaction in H. rewrite Hv in H.
  destruct (spend_inputs c false (inputs tx)) as [c1 [un|]] eqn:E1; [|done].
  destruct (create_outputs _ _ _ _ _ _ _ _) as [c2 [[]|]] eqn:E2; [|done].
  assert (Hc' : utxo_set c' = utxo_set c2).
  { rewrite <-(record_signer_utxo tx c2).
    destruct (negb _); [destruct (from_tx_field _); [|done]|]; by injection H as <-. }
  pose proof (spend_inputs_frame _ _ _ _ _ E1) as (Fb & _ & _ & _ & _ & _ & Fa).
  assert (Hh : context_height c1 = context_height c).
  { unfold context_height, next_height, height_of, tip. by rewrite Fa, Fb. }
  eapply create_outputs_lookup in E2; [|done|exact Ho]. rewrite Z.add_0_l, Hh in E2.
  eexists. split; [by rewrite unspent_Some, Hc', E2|]. split; [done|]. split; [done|].
  cbn [u_spendable_height]. apply spend_inputs_unlocking in E1.
  - rewrite E1. done.
  - unfold validate_transaction in Hv. peel Hv.
    destruct (bool_decide (inputs tx = [])) eqn:Hin.
    { bools. rewrite Hin. constructor. }
    cbn [andb] in Hv. unfold validate_spend in Hv. peel Hv.
    by apply validate_inputs_nodup in E4 as [? _].
Qed.

(** ** Votes and slashing *)

(** Slash evidence is accepted only against a live ticket whose key signed two
    conflicting votes at one height. *)
Theorem slash_requires_equivocation c ev :
  validate_slash cfg c ev = Ok () ↔
  ∃ t, tickets c !! ticket_id (ev_a ev) = Some t ∧
    ticket_id (ev_b ev) = ticket_id (ev_a ev) ∧ voted_height (ev_b ev) = voted_height (ev_a ev) ∧
    (voted_hash (ev_a ev) ≠ voted_hash (ev_b ev) ∨ approve (ev_a ev) ≠ approve (ev_b ev)) ∧
    vote_signature_ok cfg (ticket_with_key c t) (ev_a ev) = true ∧
    vote_signature_ok cfg (ticket_with_key c t) (ev_b ev) = true.
Proof.
  unfold validate_slash. rewrite !reject_if_Ok, orb_false_iff, !negb_false_iff, andb_false_iff.
  rewrite String.eqb_eq, String.eqb_neq, Z.eqb_eq.
  assert (Hb : Bool.eqb (approve (ev_a ev)) (approve (ev_b ev)) = false ↔
               approve (ev_a ev) ≠ approve (ev_b ev)).
  { rewrite <-not_true_iff_false. by rewrite Bool.eqb_true_iff. }
  rewrite Hb. split.
  - intros ((Ht & Hh) & Hc & H). destruct (tickets c !! ticket_id (ev_a ev)) as [t|]; [|done].
    rewrite reject_if_Ok, orb_false_iff, !negb_false_iff in H. exists t. naive_solver.
  - intros (t & Ht & Hid & Hh & Hc & Ha & Hv). rewrite Ht, Ha, Hv. naive_solver.
Qed.

(** Slashing destroys exactly the ticket's coins: the ticket is gone, its output
    spent, the spendable value and the slashed total move by its amount, and
    nothing was emitted. *)
Theorem slash_burns c ev t u :
  tickets c !! ticket_id (ev_a ev) = Some t →
  unspent (utxo_set c) (ticket_id (ev_a ev)) = Some u →
  is_u64 (total_slashed c + u_amount u) →
  let c' := burn_ticket c ev in
  tickets c' !! ticket_id (ev_a ev) = None ∧
  unspent (utxo_set c') (ticket_id (ev_a ev)) = None ∧
  utxo_value (utxo_set c') = utxo_value (utxo_set c) - u_amount u ∧
  total_slashed c' = total_slashed c + u_amount u ∧ total_emitted c' = total_emitted c.
Proof.
  intros Ht Hu Hs. cbv zeta. unfold burn_ticket. rewrite Ht, Hu.
  cbn [tickets utxo_set total_slashed total_emitted set_tickets set_slashed set_utxo_index].
  rewrite lookup_delete_eq. split; [done|]. fold (mark_spent u). split.
  { unfold unspent. by rewrite lookup_insert_eq. }
  split; [by apply utxo_value_spend|]. split; [by apply u64_small|done].
Qed.

Lemma validate_votes_Ok c vh hash selected seen vs owners :
  validate_votes cfg c vh hash selected seen vs = Ok owners →
  NoDup (ticket_id <$> vs) ∧
  (∀ v, v ∈ vs → ticket_id v ∉ seen ∧ voted_height v = vh ∧ voted_hash v = hash ∧
     ticket_id v ∈ selected ∧
     ∃ t, tickets c !! ticket_id v = Some t ∧ vote_signature_ok cfg (ticket_with_key c t) v = true) ∧
  length owners = length (filter (λ v, approve v = true) vs).
Proof.
  revert seen owners. induction vs as [|v vs IH]; intros seen owners H; cbn [validate_votes] in H.
  { injection H as <-. split_and!; [constructor| |done]. intros v Hv. by apply elem_of_nil in Hv. }
  peel H. bools. apply String.eqb_eq in H1.
  destruct (tickets c !! ticket_id v) as [t|] eqn:Ht; [|done]. peel H. bools.
  apply IH in E as (Hnd & Hvs & Hl). injection H as <-. split_and!.
  - constructor; [|done]. intros (w & Hw & Hin)%list_elem_of_fmap.
    destruct (Hvs _ Hin) as [Hs _]. apply Hs. rewrite <-Hw. set_solver.
  - intros w [->|Hw]%elem_of_cons; [split_and!; try done; by exists t|].
    destruct (Hvs _ Hw) as [Hs Hr]. split; [set_solver|exact Hr].
  - rewrite filter_cons. destruct (approve v) eqn:Ea; [rewrite decide_True by done|rewrite decide_False by done];
      cbn; congruence.
Qed.

End rules.
