(* ===== verification/Mempool.v ===== *)
(** * The mempool ([include/addition/mempool.hpp], [src/mempool.cpp])

    The pool of pending transactions with its three conflict indexes. Every method
    holds the pool's mutex for its whole body, so each is one step on the state.
    The order in which [std::sort] leaves equal elements and the iteration order of
    an [std::unordered_map] are not determined by the standard: both are parameters
    with the standard's guarantees. *)
From stdpp Require Import sorting.
From S2P Require Import Prelude ConsensusRules Strings Crypto Types Wire Block Shielded.

Record Mempool := mkMempool {
  pending : list Transaction;
  txids : gset string;
  signer_nonces : gset string;
  reserved_outpoints : gset string;
}.

Definition mempool_empty : Mempool := mkMempool [] ∅ ∅ ∅.

(** The comparator given to [std::sort]. *)
Definition fee_before (a b : Transaction) : bool :=
  if negb (fee a =? fee b) then fee b <? fee a
  else if negb (length (outputs a) =? length (outputs b))%nat
  then (length (outputs a) <? length (outputs b))%nat
  else nonce a <? nonce b.

Class MempoolOrder := {
  fee_sort : list Transaction → list Transaction;
  fee_sort_perm l : fee_sort l ≡ₚ l;
  fee_sort_sorted l : StronglySorted (λ a b, fee_before b a = false) (fee_sort l);
  slot_order : list Transaction → list string;
  slot_order_nodup l : NoDup (slot_order l);
  slot_order_elem l s : s ∈ slot_order l ↔ s ≠ "" ∧ s ∈ signer <$> l;
}.

(** ** Keys *)

(** The local [outpoint_key] of mempool.cpp. *)
Definition tx_outpoint_key (i : TxInput) : string :=
  previous_txid i +:+ ":" +:+ to_string (output_index i).

Definition shielded_nullifier_keys (tx : Transaction) : option (list string) :=
  if is_empty (shielded tx) then Some []
  else
    match from_tx_field (shielded tx) with
    | Err _ => None
    | Ok b => Some ((λ nf, "nf:" +:+ hex32 nf) <$> nullifiers b)
    end.

(** The keys as [submit] collects them; a bundle that does not parse adds none. *)
Definition conflict_keys (tx : Transaction) : list string :=
  (tx_outpoint_key <$> inputs tx) ++ default [] (shielded_nullifier_keys tx).

(** [""] stands for a transaction without an account signer. *)
Definition signer_nonce_key (tx : Transaction) : string :=
  if bool_decide (inputs tx = []) || is_empty (signer tx) then ""
  else signer tx +:+ "#" +:+ to_string (nonce tx).

Definition looks_spendable (tx : Transaction) : bool :=
  if bool_decide (inputs tx = []) && negb (is_empty (shielded tx)) then
    if negb (is_empty (signer tx)) || negb (is_empty (signature tx)) then false
    else match shielded_nullifier_keys tx with
         | Some nfs => negb (bool_decide (nfs = []))
         | None => false
         end
  else if bool_decide (inputs tx = []) || bool_decide (outputs tx = []) then false
  else if is_empty (signer tx) && is_empty (signer_pubkey tx) && is_empty (signature tx) &&
          negb (bool_decide (inputs tx = []))
  then forallb (λ i, negb (is_empty (witness i))) (inputs tx)
  else if is_empty (signer tx) then false
  else if negb (starts_with "pq=" (signature tx)) then false
  else true.

(** ** Index updates *)

Definition index_inputs (tx : Transaction) (r : gset string) : gset string :=
  let r := foldl (λ r i, {[tx_outpoint_key i]} ∪ r) r (inputs tx) in
  match shielded_nullifier_keys tx with
  | Some nfs => foldl (λ r k, {[k]} ∪ r) r nfs
  | None => r
  end.
Definition unindex_inputs (tx : Transaction) (r : gset string) : gset string :=
  let r := foldl (λ r i, r ∖ {[tx_outpoint_key i]}) r (inputs tx) in
  match shielded_nullifier_keys tx with
  | Some nfs => foldl (λ r k, r ∖ {[k]}) r nfs
  | None => r
  end.

Section mempool.
Context {C : Crypto} {MO : MempoolOrder}.

(** ** [submit] *)

Definition submit (m : Mempool) (tx : Transaction) : Mempool * bool :=
  if negb (looks_spendable tx) then (m, false)
  else
    let txid := hash_transaction tx in
    if bool_decide (txid ∈ txids m) then (m, false)
    else
      let ids := {[txid]} ∪ txids m in
      let sn := signer_nonce_key tx in
      if negb (is_empty sn) && bool_decide (sn ∈ signer_nonces m)
      then (mkMempool (pending m) (ids ∖ {[txid]}) (signer_nonces m) (reserved_outpoints m), false)
      else
        let sns := if is_empty sn then signer_nonces m else {[sn]} ∪ signer_nonces m in
        if existsb (λ k, bool_decide (k ∈ reserved_outpoints m)) (conflict_keys tx)
        then (mkMempool (pending m) (ids ∖ {[txid]})
                (if is_empty sn then sns else sns ∖ {[sn]}) (reserved_outpoints m), false)
        else (mkMempool (pending m ++ [tx]) ids sns (index_inputs tx (reserved_outpoints m)), true).

(** ** [fetch_for_block] *)

(** [std::stable_sort] by nonce. *)
Fixpoint insert_nonce (x : Transaction) (l : list Transaction) : list Transaction :=
  match l with
  | [] => [x]
  | y :: l => if nonce y <? nonce x then y :: insert_nonce x l else x :: y :: l
  end.
Definition nonce_sort (l : list Transaction) : list Transaction := foldr insert_nonce [] l.

(** Put [txs] into the slots of [s], in order. *)
Fixpoint fill_slots (s : string) (txs l : list Transaction) : list Transaction :=
  match l, txs with
  | [], _ => []
  | t :: l, x :: txs' =>
      if String.eqb (signer t) s then x :: fill_slots s txs' l else t :: fill_slots s txs l
  | t :: l, [] => t :: l
  end.
Definition of_signer (s : string) (l : list Transaction) : list Transaction :=
  filter (λ t, signer t = s) l.
Definition reassign_signer (l : list Transaction) (s : string) : list Transaction :=
  if (length (of_signer s l) <? 2)%nat then l else fill_slots s (nonce_sort (of_signer s l)) l.
Definition block_order (l : list Transaction) : list Transaction :=
  let l := fee_sort l in foldl reassign_signer l (slot_order l).

(** Forget a transaction that leaves the pool. *)
Definition forget (m : Mempool) (tx : Transaction) : Mempool :=
  let sn := signer_nonce_key tx in
  mkMempool (pending m) (txids m ∖ {[hash_transaction tx]})
    (if is_empty sn then signer_nonces m else signer_nonces m ∖ {[sn]})
    (unindex_inputs tx (reserved_outpoints m)).
Definition set_pending (l : list Transaction) (m : Mempool) : Mempool :=
  mkMempool l (txids m) (signer_nonces m) (reserved_outpoints m).

Definition fetch_for_block (m : Mempool) (max_count : nat) : Mempool * list Transaction :=
  let l := block_order (pending m) in
  let n := Nat.min max_count (length l) in
  let out := take n l in
  (set_pending (drop n l) (foldl forget m out), out).

(** ** [replace], [remove_confirmed] and the queries *)

Definition replace_one (m : Mempool) (tx : Transaction) : Mempool :=
  if negb (looks_spendable tx) then m
  else
    let txid := hash_transaction tx in
    if bool_decide (txid ∈ txids m) then m
    else
      let ids := {[txid]} ∪ txids m in
      if existsb (λ i, bool_decide (tx_outpoint_key i ∈ reserved_outpoints m)) (inputs tx)
      then mkMempool (pending m) (ids ∖ {[txid]}) (signer_nonces m) (reserved_outpoints m)
      else
        let sn := signer_nonce_key tx in
        if negb (is_empty sn) && bool_decide (sn ∈ signer_nonces m)
        then mkMempool (pending m) (ids ∖ {[txid]}) (signer_nonces m) (reserved_outpoints m)
        else
          mkMempool (pending m ++ [tx]) ids
            (if is_empty sn then signer_nonces m else {[sn]} ∪ signer_nonces m)
            (index_inputs tx (reserved_outpoints m)).
Definition replace (m : Mempool) (txs : list Transaction) : Mempool :=
  foldl replace_one mempool_empty txs.

(** What the block confirms: txids, spent keys, signer nonces. *)
Definition block_sets (txs : list Transaction) : gset string * gset string * gset string :=
  foldl (λ '(ids, spent, nonces) tx,
    let sn := signer_nonce_key tx in
    ({[hash_transaction tx]} ∪ ids, list_to_set (conflict_keys tx) ∪ spent,
     if is_empty sn then nonces else {[sn]} ∪ nonces)) (∅, ∅, ∅) txs.

Definition confirmed_or_conflicting (sets : gset string * gset string * gset string)
    (tx : Transaction) : bool :=
  let '(ids, spent, nonces) := sets in
  let sn := signer_nonce_key tx in
  bool_decide (hash_transaction tx ∈ ids) ||
  (negb (is_empty sn) && bool_decide (sn ∈ nonces)) ||
  existsb (λ i, bool_decide (tx_outpoint_key i ∈ spent)) (inputs tx) ||
  existsb (λ k, bool_decide (k ∈ spent)) (default [] (shielded_nullifier_keys tx)).

Definition remove_confirmed (m : Mempool) (block_txs : list Transaction) : Mempool * nat :=
  if bool_decide (pending m = []) || bool_decide (block_txs = []) then (m, O)
  else
    let sets := block_sets block_txs in
    let dropped := filter (λ tx, confirmed_or_conflicting sets tx = true) (pending m) in
    let keep := filter (λ tx, confirmed_or_conflicting sets tx = false) (pending m) in
    (set_pending keep (foldl forget m dropped), length dropped).

Definition snapshot (m : Mempool) : list Transaction := pending m.
Definition max_pending_nonce (m : Mempool) (s : string) : Z :=
  foldl (λ n tx, if String.eqb (signer tx) s && (n <? nonce tx) then nonce tx else n) 0 (pending m).
Definition outpoint_reserved (m : Mempool) (key : string) : bool :=
  bool_decide (key ∈ reserved_outpoints m).
Definition mempool_size (m : Mempool) : nat := length (pending m).

End mempool.
