(* ===== verification/MempoolProofs.v ===== *)
(** * The mempool: conflict freedom and block selection

    The indexes of the pool are exact, no two pending transactions conflict, and the
    transactions taken for a block leave nothing behind. *)
From stdpp Require Import sorting.
From S2P Require Import Prelude ConsensusRules Strings Crypto Types Wire Block Shielded ShieldedProofs.
From S2P Require Import Mempool.

(** ** Exact indexes *)

(** [S] is the disjoint union of the keys of the transactions of [l]. *)
Definition exact (f : Transaction → list string) (l : list Transaction) (S : gset string) : Prop :=
  NoDup (l ≫= f) ∧ S = list_to_set (l ≫= f).

Lemma exact_nil f : exact f [] ∅.
Proof. split; [constructor|done]. Qed.

Lemma bind_snoc {A B} (f : A → list B) l x : (l ++ [x]) ≫= f = (l ≫= f) ++ f x.
Proof. rewrite bind_app. cbn. by rewrite app_nil_r. Qed.

Lemma exact_perm f l k S : l ≡ₚ k → exact f l S → exact f k S.
Proof.
  intros Hp [Hnd ->]. assert (Hb : l ≫= f ≡ₚ k ≫= f) by by apply bind_Permutation. split.
  - by rewrite <-Hb.
  - apply leibniz_equiv. intros x. rewrite !elem_of_list_to_set. by rewrite Hb.
Qed.

Lemma exact_snoc f l t S :
  exact f l S → NoDup (f t) → (∀ k, k ∈ f t → k ∉ S) → exact f (l ++ [t]) (list_to_set (f t) ∪ S).
Proof.
  intros [Hnd ->] Ht Hk. split; rewrite bind_snoc.
  - apply NoDup_app. split_and!; [done| |done]. intros x Hx Hx'. apply (Hk x Hx').
    by apply elem_of_list_to_set.
  - apply leibniz_equiv. rewrite list_to_set_app. set_solver.
Qed.

Lemma exact_drop f l t S : exact f (t :: l) S → exact f l (S ∖ list_to_set (f t)).
Proof.
  intros [Hnd ->]. cbn in Hnd. apply NoDup_app in Hnd as (_ & Hdisj & Hnd). split; [done|].
  apply leibniz_equiv. cbn. rewrite list_to_set_app. set_solver.
Qed.

Lemma exact_spec f l S k : exact f l S → k ∈ S ↔ ∃ t, t ∈ l ∧ k ∈ f t.
Proof. intros [_ ->]. rewrite elem_of_list_to_set, list_elem_of_bind. naive_solver. Qed.

Lemma exact_disjoint f l S i j a b k :
  exact f l S → l !! i = Some a → l !! j = Some b → i ≠ j → k ∈ f a → k ∉ f b.
Proof.
  intros [Hnd _]. clear S. revert i j. induction l as [|x l IH]; intros i j Ha Hb Hij Hk Hk'; [done|].
  cbn in Hnd. apply NoDup_app in Hnd as (_ & Hdisj & Hnd).
  assert (Hin : ∀ n y, l !! n = Some y → k ∈ f y → k ∈ l ≫= f).
  { intros n y Hn Hy. apply list_elem_of_bind. exists y. split; [done|]. by eapply list_elem_of_lookup_2. }
  destruct i as [|i], j as [|j]; cbn in *; [done|..]; simplify_eq.
  - by eapply (Hdisj k); [|eapply Hin].
  - by eapply (Hdisj k); [|eapply Hin].
  - eapply (IH Hnd i j); [done|done|lia|done|done].
Qed.

(** ** The three indexes *)

Definition own_keys (tx : Transaction) : list string := remove_dups (conflict_keys tx).
Definition sn_keys (tx : Transaction) : list string :=
  if is_empty (signer_nonce_key tx) then [] else [signer_nonce_key tx].

Lemma fold_insert {A} (f : A → string) (l : list A) (r : gset string) :
  foldl (λ r i, {[f i]} ∪ r) r l = list_to_set (f <$> l) ∪ r.
Proof.
  revert r. induction l as [|x l IH]; intros r; cbn; [set_solver|].
  rewrite IH. apply leibniz_equiv. set_solver.
Qed.
Lemma fold_remove {A} (f : A → string) (l : list A) (r : gset string) :
  foldl (λ r i, r ∖ {[f i]}) r l = r ∖ list_to_set (f <$> l).
Proof.
  revert r. induction l as [|x l IH]; intros r; cbn; [set_solver|].
  rewrite IH. apply leibniz_equiv. set_solver.
Qed.

Lemma own_keys_set tx : list_to_set (own_keys tx) = (list_to_set (conflict_keys tx) : gset string).
Proof. apply leibniz_equiv. intros k. unfold own_keys. by rewrite !elem_of_list_to_set, elem_of_remove_dups. Qed.

Lemma index_inputs_set tx r : index_inputs tx r = list_to_set (own_keys tx) ∪ r.
Proof.
  rewrite own_keys_set. unfold index_inputs, conflict_keys. rewrite fold_insert, list_to_set_app_L.
  destruct (shielded_nullifier_keys tx) as [nfs|]; cbn [default list_to_set].
  - pose proof (fold_insert Datatypes.id nfs) as H. rewrite list_fmap_id in H. unfold Datatypes.id in H. rewrite H.
    apply leibniz_equiv. set_solver.
  - apply leibniz_equiv. set_solver.
Qed.
Lemma unindex_inputs_set tx r : unindex_inputs tx r = r ∖ list_to_set (own_keys tx).
Proof.
  rewrite own_keys_set. unfold unindex_inputs, conflict_keys. rewrite fold_remove, list_to_set_app_L.
  destruct (shielded_nullifier_keys tx) as [nfs|]; cbn [default list_to_set].
  - pose proof (fold_remove Datatypes.id nfs) as H. rewrite list_fmap_id in H. unfold Datatypes.id in H. rewrite H.
    apply leibniz_equiv. set_solver.
  - apply leibniz_equiv. set_solver.
Qed.

Lemma sn_insert tx (s : gset string) :
  (if is_empty (signer_nonce_key tx) then s else {[signer_nonce_key tx]} ∪ s) =
  list_to_set (sn_keys tx) ∪ s.
Proof. unfold sn_keys. destruct (is_empty _); apply leibniz_equiv; set_solver. Qed.
Lemma sn_remove tx (s : gset string) :
  (if is_empty (signer_nonce_key tx) then s else s ∖ {[signer_nonce_key tx]}) =
  s ∖ list_to_set (sn_keys tx).
Proof. unfold sn_keys. destruct (is_empty _); apply leibniz_equiv; set_solver. Qed.
Lemma sn_keys_nodup tx : NoDup (sn_keys tx).
Proof. unfold sn_keys. destruct (is_empty _); repeat constructor; set_solver. Qed.

(** The key identifies the account and the nonce. *)
Lemma signer_nonce_key_inj a b :
  0 ≤ nonce a → 0 ≤ nonce b → signer_nonce_key a ≠ "" → signer_nonce_key a = signer_nonce_key b →
  signer a = signer b ∧ nonce a = nonce b.
Proof.
  intros Ha Hb. unfold signer_nonce_key. destruct (_ || _); [done|].
  intros _. destruct (_ || _); [by destruct (signer a)|].
  change ("#" +:+ ?s) with (String "#" s). intros H.
  apply split_unique_r in H as [-> H]; [|by apply to_string_free_of..].
  split; [done|]. by apply to_string_inj.
Qed.

(** ** The abstract pool *)

Section proofs.
Context {C : Crypto} {MO : MempoolOrder}.

(** Two transactions that cannot both be mined. *)
Definition conflict (a b : Transaction) : bool :=
  String.eqb (hash_transaction a) (hash_transaction b) ||
  (negb (is_empty (signer_nonce_key a)) && String.eqb (signer_nonce_key a) (signer_nonce_key b)) ||
  existsb (λ k, bool_decide (k ∈ conflict_keys b)) (conflict_keys a).

(** The contract: a list of transactions, without indexes. *)
Inductive op :=
  | OpSubmit (tx : Transaction)
  | OpFetch (max_count : nat)
  | OpRemove (block_txs : list Transaction).
Inductive reply :=
  | RAccepted (b : bool)
  | RFetched (txs : list Transaction)
  | RRemoved (n : nat).

Definition spec_step (l : list Transaction) (o : op) : list Transaction * reply :=
  match o with
  | OpSubmit tx =>
      if looks_spendable tx && negb (existsb (conflict tx) l)
      then (l ++ [tx], RAccepted true) else (l, RAccepted false)
  | OpFetch n => (drop n (block_order l), RFetched (take n (block_order l)))
  | OpRemove txs =>
      (filter (λ tx, existsb (conflict tx) txs = false) l,
       RRemoved (length (filter (λ tx, existsb (conflict tx) txs = true) l)))
  end.
Definition mempool_step (m : Mempool) (o : op) : Mempool * reply :=
  match o with
  | OpSubmit tx => let '(m, b) := submit m tx in (m, RAccepted b)
  | OpFetch n => let '(m, txs) := fetch_for_block m n in (m, RFetched txs)
  | OpRemove txs => let '(m, n) := remove_confirmed m txs in (m, RRemoved n)
  end.
Fixpoint run {S} (step : S → op → S * reply) (s : S) (os : list op) : S * list reply :=
  match os with
  | [] => (s, [])
  | o :: os => let '(s, r) := step s o in let '(s, rs) := run step s os in (s, r :: rs)
  end.

(** ** The invariant *)

Definition txid_keys (tx : Transaction) : list string := [hash_transaction tx].

Definition idx_ok (l : list Transaction) (m : Mempool) : Prop :=
  exact txid_keys l (txids m) ∧ exact sn_keys l (signer_nonces m) ∧
  exact own_keys l (reserved_outpoints m).
Definition mp_ok (m : Mempool) : Prop := idx_ok (pending m) m.

Lemma mp_ok_empty : mp_ok mempool_empty.
Proof. split_and!; apply exact_nil. Qed.

Lemma idx_ok_perm l k m : l ≡ₚ k → idx_ok l m → idx_ok k m.
Proof. intros Hp (H1 & H2 & H3). split_and!; by eapply exact_perm. Qed.

Lemma forget_ok t l m : idx_ok (t :: l) m → idx_ok l (forget m t).
Proof.
  intros (H1 & H2 & H3). unfold forget, idx_ok. cbn [txids signer_nonces reserved_outpoints].
  rewrite sn_remove, unindex_inputs_set. split_and!; [|by apply exact_drop..].
  apply exact_drop in H1. cbn in H1. by rewrite union_empty_r_L in H1.
Qed.
Lemma forget_all_ok ts l m : idx_ok (ts ++ l) m → idx_ok l (foldl forget m ts).
Proof. revert m. induction ts as [|t ts IH]; intros m H; [done|]. by apply IH, forget_ok. Qed.

Lemma conflict_true a b :
  conflict a b = true ↔
  hash_transaction a = hash_transaction b ∨
  (∃ k, k ∈ sn_keys a ∧ k ∈ sn_keys b) ∨ (∃ k, k ∈ own_keys a ∧ k ∈ own_keys b).
Proof.
  unfold conflict, sn_keys, own_keys.
  rewrite !orb_true_iff, String.eqb_eq, andb_true_iff, negb_true_iff, String.eqb_eq, existsb_exists.
  setoid_rewrite elem_of_remove_dups. setoid_rewrite bool_decide_eq_true.
  setoid_rewrite <-list_elem_of_In. split.
  - intros [[?|[Hne He]]|(k & ? & ?)]; [by left| |right; right; by exists k].
    right. left. exists (signer_nonce_key a). rewrite <-He, Hne. split; by apply list_elem_of_singleton.
  - intros [?|[(k & Ha & Hb)|(k & ? & ?)]]; [by left; left| |right; by exists k].
    left. right. destruct (is_empty (signer_nonce_key a)); [by apply not_elem_of_nil in Ha|].
    destruct (is_empty (signer_nonce_key b)); [by apply not_elem_of_nil in Hb|].
    apply list_elem_of_singleton in Ha, Hb. by subst.
Qed.

Lemma conflict_in_pool l m tx :
  idx_ok l m →
  existsb (conflict tx) l = true ↔
  hash_transaction tx ∈ txids m ∨ (∃ k, k ∈ sn_keys tx ∧ k ∈ signer_nonces m) ∨
  ∃ k, k ∈ own_keys tx ∧ k ∈ reserved_outpoints m.
Proof.
  intros (H1 & H2 & H3). rewrite existsb_exists. setoid_rewrite <-list_elem_of_In.
  setoid_rewrite conflict_true. rewrite (exact_spec _ _ _ _ H1).
  setoid_rewrite (exact_spec _ _ _ _ H2). setoid_rewrite (exact_spec _ _ _ _ H3).
  unfold txid_keys. setoid_rewrite list_elem_of_singleton. naive_solver.
Qed.

(** ** Each operation implements the abstract one *)

Lemma sn_member tx (s : gset string) :
  negb (is_empty (signer_nonce_key tx)) && bool_decide (signer_nonce_key tx ∈ s) = true ↔
  ∃ k, k ∈ sn_keys tx ∧ k ∈ s.
Proof.
  unfold sn_keys. rewrite andb_true_iff, negb_true_iff, bool_decide_eq_true.
  destruct (is_empty _); split.
  - by intros [? _].
  - intros (k & H & _). by apply not_elem_of_nil in H.
  - intros [_ H]. eexists. split; [by apply list_elem_of_singleton|done].
  - intros (k & Hk & H). apply list_elem_of_singleton in Hk as ->. done.
Qed.
Lemma keys_member tx (s : gset string) :
  existsb (λ k, bool_decide (k ∈ s)) (conflict_keys tx) = true ↔ ∃ k, k ∈ own_keys tx ∧ k ∈ s.
Proof.
  rewrite existsb_exists. setoid_rewrite <-list_elem_of_In. setoid_rewrite bool_decide_eq_true.
  unfold own_keys. by setoid_rewrite elem_of_remove_dups.
Qed.

Lemma difference_insert_same (x : string) (s : gset string) : x ∉ s → ({[x]} ∪ s) ∖ {[x]} = s.
Proof. intros Hx. apply leibniz_equiv. set_solver. Qed.
Lemma sn_insert_remove tx (s : gset string) :
  (∀ k, k ∈ sn_keys tx → k ∉ s) → (list_to_set (sn_keys tx) ∪ s) ∖ list_to_set (sn_keys tx) = s.
Proof. intros Hx. apply leibniz_equiv. set_solver. Qed.

Lemma submit_step m tx :
  mp_ok m →
  mp_ok (submit m tx).1 ∧ pending (submit m tx).1 = (spec_step (pending m) (OpSubmit tx)).1 ∧
  RAccepted (submit m tx).2 = (spec_step (pending m) (OpSubmit tx)).2 ∧
  ((submit m tx).2 = false → (submit m tx).1 = m).
Proof.
  intros Hok. pose proof (conflict_in_pool _ _ tx Hok) as Hc. unfold spec_step, submit.
  destruct (looks_spendable tx); cbn [negb andb]; [|done].
  destruct (bool_decide (hash_transaction tx ∈ txids m)) eqn:Hid; bools.
  { by rewrite (proj2 Hc) by by left. }
  pose proof (sn_member tx (signer_nonces m)) as Hsn.
  destruct (negb (is_empty _) && _).
  { rewrite (proj2 Hc) by (right; left; by apply Hsn).
    cbn [negb fst snd]. rewrite difference_insert_same by done. by destruct m. }
  pose proof (keys_member tx (reserved_outpoints m)) as Hk.
  assert (Hsn' : ∀ k, k ∈ sn_keys tx → k ∉ signer_nonces m).
  { intros k ? ?. enough (false = true) by done. apply Hsn. eauto. }
  rewrite sn_insert, sn_remove. destruct (existsb _ (conflict_keys tx)).
  { rewrite (proj2 Hc) by (right; right; by apply Hk).
    cbn [negb fst snd]. rewrite difference_insert_same, sn_insert_remove by done. by destruct m. }
  assert (Hk' : ∀ k, k ∈ own_keys tx → k ∉ reserved_outpoints m).
  { intros k ? ?. enough (false = true) by done. apply Hk. eauto. }
  destruct (existsb (conflict tx) (pending m)).
  { destruct (proj1 Hc eq_refl) as [?|[(k & ? & ?)|(k & ? & ?)]]; [done|by destruct (Hsn' k)|by destruct (Hk' k)]. }
  cbn [negb fst snd]. split_and!; [|done..].
  destruct Hok as (H1 & H2 & H3). unfold mp_ok, idx_ok. cbn [pending txids signer_nonces reserved_outpoints].
  rewrite index_inputs_set. split_and!.
  - pose proof (exact_snoc _ _ tx _ H1) as H. cbn in H. rewrite union_empty_r_L in H.
    apply H; [apply NoDup_singleton|]. by intros k ->%list_elem_of_singleton.
  - apply exact_snoc; [done|apply sn_keys_nodup|done].
  - apply exact_snoc; [done|apply NoDup_remove_dups|done].
Qed.

Lemma of_signer_perm s l k : l ≡ₚ k → of_signer s l ≡ₚ of_signer s k.
Proof. intros Hp. unfold of_signer. by rewrite Hp. Qed.

Lemma insert_nonce_perm x l : insert_nonce x l ≡ₚ x :: l.
Proof.
  induction l as [|y l IH]; cbn; [done|]. destruct (nonce y <? nonce x); [|done].
  rewrite IH. constructor.
Qed.
Lemma nonce_sort_perm l : nonce_sort l ≡ₚ l.
Proof. induction l as [|x l IH]; cbn; [done|]. by rewrite insert_nonce_perm, IH. Qed.

(** Filling the slots of a signer with all of its transactions permutes the list. *)
Lemma fill_slots_perm s txs l :
  length txs = length (of_signer s l) → fill_slots s txs l ≡ₚ txs ++ filter (λ t, signer t ≠ s) l.
Proof.
  unfold of_signer. revert txs. induction l as [|t l IH]; intros txs Hl; cbn.
  { by destruct txs. }
  rewrite !filter_cons in *. destruct (String.eqb_spec (signer t) s) as [He|He].
  - rewrite decide_True in Hl by done. destruct txs as [|x txs]; [done|].
    destruct (decide (signer t ≠ s)); [done|]. cbn. constructor. apply IH. cbn in Hl. lia.
  - rewrite decide_False in Hl by done. rewrite decide_True by done.
    destruct txs as [|x txs]; [|by rewrite <-Permutation_middle; constructor; apply IH].
    cbn. constructor. rewrite <-(IH []) by done. by destruct l.
Qed.
Lemma filter_split_perm s l : l ≡ₚ of_signer s l ++ filter (λ t, signer t ≠ s) l.
Proof.
  unfold of_signer. induction l as [|t l IH]; [done|]. rewrite !filter_cons.
  destruct (decide (signer t = s)), (decide (signer t ≠ s)); try done; cbn.
  - by constructor.
  - rewrite <-Permutation_middle. by constructor.
Qed.
Lemma reassign_signer_perm l s : reassign_signer l s ≡ₚ l.
Proof.
  unfold reassign_signer. destruct (_ <? _)%nat; [done|].
  rewrite fill_slots_perm by (by rewrite nonce_sort_perm).
  rewrite nonce_sort_perm. symmetry. apply filter_split_perm.
Qed.
Lemma block_order_perm l : block_order l ≡ₚ l.
Proof.
  unfold block_order. trans (fee_sort l); [|apply fee_sort_perm].
  generalize (slot_order (fee_sort l)). intros ss. generalize (fee_sort l). clear l.
  induction ss as [|s ss IH]; intros l; cbn; [done|]. by rewrite IH, reassign_signer_perm.
Qed.

Lemma fetch_step m n :
  mp_ok m →
  mp_ok (fetch_for_block m n).1 ∧
  pending (fetch_for_block m n).1 = (spec_step (pending m) (OpFetch n)).1 ∧
  RFetched (fetch_for_block m n).2 = (spec_step (pending m) (OpFetch n)).2.
Proof.
  intros Hok. unfold fetch_for_block, spec_step. cbn [fst snd].
  set (l := block_order (pending m)).
  assert (Hp : idx_ok l m) by (eapply idx_ok_perm; [symmetry; apply block_order_perm|done]).
  assert (Ht : take (Nat.min n (length l)) l = take n l).
  { destruct (Nat.min_spec n (length l)) as [[_ ->]|[? ->]]; [done|]. by rewrite !take_ge by lia. }
  assert (Hd : drop (Nat.min n (length l)) l = drop n l).
  { destruct (Nat.min_spec n (length l)) as [[_ ->]|[? ->]]; [done|]. by rewrite !drop_ge by lia. }
  rewrite Ht, Hd. split_and!; [|done..]. unfold mp_ok.
  rewrite <-(take_drop n l) in Hp. by apply forget_all_ok in Hp.
Qed.

Lemma block_sets_spec txs :
  let '(ids, spent, nonces) := block_sets txs in
  ids = list_to_set (txs ≫= txid_keys) ∧ spent = list_to_set (txs ≫= own_keys) ∧
  nonces = list_to_set (txs ≫= sn_keys).
Proof.
  unfold block_sets. induction txs as [|tx txs IH] using rev_ind; [done|].
  rewrite foldl_snoc. destruct (foldl _ _ txs) as [[ids spent] nonces].
  destruct IH as (-> & -> & ->). rewrite sn_insert, <-own_keys_set, !bind_snoc.
  split_and!; apply leibniz_equiv; rewrite list_to_set_app; unfold txid_keys; set_solver.
Qed.

Lemma confirmed_iff txs tx :
  confirmed_or_conflicting (block_sets txs) tx = existsb (conflict tx) txs.
Proof.
  pose proof (block_sets_spec txs) as H. destruct (block_sets txs) as [[ids spent] nonces].
  destruct H as (-> & -> & ->). apply eq_true_iff_eq. unfold confirmed_or_conflicting.
  rewrite !orb_true_iff, sn_member, bool_decide_eq_true, (existsb_exists _ txs).
  assert (Hk : ∀ S : gset string,
    existsb (λ i, bool_decide (tx_outpoint_key i ∈ S)) (inputs tx) = true ∨
    existsb (λ k, bool_decide (k ∈ S)) (default [] (shielded_nullifier_keys tx)) = true ↔
    ∃ k, k ∈ own_keys tx ∧ k ∈ S).
  { intros S. rewrite <-keys_member. unfold conflict_keys.
    rewrite existsb_app, orb_true_iff. f_equiv.
    by induction (inputs tx) as [|i l IH]; cbn; [|rewrite !orb_true_iff, IH]. }
  match goal with |- ((?a ∨ ?b) ∨ ?c) ∨ ?d ↔ _ => trans ((a ∨ b) ∨ (c ∨ d)); [tauto|] end.
  rewrite Hk. setoid_rewrite <-list_elem_of_In. setoid_rewrite conflict_true.
  setoid_rewrite elem_of_list_to_set. setoid_rewrite list_elem_of_bind.
  unfold txid_keys. setoid_rewrite list_elem_of_singleton. split.
  - intros [[(t & -> & ?)|(k & ? & t & ? & ?)]|(k & ? & t & ? & ?)]; exists t; eauto 7.
  - intros (t & ? & [->|[(k & ? & ?)|(k & ? & ?)]]); eauto 8.
Qed.

Lemma filter_bool_perm (f : Transaction → bool) l :
  l ≡ₚ filter (λ t, f t = true) l ++ filter (λ t, f t = false) l.
Proof.
  induction l as [|t l IH]; [done|]. rewrite !filter_cons.
  destruct (f t).
  - rewrite decide_True, decide_False by done. by constructor.
  - rewrite decide_False, decide_True by done. rewrite <-Permutation_middle. by constructor.
Qed.

Lemma remove_step m txs :
  mp_ok m →
  mp_ok (remove_confirmed m txs).1 ∧
  pending (remove_confirmed m txs).1 = (spec_step (pending m) (OpRemove txs)).1 ∧
  RRemoved (remove_confirmed m txs).2 = (spec_step (pending m) (OpRemove txs)).2.
Proof.
  intros Hok. unfold remove_confirmed, spec_step.
  destruct (bool_decide (pending m = [])) eqn:Hp; cbn [orb]; bools; [by rewrite Hp|].
  destruct (bool_decide (txs = [])) eqn:Ht; bools.
  { subst txs. cbn [existsb fst snd]. split_and!; [done| |].
    - clear Hp. induction (pending m) as [|t l IH]; [done|].
      by rewrite filter_cons_True, <-IH.
    - f_equal. clear Hp. induction (pending m) as [|t l IH]; [done|].
      by rewrite filter_cons_False. }
  cbn [fst snd pending set_pending]. split_and!.
  - apply (forget_all_ok _ _ m). eapply idx_ok_perm; [|done].
    apply (filter_bool_perm (confirmed_or_conflicting (block_sets txs))).
  - apply list_filter_iff. intros t. by rewrite confirmed_iff.
  - do 2 f_equal. apply list_filter_iff. intros t. by rewrite confirmed_iff.
Qed.

Lemma step_ok m o :
  mp_ok m →
  mp_ok (mempool_step m o).1 ∧ pending (mempool_step m o).1 = (spec_step (pending m) o).1 ∧
  (mempool_step m o).2 = (spec_step (pending m) o).2.
Proof.
  intros Hok. destruct o as [tx|n|txs]; unfold mempool_step.
  - destruct (submit_step m tx Hok) as (H1 & H2 & H3 & _). by destruct (submit m tx).
  - destruct (fetch_step m n Hok) as (H1 & H2 & H3). by destruct (fetch_for_block m n).
  - destruct (remove_step m txs Hok) as (H1 & H2 & H3). by destruct (remove_confirmed m txs).
Qed.

Lemma run_ok m os :
  mp_ok m →
  mp_ok (run mempool_step m os).1 ∧
  pending (run mempool_step m os).1 = (run spec_step (pending m) os).1 ∧
  (run mempool_step m os).2 = (run spec_step (pending m) os).2.
Proof.
  revert m. induction os as [|o os IH]; intros m Hok; [done|]. cbn [run].
  destruct (step_ok m o Hok) as (H1 & H2 & H3).
  destruct (mempool_step m o) as [m1 r1]. cbn [fst snd] in *.
  destruct (spec_step (pending m) o) as [l1 r1']. cbn [fst snd] in *. subst.
  destruct (IH m1 H1) as (H4 & H5 & H6).
  destruct (run mempool_step m1 os), (run spec_step (pending m1) os). cbn [fst snd] in *. by subst.
Qed.

(** ** What the pool promises *)

Definition pool_after (os : list op) : Mempool := (run mempool_step mempool_empty os).1.

Lemma pool_after_ok os : mp_ok (pool_after os).
Proof. apply run_ok, mp_ok_empty. Qed.

(** C21. The indexed pool implements the abstract one: on every sequence of submissions,
    block fetches and confirmations it answers as a plain list would that compares
    each new transaction with every pending one, and holds the same transactions. *)
Theorem mempool_refines os :
  (run mempool_step mempool_empty os).2 = (run spec_step [] os).2 ∧
  pending (pool_after os) = (run spec_step [] os).1.
Proof. destruct (run_ok mempool_empty os mp_ok_empty) as (_ & H1 & H2). by split. Qed.

(** No two pending transactions conflict: neither the same txid, nor the same
    account and nonce, nor a shared outpoint or nullifier; and the reserved keys are
    exactly the ones the pending transactions spend. *)
Theorem pool_conflict_free os :
  let m := pool_after os in
  (∀ i j a b, pending m !! i = Some a → pending m !! j = Some b → i ≠ j → conflict a b = false) ∧
  ∀ key, outpoint_reserved m key = true ↔ ∃ tx, tx ∈ pending m ∧ key ∈ conflict_keys tx.
Proof.
  intros m. destruct (pool_after_ok os) as (H1 & H2 & H3). fold m in H1, H2, H3. split.
  - intros i j a b Ha Hb Hij. apply not_true_iff_false. rewrite conflict_true.
    intros [He|[(k & Hk & Hk')|(k & Hk & Hk')]].
    + eapply (exact_disjoint _ _ _ i j a b (hash_transaction a) H1); [done..| |];
        apply list_elem_of_singleton; done.
    + by eapply (exact_disjoint _ _ _ i j a b k H2).
    + by eapply (exact_disjoint _ _ _ i j a b k H3).
  - intros key. unfold outpoint_reserved. rewrite bool_decide_eq_true, (exact_spec _ _ _ _ H3).
    unfold own_keys. by setoid_rewrite elem_of_remove_dups.
Qed.

(** ** Block selection *)

Lemma of_signer_cons s t l :
  of_signer s (t :: l) = if decide (signer t = s) then t :: of_signer s l else of_signer s l.
Proof. unfold of_signer. by rewrite filter_cons. Qed.

Lemma fill_slots_signers s txs l :
  Forall (λ t, signer t = s) txs → signer <$> fill_slots s txs l = signer <$> l.
Proof.
  intros Ht. revert txs Ht. induction l as [|t l IH]; intros txs Ht; [done|].
  destruct Ht as [|x txs Hx Ht]; [done|]. cbn [fill_slots].
  destruct (String.eqb_spec (signer t) s); rewrite !fmap_cons, IH; [congruence|done..|].
  by constructor.
Qed.
Lemma fill_slots_same s txs l :
  length txs = length (of_signer s l) → Forall (λ t, signer t = s) txs →
  of_signer s (fill_slots s txs l) = txs.
Proof.
  intros Hl Ht. revert l Hl. induction Ht as [|x txs Hx Ht IHt]; intros l Hl.
  { assert (of_signer s l = []) by by apply nil_length_inv. by destruct l. }
  induction l as [|t l IH]; [done|]. rewrite of_signer_cons in Hl. cbn [fill_slots].
  destruct (String.eqb_spec (signer t) s); rewrite of_signer_cons.
  - rewrite decide_True in Hl by done. rewrite decide_True by done. f_equal. apply IHt.
    by injection Hl.
  - rewrite decide_False in Hl by done. rewrite decide_False by done. by apply IH.
Qed.
Lemma fill_slots_other s s' txs l :
  s ≠ s' → Forall (λ t, signer t = s) txs → of_signer s' (fill_slots s txs l) = of_signer s' l.
Proof.
  intros Hs Ht. revert txs Ht. induction l as [|t l IH]; intros txs Ht; [done|].
  destruct Ht as [|x txs Hx Ht]; [done|]. cbn [fill_slots].
  destruct (String.eqb_spec (signer t) s); rewrite !of_signer_cons.
  - rewrite !decide_False by congruence. by apply IH.
  - rewrite IH; [done|]. by constructor.
Qed.

Lemma nonce_sort_signers s l : Forall (λ t, signer t = s) (nonce_sort (of_signer s l)).
Proof.
  rewrite (nonce_sort_perm _). apply Forall_forall. intros t Ht.
  unfold of_signer in Ht. by apply list_elem_of_filter in Ht as [? _].
Qed.
Lemma nonce_sort_short l : (length l < 2)%nat → nonce_sort l = l.
Proof. destruct l as [|x [|y l]]; [done..|]. cbn. lia. Qed.

Lemma reassign_signer_of s s' l :
  of_signer s' (reassign_signer l s) =
  if decide (s = s') then nonce_sort (of_signer s' l) else of_signer s' l.
Proof.
  unfold reassign_signer. destruct (Nat.ltb_spec (length (of_signer s l)) 2) as [Hl|Hl].
  { case_decide as He; [subst s'|done]. by rewrite nonce_sort_short. }
  case_decide as He; [subst s'|by apply fill_slots_other, nonce_sort_signers].
  apply fill_slots_same; [|apply nonce_sort_signers]. by rewrite (Permutation_length (nonce_sort_perm _)).
Qed.
Lemma reassign_signer_signers s l : signer <$> reassign_signer l s = signer <$> l.
Proof.
  unfold reassign_signer. destruct (_ <? _)%nat; [done|].
  apply fill_slots_signers, nonce_sort_signers.
Qed.

Lemma block_order_of s l : s ≠ "" → of_signer s (block_order l) = nonce_sort (of_signer s (fee_sort l)).
Proof.
  intros Hs. unfold block_order. set (fl := fee_sort l).
  assert (Hin : s ∉ slot_order fl → of_signer s fl = []).
  { intros Hn. destruct (of_signer s fl) as [|t k] eqn:E; [done|]. exfalso. apply Hn, slot_order_elem.
    assert (Ht : t ∈ of_signer s fl) by (rewrite E; apply list_elem_of_here).
    unfold of_signer in Ht. apply list_elem_of_filter in Ht as [Ht Hk]. split; [done|].
    apply list_elem_of_fmap. by exists t. }
  pose proof (slot_order_nodup fl) as Hnd. revert Hin Hnd.
  generalize (slot_order fl). intros ss. generalize fl. clear fl.
  induction ss as [|x ss IH]; intros fl Hin Hnd; cbn [foldl].
  { rewrite Hin by apply not_elem_of_nil. done. }
  apply NoDup_cons in Hnd as [Hx Hnd]. destruct (decide (x = s)) as [->|Hxs].
  - assert (Hk : ∀ l, of_signer s (foldl reassign_signer l ss) = of_signer s l).
    { clear -Hx. induction ss as [|y ss IH]; intros l; [done|]. cbn [foldl].
      rewrite IH by set_solver. rewrite reassign_signer_of, decide_False by set_solver. done. }
    by rewrite Hk, reassign_signer_of, decide_True.
  - rewrite IH; [| |done]; rewrite reassign_signer_of, decide_False by done; [done|].
    intros Hn. apply Hin. set_solver.
Qed.
Lemma block_order_signers l : signer <$> block_order l = signer <$> fee_sort l.
Proof.
  unfold block_order. generalize (slot_order (fee_sort l)). generalize (fee_sort l). clear l.
  intros l ss. revert l. induction ss as [|s ss IH]; intros l; [done|]. cbn [foldl].
  by rewrite IH, reassign_signer_signers.
Qed.

Lemma insert_nonce_sorted x l :
  StronglySorted (λ a b, nonce a ≤ nonce b) l → StronglySorted (λ a b, nonce a ≤ nonce b) (insert_nonce x l).
Proof.
  induction 1 as [|y l Hs IH Hy]; cbn; [by repeat constructor|].
  destruct (Z.ltb_spec (nonce y) (nonce x)).
  - constructor; [done|]. rewrite insert_nonce_perm. constructor; [lia|done].
  - constructor; [by constructor|]. constructor; [lia|]. eapply Forall_impl; [exact Hy|]. cbn. lia.
Qed.
Lemma nonce_sort_sorted l : StronglySorted (λ a b, nonce a ≤ nonce b) (nonce_sort l).
Proof. induction l as [|x l IH]; cbn; [constructor|by apply insert_nonce_sorted]. Qed.

Definition all_spendable (l : list Transaction) : Prop := Forall (λ tx, looks_spendable tx = true) l.

Lemma Forall_filtered (P Q : Transaction → Prop) `{∀ t, Decision (Q t)} l :
  Forall P l → Forall P (filter Q l).
Proof. rewrite !Forall_forall. intros H' t [_ Ht]%list_elem_of_filter. by apply H'. Qed.

Lemma spec_step_spendable l o : all_spendable l → all_spendable (spec_step l o).1.
Proof.
  unfold all_spendable. intros Hl. destruct o as [tx|n|txs]; unfold spec_step.
  - destruct (looks_spendable tx) eqn:E, (existsb _ _); cbn; try done.
    apply Forall_app. split; [done|by constructor].
  - cbn. apply Forall_drop. by rewrite block_order_perm.
  - cbn. by apply Forall_filtered.
Qed.
Lemma spec_run_spendable l os : all_spendable l → all_spendable (run spec_step l os).1.
Proof.
  revert l. induction os as [|o os IH]; intros l Hl; [done|]. cbn [run].
  pose proof (spec_step_spendable l o Hl) as H. destruct (spec_step l o) as [l1 r1].
  specialize (IH l1 H). by destruct (run spec_step l1 os).
Qed.
Lemma pool_spendable os : all_spendable (pending (pool_after os)).
Proof.
  unfold pool_after. destruct (run_ok mempool_empty os mp_ok_empty) as (_ & -> & _).
  apply spec_run_spendable. constructor.
Qed.

Lemma spendable_key tx :
  looks_spendable tx = true → signer tx ≠ "" →
  signer_nonce_key tx = signer tx +:+ "#" +:+ to_string (nonce tx) ∧ signer_nonce_key tx ≠ "".
Proof.
  intros Hl Hs. apply is_empty_false in Hs as He. unfold looks_spendable in Hl.
  unfold signer_nonce_key. rewrite He in *. cbn [negb orb andb] in Hl.
  destruct (bool_decide (inputs tx = [])); [by destruct (negb (is_empty (shielded tx)))|].
  cbn [orb]. split; [done|]. by destruct (signer tx).
Qed.

Lemma sorted_strict s l :
  s ≠ "" → all_spendable l → NoDup (l ≫= sn_keys) → Forall (λ t, signer t = s) l →
  StronglySorted (λ a b, nonce a ≤ nonce b) l → StronglySorted Z.lt (nonce <$> l).
Proof.
  intros Hs Hl Hnd Hss Hle. induction Hle as [|x l Hsort IH Hx]; [constructor|].
  inversion_clear Hl as [|?? Hlx Hl']. inversion_clear Hss as [|?? Hsx Hss'].
  rewrite bind_cons in Hnd. apply NoDup_app in Hnd as (_ & Hdisj & Hnd').
  rewrite fmap_cons. constructor; [by apply IH|]. apply Forall_fmap, Forall_forall. intros y Hy.
  cbn. rewrite Forall_forall in Hx. pose proof (Hx y Hy). enough (nonce x ≠ nonce y) by lia.
  intros He. rewrite Forall_forall in Hss', Hl'. pose proof (Hss' y Hy) as Hsy.
  destruct (spendable_key x Hlx ltac:(congruence)) as [Kx Nx].
  destruct (spendable_key y (Hl' y Hy) ltac:(congruence)) as [Ky Ny].
  assert (Hsn : ∀ t, signer_nonce_key t ≠ "" → signer_nonce_key t ∈ sn_keys t).
  { intros t Ht%is_empty_false. unfold sn_keys. rewrite Ht. by apply list_elem_of_singleton. }
  apply (Hdisj (signer_nonce_key x)); [by apply Hsn|]. apply list_elem_of_bind. exists y.
  split; [|done]. rewrite Kx, Hsx, He, <-Hsy, <-Ky. by apply Hsn.
Qed.

(** What a block gets: [fetch_for_block] takes the first transactions of the pool in
    block order and forgets exactly those; the slots keep the signers that fee order
    gave them; and each account's transactions stand in strictly increasing nonce
    order, so that nonce chains apply. *)
Theorem fetch_for_block_spec os n :
  let m := pool_after os in
  let '(m', out) := fetch_for_block m n in
  out ++ pending m' ≡ₚ pending m ∧ length out = Nat.min n (length (pending m)) ∧
  signer <$> (out ++ pending m') = signer <$> fee_sort (pending m) ∧
  ∀ s, s ≠ "" → StronglySorted Z.lt (nonce <$> of_signer s (out ++ pending m')).
Proof.
  intros m. destruct (fetch_step m n (pool_after_ok os)) as (_ & Hp & Hr).
  destruct (fetch_for_block m n) as [m' out]. cbn [fst snd] in Hp, Hr. injection Hr as ->.
  rewrite Hp. cbn [spec_step fst]. rewrite take_drop. split_and!.
  - apply block_order_perm.
  - by rewrite length_take, (Permutation_length (block_order_perm _)).
  - apply block_order_signers.
  - intros s Hs. pose proof (block_order_perm (pending m)) as Hperm.
    destruct (pool_after_ok os) as (_ & [Hnd _] & _). fold m in Hnd.
    assert (Hnd' : NoDup (of_signer s (block_order (pending m)) ≫= sn_keys)).
    { rewrite <-Hperm, (filter_split_perm s (block_order (pending m))), bind_app in Hnd.
      by apply NoDup_app in Hnd as [? _]. }
    apply (sorted_strict s); [done| |done|..].
    + unfold of_signer, all_spendable. apply Forall_filtered. rewrite Hperm. apply pool_spendable.
    + apply Forall_forall. unfold of_signer. by intros t [? _]%list_elem_of_filter.
    + rewrite block_order_of by done. apply nonce_sort_sorted.
Qed.

(** ** Restoring a snapshot *)

Definition pool_of (l : list Transaction) : Mempool :=
  mkMempool l (list_to_set (l ≫= txid_keys)) (list_to_set (l ≫= sn_keys))
    (list_to_set (l ≫= own_keys)).

Lemma pool_of_pending m : mp_ok m → m = pool_of (pending m).
Proof. intros ([_ H1] & [_ H2] & [_ H3]). destruct m. cbn in *. by subst. Qed.

Lemma exact_of_nodup f l : NoDup (l ≫= f) → exact f l (list_to_set (l ≫= f)).
Proof. by split. Qed.

Lemma replace_one_snoc l t :
  mp_ok (pool_of (l ++ [t])) → looks_spendable t = true →
  replace_one (pool_of l) t = pool_of (l ++ [t]).
Proof.
  intros ([H1 _] & [H2 _] & [H3 _]) Ht. cbn [pending pool_of] in *.
  rewrite !bind_snoc in *. apply NoDup_app in H1 as (_ & D1 & _), H2 as (_ & D2 & _), H3 as (_ & D3 & _).
  unfold replace_one. rewrite Ht. cbn [negb pending txids signer_nonces reserved_outpoints pool_of].
  rewrite bool_decide_eq_false_2; cycle 1.
  { intros H%elem_of_list_to_set. apply (D1 _ H). by apply list_elem_of_singleton. }
  destruct (existsb _ (inputs t)) eqn:E.
  { exfalso. apply existsb_exists in E as (i & Hi & H%bool_decide_eq_true).
    apply elem_of_list_to_set in H. apply (D3 _ H). unfold own_keys. apply elem_of_remove_dups.
    unfold conflict_keys. apply elem_of_app. left. apply list_elem_of_fmap_2.
    by apply list_elem_of_In. }
  pose proof (sn_member t (list_to_set (l ≫= sn_keys))) as Hsn. destruct (negb (is_empty _) && _).
  { exfalso. destruct (proj1 Hsn eq_refl) as (k & Hk & H%elem_of_list_to_set). by apply (D2 _ H). }
  rewrite sn_insert, index_inputs_set. unfold pool_of. rewrite !bind_snoc.
  f_equal; apply leibniz_equiv; rewrite list_to_set_app; unfold txid_keys; set_solver.
Qed.

Lemma replace_all l :
  mp_ok (pool_of l) → all_spendable l → foldl replace_one mempool_empty l = pool_of l.
Proof.
  induction l as [|t l IH] using rev_ind; intros Hok Hl; [done|].
  apply Forall_app in Hl as [Hl Ht]. rewrite foldl_snoc, IH; [|..|done].
  - apply replace_one_snoc; [done|by inversion Ht].
  - destruct Hok as ([H1 _] & [H2 _] & [H3 _]). cbn [pending pool_of] in *.
    rewrite !bind_snoc in *. apply NoDup_app in H1 as [? _], H2 as [? _], H3 as [? _].
    split_and!; by apply exact_of_nodup.
Qed.

(** A pool saved by [snapshot] and put back by [replace] is the same pool, indexes
    included, whatever the restarted node held before. *)
Theorem replace_snapshot os m0 : replace m0 (snapshot (pool_after os)) = pool_after os.
Proof.
  unfold replace, snapshot. pose proof (pool_after_ok os) as Hok.
  rewrite (pool_of_pending _ Hok) in Hok. rewrite replace_all; [|done|apply pool_spendable].
  symmetry. by apply pool_of_pending, pool_after_ok.
Qed.

(** ** The view the wallet takes of the pool *)

Lemma max_pending_nonce_spec m s :
  (∀ tx, tx ∈ pending m → 0 ≤ nonce tx) →
  (∀ tx, tx ∈ pending m → signer tx = s → nonce tx ≤ max_pending_nonce m s) ∧
  (max_pending_nonce m s = 0 ∨ ∃ tx, tx ∈ pending m ∧ signer tx = s ∧ nonce tx = max_pending_nonce m s).
Proof.
  unfold max_pending_nonce. induction (pending m) as [|t l IH] using rev_ind; intros H0.
  { split; [by intros ? ?%not_elem_of_nil|by left]. }
  rewrite foldl_snoc. destruct IH as [IH1 IH2]; [intros; apply H0; set_solver|].
  set (n := foldl _ 0 l) in *. destruct (String.eqb_spec (signer t) s); cbn [andb];
    [destruct (Z.ltb_spec n (nonce t))|].
  - split; [|right; exists t; set_solver].
    intros tx [Htx| ->%list_elem_of_singleton]%elem_of_app He; [|lia]. pose proof (IH1 tx Htx He). lia.
  - split; [|destruct IH2 as [?|(tx & ? & ? & ?)]; [by left|right; exists tx; set_solver]].
    intros tx [Htx| ->%list_elem_of_singleton]%elem_of_app He; [by apply IH1|lia].
  - split; [|destruct IH2 as [?|(tx & ? & ? & ?)]; [by left|right; exists tx; set_solver]].
    intros tx [Htx| ->%list_elem_of_singleton]%elem_of_app He; [by apply IH1|done].
Qed.
End proofs.
