(* ===== verification/Channel.v ===== *)
(** * Payment channels ([include/addition/channel.hpp], [src/channel.cpp])

    The scripts, commitments and the update protocol of a two-party channel, its on-chain
    transactions, the textual form of a state, and the in-process drivers. A private key
    is the signing function it gives, as in [Wallet]; [seed_] determines the revocation
    secrets. [std::map] is a [gmap], the multimap of abandoned states a map of lists in
    insertion order. The channel file is in [ChannelText], [open_channel] in [ChannelOpen]. *)
From S2P Require Import Prelude Strings Lines Crypto Types Wire Block Script.

Record Htlc := mkHtlc {
  h_id : Z;
  offered_by_a : bool;
  h_amount : Z;
  payment_hash : string;
  h_expiry : Z;
}.
Record State := mkState {
  st_n : Z;
  bal_a : Z;
  bal_b : Z;
  htlcs : list Htlc;
  next_htlc_id : Z;
}.
(** A is the funder and pays the commitment fee. *)
Record Info := mkInfo {
  addr_a : string;
  addr_b : string;
  capacity : Z;
  funding_txid : string;
  funding_vout : Z;
  to_self_delay : Z;
  info_fee : Z;
}.
Record CommitSig := mkCommitSig { cs_n : Z; cs_sig : string }.
Record Revoke := mkRevoke { revoked_n : Z; secret : string; next_hash : string }.

#[export] Instance Htlc_eq_dec : EqDecision Htlc.
Proof. solve_decision. Defined.
#[export] Instance State_eq_dec : EqDecision State.
Proof. solve_decision. Defined.

Record Channel := mkChannel {
  local_address : string;
  local_public_key : string;
  key_sign : string → string;
  remote_pub : string;
  is_a : bool;
  info : Info;
  seed : string;
  cur : State;
  pending : option State;
  remote_sig_cur : string;
  remote_sig_pending : option string;
  remote_hashes : gmap Z string;
  remote_secrets : gmap Z string;
  history : gmap Z State;
  abandoned : gmap Z (list State);
}.

(** ** Single-field writes *)

Definition set_states (c1 : State) (p : option State) (s1 : string) (sp : option string)
    (hist : gmap Z State) (ab : gmap Z (list State)) (c : Channel) : Channel :=
  mkChannel (local_address c) (local_public_key c) (key_sign c) (remote_pub c) (is_a c) (info c) (seed c)
    c1 p s1 sp (remote_hashes c) (remote_secrets c) hist ab.
Definition set_remote (hs ss : gmap Z string) (c : Channel) : Channel :=
  mkChannel (local_address c) (local_public_key c) (key_sign c) (remote_pub c) (is_a c) (info c) (seed c)
    (cur c) (pending c) (remote_sig_cur c) (remote_sig_pending c) hs ss (history c) (abandoned c).
Definition set_info (i : Info) (c : Channel) : Channel :=
  mkChannel (local_address c) (local_public_key c) (key_sign c) (remote_pub c) (is_a c) i (seed c)
    (cur c) (pending c) (remote_sig_cur c) (remote_sig_pending c) (remote_hashes c) (remote_secrets c)
    (history c) (abandoned c).

Definition state_init : State := mkState 0 0 0 [] 0.
Definition new_channel (addr pk : string) (sign : string → string) (rpk : string) (a : bool) (i : Info)
    (seed_hex : string) : Channel :=
  mkChannel addr pk sign rpk a i seed_hex state_init None "" None ∅ ∅ ∅ ∅.

(** ** Scripts *)

Definition funding_script (a b : string) : string := "and(pk(" +:+ a +:+ "),pk(" +:+ b +:+ "))".
Definition to_local_script (holder other rh : string) (delay : Z) : string :=
  "or(and(pk(" +:+ other +:+ "),sha3(" +:+ rh +:+ ")),and(pk(" +:+ holder +:+ "),older(" +:+
  to_string delay +:+ ")))".
Definition htlc_script (revoker offerer receiver rh ph : string) (exp : Z) : string :=
  "or(and(pk(" +:+ revoker +:+ "),sha3(" +:+ rh +:+ ")),or(and(pk(" +:+ receiver +:+ "),sha3(" +:+ ph +:+
  ")),and(pk(" +:+ offerer +:+ "),after(" +:+ to_string exp +:+ "))))".

(** [std::uint64_t] sum of the amounts. *)
Definition htlc_sum (s : State) : Z := foldl (λ t h, u64 (t + h_amount h)) 0 (htlcs s).

Section channel.
Context {C : Crypto}.

(** ** Commitments *)

Definition htlc_output (i : Info) (other rh : string) (h : Htlc) : TxOutput :=
  let off := if offered_by_a h then addr_a i else addr_b i in
  let rcv := if offered_by_a h then addr_b i else addr_a i in
  mkTxOutput (script_address (htlc_script other off rcv rh (payment_hash h) (h_expiry h))) (h_amount h).

Definition commitment_tx (i : Info) (holder_a : bool) (s : State) (rh : string) : Transaction :=
  let holder := if holder_a then addr_a i else addr_b i in
  let other := if holder_a then addr_b i else addr_a i in
  let a_amt := u64 (bal_a s - info_fee i) in
  let holder_amt := if holder_a then a_amt else bal_b s in
  let other_amt := if holder_a then bal_b s else a_amt in
  mkTransaction [mkTxInput (funding_txid i) (funding_vout i) ""]
    ((if holder_amt =? 0 then []
      else [mkTxOutput (script_address (to_local_script holder other rh (to_self_delay i))) holder_amt]) ++
     (if other_amt =? 0 then [] else [mkTxOutput other other_amt]) ++
     (htlc_output i other rh <$> htlcs s))
    "" "" "" (info_fee i) (st_n s) "".

Definition rev_secret (c : Channel) (n : Z) : string :=
  to_hex (sha3_512_bytes ("ADD/chan/rev|" +:+ seed c +:+ "|" +:+ to_string n)).
Definition rev_hash (c : Channel) (n : Z) : string := hash_preimage_hex (rev_secret c n).

Definition initial_hashes (c : Channel) : string * string := (rev_hash c 0, rev_hash c 1).
Definition set_remote_initial_hashes (h0 h1 : string) (c : Channel) : Channel :=
  set_remote (<[1 := h1]> (<[0 := h0]> (remote_hashes c))) (remote_secrets c) c.
Definition set_funding (txid : string) (vout : Z) (c : Channel) : Channel :=
  let i := info c in
  set_info (mkInfo (addr_a i) (addr_b i) (capacity i) txid vout (to_self_delay i) (info_fee i)) c.

Definition remote_address (c : Channel) : string := if is_a c then addr_b (info c) else addr_a (info c).

(** ** The update protocol *)

Definition htlc_bad (h : Htlc) : bool := (h_amount h =? 0) || negb (String.length (payment_hash h) =? 128)%nat.

Definition validate_next (c : Channel) (next : State) : result () :=
  reject_if bool_decide (is_Some (pending c)) as "update already in flight" ;;
  reject_if negb (st_n next =? u64 (st_n (cur c) + 1)) as "bad state number" ;;
  reject_if bool_decide (remote_hashes c !! st_n next = None) as "awaiting remote revocation" ;;
  reject_if bal_a next <? info_fee (info c) as "funder cannot pay commitment fee" ;;
  reject_if (16 <? length (htlcs next))%nat as "too many htlcs" ;;
  reject_if negb (u64 (u64 (bal_a next + bal_b next) + htlc_sum next) =? capacity (info c))
    as "state does not conserve capacity" ;;
  reject_if existsb htlc_bad (htlcs next) as "bad htlc" ;;
  Ok ().

(** [script::sign] under the channel's key. *)
Definition sign (c : Channel) (tx : Transaction) : string := key_sign c (sighash tx).

Fixpoint zeros (n : nat) : string := match n with O => "" | S n => String "0" (zeros n) end.

Definition sign_remote_commitment (c : Channel) (next : State) : CommitSig :=
  let rh := default (zeros 128) (remote_hashes c !! st_n next) in
  mkCommitSig (st_n next) (sign c (commitment_tx (info c) (negb (is_a c)) next rh)).

Definition receive_commit_sig (c : Channel) (next : State) (cs : CommitSig) : Channel * result () :=
  let initial := (st_n next =? 0) && is_empty (remote_sig_cur c) in
  match (if initial then Ok () else validate_next c next) with
  | Err e => (c, Err e)
  | Ok _ =>
      let mine := commitment_tx (info c) (is_a c) next (rev_hash c (st_n next)) in
      if negb (cs_n cs =? st_n next) ||
         negb (verify_message_signature_hybrid_uncached (remote_pub c) (sighash mine) (cs_sig cs))
      then (c, Err "invalid commitment signature")
      else if initial then
        (set_states next (pending c) (cs_sig cs) (remote_sig_pending c) (history c) (abandoned c) c, Ok ())
      else
        (set_states (cur c) (Some next) (remote_sig_cur c) (Some (cs_sig cs)) (history c) (abandoned c) c, Ok ())
  end.

(** [None]: an empty optional is dereferenced. *)
Definition revoke_and_advance (c : Channel) : option (Channel * Revoke) :=
  match pending c, remote_sig_pending c with
  | Some p, Some sg =>
      let n := st_n (cur c) in
      Some (set_states p None sg None (<[n := cur c]> (history c)) (abandoned c) c,
            mkRevoke n (rev_secret c n) (rev_hash c (u64 (n + 2))))
  | _, _ => None
  end.

Definition last_revoke (c : Channel) : Revoke :=
  let n := if st_n (cur c) =? 0 then 0 else st_n (cur c) - 1 in
  mkRevoke n (rev_secret c n) (rev_hash c (u64 (n + 2))).

Definition add_abandoned (s : State) (ab : gmap Z (list State)) : gmap Z (list State) :=
  <[st_n s := default [] (ab !! st_n s) ++ [s]]> ab.
Definition drop_pending (c : Channel) : Channel :=
  set_states (cur c) None (remote_sig_cur c) None (history c)
    (match pending c with None => abandoned c | Some p => add_abandoned p (abandoned c) end) c.
Definition note_signed_abandoned (s : State) (c : Channel) : Channel :=
  set_states (cur c) (pending c) (remote_sig_cur c) (remote_sig_pending c) (history c)
    (add_abandoned s (abandoned c)) c.

Definition receive_revoke (c : Channel) (r : Revoke) : Channel * result () :=
  match remote_hashes c !! revoked_n r with
  | None => (c, Err "revocation secret does not match")
  | Some h =>
      if negb (String.eqb (hash_preimage_hex (secret r)) h) then (c, Err "revocation secret does not match")
      else if negb (String.length (next_hash r) =? 128)%nat then (c, Err "bad next hash")
      else (set_remote (<[u64 (revoked_n r + 2) := next_hash r]> (remote_hashes c))
              (<[revoked_n r := secret r]> (remote_secrets c)) c, Ok ())
  end.

Definition awaiting_remote_revoke (c : Channel) : bool :=
  bool_decide (remote_hashes c !! u64 (st_n (cur c) + 1) = None).
Definition has_remote_secret (c : Channel) (n : Z) (s : string) : bool :=
  bool_decide (remote_secrets c !! n = Some s).

(** ** On-chain transactions *)

Definition set_witnesses (ws : list string) (tx : Transaction) : Transaction :=
  mkTransaction (zip_with (λ i w, mkTxInput (previous_txid i) (output_index i) w) (inputs tx) ws) (outputs tx)
    (signer tx) (signer_pubkey tx) (signature tx) (fee tx) (nonce tx) (shielded tx).

Definition add_funding_witness (i : Info) (pub_a sig_a pub_b sig_b : string) (tx : Transaction) : Transaction :=
  set_witnesses
    [encode_witness (mkWitness (funding_script (addr_a i) (addr_b i)) [(pub_a, sig_a); (pub_b, sig_b)] [])] tx.

(** Both signatures on a spend of the funding output, in the order of the parties. *)
Definition both_sign (c : Channel) (my theirs : string) (tx : Transaction) : Transaction :=
  if is_a c then add_funding_witness (info c) (local_public_key c) my (remote_pub c) theirs tx
  else add_funding_witness (info c) (remote_pub c) theirs (local_public_key c) my tx.

Definition signed_local_commitment (c : Channel) : Transaction :=
  let tx := commitment_tx (info c) (is_a c) (cur c) (rev_hash c (st_n (cur c))) in
  both_sign c (sign c tx) (remote_sig_cur c) tx.

Definition coop_close_tx (c : Channel) : Transaction :=
  let i := info c in
  mkTransaction [mkTxInput (funding_txid i) (funding_vout i) ""]
    ((if info_fee i <? bal_a (cur c) then [mkTxOutput (addr_a i) (bal_a (cur c) - info_fee i)] else []) ++
     (if bal_b (cur c) =? 0 then [] else [mkTxOutput (addr_b i) (bal_b (cur c))]))
    "" "" "" (info_fee i) (u64 (Z.shiftl 1 40 + st_n (cur c))) "".
Definition sign_coop_close (c : Channel) : string := sign c (coop_close_tx c).
Definition assemble_coop_close (c : Channel) (remote_sig : string) : result Transaction :=
  reject_if negb (bool_decide (htlcs (cur c) = [])) as "cannot coop-close with pending htlcs" ;;
  let out := coop_close_tx c in
  reject_if negb (verify_message_signature_hybrid_uncached (remote_pub c) (sighash out) remote_sig)
    as "bad close sig" ;;
  Ok (both_sign c (sign c out) remote_sig out).

(** The first output from index [i] on that pays [addr]. *)
Fixpoint find_recipient (addr : string) (i : nat) (outs : list TxOutput) : option nat :=
  match outs with
  | [] => None
  | o :: outs => if String.eqb (recipient o) addr then Some i else find_recipient addr (S i) outs
  end.
Definition find_output (tx : Transaction) (s : string) : option (nat * string) :=
  (λ v, (v, s)) <$> find_recipient (script_address s) 0 (outputs tx).

Definition output_amount (tx : Transaction) (v : nat) : Z := from_option amount 0 (outputs tx !! v).

(** [sweep], with an output of the parent that exists. *)
Definition sweep (c : Channel) (parent : Transaction) (vout : nat) (s : string) (pre : list string) (no : Z) :
    Transaction :=
  let tx := mkTransaction [mkTxInput (hash_transaction parent) (Z.of_nat vout) ""]
              [mkTxOutput (local_address c) (u64 (output_amount parent vout - info_fee (info c)))]
              "" "" "" (info_fee (info c)) no "" in
  set_witnesses [encode_witness (mkWitness s [(local_public_key c, sign c tx)] pre)] tx.

(** The states with number [n] that were signed for the peer. *)
Definition candidates (c : Channel) (n : Z) : list State :=
  option_list (history c !! n) ++ default [] (abandoned c !! n).

(** The first output not taken yet that pays [addr]. *)
Fixpoint find_fresh (addr : string) (taken : list nat) (i : nat) (outs : list TxOutput) : option nat :=
  match outs with
  | [] => None
  | o :: outs =>
      if negb (bool_decide (i ∈ taken)) && String.eqb (recipient o) addr then Some i
      else find_fresh addr taken (S i) outs
  end.

Definition penalty_htlc_script (c : Channel) (rh : string) (h : Htlc) : string :=
  let i := info c in
  htlc_script (local_address c) (if offered_by_a h then addr_a i else addr_b i)
    (if offered_by_a h then addr_b i else addr_a i) rh (payment_hash h) (h_expiry h).

(** The loop over the state's HTLCs. *)
Definition penalty_htlcs (c : Channel) (rh : string) (b : Transaction) (outs : list (nat * string))
    (hs : list Htlc) : list (nat * string) :=
  foldl (λ outs h,
    let s := penalty_htlc_script c rh h in
    match find_fresh (script_address s) outs.*1 0 (outputs b) with
    | Some v => outs ++ [(v, s)]
    | None => outs
    end) outs hs.

Definition penalty_outputs (c : Channel) (rh : string) (b : Transaction) (st : State) : list (nat * string) :=
  let outs := option_list (find_output b (to_local_script (remote_address c) (local_address c) rh
                                            (to_self_delay (info c)))) in
  penalty_htlcs c rh b outs (htlcs st).

(** The justice transaction that takes the outputs [outs] of [b]. *)
Definition justice_tx (c : Channel) (b : Transaction) (sec : string) (outs : list (nat * string)) (total : Z) :
    Transaction :=
  let txid := hash_transaction b in
  let tx := mkTransaction ((λ vs, mkTxInput txid (Z.of_nat vs.1) "") <$> outs)
              [mkTxOutput (local_address c) (total - info_fee (info c))] "" "" "" (info_fee (info c))
              (u64 (Z.shiftl 2 40 + nonce b)) "" in
  let sg := sign c tx in
  set_witnesses ((λ vs, encode_witness (mkWitness vs.2 [(local_public_key c, sg)] [sec])) <$> outs) tx.

Definition penalty_for (c : Channel) (b : Transaction) : option Transaction :=
  let n := nonce b in
  sec ← remote_secrets c !! n;
  rh ← remote_hashes c !! n;
  let bh := hash_transaction b in
  st ← head (filter (λ s, hash_transaction (commitment_tx (info c) (negb (is_a c)) s rh) = bh) (candidates c n));
  let outs := penalty_outputs c rh b st in
  if bool_decide (outs = []) then None
  else
    let total := foldl (λ t vs, u64 (t + output_amount b vs.1)) 0 outs in
    if total <=? info_fee (info c) then None else Some (justice_tx c b sec outs total).

Definition sweep_to_local (c : Channel) (tx : Transaction) : option Transaction :=
  let s := to_local_script (local_address c) (remote_address c) (rev_hash c (nonce tx)) (to_self_delay (info c)) in
  '(v, s) ← find_output tx s;
  if output_amount tx v <=? info_fee (info c) then None
  else Some (sweep c tx v s [] (u64 (Z.shiftl 3 40 + nonce tx))).

Definition find_htlc (s : State) (id : Z) : option Htlc := head (filter (λ h, h_id h = id) (htlcs s)).

(** The position of the last HTLC with the identifier. *)
Definition htlc_position (s : State) (id : Z) : option nat :=
  foldl (λ o ih, if h_id ih.2 =? id then Some ih.1 else o) None (imap pair (htlcs s)).

Definition sweep_htlc_success (c : Channel) (tx : Transaction) (mine : bool) (id : Z) (preimage : string) :
    option Transaction :=
  let n := nonce tx in
  st ← (if n =? st_n (cur c) then Some (cur c) else history c !! n);
  h ← find_htlc st id;
  rh ← (if mine then Some (rev_hash c n) else remote_hashes c !! n);
  let i := info c in
  let off := if offered_by_a h then addr_a i else addr_b i in
  let rcv := if offered_by_a h then addr_b i else addr_a i in
  let revoker := if mine then remote_address c else local_address c in
  let s := htlc_script revoker off rcv rh (payment_hash h) (h_expiry h) in
  let expect := commitment_tx i (if mine then is_a c else negb (is_a c)) st rh in
  if negb (String.eqb (hash_transaction expect) (hash_transaction tx)) then None
  else
    let base := (length (outputs expect) - length (htlcs st))%nat in
    k ← htlc_position st id;
    let v := (base + k)%nat in
    if negb (String.eqb (from_option recipient "" (outputs tx !! v)) (script_address s)) then None
    else Some (sweep c tx v s (if is_empty preimage then [] else [preimage])
                 (u64 (u64 (Z.shiftl 4 40 + u64 (Z.shiftl n 8)) + id))).
Definition sweep_htlc_timeout (c : Channel) (tx : Transaction) (mine : bool) (id : Z) : option Transaction :=
  sweep_htlc_success c tx mine id "".

(** ** The drivers of both endpoints *)

(** [None]: undefined behaviour of [revoke_and_advance]. *)
Definition update (p q : Channel) (next : State) : option (Channel * Channel * result ()) :=
  match (_ ← validate_next p next; validate_next q next) with
  | Err e => Some (p, q, Err e)
  | Ok _ =>
      match receive_commit_sig q next (sign_remote_commitment p next) with
      | (q, Err e) => Some (p, q, Err e)
      | (q, Ok _) =>
          match receive_commit_sig p next (sign_remote_commitment q next) with
          | (p, Err e) => Some (p, q, Err e)
          | (p, Ok _) =>
              '(p, rp) ← revoke_and_advance p;
              match receive_revoke q rp with
              | (q, Err e) => Some (p, q, Err e)
              | (q, Ok _) =>
                  '(q, rq) ← revoke_and_advance q;
                  let '(p, r) := receive_revoke p rq in Some (p, q, r)
              end
          end
      end
  end.

Definition bal (s : State) (a : bool) : Z := if a then bal_a s else bal_b s.
Definition set_bal (a : bool) (v : Z) (s : State) : State :=
  if a then mkState (st_n s) v (bal_b s) (htlcs s) (next_htlc_id s)
  else mkState (st_n s) (bal_a s) v (htlcs s) (next_htlc_id s).
Definition add_bal (a : bool) (v : Z) (s : State) : State := set_bal a (u64 (bal s a + v)) s.
Definition set_htlcs (hs : list Htlc) (next : Z) (s : State) : State :=
  mkState (st_n s) (bal_a s) (bal_b s) hs next.
Definition next_state (s : State) : State :=
  mkState (u64 (st_n s + 1)) (bal_a s) (bal_b s) (htlcs s) (next_htlc_id s).

(** What the payer must keep on top of the amount. *)
Definition reserve (c : Channel) : Z := if is_a c then info_fee (info c) else 0.
Definition cannot_pay (c : Channel) (amt : Z) : bool :=
  (amt =? 0) || (bal (cur c) (is_a c) <? u64 (amt + reserve c)).

Definition pay (payer payee : Channel) (amt : Z) : option (Channel * Channel * result ()) :=
  if cannot_pay payer amt then Some (payer, payee, Err "insufficient channel balance")
  else update payer payee (add_bal (is_a payee) amt (add_bal (is_a payer) (- amt) (next_state (cur payer)))).

(** The state with one more HTLC of the payer, and its identifier. *)
Definition with_htlc (payer : Channel) (amt : Z) (ph : string) (exp : Z) : State :=
  let n := add_bal (is_a payer) (- amt) (next_state (cur payer)) in
  set_htlcs (htlcs n ++ [mkHtlc (next_htlc_id n) (is_a payer) amt ph exp]) (u64 (next_htlc_id n + 1)) n.
(** The identifier is written also when the update fails; it is 0 before. *)
Definition add_htlc (payer payee : Channel) (amt : Z) (ph : string) (exp : Z) :
    option (Channel * Channel * (Z * result ())) :=
  if cannot_pay payer amt then Some (payer, payee, (0, Err "insufficient channel balance"))
  else '(p, q, r) ← update payer payee (with_htlc payer amt ph exp);
       Some (p, q, (next_htlc_id (cur payer), r)).

(** [n.htlcs.erase(it)] for the first HTLC with the identifier. *)
Fixpoint erase_htlc (id : Z) (hs : list Htlc) : list Htlc :=
  match hs with
  | [] => []
  | h :: hs => if h_id h =? id then hs else h :: erase_htlc id hs
  end.
Definition without_htlc (s : State) (h : Htlc) (to_receiver : bool) : State :=
  let credit_a := if to_receiver then negb (offered_by_a h) else offered_by_a h in
  let n := add_bal credit_a (h_amount h) (next_state s) in
  set_htlcs (erase_htlc (h_id h) (htlcs n)) (next_htlc_id n) n.
Definition remove_htlc (proposer peer : Channel) (id : Z) (to_receiver : bool) :
    option (Channel * Channel * result ()) :=
  match find_htlc (cur proposer) id with
  | None => Some (proposer, peer, Err "unknown htlc")
  | Some h => update proposer peer (without_htlc (cur proposer) h to_receiver)
  end.

Definition settle_htlc (payee payer : Channel) (id : Z) (preimage : string) :
    option (Channel * Channel * result ()) :=
  match find_htlc (cur payer) id with
  | None => Some (payee, payer, Err "bad preimage")
  | Some h =>
      if negb (String.eqb (hash_preimage_hex preimage) (payment_hash h))
      then Some (payee, payer, Err "bad preimage")
      else remove_htlc payee payer id true
  end.
Definition fail_htlc (payee payer : Channel) (id : Z) : option (Channel * Channel * result ()) :=
  remove_htlc payee payer id false.

(** ** Routes

    A hop names the two endpoints of one channel in a store of channel objects. *)

Record Hop := mkHop { payer : nat; payee : nat }.

(** Run a two-party operation on two objects of the store. *)
Definition on_pair {A} (f : Channel → Channel → option (Channel * Channel * A)) (i j : nat)
    (store : list Channel) : option (list Channel * A) :=
  p ← store !! i; q ← store !! j;
  '(p, q, r) ← f p q;
  Some (<[j := q]> (<[i := p]> store), r).

(** Undo the hops whose identifiers are given, the last one first. *)
Fixpoint fail_hops (store : list Channel) (done : list (Hop * Z)) : option (list Channel) :=
  match done with
  | [] => Some store
  | (h, id) :: done =>
      '(store, _) ← on_pair (λ p q, fail_htlc p q id) (payee h) (payer h) store;
      fail_hops store done
  end.
Fixpoint settle_hops (store : list Channel) (preimage : string) (i : nat) (done : list (Hop * Z)) :
    option (list Channel * result ()) :=
  match done with
  | [] => Some (store, Ok ())
  | (h, id) :: done =>
      '(store, r) ← on_pair (λ p q, settle_htlc p q id preimage) (payee h) (payer h) store;
      match r with
      | Err e => Some (store, Err ("settle hop " +:+ to_string (Z.of_nat (i - 1)) +:+ ": " +:+ e))
      | Ok _ => settle_hops store preimage (i - 1) done
      end
  end.

(** The hops that are left; [done] are those set up, the last one first. *)
Fixpoint add_hops (store : list Channel) (k : nat) (amt : Z) (ph : string) (exp delta fe : Z)
    (done : list (Hop * Z)) (route : list Hop) : option (list Channel * result (list (Hop * Z))) :=
  match route with
  | [] => Some (store, Ok done)
  | h :: route =>
      let i := length done in
      let left := Z.of_nat (k - 1 - i) in
      '(store, ir) ← on_pair (λ p q, add_htlc p q (u64 (amt + u64 (fe * left))) ph (u64 (exp + u64 (delta * left))))
                       (payer h) (payee h) store;
      match ir with
      | (_, Err e) =>
          store ← fail_hops store done;
          Some (store, Err ("hop " +:+ to_string (Z.of_nat i) +:+ ": " +:+ e))
      | (id, Ok _) => add_hops store k amt ph exp delta fe ((h, id) :: done) route
      end
  end.

Definition route_payment (store : list Channel) (route : list Hop) (amt : Z) (preimage : string)
    (final_expiry delta fe : Z) : option (list Channel * result ()) :=
  let ph := hash_preimage_hex preimage in
  if is_empty ph then Some (store, Err "bad preimage")
  else
    '(store, r) ← add_hops store (length route) amt ph final_expiry delta fe [] route;
    match r with
    | Err e => Some (store, Err e)
    | Ok done => settle_hops store preimage (length route) done
    end.

(** ** What a peer may propose *)

Inductive PeerUpdate := Pay | AddHtlc | SettleHtlc | FailHtlc.

(** [std::map] by identifier: the last HTLC with one wins. *)
Definition by_id (hs : list Htlc) : gmap Z Htlc := foldl (λ m h, <[h_id h := h]> m) ∅ hs.

(** A rejection is an error; an accepted update comes with its HTLC. *)
Definition classify_peer_update (local : Channel) (next : State) (preimage : string) (h : Z) :
    result (PeerUpdate * option Htlc) :=
  let cs := cur local in
  let me_a := is_a local in
  let mine s := bal s me_a in
  let theirs s := bal s (negb me_a) in
  let c := by_id (htlcs cs) in
  let n := by_id (htlcs next) in
  reject_if existsb (λ kv, bool_decide (is_Some (c !! kv.1)) && negb (bool_decide (c !! kv.1 = Some kv.2)))
              (map_to_list n) as "existing htlc modified" ;;
  let added := (map_to_list (n ∖ c)).*2 in
  let removed := (map_to_list (c ∖ n)).*2 in
  match added, removed with
  | [], [] =>
      reject_if negb (next_htlc_id next =? next_htlc_id cs) || (mine next <? mine cs)
        as "update would lower local balance" ;;
      Ok (Pay, None)
  | [x], [] =>
      reject_if Bool.eqb (offered_by_a x) me_a as "peer cannot add an htlc offered by us" ;;
      reject_if negb (h_id x =? next_htlc_id cs) || negb (next_htlc_id next =? u64 (next_htlc_id cs + 1))
        as "bad htlc id" ;;
      reject_if negb (mine next =? mine cs) || negb (u64 (theirs next + h_amount x) =? theirs cs)
        as "htlc add must be funded by the proposer" ;;
      reject_if h_expiry x <=? u64 (h + 1) as "htlc expiry too close" ;;
      Ok (AddHtlc, Some x)
  | [], [x] =>
      reject_if negb (next_htlc_id next =? next_htlc_id cs) as "bad htlc id" ;;
      reject_if negb (Bool.eqb (offered_by_a x) me_a)
        as "peer cannot remove an htlc it offered (timeout is on-chain only)" ;;
      if (mine next =? u64 (mine cs + h_amount x)) && (theirs next =? theirs cs) then Ok (FailHtlc, Some x)
      else if (theirs next =? u64 (theirs cs + h_amount x)) && (mine next =? mine cs) then
        reject_if negb (String.eqb (hash_preimage_hex preimage) (payment_hash x)) as "bad preimage" ;;
        Ok (SettleHtlc, Some x)
      else Err "htlc removal does not balance"
  | _, _ => Err "only one htlc change per update"
  end.
End channel.

(** ** The text of a state *)

Definition encode_htlc (h : Htlc) : string :=
  join "," [to_string (h_id h); if offered_by_a h then "1" else "0"; to_string (h_amount h); payment_hash h;
            to_string (h_expiry h)].
Definition encode_state (s : State) : string :=
  join ":" [to_string (st_n s); to_string (bal_a s); to_string (bal_b s); to_string (next_htlc_id s);
            join ";" (encode_htlc <$> htlcs s)].

Definition field_u64 (s : string) : option Z := fst <$> stoull 10 s.
Definition decode_htlc (one : string) : option Htlc :=
  match getlines "," (Some one) with
  | id :: off :: amt :: ph :: exp :: _ =>
      id ← field_u64 id; amt ← field_u64 amt; exp ← field_u64 exp;
      Some (mkHtlc id (String.eqb off "1") amt ph exp)
  | _ => None
  end.
Definition decode_state (t : string) : option State :=
  match (let f := getlines ":" (Some t) in if (length f =? 4)%nat then f ++ [""] else f) with
  | [n; a; b; next; hs] =>
      n ← field_u64 n; a ← field_u64 a; b ← field_u64 b; next ← field_u64 next;
      hs ← mapM decode_htlc (getlines ";" (Some hs));
      Some (mkState n a b hs next)
  | _ => None
  end.
