(* ===== verification/ChannelPenalty.v ===== *)
(** * Revoked commitments are punished

    The scripts of a commitment parse, the revocation branch of each opens with the
    revealed secret and the victim's signature, and [penalty_for] collects every output
    of a revoked commitment but the victim's own. *)
From S2P Require Import Prelude Strings Lines Crypto Types Wire WireProofs Block Script ScriptProofs Channel.

(** ** The scripts parse *)

Definition to_local_node (holder other rh : string) (delay : Z) : Node :=
  Or (And (Pk other) (Sha3 rh)) (And (Pk holder) (Older delay)).
Definition htlc_node (revoker offerer receiver rh ph : string) (exp : Z) : Node :=
  Or (And (Pk revoker) (Sha3 rh)) (Or (And (Pk receiver) (Sha3 ph)) (And (Pk offerer) (After exp))).

Lemma to_local_print holder other rh d :
  to_local_script holder other rh d = print (to_local_node holder other rh d).
Proof. unfold to_local_script, to_local_node. cbn [print]. by rewrite !str_app_assoc. Qed.
Lemma htlc_print rv off rc rh ph e : htlc_script rv off rc rh ph e = print (htlc_node rv off rc rh ph e).
Proof. unfold htlc_script, htlc_node. cbn [print]. by rewrite !str_app_assoc. Qed.

(** Addresses have the shape of a digest. *)
Lemma to_local_wf holder other rh d :
  is_hash_arg holder → is_hash_arg other → is_hash_arg rh → is_number_arg d →
  script_wf (to_local_node holder other rh d).
Proof.
  intros Hh Ho Hr Hd. pose proof (number_length d Hd) as Hn.
  split; [cbn; auto 10 using hash_arg_atom|]. split_and!;
    cbn [print node_count node_depth to_local_node]; unfold kMaxNodes, kMaxDepth, kMaxScriptBytes; [lia|lia|].
  rewrite !str_length_app. rewrite (proj1 Hh), (proj1 Ho), (proj1 Hr). cbn [String.length]. lia.
Qed.
Lemma htlc_wf rv off rc rh ph e :
  is_hash_arg rv → is_hash_arg off → is_hash_arg rc → is_hash_arg rh → is_hash_arg ph → is_number_arg e →
  script_wf (htlc_node rv off rc rh ph e).
Proof.
  intros Hv Ho Hc Hr Hp He. pose proof (number_length e He) as Hn.
  split; [cbn; auto 10 using hash_arg_atom|]. split_and!;
    cbn [print node_count node_depth htlc_node]; unfold kMaxNodes, kMaxDepth, kMaxScriptBytes; [lia|lia|].
  rewrite !str_length_app. rewrite (proj1 Hv), (proj1 Ho), (proj1 Hc), (proj1 Hr), (proj1 Hp).
  cbn [String.length]. lia.
Qed.

(** ** Spending through the revocation branch *)

Lemma all_chars_free c p s :
  all_chars p s = true → (∀ d, p d = true → Ascii.eqb c d = false) → free_of c s = true.
Proof. intros Hs Hp. apply (all_chars_impl p); [|done]. intros d Hd. by rewrite Hp. Qed.

Lemma starts_with_app p s : starts_with p s = true → s = p +:+ substr_from s (String.length p).
Proof.
  unfold starts_with, substr_from. revert s. induction p as [|x p IH]; intros s H; [done|].
  destruct s as [|y s]; [done|]. cbn in H |- *. destruct (Ascii.ascii_dec x y) as [->|]; [|done].
  rewrite str_app_cons. by rewrite <-IH.
Qed.

Section revocation.
Context {C : Crypto}.

Lemma hex_char_not c d : is_hex_char d = true → is_hex_char c = false → Ascii.eqb c d = false.
Proof. intros Hd Hc. apply Ascii.eqb_neq. intros ->. by rewrite Hc in Hd. Qed.

(** A signature that verifies can stand in a witness. *)
Lemma verified_sig_wf pk msg sg :
  verify_message_signature_hybrid_uncached pk msg sg = true → sig_wf (pk, sg).
Proof.
  unfold verify_message_signature_hybrid_uncached. intros H.
  apply andb_prop in H as [[Hpq _]%andb_prop H]. apply andb_prop in H as [_ H].
  destruct (get_scheme_sizes _) as [sz|]; [|done]. apply andb_prop in H as [[Hpk _]%andb_prop H].
  apply andb_prop in H as [Hsg _].
  assert (Hhex : ∀ s m, is_ok (is_hex_strict s m) = true → all_chars is_hex_char s = true).
  { intros s m. unfold is_hex_strict. repeat (case_match; [done|]). intros _. by apply negb_false_iff. }
  apply Hhex in Hpk, Hsg. split_and!; cbn [fst snd].
  - apply (all_chars_free _ is_hex_char); [done|]. intros d Hd. by apply hex_char_not.
  - apply (all_chars_free _ is_hex_char); [done|]. intros d Hd. by apply hex_char_not.
  - rewrite (starts_with_app _ _ Hpq). unfold free_of. rewrite all_chars_app. apply andb_true_intro. split; [done|].
    apply (all_chars_free _ is_hex_char); [done|]. intros d Hd. by apply hex_char_not.
Qed.

Lemma script_address_shape t : sha3_512_digests → is_script_address (script_address t) = true.
Proof.
  intros Hd. unfold is_script_address, script_address. rewrite str_length_app.
  change (to_hex (sha3_512_bytes ("ADD/script/v1|" +:+ t))) with (strong_hash ("ADD/script/v1|" +:+ t)).
  rewrite strong_hash_length by done. by destruct (strong_hash _).
Qed.

(** The revocation branch [and(pk(me),sha3(rh))] under any alternative. *)
Lemma revocation_branch_opens pk msg sg sec me rest ctx :
  sha3_512_digests → script_wf (Or (And (Pk me) (Sha3 (hash_preimage_hex sec))) rest) →
  free_of ";" (print (Or (And (Pk me) (Sha3 (hash_preimage_hex sec))) rest)) = true →
  address_binds_pubkey me (infer_sig_scheme_from_pubkey_hex pk) pk = Ok () →
  verify_message_signature_hybrid_uncached pk msg sg = true → ctx_sighash ctx = msg →
  is_lower_hex_max sec (2 * kMaxPreimageBytes) = true →
  let n := Or (And (Pk me) (Sha3 (hash_preimage_hex sec))) rest in
  verify_input (script_address (print n)) (encode_witness (mkWitness (print n) [(pk, sg)] [sec])) ctx = Ok ().
Proof.
  intros Hd Hwf Hfree Hbind Hver Hctx Hsec n. set (w := mkWitness (print n) [(pk, sg)] [sec]).
  assert (Hsig : sig_matches ctx me (pk, sg) = true) by (apply sig_matches_true; subst; done).
  apply (verify_input_ok _ ctx w n).
  - by apply script_address_shape.
  - apply decode_encode_witness. split_and!; cbn [script sigs preimages w]; [done|by cbn| |by cbn|].
    + constructor; [|constructor]. by eapply verified_sig_wf.
    + constructor; [done|constructor].
  - by apply parse_print.
  - left. split.
    + exists (pk, sg). apply sig_matches_true in Hsig as [??]. split; [apply list_elem_of_here|done].
    + exists sec. split; [apply list_elem_of_here|done].
  - intros [|k] Hk; [|cbn in Hk; lia]. cbn [sig_marks n w sigs find_index]. rewrite Hsig. cbn. apply list_elem_of_here.
  - intros [|k] Hk; [|cbn in Hk; lia]. cbn [pre_marks n w preimages find_index]. rewrite String.eqb_refl.
    cbn. apply list_elem_of_here.
Qed.
End revocation.

(** ** The outputs of a commitment *)

Section penalty.
Context {C : Crypto}.

Definition htlc_ok (h : Htlc) : Prop :=
  0 < h_amount h ≤ U64_MAX ∧ is_hash_arg (payment_hash h) ∧ is_number_arg (h_expiry h).
(** A state whose commitments can be built and spent. *)
Definition state_ok (i : Info) (s : State) : Prop :=
  is_u64 (st_n s) ∧ info_fee i ≤ bal_a s ≤ U64_MAX ∧ is_u64 (bal_b s) ∧ Forall htlc_ok (htlcs s).

#[export] Instance state_ok_dec i s : Decision (state_ok i s).
Proof. unfold state_ok, htlc_ok, is_hash_arg, is_number_arg. apply _. Defined.

(** An endpoint: its address is its side's, its key is bound to it and signs. *)
Record channel_ok (c : Channel) : Prop := {
  ok_addr_a : is_hash_arg (addr_a (info c));
  ok_addr_b : is_hash_arg (addr_b (info c));
  ok_local : local_address c = if is_a c then addr_a (info c) else addr_b (info c);
  ok_delay : is_number_arg (to_self_delay (info c));
  ok_fee : is_u64 (info_fee (info c));
  ok_funding : clean_item (funding_txid (info c)) ∧ 0 ≤ funding_vout (info c);
  ok_bind : address_binds_pubkey (local_address c) (infer_sig_scheme_from_pubkey_hex (local_public_key c))
              (local_public_key c) = Ok ();
  ok_sign : ∀ m, verify_message_signature_hybrid_uncached (local_public_key c) m (key_sign c m) = true;
}.

Context (c : Channel) (Hc : channel_ok c).

(** The peer's commitment to a state, and the parts of it. *)
Definition remote_commitment (rh : string) (s : State) : Transaction :=
  commitment_tx (info c) (negb (is_a c)) s rh.
Definition theirs (s : State) : Z := if is_a c then bal_b s else bal_a s - info_fee (info c).
Definition mine (s : State) : Z := if is_a c then bal_a s - info_fee (info c) else bal_b s.
Definition their_script (rh : string) : string :=
  to_local_script (remote_address c) (local_address c) rh (to_self_delay (info c)).

Lemma remote_commitment_outputs rh s :
  state_ok (info c) s →
  outputs (remote_commitment rh s) =
    (if theirs s =? 0 then [] else [mkTxOutput (script_address (their_script rh)) (theirs s)]) ++
    (if mine s =? 0 then [] else [mkTxOutput (local_address c) (mine s)]) ++
    ((λ h, mkTxOutput (script_address (penalty_htlc_script c rh h)) (h_amount h)) <$> htlcs s).
Proof.
  intros (_ & Ha & _ & _). pose proof (ok_fee c Hc) as Hfee. unfold is_u64 in Hfee.
  unfold remote_commitment, commitment_tx, theirs, mine, their_script, remote_address. cbn [outputs].
  rewrite (u64_small (bal_a s - _)) by (unfold is_u64; lia).
  unfold htlc_output, penalty_htlc_script. rewrite (ok_local c Hc). destruct (is_a c); reflexivity.
Qed.

Lemma local_not_script t : sha3_512_digests → script_address t ≠ local_address c.
Proof.
  intros Hd E. apply (f_equal String.length) in E. unfold script_address in E.
  rewrite str_length_app in E.
  change (to_hex (sha3_512_bytes ("ADD/script/v1|" +:+ t))) with (strong_hash ("ADD/script/v1|" +:+ t)) in E.
  rewrite strong_hash_length in E by done. rewrite (ok_local c Hc) in E.
  destruct (is_a c); [rewrite (proj1 (ok_addr_a c Hc)) in E|rewrite (proj1 (ok_addr_b c Hc)) in E]; discriminate.
Qed.

(** ** What [penalty_for] collects *)

Lemma find_fresh_app addr taken i pre o post :
  (∀ j x, pre !! j = Some x → (i + j)%nat ∈ taken ∨ recipient x ≠ addr) →
  recipient o = addr → (i + length pre)%nat ∉ taken →
  find_fresh addr taken i (pre ++ o :: post) = Some (i + length pre)%nat.
Proof.
  revert i. induction pre as [|x pre IH]; intros i Hpre Ho Hn; cbn [app find_fresh length] in *.
  - rewrite Nat.add_0_r in *. by rewrite bool_decide_false, Ho, String.eqb_refl.
  - assert (Hx : negb (bool_decide (i ∈ taken)) && String.eqb (recipient x) addr = false).
    { destruct (Hpre 0%nat x eq_refl) as [Hi|Hr]; rewrite ?Nat.add_0_r in *.
      - by rewrite bool_decide_true.
      - by rewrite (proj2 (String.eqb_neq _ _) Hr), andb_false_r. }
    rewrite Hx, IH; [f_equal; lia| |done|].
    + intros j y Hj. destruct (Hpre (S j) y Hj) as [H|H]; [left|by right].
      by replace (S i + j)%nat with (i + S j)%nat by lia.
    + by replace (S i + length pre)%nat with (i + S (length pre))%nat by lia.
Qed.

(** The HTLC outputs from position [k] on, with their scripts. *)
Definition htlc_positions (rh : string) (k : nat) (hs : list Htlc) : list (nat * string) :=
  imap (λ j h, ((k + j)%nat, penalty_htlc_script c rh h)) hs.

Lemma htlc_positions_fst rh k hs : (htlc_positions rh k hs).*1 = seq k (length hs).
Proof.
  unfold htlc_positions. revert k. induction hs as [|h hs IH]; intros k; [done|].
  rewrite imap_cons. cbn [fmap list_fmap fst length seq]. rewrite Nat.add_0_r. f_equal.
  rewrite <-IH. f_equal. apply imap_ext. intros j x _. cbn. f_equal. lia.
Qed.
Lemma htlc_positions_snoc rh k hs h :
  htlc_positions rh k (hs ++ [h]) = htlc_positions rh k hs ++ [((k + length hs)%nat, penalty_htlc_script c rh h)].
Proof. unfold htlc_positions. rewrite imap_app. cbn. by rewrite Nat.add_0_r. Qed.

Lemma penalty_htlcs_positions rh b outs0 pre done todo :
  let out h := mkTxOutput (script_address (penalty_htlc_script c rh h)) (h_amount h) in
  outputs b = pre ++ (out <$> done ++ todo) →
  (∀ v, v ∈ outs0.*1 → (v < length pre)%nat) →
  (∀ j x, pre !! j = Some x → j ∈ outs0.*1 ∨ ∀ h, recipient x ≠ script_address (penalty_htlc_script c rh h)) →
  penalty_htlcs c rh b (outs0 ++ htlc_positions rh (length pre) done) todo =
  outs0 ++ htlc_positions rh (length pre) (done ++ todo).
Proof.
  intros out Hb Hlt Hpre. revert done Hb. induction todo as [|h todo IH]; intros done Hb.
  { cbn. by rewrite app_nil_r. }
  cbn [penalty_htlcs foldl]. set (k := (length pre + length done)%nat).
  assert (Hf : find_fresh (script_address (penalty_htlc_script c rh h))
    (outs0 ++ htlc_positions rh (length pre) done).*1 0 (outputs b) = Some k).
  { assert (Hk : k = (0 + length (pre ++ (out <$> done)))%nat)
      by (unfold k; rewrite length_app, length_fmap; lia).
    assert (Hb' : outputs b = (pre ++ (out <$> done)) ++ out h :: (out <$> todo))
      by (rewrite Hb, fmap_app, <-app_assoc; reflexivity).
    rewrite Hb', Hk, fmap_app, htlc_positions_fst. apply find_fresh_app.
    - intros j x Hj. cbn [Nat.add]. rewrite elem_of_app, elem_of_seq.
      destruct (decide (j < length pre)%nat) as [Hl|Hl].
      + rewrite lookup_app_l in Hj by done. destruct (Hpre j x Hj) as [H|H]; auto.
      + left. right. apply lookup_lt_Some in Hj. rewrite length_app, length_fmap in Hj. lia.
    - reflexivity.
    - rewrite elem_of_app, elem_of_seq, length_app, length_fmap. intros [H%Hlt|H]; lia. }
  rewrite Hf, <-app_assoc, <-htlc_positions_snoc.
  replace (done ++ h :: todo) with ((done ++ [h]) ++ todo) by by rewrite <-app_assoc.
  apply IH. by rewrite <-app_assoc.
Qed.

Lemma find_recipient_None addr i outs :
  (∀ o, o ∈ outs → recipient o ≠ addr) → find_recipient addr i outs = None.
Proof.
  revert i. induction outs as [|o outs IH]; intros i H; [done|]. cbn.
  rewrite (proj2 (String.eqb_neq _ _)) by (apply H; left). apply IH. intros x Hx. apply H. by right.
Qed.

(** The strings hashed for the scripts of the peer's commitment. *)
Definition script_hashed (rh : string) (s : State) : list string :=
  ("ADD/script/v1|" +:+ their_script rh) ::
  ((λ h, "ADD/script/v1|" +:+ penalty_htlc_script c rh h) <$> htlcs s).

Lemma remote_address_shape : is_hash_arg (remote_address c) ∧ is_hash_arg (local_address c).
Proof.
  rewrite (ok_local c Hc). unfold remote_address. pose proof (ok_addr_a c Hc). pose proof (ok_addr_b c Hc).
  by destruct (is_a c).
Qed.
Lemma their_script_node rh :
  is_hash_arg rh →
  let n := to_local_node (remote_address c) (local_address c) rh (to_self_delay (info c)) in
  their_script rh = print n ∧ script_wf n.
Proof.
  intros Hr. destruct remote_address_shape as [H1 H2]. split; [apply to_local_print|].
  apply to_local_wf; [done..|apply (ok_delay c Hc)].
Qed.
Lemma htlc_script_node rh h :
  is_hash_arg rh → htlc_ok h →
  let i := info c in
  let n := htlc_node (local_address c) (if offered_by_a h then addr_a i else addr_b i)
             (if offered_by_a h then addr_b i else addr_a i) rh (payment_hash h) (h_expiry h) in
  penalty_htlc_script c rh h = print n ∧ script_wf n.
Proof.
  intros Hr (_ & Hp & He). destruct remote_address_shape as [_ H2]. split; [apply htlc_print|].
  pose proof (ok_addr_a c Hc). pose proof (ok_addr_b c Hc). by destruct (offered_by_a h); apply htlc_wf.
Qed.

(** A to-local address is not that of an HTLC. *)
Lemma their_script_apart rh s h :
  is_hash_arg rh → htlc_ok h → h ∈ htlcs s → collision_free (.∈ script_hashed rh s) →
  script_address (penalty_htlc_script c rh h) ≠ script_address (their_script rh).
Proof.
  intros Hr Hh Hin Hcf E. apply script_address_commits in E.
  - destruct (their_script_node rh Hr) as [H1 W1]. destruct (htlc_script_node rh h Hr Hh) as [H2 W2].
    rewrite H1, H2 in E. apply (f_equal parse) in E. rewrite !parse_print in E by done. discriminate.
  - apply (collision_free_mono _ (.∈ script_hashed rh s)); [|done]. intros x Hx. unfold script_hashed.
    rewrite elem_of_cons, list_elem_of_fmap. apply elem_of_cons in Hx as [->|Hx]; [right; by exists h|].
    apply list_elem_of_singleton in Hx as ->. by left.
Qed.

Definition base (s : State) : nat := ((if (theirs s =? 0)%Z then 0 else 1) + (if (mine s =? 0)%Z then 0 else 1))%nat.

(** Exactly the outputs that do not pay the victim, with their scripts. *)
Lemma penalty_outputs_exact rh s b :
  sha3_512_digests → is_hash_arg rh → state_ok (info c) s → outputs b = outputs (remote_commitment rh s) →
  collision_free (.∈ script_hashed rh s) →
  penalty_outputs c rh b s =
    (if theirs s =? 0 then [] else [(0%nat, their_script rh)]) ++ htlc_positions rh (base s) (htlcs s).
Proof.
  intros Hd Hr Hs Hb Hcf. rewrite remote_commitment_outputs in Hb by done.
  unfold penalty_outputs. fold (their_script rh).
  set (first := if theirs s =? 0 then [] else [mkTxOutput (script_address (their_script rh)) (theirs s)]) in Hb.
  set (second := if mine s =? 0 then [] else [mkTxOutput (local_address c) (mine s)]) in Hb.
  assert (Hfo : option_list (find_output b (their_script rh)) =
                if theirs s =? 0 then [] else [(0%nat, their_script rh)]).
  { unfold find_output. rewrite Hb. unfold first. destruct (theirs s =? 0).
    - rewrite find_recipient_None; [done|]. intros o. rewrite app_nil_l, elem_of_app.
      intros [Ho|Ho].
      + unfold second in Ho. destruct (mine s =? 0); [by apply elem_of_nil in Ho|].
        apply list_elem_of_singleton in Ho as ->. cbn. intros E. symmetry in E. by apply local_not_script in E.
      + apply list_elem_of_fmap in Ho as (h & -> & Hh). cbn.
        destruct Hs as (_ & _ & _ & Hhs). rewrite Forall_forall in Hhs. apply (their_script_apart rh s); auto.
    - cbn [app find_recipient recipient]. by rewrite String.eqb_refl. }
  rewrite Hfo. rewrite <-(app_nil_r (if theirs s =? 0 then [] else _)) at 1.
  assert (Hpre : length (first ++ second) = base s).
  { unfold first, second, base. rewrite length_app. by destruct (theirs s =? 0), (mine s =? 0). }
  rewrite <-Hpre. change ([] : list (nat * string)) with (htlc_positions rh (length (first ++ second)) []) at 2.
  rewrite <-(app_nil_l (htlcs s)) at 2. apply (penalty_htlcs_positions rh b _ (first ++ second) [] (htlcs s)).
  - by rewrite Hb, app_assoc.
  - unfold first. intros v. rewrite length_app. destruct (theirs s =? 0); cbn; set_solver by lia.
  - intros j x Hj. unfold first, second in Hj. destruct (theirs s =? 0), (mine s =? 0); cbn [app] in Hj.
    + done.
    + right. intros h E. destruct j; [|done]. injection Hj as <-. symmetry in E. by apply local_not_script in E.
    + left. destruct j; [|done]. cbn. set_solver.
    + destruct j as [|[|j]]; [left; cbn; set_solver| |done].
      right. intros h E. injection Hj as <-. symmetry in E. by apply local_not_script in E.
Qed.

(** ** The justice transaction *)

Definition pays_victim (o : TxOutput) : Prop := recipient o = local_address c.
#[export] Instance pays_victim_dec o : Decision (pays_victim o).
Proof. unfold pays_victim. apply _. Defined.
(** What the peer's commitment does not give back to the victim. *)
Definition takeable (b : Transaction) : Z := list_sum amount (filter (λ o, ¬ pays_victim o) (outputs b)).

(** An entry of the collection: an output of [b] under a script with the revocation
    branch. *)
Definition collected (rh : string) (b : Transaction) (vs : nat * string) : Prop :=
  ∃ o n rest, outputs b !! vs.1 = Some o ∧ recipient o = script_address vs.2 ∧ vs.2 = print n ∧ script_wf n ∧
    n = Or (And (Pk (local_address c)) (Sha3 rh)) rest.

Lemma filter_victim {A} (f : A → TxOutput) (l : list A) :
  (∀ x, x ∈ l → ¬ pays_victim (f x)) → filter (λ o, ¬ pays_victim o) (f <$> l) = f <$> l.
Proof.
  induction l as [|x l IH]; intros H; [done|]. rewrite fmap_cons, filter_cons_True by (apply H; left).
  f_equal. apply IH. intros y Hy. apply H. by right.
Qed.

Lemma collection_spec rh s b :
  sha3_512_digests → is_hash_arg rh → state_ok (info c) s → outputs b = outputs (remote_commitment rh s) →
  collision_free (.∈ script_hashed rh s) →
  let outs := penalty_outputs c rh b s in
  NoDup outs.*1 ∧ Forall (collected rh b) outs ∧
  (∀ v o, outputs b !! v = Some o → pays_victim o ∨ v ∈ outs.*1) ∧
  (λ vs, output_amount b vs.1) <$> outs = amount <$> filter (λ o, ¬ pays_victim o) (outputs b).
Proof.
  intros Hd Hr Hs Hb Hcf outs. unfold outs. rewrite (penalty_outputs_exact rh s b) by done.
  rewrite remote_commitment_outputs in Hb by done.
  assert (Hho : Forall htlc_ok (htlcs s)) by apply Hs.
  assert (Hv : ∀ t a, ¬ pays_victim (mkTxOutput (script_address t) a)) by (intros t a; by apply local_not_script).
  set (hout := λ h, mkTxOutput (script_address (penalty_htlc_script c rh h)) (h_amount h)) in *.
  assert (Hfst : ((if theirs s =? 0 then [] else [(0%nat, their_script rh)]) ++ htlc_positions rh (base s) (htlcs s)).*1
    = (if (theirs s =? 0)%Z then [] else [0%nat]) ++ seq (base s) (length (htlcs s))).
  { rewrite fmap_app, htlc_positions_fst. by destruct (theirs s =? 0). }
  assert (Hh : ∀ j h, htlcs s !! j = Some h → outputs b !! (base s + j)%nat = Some (hout h)).
  { intros j h Hj. transitivity ((hout <$> htlcs s) !! j); [|by rewrite list_lookup_fmap, Hj].
    rewrite Hb. unfold base. by destruct (theirs s =? 0), (mine s =? 0). }
  split_and!.
  - rewrite Hfst. apply NoDup_app. split_and!; [destruct (theirs s =? 0); repeat constructor; set_solver| |apply NoDup_seq].
    unfold base. destruct (theirs s =? 0); [set_solver|]. intros x ->%list_elem_of_singleton. rewrite elem_of_seq. lia.
  - apply Forall_app. split.
    + destruct (theirs s =? 0) eqn:E; constructor; [|constructor]. destruct (their_script_node rh Hr) as [H1 W1].
      eexists _, _, _. split_and!; [by rewrite Hb|reflexivity|exact H1|exact W1|reflexivity].
    + apply Forall_lookup. intros j vs Hj. unfold htlc_positions in Hj. rewrite list_lookup_imap in Hj.
      destruct (htlcs s !! j) as [h|] eqn:E; [|done]. injection Hj as <-.
      rewrite Forall_lookup in Hho. destruct (htlc_script_node rh h Hr (Hho j h E)) as [H1 W1].
      eexists _, _, _. split_and!; [by apply Hh|reflexivity|exact H1|exact W1|reflexivity].
  - intros v o Hvo. rewrite Hfst, elem_of_app, elem_of_seq. rewrite Hb in Hvo. unfold base, hout in *.
    destruct (theirs s =? 0), (mine s =? 0); cbn [app] in Hvo.
    + right; right. apply lookup_lt_Some in Hvo. rewrite length_fmap in Hvo. lia.
    + destruct v as [|v]; [left; by injection Hvo as <-|].
      right; right. apply lookup_lt_Some in Hvo. cbn in Hvo. rewrite length_fmap in Hvo. lia.
    + destruct v as [|v]; [right; left; set_solver|].
      right; right. apply lookup_lt_Some in Hvo. cbn in Hvo. rewrite length_fmap in Hvo. lia.
    + destruct v as [|[|v]]; [right; left; set_solver|left; by injection Hvo as <-|].
      right; right. apply lookup_lt_Some in Hvo. cbn in Hvo. rewrite length_fmap in Hvo. lia.
  - assert (Hhs : (λ vs, output_amount b vs.1) <$> htlc_positions rh (base s) (htlcs s) = h_amount <$> htlcs s).
    { apply list_eq. intros j. rewrite !list_lookup_fmap. unfold htlc_positions. rewrite list_lookup_imap.
      destruct (htlcs s !! j) as [h|] eqn:E; [|done]. cbn. f_equal. unfold output_amount. by rewrite (Hh j h E). }
    rewrite fmap_app, Hhs, Hb, !filter_app, !fmap_app. unfold hout.
    rewrite filter_victim by (intros h _; apply Hv). rewrite <-list_fmap_compose.
    assert (Hm : filter (λ o, ¬ pays_victim o) (if mine s =? 0 then [] else [mkTxOutput (local_address c) (mine s)]) = []).
    { destruct (mine s =? 0); [done|]. rewrite filter_cons_False; [done|]. intros H. by apply H. }
    rewrite Hm. f_equal. destruct (theirs s =? 0); [done|]. rewrite filter_cons_True by apply Hv.
    cbn. unfold output_amount. by rewrite Hb.
Qed.

Lemma print_free n : node_wf n → free_of ";" (print n) = true.
Proof.
  assert (Ha : ∀ a, is_atom a → free_of ";" a = true).
  { intros a [_ H]. apply (all_chars_free _ is_atom_char); [done|]. intros d Hd. apply Ascii.eqb_neq. by intros <-. }
  induction n as [a|a|m|m|x IHx y IHy|x IHx y IHy]; cbn [node_wf print]; intros H; rewrite !free_of_app.
  - by rewrite (Ha a H).
  - by rewrite (Ha a (hash_arg_atom a H)).
  - by rewrite (Ha _ (to_string_atom m)).
  - by rewrite (Ha _ (to_string_atom m)).
  - destruct H. by rewrite IHx, IHy by done.
  - destruct H. by rewrite IHx, IHy by done.
Qed.

Lemma hash_unsigned tx1 tx2 : unsigned tx1 = unsigned tx2 → hash_transaction tx1 = hash_transaction tx2.
Proof.
  intros H. unfold hash_transaction, tx_preimage.
  rewrite <-(input_preimage_strip (inputs tx1)), <-(input_preimage_strip (inputs tx2)).
  unfold unsigned in H. injection H as Hi Ho Hs Hp Hf Hn Hsh. by rewrite Hi, Ho, Hs, Hp, Hf, Hn, Hsh.
Qed.

Lemma remote_commitment_clean rh s : sha3_512_digests → state_ok (info c) s → tx_clean (remote_commitment rh s).
Proof.
  intros Hd Hs. pose proof (ok_funding c Hc) as [Hf Hv]. pose proof (ok_fee c Hc) as Hfee.
  assert (Hsc : ∀ t, clean_item (script_address t)).
  { intros t. unfold script_address. split; unfold free_of; rewrite all_chars_app; apply andb_true_intro; split; [done| |done|];
      (apply (all_chars_free _ is_hex_char); [apply bytes_to_hex_chars|]); intros d Hx; by apply hex_char_not. }
  assert (Hloc : clean_item (local_address c)).
  { destruct remote_address_shape as [_ [_ H]].
    split; apply (all_chars_free _ is_lower_hex_char); try done; intros d Hx; apply Ascii.eqb_neq; by intros <-. }
  pose proof Hs as ([Hn _] & [Ha _] & [Hb _] & Hh). unfold tx_clean. rewrite remote_commitment_outputs by done.
  assert (Hth : 0 ≤ theirs s ∧ 0 ≤ mine s) by (unfold theirs, mine, is_u64 in *; destruct (is_a c); lia).
  cbn [remote_commitment commitment_tx inputs signer signer_pubkey fee nonce].
  split_and!; [constructor; [by split_and!|constructor]| |done|done|apply Hfee|done].
  rewrite !Forall_app. split_and!.
  - destruct (theirs s =? 0); constructor; [split; [apply Hsc|apply Hth]|constructor].
  - destruct (mine s =? 0); constructor; [split; [apply Hloc|apply Hth]|constructor].
  - apply Forall_fmap. eapply Forall_impl; [exact Hh|]. intros h (H1 & _). split; [apply Hsc|cbn; lia].
Qed.

(** The strings hashed when a commitment is recognised and its outputs are found. *)
Definition penalty_hashed (b : Transaction) (rh : string) : list string :=
  candidates c (nonce b) ≫= λ s, txid_hashed (remote_commitment rh s) ++ script_hashed rh s.

(** The candidate that is found has the outputs of the broadcast commitment. *)
Lemma candidate_found rh s b :
  sha3_512_digests → s ∈ candidates c (nonce b) → Forall (state_ok (info c)) (candidates c (nonce b)) →
  unsigned b = unsigned (remote_commitment rh s) → collision_free (.∈ penalty_hashed b rh) →
  ∃ s', head (filter (λ s, hash_transaction (remote_commitment rh s) = hash_transaction b) (candidates c (nonce b)))
          = Some s' ∧
    s' ∈ candidates c (nonce b) ∧ outputs b = outputs (remote_commitment rh s').
Proof.
  intros Hd Hin Hok Hb Hcf. apply hash_unsigned in Hb as Hh.
  assert (Hf : s ∈ filter (λ s, hash_transaction (remote_commitment rh s) = hash_transaction b) (candidates c (nonce b)))
    by by apply list_elem_of_filter.
  destruct (filter _ _) as [|s' l] eqn:El; [by apply elem_of_nil in Hf|].
  assert (Hs' : s' ∈ s' :: l) by left. rewrite <-El in Hs'. apply list_elem_of_filter in Hs' as [Hh' Hin'].
  exists s'. split_and!; [done|done|]. rewrite Forall_forall in Hok.
  assert (Hu : unsigned (remote_commitment rh s') = unsigned (remote_commitment rh s)).
  { apply hash_transaction_commits; [by apply remote_commitment_clean; auto..| |congruence].
    eapply collision_free_mono; [|exact Hcf]. intros x Hx. unfold penalty_hashed. apply list_elem_of_bind.
    apply elem_of_app in Hx as [Hx|Hx]; [exists s'|exists s]; (split; [by apply elem_of_app; left|done]). }
  apply (f_equal outputs) in Hu, Hb. cbn [unsigned outputs] in Hu, Hb. congruence.
Qed.

Lemma justice_inputs b sec outs total :
  inputs (justice_tx c b sec outs total) =
  (λ vs, mkTxInput (hash_transaction b) (Z.of_nat vs.1)
           (encode_witness (mkWitness vs.2
              [(local_public_key c, key_sign c (sighash (justice_tx c b sec outs total)))] [sec]))) <$> outs.
Proof.
  unfold justice_tx at 1. cbn [inputs set_witnesses]. rewrite zip_with_fmap_l, zip_with_fmap_r, zip_with_diag.
  apply list_fmap_ext. intros _ vs _. cbn. do 5 f_equal. unfold sign. f_equal. unfold sighash. f_equal.
  apply hash_unsigned. unfold unsigned, justice_tx, set_witnesses. cbn [inputs outputs signer signer_pubkey fee nonce shielded].
  f_equal. rewrite zip_with_fmap_l, zip_with_fmap_r, zip_with_diag, <-!list_fmap_compose. by apply list_fmap_ext.
Qed.

(** The total that the loop adds up. *)
Lemma penalty_total b outs :
  (λ vs : nat * string, output_amount b vs.1) <$> outs = amount <$> filter (λ o, ¬ pays_victim o) (outputs b) →
  (∀ o, o ∈ outputs b → 0 ≤ amount o) → takeable b ≤ U64_MAX →
  foldl (λ t (vs : nat * string), u64 (t + output_amount b vs.1)) 0 outs = takeable b.
Proof.
  intros Hamt Hnn Hmax. unfold takeable in *. set (l := filter _ _) in *.
  assert (Hl : ∀ o, o ∈ l → 0 ≤ amount o) by (intros o [_ Ho]%list_elem_of_filter; auto). clearbody l.
  assert (H : ∀ outs l t, (λ vs : nat * string, output_amount b vs.1) <$> outs = amount <$> l →
    (∀ o, o ∈ l → 0 ≤ amount o) → 0 ≤ t → t + list_sum amount l ≤ U64_MAX →
    foldl (λ t vs, u64 (t + output_amount b vs.1)) t outs = t + list_sum amount l).
  { clear. induction outs as [|vs outs IH]; intros [|o l] t Heq Hl Ht Hm; cbn in Heq; try discriminate Heq; [cbn; lia|].
    cbn [foldl]. rewrite list_sum_cons in *. injection Heq as Hx Heq.
    assert (0 ≤ amount o) by (apply Hl; left).
    assert (0 ≤ list_sum amount l) by (apply list_sum_nonneg; intros y Hy; apply Hl; by right).
    rewrite Hx, u64_small by (unfold is_u64; lia). rewrite (IH l) by (lia || done || (intros y Hy; apply Hl; by right)).
    lia. }
  rewrite (H outs l 0 Hamt Hl) by lia. lia.
Qed.

(** C12. A revoked commitment is punished. If the peer broadcasts its commitment to a state
    it signed off on and whose revocation secret it revealed, the penalty transaction
    exists, spends every output of the commitment that does not already pay the victim,
    each exactly once, each with a witness its script accepts at any height, and pays
    all of it but the fee to the victim. *)
Theorem revoked_commitment_punished sec s b :
  let rh := hash_preimage_hex sec in
  sha3_512_digests → is_hash_arg rh → is_lower_hex_max sec (2 * kMaxPreimageBytes) = true →
  remote_secrets c !! nonce b = Some sec → remote_hashes c !! nonce b = Some rh →
  s ∈ candidates c (nonce b) → Forall (state_ok (info c)) (candidates c (nonce b)) →
  unsigned b = unsigned (remote_commitment rh s) → collision_free (.∈ penalty_hashed b rh) →
  info_fee (info c) < takeable b ≤ U64_MAX →
  ∃ t, penalty_for c b = Some t ∧
    outputs t = [mkTxOutput (local_address c) (takeable b - info_fee (info c))] ∧
    fee t = info_fee (info c) ∧ NoDup (output_index <$> inputs t) ∧
    (∀ v o, outputs b !! v = Some o → recipient o ≠ local_address c → Z.of_nat v ∈ output_index <$> inputs t) ∧
    ∀ i, i ∈ inputs t → previous_txid i = hash_transaction b ∧
      ∃ o, outputs b !! Z.to_nat (output_index i) = Some o ∧
        ∀ h uh, verify_input (recipient o) (witness i) (mkSpendContext (sighash t) h uh) = Ok ().
Proof.
  intros rh Hd Hr Hsec Hss Hhs Hin Hok Hb Hcf Htot.
  destruct (candidate_found rh s b Hd Hin Hok Hb Hcf) as (s' & Hhead & Hin' & Ho).
  assert (Hs' : state_ok (info c) s') by (rewrite Forall_forall in Hok; auto).
  destruct (collection_spec rh s' b) as (Hnd & Hcol & Hall & Hamt); [done..| |].
  { eapply collision_free_mono; [|exact Hcf]. intros x Hx. unfold penalty_hashed. apply list_elem_of_bind.
    exists s'. split; [by apply elem_of_app; right|done]. }
  set (outs := penalty_outputs c rh b s') in *.
  assert (Hne : outs ≠ []).
  { intros E. rewrite E in Hamt. unfold takeable in Htot. pose proof (ok_fee c Hc) as [? _].
    destruct (filter _ _); [cbn in Htot; lia|done]. }
  assert (Hnn : ∀ o, o ∈ outputs b → 0 ≤ amount o).
  { intros o Hoin. rewrite Ho in Hoin. destruct (remote_commitment_clean rh s' Hd Hs') as (_ & Hcl & _).
    rewrite Forall_forall in Hcl. by apply Hcl. }
  pose proof (penalty_total b outs Hamt Hnn ltac:(lia)) as Ht.
  exists (justice_tx c b sec outs (takeable b)). split_and!.
  - unfold penalty_for. rewrite Hss, Hhs. cbn [mbind option_bind]. fold rh.
    change (head _) with (head (filter (λ s, hash_transaction (remote_commitment rh s) = hash_transaction b)
      (candidates c (nonce b)))). rewrite Hhead. cbn [mbind option_bind]. fold outs.
    rewrite bool_decide_false by done. rewrite Ht. by destruct (Z.leb_spec (takeable b) (info_fee (info c))); [lia|].
  - reflexivity.
  - reflexivity.
  - rewrite justice_inputs, <-list_fmap_compose. change (output_index ∘ _) with (Z.of_nat ∘ @fst nat string).
    rewrite list_fmap_compose. apply NoDup_fmap_2; [apply _|done].
  - intros v o Hv Hp. destruct (Hall v o Hv) as [|Hvin]; [done|].
    rewrite justice_inputs, <-list_fmap_compose. change (output_index ∘ _) with (Z.of_nat ∘ @fst nat string).
    rewrite list_fmap_compose. by apply list_elem_of_fmap_2.
  - intros i Hi. rewrite justice_inputs in Hi. apply list_elem_of_fmap in Hi as (vs & -> & Hvs).
    split; [done|]. rewrite Forall_forall in Hcol. destruct (Hcol vs Hvs) as (o & n & rest & Hov & Hrec & Hpr & Hwf & Hn).
    exists o. cbn [output_index witness]. rewrite Nat2Z.id. split; [done|]. intros h uh. rewrite Hrec, Hpr. subst n.
    eapply revocation_branch_opens; [done|done| |apply (ok_bind c Hc)|apply (ok_sign c Hc)|reflexivity|done].
    apply print_free, Hwf.
Qed.
End penalty.
