(* ===== verification/ChannelProofs.v ===== *)
(** * The update protocol between two honest endpoints

    Two linked endpoints hold the same state, know each other's revocation hashes and
    every revoked secret, and conserve the capacity. Each driver keeps them linked;
    a route either pays every hop or leaves every balance as it was. *)
From S2P Require Import Prelude Strings Lines Crypto Types Wire WireProofs Block Script ScriptProofs.
From S2P Require Import Channel ChannelPenalty.

(** ** States that conserve the capacity *)

Definition locked (s : State) : Z := list_sum h_amount (htlcs s).
(** Amounts are in range, so that no sum wraps; identifiers are fresh. *)
Record sound (i : Info) (s : State) : Prop := {
  s_total : bal_a s + bal_b s + locked s = capacity i;
  s_a : 0 ≤ info_fee i ≤ bal_a s;
  s_b : 0 ≤ bal_b s;
  s_cap : is_u64 (capacity i);
  s_htlcs : Forall (λ h, 0 < h_amount h ∧ String.length (payment_hash h) = 128%nat ∧ h_id h < next_htlc_id s) (htlcs s);
}.

(** The state without the shape of the payment hashes, as [validate_next] sees it first. *)
Record balanced (i : Info) (s : State) : Prop := {
  b_total : bal_a s + bal_b s + locked s = capacity i;
  b_a : 0 ≤ info_fee i ≤ bal_a s;
  b_b : 0 ≤ bal_b s;
  b_cap : is_u64 (capacity i);
  b_htlcs : Forall (λ h, 0 < h_amount h) (htlcs s);
}.
Lemma sound_balanced i s : sound i s → balanced i s.
Proof. intros [Ht Ha Hb Hc Hf]. split; try done. eapply Forall_impl; [exact Hf|]. cbn. lia. Qed.

Lemma locked_nonneg i s : balanced i s → 0 ≤ locked s.
Proof.
  intros H. apply list_sum_nonneg. intros h Hh. pose proof (b_htlcs i s H) as Hf.
  rewrite Forall_forall in Hf. specialize (Hf h Hh). lia.
Qed.

Lemma htlc_sum_locked s :
  Forall (λ h, 0 < h_amount h) (htlcs s) → is_u64 (locked s) → htlc_sum s = locked s.
Proof.
  unfold htlc_sum, locked. intros Hf Hu.
  assert (H : ∀ hs t, Forall (λ h, 0 < h_amount h) hs → 0 ≤ t → t + list_sum h_amount hs < W64 →
    foldl (λ t h, u64 (t + h_amount h)) t hs = t + list_sum h_amount hs).
  { clear. induction hs as [|h hs IH]; intros t Hf Ht Hm; [cbn; lia|]. inversion_clear Hf as [|?? Hh Hf'].
    cbn [foldl]. rewrite list_sum_cons in *.
    assert (0 ≤ list_sum h_amount hs).
    { apply list_sum_nonneg. intros x Hx. rewrite Forall_forall in Hf'. specialize (Hf' x Hx). lia. }
    rewrite u64_small by (unfold is_u64; lia). rewrite IH; [lia|done|lia|lia]. }
  unfold is_u64 in Hu. rewrite H; [lia|done|lia|lia].
Qed.

Lemma balanced_bounds i s : balanced i s → is_u64 (bal_a s) ∧ is_u64 (bal_b s) ∧ is_u64 (locked s).
Proof.
  intros H. pose proof (locked_nonneg i s H). destruct H as [Ht Ha Hb [Hc1 Hc2] _]. unfold is_u64. lia.
Qed.
Lemma htlc_sum_balanced i s : balanced i s → htlc_sum s = locked s.
Proof.
  intros H. apply htlc_sum_locked; [exact (b_htlcs i s H)|]. by destruct (balanced_bounds i s H) as (?&?&?).
Qed.

Section linked.
Context {C : Crypto}.

(** ** Linked endpoints *)

(** What [p] knows of [q]. *)
Record knows (p q : Channel) : Prop := {
  k_info : info q = info p;
  k_side : is_a q = negb (is_a p);
  k_pub : remote_pub p = local_public_key q;
  k_cur : cur q = cur p;
  k_pending : pending p = None;
  k_sign : ∀ m, verify_message_signature_hybrid_uncached (local_public_key p) m (key_sign p m) = true;
  k_hashes : ∀ k, 0 ≤ k ≤ st_n (cur p) + 1 → remote_hashes p !! k = Some (rev_hash q k);
  k_secrets : ∀ k, 0 ≤ k < st_n (cur p) →
    remote_secrets p !! k = Some (rev_secret q k) ∧ ∃ s, history p !! k = Some s ∧ st_n s = k ∧ sound (info p) s;
}.
Record linked (p q : Channel) : Prop := {
  l_pq : knows p q;
  l_qp : knows q p;
  l_sound : sound (info p) (cur p);
  l_n : 0 ≤ st_n (cur p);
}.
Lemma linked_sym p q : linked p q → linked q p.
Proof. intros [Hpq Hqp Hs Hn]. pose proof (k_info p q Hpq). pose proof (k_cur p q Hpq). split; try done; congruence. Qed.

Lemma rev_hash_length c n : sha3_512_digests → String.length (rev_hash c n) = 128%nat.
Proof.
  intros Hd. unfold rev_hash, hash_preimage_hex, rev_secret, to_hex.
  rewrite hex_to_bytes_to_hex.
  - change (bytes_to_hex (sha3_512_bytes ?x)) with (strong_hash x). by apply strong_hash_length.
  - intros E. pose proof (Hd ("ADD/chan/rev|" +:+ seed c +:+ "|" +:+ to_string n)) as Hl.
    unfold sha3_512_bytes in E. by rewrite E in Hl.
  - unfold sha3_512_bytes. rewrite Hd. apply Nat.leb_le. reflexivity.
Qed.

(** The state an update leads to. *)
Definition advance (c : Channel) (next : State) (sg secret_n : string) (hash : string) : Channel :=
  let n := st_n (cur c) in
  mkChannel (local_address c) (local_public_key c) (key_sign c) (remote_pub c) (is_a c) (info c) (seed c)
    next None sg None (<[n + 2 := hash]> (remote_hashes c)) (<[n := secret_n]> (remote_secrets c))
    (<[n := cur c]> (history c)) (abandoned c).

Lemma validate_next_sym p q next : linked p q → validate_next q next = validate_next p next.
Proof.
  intros [Hpq Hqp _ Hn]. unfold validate_next.
  rewrite (k_pending p q Hpq), (k_pending q p Hqp), (k_cur p q Hpq), (k_info p q Hpq).
  destruct (Z.eqb_spec (st_n next) (u64 (st_n (cur p) + 1))) as [E|]; [|done].
  assert (Hr : 0 ≤ st_n next ≤ st_n (cur p) + 1).
  { rewrite E. split; [apply u64_range|apply u64_le; lia]. }
  rewrite (k_hashes p q Hpq) by done. rewrite (k_hashes q p Hqp) by by rewrite (k_cur p q Hpq). done.
Qed.

(** The signatures that the update exchanges. *)
Definition commit_sig (p q : Channel) (next : State) : string :=
  key_sign p (sighash (commitment_tx (info p) (is_a q) next (rev_hash q (st_n next)))).

Lemma receive_linked p q next :
  linked p q → st_n next = st_n (cur p) + 1 → validate_next q next = Ok () →
  receive_commit_sig q next (sign_remote_commitment p next) =
  (set_states (cur q) (Some next) (remote_sig_cur q) (Some (commit_sig p q next)) (history q) (abandoned q) q, Ok ()).
Proof.
  intros [Hpq Hqp _ Hn] Hnext Hv. unfold receive_commit_sig, sign_remote_commitment, sign.
  rewrite (k_hashes p q Hpq) by lia. cbn [default cs_n cs_sig].
  rewrite (proj2 (Z.eqb_neq (st_n next) 0)) by lia. cbn [andb]. rewrite Hv, Z.eqb_refl. cbn [negb orb].
  rewrite (k_pub q p Hqp), (k_info p q Hpq), <-(k_side p q Hpq). by rewrite (k_sign p q Hpq).
Qed.

(** The revocation hash of a secret is what the peer stored, and the next one has its length. *)
Lemma receive_revoke_linked p q n :
  sha3_512_digests → remote_hashes q !! n = Some (rev_hash p n) → is_u64 (n + 2) →
  receive_revoke q (mkRevoke n (rev_secret p n) (rev_hash p (u64 (n + 2)))) =
  (set_remote (<[n + 2 := rev_hash p (n + 2)]> (remote_hashes q)) (<[n := rev_secret p n]> (remote_secrets q)) q, Ok ()).
Proof.
  intros Hd Hh Hn. unfold receive_revoke. cbn [revoked_n secret next_hash]. rewrite Hh.
  change (hash_preimage_hex (rev_secret p n)) with (rev_hash p n). rewrite String.eqb_refl. cbn [negb].
  rewrite rev_hash_length by done. by rewrite (u64_small (n + 2)).
Qed.

Definition advanced (p q : Channel) (next : State) : Channel :=
  let n := st_n (cur p) in advance p next (commit_sig q p next) (rev_secret q n) (rev_hash q (n + 2)).

Lemma rev_hash_advanced p q next k : rev_hash (advanced p q next) k = rev_hash p k.
Proof. reflexivity. Qed.
Lemma rev_secret_advanced p q next k : rev_secret (advanced p q next) k = rev_secret p k.
Proof. reflexivity. Qed.

Lemma knows_advanced p q next :
  linked p q → st_n next = st_n (cur p) + 1 → knows (advanced p q next) (advanced q p next).
Proof.
  intros [[] Hqp Hs Hn] Hnext. unfold advanced, advance. split; cbn; try done.
  - intros k Hk. rewrite Hnext in Hk. destruct (decide (k = st_n (cur p) + 2)) as [->|].
    + by rewrite lookup_insert_eq.
    + rewrite lookup_insert_ne by done. apply k_hashes0. lia.
  - intros k Hk. rewrite Hnext in Hk. destruct (decide (k = st_n (cur p))) as [->|].
    + rewrite !lookup_insert_eq. split; [done|]. by exists (cur p).
    + rewrite !lookup_insert_ne by done. apply k_secrets0. lia.
Qed.

Lemma linked_advanced p q next :
  linked p q → st_n next = st_n (cur p) + 1 → sound (info p) next → linked (advanced p q next) (advanced q p next).
Proof.
  intros Hl Hnext Hs. pose proof (k_cur p q (l_pq p q Hl)) as Hc. split.
  - by apply knows_advanced.
  - apply knows_advanced; [by apply linked_sym|congruence].
  - done.
  - cbn. pose proof (l_n p q Hl). lia.
Qed.

Lemma validate_next_number p next : validate_next p next = Ok () → st_n next = u64 (st_n (cur p) + 1).
Proof.
  unfold validate_next. intros H. destruct (bool_decide _); [done|]. cbn in H.
  destruct (Z.eqb_spec (st_n next) (u64 (st_n (cur p) + 1))); [done|]. done.
Qed.

Lemma revoke_pending c c1 next s1 sg h ab :
  let n := st_n c1 in
  revoke_and_advance (set_states c1 (Some next) s1 (Some sg) h ab c) =
  Some (set_states next None sg None (<[n := c1]> h) ab c,
        mkRevoke n (rev_secret c n) (rev_hash c (u64 (n + 2)))).
Proof. reflexivity. Qed.
Lemma set_remote_states hs ss c1 p s1 sp h ab c :
  set_remote hs ss (set_states c1 p s1 sp h ab c) = set_states c1 p s1 sp h ab (set_remote hs ss c).
Proof. reflexivity. Qed.

(** An update that [validate_next] accepts goes through; one it rejects changes nothing. *)
Lemma update_linked p q next :
  sha3_512_digests → linked p q → is_u64 (st_n (cur p) + 2) →
  update p q next =
    match validate_next p next with
    | Err e => Some (p, q, Err e)
    | Ok _ => Some (advanced p q next, advanced q p next, Ok ())
    end.
Proof.
  intros Hd Hl Hn. unfold update. rewrite (validate_next_sym p q) by done.
  destruct (validate_next p next) as [[]|e] eqn:Hv; [|done]. cbn [mbind result_bind].
  pose proof (l_n p q Hl) as Hn0.
  assert (Hnext : st_n next = st_n (cur p) + 1).
  { rewrite (validate_next_number p next Hv). apply u64_small. unfold is_u64 in *. lia. }
  assert (Hvq : validate_next q next = Ok ()) by by rewrite (validate_next_sym p q).
  pose proof (linked_sym p q Hl) as Hl'. pose proof (k_cur p q (l_pq p q Hl)) as Hcur.
  rewrite receive_linked by done.
  set (q1 := set_states _ _ _ _ _ _ q).
  change (sign_remote_commitment q1 next) with (sign_remote_commitment q next).
  rewrite receive_linked; [|done|congruence|done].
  rewrite revoke_pending. cbn [mbind option_bind].
  rewrite receive_revoke_linked; [|done| |done].
  2:{ change (remote_hashes q1) with (remote_hashes q).
      apply (k_hashes q p (l_qp p q Hl)). rewrite Hcur. lia. }
  unfold q1. rewrite set_remote_states, revoke_pending. cbn [mbind option_bind]. rewrite Hcur.
  rewrite (receive_revoke_linked q); [|done| |done].
  2:{ cbn. apply (k_hashes p q (l_pq p q Hl)). lia. }
  unfold advanced, advance. cbn. by rewrite Hcur.
Qed.

(** ** What validation decides on a state that conserves the capacity *)

Definition long_hash (h : Htlc) : bool := (String.length (payment_hash h) =? 128)%nat.

Lemma validate_balanced p q next :
  linked p q → is_u64 (st_n (cur p) + 2) → st_n next = st_n (cur p) + 1 → balanced (info p) next →
  validate_next p next =
    if (16 <? length (htlcs next))%nat then Err "too many htlcs"
    else if forallb long_hash (htlcs next) then Ok () else Err "bad htlc".
Proof.
  intros [Hpq _ _ Hn] Hw Hnext Hb. unfold validate_next. rewrite (k_pending p q Hpq).
  rewrite bool_decide_false by by intros [? ?].
  rewrite (u64_small (st_n (cur p) + 1)) by (unfold is_u64 in *; lia).
  rewrite Hnext, Z.eqb_refl, (k_hashes p q Hpq) by lia. cbn [negb].
  rewrite (bool_decide_false (Some _ = None)) by done.
  rewrite (proj2 (Z.ltb_ge (bal_a next) (info_fee (info p)))) by (pose proof (b_a _ _ Hb); lia).
  rewrite (htlc_sum_balanced (info p)) by done. pose proof (balanced_bounds _ _ Hb) as (?&?&?).
  pose proof (b_total _ _ Hb) as Ht. pose proof (b_cap _ _ Hb) as Hc. pose proof (locked_nonneg _ _ Hb).
  pose proof (b_a _ _ Hb). pose proof (b_b _ _ Hb).
  rewrite (u64_small (bal_a next + bal_b next)) by (unfold is_u64 in *; lia).
  rewrite Ht, (u64_small (capacity _)), Z.eqb_refl by done. cbn [negb].
  assert (Hbad : existsb htlc_bad (htlcs next) = negb (forallb long_hash (htlcs next))).
  { pose proof (b_htlcs _ _ Hb) as Hf. induction Hf as [|h hs Hh _ IH]; [done|]. cbn [existsb forallb].
    rewrite IH, negb_andb. f_equal. unfold htlc_bad. by rewrite (proj2 (Z.eqb_neq _ 0)) by lia. }
  rewrite Hbad. destruct (16 <? _)%nat; [done|]. by destruct (forallb _ _).
Qed.

(** ** The contract of the drivers

    One operation on the agreed state alone: exact integers, no signatures, no hashes. *)

Inductive Op :=
  | OPay (amt : Z)
  | OAdd (amt : Z) (ph : string) (exp : Z)
  | OSettle (id : Z) (preimage : string)
  | OFail (id : Z).

Definition driver (o : Op) (p q : Channel) : option (Channel * Channel * result ()) :=
  match o with
  | OPay amt => pay p q amt
  | OAdd amt ph exp => '(p, q, (_, r)) ← add_htlc p q amt ph exp; Some (p, q, r)
  | OSettle id preimage => settle_htlc p q id preimage
  | OFail id => fail_htlc p q id
  end.
(** The first endpoint of the pair acts, or the second one. *)
Definition run_op (first : bool) (o : Op) (p q : Channel) : option (Channel * Channel * result ()) :=
  if first then driver o p q else '(q, p, r) ← driver o q p; Some (p, q, r).

Definition credit (a : bool) (v : Z) (s : State) : State := set_bal a (bal s a + v) s.
Definition bump (s : State) : State :=
  mkState (st_n s + 1) (bal_a s) (bal_b s) (htlcs s) (next_htlc_id s).
Definition release (to_a : bool) (h : Htlc) (s : State) : State :=
  let s := credit to_a (h_amount h) (bump s) in set_htlcs (erase_htlc (h_id h) (htlcs s)) (next_htlc_id s) s.
Definition poor (i : Info) (a : bool) (amt : Z) (s : State) : bool :=
  (amt =? 0) || (bal s a <? amt + (if a then info_fee i else 0)).

Definition spec_next (i : Info) (a : bool) (o : Op) (s : State) : result State :=
  match o with
  | OPay amt =>
      reject_if poor i a amt s as "insufficient channel balance" ;;
      Ok (credit (negb a) amt (credit a (- amt) (bump s)))
  | OAdd amt ph exp =>
      reject_if poor i a amt s as "insufficient channel balance" ;;
      let s := credit a (- amt) (bump s) in
      Ok (set_htlcs (htlcs s ++ [mkHtlc (next_htlc_id s) a amt ph exp]) (next_htlc_id s + 1) s)
  | OSettle id preimage =>
      match find_htlc s id with
      | Some h =>
          if String.eqb (hash_preimage_hex preimage) (payment_hash h) then Ok (release (negb (offered_by_a h)) h s)
          else Err "bad preimage"
      | None => Err "bad preimage"
      end
  | OFail id =>
      match find_htlc s id with Some h => Ok (release (offered_by_a h) h s) | None => Err "unknown htlc" end
  end.
Definition spec_op (i : Info) (a : bool) (o : Op) (s : State) : result State :=
  next ← spec_next i a o s;
  if (16 <? length (htlcs next))%nat then Err "too many htlcs"
  else if forallb long_hash (htlcs next) then Ok next else Err "bad htlc".

(** Amounts a [std::uint64_t] holds together with the reserve. *)
Definition op_ok (i : Info) (o : Op) : Prop :=
  match o with OPay amt | OAdd amt _ _ => 0 ≤ amt ∧ amt + info_fee i < W64 | _ => True end.
(** Numbers left for [k] more updates. *)
Definition room (k : nat) (s : State) : Prop :=
  0 ≤ st_n s ∧ st_n s + Z.of_nat k + 1 < W64 ∧ 0 ≤ next_htlc_id s ∧ next_htlc_id s + Z.of_nat k < W64.

Lemma find_htlc_spec s id h :
  find_htlc s id = Some h →
  h_id h = id ∧ h ∈ htlcs s ∧
  list_sum h_amount (erase_htlc id (htlcs s)) = locked s - h_amount h ∧
  ∀ x, x ∈ erase_htlc id (htlcs s) → x ∈ htlcs s.
Proof.
  unfold find_htlc, locked. induction (htlcs s) as [|x hs IH]; [done|].
  rewrite filter_cons. cbn [erase_htlc]. destruct (decide (h_id x = id)) as [E|E].
  - cbn [head]. intros [= ->]. rewrite E, Z.eqb_refl, list_sum_cons. repeat split; [|lia|]; set_solver.
  - intros H. destruct (IH H) as (?&?&Hs&Hin). rewrite (proj2 (Z.eqb_neq _ _) E), !list_sum_cons, Hs.
    repeat split; [done| |lia|]; set_solver.
Qed.

Lemma poor_cannot_pay p amt :
  0 ≤ amt → 0 ≤ info_fee (info p) → amt + info_fee (info p) < W64 →
  cannot_pay p amt = poor (info p) (is_a p) amt (cur p).
Proof.
  intros H1 H2 H3. unfold cannot_pay, poor, reserve. do 2 f_equal.
  apply u64_small. unfold is_u64. destruct (is_a p); lia.
Qed.

Lemma side_bounds i s a : balanced i s → 0 ≤ bal s a ∧ bal s a + bal s (negb a) + locked s = capacity i ∧ is_u64 (capacity i).
Proof.
  intros [Ht Ha Hb Hc _]. destruct a; cbn [bal negb]; unfold is_u64 in *; lia.
Qed.

Lemma add_bal_credit a v s : is_u64 (bal s a + v) → add_bal a v s = credit a v s.
Proof. intros H. unfold add_bal, credit. by rewrite u64_small. Qed.

Lemma next_state_bump s : room 1 s → next_state s = bump s.
Proof. intros (?&?&_). unfold next_state, bump. by rewrite u64_small by (unfold is_u64; lia). Qed.

Lemma poor_false i a amt s : poor i a amt s = false → amt ≠ 0 ∧ amt + (if a then info_fee i else 0) ≤ bal s a.
Proof. unfold poor. rewrite orb_false_iff, Z.eqb_neq, Z.ltb_ge. lia. Qed.

(** The drivers compute the state of the contract, and nothing wraps. *)
Lemma pay_next i a amt s :
  balanced i s → room 1 s → 0 ≤ amt → poor i a amt s = false →
  add_bal (negb a) amt (add_bal a (- amt) (next_state s)) = credit (negb a) amt (credit a (- amt) (bump s)).
Proof.
  intros Hb Hr H0 Hp. apply poor_false in Hp. rewrite next_state_bump by done.
  pose proof (side_bounds i s a Hb) as (?&?&?). pose proof (locked_nonneg i s Hb).
  pose proof (side_bounds i s (negb a) Hb) as (?&_). pose proof (b_a i s Hb).
  assert (Hbal : bal (bump s) a = bal s a) by by destruct a.
  rewrite (add_bal_credit a) by (rewrite Hbal; unfold is_u64 in *; destruct a; lia).
  apply add_bal_credit. assert (Hx : bal (credit a (- amt) (bump s)) (negb a) = bal s (negb a)) by by destruct a.
  rewrite Hx. unfold is_u64 in *. destruct a; cbn [negb] in *; lia.
Qed.

Lemma add_next p amt ph exp :
  balanced (info p) (cur p) → room 1 (cur p) → 0 ≤ amt → poor (info p) (is_a p) amt (cur p) = false →
  Ok (with_htlc p amt ph exp) = spec_next (info p) (is_a p) (OAdd amt ph exp) (cur p).
Proof.
  intros Hb Hr H0 Hp. cbn [spec_next]. rewrite Hp. unfold with_htlc. apply poor_false in Hp.
  rewrite next_state_bump by done. pose proof (side_bounds _ _ (is_a p) Hb) as (?&?&?).
  pose proof (b_a _ _ Hb). pose proof (locked_nonneg _ _ Hb). pose proof (side_bounds _ _ (negb (is_a p)) Hb) as (?&_).
  rewrite add_bal_credit by (unfold is_u64 in *; destruct (is_a p); cbn in *; lia).
  set (n := credit _ _ _). assert (next_htlc_id n = next_htlc_id (cur p)) as E by (unfold n; by destruct (is_a p)).
  rewrite E, u64_small; [done|]. destruct Hr as (?&?&?&?). unfold is_u64. lia.
Qed.

Lemma release_next i h s (to_receiver : bool) :
  balanced i s → room 1 s → h ∈ htlcs s →
  without_htlc s h to_receiver = release (if to_receiver then negb (offered_by_a h) else offered_by_a h) h s.
Proof.
  intros Hb Hr Hh. unfold without_htlc, release. rewrite next_state_bump by done.
  set (a := if to_receiver then _ else _).
  pose proof (side_bounds i s a Hb) as (?&?&?). pose proof (side_bounds i s (negb a) Hb) as (?&_).
  assert (0 < h_amount h ≤ locked s).
  { pose proof (b_htlcs i s Hb) as Hf. pose proof (proj1 (Forall_forall _ _) Hf h Hh). split; [done|].
    apply list_sum_elem_le; [|done]. intros x Hx. pose proof (proj1 (Forall_forall _ _) Hf x Hx). cbn in *. lia. }
  assert (Hbal : bal (bump s) a = bal s a) by by destruct a.
  rewrite add_bal_credit by (rewrite Hbal; unfold is_u64 in *; lia).
  by destruct a.
Qed.

Lemma driver_next p q o :
  linked p q → room 1 (cur p) → op_ok (info p) o →
  driver o p q = match spec_next (info p) (is_a p) o (cur p) with
                 | Err e => Some (p, q, Err e)
                 | Ok next => update p q next
                 end.
Proof.
  intros Hl Hr Ho. pose proof (sound_balanced _ _ (l_sound p q Hl)) as Hb. pose proof (b_a _ _ Hb) as [Hf _].
  assert (Hrem : ∀ id to_r, remove_htlc p q id to_r =
    match find_htlc (cur p) id with
    | None => Some (p, q, Err "unknown htlc")
    | Some h => update p q (release (if to_r then negb (offered_by_a h) else offered_by_a h) h (cur p))
    end).
  { intros id to_r. unfold remove_htlc. destruct (find_htlc (cur p) id) as [h|] eqn:Hfh; [|done].
    destruct (find_htlc_spec _ _ _ Hfh) as (_&Hin&_). by rewrite (release_next (info p)). }
  destruct o as [amt|amt ph exp|id pre|id]; cbn [driver].
  - destruct Ho as [H0 H1]. unfold pay. rewrite poor_cannot_pay by done. cbn [spec_next].
    destruct (poor _ _ _ _) eqn:Hp; [done|]. by rewrite (k_side p q (l_pq p q Hl)), (pay_next (info p)).
  - destruct Ho as [H0 H1]. unfold add_htlc. rewrite poor_cannot_pay by done.
    destruct (poor _ _ _ _) eqn:Hp; [cbn [spec_next]; by rewrite Hp|].
    rewrite <-add_next by done. by destruct (update p q _) as [[[? ?] ?]|].
  - unfold settle_htlc. rewrite (k_cur p q (l_pq p q Hl)). cbn [spec_next]. rewrite Hrem.
    destruct (find_htlc (cur p) id) as [h|]; [|done]. by destruct (String.eqb _ _).
  - unfold fail_htlc. rewrite Hrem. cbn [spec_next]. by destruct (find_htlc (cur p) id).
Qed.

(** An accepted operation conserves the capacity and the funder's reserve. *)
Lemma credit_balanced i a v w hs nid s :
  balanced i s → 0 ≤ bal s a + v → 0 ≤ bal s (negb a) + w → (if a then info_fee i ≤ bal s a + v else info_fee i ≤ bal s (negb a) + w) →
  v + w + list_sum h_amount hs = locked s → Forall (λ h, 0 < h_amount h) hs →
  balanced i (set_htlcs hs nid (credit (negb a) w (credit a v (bump s)))).
Proof.
  intros Hb Hv Hw Hf Hsum Hpos. destruct Hb as [Ht Ha Hb Hc _].
  destruct a; cbn in *; split; cbn; unfold locked in *; cbn in *; first [done|lia].
Qed.

Definition ids_fresh (s : State) : Prop := Forall (λ h, h_id h < next_htlc_id s) (htlcs s).
Lemma sound_iff i s : sound i s ↔ balanced i s ∧ ids_fresh s ∧ forallb long_hash (htlcs s) = true.
Proof.
  unfold ids_fresh. rewrite forallb_forall, Forall_forall. setoid_rewrite <-list_elem_of_In. split.
  - intros H. split_and!; [by apply sound_balanced| |];
      intros h Hh; destruct (proj1 (Forall_forall _ _) (s_htlcs i s H) h Hh) as (?&?&?); [done|].
    unfold long_hash. by apply Nat.eqb_eq.
  - intros ([Ht Ha Hb Hc Hf]&Hi&Hl). split; try done. rewrite Forall_forall in *. intros h Hh. split_and!.
    + by apply Hf.
    + apply Nat.eqb_eq. by apply Hl.
    + by apply Hi.
Qed.

Lemma set_htlcs_self s : set_htlcs (htlcs s) (next_htlc_id s) s = s.
Proof. by destruct s. Qed.
Lemma credit_0 a s : credit a 0 s = s.
Proof. destruct s, a; unfold credit, set_bal; cbn; f_equal; lia. Qed.

Lemma release_balanced i s h a :
  sound i s → find_htlc s (h_id h) = Some h →
  balanced i (release a h s) ∧ ids_fresh (release a h s).
Proof.
  intros Hs Hfh. apply sound_iff in Hs as (Hb&Hi&_). destruct (find_htlc_spec _ _ _ Hfh) as (_&Hin&Hsum&Hsub).
  pose proof (b_htlcs i s Hb) as Hpos. pose proof (proj1 (Forall_forall _ _) Hpos h Hin) as H0. cbn in H0.
  pose proof (side_bounds i s a Hb) as (?&_). pose proof (side_bounds i s (negb a) Hb) as (?&_).
  pose proof (b_a i s Hb). unfold ids_fresh in *. rewrite Forall_forall in *.
  assert (E : release a h s = set_htlcs (erase_htlc (h_id h) (htlcs s)) (next_htlc_id s)
                                (credit (negb a) 0 (credit a (h_amount h) (bump s)))).
  { rewrite credit_0. unfold release. by destruct a. }
  rewrite E. split.
  - apply credit_balanced; [done|lia|lia|destruct a; cbn; lia|lia|].
    apply Forall_forall. intros x Hx. apply Hpos. by apply Hsub.
  - cbn. intros x Hx. apply Hi. by apply Hsub.
Qed.

Lemma spec_next_balanced i a o s next :
  sound i s → op_ok i o → spec_next i a o s = Ok next → balanced i next ∧ ids_fresh next.
Proof.
  intros Hs Ho. pose proof Hs as (Hb&Hi&_)%sound_iff. destruct o as [amt|amt ph exp|id pre|id]; cbn [spec_next].
  - destruct Ho as [H0 H1]. destruct (poor _ _ _ _) eqn:Hp; [done|]. intros [= <-]. apply poor_false in Hp.
    pose proof (side_bounds i s a Hb) as (?&_). pose proof (side_bounds i s (negb a) Hb) as (?&_). pose proof (b_a i s Hb).
    set (t := credit (negb a) _ _). split.
    + rewrite <-(set_htlcs_self t). replace (htlcs t) with (htlcs s) by by destruct a.
      apply credit_balanced; [done|destruct a; lia|lia|destruct a; cbn [negb bal] in *; lia|unfold locked; lia|exact (b_htlcs i s Hb)].
    + unfold ids_fresh, t. by destruct a.
  - destruct Ho as [H0 H1]. destruct (poor _ _ _ _) eqn:Hp; [done|]. apply poor_false in Hp.
    pose proof (side_bounds i s a Hb) as (?&_). pose proof (side_bounds i s (negb a) Hb) as (?&_). pose proof (b_a i s Hb).
    set (t := credit a _ _). assert (htlcs t = htlcs s ∧ next_htlc_id t = next_htlc_id s) as [-> ->] by by destruct a.
    intros [= <-]. split.
    + rewrite <-(credit_0 (negb a) t). apply credit_balanced;
        [done|destruct a; lia|lia|destruct a; cbn [negb bal] in *; lia| |].
      * unfold locked. rewrite list_sum_app. cbn. lia.
      * apply Forall_app. split; [exact (b_htlcs i s Hb)|]. repeat constructor. cbn. lia.
    + unfold ids_fresh in *. cbn. apply Forall_app. split; [|repeat constructor; cbn; lia].
      eapply Forall_impl; [exact Hi|]. cbn. lia.
  - destruct (find_htlc s id) as [h|] eqn:Hfh; [|done]. destruct (String.eqb _ _); [|done]. intros [= <-].
    apply release_balanced; [done|]. by destruct (find_htlc_spec _ _ _ Hfh) as (->&_).
  - destruct (find_htlc s id) as [h|] eqn:Hfh; [|done]. intros [= <-].
    apply release_balanced; [done|]. by destruct (find_htlc_spec _ _ _ Hfh) as (->&_).
Qed.

Lemma spec_next_number i a o s next :
  spec_next i a o s = Ok next →
  st_n next = st_n s + 1 ∧ next_htlc_id s ≤ next_htlc_id next ≤ next_htlc_id s + 1.
Proof.
  destruct o as [amt|amt ph exp|id pre|id]; cbn [spec_next].
  - destruct (poor _ _ _ _); [done|]. intros [= <-]. destruct a; cbn; lia.
  - destruct (poor _ _ _ _); [done|]. intros [= <-]. destruct a; cbn; lia.
  - destruct (find_htlc s id) as [h|]; [|done]. destruct (String.eqb _ _); [|done]. intros [= <-].
    unfold release. destruct (negb _); cbn; lia.
  - destruct (find_htlc s id) as [h|]; [|done]. intros [= <-]. unfold release. destruct (offered_by_a h); cbn; lia.
Qed.

Lemma spec_op_sound i a o s next :
  sound i s → op_ok i o → spec_op i a o s = Ok next →
  sound i next ∧ st_n next = st_n s + 1 ∧ next_htlc_id s ≤ next_htlc_id next ≤ next_htlc_id s + 1.
Proof.
  intros Hs Ho. unfold spec_op. destruct (spec_next i a o s) as [nx|] eqn:Hn; [|done]. cbn [mbind result_bind].
  destruct (spec_next_balanced _ _ _ _ _ Hs Ho Hn) as [Hb Hi]. pose proof (spec_next_number _ _ _ _ _ Hn).
  destruct (16 <? _)%nat; [done|]. destruct (forallb _ _) eqn:Hl; [|done]. intros [= <-]. rewrite sound_iff.
  done.
Qed.

(** One driver refines its contract: same verdict, both ends at the contract's state. *)
Lemma driver_refines p q o :
  sha3_512_digests → linked p q → room 1 (cur p) → op_ok (info p) o →
  driver o p q = match spec_op (info p) (is_a p) o (cur p) with
                 | Err e => Some (p, q, Err e)
                 | Ok next => Some (advanced p q next, advanced q p next, Ok ())
                 end.
Proof.
  intros Hd Hl Hr Ho. rewrite driver_next by done. unfold spec_op.
  destruct (spec_next _ _ o (cur p)) as [nx|] eqn:Hn; [|done]. cbn [mbind result_bind].
  destruct (spec_next_balanced _ _ _ _ _ (l_sound p q Hl) Ho Hn) as [Hb _].
  pose proof (spec_next_number _ _ _ _ _ Hn) as [Hnum _].
  assert (is_u64 (st_n (cur p) + 2)) by (destruct Hr as (?&?&_); unfold is_u64; lia).
  rewrite update_linked by done. rewrite (validate_balanced p q) by done.
  destruct (16 <? _)%nat; [done|]. by destruct (forallb _ _).
Qed.

(** ** Runs *)

Fixpoint run_ops (os : list (bool * Op)) (p q : Channel) : option (Channel * Channel * list (result ())) :=
  match os with
  | [] => Some (p, q, [])
  | (f, o) :: os =>
      '(p, q, r) ← run_op f o p q;
      '(p, q, rs) ← run_ops os p q; Some (p, q, r :: rs)
  end.
Fixpoint spec_ops (i : Info) (a : bool) (os : list (bool * Op)) (s : State) : State * list (result ()) :=
  match os with
  | [] => (s, [])
  | (f, o) :: os =>
      match spec_op i (if f then a else negb a) o s with
      | Err e => let '(s, rs) := spec_ops i a os s in (s, Err e :: rs)
      | Ok s => let '(s, rs) := spec_ops i a os s in (s, Ok () :: rs)
      end
  end.

Definition verdict (r : result State) : result () := match r with Ok _ => Ok () | Err e => Err e end.

Lemma room_S k s : room (S k) s → room 1 s ∧ room k s.
Proof. unfold room. lia. Qed.

Lemma run_op_refines (f : bool) p q o k :
  sha3_512_digests → linked p q → room (S k) (cur p) → op_ok (info p) o →
  let s := match spec_op (info p) (if f then is_a p else negb (is_a p)) o (cur p) with Ok n => n | Err _ => cur p end in
  ∃ p' q', run_op f o p q = Some (p', q', verdict (spec_op (info p) (if f then is_a p else negb (is_a p)) o (cur p))) ∧
    linked p' q' ∧ info p' = info p ∧ is_a p' = is_a p ∧ cur p' = s ∧ room k s ∧ (st_n (cur p) ≤ st_n s).
Proof.
  intros Hd Hl Hr Ho. destruct (room_S _ _ Hr) as [Hr1 Hrk].
  assert (Hnext : ∀ a next, spec_op (info p) a o (cur p) = Ok next →
    sound (info p) next ∧ st_n next = st_n (cur p) + 1 ∧ room k next).
  { intros a next E. destruct (spec_op_sound _ _ _ _ _ (l_sound p q Hl) Ho E) as (?&?&?). split_and!; [done|done|].
    destruct Hr as (?&?&?&?). unfold room. lia. }
  unfold run_op. destruct f.
  - rewrite driver_refines by done. destruct (spec_op _ (is_a p) o (cur p)) as [next|e] eqn:E;
      [|exists p, q; conjs; done].
    destruct (Hnext _ _ E) as (?&?&?). exists (advanced p q next), (advanced q p next). conjs; try done; [|lia].
    by apply linked_advanced.
  - pose proof (linked_sym p q Hl) as Hl'. pose proof (k_cur p q (l_pq p q Hl)) as Hc. pose proof (k_info p q (l_pq p q Hl)) as Hi.
    rewrite driver_refines by (rewrite ?Hc, ?Hi; done). rewrite Hc, Hi, (k_side p q (l_pq p q Hl)).
    destruct (spec_op _ (negb (is_a p)) o (cur p)) as [next|e] eqn:E;
      [|exists p, q; conjs; done].
    destruct (Hnext _ _ E) as (?&?&?). exists (advanced p q next), (advanced q p next). conjs; try done; [|lia].
    by apply linked_advanced.
Qed.

Lemma run_ops_refines os : ∀ p q,
  sha3_512_digests → linked p q → room (length os) (cur p) → Forall (λ fo, op_ok (info p) fo.2) os →
  ∃ p' q', run_ops os p q = Some (p', q', (spec_ops (info p) (is_a p) os (cur p)).2) ∧
    linked p' q' ∧ info p' = info p ∧ cur p' = (spec_ops (info p) (is_a p) os (cur p)).1.
Proof.
  induction os as [|[f o] os IH]; intros p q Hd Hl Hr Ho; [by exists p, q|].
  inversion_clear Ho as [|?? Ho1 Ho2].
  destruct (run_op_refines f p q o (length os) Hd Hl Hr Ho1) as (p1 & q1 & Hrun & Hl1 & Hi1 & Ha1 & Hc1 & Hr1 & _).
  rewrite <-Hc1 in Hr1. rewrite <-Hi1 in Ho2. destruct (IH p1 q1 Hd Hl1 Hr1 Ho2) as (p2 & q2 & Hrs & Hl2 & Hi2 & Hc2).
  exists p2, q2. cbn [run_ops spec_ops]. rewrite Hrun. cbn [mbind option_bind]. rewrite Hrs. cbn [mbind option_bind].
  rewrite Hi1, Ha1 in *. rewrite Hc1 in *.
  destruct (spec_op _ _ o (cur p)) as [next|e]; cbn [verdict];
    destruct (spec_ops _ _ os _) as [s rs]; cbn in *; split_and!; congruence.
Qed.
End linked.
