(* ===== verification/ChannelRoute.v ===== *)
(** * Routed payments are atomic

    [route_payment] adds an HTLC hop by hop, settles them from the far end, and fails
    them all when one hop cannot be set up. *)
From S2P Require Import Prelude Strings Lines Crypto Types Wire WireProofs Block Script ScriptProofs.
From S2P Require Import Channel ChannelPenalty ChannelProofs.

Section route.
Context {C : Crypto}.

(** ** One hop *)

(** [amt] moved from side [a] to the other side, with the same HTLCs. *)
Definition moved (a : bool) (amt : Z) (s s' : State) : Prop :=
  bal s' a = bal s a - amt ∧ bal s' (negb a) = bal s (negb a) + amt ∧ htlcs s' = htlcs s.
(** [s'] is [s] with one more HTLC of side [a]. *)
Definition added (a : bool) (amt : Z) (ph : string) (id : Z) (s s' : State) : Prop :=
  id = next_htlc_id s ∧ ids_fresh s ∧
  ∃ exp, s' = set_htlcs (htlcs s ++ [mkHtlc id a amt ph exp]) (id + 1) (credit a (- amt) (bump s)).

Definition affordable (p : Channel) (amt : Z) : Prop :=
  poor (info p) (is_a p) amt (cur p) = false ∧ (length (htlcs (cur p)) < 16)%nat.

Lemma spec_add p q amt ph exp :
  linked p q → String.length ph = 128%nat →
  spec_op (info p) (is_a p) (OAdd amt ph exp) (cur p) =
    if poor (info p) (is_a p) amt (cur p) then Err "insufficient channel balance"
    else if (16 <=? length (htlcs (cur p)))%nat then Err "too many htlcs"
    else Ok (set_htlcs (htlcs (cur p) ++ [mkHtlc (next_htlc_id (cur p)) (is_a p) amt ph exp])
               (next_htlc_id (cur p) + 1) (credit (is_a p) (- amt) (bump (cur p)))).
Proof.
  intros Hl Hph. unfold spec_op. cbn [spec_next]. destruct (poor _ _ _ _); [done|]. cbn [mbind result_bind].
  assert (∀ v, htlcs (credit (is_a p) v (bump (cur p))) = htlcs (cur p) ∧
               next_htlc_id (credit (is_a p) v (bump (cur p))) = next_htlc_id (cur p)) as Hh
    by by destruct (is_a p).
  destruct (Hh (- amt)) as [-> ->]. cbn [htlcs set_htlcs]. rewrite length_app. cbn [length].
  destruct (Nat.leb_spec 16 (length (htlcs (cur p)))) as [Hle|Hlt].
  - by rewrite (proj2 (Nat.ltb_lt 16 _)) by lia.
  - rewrite (proj2 (Nat.ltb_ge 16 _)) by lia. rewrite forallb_app.
    rewrite (proj2 (proj2 (proj1 (sound_iff _ _) (l_sound p q Hl)))). unfold long_hash. cbn. by rewrite Hph.
Qed.

Lemma htlcs_credit a v s : htlcs (credit a v s) = htlcs s.
Proof. by destruct a. Qed.
Lemma cur_advanced p q next : cur (advanced p q next) = next.
Proof. reflexivity. Qed.

(** Setting up a hop: it succeeds exactly when the payer affords it. *)
Lemma hop_add p q amt ph exp :
  sha3_512_digests → linked p q → room 2 (cur p) → 0 ≤ amt → amt + info_fee (info p) < W64 →
  String.length ph = 128%nat →
  ∃ p' q' id r, add_htlc p q amt ph exp = Some (p', q', (id, r)) ∧ linked p' q' ∧ is_a p' = is_a p ∧ info p' = info p ∧
    ((affordable p amt ∧ r = Ok () ∧ added (is_a p) amt ph id (cur p) (cur p') ∧ room 1 (cur p')) ∨
     (¬ affordable p amt ∧ p' = p ∧ q' = q ∧ ∃ e, r = Err e)).
Proof.
  intros Hd Hl Hr H0 H1 Hph. destruct (room_S 1 _ Hr) as [Hr1 _].
  pose proof (driver_refines p q (OAdd amt ph exp) Hd Hl Hr1 (conj H0 H1)) as H. cbn [driver] in H.
  destruct (spec_op _ _ _ (cur p)) as [next|e] eqn:E; pose proof E as E'; rewrite (spec_add p q) in E' by done;
    unfold affordable; destruct (add_htlc p q amt ph exp) as [[[p1 q1] [id r]]|] eqn:Hadd; cbn in H; simplify_eq;
    destruct (poor _ _ _ _) eqn:Hp, (Nat.leb_spec 16 (length (htlcs (cur p)))) as [Hle|Hlt]; simplify_eq.
  - destruct (spec_op_sound _ _ (OAdd amt ph exp) _ _ (l_sound p q Hl) (conj H0 H1) E) as (Hs & Hn & Hid).
    eexists _, _, id, _. split; [done|].
    pose proof (b_a _ _ (sound_balanced _ _ (l_sound p q Hl))) as [Hfe _].
    unfold add_htlc in Hadd. rewrite poor_cannot_pay, Hp in Hadd by done.
    destruct (update p q _) as [[[? ?] ?]|]; cbn in Hadd; simplify_eq.
    split; [by apply linked_advanced|]. split; [done|]. split; [done|]. left. conjs; try done.
    + split; [done|]. split; [apply (proj1 (sound_iff _ _) (l_sound p q Hl))|by eexists].
    + rewrite cur_advanced. destruct Hr as (?&?&?&?). unfold room. lia.
  - eexists _, _, id, _. conjs; try done. right. conjs; eauto. by intros [? ?].
  - eexists _, _, id, _. conjs; try done. right. conjs; eauto. by intros [? ?].
  - eexists _, _, id, _. conjs; try done. right. conjs; eauto. intros [? ?]; lia.
Qed.

(** Taking the HTLC of a hop back, or paying it to the receiver. *)
Lemma added_found a amt ph id s s' :
  added a amt ph id s s' →
  ∃ h, find_htlc s' id = Some h ∧ offered_by_a h = a ∧ h_amount h = amt ∧ payment_hash h = ph ∧ h_id h = id ∧
    erase_htlc id (htlcs s') = htlcs s.
Proof.
  intros (-> & Hi & exp & ->). exists (mkHtlc (next_htlc_id s) a amt ph exp). unfold find_htlc, ids_fresh in *.
  cbn [htlcs set_htlcs]. induction (htlcs s) as [|x hs IH]; cbn [app].
  - rewrite filter_cons_True by done. cbn. rewrite Z.eqb_refl. by conjs.
  - inversion_clear Hi as [|?? Hx Hi']. rewrite filter_cons_False by lia. cbn [erase_htlc].
    rewrite (proj2 (Z.eqb_neq _ _)) by lia. destruct (IH Hi') as (->&?&?&?&?&->). by conjs.
Qed.

Lemma release_moved a amt ph id s s' h (to_receiver : bool) :
  added a amt ph id s s' → find_htlc s' id = Some h → offered_by_a h = a → h_amount h = amt → h_id h = id →
  erase_htlc id (htlcs s') = htlcs s →
  moved a (if to_receiver then amt else 0) s (release (if to_receiver then negb (offered_by_a h) else offered_by_a h) h s').
Proof.
  intros (_ & _ & exp & E) _ <- <- <- He. unfold moved, release.
  destruct to_receiver; cbn [htlcs set_htlcs]; (conjs; [| |destruct (offered_by_a h); exact He]); subst s';
    destruct (offered_by_a h); cbn; lia.
Qed.

Lemma hop_close (to_receiver : bool) p q s amt ph id preimage :
  sha3_512_digests → linked p q → room 1 (cur p) → added (is_a p) amt ph id s (cur p) →
  (length (htlcs s) < 16)%nat → hash_preimage_hex preimage = ph →
  ∃ q' p', (if to_receiver then settle_htlc q p id preimage else fail_htlc q p id) = Some (q', p', Ok ()) ∧
    linked p' q' ∧ is_a p' = is_a p ∧ info p' = info p ∧ moved (is_a p) (if to_receiver then amt else 0) s (cur p').
Proof.
  intros Hd Hl Hr Hadd Hlen Hph. destruct (added_found _ _ _ _ _ _ Hadd) as (h & Hf & Ha & Hamt & Hh & Hid & He).
  set (o := if to_receiver then OSettle id preimage else OFail id).
  pose proof (linked_sym p q Hl) as Hl'. pose proof (k_cur p q (l_pq p q Hl)) as Hc.
  assert (Hop : op_ok (info q) o) by (unfold o; by destruct to_receiver).
  pose proof (driver_refines q p o Hd Hl') as H. rewrite Hc in H. specialize (H Hr Hop).
  assert (Hdrv : driver o q p = if to_receiver then settle_htlc q p id preimage else fail_htlc q p id)
    by by unfold o; destruct to_receiver.
  set (next := release (if to_receiver then negb (offered_by_a h) else offered_by_a h) h (cur p)).
  assert (Hspec : spec_op (info q) (is_a q) o (cur p) = Ok next).
  { unfold spec_op. assert (spec_next (info q) (is_a q) o (cur p) = Ok next) as ->.
    { unfold o, next. destruct to_receiver; cbn [spec_next]; rewrite Hf; [|done].
      by rewrite Hh, <-Hph, String.eqb_refl. }
    cbn [mbind result_bind]. assert (htlcs next = htlcs s) as ->.
    { unfold next, release. cbn [htlcs set_htlcs]. by rewrite Hid, htlcs_credit. }
    rewrite (proj2 (Nat.ltb_ge 16 _)) by lia.
    pose proof (proj2 (proj2 (proj1 (sound_iff _ _) (l_sound p q Hl)))) as Hall.
    destruct Hadd as (_ & _ & exp & E). rewrite E in Hall. cbn [htlcs set_htlcs] in Hall.
    rewrite forallb_app in Hall. by apply andb_prop in Hall as [-> _]. }
  rewrite Hspec in H. rewrite <-Hdrv, H. eexists _, _. split; [done|].
  destruct (spec_op_sound (info q) (is_a q) o (cur p) next) as (Hs & Hn & _); [|done|done|].
  { rewrite (k_info p q (l_pq p q Hl)). exact (l_sound p q Hl). }
  conjs; [|done|done|].
  - apply linked_sym, linked_advanced; [done|by rewrite Hc|done].
  - change (cur (advanced p q next)) with next. by apply (release_moved _ _ ph id).
Qed.

(** ** The store of channel objects *)

Definition ends (h : Hop) : list nat := [payer h; payee h].
Definition at_hop (store : list Channel) (h : Hop) (p q : Channel) : Prop :=
  store !! payer h = Some p ∧ store !! payee h = Some q ∧ linked p q.
(** The stores agree on the objects of [idxs]. *)
Definition same_at (idxs : nat → Prop) (s s' : list Channel) : Prop := ∀ i, idxs i → s' !! i = s !! i.

(** The HTLC [id] of the amount waits at the hop. *)
Definition waiting (s0 s : list Channel) (ph : string) (h : Hop) (id amt : Z) : Prop :=
  ∃ p0 q0 p q, at_hop s0 h p0 q0 ∧ at_hop s h p q ∧ is_a p = is_a p0 ∧ room 1 (cur p) ∧
    (length (htlcs (cur p0)) < 16)%nat ∧ added (is_a p0) amt ph id (cur p0) (cur p).
(** The hop moved [amt] from payer to payee, with the HTLCs it had. *)
Definition hop_moved (s0 s : list Channel) (h : Hop) (amt : Z) : Prop :=
  ∃ p0 q0 p q, at_hop s0 h p0 q0 ∧ at_hop s h p q ∧ is_a p = is_a p0 ∧ moved (is_a p0) amt (cur p0) (cur p).

Lemma on_pair_ends {A} (f : Channel → Channel → option (Channel * Channel * A)) i j store p q p' q' r :
  i ≠ j → store !! i = Some p → store !! j = Some q → f p q = Some (p', q', r) →
  ∃ store', on_pair f i j store = Some (store', r) ∧ store' !! i = Some p' ∧ store' !! j = Some q' ∧
    same_at (λ k, k ≠ i ∧ k ≠ j) store store'.
Proof.
  intros Hij Hp Hq Hf. exists (<[j := q']> (<[i := p']> store)).
  pose proof (lookup_lt_Some _ _ _ Hp). pose proof (lookup_lt_Some _ _ _ Hq). conjs.
  - unfold on_pair. rewrite Hp. cbn [mbind option_bind]. rewrite Hq. cbn [mbind option_bind]. by rewrite Hf.
  - rewrite list_lookup_insert_ne by done. by rewrite list_lookup_insert_eq.
  - rewrite list_lookup_insert_eq; [done|]. by rewrite length_insert.
  - intros k [? ?]. by rewrite !list_lookup_insert_ne by done.
Qed.

Lemma waiting_same s0 s s' ph h id amt :
  same_at (.∈ ends h) s s' → waiting s0 s ph h id amt → waiting s0 s' ph h id amt.
Proof.
  intros Hs (p0 & q0 & p & q & H0 & (Hp & Hq & Hl) & Hrest). exists p0, q0, p, q. split; [done|]. split; [|done].
  unfold at_hop. by rewrite !Hs by (unfold ends; set_solver).
Qed.
Lemma hop_moved_same s0 s s' h amt :
  same_at (.∈ ends h) s s' → hop_moved s0 s h amt → hop_moved s0 s' h amt.
Proof.
  intros Hs (p0 & q0 & p & q & H0 & (Hp & Hq & Hl) & Hrest). exists p0, q0, p, q. split; [done|]. split; [|done].
  unfold at_hop. by rewrite !Hs by (unfold ends; set_solver).
Qed.

(** Closing the HTLC of one hop, in either way. *)
Lemma close_hop (to_receiver : bool) s0 s h id amt preimage :
  sha3_512_digests → payer h ≠ payee h → waiting s0 s (hash_preimage_hex preimage) h id amt →
  ∃ s', on_pair (λ p q, if to_receiver then settle_htlc p q id preimage else fail_htlc p q id) (payee h) (payer h) s =
      Some (s', Ok ()) ∧
    hop_moved s0 s' h (if to_receiver then amt else 0) ∧ same_at (.∉ ends h) s s'.
Proof.
  intros Hd Hne (p0 & q0 & p & q & H0 & (Hp & Hq & Hl) & Ha & Hr & Hlen & Hadd). rewrite <-Ha in Hadd.
  destruct (hop_close to_receiver p q _ _ _ _ preimage Hd Hl Hr Hadd Hlen eq_refl)
    as (q' & p' & Hf & Hl' & Ha' & _ & Hm).
  destruct (on_pair_ends (λ p q, if to_receiver then settle_htlc p q id preimage else fail_htlc p q id)
    (payee h) (payer h) s q p q' p' (Ok ())) as (s' & Hon & Hq' & Hp' & Hs); [congruence|done..|].
  exists s'. split; [done|]. split.
  - exists p0, q0, p', q'. rewrite Ha' in *. rewrite Ha in *. done.
  - intros k Hk. apply Hs. unfold ends in Hk. set_solver.
Qed.

(** A hop of the route that was set up, with its identifier and amount. *)
Record Done := mkDone { d_hop : Hop; d_id : Z; d_amt : Z }.
Definition done_of (d : Done) : Hop * Z := (d_hop d, d_id d).
Definition all_ends (ds : list Done) : list nat := ds ≫= λ d, ends (d_hop d).

Lemma same_at_trans P s s' s'' : same_at P s s' → same_at P s' s'' → same_at P s s''.
Proof. intros H H' i Hi. by rewrite H', H. Qed.

Lemma ends_apart (h : Hop) (ds : list Done) :
  NoDup (ends h ++ all_ends ds) →
  payer h ≠ payee h ∧ NoDup (all_ends ds) ∧ (∀ i, i ∈ ends h → i ∉ all_ends ds) ∧
  ∀ d, d ∈ ds → ∀ i, i ∈ ends (d_hop d) → i ∉ ends h.
Proof.
  rewrite NoDup_app. intros (Hh & Hdis & Hds). conjs; try done.
  - unfold ends in Hh. intros E. apply NoDup_cons in Hh as [Hh _]. set_solver.
  - intros d Hd i Hi Hih. apply (Hdis i Hih). apply list_elem_of_bind. eauto.
Qed.

(** Both undo and settlement close every hop; [closes] is their common loop. *)
Lemma close_all (to_receiver : bool) (loop : list Channel → list (Hop * Z) → option (list Channel)) s0 preimage :
  sha3_512_digests →
  (∀ s, loop s [] = Some s) →
  (∀ s s' h id l,
    on_pair (λ p q, if to_receiver then settle_htlc p q id preimage else fail_htlc p q id) (payee h) (payer h) s =
      Some (s', Ok ()) → loop s ((h, id) :: l) = loop s' l) →
  ∀ ds s, NoDup (all_ends ds) →
    Forall (λ d, waiting s0 s (hash_preimage_hex preimage) (d_hop d) (d_id d) (d_amt d)) ds →
    ∃ s', loop s (done_of <$> ds) = Some s' ∧ same_at (.∉ all_ends ds) s s' ∧
      Forall (λ d, hop_moved s0 s' (d_hop d) (if to_receiver then d_amt d else 0)) ds.
Proof.
  intros Hd Hnil Hcons ds. induction ds as [|d ds IH]; intros s Hnd Hw; [exists s; by rewrite Hnil|].
  apply ends_apart in Hnd as (Hne & Hnd & Hdis & Hdis'). inversion_clear Hw as [|?? Hw1 Hw2].
  destruct (close_hop to_receiver s0 s (d_hop d) (d_id d) (d_amt d) preimage Hd Hne Hw1) as (s1 & Hon & Hm & Hsame).
  destruct (IH s1 Hnd) as (s2 & Hl & Hsame2 & Hall).
  { rewrite Forall_forall in *. intros x Hx. apply (waiting_same s0 s); [|by apply Hw2].
    intros i Hi. apply Hsame. by apply (Hdis' x). }
  exists s2. rewrite fmap_cons. unfold done_of at 1. rewrite (Hcons s s1) by done. split; [done|]. split.
  - intros i Hi. cbn in Hi. rewrite Hsame2, Hsame; [done| |]; unfold all_ends in *; set_solver.
  - constructor; [|done]. apply (hop_moved_same s0 s1); [|done]. intros i Hi. apply Hsame2. by apply Hdis.
Qed.

(** ** The whole route *)

(** Hop [i] of [k] carries the amount and the fees of the hops after it. *)
Fixpoint hop_amounts (k : nat) (amt fe : Z) (i : nat) (route : list Hop) : list (Hop * Z) :=
  match route with
  | [] => []
  | h :: route => (h, amt + fe * Z.of_nat (k - 1 - i)) :: hop_amounts k amt fe (S i) route
  end.
Definition ready (s : list Channel) (h : Hop) (a : Z) : Prop :=
  ∃ p q, at_hop s h p q ∧ room 2 (cur p) ∧ 0 ≤ a ∧ a + info_fee (info p) < W64.
Definition affords (s : list Channel) (h : Hop) (a : Z) : Prop :=
  ∃ p, s !! payer h = Some p ∧ affordable p a.
Definition d_pair (d : Done) : Hop * Z := (d_hop d, d_amt d).
Definition route_ends (route : list Hop) : list nat := route ≫= ends.

Lemma moved_0 a s : moved a 0 s s.
Proof. unfold moved. conjs; [lia|lia|done]. Qed.

Lemma hop_unmoved s0 s h p q : at_hop s0 h p q → same_at (.∈ ends h) s0 s → hop_moved s0 s h 0.
Proof.
  intros (Hp & Hq & Hl) Hs. exists p, q, p, q. unfold at_hop. rewrite !Hs by (unfold ends; set_solver).
  conjs; try done. apply moved_0.
Qed.

Lemma fail_hops_closes s0 s preimage ds :
  sha3_512_digests → NoDup (all_ends ds) →
  Forall (λ d, waiting s0 s (hash_preimage_hex preimage) (d_hop d) (d_id d) (d_amt d)) ds →
  ∃ s', fail_hops s (done_of <$> ds) = Some s' ∧ same_at (.∉ all_ends ds) s s' ∧
    Forall (λ d, hop_moved s0 s' (d_hop d) 0) ds.
Proof.
  intros Hd. apply (close_all false fail_hops); [done|done|]. intros t t' h id l H. cbn [fail_hops]. by rewrite H.
Qed.

Lemma settle_hops_closes s0 s preimage ds :
  sha3_512_digests → NoDup (all_ends ds) →
  Forall (λ d, waiting s0 s (hash_preimage_hex preimage) (d_hop d) (d_id d) (d_amt d)) ds →
  ∃ s', settle_hops s preimage (length ds) (done_of <$> ds) = Some (s', Ok ()) ∧ same_at (.∉ all_ends ds) s s' ∧
    Forall (λ d, hop_moved s0 s' (d_hop d) (d_amt d)) ds.
Proof.
  intros Hd Hnd Hw.
  set (loop := λ s l, match settle_hops s preimage (length l) l with Some (s, Ok _) => Some s | _ => None end).
  destruct (close_all true loop s0 preimage Hd) with (ds := ds) (s := s) as (s' & Hl & H); [done| |done|done|].
  - intros t t' h id l H. unfold loop. cbn [settle_hops length]. rewrite H. cbn [mbind option_bind].
    by rewrite Nat.sub_succ, Nat.sub_0_r.
  - exists s'. split; [|done]. unfold loop in Hl. rewrite length_fmap in Hl.
    destruct (settle_hops _ _ _ _) as [[? [[]|]]|]; by simplify_eq.
Qed.

Lemma hop_ready s0 k amt fe n route h :
  Forall (λ ha, ready s0 ha.1 ha.2) (hop_amounts k amt fe n route) → h ∈ route → ∃ p q, at_hop s0 h p q.
Proof.
  revert n. induction route as [|x route IH]; intros n; cbn [hop_amounts]; [set_solver|].
  intros [(p & q & Hat & _) Hall]%Forall_cons [->|Hin]%elem_of_cons; [by exists p, q|eauto].
Qed.

Lemma hash_preimage_length p : sha3_512_digests → hash_preimage_hex p ≠ "" → String.length (hash_preimage_hex p) = 128%nat.
Proof.
  intros Hd. unfold hash_preimage_hex. destruct (hex_to_bytes p); [|done]. intros _.
  change (to_hex (sha3_512_bytes ?x)) with (strong_hash x). by apply strong_hash_length.
Qed.

Lemma hop_amounts_length k amt fe n route : length (hop_amounts k amt fe n route) = length route.
Proof. revert n. induction route as [|h route IH]; intros n; cbn; [done|]. by rewrite IH. Qed.
Lemma hop_amounts_ends k amt fe n route : (hop_amounts k amt fe n route ≫= λ ha, ends ha.1) = route_ends route.
Proof. revert n. induction route as [|h route IH]; intros n; [done|].
  change (route_ends (h :: route)) with (ends h ++ route_ends route). by rewrite <-(IH (S n)).
Qed.
Lemma all_ends_amounts ds l : d_pair <$> ds = reverse l → all_ends ds ≡ₚ l ≫= λ ha, ends ha.1.
Proof.
  intros H. assert (E : (d_pair <$> ds) ≫= (λ ha, ends ha.1) = all_ends ds).
  { clear H. unfold all_ends. induction ds as [|d ds IH]; [done|]. cbn in *. by rewrite IH. }
  rewrite <-E, H. by rewrite reverse_Permutation.
Qed.

Lemma add_hops_spec s0 k amt fe exp delta preimage :
  sha3_512_digests → String.length (hash_preimage_hex preimage) = 128%nat →
  ∀ route s ds,
  NoDup (route_ends route ++ all_ends ds) →
  Forall (λ ha, ready s0 ha.1 ha.2) (hop_amounts k amt fe (length ds) route) →
  Forall (λ d, waiting s0 s (hash_preimage_hex preimage) (d_hop d) (d_id d) (d_amt d)) ds →
  same_at (.∉ all_ends ds) s0 s →
  ∃ s' r, add_hops s k amt (hash_preimage_hex preimage) exp delta fe (done_of <$> ds) route = Some (s', r) ∧
    same_at (.∉ route_ends route ++ all_ends ds) s0 s' ∧
    match r with
    | Ok l => Forall (λ ha, affords s0 ha.1 ha.2) (hop_amounts k amt fe (length ds) route) ∧
        ∃ ds', l = done_of <$> ds' ∧ d_pair <$> ds' = reverse (hop_amounts k amt fe (length ds) route) ++ (d_pair <$> ds) ∧
          Forall (λ d, waiting s0 s' (hash_preimage_hex preimage) (d_hop d) (d_id d) (d_amt d)) ds'
    | Err _ => ¬ Forall (λ ha, affords s0 ha.1 ha.2) (hop_amounts k amt fe (length ds) route) ∧
        Forall (λ h, hop_moved s0 s' h 0) (route ++ (d_hop <$> ds))
    end.
Proof.
  intros Hd Hph. induction route as [|h route IH]; intros s ds Hnd Hready Hw Hs.
  { exists s, (Ok (done_of <$> ds)). conjs; [done|exact Hs|constructor|]. by exists ds. }
  cbn [hop_amounts] in *. set (a := amt + fe * Z.of_nat (k - 1 - length ds)) in *.
  apply Forall_cons in Hready as [(p & q & Hat & Hr & Ha0 & Ha1) Hready']. cbn [fst snd] in Hat, Ha0, Ha1.
  assert (Hnd' := Hnd). cbn [route_ends mbind list_bind] in Hnd'. rewrite <-app_assoc in Hnd'.
  apply NoDup_app in Hnd' as (Hh & Hdis & Hnd').
  assert (Hfresh : ∀ i, i ∈ ends h → i ∉ all_ends ds).
  { intros i Hi Hi'. apply (Hdis i Hi). apply elem_of_app. by right. }
  destruct Hat as (Hp & Hq & Hl). cbn [add_hops]. rewrite length_fmap.
  assert (Hamt : u64 (amt + u64 (fe * Z.of_nat (k - 1 - length ds))) = a).
  { rewrite u64_add_r. apply u64_small. unfold is_u64. pose proof (b_a _ _ (sound_balanced _ _ (l_sound p q Hl))). lia. }
  rewrite Hamt. set (e := u64 (exp + _)).
  destruct (hop_add p q a (hash_preimage_hex preimage) e Hd Hl Hr Ha0 Ha1 Hph)
    as (p' & q' & id & r & Hadd & Hl' & Hside & Hinfo & Hcase).
  assert (Hne : payer h ≠ payee h) by (unfold ends in Hh; apply NoDup_cons in Hh as [Hh _]; set_solver).
  assert (Hps : s !! payer h = Some p) by (rewrite Hs by (apply Hfresh; unfold ends; set_solver); assumption).
  assert (Hqs : s !! payee h = Some q) by (rewrite Hs by (apply Hfresh; unfold ends; set_solver); assumption).
  destruct (on_pair_ends (λ p q, add_htlc p q a (hash_preimage_hex preimage) e) _ _ s p q p' q' (id, r) Hne Hps Hqs Hadd)
    as (s1 & Hon & Hp1 & Hq1 & Hsame).
  assert (Hsame' : same_at (.∉ ends h) s s1).
  { intros i Hi. apply Hsame. unfold ends in Hi. set_solver. }
  rewrite Hon. cbn [mbind option_bind].
  destruct Hcase as [(Haff & -> & Hadded & Hroom)|(Hna & -> & -> & err & ->)].
  - specialize (IH s1 (mkDone h id a :: ds)). rewrite fmap_cons in IH.
    change (done_of (mkDone h id a)) with (h, id) in IH. destruct IH as (s' & r & Hrun & Hsame2 & Hres).
    + assert (E : route_ends route ++ all_ends (mkDone h id a :: ds) ≡ₚ route_ends (h :: route) ++ all_ends ds).
      { change (all_ends (mkDone h id a :: ds)) with (ends h ++ all_ends ds).
        change (route_ends (h :: route)) with (ends h ++ route_ends route).
        rewrite !app_assoc. apply Permutation_app_tail, Permutation_app_comm. }
      by rewrite E.
    + exact Hready'.
    + constructor.
      * exists p, q, p', q'. cbn. rewrite <-Hside in Hadded |- *. by destruct Haff.
      * rewrite Forall_forall in *. intros d Hin. apply (waiting_same s0 s); [|by apply Hw].
        intros i Hi. apply Hsame'. intros Hih. apply (Hfresh i Hih). apply list_elem_of_bind. eauto.
    + intros i Hi. cbn in Hi. rewrite Hsame', Hs; [done| |]; unfold all_ends in *; set_solver.
    + exists s', r. split; [exact Hrun|]. split.
      { intros i Hi. apply Hsame2. cbn in Hi |- *. unfold all_ends, route_ends in *. set_solver. }
      destruct r as [l|err].
      * destruct Hres as (Hall & ds' & -> & Hamts & Hw'). split; [by constructor; [exists p|]|].
        exists ds'. split; [done|]. split; [|done]. rewrite Hamts, reverse_cons, <-app_assoc. done.
      * destruct Hres as (Hno & Hmv). split; [by intros [_ HF]%Forall_cons|].
        rewrite fmap_cons in Hmv. apply Forall_app in Hmv as [? [? ?]%Forall_cons].
        apply Forall_app. split; [by constructor|done].
  - destruct (fail_hops_closes s0 s1 preimage ds Hd) as (s' & Hf & Hsame2 & Hall).
    + by apply NoDup_app in Hnd' as (_ & _ & ?).
    + rewrite Forall_forall in *. intros d Hin. apply (waiting_same s0 s); [|by apply Hw].
      intros i Hi. apply Hsame'. intros Hih. apply (Hfresh i Hih). apply list_elem_of_bind. eauto.
    + rewrite Hf. cbn [mbind option_bind]. eexists s', _. split; [done|].
      assert (Hss : ∀ i, i ∉ all_ends ds → s' !! i = s0 !! i).
      { intros i Hi. rewrite Hsame2 by done. destruct (decide (i = payer h)) as [->|]; [congruence|].
        destruct (decide (i = payee h)) as [->|]; [congruence|].
        rewrite Hsame by done. by apply Hs. }
      split; [|split].
      * intros i Hi. apply Hss. set_solver.
      * intros [(p1 & Hp1' & Haff) _]%Forall_cons. cbn in *. congruence.
      * apply Forall_app. split; [|by apply Forall_fmap]. constructor.
        -- apply (hop_unmoved s0 s' h p q); [done|]. intros i Hi. apply Hss. by apply Hfresh.
        -- apply Forall_forall. intros x Hx. destruct (hop_ready _ _ _ _ _ _ x Hready' Hx) as (px & qx & Hatx).
           apply (hop_unmoved s0 s' x px qx); [done|]. intros i Hi. apply Hss. intros Hi'.
           apply NoDup_app in Hnd' as (_ & Hdis' & _). apply (Hdis' i); [|done].
           apply list_elem_of_bind. eauto.
Qed.

(** C14. A routed payment through linked channels, all of them different, never runs into
    undefined behaviour and is all or nothing: when every payer affords its hop (balance
    above the reserve, fewer than sixteen HTLCs) it succeeds and each hop moved exactly the
    amount and the fees of the hops after it; otherwise it fails and every hop has the
    balances and HTLCs from before. No other channel object changes. *)
Theorem route_payment_atomic store route amt preimage exp delta fe :
  sha3_512_digests → hash_preimage_hex preimage ≠ "" → NoDup (route_ends route) →
  Forall (λ ha, ready store ha.1 ha.2) (hop_amounts (length route) amt fe 0 route) →
  ∃ store' r, route_payment store route amt preimage exp delta fe = Some (store', r) ∧
    same_at (.∉ route_ends route) store store' ∧
    match r with
    | Ok _ => Forall (λ ha, affords store ha.1 ha.2) (hop_amounts (length route) amt fe 0 route) ∧
        Forall (λ ha, hop_moved store store' ha.1 ha.2) (hop_amounts (length route) amt fe 0 route)
    | Err _ => ¬ Forall (λ ha, affords store ha.1 ha.2) (hop_amounts (length route) amt fe 0 route) ∧
        Forall (λ h, hop_moved store store' h 0) route
    end.
Proof.
  intros Hd Hph Hnd Hready. unfold route_payment. rewrite (proj2 (is_empty_false _) Hph).
  destruct (add_hops_spec store (length route) amt fe exp delta preimage Hd) with (route := route) (s := store) (ds := @nil Done)
    as (s1 & r & Hadd & Hsame & Hres); [by apply hash_preimage_length|by rewrite app_nil_r|done|constructor|done|].
  rewrite fmap_nil in Hadd. rewrite Hadd. cbn [mbind option_bind]. rewrite app_nil_r in Hsame.
  destruct r as [l|e]; 
    [|exists s1, (Err e); rewrite fmap_nil, app_nil_r in Hres; destruct Hres; by conjs].
  destruct Hres as (Haff & ds & -> & Hamts & Hw). rewrite app_nil_r in Hamts. cbn [length] in *.
  pose proof (f_equal length Hamts) as Hlen. rewrite length_fmap, length_reverse, hop_amounts_length in Hlen.
  pose proof (all_ends_amounts _ _ Hamts) as Hends. rewrite hop_amounts_ends in Hends.
  destruct (settle_hops_closes store s1 preimage ds Hd) as (s2 & Hset & Hsame2 & Hall); [by rewrite Hends|done|].
  rewrite <-Hlen, Hset. exists s2, (Ok ()). split; [done|]. split; [|split; [by rewrite Hlen|]].
  - intros i Hi. rewrite Hsame2, Hsame; [done|done|]. by rewrite Hends.
  - rewrite Hlen. apply Forall_reverse. rewrite <-Hamts. by apply Forall_fmap.
Qed.
End route.
