(* ===== verification/ChannelPeer.v ===== *)
(** * What a peer may propose

    [classify_peer_update] guards the endpoint that is asked for its signature: a state
    it accepts never lowers what the endpoint can claim, except by one HTLC whose
    preimage it is shown. *)
From S2P Require Import Prelude Strings Lines Crypto Types Wire Block Script.
From S2P Require Import Channel ChannelProofs.

Section peer.
Context {C : Crypto}.

(** The balance and the HTLCs of a side. *)
Definition own (me : bool) (h : Htlc) : Z := if Bool.eqb (offered_by_a h) me then h_amount h else 0.
Definition claim (me : bool) (s : State) : Z := bal s me + list_sum (own me) (htlcs s).

Lemma by_id_snoc hs h : by_id (hs ++ [h]) = <[h_id h := h]> (by_id hs).
Proof. unfold by_id. by rewrite foldl_app. Qed.

(** Without duplicates the map holds the list; with them it holds less. *)
Lemma by_id_lookup hs k h : by_id hs !! k = Some h → h ∈ hs ∧ h_id h = k.
Proof.
  induction hs as [|x hs IH] using rev_ind; [done|]. rewrite by_id_snoc, lookup_insert_Some, elem_of_app.
  set_solver.
Qed.
Lemma by_id_sum f hs : NoDup (h_id <$> hs) → map_sum f (by_id hs) = list_sum f hs.
Proof.
  induction hs as [|x hs IH] using rev_ind; [done|]. rewrite fmap_app, by_id_snoc, list_sum_app.
  intros (Hnd & Hdis & _)%NoDup_app. rewrite map_sum_insert_None.
  - rewrite IH by done. cbn. lia.
  - apply eq_None_not_Some. intros [y [Hy Hk]%by_id_lookup]. apply (Hdis (h_id x)); [|by left].
    rewrite <-Hk. by apply list_elem_of_fmap_2.
Qed.
Lemma by_id_sum_le f hs : (∀ h, h ∈ hs → 0 ≤ f h) → map_sum f (by_id hs) ≤ list_sum f hs.
Proof.
  induction hs as [|x hs IH] using rev_ind; [done|]. intros Hf. rewrite by_id_snoc, list_sum_app, map_sum_insert.
  assert (map_sum f (by_id hs) ≤ list_sum f hs) by (apply IH; set_solver).
  assert (0 ≤ contrib f (by_id hs !! h_id x)).
  { destruct (by_id hs !! h_id x) as [y|] eqn:E; cbn; [|done]. apply by_id_lookup in E as [? _]. apply Hf. set_solver. }
  cbn. lia.
Qed.

(** The values of a map, as the loops collect them. *)
Lemma values_sum f (m : gmap Z Htlc) : map_sum f m = list_sum f ((map_to_list m).*2).
Proof. unfold map_sum. induction (map_to_list m) as [|kv l IH]; [done|]. cbn. by rewrite IH. Qed.
Lemma values_elem (m : gmap Z Htlc) x : x ∈ (map_to_list m).*2 → ∃ k, m !! k = Some x.
Proof. intros ([k y] & -> & Hin%elem_of_map_to_list)%list_elem_of_fmap. by exists k. Qed.

Lemma own_nonneg me h : 0 ≤ h_amount h → 0 ≤ own me h.
Proof. unfold own. destruct (Bool.eqb _ _); lia. Qed.

(** The claim counts an HTLC once, however often a state lists it. *)
Definition mclaim (me : bool) (s : State) : Z := bal s me + map_sum (own me) (by_id (htlcs s)).

Lemma classify_keeps local next preimage h u x :
  let me := is_a local in
  (∀ y, y ∈ htlcs (cur local) → is_u64 (bal (cur local) me + h_amount y)) →
  classify_peer_update local next preimage h = Ok (u, x) →
  match u with
  | SettleHtlc => ∃ y, x = Some y ∧ y ∈ htlcs (cur local) ∧ offered_by_a y = me ∧
      hash_preimage_hex preimage = payment_hash y ∧ mclaim me (cur local) - h_amount y ≤ mclaim me next
  | AddHtlc => mclaim me (cur local) ≤ mclaim me next ∧
      ∃ y, x = Some y ∧ by_id (htlcs next) !! h_id y = Some y ∧ offered_by_a y = negb me
  | _ => mclaim me (cur local) ≤ mclaim me next
  end.
Proof.
  intros me Hb H. unfold classify_peer_update in H. unfold mclaim.
  set (c := by_id (htlcs (cur local))) in *. set (n := by_id (htlcs next)) in *. cbv zeta in H. fold me in H.
  destruct (existsb _ _) eqn:Hex in H; [done|].
  assert (Hag : ∀ k v w, n !! k = Some v → c !! k = Some w → v = w).
  { intros k v w Hv Hw. apply not_true_iff_false in Hex. rewrite existsb_exists in Hex. destruct (decide (v = w)) as [|Hne]; [done|].
    destruct Hex. exists (k, v). split; [by apply list_elem_of_In, elem_of_map_to_list|]. cbn. rewrite Hw.
    rewrite bool_decide_true by done. rewrite bool_decide_false by congruence. done. }
  pose proof (map_sum_difference (own me) n c Hag) as Hsum.
  rewrite (values_sum _ (c ∖ n)), (values_sum _ (n ∖ c)) in Hsum.
  pose proof (λ y, values_elem (c ∖ n) y) as Hrem. pose proof (λ y, values_elem (n ∖ c) y) as Hadd.
  destruct ((map_to_list (n ∖ c)).*2) as [|a [|]], ((map_to_list (c ∖ n)).*2) as [|r [|]]; try done;
    cbn [list_sum] in Hsum.
  - peel H. simplify_eq. bools. lia.
  - assert (Hr : r ∈ htlcs (cur local)).
    { destruct (Hrem r) as [k [Hk _]%lookup_difference_Some]; [by left|]. by apply by_id_lookup in Hk as [? _]. }
    peel H. bools. assert (Hown : own me r = h_amount r).
    { unfold own. by destruct (Bool.eqb _ _). }
    specialize (Hb r Hr). destruct (_ && _) eqn:Hf in H.
    + simplify_eq. bools.
      match goal with E : bal next _ = u64 _ |- _ => rewrite u64_small in E by done end. lia.
    + destruct (_ && _) eqn:Hset in H; [|done]. peel H. simplify_eq. bools. exists r.
      conjs; [done|done|by apply Bool.eqb_prop|by apply String.eqb_eq|lia].
  - assert (Ha : n !! h_id a = Some a).
    { destruct (Hadd a) as [k [Hk _]%lookup_difference_Some]; [by left|]. by apply by_id_lookup in Hk as Hk'; destruct Hk' as [_ ->]. }
    peel H. simplify_eq. bools.
    assert (Hown : own me a = 0) by (unfold own; by destruct (Bool.eqb (offered_by_a a) me)).
    split; [lia|]. exists a. conjs; [done|done|]. by destruct (offered_by_a a), me.
Qed.

(** An accepted update keeps the local claim: balance and HTLCs offered by the local
    side. Only a settlement lowers it, by the amount of one local HTLC of the current
    state, and only with the preimage of that HTLC. *)
Theorem classify_peer_update_safe local next preimage h u x :
  let me := is_a local in
  sound (info local) (cur local) → NoDup (h_id <$> htlcs (cur local)) →
  Forall (λ y, 0 ≤ h_amount y) (htlcs next) →
  classify_peer_update local next preimage h = Ok (u, x) →
  match u with
  | SettleHtlc => ∃ y, x = Some y ∧ y ∈ htlcs (cur local) ∧ offered_by_a y = me ∧
      hash_preimage_hex preimage = payment_hash y ∧ claim me (cur local) - h_amount y ≤ claim me next
  | _ => claim me (cur local) ≤ claim me next
  end.
Proof.
  intros me Hs Hnd Hnn H. pose proof (sound_balanced _ _ Hs) as Hb.
  assert (Hc : mclaim me (cur local) = claim me (cur local)) by (unfold mclaim; by rewrite by_id_sum).
  assert (Hn : mclaim me next ≤ claim me next).
  { unfold mclaim, claim. pose proof (by_id_sum_le (own me) (htlcs next)) as Hle. rewrite Forall_forall in Hnn.
    apply Z.add_le_mono_l, Hle. intros y Hy. apply own_nonneg. by apply Hnn. }
  apply classify_keeps in H.
  - fold me in H. destruct u; [lia|destruct H; lia| |lia]. destruct H as (y & ? & ? & ? & ? & ?). exists y. conjs; try done. lia.
  - fold me. intros y Hy. pose proof (side_bounds _ _ me Hb) as (? & ? & Hcap). pose proof (side_bounds _ _ (negb me) Hb) as (? & _).
    assert (h_amount y ≤ locked (cur local)).
    { apply list_sum_elem_le; [|done]. intros z Hz. pose proof (proj1 (Forall_forall _ _) (b_htlcs _ _ Hb) z Hz). cbn in *. lia. }
    assert (0 < h_amount y) by exact (proj1 (Forall_forall _ _) (b_htlcs _ _ Hb) y Hy). unfold is_u64 in *. lia.
Qed.
End peer.
