(* ===== verification/ChannelText.v ===== *)
(** * The channel file ([Channel::serialize] and [Channel::deserialize] of
    [src/channel.cpp])

    Lines of words, read with [operator>>] of an [std::istringstream]: a failed read
    leaves the rest of the line unread and later values as they were. *)
From stdpp Require Import sorting.
From S2P Require Import Prelude Strings Lines Crypto Types Wire Block Script Channel.

(** ** [operator>>] *)

Fixpoint span_word (s : string) : string * string :=
  match s with
  | "" => ("", "")
  | String c s' => if is_space c then ("", s) else let '(w, r) := span_word s' in (String c w, r)
  end.
(** [in >> word] into a string that holds [old]. *)
Definition read_word (old : string) (st : stream) : string * stream :=
  match st with
  | None => (old, None)
  | Some s => let s := skip_spaces s in
              if is_empty s then (old, None) else let '(w, r) := span_word s in (w, Some r)
  end.
(** [in >> v] into an unsigned integer below [w] that holds [old]. *)
Definition read_uint (w old : Z) (st : stream) : Z * stream :=
  match st with
  | None => (old, None)
  | Some s =>
      let s := skip_spaces s in
      if is_empty s then (old, None)
      else
        let '(neg, s) := match s with
                         | String "-" s => (true, s)
                         | String "+" s => (false, s)
                         | _ => (false, s)
                         end in
        let '(v, r) := read_digits 10 0 s in
        if String.eqb r s then (0, None)
        else if w <=? v then (w - 1, None)
        else ((if (neg : bool) then (- v) mod w else v), Some r)
  end.

(** ** Printing *)

(** A [std::map] with integer keys, in order. *)
Definition key_le {A} (a b : Z * A) : Prop := a.1 ≤ b.1.
#[export] Instance key_le_dec {A} (a b : Z * A) : Decision (key_le a b).
Proof. unfold key_le. apply _. Defined.
Definition in_order {A} (m : gmap Z A) : list (Z * A) := merge_sort key_le (map_to_list m).

Definition or_dash (s : string) : string := if is_empty s then "-" else s.
Definition line (ws : list string) : string := join " " ws.

Definition head_lines (c : Channel) : list string :=
  let i := info c in
  ["v 1"; line ["is_a"; if is_a c then "1" else "0"]; line ["addr_a"; addr_a i]; line ["addr_b"; addr_b i];
   line ["capacity"; to_string (capacity i)];
   line ["funding"; or_dash (funding_txid i); to_string (funding_vout i)];
   line ["delay"; to_string (to_self_delay i)]; line ["fee"; to_string (info_fee i)];
   line ["remote_pub"; remote_pub c]; line ["seed"; seed c]; line ["cur"; encode_state (cur c)];
   line ["remote_sig_cur"; or_dash (remote_sig_cur c)]].
Definition serialize_lines (c : Channel) : list string :=
  head_lines c ++
  option_list ((λ s, line ["pending"; encode_state s]) <$> pending c) ++
  option_list ((λ s, line ["remote_sig_pending"; s]) <$> remote_sig_pending c) ++
  ((λ kh, line ["rhash"; to_string kh.1; kh.2]) <$> in_order (remote_hashes c)) ++
  ((λ kh, line ["rsecret"; to_string kh.1; kh.2]) <$> in_order (remote_secrets c)) ++
  ((λ ks, line ["hist"; to_string ks.1; encode_state ks.2]) <$> in_order (history c)) ++
  (in_order (abandoned c) ≫= λ kl, (λ s, line ["aband"; to_string kl.1; encode_state s]) <$> kl.2).
Definition serialize (c : Channel) : string := unlines (serialize_lines c).

(** ** Reading *)

Definition set_peer (rpk : string) (a : bool) (i : Info) (sd : string) (c : Channel) : Channel :=
  mkChannel (local_address c) (local_public_key c) (key_sign c) rpk a i sd (cur c) (pending c) (remote_sig_cur c)
    (remote_sig_pending c) (remote_hashes c) (remote_secrets c) (history c) (abandoned c).
Definition set_is_a (a : bool) (c : Channel) : Channel := set_peer (remote_pub c) a (info c) (seed c) c.
Definition set_addr_a (v : string) (c : Channel) : Channel :=
  let i := info c in
  set_info (mkInfo v (addr_b i) (capacity i) (funding_txid i) (funding_vout i) (to_self_delay i) (info_fee i)) c.
Definition set_addr_b (v : string) (c : Channel) : Channel :=
  let i := info c in
  set_info (mkInfo (addr_a i) v (capacity i) (funding_txid i) (funding_vout i) (to_self_delay i) (info_fee i)) c.
Definition set_numbers (cap delay fe : Z) (c : Channel) : Channel :=
  let i := info c in
  set_info (mkInfo (addr_a i) (addr_b i) cap (funding_txid i) (funding_vout i) delay fe) c.
Definition set_cur (s : State) (c : Channel) : Channel :=
  set_states s (pending c) (remote_sig_cur c) (remote_sig_pending c) (history c) (abandoned c) c.
Definition set_pending (s : option State) (c : Channel) : Channel :=
  set_states (cur c) s (remote_sig_cur c) (remote_sig_pending c) (history c) (abandoned c) c.
Definition set_sigs (s : string) (sp : option string) (c : Channel) : Channel :=
  set_states (cur c) (pending c) s sp (history c) (abandoned c) c.
Definition set_past (hist : gmap Z State) (ab : gmap Z (list State)) (c : Channel) : Channel :=
  set_states (cur c) (pending c) (remote_sig_cur c) (remote_sig_pending c) hist ab c.
Definition un_dash (s : string) : string := if String.eqb s "-" then "" else s.

(** One line; the channel under construction starts from [new_channel] with empty fields.
    [junk] is the value of an integer that a line without one leaves uninitialised. Only
    whether the [int] of [is_a] is one matters, so that it is read below 2^31. [None]:
    the exception on a state that does not parse. *)
Definition load_line (junk : Z) (c : Channel) (l : string) : option Channel :=
  let i := info c in
  let '(k, ls) := read_word "" (Some l) in
  let word := fst (read_word "" ls) in
  let numbered := let '(n, ls) := read_uint W64 junk ls in (n, fst (read_word "" ls)) in
  if String.eqb k "is_a" then Some (set_is_a (fst (read_uint 2147483648 junk ls) =? 1)%Z c)
  else if String.eqb k "addr_a" then Some (set_addr_a (fst (read_word (addr_a i) ls)) c)
  else if String.eqb k "addr_b" then Some (set_addr_b (fst (read_word (addr_b i) ls)) c)
  else if String.eqb k "capacity" then
    Some (set_numbers (fst (read_uint W64 (capacity i) ls)) (to_self_delay i) (info_fee i) c)
  else if String.eqb k "funding" then
    let '(txid, ls) := read_word (funding_txid i) ls in
    Some (set_funding (un_dash txid) (fst (read_uint W32 (funding_vout i) ls)) c)
  else if String.eqb k "delay" then
    Some (set_numbers (capacity i) (fst (read_uint W64 (to_self_delay i) ls)) (info_fee i) c)
  else if String.eqb k "fee" then
    Some (set_numbers (capacity i) (to_self_delay i) (fst (read_uint W64 (info_fee i) ls)) c)
  else if String.eqb k "remote_pub" then
    Some (set_peer (fst (read_word (remote_pub c) ls)) (is_a c) i (seed c) c)
  else if String.eqb k "seed" then Some (set_peer (remote_pub c) (is_a c) i (fst (read_word (seed c) ls)) c)
  else if String.eqb k "cur" then s ← decode_state word; Some (set_cur s c)
  else if String.eqb k "pending" then s ← decode_state word; Some (set_pending (Some s) c)
  else if String.eqb k "remote_sig_cur" then
    Some (set_sigs (un_dash (fst (read_word (remote_sig_cur c) ls))) (remote_sig_pending c) c)
  else if String.eqb k "remote_sig_pending" then Some (set_sigs (remote_sig_cur c) (Some word) c)
  else if String.eqb k "rhash" then
    Some (set_remote (<[numbered.1 := numbered.2]> (remote_hashes c)) (remote_secrets c) c)
  else if String.eqb k "rsecret" then
    Some (set_remote (remote_hashes c) (<[numbered.1 := numbered.2]> (remote_secrets c)) c)
  else if String.eqb k "hist" then
    s ← decode_state numbered.2; Some (set_past (<[numbered.1 := s]> (history c)) (abandoned c) c)
  else if String.eqb k "aband" then
    s ← decode_state numbered.2;
    Some (set_past (history c) (<[numbered.1 := default [] (abandoned c !! numbered.1) ++ [s]]> (abandoned c)) c)
  else Some c.

Fixpoint load_lines (junk : Z) (c : Channel) (ls : list string) : option Channel :=
  match ls with
  | [] => Some c
  | l :: ls => c ← load_line junk c l; load_lines junk c ls
  end.

Definition deserialize (junk : Z) (data : string) (addr pk : string) (sign : string → string) : result Channel :=
  let c0 := new_channel addr pk sign "" false (mkInfo "" "" 0 "" 0 6 1) "" in
  match load_lines junk c0 (getlines "010" (Some data)) with
  | None => Err "corrupt channel file"
  | Some c =>
      let i := info c in
      reject_if is_empty (remote_pub c) || is_empty (seed c) || is_empty (addr_a i) || is_empty (addr_b i)
        as "corrupt channel file" ;;
      reject_if negb (String.eqb addr (if is_a c then addr_a i else addr_b i))
        as "channel file does not belong to this wallet" ;;
      Ok c
  end.

(** ** Reading words back *)

#[local] Arguments is_space : simpl never.
Definition spaceless (s : string) : bool := all_chars (λ c, negb (is_space c)) s.
Definition is_word (s : string) : Prop := s ≠ "" ∧ spaceless s = true.

Lemma spaceless_app a b : spaceless (a +:+ b) = spaceless a && spaceless b.
Proof. apply all_chars_app. Qed.
Lemma spaceless_join c fs : is_space c = false → Forall (λ f, spaceless f = true) fs → spaceless (join c fs) = true.
Proof.
  intros Hc. induction 1 as [|f fs Hf Hfs IH]; [done|]. destruct fs as [|g fs]; [done|].
  change (join c (f :: g :: fs)) with (f +:+ String c (join c (g :: fs))). rewrite spaceless_app, Hf.
  unfold spaceless at 1. cbn [all_chars]. by rewrite Hc.
Qed.
Lemma to_string_spaceless z : spaceless (to_string z) = true.
Proof.
  apply (all_chars_impl is_digit_char); [|apply to_string_digits]. intros c Hc%digit_range. unfold is_space.
  apply negb_true_iff, orb_false_iff. split; [apply Z.eqb_neq; lia|].
  apply andb_false_iff. right. apply Z.leb_gt. lia.
Qed.
Lemma to_string_word z : is_word (to_string z).
Proof. split; [apply (to_string_canonical z)|apply to_string_spaceless]. Qed.
Lemma spaceless_free_of c s : is_space c = true → spaceless s = true → free_of c s = true.
Proof.
  intros Hc. apply all_chars_impl. intros d Hd. apply negb_true_iff, Ascii.eqb_neq. intros ->. by rewrite Hc in Hd.
Qed.

(** The words after the first one of a line. *)
Fixpoint tail_words (ws : list string) : string :=
  match ws with [] => "" | w :: ws => String " " (w +:+ tail_words ws) end.
Lemma line_tail k ws : line (k :: ws) = k +:+ tail_words ws.
Proof.
  revert k. induction ws as [|w ws IH]; intros k; [by rewrite str_app_nil_r|].
  change (line (k :: w :: ws)) with (k +:+ String " " (line (w :: ws))). by rewrite IH.
Qed.
Lemma tail_words_cases ws : tail_words ws = "" ∨ ∃ r, tail_words ws = String " " r.
Proof. destruct ws; cbn; eauto. Qed.

Lemma skip_spaces_word s r : is_word s → skip_spaces (s +:+ r) = s +:+ r.
Proof. intros [Hne Hs]. destruct s as [|c s]; [done|]. unfold spaceless in Hs. rewrite str_app_cons. cbn in Hs |- *. bools. by rewrite H. Qed.
Lemma span_word_tail s ws : spaceless s = true → span_word (s +:+ tail_words ws) = (s, tail_words ws).
Proof.
  unfold spaceless. induction s as [|c s IH]; cbn [all_chars].
  - intros _. rewrite str_app_nil_l. by destruct ws.
  - intros Hs. bools. rewrite str_app_cons. cbn [span_word]. by rewrite H, IH.
Qed.

Lemma read_word_head old k ws : is_word k → read_word old (Some (k +:+ tail_words ws)) = (k, Some (tail_words ws)).
Proof.
  intros H. cbn [read_word]. rewrite skip_spaces_word by done.
  destruct H as [Hne Hs]. rewrite span_word_tail by done.
  destruct k as [|c k]; [done|]. by rewrite str_app_cons.
Qed.
Lemma read_word_tail old w ws : is_word w → read_word old (Some (tail_words (w :: ws))) = (w, Some (tail_words ws)).
Proof. intros H. rewrite <-(read_word_head old w ws H). reflexivity. Qed.

Lemma read_digits_tail acc s ws : digits s → read_digits 10 acc (s +:+ tail_words ws) = (dec_val acc s, tail_words ws).
Proof.
  revert acc. induction s as [|c s IH]; intros acc; [intros _; by destruct ws|].
  rewrite str_app_cons. cbn [all_chars read_digits dec_val].
  intros [Hc Hs]%andb_prop. apply digit_range in Hc as Hr. unfold digit_value.
  unfold is_digit_char in Hc. rewrite Hc. replace (_ <? 10) with true by (symmetry; apply Z.ltb_lt; lia).
  by apply IH.
Qed.
Lemma no_sign s r : digits s → s ≠ "" →
  match s +:+ r with
  | String "-" t => (true, t)
  | String "+" t => (false, t)
  | _ => (false, s +:+ r)
  end = (false, s +:+ r).
Proof.
  intros Hd Hne. destruct s as [|c s]; [done|]. cbn [all_chars] in Hd. apply andb_prop in Hd as [Hc%digit_range _].
  rewrite str_app_cons. destruct c as [[][][][][][][][]]; first [done|vm_compute in Hc; by destruct Hc].
Qed.
Lemma read_uint_tail w old z ws :
  0 ≤ z < w → read_uint w old (Some (tail_words (to_string z :: ws))) = (z, Some (tail_words ws)).
Proof.
  intros Hz. destruct (to_string_canonical z) as (Hd & Hne & _). cbn [read_uint tail_words].
  change (skip_spaces (String " " ?s)) with (skip_spaces s). rewrite skip_spaces_word by apply to_string_word.
  rewrite (proj2 (is_empty_false _)) by (destruct (to_string z); [done|by rewrite str_app_cons]).
  rewrite no_sign by done. rewrite read_digits_tail by done. rewrite dec_val_to_string by lia.
  assert (String.eqb (tail_words ws) (to_string z +:+ tail_words ws) = false) as ->.
  { apply String.eqb_neq. intros E. apply (f_equal String.length) in E. rewrite str_length_app in E.
    destruct (to_string z); [done|cbn in E; lia]. }
  by rewrite (proj2 (Z.leb_gt w z)) by lia.
Qed.

(** ** The text of a state *)

Definition htlc_text_ok (h : Htlc) : Prop :=
  is_u64 (h_id h) ∧ is_u64 (h_amount h) ∧ is_u64 (h_expiry h) ∧ spaceless (payment_hash h) = true ∧
  free_of "," (payment_hash h) = true ∧ free_of ";" (payment_hash h) = true ∧ free_of ":" (payment_hash h) = true.
Definition state_text_ok (s : State) : Prop :=
  is_u64 (st_n s) ∧ is_u64 (bal_a s) ∧ is_u64 (bal_b s) ∧ is_u64 (next_htlc_id s) ∧ Forall htlc_text_ok (htlcs s).
#[export] Instance htlc_text_ok_dec h : Decision (htlc_text_ok h).
Proof. unfold htlc_text_ok. apply _. Defined.
#[export] Instance state_text_ok_dec s : Decision (state_text_ok s).
Proof. unfold state_text_ok. apply _. Defined.

Lemma field_to_string z : is_u64 z → field_u64 (to_string z) = Some z.
Proof. intros Hz. unfold field_u64. by rewrite stoull_to_string. Qed.
Lemma side_free c (b : bool) : c ≠ "0"%char → c ≠ "1"%char → free_of c (if b then "1" else "0") = true.
Proof. intros H0 H1. unfold free_of. destruct b; cbn; apply andb_true_iff; split; try done; by apply negb_true_iff, Ascii.eqb_neq. Qed.

Lemma encode_htlc_free c h :
  is_digit_char c = false → c ≠ ","%char → free_of c (payment_hash h) = true → free_of c (encode_htlc h) = true.
Proof.
  intros Hc Hn Hp. apply free_of_join; [done|]. unfold clean.
  repeat constructor; [by apply to_string_free_of| |by apply to_string_free_of|done|by apply to_string_free_of].
  apply side_free; intros ->; done.
Qed.

Lemma decode_encode_htlc h : htlc_text_ok h → decode_htlc (encode_htlc h) = Some h.
Proof.
  intros (Hi & Ha & He & _ & Hc & _). unfold decode_htlc, encode_htlc. rewrite getlines_join.
  - rewrite !field_to_string by done. cbn. destruct h as [? [] ? ? ?]; done.
  - unfold clean. repeat constructor; [by apply to_string_free_of|by apply side_free|by apply to_string_free_of|done|].
    by apply to_string_free_of.
  - apply (to_string_canonical (h_expiry h)).
Qed.

Lemma decode_htlcs hs :
  Forall htlc_text_ok hs → mapM decode_htlc (getlines ";" (Some (join ";" (encode_htlc <$> hs)))) = Some hs.
Proof.
  intros Hf. destruct (decide (hs = [])) as [->|Hne]; [done|]. rewrite getlines_join.
  - apply mapM_Some. clear Hne. induction Hf; constructor; [by apply decode_encode_htlc|done].
  - unfold clean. apply Forall_fmap. eapply Forall_impl; [exact Hf|]. intros h (_ & _ & _ & _ & _ & H & _).
    by apply encode_htlc_free.
  - assert (H : ∀ h, encode_htlc h ≠ "").
    { intros h E. apply (f_equal String.length) in E. unfold encode_htlc in E. cbn [join] in E.
      rewrite str_length_app in E. cbn in E. lia. }
    clear Hf. induction hs as [|h [|h' hs] IH]; [done|apply H|by apply IH].
Qed.

Lemma state_fields_free c s :
  is_digit_char c = false → c ≠ ","%char → c ≠ ";"%char → Forall (λ h, free_of c (payment_hash h) = true) (htlcs s) →
  free_of c (join ";" (encode_htlc <$> htlcs s)) = true.
Proof.
  intros Hc Hn1 Hn2 Hf. apply free_of_join; [done|]. unfold clean. apply Forall_fmap. eapply Forall_impl; [exact Hf|].
  intros h Hh. by apply encode_htlc_free.
Qed.

Lemma decode_encode_state s : state_text_ok s → decode_state (encode_state s) = Some s.
Proof.
  intros (Hn & Ha & Hb & Hx & Hf). unfold decode_state, encode_state.
  set (hs := join ";" (encode_htlc <$> htlcs s)).
  assert (Hc : clean ":" [to_string (st_n s); to_string (bal_a s); to_string (bal_b s); to_string (next_htlc_id s); hs]).
  { unfold clean. repeat constructor; try by apply to_string_free_of. apply state_fields_free; try done.
    eapply Forall_impl; [exact Hf|]. by intros h (_ & _ & _ & _ & _ & _ & ?). }
  set (fs := [to_string (st_n s); to_string (bal_a s); to_string (bal_b s); to_string (next_htlc_id s)]) in *.
  assert (Hg : getlines ":" (Some (join ":" (fs ++ [hs]))) = if is_empty hs then fs else fs ++ [hs]).
  { unfold getlines. by rewrite split_at_join, last_last, removelast_last. }
  change [to_string (st_n s); to_string (bal_a s); to_string (bal_b s); to_string (next_htlc_id s); hs] with (fs ++ [hs]).
  rewrite Hg.
  assert (Hgo : (n ← field_u64 (to_string (st_n s)); a ← field_u64 (to_string (bal_a s)); b ← field_u64 (to_string (bal_b s));
    next ← field_u64 (to_string (next_htlc_id s)); hs ← mapM decode_htlc (getlines ";" (Some hs));
    Some (mkState n a b hs next)) = Some s).
  { rewrite !field_to_string by done. cbn [mbind option_bind]. unfold hs. rewrite decode_htlcs by done. by destruct s. }
  destruct (is_empty hs) eqn:He.
  - apply is_empty_true in He. rewrite He in Hgo. exact Hgo.
  - exact Hgo.
Qed.

Lemma encode_state_word s : state_text_ok s → is_word (encode_state s).
Proof.
  intros (_ & _ & _ & _ & Hf). split.
  - intros E. apply (f_equal String.length) in E. unfold encode_state in E. cbn [join] in E. rewrite str_length_app in E.
    cbn in E. lia.
  - apply spaceless_join; [done|]. repeat constructor; try apply to_string_spaceless.
    apply spaceless_join; [done|]. apply Forall_fmap. eapply Forall_impl; [exact Hf|]. intros h (_ & _ & _ & Hp & _).
    apply spaceless_join; [done|]. repeat constructor; try apply to_string_spaceless; [by destruct (offered_by_a h)|done].
Qed.

(** ** The channel file *)

Section file.
Variable junk : Z.

Ltac word := first [by apply to_string_word | by apply encode_state_word | done | by (split; vm_compute)].
(** Read a printed line: its key, then its values. *)
Ltac read_line :=
  unfold load_line; rewrite line_tail, read_word_head by word;
  cbn [String.eqb Ascii.eqb Bool.eqb];
  rewrite ?read_word_tail by word; rewrite ?read_uint_tail by done; cbn [fst snd];
  rewrite ?read_word_tail by word; cbn [fst snd].

Lemma or_dash_word s : s = "" ∨ is_word s → is_word (or_dash s).
Proof. intros [->|H]; [by split; vm_compute|]. unfold or_dash. by rewrite (proj2 (is_empty_false s)) by apply H. Qed.
Lemma un_dash_or s : s ≠ "-" → un_dash (or_dash s) = s.
Proof.
  intros H. unfold or_dash. destruct (is_empty s) eqn:E; [by apply is_empty_true in E as ->|].
  unfold un_dash. by rewrite (proj2 (String.eqb_neq _ _)).
Qed.

Lemma load_lines_app c ls ks : load_lines junk c (ls ++ ks) = (c ← load_lines junk c ls; load_lines junk c ks).
Proof.
  revert c. induction ls as [|l ls IH]; intros c; [done|]. cbn [app load_lines].
  destruct (load_line junk c l); cbn [mbind option_bind]; [apply IH|done].
Qed.

Lemma load_rhash c (l : list (Z * string)) :
  Forall (λ kh, is_u64 kh.1 ∧ is_word kh.2) l →
  load_lines junk c ((λ kh, line ["rhash"; to_string kh.1; kh.2]) <$> l) =
  Some (set_remote (foldl (λ m kv, <[kv.1 := kv.2]> m) (remote_hashes c) l) (remote_secrets c) c).
Proof.
  intros Hf. revert c. induction Hf as [|[k h] l [Hk Hh] _ IH]; intros c; [by destruct c|].
  cbn in Hk, Hh. cbn [fmap list_fmap load_lines fst snd].
  assert (load_line junk c (line ["rhash"; to_string k; h]) =
          Some (set_remote (<[k := h]> (remote_hashes c)) (remote_secrets c) c)) as -> by by read_line.
  cbn [mbind option_bind]. etransitivity; [apply IH|done].
Qed.
Lemma load_rsecret c (l : list (Z * string)) :
  Forall (λ kh, is_u64 kh.1 ∧ is_word kh.2) l →
  load_lines junk c ((λ kh, line ["rsecret"; to_string kh.1; kh.2]) <$> l) =
  Some (set_remote (remote_hashes c) (foldl (λ m kv, <[kv.1 := kv.2]> m) (remote_secrets c) l) c).
Proof.
  intros Hf. revert c. induction Hf as [|[k h] l [Hk Hh] _ IH]; intros c; [by destruct c|].
  cbn in Hk, Hh. cbn [fmap list_fmap load_lines fst snd].
  assert (load_line junk c (line ["rsecret"; to_string k; h]) =
          Some (set_remote (remote_hashes c) (<[k := h]> (remote_secrets c)) c)) as -> by by read_line.
  cbn [mbind option_bind]. etransitivity; [apply IH|done].
Qed.
Lemma load_hist c (l : list (Z * State)) :
  Forall (λ ks, is_u64 ks.1 ∧ state_text_ok ks.2) l →
  load_lines junk c ((λ ks, line ["hist"; to_string ks.1; encode_state ks.2]) <$> l) =
  Some (set_past (foldl (λ m kv, <[kv.1 := kv.2]> m) (history c) l) (abandoned c) c).
Proof.
  intros Hf. revert c. induction Hf as [|[k s] l [Hk Hs] _ IH]; intros c; [by destruct c|].
  cbn in Hk, Hs. cbn [fmap list_fmap load_lines fst snd].
  assert (load_line junk c (line ["hist"; to_string k; encode_state s]) =
          Some (set_past (<[k := s]> (history c)) (abandoned c) c)) as ->
    by (read_line; by rewrite decode_encode_state).
  cbn [mbind option_bind]. etransitivity; [apply IH|done].
Qed.

(** The states abandoned with one number, then all of them. *)
Lemma load_aband1 c n (l : list State) :
  is_u64 n → Forall state_text_ok l →
  load_lines junk c ((λ s, line ["aband"; to_string n; encode_state s]) <$> l) =
  Some (set_past (history c) (if decide (l = []) then abandoned c
                              else <[n := default [] (abandoned c !! n) ++ l]> (abandoned c)) c).
Proof.
  intros Hn Hf. revert c. induction Hf as [|s l Hs _ IH]; intros c; [by destruct c|].
  cbn [fmap list_fmap load_lines].
  assert (load_line junk c (line ["aband"; to_string n; encode_state s]) =
          Some (set_past (history c) (<[n := default [] (abandoned c !! n) ++ [s]]> (abandoned c)) c)) as ->
    by (read_line; by rewrite decode_encode_state).
  cbn [mbind option_bind]. rewrite decide_False by done. etransitivity; [apply IH|].
  cbn [history abandoned set_past set_states]. destruct (decide (l = [])) as [->|]; [done|].
  rewrite lookup_insert_eq, insert_insert_eq. change (default [] (Some ?x)) with x. by rewrite <-app_assoc.
Qed.
Lemma load_aband c (l : list (Z * list State)) :
  NoDup l.*1 → Forall (λ ks, is_u64 ks.1 ∧ ks.2 ≠ [] ∧ Forall state_text_ok ks.2) l →
  (∀ k, k ∈ l.*1 → abandoned c !! k = None) →
  load_lines junk c (l ≫= λ kl, (λ s, line ["aband"; to_string kl.1; encode_state s]) <$> kl.2) =
  Some (set_past (history c) (foldl (λ m kv, <[kv.1 := kv.2]> m) (abandoned c) l) c).
Proof.
  intros Hnd Hf. revert c Hnd. induction Hf as [|[k ss] l (Hk & Hne & Hs) _ IH]; intros c Hnd Hno; [by destruct c|].
  cbn in Hk, Hne, Hs. apply NoDup_cons in Hnd as [Hkl Hnd].
  change (((k, ss) :: l) ≫= ?f) with (f (k, ss) ++ (l ≫= f)). rewrite load_lines_app.
  cbn [fst snd]. rewrite load_aband1 by done. cbn [mbind option_bind]. rewrite decide_False by done.
  rewrite (Hno k) by (cbn; left). cbn [default app]. rewrite IH; [done|done|].
  intros j Hj. cbn. rewrite lookup_insert_ne by (intros ->; done). apply Hno. cbn. by right.
Qed.

(** What a running channel holds: words without spaces, numbers in range, states whose
    payment hashes have no separator (they are hexadecimal), no empty list of abandoned
    states. *)
Record file_ok (c : Channel) : Prop := {
  f_words : Forall is_word [addr_a (info c); addr_b (info c); remote_pub c; seed c];
  f_txid : (funding_txid (info c) = "" ∨ is_word (funding_txid (info c))) ∧ funding_txid (info c) ≠ "-";
  f_sig : (remote_sig_cur c = "" ∨ is_word (remote_sig_cur c)) ∧ remote_sig_cur c ≠ "-";
  f_nums : is_u64 (capacity (info c)) ∧ is_u32 (funding_vout (info c)) ∧ is_u64 (to_self_delay (info c)) ∧
           is_u64 (info_fee (info c));
  f_cur : state_text_ok (cur c);
  f_pending : ∀ s, pending c = Some s → state_text_ok s;
  f_sig_pending : ∀ s, remote_sig_pending c = Some s → is_word s;
  f_hashes : map_Forall (λ k h, is_u64 k ∧ is_word h) (remote_hashes c);
  f_secrets : map_Forall (λ k h, is_u64 k ∧ is_word h) (remote_secrets c);
  f_history : map_Forall (λ k s, is_u64 k ∧ state_text_ok s) (history c);
  f_abandoned : map_Forall (λ k l, is_u64 k ∧ l ≠ [] ∧ Forall state_text_ok l) (abandoned c);
  f_local : local_address c = if is_a c then addr_a (info c) else addr_b (info c);
}.

Lemma load_cons c l ls :
  load_lines junk c (l :: ls) = match load_line junk c l with Some c => load_lines junk c ls | None => None end.
Proof. reflexivity. Qed.

(** The twelve lines every file starts with. *)
Lemma load_head c :
  file_ok c →
  load_lines junk (new_channel (local_address c) (local_public_key c) (key_sign c) "" false (mkInfo "" "" 0 "" 0 6 1) "")
    (head_lines c) =
  Some (mkChannel (local_address c) (local_public_key c) (key_sign c) (remote_pub c) (is_a c) (info c) (seed c)
          (cur c) None (remote_sig_cur c) None ∅ ∅ ∅ ∅).
Proof.
  intros H. pose proof (f_words c H) as Hw. rewrite !Forall_cons in Hw. destruct Hw as (Ha & Hb & Hp & Hs & _).
  destruct (f_txid c H) as [Ht1 Ht2], (f_sig c H) as [Hg1 Hg2], (f_nums c H) as (Hn1 & Hn2 & Hn3 & Hn4).
  pose proof (f_cur c H) as Hc. pose proof (or_dash_word _ Ht1) as Ht. pose proof (or_dash_word _ Hg1) as Hg.
  unfold head_lines.
  assert ((if is_a c then "1" else "0") = to_string (if is_a c then 1 else 0)) as -> by by destruct (is_a c).
  assert (Hside : 0 ≤ (if is_a c then 1 else 0) < 2147483648) by (destruct (is_a c); lia).
  rewrite load_cons. change (load_line junk ?c "v 1") with (Some c). cbv iota.
  rewrite load_cons. assert (∀ c', load_line junk c' (line ["is_a"; to_string (if is_a c then 1 else 0)]) =
    Some (set_is_a (is_a c) c')) as -> by (intros c'; read_line; by destruct (is_a c)). cbv iota.
  do 4 (rewrite load_cons; read_line).
  rewrite un_dash_or by done. do 6 (rewrite load_cons; read_line; rewrite ?decode_encode_state by done; cbn [mbind option_bind]).
  rewrite un_dash_or by done. by destruct c as [? ? ? ? ? [] ? ? ? ? ? ? ? ? ?].
Qed.

Lemma in_order_perm {A} (m : gmap Z A) : in_order m ≡ₚ map_to_list m.
Proof. apply merge_sort_Permutation. Qed.
Lemma in_order_Forall {A} (P : Z → A → Prop) (m : gmap Z A) :
  map_Forall P m → Forall (λ kv, P kv.1 kv.2) (in_order m).
Proof. intros H. rewrite in_order_perm. apply map_Forall_to_list in H. by eapply Forall_impl; [exact H|intros []]. Qed.
Lemma in_order_keys {A} (m : gmap Z A) : NoDup (in_order m).*1.
Proof. rewrite in_order_perm. apply NoDup_fst_map_to_list. Qed.
Lemma fold_in_order {A} (m : gmap Z A) : foldl (λ m kv, <[kv.1 := kv.2]> m) ∅ (in_order m) = m.
Proof. rewrite (fold_insert_map _ m) by apply in_order_perm. apply (right_id_L ∅ (∪)). Qed.

Lemma load_pending c o :
  (∀ s, o = Some s → state_text_ok s) → pending c = None →
  load_lines junk c (option_list ((λ s, line ["pending"; encode_state s]) <$> o)) = Some (set_pending o c).
Proof.
  intros Ho Hc. destruct o as [s|].
  - specialize (Ho s eq_refl). change (option_list _) with [line ["pending"; encode_state s]]. rewrite load_cons.
    read_line. by rewrite decode_encode_state.
  - cbn. f_equal. destruct c. cbn in *. by subst.
Qed.
Lemma load_sig_pending c o :
  (∀ s, o = Some s → is_word s) → remote_sig_pending c = None →
  load_lines junk c (option_list ((λ s, line ["remote_sig_pending"; s]) <$> o)) =
  Some (set_sigs (remote_sig_cur c) o c).
Proof.
  intros Ho Hc. destruct o as [s|].
  - specialize (Ho s eq_refl). change (option_list _) with [line ["remote_sig_pending"; s]]. rewrite load_cons.
    by read_line.
  - cbn. f_equal. destruct c. cbn in *. by subst.
Qed.

Lemma load_serialized c :
  file_ok c →
  load_lines junk (new_channel (local_address c) (local_public_key c) (key_sign c) "" false (mkInfo "" "" 0 "" 0 6 1) "")
    (serialize_lines c) = Some c.
Proof.
  intros H. unfold serialize_lines. rewrite load_lines_app, load_head by done. cbn [mbind option_bind].
  rewrite load_lines_app, load_pending by (try done; apply (f_pending c H)). cbn [mbind option_bind].
  rewrite load_lines_app, load_sig_pending by (try done; apply (f_sig_pending c H)). cbn [mbind option_bind].
  rewrite load_lines_app, load_rhash by apply (in_order_Forall _ _ (f_hashes c H)). cbn [mbind option_bind].
  rewrite load_lines_app, load_rsecret by apply (in_order_Forall _ _ (f_secrets c H)). cbn [mbind option_bind].
  rewrite load_lines_app, load_hist by apply (in_order_Forall _ _ (f_history c H)). cbn [mbind option_bind].
  rewrite load_aband; [|apply in_order_keys|apply (in_order_Forall _ _ (f_abandoned c H))|done].
  cbn. rewrite !fold_in_order. by destruct c.
Qed.

Lemma line_clean ws : Forall (λ w, spaceless w = true) ws → free_of "010" (line ws) = true.
Proof.
  intros H. apply free_of_join; [done|]. unfold clean. eapply Forall_impl; [exact H|].
  intros w Hw. by apply spaceless_free_of.
Qed.
Lemma serialize_lines_clean c : file_ok c → clean "010" (serialize_lines c).
Proof.
  intros H. pose proof (f_words c H) as Hw. rewrite !Forall_cons in Hw.
  destruct Hw as ([_ Ha] & [_ Hb] & [_ Hp] & [_ Hs] & _).
  assert (Hd : ∀ s, (s = "" ∨ is_word s) → spaceless (or_dash s) = true) by (intros s Hs'; apply or_dash_word, Hs').
  pose proof (λ s Hs, proj2 (encode_state_word s Hs)) as He. pose proof to_string_spaceless as Hn.
  assert (Hline : ∀ k ws, spaceless k = true → Forall (λ w, spaceless w = true) ws → free_of "010" (line (k :: ws)) = true).
  { intros k ws Hk Hws. apply line_clean. by constructor. }
  unfold clean, serialize_lines. rewrite !Forall_app. conjs.
  - unfold head_lines. repeat constructor; try (apply Hline; [done|]; repeat constructor; auto).
    + by destruct (is_a c).
    + apply Hd, (f_txid c H).
    + apply He, (f_cur c H).
    + apply Hd, (f_sig c H).
  - destruct (pending c) as [s|] eqn:E; constructor; [|done]. apply Hline; [done|]. repeat constructor.
    apply He. by apply (f_pending c H).
  - destruct (remote_sig_pending c) as [s|] eqn:E; constructor; [|done]. apply Hline; [done|]. repeat constructor.
    by apply (f_sig_pending c H).
  - apply Forall_fmap. eapply Forall_impl; [apply (in_order_Forall _ _ (f_hashes c H))|].
    intros kh [_ [_ Hk]]. apply Hline; [done|]. by repeat constructor.
  - apply Forall_fmap. eapply Forall_impl; [apply (in_order_Forall _ _ (f_secrets c H))|].
    intros kh [_ [_ Hk]]. apply Hline; [done|]. by repeat constructor.
  - apply Forall_fmap. eapply Forall_impl; [apply (in_order_Forall _ _ (f_history c H))|].
    intros ks [_ Hk]. apply Hline; [done|]. repeat constructor; auto.
  - apply Forall_forall. intros l ([k ss] & Hl & Hin)%list_elem_of_bind.
    pose proof (in_order_Forall _ _ (f_abandoned c H)) as Hf. rewrite Forall_forall in Hf.
    destruct (Hf _ Hin) as (_ & _ & Hss). apply list_elem_of_fmap in Hl as (s & -> & Hs').
    apply Hline; [done|]. rewrite Forall_forall in Hss. repeat constructor; auto.
Qed.

End file.
