(* ===== verification/PowSearch.v ===== *)
(** * The multi-threaded nonce search ([search_block_pow] of [src/miner.cpp])

    The workers share atomic flags and race for the win. A step of the relation is one
    access to the shared state by one worker; the interleaving, the stop flag and the
    clock are arbitrary. The hash counter, which only feeds statistics, is left out. *)
From S2P Require Import Prelude ConsensusRules Strings Crypto Types Wire Block.

Section search.
Context {C : Crypto}.

Definition pow_meets_target (algorithm : PowAlgorithm) (header_hash : string) (target : Z) :
    option bool :=
  h ← (match algorithm with
       | Sha3_512 => hash_head64 header_hash
       | MemoryHard => memory_hard_head64 header_hash
       end);
  Some (h <=? target).

(** [hw] is [std::thread::hardware_concurrency()]. *)
Definition resolve_mine_threads (hw requested : nat) : nat :=
  let max_n := if (0 <? hw)%nat then hw else 1%nat in
  if (requested =? 0)%nat then max_n else if (max_n <? requested)%nat then max_n else requested.

Record PowSearchConfig := mkPowSearchConfig {
  algorithm : PowAlgorithm;
  target : Z;
  threads : nat;
  deadline_sec : Z;
}.
Record PowSearchResult := mkPowSearchResult {
  found : bool;
  deadline_hit : bool;
  stopped : bool;
  r_nonce : Z;
  r_header_hash : string;
}.

(** Where a worker is in its loop. *)
Inductive Worker :=
  | Scanning (nonce : Z) (* at the loop's condition *)
  | Polling (nonce : Z)  (* before the stop and deadline tests, then the hash *)
  | Claiming (nonce : Z) (* its hash meets the target: before the compare-exchange *)
  | Storing (nonce : Z)  (* it won: before [winning_nonce.store] *)
  | Naming (nonce : Z)   (* before the store of [winning_hash] under the mutex *)
  | Finished.

Record Race := mkRace {
  g_found : bool;
  g_stopped : bool;
  g_deadline : bool;
  g_nonce : Z;
  g_hash : string;
  workers : list Worker;
}.

Definition with_nonce (h : BlockHeader) (n : Z) : BlockHeader :=
  mkBlockHeader (height h) (previous_hash h) (timestamp h) n (difficulty_target h) (merkle_root h).

Definition set_worker (tid : nat) (w : Worker) (s : Race) : Race :=
  mkRace (g_found s) (g_stopped s) (g_deadline s) (g_nonce s) (g_hash s) (<[tid := w]> (workers s)).

Section race.
Context (header : BlockHeader) (cfg : PowSearchConfig) (hw : nat).

Definition n_threads : nat := resolve_mine_threads hw (threads cfg).
Definition nonce_hash (n : Z) : string := hash_block_header (with_nonce header n).
Definition nonce_meets (n : Z) : option bool :=
  pow_meets_target (algorithm cfg) (nonce_hash n) (target cfg).

#[local] Arguments nonce_meets : simpl never.
#[local] Arguments nonce_hash : simpl never.

Definition race_init : Race :=
  mkRace false false false 0 "" ((λ t, Scanning (Z.of_nat t)) <$> seq 0 n_threads).

(** One access by worker [tid]. *)
Inductive race_step (tid : nat) (s : Race) : Race → Prop :=
  | scan_end n :
      workers s !! tid = Some (Scanning n) → U64_MAX ≤ n ∨ g_found s = true →
      race_step tid s (set_worker tid Finished s)
  | scan_on n :
      workers s !! tid = Some (Scanning n) → n < U64_MAX → g_found s = false →
      race_step tid s (set_worker tid (Polling n) s)
  | poll_stop n :
      workers s !! tid = Some (Polling n) →
      race_step tid s
        (set_worker tid Finished (mkRace (g_found s) true (g_deadline s) (g_nonce s) (g_hash s) (workers s)))
  | poll_deadline n :
      workers s !! tid = Some (Polling n) → 0 < deadline_sec cfg →
      race_step tid s
        (set_worker tid Finished (mkRace (g_found s) (g_stopped s) true (g_nonce s) (g_hash s) (workers s)))
  | poll_miss n :
      workers s !! tid = Some (Polling n) → nonce_meets n = Some false →
      race_step tid s (set_worker tid (Scanning (u64 (n + Z.of_nat n_threads))) s)
  | poll_hit n :
      workers s !! tid = Some (Polling n) → nonce_meets n = Some true →
      race_step tid s (set_worker tid (Claiming n) s)
  | claim_lost n :
      workers s !! tid = Some (Claiming n) → g_found s = true →
      race_step tid s (set_worker tid Finished s)
  | claim_won n :
      workers s !! tid = Some (Claiming n) → g_found s = false →
      race_step tid s
        (set_worker tid (Storing n)
           (mkRace true (g_stopped s) (g_deadline s) (g_nonce s) (g_hash s) (workers s)))
  | store_nonce n :
      workers s !! tid = Some (Storing n) →
      race_step tid s
        (set_worker tid (Naming n)
           (mkRace (g_found s) (g_stopped s) (g_deadline s) n (g_hash s) (workers s)))
  | store_hash n :
      workers s !! tid = Some (Naming n) →
      race_step tid s
        (set_worker tid Finished
           (mkRace (g_found s) (g_stopped s) (g_deadline s) (g_nonce s) (nonce_hash n) (workers s))).

Definition race_any (s s' : Race) : Prop := ∃ tid, race_step tid s s'.

(** After the joins. *)
Definition race_over (s : Race) : Prop := Forall (λ w, w = Finished) (workers s).
Definition race_result (s : Race) : PowSearchResult :=
  mkPowSearchResult (g_found s) (g_deadline s) (g_stopped s)
    (if g_found s then g_nonce s else 0) (if g_found s then g_hash s else "").
(** What a call of [search_block_pow] may return. *)
Definition search_block_pow (r : PowSearchResult) : Prop :=
  ∃ s, rtc race_any race_init s ∧ race_over s ∧ r = race_result s.

(** ** The race's invariant *)

(** The [k]-th nonce of worker [tid]. *)
Definition nth_nonce (tid k : nat) : Z := u64 (Z.of_nat tid + Z.of_nat k * Z.of_nat n_threads).
Definition missed (tid k : nat) : Prop := ∀ j, (j < k)%nat → nonce_meets (nth_nonce tid j) = Some false.

(** Nobody was told to end early. *)
Definition undisturbed (s : Race) : Prop := g_found s = false ∧ g_stopped s = false ∧ g_deadline s = false.

Definition worker_ok (s : Race) (tid : nat) (w : Worker) : Prop :=
  match w with
  | Scanning n | Polling n => ∃ k, n = nth_nonce tid k ∧ missed tid k
  | Claiming n => nonce_meets n = Some true
  | Storing n => g_found s = true ∧ nonce_meets n = Some true
  | Naming n => g_found s = true ∧ g_nonce s = n ∧ nonce_meets n = Some true
  | Finished => undisturbed s → ∃ k, U64_MAX ≤ nth_nonce tid k ∧ missed tid k
  end.

(** A worker that won and has not stored everything yet. *)
Definition storing (w : Worker) : bool :=
  match w with Storing _ | Naming _ => true | _ => false end.

Definition race_ok (s : Race) : Prop :=
  length (workers s) = n_threads ∧
  (∀ tid w, workers s !! tid = Some w → worker_ok s tid w) ∧
  (∀ t1 t2 w1 w2, workers s !! t1 = Some w1 → workers s !! t2 = Some w2 →
     storing w1 = true → storing w2 = true → t1 = t2) ∧
  (g_found s = true →
     (∃ tid w, workers s !! tid = Some w ∧ storing w = true) ∨
     (nonce_meets (g_nonce s) = Some true ∧ g_hash s = nonce_hash (g_nonce s))).

Hypothesis Hhw : is_u64 (Z.of_nat hw).

Lemma n_threads_bounds : 1 ≤ Z.of_nat n_threads < W64.
Proof.
  unfold is_u64 in Hhw. unfold n_threads, resolve_mine_threads.
  destruct (Nat.ltb_spec 0 hw), (Nat.eqb_spec (threads cfg) 0); try lia;
    match goal with |- context [(?a <? threads cfg)%nat] => destruct (Nat.ltb_spec a (threads cfg)) end; lia.
Qed.

Lemma race_init_ok : race_ok race_init.
Proof.
  pose proof n_threads_bounds. unfold race_init.
  split_and!; cbn [workers g_found]; [by rewrite length_fmap, length_seq| | |done].
  - intros tid w Hw. apply list_lookup_fmap_Some in Hw as (t & -> & [-> Ht]%lookup_seq).
    cbn. exists O. split; [|by intros j Hj; lia]. unfold nth_nonce. cbn.
    rewrite u64_small; [lia|]. unfold is_u64. lia.
  - intros t1 t2 w1 w2 Hw1 _ Hs. apply list_lookup_fmap_Some in Hw1 as (t & -> & _). done.
Qed.

(** One worker moves and the others still fit. *)
Lemma race_ok_update s s' tid w w' :
  race_ok s → workers s !! tid = Some w → workers s' = <[tid := w']> (workers s) →
  (∀ t v, t ≠ tid → workers s !! t = Some v → worker_ok s t v → worker_ok s' t v) →
  worker_ok s' tid w' →
  (storing w' = true → storing w = true ∨ g_found s = false) →
  (g_found s' = true →
     storing w' = true ∨ (nonce_meets (g_nonce s') = Some true ∧ g_hash s' = nonce_hash (g_nonce s')) ∨
     (g_found s = true ∧ storing w = false ∧ g_nonce s' = g_nonce s ∧ g_hash s' = g_hash s)) →
  race_ok s'.
Proof.
  intros (Hlen & Hok & Huniq & Hdone) Hw Hws Hothers Hw' Hst Hfound.
  assert (Htid : (tid < length (workers s))%nat) by by eapply lookup_lt_Some.
  assert (Hquiet : ∀ t v, workers s !! t = Some v → storing v = true → g_found s = true).
  { intros t v Hv. pose proof (Hok t v Hv) as Hwo. destruct v; cbn in *; try done; tauto. }
  split_and!.
  - by rewrite Hws, length_insert.
  - intros t v. rewrite Hws. intros [(-> & <- & _)|[Hne Hv]]%list_lookup_insert_Some; [done|].
    apply Hothers; auto.
  - intros t1 t2 w1 w2. rewrite Hws.
    intros [(<- & <- & _)|[Hn1 H1]]%list_lookup_insert_Some [(<- & <- & _)|[Hn2 H2]]%list_lookup_insert_Some
      Hs1 Hs2; [done| | |by eapply Huniq].
    + destruct (Hst Hs1) as [Hs|Hf]; [by eapply Huniq|]. by rewrite (Hquiet _ _ H2 Hs2) in Hf.
    + destruct (Hst Hs2) as [Hs|Hf]; [by eapply Huniq|]. by rewrite (Hquiet _ _ H1 Hs1) in Hf.
  - intros Hf. destruct (Hfound Hf) as [Hs|[Hd|(Hf0 & Hs & Hn & Hh)]].
    + left. exists tid, w'. by rewrite Hws, list_lookup_insert_eq.
    + by right.
    + destruct (Hdone Hf0) as [(t & v & Hv & Hsv)|[Hm Hg]].
      * left. exists t, v. split; [|done]. rewrite Hws, list_lookup_insert_ne; [done|]. congruence.
      * right. by rewrite Hn, Hh.
Qed.

Lemma worker_ok_mono s s' t v :
  (g_found s = true → g_found s' = true) → (∀ n, v = Naming n → g_nonce s' = g_nonce s) →
  (undisturbed s' → undisturbed s) → worker_ok s t v → worker_ok s' t v.
Proof.
  intros Hf Hn Hu. destruct v as [n|n|n|n|n|]; cbn; try done; try tauto.
  - intros (? & ? & ?). rewrite (Hn n); auto.
Qed.

Lemma nth_nonce_next tid k : u64 (nth_nonce tid k + Z.of_nat n_threads) = nth_nonce tid (S k).
Proof. unfold nth_nonce. rewrite u64_add_l. f_equal. lia. Qed.

(** The side conditions of a move that leaves the winner's fields alone. *)
Ltac others := intros t v Hne Hv; apply worker_ok_mono; cbn; unfold undisturbed; cbn; try done; try tauto;
  try (by intros (? & ? & ?)).
Ltac quiet := first [done | by intros Hf'; right; right].

Lemma race_step_ok s s' tid : race_ok s → race_step tid s s' → race_ok s'.
Proof.
  intros Hs Hstep. pose proof Hs as (_ & Hok & Huniq & _).
  destruct Hstep as [n Hw Hend|n Hw Hn Hf|n Hw|n Hw Hd|n Hw Hm|n Hw Hm|n Hw Hf|n Hw Hf|n Hw|n Hw];
    pose proof (Hok _ _ Hw) as Hwo; cbn in Hwo;
    (eapply (race_ok_update s); [done|exact Hw|done|others| |try done|try quiet]).
  - destruct Hwo as (k & -> & Hk). intros (Hf & _). exists k.
    destruct Hend as [|Hf']; [done|]. cbn in Hf. by rewrite Hf in Hf'.
  - exact Hwo.
  - by intros (_ & ? & _).
  - by intros (_ & _ & ?).
  - destruct Hwo as (k & -> & Hk). exists (S k). split; [apply nth_nonce_next|].
    intros j Hj. destruct (decide (j = k)) as [->|]; [done|]. apply Hk. lia.
  - exact Hm.
  - intros (Hf' & _). cbn in Hf'. by rewrite Hf in Hf'.
  - by split.
  - intros _. by right.
  - intros _. by left.
  - intros m ->. by destruct Hne; apply (Huniq t tid (Naming m) (Storing n)).
  - by destruct Hwo.
  - intros _. by left.
  - intros _. by left.
  - intros (Hf & _). cbn in Hf. destruct Hwo as (Hf' & _). by rewrite Hf in Hf'.
  - intros _. right. left. destruct Hwo as (_ & -> & Hm). done.
Qed.

Lemma race_ok_reachable s : rtc race_any race_init s → race_ok s.
Proof.
  generalize race_init_ok. generalize race_init. intros a Ha Hr.
  induction Hr as [|a b c [tid Hab] _ IH]; [done|]. apply IH. by eapply race_step_ok.
Qed.

Lemma search_found_ok r :
  search_block_pow r → found r = true →
  r_header_hash r = hash_block_header (with_nonce header (r_nonce r)) ∧
  pow_meets_target (algorithm cfg) (r_header_hash r) (target cfg) = Some true.
Proof.
  intros (s & Hr & Hover & ->). destruct (race_ok_reachable s Hr) as (_ & _ & _ & Hdone).
  unfold race_over in Hover. rewrite Forall_lookup in Hover. cbn [found race_result r_nonce r_header_hash].
  intros Hf. rewrite Hf. destruct (Hdone Hf) as [(tid & w & Hw & Hst)|[Hm Hh]].
  - apply Hover in Hw as ->. done.
  - rewrite Hh. by split.
Qed.

(** C25. The search is right under every interleaving of its workers. If it reports a find, the
    header with the reported nonce has the reported hash and meets the target, whichever
    workers raced for the win. If it reports neither a find nor an interruption, no nonce
    below the last one meets the target. *)
Theorem pow_search_spec r :
  search_block_pow r →
  (found r = true →
     r_header_hash r = hash_block_header (with_nonce header (r_nonce r)) ∧
     pow_meets_target (algorithm cfg) (r_header_hash r) (target cfg) = Some true) ∧
  (found r = false → stopped r = false → deadline_hit r = false →
     ∀ n, 0 ≤ n < U64_MAX →
       pow_meets_target (algorithm cfg) (hash_block_header (with_nonce header n)) (target cfg) = Some false).
Proof.
  intros Hs. split; [by apply search_found_ok|]. destruct Hs as (s & Hr & Hover & ->).
  destruct (race_ok_reachable s Hr) as (Hlen & Hok & _ & _).
  unfold race_over in Hover. rewrite Forall_lookup in Hover. cbn [found stopped deadline_hit race_result].
  intros Hf Hst Hdl n Hn. pose proof n_threads_bounds as Hth.
    set (q := Z.to_nat (n `div` Z.of_nat n_threads)). set (t := Z.to_nat (n `mod` Z.of_nat n_threads)).
    pose proof (Z.mod_pos_bound n (Z.of_nat n_threads) ltac:(lia)) as Hmod.
    pose proof (Z.div_pos n (Z.of_nat n_threads) ltac:(lia) ltac:(lia)).
    assert (Hnt : n = Z.of_nat t + Z.of_nat q * Z.of_nat n_threads).
    { unfold t, q. rewrite !Z2Nat.id by lia. pose proof (Z.div_mod n (Z.of_nat n_threads) ltac:(lia)). lia. }
    assert (Ht : (t < length (workers s))%nat) by (rewrite Hlen; unfold t; lia).
    apply lookup_lt_is_Some in Ht as [w Hw]. pose proof (Hok _ _ Hw) as Hwo.
    rewrite (Hover _ _ Hw) in Hwo. destruct Hwo as (k & Hk & Hmiss); [done|].
    assert (Hqk : (q < k)%nat).
    { destruct (decide (q < k)%nat) as [|Hge]; [done|]. exfalso.
      assert (Z.of_nat k * Z.of_nat n_threads ≤ Z.of_nat q * Z.of_nat n_threads)
        by (apply Z.mul_le_mono_nonneg_r; lia).
      unfold nth_nonce in Hk. rewrite u64_small in Hk by (unfold is_u64; lia). lia. }
    specialize (Hmiss q Hqk). unfold nonce_meets, nonce_hash, nth_nonce in Hmiss.
    rewrite <-Hnt, u64_small in Hmiss by (unfold is_u64; lia). exact Hmiss.
Qed.
End race.
End search.
