(* ===== verification/Mining.v ===== *)
(** * Producing blocks ([Chain::make_block_template] to [Chain::mine_block] of
    [src/chain.cpp], [Miner] of [src/miner.cpp])

    The nonce search is an argument: the outcome of one [search_block_pow] for the
    header it is given (PowSearch says what it may return). Each reading of the wall
    clock is an argument. The miner's timings are left out. *)
From S2P Require Import Prelude ConsensusRules Strings Crypto Types Wire Block Staking Shielded Script.
From S2P Require Import Chain ChainBlock Mempool PowSearch.

Definition kMainnetNetworkId : string := "ADDITION_MAINNET_V1".
Definition kTestnetMineDeadlineSec : Z := 30.
Definition kMainnetMineDeadlineSec : Z := 0.

(** The frame around a relayed block ([block.hpp]). *)
Definition kBlockWireOverheadBytes : Z := 8192.
Definition kMaxRelayBlockWireBytes : Z := 3 * 1024 * 1024.

Section mining.
Context {C : Crypto} {ST : Stark} (cfg : ChainConfig).

Definition approvals (vs : list StakeVote) : list StakeVote := filter (λ v, approve v = true) vs.

(** ** Tickets for the next block *)

Definition eligible_tickets_for_next_block (c : Chain) : list StakeTicket :=
  eligible_tickets_at cfg c (height_of c).
Definition selected_tickets_for_next_block (c : Chain) : list string :=
  if negb (staking_active_at cfg (next_height c)) then []
  else select_tickets (eligible_tickets_for_next_block c) (hash_block_header (header (tip c)))
         (stake_votes_per_block cfg).
Definition stake_votes_required_for_next_block (c : Chain) : bool :=
  staking_active_at cfg (next_height c) &&
  (stake_min_live_tickets cfg <=? list_size (eligible_tickets_for_next_block c)).

Definition verify_vote_signature_only (c : Chain) (v : StakeVote) : result () :=
  match tickets c !! ticket_id v with
  | None => Err "unknown ticket"
  | Some t => reject_if negb (vote_signature_ok cfg (ticket_with_key c t) v) as "invalid vote signature" ;; Ok ()
  end.
Definition verify_stake_vote (c : Chain) (v : StakeVote) : result () :=
  reject_if negb (voted_height v =? height_of c) ||
            negb (String.eqb (voted_hash v) (hash_block_header (header (tip c))))
    as "vote is not on the current tip" ;;
  reject_if negb (bool_decide (ticket_id v ∈ selected_tickets_for_next_block c))
    as "ticket not selected for this block" ;;
  verify_vote_signature_only c v.

(** The loop over the pool of votes, stopping once the block is full. *)
Fixpoint usable_votes_from (c : Chain) (used : gset string) (taken : Z) (pool : list StakeVote) :
    list StakeVote :=
  match pool with
  | [] => []
  | v :: pool =>
      if negb (approve v) || bool_decide (ticket_id v ∈ used) then usable_votes_from c used taken pool
      else if negb (is_ok (verify_stake_vote c v)) then usable_votes_from c used taken pool
      else v :: (if stake_votes_per_block cfg <=? taken + 1 then []
                 else usable_votes_from c ({[ticket_id v]} ∪ used) (taken + 1) pool)
  end.
Definition usable_votes_for_next_block (c : Chain) (pool : list StakeVote) : list StakeVote :=
  usable_votes_from c ∅ 0 pool.

(** ** The template *)

Definition make_block_template (now : Z) (c : Chain) (reward_address : string) (txs : list Transaction)
    (reward : Z) : Block :=
  let coinbase := mkTransaction [] (if 0 <? reward then [mkTxOutput reward_address reward] else [])
                    "" "" "" 0 (next_height c) "" in
  let hdr := mkBlockHeader (next_height c) (hash_block_header (header (tip c))) now 0 (chain_target c) "" in
  let b := mkBlock hdr (coinbase :: txs) [] [] in
  mkBlock (mkBlockHeader (height hdr) (previous_hash hdr) (timestamp hdr) (header_nonce hdr)
             (difficulty_target hdr) (compute_block_commitment b)) (transactions b) [] [].

Definition set_outputs (outs : list TxOutput) (tx : Transaction) : Transaction :=
  mkTransaction (inputs tx) outs (signer tx) (signer_pubkey tx) (signature tx) (fee tx) (nonce tx) (shielded tx).
Definition set_front_outputs (outs : list TxOutput) (b : Block) : Block :=
  match transactions b with
  | [] => b
  | coinbase :: txs => mkBlock (header b) (set_outputs outs coinbase :: txs) (votes b) (slashes b)
  end.
Definition front_outputs (b : Block) : list TxOutput := from_option outputs [] (head (transactions b)).

(** The owners paid for the approving votes, in vote order. *)
Fixpoint vote_outputs (c : Chain) (per_vote : Z) (vs : list StakeVote) : result (list TxOutput) :=
  match vs with
  | [] => Ok []
  | v :: vs =>
      match tickets c !! ticket_id v with
      | None => Err "vote for unknown ticket"
      | Some t => rest ← vote_outputs c per_vote vs; Ok (mkTxOutput (owner t) per_vote :: rest)
      end
  end.

Definition block_pot (c : Chain) (txs : list Transaction) : Z :=
  u64 (max_mintable_at cfg c (next_height c) + foldl (λ f tx, u64 (f + fee tx)) 0 txs).

Definition per_vote_reward (c : Chain) (txs : list Transaction) (vs : list StakeVote) : Z :=
  if bool_decide (approvals vs = []) then 0
  else stake_reward_per_vote (block_pot c txs) (stake_reward_bps cfg) (list_size (approvals vs)).

(** The block that [mine_and_add_block_with_votes] hands to the search. *)
Definition block_to_mine (now : Z) (c : Chain) (reward_address : string) (txs : list Transaction)
    (vs : list StakeVote) (sls : list SlashEvidence) : result Block :=
  let h := next_height c in
  let vs := if staking_active_at cfg h then vs else [] in
  let sls := if staking_active_at cfg h then sls else [] in
  let pot := block_pot c txs in
  reject_if stake_votes_required_for_next_block c && (list_size (approvals vs) <? stake_vote_quorum cfg)
    as "insufficient stake votes (" +:+ to_string (list_size (approvals vs)) +:+ "/" +:+
       to_string (stake_vote_quorum cfg) +:+ ")" ;;
  let per_vote := per_vote_reward c txs vs in
  let miner := u64 (pot - u64 (per_vote * list_size (approvals vs))) in
  let b := make_block_template now c reward_address txs miner in
  let b := if miner =? 0 then set_front_outputs [] b else b in
  rewards ← (if 0 <? per_vote then vote_outputs c per_vote (approvals vs) else Ok []);
  let b := set_front_outputs (front_outputs b ++ rewards) b in
  let b := mkBlock (header b) (transactions b) vs sls in
  Ok (mkBlock (mkBlockHeader (height (header b)) (previous_hash (header b)) (timestamp (header b))
                 (header_nonce (header b)) (difficulty_target (header b)) (compute_block_commitment b))
        (transactions b) vs sls).

(** ** The search and the block *)

(** [network_mode] is a configuration field consensus does not read. *)
Definition mine_deadline_seconds (network_mode : string) : Z :=
  if String.eqb network_mode "mainnet" || String.eqb (network_id cfg) kMainnetNetworkId
  then kMainnetMineDeadlineSec else kTestnetMineDeadlineSec.

Record Search := mkSearch {
  mode : string;
  threads_wanted : nat;
  clock : Z;
  outcome : BlockHeader → PowSearchConfig → PowSearchResult;
}.
Definition search_config (s : Search) (b : Block) : PowSearchConfig :=
  mkPowSearchConfig (pow_algorithm cfg) (difficulty_target (header b)) (threads_wanted s)
    (mine_deadline_seconds (mode s)).

Definition mine_block (s : Search) (c : Chain) (b : Block) : Chain * result string :=
  let search_cfg := search_config s b in
  let r := outcome s (header b) search_cfg in
  if found r then
    match add_block cfg (clock s) c (mkBlock (with_nonce (header b) (r_nonce r)) (transactions b) (votes b) (slashes b)) with
    | (c, Err e) => (c, Err e)
    | (c, Ok _) => (c, Ok (r_header_hash r))
    end
  else if stopped r then (c, Err "mining stopped")
  else if deadline_hit r then
    (c, Err (if deadline_sec search_cfg =? kTestnetMineDeadlineSec
             then "mining deadline exceeded (30s); testnet uses sha3_512 header PoW"
             else "mining deadline exceeded (" +:+ to_string (deadline_sec search_cfg) +:+ "s)"))
  else (c, Err "mining search exhausted").

Definition mine_and_add_block_with_votes (now : Z) (s : Search) (c : Chain) (reward_address : string)
    (txs : list Transaction) (vs : list StakeVote) (sls : list SlashEvidence) : Chain * result string :=
  match block_to_mine now c reward_address txs vs sls with
  | Err e => (c, Err e)
  | Ok b => mine_block s c b
  end.
Definition mine_and_add_block (now : Z) (s : Search) (c : Chain) (reward_address : string)
    (txs : list Transaction) : Chain * result string :=
  mine_and_add_block_with_votes now s c reward_address txs [] [].

(** ** [Miner::mine_next_block] *)

Section miner.
Context {MO : MempoolOrder}.

Record Miner := mkMiner {
  m_chain : Chain;
  m_pool : Mempool;
  last_dropped_junk : nat;
  last_deferred_for_size : nat;
  last_block_wire_bytes : Z;
  last_mined_txs : nat;
}.

(** How many of the valid transactions fit the relay budget and the weight cap. *)
Fixpoint fit (budget weight_cap used weight : Z) (valid : list Transaction) : nat * Z :=
  match valid with
  | [] => (O, used)
  | tx :: valid =>
      let w := tx_wire_bytes tx in
      let tw := tx_weight tx in
      if (budget <? used + w) || (weight_cap <? weight + tw) then (O, used)
      else let '(keep, used) := fit budget weight_cap (used + w) (weight + tw) valid in (S keep, used)
  end.

Definition submit_all (m : Mempool) (txs : list Transaction) : Mempool :=
  foldl (λ m tx, (submit m tx).1) m txs.

(** The sources are [None] when not set. [c] is unchanged unless the block was added
    (or its commit failed halfway). *)
Definition mine_next_block (now : Z) (s : Search) (vote_source : option (list StakeVote))
    (slash_source : option (list SlashEvidence)) (relay_budget_bytes : Z)
    (reward_address : string) (max_txs : nat) (m : Miner) : Miner * result string :=
  let c := m_chain m in
  let '(pool, fetched) := fetch_for_block (m_pool m) max_txs in
  let valid := filter (λ tx, is_ok (validate_transaction cfg c tx true) = true) fetched in
  let junk := (length fetched - length valid)%nat in
  let with_votes := bool_decide (is_Some vote_source) && staking_active_at cfg (next_height c) in
  let vs := if with_votes then default [] vote_source else [] in
  let sls := if with_votes then default [] slash_source else [] in
  let vote_reserve := if with_votes
                      then stake_extension_weight (mkBlock (mkBlockHeader 0 "" 0 0 0 "") [] vs sls) else 0 in
  let budget := if kBlockWireOverheadBytes <? relay_budget_bytes
                then relay_budget_bytes - kBlockWireOverheadBytes else 0 in
  let '(keep, used) := fit budget (max_block_weight cfg) (2048 + (vote_reserve * 4 + 2) / 3)
                         (4096 + vote_reserve) valid in
  let pool := submit_all pool (drop keep valid) in
  let deferred := (length valid - keep)%nat in
  let kept := take keep valid in
  let '(c, r) := if with_votes then mine_and_add_block_with_votes now s c reward_address kept vs sls
                 else mine_and_add_block now s c reward_address kept in
  match r with
  | Err e => (mkMiner c (submit_all pool kept) junk deferred (used + kBlockWireOverheadBytes) (last_mined_txs m), Err e)
  | Ok hash => (mkMiner c pool junk deferred (used + kBlockWireOverheadBytes) (length kept), Ok hash)
  end.
End miner.
End mining.
