(* ===== verification/MiningProofs.v ===== *)
(** * Producing blocks: what the producer guarantees *)
From S2P Require Import Prelude ConsensusRules Strings Crypto Types Wire Block Staking Shielded Script.
From S2P Require Import Chain ChainBlock ChainProofs ChainSupply Mempool MempoolProofs PowSearch Mining.

Section proofs.
Context {C : Crypto} {ST : Stark} (cfg : ChainConfig).

(** ** The block handed to the search *)

Lemma fees_exact txs f0 total :
  0 ≤ f0 → Forall tx_u64 txs → add_fees f0 txs = Ok total → foldl (λ f tx, u64 (f + fee tx)) f0 txs = total.
Proof.
  revert f0. induction txs as [|tx txs IH]; intros f0 H0; cbn; [by intros _ [= ->]|].
  intros [(_ & _ & Hf & _) Htxs]%Forall_cons H. peel H. bools. unfold is_u64 in Hf.
  rewrite u64_small by (unfold is_u64; lia). apply IH; [lia|done|exact H].
Qed.

(** The outputs of the coinbase, its last ones for the owners of approving tickets. *)
Definition coinbase_outputs (who : string) (miner per : Z) (owners : list string) : list TxOutput :=
  (if miner =? 0 then [] else [mkTxOutput who miner]) ++ ((λ o, mkTxOutput o per) <$> owners).

Definition paid_owners (c : Chain) (vs : list StakeVote) (owners : list string) : Prop :=
  Forall2 (λ v o, ∃ t, tickets c !! ticket_id v = Some t ∧ o = owner t) vs owners.

Lemma vote_outputs_Ok c per vs outs :
  vote_outputs c per vs = Ok outs →
  ∃ owners, outs = (λ o, mkTxOutput o per) <$> owners ∧ paid_owners c vs owners.
Proof.
  revert outs. induction vs as [|v vs IH]; intros outs; cbn; [intros [= <-]; by exists []; split; [|constructor]|].
  destruct (tickets c !! ticket_id v) as [t|] eqn:Ht; [|done]. intros H. peel H. injection H as <-.
  destruct (IH _ E) as (owners & -> & Ho). exists (owner t :: owners). split; [done|].
  constructor; [by exists t|done].
Qed.

Lemma block_to_mine_Ok now c who txs vs0 sls0 b :
  block_to_mine cfg now c who txs vs0 sls0 = Ok b →
  let vs := if staking_active_at cfg (next_height c) then vs0 else [] in
  let per := per_vote_reward cfg c txs vs in
  let miner := u64 (block_pot cfg c txs - u64 (per * list_size (approvals vs))) in
  ∃ owners,
    transactions b = mkTransaction [] (coinbase_outputs who miner per owners) "" "" "" 0 (next_height c) "" :: txs ∧
    (if 0 <? per then paid_owners c (approvals vs) owners else owners = []) ∧
    votes b = vs ∧ slashes b = (if staking_active_at cfg (next_height c) then sls0 else []) ∧
    header b = mkBlockHeader (next_height c) (hash_block_header (header (tip c))) now 0 (chain_target c)
                 (compute_block_commitment b) ∧
    ¬ (stake_votes_required_for_next_block cfg c = true ∧ list_size (approvals vs) < stake_vote_quorum cfg).
Proof.
  intros H vs per miner. unfold block_to_mine in H. fold vs in H. fold per in H. peel H. rename a into rewards.
  assert (Hm : 0 ≤ miner) by (unfold miner; apply u64_range). fold miner in H.
  assert (Hr : ∃ owners, rewards = (λ o, mkTxOutput o per) <$> owners ∧
    if 0 <? per then paid_owners c (approvals vs) owners else owners = []).
  { destruct (0 <? per); [by apply vote_outputs_Ok|]. injection E as <-. by exists []. }
  destruct Hr as (owners & -> & Ho). exists owners.
  assert (Hout : set_front_outputs (front_outputs (if miner =? 0 then set_front_outputs []
      (make_block_template now c who txs miner) else make_block_template now c who txs miner) ++
      ((λ o, mkTxOutput o per) <$> owners)) (if miner =? 0 then set_front_outputs []
      (make_block_template now c who txs miner) else make_block_template now c who txs miner) =
    mkBlock (header (make_block_template now c who txs miner))
      (mkTransaction [] (coinbase_outputs who miner per owners) "" "" "" 0 (next_height c) "" :: txs) [] []).
  { clear -Hm. clearbody miner. unfold coinbase_outputs. destruct (Z.eqb_spec miner 0) as [->|]; [done|].
    unfold make_block_template. cbn. by destruct (Z.ltb_spec 0 miner); [|lia]. }
  rewrite Hout in H. cbn [header transactions] in H. injection H as <-.
  cbn [header transactions votes slashes].
  split_and!; try done. intros [Hq Hlt]. rewrite Hq in G. bools. lia.
Qed.

Lemma mined_outputs_sum who miner per owners :
  list_sum amount (coinbase_outputs who miner per owners) = miner + per * Z.of_nat (length owners).
Proof.
  unfold coinbase_outputs. rewrite list_sum_app.
  assert (Hs : list_sum amount ((λ o, mkTxOutput o per) <$> owners) = per * Z.of_nat (length owners)).
  { induction owners as [|o owners IH]; [cbn; lia|]. rewrite fmap_cons, list_sum_cons, IH. cbn [amount length]. lia. }
  rewrite Hs. destruct (Z.eqb_spec miner 0) as [->|]; cbn; lia.
Qed.
Lemma mined_rewards_match who miner per owners :
  rewards_match (coinbase_outputs who miner per owners) owners per = true.
Proof.
  unfold rewards_match, coinbase_outputs. rewrite length_app, length_fmap, Nat.add_sub, drop_app_length.
  induction owners as [|o owners IH]; [done|]. cbn. by rewrite String.eqb_refl, Z.eqb_refl.
Qed.

Lemma max_mintable_bounds c h :
  0 ≤ block_reward cfg → 0 ≤ subsidy_floor cfg →
  0 ≤ max_mintable_at cfg c h ≤ compute_block_reward cfg h.
Proof.
  intros Hr Hf. pose proof (subsidy_schedule_nonneg cfg h Hr Hf) as Hs.
  unfold max_mintable_at, max_mintable_subsidy. fold (compute_block_reward cfg h).
  destruct (Z.ltb_spec (total_emitted c) (max_supply cfg)); lia.
Qed.

Lemma list_size_length {A} (l : list A) : list_size l = Z.of_nat (length l).
Proof. done. Qed.
Lemma approvals_positive vs : approvals vs ≠ [] → 0 < list_size (approvals vs).
Proof. rewrite list_size_length. destruct (approvals vs); [done|cbn; lia]. Qed.

(** The stakers' part and the miner's part add up to the pot. *)
Lemma pot_divided c txs vs :
  0 ≤ stake_reward_bps cfg →
  let per := per_vote_reward cfg c txs vs in
  0 ≤ per ∧ u64 (block_pot cfg c txs - u64 (per * list_size (approvals vs))) + per * list_size (approvals vs) =
    block_pot cfg c txs.
Proof.
  intros Hb per. pose proof (u64_range (max_mintable_at cfg c (next_height c) +
    foldl (λ f tx, u64 (f + fee tx)) 0 txs)) as Hpot. fold (block_pot cfg c txs) in Hpot.
  assert (Hp : 0 ≤ per ∧ 0 ≤ per * list_size (approvals vs) ≤ block_pot cfg c txs).
  { unfold per, per_vote_reward. case_bool_decide as Ha; [rewrite Ha; unfold is_u64 in Hpot; cbn; lia|].
    pose proof (approvals_positive vs Ha) as Hn.
    destruct (stake_reward_split (block_pot cfg c txs) (stake_reward_bps cfg) _ Hpot Hb Hn) as (? & ? & _). nia. }
  unfold is_u64 in Hpot. rewrite (u64_small (per * _)) by (unfold is_u64; lia).
  rewrite u64_small by (unfold is_u64; lia). lia.
Qed.

Lemma block_pot_exact c b who txs :
  0 ≤ block_reward cfg → 0 ≤ subsidy_floor cfg → Forall tx_u64 txs →
  height (header b) = next_height c → transactions b = who :: txs →
  validate_block_transactions cfg c b = Ok () →
  block_pot cfg c txs = max_mintable_at cfg c (next_height c) + list_sum fee txs.
Proof.
  intros Hr Hf Hu Hh Ht H. unfold validate_block_transactions in H. rewrite Ht, Hh in H. peel H. bools.
  apply sum_fees_add_fees in E0. pose proof (add_fees_sum _ _ _ E0) as Hs. rewrite Z.add_0_l in Hs. subst.
  unfold block_pot. rewrite (fees_exact txs 0 _ (Z.le_refl 0) Hu E0).
  pose proof (max_mintable_bounds c (next_height c) Hr Hf).
  assert (0 ≤ list_sum fee txs).
  { apply list_sum_nonneg. intros tx Htx. rewrite Forall_forall in Hu.
    destruct (Hu tx Htx) as (_ & _ & Hfee & _). unfold is_u64 in Hfee. lia. }
  rewrite u64_small; [done|]. unfold is_u64. lia.
Qed.

Lemma paid_length c vs owners : paid_owners c vs owners → length owners = length vs.
Proof. intros H. symmetry. by eapply Forall2_length. Qed.

(** C24. Mining extends the chain by the block it announces. When it succeeds, the new block
    passed every rule of [add_block]; it holds the transactions it was given, in order,
    after a coinbase that pays exactly subsidy plus fees: the reward of each approving
    vote to its ticket's owner, in vote order, the rest to the miner; and the hash
    reported is the hash of its header. *)
Theorem mined_block_spec hw now s c who txs vs0 sls c' hash :
  0 ≤ block_reward cfg → 0 ≤ subsidy_floor cfg → 0 ≤ stake_reward_bps cfg → Forall tx_u64 txs →
  is_u64 (Z.of_nat hw) → (∀ h sc, search_block_pow h sc hw (outcome s h sc)) →
  mine_and_add_block_with_votes cfg now s c who txs vs0 sls = (c', Ok hash) →
  let vs := if staking_active_at cfg (next_height c) then vs0 else [] in
  ∃ b owners, add_block cfg (clock s) c b = (c', Ok ()) ∧ blocks c' = blocks c ++ [b] ∧
    hash = hash_block_header (header b) ∧ tail (transactions b) = txs ∧ votes b = vs ∧
    list_sum amount (front_outputs b) = max_mintable_at cfg c (next_height c) + list_sum fee txs ∧
    rewards_match (front_outputs b) owners (per_vote_reward cfg c txs vs) = true ∧
    (if 0 <? per_vote_reward cfg c txs vs then paid_owners c (approvals vs) owners else owners = []).
Proof.
  intros Hr Hf Hb Hu Hhw Hsearch H vs. unfold mine_and_add_block_with_votes in H.
  destruct (block_to_mine cfg now c who txs vs0 sls) as [b0|] eqn:Eb; [|done].
  destruct (block_to_mine_Ok _ _ _ _ _ _ _ Eb) as (owners & Htx & Hown & Hv & _ & Hh & _).
  fold vs in Htx, Hown, Hv. unfold mine_block in H. set (sc := search_config cfg s b0) in *.
  destruct (found (outcome s (header b0) sc)) eqn:Efound; cycle 1.
  { destruct (stopped _); [done|]. by destruct (deadline_hit _). }
  set (b := mkBlock _ _ _ _) in H. destruct (add_block cfg (clock s) c b) as [c1 [[]|]] eqn:Ea; [|done].
  injection H as <- <-. exists b, owners. split; [done|].
  destruct (add_block_Ok _ _ _ _ _ Ea) as (_ & Hvt & c2 & co & txs' & total & fees & Hap & _ & _ & _ & _ & Hc).
  assert (Hbl : blocks c1 = blocks c ++ [b]).
  { rewrite Hc. unfold committed_state. cbn [blocks set_tip set_applying].
    by destruct (apply_all_frame _ _ _ _ _ Hap) as [-> _]. }
  destruct (search_found_ok (header b0) sc hw Hhw _ (Hsearch _ _) Efound) as [Hhash _].
  assert (Hheight : height (header b) = next_height c) by (unfold b; cbn [header with_nonce height]; by rewrite Hh).
  pose proof (block_pot_exact c b _ txs Hr Hf Hu Hheight Htx Hvt) as Hpot.
  destruct (pot_divided c txs vs Hb) as [Hper Hsplit].
  split_and!; try done.
  - unfold b. cbn [transactions]. by rewrite Htx.
  - unfold front_outputs, b. cbn [transactions]. rewrite Htx. cbn [head from_option outputs].
    rewrite mined_outputs_sum, <-Hpot. etrans; [|exact Hsplit]. f_equal. rewrite list_size_length.
    destruct (Z.ltb_spec 0 (per_vote_reward cfg c txs vs)) as [|Hz].
    + by rewrite (paid_length _ _ _ Hown).
    + replace (per_vote_reward cfg c txs vs) with 0 by lia. lia.
  - unfold front_outputs, b. cbn [transactions]. rewrite Htx. cbn [head from_option outputs].
    apply mined_rewards_match.
Qed.

(** ** An empty block can always be mined *)

(** A block without transactions and votes. *)
Definition empty_block (b : Block) (c : Chain) (who : string) (now : Z) : Prop :=
  let reward := max_mintable_at cfg c (next_height c) in
  transactions b = [mkTransaction [] (if reward =? 0 then [] else [mkTxOutput who reward]) "" "" "" 0
                      (next_height c) ""] ∧
  votes b = [] ∧ slashes b = [] ∧ merkle_root (header b) = compute_block_commitment b ∧
  height (header b) = next_height c ∧ previous_hash (header b) = hash_block_header (header (tip c)) ∧
  timestamp (header b) = now ∧ difficulty_target (header b) = chain_target c.

Lemma empty_block_built now c who :
  0 ≤ block_reward cfg → 0 ≤ subsidy_floor cfg → is_u64 (compute_block_reward cfg (next_height c)) →
  stake_votes_required_for_next_block cfg c = false →
  ∃ b, block_to_mine cfg now c who [] [] [] = Ok b ∧ empty_block b c who now.
Proof.
  intros Hr Hf Hu Hq. pose proof (max_mintable_bounds c (next_height c) Hr Hf) as Hm. unfold is_u64 in Hu.
  assert (Hpot : block_pot cfg c [] = max_mintable_at cfg c (next_height c)).
  { unfold block_pot. cbn [foldl]. rewrite Z.add_0_r. apply u64_small. unfold is_u64. lia. }
  assert (Hb : ∃ b, block_to_mine cfg now c who [] [] [] = Ok b).
  { unfold block_to_mine. rewrite Hq. cbn [andb]. destruct (staking_active_at cfg (next_height c));
      unfold per_vote_reward, approvals; cbn; by eexists. }
  destruct Hb as [b Hb]. exists b. split; [done|].
  destruct (block_to_mine_Ok _ _ _ _ _ _ _ Hb) as (owners & Htx & Hown & Hv & Hs & Hh & _).
  replace (if staking_active_at cfg (next_height c) then [] else []) with (@nil StakeVote) in *
    by by destruct (staking_active_at cfg (next_height c)).
  replace (if staking_active_at cfg (next_height c) then [] else []) with (@nil SlashEvidence) in *
    by by destruct (staking_active_at cfg (next_height c)).
  assert (Hper : per_vote_reward cfg c [] [] = 0) by done. rewrite Hper, Hpot in *. cbn in Hown. subst owners.
  rewrite Z.mul_0_l, (u64_small 0), Z.sub_0_r, u64_small in Htx by (unfold is_u64; lia).
  unfold coinbase_outputs in Htx. rewrite fmap_nil, app_nil_r in Htx.
  unfold empty_block. rewrite Hh. by split_and!.
Qed.

Lemma empty_block_staking b c who now :
  empty_block b c who now → is_u64 (height_of c) → is_u64 (height_of c + 1) →
  stake_votes_required_for_next_block cfg c = false → validate_block_staking cfg c b = Ok ().
Proof.
  intros (_ & Hv & Hs & _ & Hh & _) Hu Hu' Hq. unfold validate_block_staking. rewrite Hv, Hs, Hh.
  unfold stake_votes_required_for_next_block in Hq.
  destruct (staking_active_at cfg (next_height c)); cbn [negb andb] in *; [|done].
  assert (He : u64 (next_height c - 1) = height_of c).
  { unfold next_height. rewrite (u64_small (_ + 1)) by done. rewrite u64_small; [lia|].
    replace (height_of c + 1 - 1) with (height_of c) by lia. done. }
  cbn [validate_slashes mbind result_bind]. rewrite He. unfold eligible_tickets_for_next_block in Hq. rewrite Hq.
  cbn [length Nat.ltb Nat.leb validate_votes mbind result_bind andb].
  by rewrite bool_decide_true.
Qed.

Lemma empty_block_transactions b c who now :
  0 ≤ block_reward cfg → 0 ≤ subsidy_floor cfg → is_u64 (compute_block_reward cfg (next_height c)) →
  empty_block b c who now → who ≠ "" →
  block_weight b ≤ max_block_weight cfg → balance_of c who + max_mintable_at cfg c (next_height c) ≤ U64_MAX →
  validate_block_staking cfg c b = Ok () → validate_block_transactions cfg c b = Ok ().
Proof.
  intros Hr Hf Hu (Htx & Hv & Hs & _ & Hh & _) Hw Hwt Hbal Hst.
  pose proof (max_mintable_bounds c (next_height c) Hr Hf) as Hm. unfold is_u64 in Hu.
  unfold validate_block_transactions. rewrite Htx, Hh. cbn [shielded inputs outputs is_empty String.eqb negb].
  set (m := max_mintable_at cfg c (next_height c)) in *. clearbody m.
  destruct (Z.ltb_spec (max_block_weight cfg) (block_weight b)); [lia|].
  rewrite (bool_decide_true ([] = [])) by done. cbn [negb].
  assert (Hout : bool_decide ((if m =? 0 then [] else [mkTxOutput who m]) = []) = (m =? 0)).
  { destruct (m =? 0); [by apply bool_decide_true|by apply bool_decide_false]. }
  rewrite Hout.
  replace ((m =? 0) && negb (allow_zero_reward_blocks cfg) && negb (m =? 0)) with false
    by by destruct (m =? 0), (allow_zero_reward_blocks cfg).
  assert (Hco : ∀ e1 e2 e3, check_outputs e1 e2 e3 0 (if m =? 0 then [] else [mkTxOutput who m]) = Ok m).
  { intros e1 e2 e3. destruct (Z.eqb_spec m 0) as [Hz|Hm0]; [by rewrite Hz|]. cbn [check_outputs recipient amount].
    rewrite (proj2 (is_empty_false _) Hw), (proj2 (Z.eqb_neq _ _) Hm0).
    destruct (Z.ltb_spec (U64_MAX - m) 0); [lia|]. done. }
  rewrite Hco. cbn [mbind result_bind sum_fees].
  destruct (Z.ltb_spec (U64_MAX - 0) (compute_block_reward cfg (next_height c))); [lia|].
  destruct (Z.ltb_spec (compute_block_reward cfg (next_height c) + 0) m); [lia|].
  assert (Hmint : (m <? (if 0 <? m then m - 0 else 0)) = false).
  { apply Z.ltb_ge. destruct (Z.ltb_spec 0 m); lia. }
  rewrite Hmint. cbn [scan_shielded mbind result_bind verify_shielded_jobs].
  unfold scan_tx at 1. cbn [outputs inputs shielded is_empty String.eqb negb]. rewrite Hout.
  replace ((m =? 0) && true && negb (m =? 0)) with false by by destruct (m =? 0).
  rewrite Hco. cbn [mbind result_bind scan_inputs]. rewrite (bool_decide_true ([] = [])) by done. cbn [negb andb].
  cbn [mbind result_bind].
  assert (Hso : ∃ p, scan_outputs (next_height c) (hash_transaction (mkTransaction []
      (if m =? 0 then [] else [mkTxOutput who m]) "" "" "" 0 (next_height c) "")) 0 (utxo_set c) (address_index c)
      (if m =? 0 then [] else [mkTxOutput who m]) = Ok p).
  { generalize (hash_transaction (mkTransaction [] (if m =? 0 then [] else [mkTxOutput who m])
      "" "" "" 0 (next_height c) "")). intros hx. destruct (m =? 0); [by eexists|]. cbn [scan_outputs recipient amount].
    unfold balance_of in Hbal. destruct (Z.ltb_spec (U64_MAX - m) (map_get0 (address_index c) who)); [lia|]. by eexists. }
  destruct Hso as [[m' idx'] ->]. cbn [mbind result_bind scan_txs collect_jobs]. exact Hst.
Qed.

Lemma check_empty_outputs e1 e2 e3 who m :
  who ≠ "" → 0 ≤ m ≤ U64_MAX →
  check_outputs e1 e2 e3 0 (if m =? 0 then [] else [mkTxOutput who m]) = Ok m.
Proof.
  intros Hw Hm. destruct (Z.eqb_spec m 0) as [Hz|Hm0]; [by rewrite Hz|]. cbn [check_outputs recipient amount].
  rewrite (proj2 (is_empty_false _) Hw), (proj2 (Z.eqb_neq _ _) Hm0).
  destruct (Z.ltb_spec (U64_MAX - m) 0); [lia|]. done.
Qed.


Lemma empty_block_applies b c who now :
  empty_block b c who now → who ≠ "" → who ≠ kStakeAddress → next_height c ≠ 0 →
  0 ≤ max_mintable_at cfg c (next_height c) →
  0 ≤ balance_of c who → balance_of c who + max_mintable_at cfg c (next_height c) ≤ U64_MAX →
  ∃ c1, apply_all cfg (set_applying (height (header b)) c) (transactions b) = (c1, Ok ()).
Proof.
  intros (Htx & _ & _ & _ & Hh & _) Hw Hst Hn Hm0 Hb0 Hbal. rewrite Htx, Hh.
  set (m := max_mintable_at cfg c (next_height c)) in *. clearbody m. cbn [apply_all].
  set (co := mkTransaction _ _ _ _ _ _ _ _). set (c0 := set_applying (next_height c) c).
  enough (H : ∃ c1, apply_transaction cfg c0 co (hash_transaction co) false = (c1, Ok ()))
    by (destruct H as [c1 ->]; by exists c1).
  generalize (hash_transaction co). intros hx. unfold apply_transaction.
  assert (Hv : validate_transaction cfg c0 co false = Ok ()).
  { unfold validate_transaction, co. cbn [shielded inputs outputs signer signature is_empty String.eqb negb].
    rewrite (bool_decide_true ([] = [])) by done. cbn [mbind result_bind andb].
    change (applying_height c0) with (next_height c). rewrite (proj2 (Z.eqb_neq _ _) Hn). cbn [negb andb].
    rewrite !andb_false_r, check_empty_outputs by (done || lia). cbn [mbind result_bind orb].
    assert (Hs : existsb (λ o, String.eqb (recipient o) kStakeAddress) (if m =? 0 then [] else [mkTxOutput who m]) = false).
    { destruct (m =? 0); [done|]. cbn [existsb recipient]. by rewrite (proj2 (String.eqb_neq _ _) Hst). }
    by rewrite Hs. }
  rewrite Hv. change (inputs co) with (@nil TxInput). cbn [spend_inputs].
  assert (Hc : ∃ c1, create_outputs cfg c0 co hx false (context_height c0) 0 (outputs co) = (c1, Ok ())).
  { unfold co at 2. cbn [outputs]. destruct (m =? 0); [by eexists|]. cbn [create_outputs recipient amount].
    rewrite (proj2 (String.eqb_neq _ _) Hst). cbn [address_index set_utxo_index]. rewrite map_get0_insert_eq.
    unfold balance_of in Hbal. change (address_index c0) with (address_index c).
    destruct (Z.ltb_spec (U64_MAX - m) (map_get0 (address_index c) who)); [lia|]. by eexists. }
  destruct Hc as [c1 ->]. change (shielded co) with "". cbn [is_empty String.eqb negb]. by eexists.
Qed.

(** Liveness of block production. Unless votes are required and missing, an empty block
    can always be mined on a chain that is not at the end of its heights: if the nonce
    search finds a nonce and the clock does not lie before the tip, the block is
    accepted and the chain is one block longer. *)
Theorem empty_block_extends hw now s c who :
  0 ≤ block_reward cfg → 0 ≤ subsidy_floor cfg → is_u64 (compute_block_reward cfg (next_height c)) →
  is_u64 (height_of c) → is_u64 (height_of c + 1) → is_u64 (Z.of_nat hw) →
  stake_votes_required_for_next_block cfg c = false → who ≠ "" → who ≠ kStakeAddress →
  0 ≤ balance_of c who → balance_of c who + max_mintable_at cfg c (next_height c) ≤ U64_MAX →
  min_difficulty_target cfg ≤ chain_target c ≤ max_difficulty_target cfg →
  timestamp (header (tip c)) ≤ now →
  now ≤ u64 (clock s + u64 (kFutureTimeLimitBlocks * Z.max 1 (target_block_time_sec cfg))) →
  (∀ b, empty_block b c who now →
     ∀ n, block_weight (mkBlock (with_nonce (header b) n) (transactions b) [] []) ≤ max_block_weight cfg) →
  (∀ h sc, search_block_pow h sc hw (outcome s h sc)) →
  (∀ b, empty_block b c who now → found (outcome s (header b) (search_config cfg s b)) = true) →
  ∃ c' hash, mine_and_add_block cfg now s c who [] = (c', Ok hash) ∧
    length (blocks c') = S (length (blocks c)) ∧ height_of c' = height_of c + 1.
Proof.
  intros Hr Hf Hcr Hh Hh1 Hhw Hq Hw Hws Hb0 Hbal Htgt Htime Hftl Hweight Hsearch Hfinds.
  destruct (empty_block_built now c who Hr Hf Hcr Hq) as (b0 & Hb & He0).
  unfold mine_and_add_block, mine_and_add_block_with_votes. rewrite Hb. unfold mine_block.
  set (sc := search_config cfg s b0). pose proof (Hsearch (header b0) sc) as Hs.
  pose proof (Hfinds b0 He0) as Hfound. change (found (outcome s (header b0) sc) = true) in Hfound. rewrite Hfound.
  set (r := outcome s (header b0) sc) in *. set (b := mkBlock _ _ _ _).
  assert (He : empty_block b c who now).
  { unfold empty_block, b in *. cbn [transactions votes slashes header with_nonce merkle_root height previous_hash
      timestamp difficulty_target] in *. destruct He0 as (H1 & H2 & H3 & H4 & H5 & H6 & H7 & H8).
    split_and!; done. }
  assert (Hwt : block_weight b ≤ max_block_weight cfg).
  { pose proof (Hweight b0 He0 (r_nonce r)) as Hwb. pose proof He0 as (_ & Hv & Hsl & _).
    unfold b. by rewrite Hv, Hsl. }
  destruct (search_found_ok (header b0) sc hw Hhw r Hs Hfound) as [Hhash Hmeets].
  assert (Hhd : validate_block_header cfg (clock s) c b = Ok ()).
  { destruct He as (_ & _ & _ & Hmr & Hhe & Hph & Hts & Hdt).
    unfold validate_block_header. rewrite Hmr, Hhe, Hph, Hts, Hdt. unfold next_height, height_of.
    rewrite Z.eqb_refl, !String.eqb_refl, Z.eqb_refl. cbn [negb].
    destruct (Z.ltb_spec now (timestamp (header (tip c)))); [lia|].
    destruct (Z.ltb_spec (u64 (clock s + u64 (kFutureTimeLimitBlocks * Z.max 1 (target_block_time_sec cfg)))) now); [lia|].
    rewrite andb_false_r. destruct (Z.ltb_spec (max_difficulty_target cfg) (chain_target c)); [lia|].
    destruct (Z.ltb_spec (chain_target c) (min_difficulty_target cfg)); [lia|].
    rewrite Hhash in Hmeets. unfold pow_meets_target, sc, search_config in Hmeets. cbn [algorithm target] in Hmeets.
    unfold hash_meets_target. change (header b) with (with_nonce (header b0) (r_nonce r)).
    destruct He0 as (_ & _ & _ & _ & _ & _ & _ & Hdt0). rewrite Hdt0 in Hmeets. by rewrite Hmeets. }
  pose proof (max_mintable_bounds c (next_height c) Hr Hf) as Hm.
  pose proof (empty_block_staking b c who now He Hh Hh1 Hq) as Hstk.
  pose proof (empty_block_transactions b c who now Hr Hf Hcr He Hw Hwt Hbal Hstk) as Hvt.
  assert (Hnz : next_height c ≠ 0).
  { unfold next_height. rewrite u64_small by done. unfold is_u64 in Hh. lia. }
  destruct (empty_block_applies b c who now He Hw Hws Hnz ltac:(lia) Hb0 Hbal) as [c1 Ha].
  pose proof (apply_all_frame _ _ _ _ _ Ha) as (Hbl & _ & Hem & _).
  destruct (commit_block_Ok cfg c c1 b Hvt Hem) as (co & txs & tot & fees & _ & _ & _ & _ & Hcm).
  unfold add_block. destruct (Z.ltb_spec (max_block_weight cfg) (block_weight b)); [lia|].
  rewrite Hhd, Hvt, Ha, Hcm. eexists _, _. split; [done|]. unfold height_of, tip.
  cbn [blocks set_applying set_tip]. rewrite Hbl. cbn [blocks set_applying]. split.
  - rewrite length_app. cbn. lia.
  - rewrite last_last. destruct He as (_ & _ & _ & _ & -> & _). unfold next_height. by apply u64_small.
Qed.

(** ** The miner and the pool *)

Section pool.
Context {MO : MempoolOrder}.

(** Pending transactions that may stand together in a pool. *)
Definition poolable (l : list Transaction) : Prop := mp_ok (pool_of l) ∧ all_spendable l.

Lemma poolable_pool m : mp_ok m → all_spendable (pending m) → poolable (pending m) ∧ m = pool_of (pending m).
Proof. intros Hm Hs. pose proof (pool_of_pending m Hm) as He. rewrite He in Hm at 1. done. Qed.
Lemma poolable_perm l k : l ≡ₚ k → poolable l → poolable k.
Proof.
  intros Hp [([H1 _] & [H2 _] & [H3 _]) Hs]. cbn [pending pool_of] in *. split.
  - split_and!; cbn [pending pool_of]; apply exact_of_nodup; by rewrite <-Hp.
  - unfold all_spendable in *. by rewrite <-Hp.
Qed.
Lemma poolable_sub l k : poolable (l ++ k) → poolable l.
Proof.
  intros [([H1 _] & [H2 _] & [H3 _]) Hs]. cbn [pending pool_of] in *. rewrite !bind_app in *.
  apply NoDup_app in H1 as [H1 _], H2 as [H2 _], H3 as [H3 _]. apply Forall_app in Hs as [Hs _].
  split; [|done]. split_and!; by apply exact_of_nodup.
Qed.

(** A transaction that fits into the pool is accepted. *)
Lemma submit_fits l t : poolable (l ++ [t]) → (submit (pool_of l) t).1 = pool_of (l ++ [t]).
Proof.
  intros Hp. pose proof (poolable_sub _ _ Hp) as [Hl _]. destruct Hp as [(H1 & H2 & H3) Hs].
  apply Forall_app in Hs as [_ Ht]. apply Forall_inv in Ht.
  destruct (submit_step (pool_of l) t Hl) as (Hok & Hpend & _).
  assert (Hc : existsb (conflict t) l = false).
  { apply not_true_iff_false. intros (u & Hu & Hcu)%existsb_exists. apply list_elem_of_In in Hu.
    apply list_elem_of_lookup in Hu as [i Hi].
    assert (Hi' : (l ++ [t]) !! i = Some u) by by apply lookup_app_l_Some.
    assert (Ht' : (l ++ [t]) !! length l = Some t) by by rewrite list_lookup_middle.
    assert (Hne : length l ≠ i) by (apply lookup_lt_Some in Hi; lia).
    apply conflict_true in Hcu as [He|[(k & Hk & Hk')|(k & Hk & Hk')]].
    - eapply (exact_disjoint _ _ _ _ _ t u (hash_transaction t) H1); [done..| |];
        apply list_elem_of_singleton; done.
    - by eapply (exact_disjoint _ _ _ _ _ t u k H2).
    - by eapply (exact_disjoint _ _ _ _ _ t u k H3). }
  cbn [spec_step pending pool_of] in Hpend. rewrite Ht, Hc in Hpend. cbn in Hpend.
  rewrite (pool_of_pending _ Hok), Hpend. done.
Qed.
Lemma submit_all_fits l ts : poolable (l ++ ts) → submit_all (pool_of l) ts = pool_of (l ++ ts).
Proof.
  unfold submit_all. revert l. induction ts as [|t ts IH]; intros l Hp; [by rewrite app_nil_r|].
  replace (l ++ t :: ts) with ((l ++ [t]) ++ ts) in * by by rewrite <-app_assoc.
  cbn [foldl]. rewrite submit_fits by by eapply poolable_sub. by apply IH.
Qed.

Lemma mined_transactions now s c who txs vs sls c' hash :
  mine_and_add_block_with_votes cfg now s c who txs vs sls = (c', Ok hash) →
  ∃ b, add_block cfg (clock s) c b = (c', Ok ()) ∧ tail (transactions b) = txs.
Proof.
  unfold mine_and_add_block_with_votes. destruct (block_to_mine _ _ _ _ _ _ _) as [b0|] eqn:Eb; [|done].
  destruct (block_to_mine_Ok _ _ _ _ _ _ _ Eb) as (owners & Htx & _). unfold mine_block.
  destruct (found _); [|by destruct (stopped _); [|destruct (deadline_hit _)]].
  set (b := mkBlock _ _ _ _). destruct (add_block cfg (clock s) c b) as [c1 [[]|]] eqn:Ea; [|done].
  intros [= <- <-]. exists b. split; [done|]. unfold b. cbn [transactions]. by rewrite Htx.
Qed.

(** Mining loses no transaction. Of the transactions taken from the pool only the invalid
    ones are dropped: if the block is mined, the valid ones are in it or back in the
    pool; if not, all of them are back. *)
Theorem mining_keeps_transactions now s vsrc ssrc budget who n os m :
  m_pool m = pool_after os →
  let '(m', r) := mine_next_block cfg now s vsrc ssrc budget who n m in
  ∃ fetched rest,
    fetched ++ rest ≡ₚ pending (m_pool m) ∧
    let valid := filter (λ tx, is_ok (validate_transaction cfg (m_chain m) tx true) = true) fetched in
    match r with
    | Err _ => pending (m_pool m') ≡ₚ rest ++ valid
    | Ok _ => ∃ b, add_block cfg (clock s) (m_chain m) b = (m_chain m', Ok ()) ∧
                   tail (transactions b) ++ pending (m_pool m') ≡ₚ rest ++ valid
    end.
Proof.
  intros Hm. unfold mine_next_block.
  assert (Hok : mp_ok (m_pool m)) by (rewrite Hm; apply pool_after_ok).
  assert (Hsp : all_spendable (pending (m_pool m))) by (rewrite Hm; apply pool_spendable).
  destruct (poolable_pool _ Hok Hsp) as [Hp0 _].
  destruct (fetch_step (m_pool m) n Hok) as (Hok1 & Hp1 & Hr1).
  destruct (fetch_for_block (m_pool m) n) as [pool1 fetched]. cbn [fst snd] in *. injection Hr1 as Hf.
  cbn [spec_step fst] in Hp1. set (valid := filter _ fetched). destruct (fit _ _ _ _ valid) as [keep used].
  assert (Hperm : fetched ++ pending pool1 ≡ₚ pending (m_pool m)).
  { rewrite Hf, Hp1, take_drop. apply block_order_perm. }
  assert (Hpv : poolable (pending pool1 ++ valid)).
  { eapply (poolable_sub _ (filter (λ tx, ¬ is_ok (validate_transaction cfg (m_chain m) tx true) = true) fetched)).
    eapply poolable_perm; [|exact Hp0]. rewrite <-Hperm, <-app_assoc, (Permutation_app_comm fetched). f_equiv.
    symmetry. apply filter_app_complement. }
  rewrite (pool_of_pending pool1 Hok1). set (rest := pending pool1) in *.
  assert (Hsplit : rest ++ valid ≡ₚ (rest ++ drop keep valid) ++ take keep valid).
  { rewrite <-app_assoc, (Permutation_app_comm (drop keep valid)), take_drop. done. }
  pose proof (poolable_perm _ _ Hsplit Hpv) as Hpv'.
  rewrite submit_all_fits by by eapply poolable_sub.
  set (wv := _ && _). set (vs := if wv then default [] vsrc else []). set (sls := if wv then default [] ssrc else []).
  assert (Hmine : (if wv then mine_and_add_block_with_votes cfg now s (m_chain m) who (take keep valid) vs sls
    else mine_and_add_block cfg now s (m_chain m) who (take keep valid)) =
    mine_and_add_block_with_votes cfg now s (m_chain m) who (take keep valid) vs sls)
    by by unfold vs, sls; destruct wv.
  rewrite Hmine. clear Hmine. destruct (mine_and_add_block_with_votes _ _ _ _ _ _ _) as [c' [hash|err]] eqn:Em;
    exists fetched, rest; (split; [done|]).
  - cbn [m_chain m_pool]. destruct (mined_transactions _ _ _ _ _ _ _ _ _ Em) as (b & Ha & Ht). exists b.
    split; [done|]. rewrite Ht. cbn [pending pool_of]. fold valid. rewrite Hsplit. apply Permutation_app_comm.
  - cbn [m_pool]. rewrite submit_all_fits by done. cbn [pending pool_of]. fold valid. by rewrite Hsplit.
Qed.
End pool.
End proofs.
