(* ===== verification/Wallet.v ===== *)
(** * The wallet's view of the chain ([src/wallet.cpp] and the query and builder methods
    of [src/chain.cpp])

    [std::unordered_map] iteration is [iter_map]; the pending view installed by
    [set_pending_view] is an argument, [None] where no function is set. *)
From S2P Require Import Prelude ConsensusRules Strings Lines Crypto Types Wire Block Staking Shielded Script.
From S2P Require Import Chain ChainBlock Mempool Mining.

Record PendingView := mkPendingView {
  pending_nonce_fn : option (string → Z);
  pending_outpoint_fn : option (string → bool);
}.
Definition no_view : PendingView := mkPendingView None None.
(** The pool as the node installs it. *)
Definition pool_view (m : Mempool) : PendingView :=
  mkPendingView (Some (max_pending_nonce m)) (Some (outpoint_reserved m)).

(** ** Queries *)

Section queries.
Context {C : Crypto} {ST : Stark} (cfg : ChainConfig).

Definition block_at (c : Chain) (h : Z) : option Block := blocks c !! Z.to_nat h.
Definition block_by_hash (c : Chain) (hash : string) : option Block :=
  head (filter (λ b, hash_block_header (header b) = hash) (blocks c)).
Definition genesis_hash (c : Chain) : string :=
  from_option (λ b, hash_block_header (header b)) "" (head (blocks c)).

(** The first block of the chain that holds the transaction. *)
Definition tx_confirmations (c : Chain) (tx_hash : string) : Z :=
  if is_empty tx_hash then 0
  else match head (filter (λ b, Exists (λ tx, hash_transaction tx = tx_hash) (transactions b)) (blocks c)) with
       | None => 0
       | Some b => if height (header b) <=? height_of c then u64 (height_of c - height (header b) + 1) else 0
       end.
Definition tx_in_best_chain (c : Chain) (tx_hash : string) : bool := 0 <? tx_confirmations c tx_hash.

Definition current_block_reward (c : Chain) : Z := compute_block_reward cfg (next_height c).
(** [None]: a division by zero. *)
Definition next_halving_height (c : Chain) : option Z :=
  if halving_interval cfg =? 0 then None
  else Some (u64 (u64 (next_height c / halving_interval cfg + 1) * halving_interval cfg)).

(** [std::map] visits the tickets in key order; a ticket's key is its id. *)
Definition tickets_of (c : Chain) (who : string) : list StakeTicket :=
  filter (λ t, owner t = who) (sort_tickets ((map_to_list (tickets c)).*2)).
Definition staked_of (c : Chain) (who : string) : Z :=
  foldl (λ s t, if String.eqb (owner t) who then u64 (s + ticket_amount t) else s) 0 ((map_to_list (tickets c)).*2).
Definition total_staked (c : Chain) : Z :=
  foldl (λ s t, u64 (s + ticket_amount t)) 0 ((map_to_list (tickets c)).*2).
Definition spendable_height_of (c : Chain) (outpoint : string) : Z :=
  from_option u_spendable_height 0 (utxo_set c !! outpoint).
Definition registered_pubkey (c : Chain) (address : string) : option string := pubkey_registry c !! address.
Definition pubkey_field_for (c : Chain) (address pubkey_hex : string) : string :=
  match pubkey_registry c !! address with
  | Some pk => if String.eqb pk pubkey_hex then "" else pubkey_hex
  | None => pubkey_hex
  end.

Definition next_nonce (v : PendingView) (c : Chain) (address : string) : Z :=
  let n := u64 (last_nonce c address + 1) in
  match pending_nonce_fn v with
  | None => n
  | Some f => let p := f address in if n <=? p then u64 (p + 1) else n
  end.

(** ** A balance credited outside the blocks (tests only) *)

Definition credit_balance (c : Chain) (address : string) (amt : Z) (reason : string) : Chain * result () :=
  if is_empty address then (c, Err "address empty")
  else if amt =? 0 then (c, Err "amount must be > 0")
  else if is_empty reason then (c, Err "reason empty")
  else
    let txid := strong_hash ("credit|" +:+ reason +:+ "|" +:+ address +:+ "|" +:+ to_string amt +:+ "|" +:+
                             to_string (next_height c)) in
    if bool_decide (txid ∈ seen_transactions c) then (c, Err "duplicate credit tx")
    else
      let key := outpoint_key txid 0 in
      if bool_decide (is_Some (utxo_set c !! key)) then (c, Err "duplicate credit outpoint")
      else
        let m := <[key := mkUTXO address amt false 0 0]> (utxo_set c) in
        let idx := <[address := balance_of c address]> (address_index c) in
        if U64_MAX - amt <? map_get0 idx address
        then (set_utxo_index (delete key m) idx c, Err "balance overflow")
        else (set_seen ({[txid]} ∪ seen_transactions c)
                (set_utxo_index m (<[address := map_get0 idx address + amt]> idx) c), Ok ()).

(** ** Building transactions *)

(** The outpoint a key of the UTXO set stands for; an exception of [std::stoul] is an
    error of its own. *)
Definition key_input (key : string) : option (result TxInput) :=
  match rfind_char ":" key with
  | None => None
  | Some sep =>
      Some (match stoull 10 (substr_from key (S sep)) with
            | None => Err "std::stoul"
            | Some (v, _) => Ok (mkTxInput (substr key 0 sep) (u32 v) "")
            end)
  end.

(** The coin selection loop over the entries in iteration order. *)
Fixpoint select_coins (v : PendingView) (c : Chain) (from : string) (required gathered : Z)
    (selected : list TxInput) (entries : list (string * UTXO)) : result (Z * list TxInput) :=
  match entries with
  | [] => Ok (gathered, selected)
  | (key, u) :: entries =>
      if u_spent u || negb (String.eqb (u_owner u) from) || (next_height c <? u_spendable_height u)
      then select_coins v c from required gathered selected entries
      else if from_option (λ f, f key) false (pending_outpoint_fn v)
      then select_coins v c from required gathered selected entries
      else
        match key_input key with
        | None => select_coins v c from required gathered selected entries
        | Some (Err e) => Err e
        | Some (Ok i) =>
            let selected := selected ++ [i] in
            let gathered := u64 (gathered + u_amount u) in
            if required <=? gathered then Ok (gathered, selected)
            else select_coins v c from required gathered selected entries
        end
  end.

Context {IO : IterationOrder}.

Definition build_transaction (v : PendingView) (c : Chain) (from to : string) (amt fee nonce : Z) :
    result Transaction :=
  reject_if is_empty from || is_empty to as "from/to empty" ;;
  reject_if amt =? 0 as "amount must be > 0" ;;
  reject_if U64_MAX - amt <? fee as "amount+fee overflow" ;;
  let required := amt + fee in
  '(gathered, selected) ← select_coins v c from required 0 [] (iter_map (utxo_set c));
  reject_if gathered <? required as "insufficient balance" ;;
  let change := gathered - required in
  Ok (mkTransaction selected (mkTxOutput to amt :: (if 0 <? change then [mkTxOutput from change] else []))
        "" "" "" fee nonce "").

Definition build_stake_lock (v : PendingView) (c : Chain) (from : string) (amt fee nonce : Z) :
    result Transaction :=
  reject_if negb (staking_active_at cfg (next_height c)) as "staking not active" ;;
  reject_if amt <? stake_min_amount cfg
    as "stake below minimum (" +:+ to_string (stake_min_amount cfg) +:+ ")" ;;
  build_transaction v c from kStakeAddress amt fee nonce.

Definition build_stake_unlock (c : Chain) (ticket_id : string) (fee nonce : Z) : result Transaction :=
  match tickets c !! ticket_id with
  | None => Err "unknown ticket"
  | Some t =>
      reject_if ticket_amount t <=? fee as "fee exceeds ticket amount" ;;
      match key_input ticket_id with
      | None | Some (Err _) => Err "std::stoul"
      | Some (Ok i) => Ok (mkTransaction [i] [mkTxOutput (owner t) (ticket_amount t - fee)] "" "" "" fee nonce "")
      end
  end.

(** ** [Wallet] *)

(** The private key is the signing function it gives; [sign_message_hybrid] only checks
    its length before it calls liboqs. *)
Record Wallet := mkWallet {
  address : string;
  w_public_key : string;
  sign : string → string;
}.

Definition wallet_balance (w : Wallet) (c : Chain) : Z := balance_of c (address w).

(** The wallet's signature over a transaction without one. *)
Definition sign_with (w : Wallet) (c : Chain) (tx : Transaction) : Transaction :=
  let tx := mkTransaction (inputs tx) (outputs tx) (address w) (pubkey_field_for c (address w) (w_public_key w))
              "" (fee tx) (nonce tx) (shielded tx) in
  mkTransaction (inputs tx) (outputs tx) (signer tx) (signer_pubkey tx) (sign w (hash_transaction tx))
    (fee tx) (nonce tx) (shielded tx).

Definition build_signed_send (v : PendingView) (w : Wallet) (c : Chain) (to : string) (amt fee : Z) :
    result Transaction :=
  tx ← build_transaction v c (address w) to amt fee (next_nonce v c (address w));
  let tx := sign_with w c tx in
  _ ← validate_transaction cfg c tx true;
  Ok tx.

Definition send (v : PendingView) (w : Wallet) (m : Mempool) (c : Chain) (to : string) (amt fee : Z) :
    Mempool * result () :=
  match build_signed_send v w c to amt fee with
  | Err e => (m, Err e)
  | Ok tx =>
      match submit m tx with
      | (m, true) => (m, Ok ())
      | (m, false) => (m, Err "transaction rejected by mempool")
      end
  end.
End queries.
