(* ===== verification/WalletProofs.v ===== *)
(** * The wallet's coin selection is sound and complete

    The keys of the UTXO set of a chain built from blocks are outpoints, so the entry a
    key stands for can be read back. A send that is built spends distinct, unspent,
    spendable and unreserved coins of the wallet, balances to the unit and passes
    validation; one that is refused for lack of funds really lacks them. *)
From S2P Require Import Prelude ConsensusRules Strings Lines Crypto Types Wire WireProofs Block Staking.
From S2P Require Import Shielded Script Chain ChainBlock ChainProofs ChainSupply ChainRules Mempool Mining Wallet.

(** ** Keys are outpoints *)

Definition key_ok (k : string) : Prop := ∃ t i, k = outpoint_key t i ∧ is_u32 i.
Definition keys_ok (m : gmap string UTXO) : Prop := ∀ k u, m !! k = Some u → key_ok k.

Lemma keys_ok_insert m k u : keys_ok m → key_ok k → keys_ok (<[k := u]> m).
Proof. intros Hm Hk k' u' [[<- _]|[_ H]]%lookup_insert_Some; [done|by eapply Hm]. Qed.
Lemma keys_ok_respend m k u u' : keys_ok m → unspent m k = Some u → keys_ok (<[k := u']> m).
Proof. intros Hm [H _]%unspent_Some. apply keys_ok_insert; [done|]. by eapply Hm. Qed.

Lemma rfind_char_free c s : free_of c s = true → rfind_char c s = None.
Proof.
  unfold free_of. induction s as [|d s IH]; [done|]. cbn. intros [Hd Hs]%andb_prop.
  rewrite IH by done. by apply negb_true_iff in Hd as ->.
Qed.
Lemma rfind_char_last c t s : free_of c s = true → rfind_char c (t +:+ String c s) = Some (String.length t).
Proof.
  intros Hs. induction t as [|d t IH]; [|by rewrite str_app_cons; cbn; rewrite IH].
  rewrite str_app_nil_l. cbn. by rewrite rfind_char_free, Ascii.eqb_refl by done.
Qed.

Lemma key_input_outpoint t i : is_u32 i → key_input (outpoint_key t i) = Some (Ok (mkTxInput t i "")).
Proof.
  intros Hi. unfold key_input, outpoint_key. rewrite str_app_cons, str_app_nil_l.
  rewrite rfind_char_last by by apply to_string_free_of.
  assert (Hd : substr_from (t +:+ String ":" (to_string i)) (S (String.length t)) = to_string i).
  { unfold substr_from. rewrite <-(str_app_nil_l (to_string i)) at 1.
    change (String ":" ("" +:+ to_string i)) with (":" +:+ ("" +:+ to_string i)).
    rewrite str_app_nil_l, <-str_app_assoc. replace (S (String.length t)) with (String.length (t +:+ ":")).
    - apply str_drop_app.
    - rewrite str_length_app. cbn. lia. }
  rewrite Hd, stoull_to_string by (unfold is_u32, is_u64 in *; lia).
  unfold substr. cbn [str_drop]. by rewrite str_take_app, u32_small.
Qed.

(** ** The invariant *)

Lemma put_many_count {A} (put : A → string) l :
  (∀ x, (0 < String.length (put x))%nat) → (length l ≤ String.length (put_many put l))%nat.
Proof.
  intros Hp. unfold put_many. induction l as [|x l IH]; [done|]. cbn [foldr length].
  rewrite str_length_app. specialize (Hp x). lia.
Qed.

Section keys.
Context {C : Crypto} {ST : Stark} (cfg : ChainConfig).

Lemma outputs_below_weight tx : list_size (outputs tx) ≤ tx_weight tx.
Proof.
  assert (H : (length (outputs tx) ≤ String.length (put_many put_output (outputs tx)))%nat).
  { apply put_many_count. intros o. unfold put_output, put_u64.
    rewrite str_length_app, put_le_length. lia. }
  unfold tx_weight, str_size, list_size. rewrite encode_tx_length. unfold encode_tx_body.
  rewrite !str_length_app. lia.
Qed.

Lemma tx_weight_block b tx : tx ∈ transactions b → tx_weight tx ≤ block_weight b.
Proof.
  intros Hin. assert (Hnn : ∀ t, t ∈ transactions b → 0 ≤ tx_weight t)
    by (intros t _; unfold tx_weight, str_size; lia).
  pose proof (list_sum_elem_le tx_weight _ _ Hnn Hin) as Hle.
  assert (Hbin : ∀ s, 0 ≤ weight_bin (str_size s)) by (intros s; unfold weight_bin, str_size;
    pose proof (Z.div_pos (Z.of_nat (String.length s) + 1) 2 ltac:(lia) ltac:(lia)); lia).
  assert (Hv : ∀ v, 0 ≤ stake_vote_weight v).
  { intros v. unfold stake_vote_weight. pose proof (Hbin (voted_hash v)). pose proof (Hbin (vote_signature v)).
    destruct (find_char ":" (ticket_id v)) as [n|];
      [pose proof (Hbin (substr (ticket_id v) 0 n))|unfold str_size at 1]; lia. }
  unfold block_weight, stake_extension_weight.
  assert (0 ≤ list_sum stake_vote_weight (votes b)) by (apply list_sum_nonneg; auto).
  assert (0 ≤ list_sum (λ s, stake_vote_weight (ev_a s) + stake_vote_weight (ev_b s)) (slashes b)).
  { apply list_sum_nonneg. intros s _. pose proof (Hv (ev_a s)). pose proof (Hv (ev_b s)). lia. }
  unfold str_size. destruct (votes b), (slashes b); lia.
Qed.

(** Transactions whose outputs can be numbered in 32 bits. *)
Definition few_outputs (tx : Transaction) : Prop := list_size (outputs tx) < W32.

Lemma spend_inputs_keys c un ins c' r :
  keys_ok (utxo_set c) → spend_inputs c un ins = (c', r) → keys_ok (utxo_set c').
Proof.
  revert c un. induction ins as [|i ins IH]; intros c un Hk H; cbn in H; [by injection H as <- _|].
  destruct (unspent _ _) as [u|] eqn:Hu; [|by injection H as <- _].
  apply IH in H; [done|]. cbn. by eapply keys_ok_respend.
Qed.

Lemma create_outputs_keys c tx txid un h i outs c' r :
  keys_ok (utxo_set c) → 0 ≤ i → i + list_size outs < W32 →
  create_outputs cfg c tx txid un h i outs = (c', r) → keys_ok (utxo_set c').
Proof.
  revert c i. induction outs as [|o outs IH]; intros c i Hk Hi Hn H; cbn in H; [by injection H as <- _|].
  unfold list_size in *. cbn [length] in Hn.
  assert (Hnew : ∀ u, keys_ok (<[outpoint_key txid i := u]> (utxo_set c))).
  { intros u. apply keys_ok_insert; [done|]. exists txid, i. split; [done|]. unfold is_u32. lia. }
  destruct (String.eqb (recipient o) kStakeAddress), (_ <? _);
    try (injection H as <- _; apply Hnew); (apply IH in H; [done|apply Hnew|lia|lia]).
Qed.

Lemma apply_all_keys c txs c' r :
  keys_ok (utxo_set c) → Forall few_outputs txs → apply_all cfg c txs = (c', r) → keys_ok (utxo_set c').
Proof.
  intros Hk Hf. revert c Hk. induction Hf as [|tx txs Htx _ IH]; intros c Hk H; cbn in H; [by injection H as <- _|].
  assert (Hap : ∀ txid c1 r1, apply_transaction cfg c tx txid false = (c1, r1) → keys_ok (utxo_set c1)).
  { unfold apply_transaction. intros txid c1 r1. destruct (validate_transaction _ _ _ _); [|by intros [= <- _]].
    destruct (spend_inputs _ _ _) as [c2 [un|]] eqn:E1; apply spend_inputs_keys in E1; [|done|by intros [= <- _]|done].
    destruct (create_outputs _ _ _ _ _ _ _ _) as [c3 [[]|]] eqn:E2;
      (apply create_outputs_keys in E2; [|done|done|unfold few_outputs in Htx; lia]); [|by intros [= <- _]].
    rewrite <-(record_signer_utxo tx c3) in E2. destruct (negb _); [|by intros [= <- _]].
    destruct (from_tx_field _); by intros [= <- _]. }
  destruct (apply_transaction _ _ _ _ _) as [c1 [[]|]] eqn:E; apply Hap in E; [by apply IH in H|by injection H as <- _].
Qed.

Lemma burn_ticket_keys c ev : keys_ok (utxo_set c) → keys_ok (utxo_set (burn_ticket c ev)).
Proof.
  intros Hk. unfold burn_ticket. destruct (tickets c !! _); [|done].
  destruct (unspent _ _) as [u|] eqn:Hu; [|done]. cbn. by eapply keys_ok_respend.
Qed.
Lemma burn_all_keys c evs : keys_ok (utxo_set c) → keys_ok (utxo_set (foldl burn_ticket c evs)).
Proof. revert c. induction evs as [|ev evs IH]; intros c Hk; [done|]. by apply IH, burn_ticket_keys. Qed.

Lemma built_keys c bs : max_block_weight cfg < W32 → built cfg c bs → keys_ok (utxo_set c).
Proof.
  intros Hw. induction 1 as [|now c bs b c' _ IH _ H]; [by intros k u Hk; cbn in Hk; apply lookup_empty_Some in Hk|].
  assert (Hbw : block_weight b ≤ max_block_weight cfg).
  { unfold add_block in H. by destruct (Z.ltb_spec (max_block_weight cfg) (block_weight b)). }
  apply add_block_Ok in H as (_ & _ & c1 & co & txs & total & fees & Ha & _ & _ & _ & _ & ->).
  apply apply_all_keys in Ha; [|done|].
  - unfold committed_state. cbn [utxo_set set_applying set_tip set_emitted_fees].
    apply burn_all_keys. done.
  - apply Forall_forall. intros tx Hin. unfold few_outputs.
    pose proof (outputs_below_weight tx). pose proof (tx_weight_block b tx Hin). lia.
Qed.
End keys.

(** ** The balance index covers the coins *)

(** The unspent coins of an address. *)
Definition owned_by (who : string) (u : UTXO) : Z := if String.eqb (u_owner u) who then value_of u else 0.
Definition owned (m : gmap string UTXO) (who : string) : Z := map_sum (owned_by who) m.

Definition index_ok (m : gmap string UTXO) (idx : gmap string Z) : Prop :=
  utxo_wf m ∧ ∀ who, owned m who ≤ map_get0 idx who ≤ U64_MAX.

Lemma owned_by_nonneg m who : utxo_wf m → ∀ k u, m !! k = Some u → 0 ≤ owned_by who u.
Proof.
  intros Hwf k u Hu. pose proof (value_of_nonneg m Hwf k u Hu). unfold owned_by. by destruct (String.eqb _ _).
Qed.

(** Marking a coin spent and lowering the index by it. *)
Lemma index_ok_spend m idx k u :
  index_ok m idx → unspent m k = Some u →
  index_ok (<[k := mark_spent u]> m) (index_sub idx (u_owner u) (u_amount u)).
Proof.
  intros [Hwf Hi] Hu. pose proof Hu as [Hk Hs]%unspent_Some.
  split; [apply utxo_wf_insert; [done|exact (Hwf _ _ Hk)]|]. intros who.
  assert (Hval : value_of u = u_amount u) by (unfold value_of; by rewrite Hs).
  assert (Hown : ∀ x, owned (<[k := mark_spent u]> m) x = owned m x - owned_by x u).
  { intros x. unfold owned. rewrite map_sum_insert, Hk. cbn [contrib].
    unfold owned_by at 1. cbn [u_owner mark_spent]. change (value_of (mark_spent u)) with 0.
    destruct (String.eqb _ _); lia. }
  assert (Hle : owned_by (u_owner u) u ≤ owned m (u_owner u)).
  { apply (map_sum_lookup_le (owned_by (u_owner u)) m k u); [|done]. by apply owned_by_nonneg. }
  pose proof (Hwf _ _ Hk) as [Ha _]. rewrite Hown. unfold index_sub, owned_by in *.
  rewrite String.eqb_refl, Hval in Hle. pose proof (Hi (u_owner u)) as Ho. pose proof (Hi who) as Hw.
  destruct (String.eqb_spec (u_owner u) who) as [<-|Hne].
  - rewrite map_get0_insert_eq, Hval. destruct (Z.leb_spec (u_amount u) (map_get0 idx (u_owner u))); lia.
  - rewrite map_get0_insert_ne by done. lia.
Qed.

(** Adding a coin and raising the index by it. *)
Lemma index_ok_create m idx k u :
  index_ok m idx → u_spent u = false → is_u64 (u_amount u) →
  map_get0 idx (u_owner u) + u_amount u ≤ U64_MAX →
  index_ok (<[k := u]> m) (<[u_owner u := map_get0 idx (u_owner u) + u_amount u]> idx).
Proof.
  intros [Hwf Hi] Hs Hu Hmax. split; [by apply utxo_wf_insert|]. intros who.
  assert (Hown : owned (<[k := u]> m) who ≤ owned m who + owned_by who u).
  { unfold owned. rewrite map_sum_insert. enough (0 ≤ contrib (owned_by who) (m !! k)) by lia.
    destruct (m !! k) eqn:E; cbn; [|lia]. by eapply owned_by_nonneg. }
  pose proof (Hi who) as Hw. unfold owned_by, value_of in Hown. rewrite Hs in Hown.
  destruct (String.eqb_spec (u_owner u) who) as [E|Hne].
  - rewrite <-E, map_get0_insert_eq in *. lia.
  - rewrite map_get0_insert_ne by done. lia.
Qed.

Section index.
Context {C : Crypto} {ST : Stark} (cfg : ChainConfig).

Lemma spend_inputs_index c un ins c' r :
  index_ok (utxo_set c) (address_index c) → spend_inputs c un ins = (c', r) →
  index_ok (utxo_set c') (address_index c').
Proof.
  revert c un. induction ins as [|i ins IH]; intros c un Hk H; cbn in H; [by injection H as <- _|].
  destruct (unspent _ _) as [u|] eqn:Hu; [|by injection H as <- _].
  apply IH in H; [done|]. by apply index_ok_spend.
Qed.

Lemma create_outputs_index c tx txid un h i outs c' :
  index_ok (utxo_set c) (address_index c) → Forall output_u64 outs →
  create_outputs cfg c tx txid un h i outs = (c', Ok ()) → index_ok (utxo_set c') (address_index c').
Proof.
  intros Hk Hf. revert c i Hk. induction Hf as [|o outs Ho _ IH]; intros c i Hk H; cbn [create_outputs] in H;
    [by injection H as <-|].
  set (c1 := if String.eqb (recipient o) kStakeAddress then _ else c) in H.
  assert (Hc1 : index_ok (utxo_set c1) (address_index c1)) by (unfold c1; by destruct (String.eqb _ _)).
  clearbody c1. cbn [address_index utxo_set set_utxo_index] in H. rewrite !map_get0_insert_eq in H.
  destruct (Z.ltb_spec (U64_MAX - amount o) (map_get0 (address_index c1) (recipient o))); [done|].
  apply IH in H; [done|]. cbn [address_index utxo_set set_utxo_index]. rewrite insert_insert_eq.
  by apply (index_ok_create _ _ _ (mkUTXO (recipient o) (amount o) false _ _) Hc1 eq_refl Ho ltac:(cbn; lia)).
Qed.

Lemma apply_transaction_index c tx txid chk c' :
  index_ok (utxo_set c) (address_index c) → tx_u64 tx → apply_transaction cfg c tx txid chk = (c', Ok ()) →
  index_ok (utxo_set c') (address_index c').
Proof.
  intros Hk (_ & Ho & _). unfold apply_transaction. destruct (validate_transaction _ _ _ _); [|done].
  destruct (spend_inputs _ _ _) as [c2 [un|]] eqn:E1; apply spend_inputs_index in E1; [|done|done|done].
  destruct (create_outputs _ _ _ _ _ _ _ _) as [c3 [[]|]] eqn:E2; [|done].
  apply create_outputs_index in E2; [|done|done].
  assert (Hr : index_ok (utxo_set (record_signer tx c3)) (address_index (record_signer tx c3)))
    by (unfold record_signer; by destruct (_ && _)).
  destruct (negb _); [|by intros [= <-]]. destruct (from_tx_field _); by intros [= <-].
Qed.

Lemma apply_all_index c txs c' :
  index_ok (utxo_set c) (address_index c) → Forall tx_u64 txs → apply_all cfg c txs = (c', Ok ()) →
  index_ok (utxo_set c') (address_index c').
Proof.
  intros Hk Hf. revert c Hk. induction Hf as [|tx txs Htx _ IH]; intros c Hk H; cbn in H; [by injection H as <-|].
  destruct (apply_transaction _ _ _ _ _) as [c1 [[]|]] eqn:E; [|done].
  apply apply_transaction_index in E; [|done|done]. by apply IH in H.
Qed.

Lemma burn_all_index c evs :
  index_ok (utxo_set c) (address_index c) →
  index_ok (utxo_set (foldl burn_ticket c evs)) (address_index (foldl burn_ticket c evs)).
Proof.
  revert c. induction evs as [|ev evs IH]; intros c Hk; [done|]. cbn [foldl]. apply IH.
  unfold burn_ticket. destruct (tickets c !! _); [|done]. destruct (unspent _ _) as [u|] eqn:Hu; [|done].
  by apply index_ok_spend.
Qed.

Lemma built_index c bs : built cfg c bs → index_ok (utxo_set c) (address_index c).
Proof.
  induction 1 as [|now c bs b c' _ IH [_ Hu] H].
  - split; [intros k u Hk; cbn in Hk; by rewrite lookup_empty in Hk|].
    intros who. unfold owned. cbn [utxo_set address_index reset]. rewrite map_sum_empty. unfold map_get0.
    rewrite lookup_empty. done.
  - apply add_block_Ok in H as (_ & _ & c1 & co & txs & total & fees & Ha & _ & _ & _ & _ & ->).
    apply apply_all_index in Ha; [|done|done]. unfold committed_state.
    cbn [utxo_set address_index set_applying set_tip set_emitted_fees]. by apply burn_all_index.
Qed.

(** C23. The tables of a reachable chain are well typed. A UTXO key is an outpoint that the
    wallet reads back, its amount is a 64-bit integer; the balance of an address fits 64
    bits and covers its unspent coins; a registered public key is the one its address
    commits to; no block is half applied. *)
Theorem reachable_typed c :
  max_block_weight cfg < W32 → reachable cfg c →
  (∀ k u, utxo_set c !! k = Some u → is_u64 (u_amount u) ∧
     ∃ i, key_input k = Some (Ok i) ∧ is_u32 (output_index i) ∧ outpoint_key (previous_txid i) (output_index i) = k) ∧
  (∀ who, owned (utxo_set c) who ≤ balance_of c who ≤ U64_MAX) ∧
  (∀ who pk, pubkey_registry c !! who = Some pk → signer_binds_pubkey who pk = Ok ()) ∧
  applying_height c = 0.
Proof.
  intros Hw [bs Hb]%reachable_built. destruct (built_index c bs Hb) as [Hwf Hi].
  pose proof (built_keys cfg c bs Hw Hb) as Hk. split; [|split; [exact Hi|split]].
  - intros k u Hu. split; [by eapply Hwf|]. destruct (Hk k u Hu) as (t & i & -> & Hi32).
    exists (mkTxInput t i ""). by rewrite key_input_outpoint.
  - by apply (built_registry cfg c bs).
  - by apply (built_applying cfg c bs).
Qed.
End index.

(** ** Coin selection *)

Section select.
Context {C : Crypto} {ST : Stark} (cfg : ChainConfig) (v : PendingView) (c : Chain) (from : string).

(** An entry the selection may take. *)
Definition candidate (e : string * UTXO) : Prop :=
  u_spent e.2 = false ∧ u_owner e.2 = from ∧ u_spendable_height e.2 ≤ next_height c ∧
  from_option (λ f, f e.1) false (pending_outpoint_fn v) = false.
#[export] Instance candidate_dec e : Decision (candidate e).
Proof. unfold candidate. apply _. Defined.

Definition entry_value (e : string * UTXO) : Z := u_amount e.2.
(** The coins of [from] that no pending transaction has taken. *)
Definition available : Z := list_sum entry_value (filter candidate (map_to_list (utxo_set c))).

Definition entry_ok (e : string * UTXO) : Prop := key_ok e.1 ∧ is_u64 (u_amount e.2).

Lemma select_coins_skip required g sel e entries :
  ¬ candidate e →
  select_coins v c from required g sel (e :: entries) = select_coins v c from required g sel entries.
Proof.
  intros He. destruct e as [k u]. cbn [select_coins].
  destruct (u_spent u || _ || _) eqn:E1; [done|]. destruct (from_option _ _ _) eqn:E2; [done|].
  exfalso. apply He. bools. unfold candidate. cbn [fst snd]. apply String.eqb_eq in H1. done.
Qed.

Lemma select_coins_take required g sel k u entries :
  candidate (k, u) →
  select_coins v c from required g sel ((k, u) :: entries) =
  match key_input k with
  | None => select_coins v c from required g sel entries
  | Some (Err e) => Err e
  | Some (Ok i) =>
      if required <=? u64 (g + u_amount u) then Ok (u64 (g + u_amount u), sel ++ [i])
      else select_coins v c from required (u64 (g + u_amount u)) (sel ++ [i]) entries
  end.
Proof.
  intros (H1 & H2 & H3 & H4). cbn [select_coins fst snd] in *. rewrite H1, H2, String.eqb_refl, H4.
  by destruct (Z.ltb_spec (next_height c) (u_spendable_height u)); [lia|].
Qed.

(** What the loop returns: the values of some candidates, all of them if not enough. *)
Lemma select_coins_spec required g sel entries :
  Forall entry_ok entries → 0 ≤ g < required →
  g + list_sum entry_value (filter candidate entries) ≤ U64_MAX →
  ∃ taken ins, taken `sublist_of` filter candidate entries ∧ input_key <$> ins = taken.*1 ∧
    Forall (λ i, witness i = "") ins ∧
    select_coins v c from required g sel entries = Ok (g + list_sum entry_value taken, sel ++ ins) ∧
    (g + list_sum entry_value taken < required → taken = filter candidate entries).
Proof.
  intros Hok. revert g sel. induction Hok as [|e entries [Hk Ha] Hok IH]; intros g sel Hg Hsum.
  { exists [], []. cbn. rewrite Z.add_0_r, app_nil_r. split_and!; try done. }
  rewrite filter_cons in *. destruct (decide (candidate e)) as [Hc|Hc].
  2: { rewrite select_coins_skip by done. by apply IH. }
  destruct e as [k u]. rewrite select_coins_take by done. cbn [fst snd] in *.
  destruct Hk as (t & i & -> & Hi). rewrite key_input_outpoint by done.
  rewrite list_sum_cons in Hsum. change (entry_value (outpoint_key t i, u)) with (u_amount u) in Hsum.
  assert (Hnn : 0 ≤ list_sum entry_value (filter candidate entries)).
  { apply list_sum_nonneg. intros e [_ He]%list_elem_of_filter. rewrite Forall_forall in Hok.
    destruct (Hok e He) as [_ [? _]]. done. }
  unfold is_u64 in Ha. rewrite u64_small by (unfold is_u64; lia).
  assert (Hins : ∀ ins taken, input_key <$> ins = taken.*1 →
    input_key <$> mkTxInput t i "" :: ins = ((outpoint_key t i, u) :: taken).*1) by (intros ?? Hf; rewrite !fmap_cons, Hf; done).
  destruct (Z.leb_spec required (g + u_amount u)).
  - exists [(outpoint_key t i, u)], [mkTxInput t i ""].
    rewrite list_sum_cons. cbn [list_sum]. rewrite Z.add_0_r.
    change (entry_value (outpoint_key t i, u)) with (u_amount u).
    split_and!; [by apply sublist_skip, sublist_nil_l|done|by repeat constructor|done|lia].
  - destruct (IH (g + u_amount u) (sel ++ [mkTxInput t i ""])) as (taken & ins & Hs & Hi' & Hw & Hr & Hall); [lia..|].
    exists ((outpoint_key t i, u) :: taken), (mkTxInput t i "" :: ins). rewrite list_sum_cons.
    change (entry_value (outpoint_key t i, u)) with (u_amount u). rewrite Z.add_assoc.
    split_and!; [by apply sublist_skip|by apply Hins|by constructor| |intros ?; by rewrite Hall].
    rewrite Hr. by rewrite <-app_assoc.
Qed.
End select.

(** ** A send *)

Section send.
Context {C : Crypto} {ST : Stark} {IO : IterationOrder} (cfg : ChainConfig).

(** The wallet's key is the one its address commits to, and its signatures verify. *)
Definition wallet_ok (w : Wallet) : Prop :=
  signer_binds_pubkey (address w) (w_public_key w) = Ok () ∧
  ∀ msg, verify_message_signature_hybrid_uncached (w_public_key w) msg (sign w msg) = true.

Lemma wallet_ok_address w : wallet_ok w → address w ≠ "" ∧ address w ≠ kStakeAddress ∧ w_public_key w ≠ "".
Proof.
  intros [H _]. unfold signer_binds_pubkey, address_binds_pubkey, address_binds_pubkey_id in H. peel H.
  apply negb_false_iff, Nat.eqb_eq in G2.
  destruct (hex_to_bytes (w_public_key w)) as [pk|] eqn:Epk; [|done]. peel H.
  split_and!; intros E; [rewrite E in G2; done..|]. by rewrite E in Epk; cbn in Epk; simplify_eq.
Qed.

Lemma wallet_signature w msg : wallet_ok w → starts_with "pq=" (sign w msg) = true.
Proof.
  intros [_ H]. specialize (H msg). unfold verify_message_signature_hybrid_uncached in H.
  by apply andb_prop in H as [[H _]%andb_prop _].
Qed.

(** Next nonces do not wrap. *)
Definition nonces_fit (v : PendingView) (c : Chain) (who : string) : Prop :=
  is_u64 (last_nonce c who + 1) ∧ ∀ f, pending_nonce_fn v = Some f → is_u64 (f who + 1).

Lemma next_nonce_above v c who n :
  nonces_fit v c who → signer_last_nonce c !! who = Some n → n < next_nonce v c who.
Proof.
  intros [Hn Hf] Hl. unfold next_nonce. assert (last_nonce c who = n) as Hlast
    by (unfold last_nonce, map_get0; by rewrite Hl).
  rewrite (u64_small _ Hn), Hlast. destruct (pending_nonce_fn v) as [f|]; [|lia].
  specialize (Hf f eq_refl). destruct (Z.leb_spec (n + 1) (f who)); [|lia]. rewrite u64_small by done. lia.
Qed.

(** An unspent coin of [who] that may be spent in the next block. *)
Definition own_coin (c : Chain) (who k : string) (u : UTXO) : Prop :=
  unspent (utxo_set c) k = Some u ∧ u_owner u = who ∧ u_spendable_height u ≤ next_height c.

(** The coins behind the inputs, in order. *)
Definition inputs_hold (v : PendingView) (c : Chain) (who : string) (ins : list TxInput)
    (taken : list (string * UTXO)) : Prop :=
  input_key <$> ins = taken.*1 ∧ NoDup taken.*1 ∧
  Forall (λ e, own_coin c who e.1 e.2 ∧ from_option (λ f, f e.1) false (pending_outpoint_fn v) = false) taken.

Lemma validate_inputs_held v c who seen total ins taken :
  applying_height c = 0 → inputs_hold v c who ins taken → (∀ k, k ∈ taken.*1 → k ∉ seen) →
  Forall (λ e, 0 ≤ entry_value e) taken → 0 ≤ total → total + list_sum entry_value taken ≤ U64_MAX →
  validate_inputs c seen total ins = Ok (total + list_sum entry_value taken).
Proof.
  intros Happ (Hk & Hnd & Hown). revert ins seen total Hk Hnd.
  induction Hown as [|[k u] taken [(Hu & Ho & Hs) _] Hown IH]; intros [|i ins] seen total Hk Hnd Hseen Hv Ht Hsum;
    cbn in Hk; simplify_eq.
  { cbn. by rewrite Z.add_0_r. }
  rewrite list_sum_cons in *. change (entry_value (input_key i, u)) with (u_amount u) in *.
  inversion_clear Hv as [|?? Hv1 Hv']. change (entry_value (input_key i, u)) with (u_amount u) in Hv1.
  cbn [fst snd fmap list_fmap] in *. inversion_clear Hnd as [|?? Hni Hnd'].
  assert (Hnn : 0 ≤ list_sum entry_value taken)
    by (apply list_sum_nonneg; rewrite Forall_forall in Hv'; exact Hv').
  cbn [validate_inputs]. rewrite bool_decide_false by (apply Hseen; set_solver). rewrite Hu.
  unfold context_height. rewrite Happ. cbn [Z.eqb].
  destruct (Z.ltb_spec (next_height c) (u_spendable_height u)); [lia|].
  destruct (Z.ltb_spec (U64_MAX - u_amount u) total); [lia|]. rewrite Z.add_assoc.
  apply IH; try done; [|lia|lia]. intros k' Hk'. rewrite not_elem_of_union, not_elem_of_singleton.
  split; [intros ->; done|]. apply Hseen. set_solver.
Qed.

Lemma controls_held v c who ins taken :
  who ≠ kStakeAddress → inputs_hold v c who ins taken → forallb (controls_input c who) ins = true.
Proof.
  intros Hst (Hk & _ & Hown). revert ins Hk. induction Hown as [|[k u] taken [(Hu & Ho & _) _] _ IH];
    intros [|i ins] Hk; try done. cbn in Hk. injection Hk as <- Hk. cbn [forallb fst snd] in *.
  unfold controls_input. rewrite Hu, Ho, (proj2 (String.eqb_neq _ _) Hst), String.eqb_refl. by apply IH.
Qed.

Lemma resolve_own_pubkey w c ins outs s f n :
  wallet_ok w →
  resolve_signer_pubkey c None
    (mkTransaction ins outs (address w) (pubkey_field_for c (address w) (w_public_key w)) s f n "")
  = Ok (w_public_key w).
Proof.
  intros Hw. pose proof (wallet_ok_address w Hw) as (_ & _ & Hpk). destruct Hw as [Hb _].
  unfold resolve_signer_pubkey, pubkey_field_for. cbn [signer_pubkey signer option_bind].
  apply is_empty_false in Hpk as Hpe.
  destruct (pubkey_registry c !! address w) as [pk|]; [|by rewrite Hpe, Hb].
  destruct (String.eqb_spec pk (w_public_key w)) as [->|]; [done|by rewrite Hpe, Hb].
Qed.

(** The transaction that [build_transaction] makes of the selected coins. *)
Definition send_tx (from to : string) (amt fe no change : Z) (ins : list TxInput) : Transaction :=
  mkTransaction ins (mkTxOutput to amt :: (if 0 <? change then [mkTxOutput from change] else [])) "" "" "" fe no "".

Lemma send_outputs from to amt fe no change ins :
  list_sum amount (outputs (send_tx from to amt fe no change ins)) = amt + Z.max 0 change.
Proof. unfold send_tx. cbn [outputs]. destruct (Z.ltb_spec 0 change); cbn; lia. Qed.

(** The outputs of a send pass the checks on outputs. *)
Lemma send_check_outputs who to amt change :
  who ≠ "" → to ≠ "" → 0 < amt → 0 ≤ change → amt + change ≤ U64_MAX →
  check_outputs "output recipient empty" "output amount zero" "outputs overflow" 0
    (mkTxOutput to amt :: (if 0 <? change then [mkTxOutput who change] else [])) = Ok (amt + change).
Proof.
  intros Hwho Hto Ha Hc Hmax. cbn [check_outputs recipient amount]. rewrite (proj2 (is_empty_false to) Hto).
  rewrite (proj2 (Z.eqb_neq amt 0)) by lia. destruct (Z.ltb_spec (U64_MAX - amt) 0); [lia|].
  destruct (Z.ltb_spec 0 change); [|cbn; f_equal; lia].
  cbn [check_outputs recipient amount]. rewrite (proj2 (is_empty_false _) Hwho).
  rewrite (proj2 (Z.eqb_neq change 0)) by lia. destruct (Z.ltb_spec (U64_MAX - change) (0 + amt)); [lia|].
  f_equal.
Qed.
Lemma send_stake_outputs c sp who to amt change :
  who ≠ kStakeAddress → to ≠ kStakeAddress →
  validate_stake_outputs cfg c sp
    (mkTxOutput to amt :: (if 0 <? change then [mkTxOutput who change] else [])) = Ok ().
Proof.
  intros Hw Hto. cbn [validate_stake_outputs recipient]. rewrite (proj2 (String.eqb_neq _ _) Hto). cbn [negb].
  destruct (0 <? change); [|done]. cbn [validate_stake_outputs recipient].
  by rewrite (proj2 (String.eqb_neq _ _) Hw).
Qed.

(** What the signature of a send covers. *)
Definition send_hash (w : Wallet) (c : Chain) (tx : Transaction) : string :=
  hash_transaction (mkTransaction (inputs tx) (outputs tx) (address w)
    (pubkey_field_for c (address w) (w_public_key w)) "" (fee tx) (nonce tx) (shielded tx)).
Lemma sign_with_send w c tx :
  sign_with w c tx = mkTransaction (inputs tx) (outputs tx) (address w)
    (pubkey_field_for c (address w) (w_public_key w)) (sign w (send_hash w c tx)) (fee tx) (nonce tx) (shielded tx).
Proof. reflexivity. Qed.

Lemma send_signature_ok w c tx taken v :
  wallet_ok w → inputs tx ≠ [] → shielded tx = "" → inputs_hold v c (address w) (inputs tx) taken →
  validate_transaction_signature cfg c (sign_with w c tx) true = Ok ().
Proof.
  intros Hw Hne Hsh Hin. destruct (wallet_ok_address w Hw) as (Hae & Has & _).
  pose proof (sign_with_send w c tx) as Hsw. unfold send_hash in Hsw.
  assert (Hver : verify_message_signature_hybrid_uncached (w_public_key w)
    (hash_transaction (unsigned_tx (sign_with w c tx))) (signature (sign_with w c tx)) = true).
  { rewrite Hsw. unfold unsigned_tx. cbn [inputs outputs signer signer_pubkey fee nonce shielded signature]. apply Hw. }
  pose proof (wallet_signature w (send_hash w c tx) Hw) as Hsig.
  assert (Hres : resolve_signer_pubkey c None (sign_with w c tx) = Ok (w_public_key w)).
  { rewrite Hsw, Hsh. by apply resolve_own_pubkey. }
  assert (Hs : signature (sign_with w c tx) = sign w (send_hash w c tx)) by reflexivity.
  unfold validate_transaction_signature. rewrite Hres, Hs in *.
  change (signer (sign_with w c tx)) with (address w). change (inputs (sign_with w c tx)) with (inputs tx).
  assert (is_empty (sign w (send_hash w c tx)) = false) as -> by by destruct (sign w _).
  rewrite Hsig, (proj2 (is_empty_false _) Hae). cbn [negb]. rewrite andb_false_r. cbn [mbind result_bind].
  rewrite (bool_decide_false (inputs tx = [])), (controls_held v c _ _ taken) by done. cbn [negb orb].
  by rewrite Hver.
Qed.

(** A signed send whose coins are held passes validation. *)
Lemma validate_send v w c to amt fe no change ins taken :
  wallet_ok w → applying_height c = 0 → inputs_hold v c (address w) ins taken →
  Forall (λ i, witness i = "") ins → Forall (λ e, 0 ≤ entry_value e) taken →
  (∀ n, signer_last_nonce c !! address w = Some n → n < no) →
  to ≠ "" → to ≠ kStakeAddress → 0 < amt → 0 ≤ fe → min_fee cfg ≤ fe → 0 ≤ change →
  list_sum entry_value taken = amt + fe + change → amt + fe + change ≤ U64_MAX →
  validate_transaction cfg c (sign_with w c (send_tx (address w) to amt fe no change ins)) true = Ok ().
Proof.
  intros Hw Happ Hin Hwit Hv Hn Hto Hts Ha Hf Hmf Hc Hsum Hmax.
  destruct (wallet_ok_address w Hw) as (Hae & Has & _).
  assert (Hne : ins ≠ []).
  { destruct Hin as (Hk & _). destruct ins; [|done]. destruct taken; [cbn in Hsum; lia|done]. }
  set (tx := send_tx (address w) to amt fe no change ins).
  pose proof (send_signature_ok w c tx taken v Hw Hne eq_refl Hin) as Hsig.
  unfold validate_transaction, validate_spend. rewrite Hsig. rewrite sign_with_send.
  cbn [shielded inputs outputs signer fee signature nonce tx send_tx]. change (is_empty "") with true. cbn [negb andb].
  rewrite (bool_decide_false (ins = [])) by done. cbn [mbind result_bind andb].
  rewrite (bool_decide_false (_ = [])) by done. cbn [andb mbind result_bind].
  rewrite send_check_outputs by (done || lia). cbn [mbind result_bind].
  destruct (Z.ltb_spec fe (min_fee cfg)); [lia|]. rewrite andb_false_r, (proj2 (is_empty_false _) Hae).
  assert (Hw0 : existsb (λ i, negb (is_empty (witness i))) ins = false).
  { apply not_true_iff_false. intros (i & Hi & H0)%existsb_exists. rewrite Forall_forall in Hwit.
    rewrite Hwit in H0 by (by apply list_elem_of_In). done. }
  rewrite Hw0.
  replace (match signer_last_nonce c !! address w with Some n => _ | None => _ end) with (Ok () : result ()).
  2: { destruct (signer_last_nonce c !! address w) as [n|]; [|done]. specialize (Hn n eq_refl).
       by destruct (Z.leb_spec no n); [lia|]. }
  rewrite (validate_inputs_held v c (address w) ∅ 0 ins taken Happ Hin) by (lia || exact Hv || (intros k _; apply not_elem_of_empty)).
  cbn [mbind result_bind]. rewrite send_stake_outputs by done. cbn [mbind result_bind].
  destruct (Z.ltb_spec (U64_MAX - fe) (amt + change)); [lia|].
  rewrite u64_small by (unfold is_u64; lia).
  destruct (Z.ltb_spec (0 + list_sum entry_value taken) (amt + change + fe)); [lia|done].
Qed.

Lemma entries_ok c m :
  keys_ok m → utxo_wf m → m = utxo_set c → Forall entry_ok (iter_map m).
Proof.
  intros Hk Hwf ->. apply Forall_forall. intros [k u] Hin. rewrite iter_map_perm in Hin.
  apply elem_of_map_to_list in Hin. split; [by eapply Hk|by eapply Hwf].
Qed.

(** The funds of an address are part of the spendable coins. *)
Lemma funds_below v c who : utxo_wf (utxo_set c) → 0 ≤ available v c who ≤ owned (utxo_set c) who.
Proof.
  intros Hwf. unfold available, owned, map_sum.
  assert (H : ∀ l : list (string * UTXO), (∀ e, e ∈ l → 0 ≤ u_amount e.2) →
    0 ≤ list_sum entry_value (filter (candidate v c who) l) ≤ list_sum (λ kv, owned_by who kv.2) l).
  { induction l as [|e l IH]; intros Hl; [done|]. rewrite filter_cons.
    specialize (IH ltac:(intros; apply Hl; set_solver)). pose proof (Hl e ltac:(set_solver)) as He.
    assert (Ho : 0 ≤ owned_by who e.2).
    { unfold owned_by, value_of. destruct (String.eqb _ _), (u_spent e.2); lia. }
    destruct (decide (candidate v c who e)) as [(Hs & Hwho & _)|]; [|rewrite list_sum_cons; lia].
    rewrite !list_sum_cons. unfold owned_by at 1, value_of. rewrite Hwho, String.eqb_refl, Hs.
    change (entry_value e) with (u_amount e.2). lia. }
  apply H. intros [k u] Hin%elem_of_map_to_list. destruct (Hwf k u Hin) as [? _]. done.
Qed.

(** Coins taken from the candidates of the set are held. *)
Lemma taken_held v c who taken ins :
  utxo_wf (utxo_set c) → taken `sublist_of` filter (candidate v c who) (iter_map (utxo_set c)) →
  input_key <$> ins = taken.*1 →
  inputs_hold v c who ins taken ∧ Forall (λ e, 0 ≤ entry_value e) taken ∧
  list_sum entry_value taken ≤ available v c who.
Proof.
  intros Hwf Hsub Hins.
  assert (Hc : ∀ e, e ∈ taken → candidate v c who e ∧ utxo_set c !! e.1 = Some e.2).
  { intros [k u] He. eapply elem_of_sublist in He; [|exact Hsub]. apply list_elem_of_filter in He as [Hc He].
    rewrite iter_map_perm in He. by apply elem_of_map_to_list in He. }
  assert (Hnn : ∀ e, e ∈ iter_map (utxo_set c) → 0 ≤ entry_value e).
  { intros [k u] He. rewrite iter_map_perm in He. apply elem_of_map_to_list in He. by apply (Hwf k u). }
  split_and!.
  - split; [done|split].
    + eapply sublist_NoDup; [|apply fmap_sublist; etrans; [exact Hsub|apply sublist_filter]].
      rewrite iter_map_perm. apply NoDup_fst_map_to_list.
    + apply Forall_forall. intros e He. destruct (Hc e He) as [(H1 & H2 & H3 & H4) Hu].
      split; [split_and!; [by apply unspent_Some|done..]|done].
  - apply Forall_forall. intros e He. apply Hnn. eapply elem_of_sublist; [exact He|].
    etrans; [exact Hsub|apply sublist_filter].
  - assert (Hp : filter (candidate v c who) (map_to_list (utxo_set c)) ≡ₚ filter (candidate v c who) (iter_map (utxo_set c)))
      by by rewrite iter_map_perm.
    unfold available. rewrite (list_sum_Permutation entry_value _ _ Hp).
    apply list_sum_sublist; [|done]. intros e [_ He]%list_elem_of_filter. by apply Hnn.
Qed.

(** C22. A send through the wallet. On a reachable chain a well-formed request fails only for
    lack of funds, and then the spendable coins of the address that no pending
    transaction has taken do not cover amount and fee. A send that is built pays the
    recipient first, spends distinct coins of the address that are unspent, mature and
    not reserved, balances exactly (the change goes back to the address), and passes
    the validation of the chain. *)
Theorem build_signed_send_spec v w c to amt fe :
  max_block_weight cfg < W32 → reachable cfg c → wallet_ok w → nonces_fit v c (address w) →
  to ≠ "" → to ≠ kStakeAddress → 0 < amt → 0 ≤ fe → min_fee cfg ≤ fe → amt + fe ≤ U64_MAX →
  match build_signed_send cfg v w c to amt fe with
  | Err e => e = "insufficient balance" ∧ available v c (address w) < amt + fe
  | Ok tx =>
      amt + fe ≤ available v c (address w) ∧ validate_transaction cfg c tx true = Ok () ∧
      head (outputs tx) = Some (mkTxOutput to amt) ∧
      Forall (λ o, recipient o = address w) (tail (outputs tx)) ∧
      ∃ taken, inputs_hold v c (address w) (inputs tx) taken ∧
        list_sum entry_value taken = list_sum amount (outputs tx) + fee tx
  end.
Proof.
  intros Hwt [bs Hb]%reachable_built Hw Hnf Hto Hts Ha Hf Hmf Hsum.
  pose proof (built_keys cfg c bs Hwt Hb) as Hk. pose proof (built_applying cfg c bs Hb) as Happ.
  destruct (built_index cfg c bs Hb) as [Hwf Hidx].
  destruct (wallet_ok_address w Hw) as (Hae & _ & _).
  pose proof (funds_below v c (address w) Hwf) as Hfu. specialize (Hidx (address w)).
  unfold available in *. set (m := utxo_set c) in *. set (no := next_nonce v c (address w)).
  assert (Hperm : filter (candidate v c (address w)) (iter_map m) ≡ₚ filter (candidate v c (address w)) (map_to_list m))
    by by rewrite iter_map_perm.
  assert (Hsel := select_coins_spec v c (address w) (amt + fe) 0 [] (iter_map m)
    (entries_ok c m Hk Hwf eq_refl) ltac:(lia)).
  rewrite (list_sum_Permutation entry_value _ _ Hperm) in Hsel.
  destruct Hsel as (taken & ins & Hsub & Hins & Hwit & Hrun & Hall); [fold m in Hfu; lia|].
  unfold build_signed_send, build_transaction. rewrite (proj2 (is_empty_false _) Hae), (proj2 (is_empty_false _) Hto).
  cbn [orb]. rewrite (proj2 (Z.eqb_neq amt 0)) by lia. destruct (Z.ltb_spec (U64_MAX - amt) fe); [lia|].
  fold m no. rewrite Hrun, Z.add_0_l. cbn [mbind result_bind app].
  destruct (Z.ltb_spec (list_sum entry_value taken) (amt + fe)) as [Hlt|Hge].
  { split; [done|]. rewrite <-(list_sum_Permutation entry_value _ _ Hperm), <-Hall by lia. done. }
  set (change := list_sum entry_value taken - (amt + fe)).
  change (mkTransaction ins _ "" "" "" fe no "") with (send_tx (address w) to amt fe no change ins).
  destruct (taken_held v c (address w) taken ins Hwf Hsub Hins) as (Hin & Hnn & Hle). unfold available in Hle. fold m in Hle.
  assert (Hv := validate_send v w c to amt fe no change ins taken Hw Happ Hin Hwit Hnn
    (λ n, next_nonce_above v c (address w) n Hnf) Hto Hts Ha Hf Hmf ltac:(lia) ltac:(lia) ltac:(lia)).
  cbn [mbind result_bind]. rewrite Hv. cbn [mbind result_bind]. split_and!; [lia|exact Hv|reflexivity| |].
  - cbn. destruct (0 <? change); by repeat constructor.
  - exists taken. split; [exact Hin|].
    change (outputs (sign_with w c _)) with (outputs (send_tx (address w) to amt fe no change ins)).
    change (fee (sign_with w c _)) with fe. rewrite send_outputs. lia.
Qed.
End send.
