(* ===== verification/ChannelOpen.v ===== *)
(** * Opening a channel ([open_channel] of [src/channel.cpp])

    Both endpoints in one process: the funding transaction from the wallet of A, the
    exchange of the first two revocation hashes and of the signatures on the initial
    commitments. The seeds that [random_hex] draws are arguments; its failure is not
    modelled. A channel opened this way keeps both ends linked through any run. *)
From S2P Require Import Prelude Strings Lines Crypto Types Wire WireProofs Block Script ScriptProofs.
From S2P Require Import Shielded Chain Mempool Wallet WalletProofs Channel ChannelPenalty ChannelProofs.

Section open.
Context {C : Crypto} {ST : Stark} {IO : IterationOrder}.

Definition funding_tx (ka : Wallet) (tx : Transaction) : Transaction :=
  let f := mkTransaction (inputs tx) (outputs tx) (address ka) (w_public_key ka) "" (fee tx) (nonce tx) (shielded tx) in
  mkTransaction (inputs f) (outputs f) (signer f) (signer_pubkey f) (Wallet.sign ka (hash_transaction f))
    (fee f) (nonce f) (shielded f).

Definition open_channel (v : PendingView) (c : Chain) (ka kb : Wallet) (cap push : Z) (sa sb : string) :
    result (Channel * Channel * list Transaction) :=
  reject_if (cap <? push) || (u64 (cap - push) <? 1) as "bad push amount" ;;
  let i := mkInfo (address ka) (address kb) cap "" 0 6 1 in
  let ca := new_channel (address ka) (w_public_key ka) (Wallet.sign ka) (w_public_key kb) true i sa in
  let cb := new_channel (address kb) (w_public_key kb) (Wallet.sign kb) (w_public_key ka) false i sb in
  let fs := script_address (funding_script (address ka) (address kb)) in
  tx ← build_transaction v c (address ka) fs cap 1 (next_nonce v c (address ka));
  let f := funding_tx ka tx in
  let vout := u32 (Z.of_nat (default (length (outputs f)) (find_recipient fs 0 (outputs f)))) in
  let txid := hash_transaction f in
  let ca := set_funding txid vout ca in
  let cb := set_funding txid vout cb in
  let '(a0, a1) := initial_hashes ca in
  let '(b0, b1) := initial_hashes cb in
  let ca := set_remote_initial_hashes b0 b1 ca in
  let cb := set_remote_initial_hashes a0 a1 cb in
  let s0 := mkState 0 (cap - push) push [] 0 in
  let '(cb, r) := receive_commit_sig cb s0 (sign_remote_commitment ca s0) in
  _ ← r;
  let '(ca, r) := receive_commit_sig ca s0 (sign_remote_commitment cb s0) in
  _ ← r;
  Ok (ca, cb, [f]).

(** The signature on the initial commitment is accepted. *)
Lemma receive_initial c s cs :
  st_n s = 0 → remote_sig_cur c = "" → cs_n cs = 0 →
  verify_message_signature_hybrid_uncached (remote_pub c) (sighash (commitment_tx (info c) (is_a c) s (rev_hash c 0)))
    (cs_sig cs) = true →
  receive_commit_sig c s cs =
  (set_states s (pending c) (cs_sig cs) (remote_sig_pending c) (history c) (abandoned c) c, Ok ()).
Proof.
  intros Hs Hr Hn Hv. unfold receive_commit_sig. rewrite Hs, Hr, Hn. cbn [Z.eqb is_empty andb negb orb].
  change (is_empty "") with true. cbn [andb]. by rewrite Hv.
Qed.

Lemma open_channel_linked v c ka kb cap push sa sb ca cb txs :
  wallet_ok ka → wallet_ok kb → is_u64 cap → 0 ≤ push →
  open_channel v c ka kb cap push sa sb = Ok (ca, cb, txs) →
  linked ca cb ∧ cur ca = mkState 0 (cap - push) push [] 0 ∧ capacity (info ca) = cap ∧ info_fee (info ca) = 1 ∧
  is_a ca = true.
Proof.
  intros [_ Ha] [_ Hb] Hcap Hpush. unfold open_channel.
  destruct ((cap <? push) || (u64 (cap - push) <? 1)) eqn:Hg; [done|]. apply orb_false_iff in Hg as [Hg1 Hg2].
  apply Z.ltb_ge in Hg1, Hg2. rewrite u64_small in Hg2 by (unfold is_u64 in *; lia).
  destruct (build_transaction _ _ _ _ _ _ _) as [tx|]; [|done]. cbn [mbind result_bind initial_hashes].
  rewrite receive_initial; [|done..|by apply Ha]. cbn [mbind result_bind].
  rewrite receive_initial; [|done..|by apply Hb]. cbn [mbind result_bind]. intros [= <- <- _].
  set (i := mkInfo _ _ _ _ _ _ _). conjs; try done. split; [split|split|split|]; cbn; try done.
  all: try by intros k Hk; lia.
  - intros k Hk. assert (k = 0 ∨ k = 1) as [->| ->] by lia; by simplify_map_eq.
  - intros k Hk. assert (k = 0 ∨ k = 1) as [->| ->] by lia; by simplify_map_eq.
  - lia.
Qed.

End open.
