(* ===== verification/Onion.v ===== *)
(** * The onion of a routed payment ([include/addition/htlc_onion.hpp],
    [src/htlc_onion.cpp])

    Bytes are integers in a list. The key encapsulation of liboqs and HMAC-SHA3-512 and
    AES-256-CTR of OpenSSL are parameters; the randomness that encapsulation draws and
    the padding of [RAND_bytes] are arguments of [build]. *)
From S2P Require Import Prelude Strings Crypto.

Definition Bytes := list Z.

Record KemLengths := mkKemLengths {
  length_public_key : nat;
  length_secret_key : nat;
  length_ciphertext : nat;
}.
Class OnionCrypto := {
  OQS_KEM_new : option KemLengths;
  OQS_KEM_encaps : Bytes → Bytes → option (Bytes * Bytes);
  OQS_KEM_decaps : Bytes → Bytes → option Bytes;
  HMAC_sha3_512 : Bytes → Bytes → Bytes;
  aes_256_ctr : Bytes → nat → Bytes;
}.

Definition kMaxHops : nat := 4.
Definition kKemPk : nat := Z.to_nat 1568.
Definition kKemSk : nat := Z.to_nat 3168.
Definition kKemCt : nat := Z.to_nat 1568.
Definition kHdr : nat := 64.
Definition kMac : nat := 32.
Definition kEntry : nat := kHdr + kMac + kKemCt.
Definition kRouting : nat := kMaxHops * kEntry.
Definition kPacket : nat := kKemCt + kRouting + kMac.

(** [pubkey]: the route key. [next_chan]: the channel to forward on, empty for the last
    hop. *)
Record OnionHop := mkOnionHop {
  pubkey : Bytes;
  next_chan : string;
  o_amount : Z;
  o_expiry : Z;
}.
Record Peeled := mkPeeled {
  p_final : bool;
  p_next_chan : string;
  p_amount : Z;
  p_expiry : Z;
  next_packet : Bytes;
  replay_tag : string;
}.

(** ** Bytes *)

Fixpoint to_bytes (s : string) : Bytes :=
  match s with "" => [] | String c s => byte_of_char c :: to_bytes s end.
Fixpoint of_bytes (b : Bytes) : string :=
  match b with [] => "" | x :: b => String (char_of_byte x) (of_bytes b) end.
Definition zero (n : nat) : Bytes := replicate n 0.
Definition xor (a b : Bytes) : Bytes := zip_with Z.lxor a b.

(** [out.resize(n)] *)
Definition resize (n : nat) (b : Bytes) : Bytes := take n b ++ zero (n - length b).

(** Big-endian, as the loops from the last byte to the first. *)
Fixpoint put_be (n : nat) (v : Z) : Bytes :=
  match n with O => [] | S n => put_be n (Z.shiftr v 8) ++ [Z.land v 255] end.
Definition put64 (v : Z) : Bytes := put_be 8 v.
Definition get64 (b : Bytes) : Z := foldl (λ v x, u64 (Z.lor (Z.shiftl v 8) x)) 0 (take 8 b).

(** [assign(c, strnlen(c, 32))] *)
Fixpoint strn (n : nat) (b : Bytes) : string :=
  match n, b with
  | S n, x :: b => if x =? 0 then "" else String (char_of_byte x) (strn n b)
  | _, _ => ""
  end.

Section onion.
Context {O : OnionCrypto}.

Definition kdf (ss : Bytes) (label : string) (n : nat) : Bytes := resize n (HMAC_sha3_512 ss (to_bytes label)).
Definition stream (key : Bytes) (n : nat) : Bytes := aes_256_ctr key n.
Definition mac (key routing : Bytes) (assoc : string) : Bytes :=
  resize kMac (HMAC_sha3_512 key (routing ++ to_bytes assoc)).

(** [coins] is the randomness of the encapsulation. *)
Definition encaps (coins pk : Bytes) : option (Bytes * Bytes) :=
  match OQS_KEM_new with
  | None => None
  | Some l => if (length pk =? length_public_key l)%nat then OQS_KEM_encaps coins pk else None
  end.

Record Layer := mkLayer {
  l_hop : OnionHop;
  l_ct : Bytes;
  l_mu : Bytes;
  l_ks : Bytes;
}.

(** The first loop: the keys of every hop. *)
Fixpoint layers (i n : nat) (hops : list OnionHop) (coins : list Bytes) : result (list Layer) :=
  match hops with
  | [] => Ok []
  | h :: hops =>
      match encaps (hd [] coins) (pubkey h) with
      | None => Err ("onion: bad route key for hop " +:+ to_string (Z.of_nat i))
      | Some (ct, ss) =>
          reject_if (32 <? String.length (next_chan h))%nat ||
                    Bool.eqb (S i <? n)%nat (is_empty (next_chan h)) as "onion: bad hop channel" ;;
          ls ← layers (S i) n hops (tl coins);
          Ok (mkLayer h ct (kdf ss "ADD-ONION mu" 32)
                (stream (kdf ss "ADD-ONION rho" 32) (kRouting + kEntry)) :: ls)
      end
  end.

(** One more shift of the tail that the earlier hops leave. *)
Definition filler_step (filler ks : Bytes) : Bytes :=
  let L := length filler in xor (filler ++ zero kEntry) (drop (kRouting - L) ks).
Definition filler_of (ls : list Layer) : Bytes := foldl filler_step [] (l_ks <$> take (length ls - 1) ls).

Definition hop_header (final : bool) (h : OnionHop) : Bytes :=
  (if final then 1 else 0) :: to_bytes (next_chan h) ++ zero (32 - String.length (next_chan h)) ++
  put64 (o_amount h) ++ put64 (o_expiry h) ++ zero (kHdr - 49).

(** The routing block and its MAC, from the last hop to the first. *)
Fixpoint wrap (filler : Bytes) (rand : nat → Bytes) (assoc : string) (ls : list Layer) : Bytes * Bytes :=
  match ls with
  | [] => ([], [])
  | l :: ls =>
      match ls with
      | [] =>
          let plain := resize kEntry (hop_header true (l_hop l)) ++ rand (kRouting - length filler - kEntry)%nat in
          let r := xor plain (l_ks l) ++ filler in
          (r, mac (l_mu l) r assoc)
      | l' :: _ =>
          let '(r, m) := wrap filler rand assoc ls in
          let buf := hop_header false (l_hop l) ++ m ++ l_ct l' ++ r in
          let r := xor (take kRouting buf) (l_ks l) in
          (r, mac (l_mu l) r assoc)
      end
  end.

Definition build (hops : list OnionHop) (assoc : string) (coins : list Bytes) (rand : nat → Bytes) : result Bytes :=
  let n := length hops in
  reject_if (n =? 0)%nat || (kMaxHops <? n)%nat as "onion: 1..4 hops" ;;
  ls ← layers 0 n hops coins;
  let '(r, m) := wrap (filler_of ls) rand assoc ls in
  Ok (from_option l_ct [] (head ls) ++ r ++ m).

Definition peel (sk packet : Bytes) (assoc : string) : result Peeled :=
  reject_if negb (length packet =? kPacket)%nat as "onion: bad size" ;;
  match OQS_KEM_new with
  | None => Err "onion: bad key"
  | Some l =>
      reject_if negb (length sk =? length_secret_key l)%nat as "onion: bad key" ;;
      match OQS_KEM_decaps sk (take (length_ciphertext l) packet) with
      | None => Err "onion: decaps failed"
      | Some ss =>
          let rho := kdf ss "ADD-ONION rho" 32 in
          let mu := kdf ss "ADD-ONION mu" 32 in
          let tag := bytes_to_hex (of_bytes (kdf ss "ADD-ONION replay" 16)) in
          let r := take kRouting (drop kKemCt packet) in
          let m := drop (kKemCt + kRouting) packet in
          reject_if negb (bool_decide (mac mu r assoc = m)) as "onion: bad mac" ;;
          let buf := xor (r ++ zero kEntry) (stream rho (kRouting + kEntry)) in
          let final := hd 0 buf =? 1 in
          reject_if 1 <? hd 0 buf as "onion: bad header" ;;
          let chan := strn 32 (drop 1 buf) in
          let next :=
            if final then []
            else take kKemCt (drop (kHdr + kMac) buf) ++ drop kEntry buf ++ take kMac (drop kHdr buf) in
          reject_if negb final && is_empty chan as "onion: missing next channel" ;;
          Ok (mkPeeled final chan (get64 (drop 33 buf)) (get64 (drop 41 buf)) next tag)
      end
  end.
End onion.
