(* ===== verification/OnionProofs.v ===== *)
(** * Every hop of an onion peels its own entry

    A packet that [build] makes is peeled by the hops one after the other: each learns
    the channel, amount and expiry meant for it, and forwards a packet of the same size
    that the next one accepts. *)
From S2P Require Import Prelude Strings Crypto Onion.

(** ** Byte lists *)

Lemma xor_length a b : length (xor a b) = Nat.min (length a) (length b).
Proof. apply length_zip_with. Qed.
Lemma xor_take n a b : take n (xor a b) = xor (take n a) (take n b).
Proof. apply zip_with_take. Qed.
Lemma xor_drop n a b : drop n (xor a b) = xor (drop n a) (drop n b).
Proof. apply zip_with_drop. Qed.
Lemma xor_app a b c d : length a = length c → xor (a ++ b) (c ++ d) = xor a c ++ xor b d.
Proof. apply zip_with_app. Qed.
Lemma xor_app_key a b k : xor (a ++ b) k = xor a k ++ xor b (drop (length a) k).
Proof. unfold xor. by rewrite zip_with_app_l, zip_with_take_r. Qed.
Lemma xor_twice a k : (length a ≤ length k)%nat → xor (xor a k) k = a.
Proof.
  revert k. induction a as [|x a IH]; intros [|y k] H; unfold xor in *; cbn in *; [done..|lia|].
  rewrite Z.lxor_assoc, Z.lxor_nilpotent, Z.lxor_0_r. f_equal. apply IH. lia.
Qed.
Lemma xor_zero n k : length k = n → xor (zero n) k = k.
Proof. intros <-. induction k as [|x k IH]; [done|]. unfold xor, zero in *. cbn. by rewrite IH. Qed.
(** A key longer than the text. *)
Lemma xor_take_key a k : xor a (take (length a) k) = xor a k.
Proof. revert k. induction a as [|x a IH]; intros [|y k]; unfold xor in *; cbn; [done..|]. by rewrite IH. Qed.

Lemma zero_length n : length (zero n) = n.
Proof. apply length_replicate. Qed.
Lemma resize_length n b : length (resize n b) = n.
Proof. unfold resize. rewrite length_app, length_take, zero_length. lia. Qed.
Lemma to_bytes_length s : length (to_bytes s) = String.length s.
Proof. induction s as [|c s IH]; [done|]. cbn. by rewrite IH. Qed.
Lemma put_be_count n v : length (put_be n v) = n.
Proof. revert v. induction n as [|n IH]; intros v; [done|]. cbn. rewrite length_app, IH. cbn. lia. Qed.

(** Reading back what the writers of the header wrote. *)
Lemma strn_to_bytes n s rest :
  free_of "000" s = true → (String.length s ≤ n)%nat →
  strn n (to_bytes s ++ zero (n - String.length s) ++ rest) = s.
Proof.
  revert s. induction n as [|n IH]; intros s Hf Hl.
  - by destruct s; [|cbn in Hl; lia].
  - destruct s as [|c s]; [done|]. cbn [String.length] in Hl. cbn in Hf. bools.
    cbn [to_bytes app strn String.length]. rewrite Nat.sub_succ.
    destruct (Z.eqb_spec (byte_of_char c) 0) as [E|_].
    + exfalso. assert (c = "000"%char) as -> by by apply byte_of_char_eq. done.
    + rewrite char_of_byte_of_char. f_equal. apply IH; [done|lia].
Qed.

Lemma get_put_be n v rest acc :
  (n ≤ 8)%nat → 0 ≤ v < 2 ^ (8 * Z.of_nat n) → 0 ≤ acc < 2 ^ (64 - 8 * Z.of_nat n) →
  foldl (λ v x, u64 (Z.lor (Z.shiftl v 8) x)) acc (put_be n v ++ rest) =
  foldl (λ v x, u64 (Z.lor (Z.shiftl v 8) x)) (acc * 2 ^ (8 * Z.of_nat n) + v) rest.
Proof.
  revert v rest acc. induction n as [|n IH]; intros v rest acc Hn Hv Ha.
  - cbn in *. f_equal. lia.
  - assert (Hp : 2 ^ (8 * Z.of_nat (S n)) = 256 * 2 ^ (8 * Z.of_nat n)).
    { rewrite Nat2Z.inj_succ, Z.mul_succ_r, Z.pow_add_r by lia. lia. }
    assert (Hq : 2 ^ (64 - 8 * Z.of_nat n) = 256 * 2 ^ (64 - 8 * Z.of_nat (S n))).
    { change 256 with (2 ^ 8). rewrite <-Z.pow_add_r by lia. f_equal. lia. }
    assert (Hr : 2 ^ (64 - 8 * Z.of_nat n) * 2 ^ (8 * Z.of_nat n) = W64).
    { rewrite <-Z.pow_add_r by lia. replace (_ + _) with 64 by lia. reflexivity. }
    rewrite Hp in Hv. cbn [put_be]. rewrite <-app_assoc, Z.shiftr_div_pow2 by lia. change (2 ^ 8) with 256.
    rewrite IH; [|lia| |lia].
    2:{ split; [apply Z.div_pos; lia|apply Z.div_lt_upper_bound; lia]. }
    cbn [app foldl]. f_equal. set (x := acc * 2 ^ (8 * Z.of_nat n) + v / 256).
    change 255 with (Z.ones 8). rewrite Z.land_ones, Z.shiftl_mul_pow2 by lia. change (2 ^ 8) with 256.
    pose proof (Z.mod_pos_bound v 256 ltac:(lia)) as Hm. pose proof (Z.div_mod v 256 ltac:(lia)) as Hdm.
    assert (0 ≤ v / 256 < 2 ^ (8 * Z.of_nat n)) by (split; [apply Z.div_pos; lia|apply Z.div_lt_upper_bound; lia]).
    assert (Hl : Z.land (x * 256) (v mod 256) = 0).
    { change 256 with (2 ^ 8). rewrite <-Z.shiftl_mul_pow2, <-Z.land_ones by lia.
      apply Z.bits_inj'. intros i Hi. rewrite !Z.land_spec, Z.bits_0, Z.testbit_ones_nonneg by lia.
      destruct (Z.ltb_spec i 8); [|by rewrite !andb_false_r]. by rewrite Z.shiftl_spec_low by lia. }
    rewrite <-Z.lxor_lor, <-Z.add_nocarry_lxor by done. rewrite u64_small; [unfold x; nia|]. unfold is_u64, x. nia.
Qed.
Lemma get64_put64 v rest : is_u64 v → get64 (put64 v ++ rest) = v.
Proof.
  intros Hv. unfold get64, put64. rewrite take_app_le, firstn_all2 by (rewrite put_be_count; lia).
  rewrite <-(app_nil_r (put_be 8 v)), get_put_be; [cbn; lia|lia|unfold is_u64 in Hv; cbn; lia|cbn; lia].
Qed.

(** ** The layers of a packet *)

Lemma sizes : kEntry = (kHdr + kMac + kKemCt)%nat ∧ kRouting = (4 * kEntry)%nat ∧
  kPacket = (kKemCt + kRouting + kMac)%nat ∧ (kHdr = 64)%nat ∧ (kMac = 32)%nat.
Proof. done. Qed.
#[local] Opaque kEntry kRouting kPacket kKemCt kHdr kMac.

Section onion.
Context {O : OnionCrypto}.

(** What liboqs and OpenSSL document: the sizes of ML-KEM-1024 and a keystream of the
    requested length. *)
Record primitives_ok : Prop := {
  kem_lengths : OQS_KEM_new = Some (mkKemLengths kKemPk kKemSk kKemCt);
  kem_ct : ∀ coins pk ct ss, OQS_KEM_encaps coins pk = Some (ct, ss) → length ct = kKemCt;
  ctr_length : ∀ key n, length (aes_256_ctr key n) = n;
}.
(** A key pair: what is encapsulated for the public key, the secret key decapsulates. *)
Definition keypair (pk sk : Bytes) : Prop :=
  length pk = kKemPk ∧ length sk = kKemSk ∧
  ∀ coins, ∃ ct ss, OQS_KEM_encaps coins pk = Some (ct, ss) ∧ OQS_KEM_decaps sk ct = Some ss.

Definition hop_ok (h : OnionHop) : Prop :=
  (String.length (next_chan h) ≤ 32)%nat ∧ free_of "000" (next_chan h) = true ∧
  is_u64 (o_amount h) ∧ is_u64 (o_expiry h).

Lemma hop_header_length final h : hop_ok h → length (hop_header final h) = kHdr.
Proof.
  intros (Hl & _). destruct sizes as (_ & _ & _ & Hh & _). unfold hop_header, put64. cbn [length].
  rewrite !length_app, to_bytes_length, !zero_length, !put_be_count, Hh. lia.
Qed.

(** The header is read back from the front of a block. *)
Lemma read_header final h rest :
  hop_ok h →
  let buf := hop_header final h ++ rest in
  hd 0 buf = (if final then 1 else 0) ∧ strn 32 (drop 1 buf) = next_chan h ∧
  get64 (drop 33 buf) = o_amount h ∧ get64 (drop 41 buf) = o_expiry h.
Proof.
  intros (Hl & Hf & Ha & He). unfold hop_header. set (chan := to_bytes (next_chan h) ++ zero (32 - String.length (next_chan h))).
  assert (Hc : length chan = 32%nat) by (unfold chan; rewrite length_app, to_bytes_length, zero_length; lia).
  cbv zeta. cbn [app hd]. rewrite <-!app_assoc. split; [done|]. rewrite !app_assoc.
  change (to_bytes (next_chan h) ++ zero (32 - String.length (next_chan h))) with chan. rewrite <-!app_assoc.
  assert (H1 : ∀ (x : Z) l, drop 1 (x :: l) = l) by done.
  assert (H33 : ∀ (x : Z) l, drop 33 (x :: chan ++ l) = l).
  { intros x l. change (drop 33 (x :: chan ++ l)) with (drop 32 (chan ++ l)). by rewrite drop_app_length'. }
  assert (H41 : ∀ (x : Z) l v, drop 41 (x :: chan ++ put64 v ++ l) = l).
  { intros x l v. change (drop 41 (x :: chan ++ put64 v ++ l)) with (drop 40 (chan ++ put64 v ++ l)).
    rewrite app_assoc, drop_app_length'; [done|]. unfold put64. by rewrite length_app, put_be_count, Hc. }
  rewrite H1, H33, H41, !get64_put64 by done. split; [|done]. unfold chan. rewrite <-app_assoc.
  by apply strn_to_bytes.
Qed.

(** Keys of a layer, as [layers] derives them from the shared secret. *)
Definition layer_ok (l : Layer) (sk : Bytes) : Prop :=
  hop_ok (l_hop l) ∧ length (l_ct l) = kKemCt ∧ length (l_ks l) = (kRouting + kEntry)%nat ∧ length sk = kKemSk ∧
  ∃ ss, OQS_KEM_decaps sk (l_ct l) = Some ss ∧ l_mu l = kdf ss "ADD-ONION mu" 32 ∧
    l_ks l = stream (kdf ss "ADD-ONION rho" 32) (kRouting + kEntry).

Lemma filler_step_length G ks :
  (length G ≤ kRouting)%nat → length ks = (kRouting + kEntry)%nat → length (filler_step G ks) = (length G + kEntry)%nat.
Proof.
  intros HG Hk. unfold filler_step. rewrite xor_length, length_app, zero_length, length_drop. lia.
Qed.

(** The plaintext of a layer that is not the last one. *)
Definition block (l l' : Layer) (r m : Bytes) : Bytes := hop_header false (l_hop l) ++ m ++ l_ct l' ++ r.

Lemma block_split l l' r m :
  hop_ok (l_hop l) → length m = kMac → length (l_ct l') = kKemCt → length r = kRouting →
  drop kEntry (block l l' r m) = r ∧ length (block l l' r m) = (kEntry + kRouting)%nat ∧
  take kMac (drop kHdr (block l l' r m)) = m ∧ take kKemCt (drop (kHdr + kMac) (block l l' r m)) = l_ct l'.
Proof.
  intros Hh Hm Hc Hr. pose proof (hop_header_length false _ Hh) as Hl. destruct sizes as (He & _).
  assert (E : block l l' r m = ((hop_header false (l_hop l) ++ m) ++ l_ct l') ++ r)
    by (unfold block; by rewrite <-!app_assoc).
  conjs.
  - rewrite E. apply drop_app_length'. rewrite !length_app. lia.
  - unfold block. rewrite !length_app. lia.
  - unfold block. rewrite drop_app_length' by done. by apply take_app_length'.
  - unfold block. rewrite app_assoc, drop_app_length' by (rewrite length_app; lia). by apply take_app_length'.
Qed.

(** A routing block keeps the tail that the earlier hops will leave in it. *)
Definition wrapped (G r : Bytes) : Prop := length r = kRouting ∧ drop (kRouting - length G) r = G.

Lemma wrap_step l l' r m G :
  hop_ok (l_hop l) → length m = kMac → length (l_ct l') = kKemCt → length (l_ks l) = (kRouting + kEntry)%nat →
  (length G + kEntry ≤ kRouting)%nat → wrapped (filler_step G (l_ks l)) r →
  wrapped G (xor (take kRouting (block l l' r m)) (l_ks l)) ∧
  (** what the hop recovers *)
  xor (xor (take kRouting (block l l' r m)) (l_ks l) ++ zero kEntry) (l_ks l) =
    take kEntry (block l l' r m) ++ r.
Proof.
  intros Hh Hm Hc Hk HG [Hr Ht]. destruct (block_split l l' r m Hh Hm Hc Hr) as (Hd & Hl & _).
  rewrite filler_step_length in Ht by lia. set (B := block l l' r m) in *. set (ks := l_ks l) in *.
  assert (HtB : length (take kRouting B) = kRouting) by (rewrite length_take; lia).
  assert (Hdrop : ∀ n, (kEntry ≤ n)%nat → drop n B = drop (n - kEntry) r).
  { intros n Hn. rewrite <-Hd, drop_drop. f_equal. lia. }
  split; [split|].
  - rewrite xor_length. lia.
  - rewrite xor_drop, skipn_firstn_comm, Hdrop by lia.
    replace (kRouting - (kRouting - length G))%nat with (length G) by lia.
    replace (kRouting - length G - kEntry)%nat with (kRouting - (length G + kEntry))%nat by lia. rewrite Ht.
    unfold filler_step. rewrite xor_take, take_app_length, <-(xor_take_key _ (drop _ ks)).
    assert (Hlen : length (xor G (take (length G) (drop (kRouting - length G) ks))) = length G).
    { rewrite xor_length, length_take, length_drop. lia. }
    rewrite Hlen. apply xor_twice. rewrite length_take, length_drop. lia.
  - rewrite <-(take_drop kRouting ks) at 2. rewrite xor_app by (rewrite xor_length, !length_take; lia).
    assert (E1 : xor (xor (take kRouting B) ks) (take kRouting ks) = take kRouting B).
    { replace (take kRouting ks) with (take (length (xor (take kRouting B) ks)) ks)
        by (f_equal; rewrite xor_length; lia).
      rewrite xor_take_key. apply xor_twice. lia. }
    rewrite E1.
    rewrite xor_zero by (rewrite length_drop; lia).
    assert (Hlast : drop kRouting ks = drop (kRouting - kEntry) r).
    { replace (kRouting - kEntry)%nat with (length G + (kRouting - (length G + kEntry)))%nat by lia.
      rewrite Nat.add_comm, <-drop_drop, Ht. unfold filler_step. rewrite xor_drop, drop_app_length, drop_drop.
      rewrite xor_zero by (rewrite length_drop; lia). f_equal. lia. }
    rewrite Hlast. rewrite <-(take_drop kEntry (take kRouting B)), take_take, Nat.min_l by lia.
    rewrite <-app_assoc. f_equal. rewrite skipn_firstn_comm, Hd.
    apply take_drop.
Qed.

(** ** Peeling *)

Lemma peel_layer l sk r assoc final rest :
  primitives_ok → layer_ok l sk → length r = kRouting →
  let buf := xor (r ++ zero kEntry) (l_ks l) in
  buf = hop_header final (l_hop l) ++ rest → (final = false → next_chan (l_hop l) ≠ "") →
  ∃ tag, peel sk (l_ct l ++ r ++ mac (l_mu l) r assoc) assoc =
    Ok (mkPeeled final (next_chan (l_hop l)) (o_amount (l_hop l)) (o_expiry (l_hop l))
          (if final then []
           else take kKemCt (drop (kHdr + kMac) buf) ++ drop kEntry buf ++ take kMac (drop kHdr buf)) tag).
Proof.
  intros Hp (Hh & Hct & Hks & Hsk & ss & Hdec & Hmu & Hk) Hr buf Hbuf Hne. destruct sizes as (_ & _ & Hpk & _).
  assert (Hm : length (mac (l_mu l) r assoc) = kMac) by apply resize_length.
  unfold peel. rewrite (proj2 (Nat.eqb_eq _ _)) by (rewrite !length_app; lia). cbn [negb].
  rewrite (kem_lengths Hp). cbn [length_secret_key length_ciphertext]. rewrite Hsk, Nat.eqb_refl. cbn [negb].
  rewrite take_app_length' by done. rewrite Hdec. rewrite <-Hmu, <-Hk.
  rewrite drop_app_length' by done. rewrite take_app_length' by done.
  rewrite app_assoc, drop_app_length' by (rewrite length_app; lia).
  rewrite bool_decide_true by done. cbn [negb].
  destruct (read_header final (l_hop l) rest Hh) as (H1 & H2 & H3 & H4). rewrite <-Hbuf in H1, H2, H3, H4.
  fold buf. rewrite H1, H2, H3, H4. destruct final; cbn [Z.eqb Z.ltb Z.compare negb andb]; [by eexists|].
  rewrite (proj2 (is_empty_false _)) by by apply Hne. by eexists.
Qed.

Fixpoint peel_all (sks : list Bytes) (packet : Bytes) (assoc : string) : result (list Peeled) :=
  match sks with
  | [] => Ok []
  | sk :: sks =>
      p ← peel sk packet assoc;
      ps ← peel_all sks (next_packet p) assoc;
      Ok (p :: ps)
  end.

(** What a hop learns: its own entry, and a packet of the common size unless it is last. *)
Definition learns (p : Peeled) (h : OnionHop) : Prop :=
  p_next_chan p = next_chan h ∧ p_amount p = o_amount h ∧ p_expiry p = o_expiry h ∧
  if p_final p then next_chan h = "" ∧ next_packet p = [] else next_chan h ≠ "" ∧ length (next_packet p) = kPacket.

(** Only the last hop has no next channel. *)
Fixpoint chans_ok (hops : list OnionHop) : Prop :=
  match hops with
  | [] => True
  | [h] => next_chan h = ""
  | h :: hops => next_chan h ≠ "" ∧ chans_ok hops
  end.

Lemma wrap_peels rand assoc F : 
  primitives_ok → (∀ n, length (rand n) = n) →
  ∀ ls sks G l0, Forall2 layer_ok ls sks → head ls = Some l0 → chans_ok (l_hop <$> ls) →
  (length G + length ls * kEntry ≤ kRouting)%nat → F = foldl filler_step G (l_ks <$> take (length ls - 1) ls) →
  let '(r, m) := wrap F rand assoc ls in
  wrapped G r ∧ m = mac (l_mu l0) r assoc ∧
  ∃ ps, peel_all sks (l_ct l0 ++ r ++ m) assoc = Ok ps ∧ Forall2 learns ps (l_hop <$> ls).
Proof.
  intros Hp Hrand ls. induction ls as [|l ls IH]; intros sks G l0 Hall Hhd Hch Hlen; [done|].
  cbn in Hhd. injection Hhd as <-. inversion Hall as [|? sk ? sks' Hl Hls]; subst. intros HF.
  pose proof Hl as (Hh & Hct & Hks & _). destruct sizes as (He & Hrt & Hpk & Hhs & Hms). cbn [wrap].
  destruct ls as [|l' ls].
  - inversion Hls; subst. cbn [length Nat.sub take fmap list_fmap foldl] in *.
    set (plain := resize _ _ ++ _). assert (Hpl : length plain = (kRouting - length G)%nat).
    { unfold plain. rewrite length_app, resize_length, Hrand. lia. }
    set (r := xor plain (l_ks l) ++ G).
    assert (Hr : length r = kRouting) by (unfold r; rewrite length_app, xor_length; lia).
    assert (Hxl : length (xor plain (l_ks l)) = (kRouting - length G)%nat) by (rewrite xor_length; lia).
    split; [split; [done|by apply drop_app_length']|]. split; [done|].
    assert (Hbuf : ∃ rest, xor (r ++ zero kEntry) (l_ks l) = hop_header true (l_hop l) ++ rest).
    { unfold r. rewrite <-app_assoc, xor_app_key, xor_twice by lia. unfold plain, resize.
      pose proof (hop_header_length true _ Hh). rewrite (firstn_all2 (n := kEntry)) by lia. rewrite <-!app_assoc.
      by eexists. }
    destruct Hbuf as [rest Hbuf]. destruct (peel_layer l sk r assoc true rest Hp Hl Hr Hbuf) as [tag Ht]; [done|].
    eexists. cbn [peel_all]. rewrite Ht. cbn [mbind result_bind]. split; [done|]. repeat constructor. done.
  - cbn [length] in Hlen. destruct Hch as [Hne Hch].
    assert (HG : length (filler_step G (l_ks l)) = (length G + kEntry)%nat) by (apply filler_step_length; lia).
    specialize (IH sks' (filler_step G (l_ks l)) l' Hls eq_refl Hch).
    rewrite HG in IH. specialize (IH ltac:(cbn [length]; lia)).
    assert (HF' : F = foldl filler_step (filler_step G (l_ks l)) (l_ks <$> take (length (l' :: ls) - 1) (l' :: ls))).
    { rewrite HF. cbn [length]. by rewrite !Nat.sub_succ, !Nat.sub_0_r. }
    specialize (IH HF'). destruct (wrap F rand assoc (l' :: ls)) as [r m] eqn:Ew.
    destruct IH as (Hw & Hm & ps & Hps & Hlearn).
    assert (Hct' : length (l_ct l') = kKemCt) by (by inversion Hls as [|? ? ? ? (_ & ? & _) _]; subst).
    assert (Hml : length m = kMac) by (rewrite Hm; apply resize_length).
    destruct (wrap_step l l' r m G Hh Hml Hct' Hks) as [Hw' Hrec]; [lia|done|].
    fold (block l l' r m). set (r' := xor (take kRouting (block l l' r m)) (l_ks l)) in *.
    destruct (block_split l l' r m Hh Hml Hct' (proj1 Hw)) as (Hd & Hbl & Htm & Htc).
    assert (Hbuf : xor (r' ++ zero kEntry) (l_ks l) = block l l' r m).
    { rewrite Hrec. rewrite <-Hd at 2. apply take_drop. }
    destruct (peel_layer l sk r' assoc false (m ++ l_ct l' ++ r) Hp Hl (proj1 Hw') Hbuf) as [tag Ht]; [done|].
    split; [done|]. split; [done|]. rewrite Hbuf, Hd, Htm, Htc in Ht.
    eexists. cbn [peel_all]. rewrite Ht. cbn [mbind result_bind next_packet]. rewrite Hps. cbn [mbind result_bind].
    split; [done|]. cbn [fmap list_fmap]. constructor; [|exact Hlearn].
    unfold learns. cbn. conjs; try done. rewrite !length_app, Hct', (proj1 Hw), Hml. lia.
Qed.

(** ** Building *)

Lemma layers_ok n sks : primitives_ok → ∀ hops i coins,
  Forall2 (λ h sk, hop_ok h ∧ keypair (pubkey h) sk) hops sks → chans_ok hops → (i + length hops = n)%nat →
  ∃ ls, layers i n hops coins = Ok ls ∧ Forall2 layer_ok ls sks ∧ l_hop <$> ls = hops.
Proof.
  intros Hp hops i coins H. revert i coins. induction H as [|h sk hops sks [Hh (Hpk & Hsk & Hk)] _ IH];
    intros i coins Hch Hn; [by exists []|].
  cbn [length] in Hn. cbn [layers]. unfold encaps. rewrite (kem_lengths Hp). cbn [length_public_key].
  rewrite Hpk, Nat.eqb_refl. destruct (Hk (hd [] coins)) as (ct & ss & Eenc & Hdec).
  pose proof (kem_ct Hp _ _ _ _ Eenc) as Hct. rewrite Eenc.
  pose proof Hh as (Hlen & _). rewrite (proj2 (Nat.ltb_ge 32 _)) by done. cbn [orb].
  assert (Hc : Bool.eqb (S i <? n)%nat (is_empty (next_chan h)) = false ∧ chans_ok hops).
  { destruct hops as [|h' hops].
    - cbn [chans_ok] in Hch. rewrite Hch. cbn [length] in Hn. rewrite (proj2 (Nat.ltb_ge _ _)) by lia. done.
    - destruct Hch as [Hne Hch]. rewrite (proj2 (is_empty_false _) Hne). cbn [length] in Hn.
      rewrite (proj2 (Nat.ltb_lt _ _)) by lia. done. }
  destruct Hc as [-> Hch'].
  destruct (IH (S i) (tl coins) Hch') as (ls & -> & Hls & Hhops); [lia|]. cbn [mbind result_bind].
  eexists. split; [done|]. split; [|cbn; by rewrite Hhops]. constructor; [|done].
  split; [done|]. cbn [l_ct l_ks l_mu]. split; [done|]. split; [apply (ctr_length Hp)|]. split; [done|].
  by exists ss.
Qed.

(** C39. A packet for one to four hops is built, has the common size, and is peeled by the
    hops in order: each learns its own channel, amount and expiry, only the last is
    final, and every packet on the way has the same size. *)
Theorem onion_peels hops sks assoc coins rand :
  primitives_ok → (∀ n, length (rand n) = n) → (1 ≤ length hops ≤ kMaxHops)%nat →
  Forall2 (λ h sk, hop_ok h ∧ keypair (pubkey h) sk) hops sks → chans_ok hops →
  ∃ packet ps, build hops assoc coins rand = Ok packet ∧ length packet = kPacket ∧
    peel_all sks packet assoc = Ok ps ∧ Forall2 learns ps hops.
Proof.
  intros Hp Hrand Hn Hall Hch. destruct sizes as (He & Hrt & Hpk & _).
  destruct (layers_ok (length hops) sks Hp hops 0 coins Hall Hch eq_refl) as (ls & El & Hls & Hhops).
  destruct ls as [|l ls]; [rewrite <-Hhops in Hn; cbn in Hn; lia|]. unfold build.
  rewrite (proj2 (Nat.eqb_neq _ _)), (proj2 (Nat.ltb_ge _ _)) by lia. cbn [orb]. rewrite El.
  cbn [mbind result_bind].
  assert (Hlen : length (l :: ls) = length hops) by (rewrite <-Hhops; by rewrite length_fmap).
  pose proof (wrap_peels rand assoc (filler_of (l :: ls)) Hp Hrand (l :: ls) sks [] l Hls eq_refl) as H.
  rewrite Hhops in H. specialize (H Hch). rewrite Hlen in H. unfold kMaxHops in Hn. cbn [length] in H.
  specialize (H ltac:(nia)). unfold filler_of in *. rewrite Hlen in H |- *. specialize (H eq_refl).
  destruct (wrap _ rand assoc (l :: ls)) as [r m]. destruct H as ([Hr _] & Hm & ps & Hps & Hlearn).
  cbn [head from_option]. eexists _, ps. split; [done|]. split; [|done].
  inversion_clear Hls as [|? ? ? ? (_ & Hct & _) _]. rewrite !length_app, Hct, Hr, Hm.
  unfold mac. rewrite resize_length. lia.
Qed.
End onion.
