(* ===== verification/RChannel.v ===== *)
(** * Channels between nodes ([src/rpc_rchannel.cpp])

    One side of each payment channel whose other side is on another node: the messages of
    the peer, the outbox of the node's own proposals, the queue of HTLC forwards, settles
    and fails, and the files. [std::map] is a [gmap] visited in the order of its keys.
    The wallet store, the random generator and the file system are the class [ChanEnv];
    random draws are numbered by the count of earlier ones. A message is handled at one
    reading of the clock and one chain height. *)
From stdpp Require Import sorting.
From S2P Require Import Prelude Strings Lines Crypto Types Wire Block Script Channel ChannelText Onion.

Record WalletKeys := mkWalletKeys { wk_address : string; wk_public_key : string; wk_sign : string → string }.

Class ChanEnv := {
  load_wallet_keys : string → result WalletKeys;
  random_hex : nat → result string;
  onion_keygen : nat → option (Bytes * Bytes);
  disk_takes : string → string → bool;
  junk : Z;
}.

Record RemoteChannel := mkRemoteChannel {
  wallet : string;
  rpeer : string;
  status : string;
  ch : Channel;
  busy : bool;
  out_phase : string;
  out_state : string;
  out_kind : string;
  out_extra : string;
  out_action : string;
  attempts : Z;
  last_error : string;
  next_try : Z;
  in_effect : string;
  pending_since : Z;
}.

#[export] Instance PeerUpdate_eq_dec : EqDecision PeerUpdate.
Proof. solve_decision. Defined.

Record Server := mkServer {
  rchannels : gmap string RemoteChannel;
  opening : gmap string RemoteChannel;
  loaded : bool;
  invoices : gmap string string;
  links : gmap string string;
  payments : gmap string string;
  actions : list string;
  fault : string;
  route_pk : Bytes;
  route_sk : Bytes;
  onion_seen : gset string;
  drawn : nat;
  chan_files : gmap string string;
  meta_file : option string;
  key_file : option string;
}.

(** ** Single-field writes *)

Definition set_ch (c : Channel) (r : RemoteChannel) : RemoteChannel :=
  mkRemoteChannel (wallet r) (rpeer r) (status r) c (busy r) (out_phase r) (out_state r) (out_kind r) (out_extra r)
    (out_action r) (attempts r) (last_error r) (next_try r) (in_effect r) (pending_since r).
Definition set_status (v : string) (r : RemoteChannel) : RemoteChannel :=
  mkRemoteChannel (wallet r) (rpeer r) v (ch r) (busy r) (out_phase r) (out_state r) (out_kind r) (out_extra r)
    (out_action r) (attempts r) (last_error r) (next_try r) (in_effect r) (pending_since r).
Definition set_busy (v : bool) (r : RemoteChannel) : RemoteChannel :=
  mkRemoteChannel (wallet r) (rpeer r) (status r) (ch r) v (out_phase r) (out_state r) (out_kind r) (out_extra r)
    (out_action r) (attempts r) (last_error r) (next_try r) (in_effect r) (pending_since r).
Definition set_out (ph st k ex ac : string) (r : RemoteChannel) : RemoteChannel :=
  mkRemoteChannel (wallet r) (rpeer r) (status r) (ch r) (busy r) ph st k ex ac
    (attempts r) (last_error r) (next_try r) (in_effect r) (pending_since r).
Definition set_phase (ph : string) (r : RemoteChannel) : RemoteChannel :=
  set_out ph (out_state r) (out_kind r) (out_extra r) (out_action r) r.
Definition set_tries (a : Z) (e : string) (t : Z) (r : RemoteChannel) : RemoteChannel :=
  mkRemoteChannel (wallet r) (rpeer r) (status r) (ch r) (busy r) (out_phase r) (out_state r) (out_kind r) (out_extra r)
    (out_action r) a e t (in_effect r) (pending_since r).
Definition set_in (eff : string) (since : Z) (r : RemoteChannel) : RemoteChannel :=
  mkRemoteChannel (wallet r) (rpeer r) (status r) (ch r) (busy r) (out_phase r) (out_state r) (out_kind r) (out_extra r)
    (out_action r) (attempts r) (last_error r) (next_try r) eff since.

Definition set_tables (rs op : gmap string RemoteChannel) (s : Server) : Server :=
  mkServer rs op (loaded s) (invoices s) (links s) (payments s) (actions s) (fault s) (route_pk s) (route_sk s)
    (onion_seen s) (drawn s) (chan_files s) (meta_file s) (key_file s).
Definition put_channel (id : string) (r : RemoteChannel) (s : Server) : Server :=
  set_tables (<[id := r]> (rchannels s)) (opening s) s.
Definition set_book (inv li pay : gmap string string) (ac : list string) (s : Server) : Server :=
  mkServer (rchannels s) (opening s) (loaded s) inv li pay ac (fault s) (route_pk s) (route_sk s)
    (onion_seen s) (drawn s) (chan_files s) (meta_file s) (key_file s).
Definition push_action (a : string) (s : Server) : Server :=
  set_book (invoices s) (links s) (payments s) (actions s ++ [a]) s.
Definition set_payment (ph v : string) (s : Server) : Server :=
  set_book (invoices s) (links s) (<[ph := v]> (payments s)) (actions s) s.
Definition set_invoice (ph v : string) (s : Server) : Server :=
  set_book (<[ph := v]> (invoices s)) (links s) (payments s) (actions s) s.
Definition set_links (li : gmap string string) (s : Server) : Server :=
  set_book (invoices s) li (payments s) (actions s) s.
Definition set_actions (ac : list string) (s : Server) : Server :=
  set_book (invoices s) (links s) (payments s) ac s.
Definition set_fault (v : string) (s : Server) : Server :=
  mkServer (rchannels s) (opening s) (loaded s) (invoices s) (links s) (payments s) (actions s) v (route_pk s)
    (route_sk s) (onion_seen s) (drawn s) (chan_files s) (meta_file s) (key_file s).
Definition set_onion (pk sk : Bytes) (seen : gset string) (s : Server) : Server :=
  mkServer (rchannels s) (opening s) (loaded s) (invoices s) (links s) (payments s) (actions s) (fault s) pk sk
    seen (drawn s) (chan_files s) (meta_file s) (key_file s).
Definition draw (s : Server) : Server :=
  mkServer (rchannels s) (opening s) (loaded s) (invoices s) (links s) (payments s) (actions s) (fault s)
    (route_pk s) (route_sk s) (onion_seen s) (S (drawn s)) (chan_files s) (meta_file s) (key_file s).
Definition set_files (cf : gmap string string) (mf kf : option string) (s : Server) : Server :=
  mkServer (rchannels s) (opening s) (loaded s) (invoices s) (links s) (payments s) (actions s) (fault s)
    (route_pk s) (route_sk s) (onion_seen s) (drawn s) cf mf kf.

(** ** Texts *)

Definition split_bar (c : ascii) (t : string) : list string := getlines c (Some t).
Definition safe_id (id : string) : bool :=
  negb (is_empty id) && (String.length id <=? 64)%nat && all_chars is_hex_char id.
Definition is_token_char (c : ascii) : bool :=
  let z := byte_of_char c in
  (48 <=? z) && (z <=? 57) || (65 <=? z) && (z <=? 90) || (97 <=? z) && (z <=? 122) ||
  any_char (Ascii.eqb c) ",+-_.".
Definition safe_token (t : string) : bool :=
  match t with
  | "" => false
  | String c _ => (String.length t <=? if Ascii.eqb c "O" then 2 * kPacket + 1 else Z.to_nat 4096)%nat &&
                  all_chars is_token_char t
  end.
(** The HTLCs [decode_state] has read when it stops, also where it fails. *)
Fixpoint htlcs_before_error (l : list string) : list Htlc :=
  match l with
  | [] => []
  | t :: l => match decode_htlc t with Some h => h :: htlcs_before_error l | None => [] end
  end.
Definition decoded_htlcs (t : string) : list Htlc :=
  match (let f := getlines ":" (Some t) in if (length f =? 4)%nat then f ++ [""] else f) with
  | [n; a; b; next; hs] =>
      if bool_decide (Forall is_Some (field_u64 <$> [n; a; b; next])) then htlcs_before_error (getlines ";" (Some hs))
      else []
  | _ => []
  end.

Definition name_le {A} (a b : string * A) : Prop := str_ltb b.1 a.1 = false.
#[export] Instance name_le_dec {A} (a b : string * A) : Decision (name_le a b).
Proof. unfold name_le. apply _. Defined.
(** A [std::map] with text keys, in order. *)
Definition in_name_order {A} (m : gmap string A) : list (string * A) := merge_sort name_le (map_to_list m).

Section server.
Context {C : Crypto} {OC : OnionCrypto} {CE : ChanEnv}.

(** ** Files *)

Definition rchan_text (r : RemoteChannel) : string :=
  unlines
    (["wallet " +:+ wallet r; "peer " +:+ rpeer r; "status " +:+ status r] ++
     (if is_empty (out_phase r) then []
      else [line ["out"; out_phase r; out_kind r; out_state r; or_dash (out_extra r)];
            "out_action " +:+ out_action r]) ++
     (if is_empty (in_effect r) then [] else ["in_effect " +:+ in_effect r]) ++ ["---"]) +:+
  serialize (ch r).
Definition rchan_save (id : string) (r : RemoteChannel) (s : Server) : Server * result () :=
  if disk_takes id (rchan_text r)
  then (set_files (<[id := rchan_text r]> (chan_files s)) (meta_file s) (key_file s) s, Ok ())
  else (s, Err "cannot persist channel").
Definition meta_text (s : Server) : string :=
  unlines
    (((λ kv, line ["inv"; kv.1; kv.2]) <$> in_name_order (invoices s)) ++
     ((λ kv, line ["link"; kv.1; kv.2]) <$> in_name_order (links s)) ++
     ((λ kv, line ["pay"; kv.1; kv.2]) <$> in_name_order (payments s)) ++
     ((λ a, line ["act"; a]) <$> actions s)).
Definition rchan_save_meta (s : Server) : Server :=
  if disk_takes "meta" (meta_text s) then set_files (chan_files s) (Some (meta_text s)) (key_file s) s else s.

(** The lines before [---], and what follows them. *)
Fixpoint head_of_file (fuel : nat) (st : Lines.stream) : list string * string :=
  match fuel with
  | O => ([], "")
  | S fuel =>
      match getline_ok nl st with
      | None => ([], "")
      | Some (l, st) =>
          if String.eqb l "---" then ([], default "" st)
          else let '(ls, body) := head_of_file fuel st in (l :: ls, body)
      end
  end.
Definition head_line (r : RemoteChannel) (l : string) : RemoteChannel :=
  if starts_with "wallet " l then
    mkRemoteChannel (str_drop 7 l) (rpeer r) (status r) (ch r) (busy r) (out_phase r) (out_state r) (out_kind r)
      (out_extra r) (out_action r) (attempts r) (last_error r) (next_try r) (in_effect r) (pending_since r)
  else if starts_with "peer " l then
    mkRemoteChannel (wallet r) (str_drop 5 l) (status r) (ch r) (busy r) (out_phase r) (out_state r) (out_kind r)
      (out_extra r) (out_action r) (attempts r) (last_error r) (next_try r) (in_effect r) (pending_since r)
  else if starts_with "status " l then set_status (str_drop 7 l) r
  else if starts_with "out_action " l then
    set_out (out_phase r) (out_state r) (out_kind r) (out_extra r) (str_drop 11 l) r
  else if starts_with "out " l then
    let '(ph, ls) := read_word (out_phase r) (Some (str_drop 4 l)) in
    let '(k, ls) := read_word (out_kind r) ls in
    let '(st, ls) := read_word (out_state r) ls in
    let ex := un_dash (fst (read_word (out_extra r) ls)) in
    set_out ph st k ex (out_action r) r
  else if starts_with "in_effect " l then set_in (str_drop 10 l) (pending_since r) r
  else r.
Definition new_remote (w p st : string) (c : Channel) : RemoteChannel :=
  mkRemoteChannel w p st c false "" "" "" "" "" 0 "" 0 "" 0.
Definition no_channel : Channel := new_channel "" "" (λ _, "") "" false (mkInfo "" "" 0 "" 0 6 1) "".
Definition load_rchannel (now : Z) (content : string) : option RemoteChannel :=
  let '(ls, body) := head_of_file (S (String.length content)) (Some content) in
  let r := foldl head_line (new_remote "" "" "open" no_channel) ls in
  match load_wallet_keys (wallet r) with
  | Err _ => None
  | Ok k =>
      match deserialize junk body (wk_address k) (wk_public_key k) (wk_sign k) with
      | Err _ => None
      | Ok c => Some (set_in (in_effect r) (if bool_decide (is_Some (pending c)) then now else 0) (set_ch c r))
      end
  end.
Definition meta_line (s : Server) (l : string) : Server :=
  match cut " " l with
  | (k, Some rest) =>
      if String.eqb k "act" then push_action rest s
      else match cut " " rest with
           | (key, Some val) =>
               if String.eqb k "inv" then set_invoice key val s
               else if String.eqb k "link" then set_links (<[key := val]> (links s)) s
               else if String.eqb k "pay" then set_payment key val s
               else s
           | _ => s
           end
  | _ => s
  end.
Definition rchan_load (now : Z) (s : Server) : Server :=
  if loaded s then s
  else
    let found := map_imap (λ id t, if safe_id id then load_rchannel now t else None) (chan_files s) in
    let s := mkServer (found ∪ rchannels s) (opening s) true (invoices s) (links s) (payments s) (actions s) (fault s)
               (route_pk s) (route_sk s) (onion_seen s) (drawn s) (chan_files s) (meta_file s) (key_file s) in
    foldl meta_line s (getlines nl (meta_file s)).

(** The onion key: from memory, from its file, or new. *)
Definition stored_key (t : string) : option (Bytes * Bytes) :=
  let '(pk, ls) := read_word "" (Some t) in
  let '(sk, ls) := read_word "" ls in
  match hex_to_bytes pk, hex_to_bytes sk with
  | Ok pk, Ok sk =>
      if (String.length pk =? kKemPk)%nat && (String.length sk =? kKemSk)%nat
      then Some (to_bytes pk, to_bytes sk) else None
  | _, _ => None
  end.
Definition rchan_route_key (s : Server) : Server * result () :=
  if bool_decide (route_sk s ≠ []) then (s, Ok ())
  else match key_file s ≫= stored_key with
       | Some (pk, sk) => (set_onion pk sk (onion_seen s) s, Ok ())
       | None =>
           match onion_keygen (drawn s) with
           | None => (draw (set_onion (route_pk s) [] (onion_seen s) s), Err "route key keygen failed")
           | Some (pk, sk) =>
               let s := draw (set_onion pk sk (onion_seen s) s) in
               let t := unlines [bytes_to_hex (of_bytes pk); bytes_to_hex (of_bytes sk)] in
               if disk_takes "route_kem.key" t
               then (set_files (chan_files s) (meta_file s) (Some t) s, Ok ())
               else (s, Err "cannot write route key")
           end
       end.

(** ** Inbound *)

(** The node's own proposal, which the peer may hold a signature on, is given up. *)
Definition rchan_abandon_out (why : string) (s : Server) (r : RemoteChannel) : Server * RemoteChannel :=
  if negb (String.eqb (out_phase r) "upd") then (s, r)
  else
    let x := decode_state (out_state r) in
    let r' := match x with Some x => set_ch (note_signed_abandoned x (ch r)) r | None => r end in
    let hs := match x with Some x => htlcs x | None => decoded_htlcs (out_state r) end in
    let ph := from_option payment_hash "" (last hs) in
    let s :=
      if negb (is_empty (out_action r)) && negb (String.eqb (out_action r) "-") then push_action (out_action r) s
      else if String.eqb (out_kind r) "ADD" then
        if negb (is_empty ph) && bool_decide (is_Some (payments s !! ph))
        then set_payment ph ("failed(" +:+ why +:+ ")") s else s
      else s in
    (rchan_save_meta s, set_tries 0 (last_error r) (next_try r) (set_out "" "" "" "" "" r')).

(** An HTLC of the peer that is paid to this node: to the invoice of its hash. *)
Definition settle_invoice (id hid w : string) (x : Htlc) (want : Z) (s : Server) : Server :=
  let fail := push_action (line ["FAIL"; id; hid]) s in
  match invoices s !! payment_hash x with
  | None => fail
  | Some t =>
      match split_bar " " t with
      | iw :: ia :: ip :: _ =>
          let amt := default 0 (number ia) in
          if String.eqb iw w && (amt <=? h_amount x) && (want <=? h_amount x)
          then set_invoice (payment_hash x) (line [iw; ia; ip; "paid"]) (push_action (line ["SETTLE"; id; hid; ip]) s)
          else fail
      | _ => fail
      end
  end.
(** An HTLC of the peer with an onion. *)
Definition peel_onion (id hid w t : string) (x : Htlc) (s : Server) : Server :=
  let fail s := push_action (line ["FAIL"; id; hid]) s in
  let '(s, r) := rchan_route_key s in
  match r, hex_to_bytes (str_drop 1 t) with
  | Ok _, Ok pkt =>
      match peel (route_sk s) (to_bytes pkt) (payment_hash x) with
      | Err _ => fail s
      | Ok pl =>
          if bool_decide (replay_tag pl ∈ onion_seen s) then fail s
          else
            let s := set_onion (route_pk s) (route_sk s) ({[replay_tag pl]} ∪ onion_seen s) s in
            if p_final pl then
              if h_expiry x <? p_expiry pl then fail s else settle_invoice id hid w x (p_amount pl) s
            else if bool_decide (rchannels s !! p_next_chan pl = None) || (p_amount pl =? 0) ||
                    (h_amount x <? p_amount pl) || (h_expiry x <=? p_expiry pl)
            then fail s
            else push_action
                   (line ["FWD"; p_next_chan pl; id +:+ ":" +:+ hid; to_string (p_amount pl); payment_hash x;
                          to_string (p_expiry pl); "O" +:+ bytes_to_hex (of_bytes (next_packet pl))]) s
      end
  | _, _ => fail s
  end.
Definition effect_add (id : string) (hid : Z) (t : string) (r : RemoteChannel) (s : Server) : option Server :=
  match last (filter (λ x, h_id x = hid) (htlcs (cur (ch r)))) with
  | None => None
  | Some x =>
      Some (if starts_with "O" t then peel_onion id (to_string hid) (wallet r) t x s
            else match split_bar "," t with
                 | [] => settle_invoice id (to_string hid) (wallet r) x 0 s
                 | e :: _ => if String.eqb e "-" then settle_invoice id (to_string hid) (wallet r) x 0 s
                             else push_action (line ["FAIL"; id; to_string hid]) s
                 end)
  end.
(** The peer has settled or failed an HTLC this node offered: pass it upstream. *)
Definition effect_remove (id kind : string) (hid : Z) (t : string) (s : Server) : Server :=
  let key := id +:+ ":" +:+ to_string hid in
  match links s !! key with
  | Some up =>
      let s := match split_bar ":" up with
               | [ic; ih] => push_action (if String.eqb kind "SETTLE" then line [kind; ic; ih; t] else line [kind; ic; ih]) s
               | _ => s
               end in
      set_links (delete key (links s)) s
  | None =>
      let ph := if String.eqb kind "SETTLE" then hash_preimage_hex t else t in
      if bool_decide (is_Some (payments s !! ph))
      then set_payment ph (if String.eqb kind "SETTLE" then "settled" else "failed") s else s
  end.
(** The effects of a peer's update once it is revoked in. *)
Definition rchan_apply_effect (id : string) (s : Server) (r : RemoteChannel) : Server * RemoteChannel :=
  let r' := set_in "" (pending_since r) r in
  match split_bar " " (in_effect r) with
  | kind :: hid :: t :: _ =>
      match number hid with
      | None => (s, r')
      | Some hid =>
          if String.eqb kind "ADD" then
            match effect_add id hid t r s with
            | None => (s, r')
            | Some s => (rchan_save_meta s, r')
            end
          else if String.eqb kind "SETTLE" || String.eqb kind "FAIL" then (rchan_save_meta (effect_remove id kind hid t s), r')
          else (rchan_save_meta s, r')
      end
  | _ => (s, r')
  end.

Definition reply_sig (c : Channel) (x : State) : string := "CHANOK|" +:+ cs_sig (sign_remote_commitment c x).
Definition reply_revoke (m : Revoke) : string :=
  "CHANOK|" +:+ to_string (revoked_n m) +:+ "|" +:+ secret m +:+ "|" +:+ next_hash m.
(** [reply = ...; return rchan_save(id, rc, error)] *)
Definition save_and_reply (id reply : string) (s : Server) (r : RemoteChannel) : Server * result string :=
  let '(s, x) := rchan_save id r (put_channel id r s) in
  (s, match x with Ok _ => Ok reply | Err e => Err e end).

Definition handle_open (s : Server) (f : list string) : Server * result string :=
  match f with
  | [_; tmp; w; endpoint; addr_a; pub_a; cap; push; h0; h1] =>
      if negb (safe_id tmp) then (s, Err "bad OPEN")
      else
        let s := if (64 <? size (opening s))%nat then set_tables (rchannels s) ∅ s else s in
        match load_wallet_keys w with
        | Err _ => (s, Err "unknown wallet")
        | Ok kb =>
            match number cap, number push with
            | Some cap, Some push =>
                if (cap <? 2) || (cap <? push) || (cap - push <? 1) then (s, Err "bad capacity")
                else match random_hex (drawn s) with
                     | Err e => (draw s, Err e)
                     | Ok seed =>
                         let i := mkInfo addr_a (wk_address kb) cap "" 0 6 1 in
                         let c := new_channel (wk_address kb) (wk_public_key kb) (wk_sign kb) pub_a false i seed in
                         let c := set_remote_initial_hashes h0 h1 c in
                         let '(g0, g1) := initial_hashes c in
                         let s := draw s in
                         (set_tables (rchannels s) (<[tmp := new_remote w endpoint "open" c]> (opening s)) s,
                          Ok (join "|" ["CHANOK"; wk_address kb; wk_public_key kb; g0; g1; to_string push]))
                     end
            | _, _ => (s, Err "bad OPEN")
            end
        end
  | _ => (s, Err "bad OPEN")
  end.

(** The state and the signature of [<state>#<sig>]. *)
Definition initial_state (t : string) (cap : Z) : option (State * string) :=
  match cut "#" t with
  | (st, Some sig) =>
      match decode_state st with
      | Some s0 =>
          if (st_n s0 =? 0) && bool_decide (htlcs s0 = []) && (u64 (bal_a s0 + bal_b s0) =? cap)
          then Some (s0, sig) else None
      | None => None
      end
  | _ => None
  end.
Definition handle_fund (s : Server) (f : list string) : Server * result string :=
  match f with
  | [_; tmp; id; txid; vout; sig] =>
      match opening s !! tmp with
      | None => (s, Err "unknown channel open")
      | Some r =>
          if negb (safe_id id) || bool_decide (is_Some (rchannels s !! id)) then (s, Err "unknown channel open")
          else
            let s := set_tables (rchannels s) (delete tmp (opening s)) s in
            match number vout with
            | None => (s, Err "bad FUND")
            | Some vout =>
                if negb (String.eqb id (str_take 16 txid)) then (s, Err "channel id mismatch")
                else
                  let c := set_funding txid (u32 vout) (ch r) in
                  match initial_state sig (capacity (info c)) with
                  | None => (s, Err "bad initial state")
                  | Some (s0, sig) =>
                      match receive_commit_sig c s0 (mkCommitSig 0 sig) with
                      | (_, Err e) => (s, Err e)
                      | (c, Ok _) =>
                          let r := set_ch c r in
                          let '(s, x) := rchan_save id r s in
                          match x with
                          | Err e => (s, Err e)
                          | Ok _ => (put_channel id r s, Ok (reply_sig c s0))
                          end
                      end
                  end
            end
      end
  | _ => (s, Err "bad FUND")
  end.

(** A proposal that conflicts with what is in flight: side A's proposal wins. [None]: the
    message is answered already. *)
Definition make_room (s : Server) (r : RemoteChannel) : Server * RemoteChannel * result () :=
  let conflict := "conflicting pending update" in
  if bool_decide (is_Some (pending (ch r))) && is_a (ch r) then (s, r, Err conflict)
  else
    let r := if bool_decide (is_Some (pending (ch r))) then set_in "" (pending_since r) (set_ch (drop_pending (ch r)) r) else r in
    if String.eqb (out_phase r) "rev" then (s, r, Err "conflicting update: awaiting revocation")
    else if String.eqb (out_phase r) "upd" then
      if is_a (ch r) then (s, r, Err conflict)
      else let '(s, r) := rchan_abandon_out "conflict" s r in (s, r, Ok ())
    else (s, r, Ok ()).
Definition effect_of (u : PeerUpdate) (x : option Htlc) (t : string) : string :=
  let hid := to_string (from_option h_id 0 x) in
  match u with
  | Pay => ""
  | AddHtlc => line ["ADD"; hid; t]
  | SettleHtlc => line ["SETTLE"; hid; t]
  | FailHtlc => line ["FAIL"; hid; from_option payment_hash "" x]
  end.
Definition accept_upd (now h : Z) (s : Server) (id : string) (r : RemoteChannel) (st sig kind extra : string) :
    Server * result string :=
  match decode_state st with
  | None => (s, Err "bad UPD")
  | Some next =>
      if from_option (λ p, String.eqb (encode_state p) st) false (pending (ch r))
      then (s, Ok (reply_sig (ch r) next))
      else
        let '(s, r, m) := make_room s r in
        let s := put_channel id r s in
        match m with
        | Err e => (s, Err e)
        | Ok _ =>
            match classify_peer_update (ch r) next (if String.eqb kind "SETTLE" then extra else "") h with
            | Err e => (s, Err e)
            | Ok (u, x) =>
                if bool_decide (u = AddHtlc) && negb (safe_token extra) then (s, Err "bad route")
                else match receive_commit_sig (ch r) next (mkCommitSig (st_n next) sig) with
                     | (_, Err e) => (s, Err e)
                     | (c, Ok _) =>
                         save_and_reply id (reply_sig c next) s (set_in (effect_of u x extra) now (set_ch c r))
                     end
            end
        end
  end.
Definition handle_upd (now h : Z) (s : Server) (id : string) (r : RemoteChannel) (f : list string) :
    Server * result string :=
  match f with
  | [_; _; st; sig] => accept_upd now h s id r st sig "PAY" "-"
  | [_; _; st; sig; kind; extra] => accept_upd now h s id r st sig kind extra
  | _ => (s, Err "bad UPD")
  end.

(** The last [None] of [revoke_and_advance] is an empty optional, which a pending state
    without its signature would be. *)
Definition handle_rev (s : Server) (id : string) (r : RemoteChannel) (f : list string) : Server * result string :=
  match f with
  | [_; _; n; sec; next] =>
      match number n with
      | None => (s, Err "bad REV")
      | Some n =>
          let m := mkRevoke n sec next in
          if negb (bool_decide (is_Some (pending (ch r)))) then
            if (u64 (n + 1) =? st_n (cur (ch r))) && has_remote_secret (ch r) n sec
            then (s, Ok (reply_revoke (last_revoke (ch r))))
            else (s, Err "no pending update")
          else if String.eqb (fault s) "drop_rev" then (set_fault "" s, Err "fault-injected: REV dropped")
          else match receive_revoke (ch r) m with
               | (_, Err e) => (s, Err e)
               | (c, Ok _) =>
                   match revoke_and_advance c with
                   | None => (s, Err "")
                   | Some (c, mine) =>
                       let '(s, r) := rchan_apply_effect id s (set_in (in_effect r) 0 (set_ch c r)) in
                       let '(s, x) := save_and_reply id (reply_revoke mine) s r in
                       match x with
                       | Err e => (s, Err e)
                       | Ok reply =>
                           if String.eqb (fault s) "drop_rev_reply"
                           then (set_fault "" s, Err "fault-injected: REV reply dropped")
                           else (s, Ok reply)
                       end
                   end
               end
      end
  | _ => (s, Err "bad REV")
  end.

Definition or_bar (t : string) : string := if is_empty t then "-" else t.
Definition handle_sync (s : Server) (r : RemoteChannel) : Server * result string :=
  (s, Ok (join "|" ["CHANOK"; to_string (st_n (cur (ch r))); or_bar (out_phase r);
                    from_option (λ p, to_string (st_n p)) "-" (pending (ch r))])).
Definition handle_abort (s : Server) (id : string) (r : RemoteChannel) (f : list string) : Server * result string :=
  match (f !! 2%nat) ≫= number with
  | None => (s, Err "bad ABORT")
  | Some n =>
      let reply := "CHANOK|" +:+ to_string (st_n (cur (ch r))) in
      if from_option (λ p, st_n p =? n) false (pending (ch r))
      then save_and_reply id reply s (set_in "" 0 (set_ch (drop_pending (ch r)) r))
      else (s, Ok reply)
  end.
Definition handle_close (s : Server) (id : string) (r : RemoteChannel) : Server * result string :=
  if negb (bool_decide (htlcs (cur (ch r)) = [])) || bool_decide (is_Some (pending (ch r))) || negb (is_empty (out_phase r))
  then (s, Err "cannot close now")
  else save_and_reply id ("CHANOK|" +:+ sign_coop_close (ch r)) s (set_status "closing_coop" r).

Definition handle_channel_message (now h : Z) (s : Server) (body : string) : Server * result string :=
  let s := rchan_load now s in
  let f := split_bar "|" body in
  match f with
  | [] => (s, Err "bad channel message")
  | op :: rest =>
      if String.eqb op "OPEN" then handle_open s f
      else if String.eqb op "RKEY" then
        let '(s, x) := rchan_route_key s in
        (s, match x with Ok _ => Ok ("CHANOK|" +:+ bytes_to_hex (of_bytes (route_pk s))) | Err e => Err e end)
      else if String.eqb op "FUND" then handle_fund s f
      else match rest with
           | [] => (s, Err "bad channel message")
           | id :: _ =>
               match rchannels s !! id with
               | None => (s, Err "unknown channel")
               | Some r =>
                   if busy r then (s, Err "channel busy")
                   else if String.eqb op "SYNC" then handle_sync s r
                   else if negb (String.eqb (status r) "open") then (s, Err "channel not open")
                   else if String.eqb op "UPD" then handle_upd now h s id r f
                   else if String.eqb op "REV" then handle_rev s id r f
                   else if String.eqb op "ABORT" then handle_abort s id r f
                   else if String.eqb op "CLOSE" then handle_close s id r
                   else (s, Err "unknown channel op")
               end
           end
  end.
End server.
