(* ===== verification/RChannelOut.v ===== *)
(** * The outbox of a channel between nodes ([src/rpc_rchannel.cpp])

    The node's own proposals: [rchan_propose], [rchan_drive], the queue of actions and
    [rchan_tick]. A request to the peer releases the state lock while it waits. The network
    is a script: for each request in turn the inbound messages that are handled while it
    waits, each with its time and chain height, and the outcome of the request. *)
From S2P Require Import Prelude Strings Lines Crypto Types Wire Block Script Channel ChannelText Onion RChannel.

Record Net := mkNet {
  script : list (list (Z * Z * string) * result string);
  sent : list (string * string);
}.

Section outbox.
Context {C : Crypto} {OC : OnionCrypto} {CE : ChanEnv}.
Implicit Type w : Net.

Definition handle_all (ms : list (Z * Z * string)) (s : Server) : Server :=
  foldl (λ s m, (handle_channel_message m.1.1 m.1.2 s m.2).1) s ms.
Definition request_peer (peer m : string) (s : Server) w : Server * Net * result string :=
  let sn := sent w ++ [(peer, m)] in
  match script w with
  | [] => (s, mkNet [] sn, Err "peer unreachable")
  | (ms, x) :: rest => (handle_all ms s, mkNet rest sn, x)
  end.

(** [rchannels_.at(id)]; the callers have found the entry, and none is ever removed. *)
Definition at_id (s : Server) (id : string) : RemoteChannel :=
  default (new_remote "" "" "open" no_channel) (rchannels s !! id).
Definition edit (id : string) (f : RemoteChannel → RemoteChannel) (s : Server) : Server :=
  put_channel id (f (at_id s id)) s.
Definition save (id : string) (s : Server) : Server * result () := rchan_save id (at_id s id) s.
Definition abandon (id why : string) (s : Server) : Server :=
  let '(s, r) := rchan_abandon_out why s (at_id s id) in put_channel id r s.
Definition ok_body (resp : string) : option string :=
  if starts_with "CHANOK|" resp then Some (str_drop 7 resp) else None.

(** [fail]: the attempt is counted and tried again later. *)
Definition try_later (now : Z) (id e : string) (s : Server) w : Server * Net * result () :=
  let s := edit id (λ r, let a := u32 (attempts r + 1) in
                         set_tries a e (now + Z.min 60 (Z.shiftl 1 (Z.min a 6))) r) s in
  ((save id s).1, w, Err e).
(** [rchan_save(id, rc, error); error = e; return false], or with [e] empty the error of
    saving over the one before. *)
Definition superseded (id why e : string) (s : Server) w : Server * Net * result () :=
  ((save id (abandon id why s)).1, w, Err e).

Definition upd_message (id : string) (x : State) (r : RemoteChannel) : string :=
  join "|" ["CHAN"; "UPD"; id; encode_state x; cs_sig (sign_remote_commitment (ch r) x); out_kind r; or_bar (out_extra r)].
Definition rev_message (id : string) (m : Revoke) : string :=
  join "|" ["CHAN"; "REV"; id; to_string (revoked_n m); secret m; next_hash m].

Definition conflicting (e : string) : bool := contains "conflicting pending update" e.
(** Get the peer's signature on [x]. *)
Definition drive_sign (now : Z) (id : string) (x : State) (s : Server) w : Server * Net * result () :=
  let r := at_id s id in
  let m := join "|" ["CHAN"; "UPD"; id; out_state r; cs_sig (sign_remote_commitment (ch r) x); out_kind r;
                     or_bar (out_extra r)] in
  let '(s, w, resp) := request_peer (rpeer r) m s w in
  match resp with
  | Err e =>
      if conflicting e && negb (is_a (ch (at_id s id))) then
        let '(s, y) := save id (abandon id "conflict" s) in
        (s, w, Err (match y with Err e' => e' | Ok _ => e end))
      else if conflicting e then
        let '(s, w, resp) := request_peer (rpeer (at_id s id)) (join "|" ["CHAN"; "ABORT"; id; to_string (st_n x)]) s w in
        try_later now id ("peer: " +:+ match resp with Err e' => e' | Ok _ => e end) s w
      else try_later now id ("peer: " +:+ e) s w
  | Ok resp =>
      match ok_body resp with
      | None => try_later now id "bad peer reply" s w
      | Some sig =>
          let '(c, y) := receive_commit_sig (ch (at_id s id)) x (mkCommitSig (st_n x) sig) in
          match y with
          | Err e => try_later now id e s w
          | Ok _ => (edit id (set_ch c) s, w, Ok ())
          end
      end
  end.
(** Phase [upd]: to a current state that only this side has left. *)
Definition drive_upd (now : Z) (id : string) (x : State) (s : Server) w : Server * Net * result () :=
  let r := at_id s id in
  let other := from_option (λ p, negb (String.eqb (encode_state p) (out_state r))) false (pending (ch r)) in
  if negb (st_n x =? u64 (st_n (cur (ch r)) + 1)) then superseded id "superseded" "proposal superseded" s w
  else if other && negb (is_a (ch r)) then superseded id "conflict" "conflict: peer update wins" s w
  else
    let s := if other then edit id (λ r, set_in "" (pending_since r) (set_ch (drop_pending (ch r)) r)) s else s in
    let '(s, w, y) := if bool_decide (is_Some (pending (ch (at_id s id)))) then (s, w, Ok ()) else drive_sign now id x s w in
    match y with
    | Err e => (s, w, Err e)
    | Ok _ =>
        match revoke_and_advance (ch (at_id s id)) with
        | None => (s, w, Err "")
        | Some (c, _) =>
            let s := edit id (λ r, set_phase "rev" (set_ch c r)) s in
            let '(s, y) := save id s in (s, w, y)
        end
    end.
(** The peer's revocation of the state before, with the update sent again if it was lost. *)
Definition ask_revoke (now : Z) (id : string) (s : Server) w : Server * Net * result string :=
  let r := at_id s id in
  let m := rev_message id (last_revoke (ch r)) in
  let '(s, w, resp) := request_peer (rpeer r) m s w in
  match resp with
  | Ok resp => (s, w, Ok resp)
  | Err e =>
      if negb (contains "no pending update" e) then (s, w, Err ("peer revoke: " +:+ e))
      else
        let r := at_id s id in
        let '(s, w, resp) := request_peer (rpeer r) (upd_message id (cur (ch r)) r) s w in
        match resp with
        | Err e => (s, w, Err ("peer re-UPD: " +:+ e))
        | Ok _ =>
            let '(s, w, resp) := request_peer (rpeer (at_id s id)) m s w in
            (s, w, match resp with Ok resp => Ok resp | Err e => Err ("peer revoke: " +:+ e) end)
        end
  end.
Definition parse_revoke (body : string) : option Revoke :=
  match split_bar "|" body with
  | n :: sec :: next :: _ => n ← number n; Some (mkRevoke n sec next)
  | _ => None
  end.
Definition drive_rev (now : Z) (id : string) (s : Server) w : Server * Net * result () :=
  let '(s, w, resp) := ask_revoke now id s w in
  match resp with
  | Err e => try_later now id e s w
  | Ok resp =>
      match ok_body resp with
      | None => try_later now id "bad peer reply" s w
      | Some body =>
          match parse_revoke body with
          | None => try_later now id "bad peer revoke" s w
          | Some m =>
              let '(c, y) := receive_revoke (ch (at_id s id)) m in
              match y with
              | Err e => try_later now id e s w
              | Ok _ =>
                  let s := edit id (λ r, set_tries 0 "" (next_try r) (set_out "" "" "" "" "" (set_ch c r))) s in
                  let '(s, y) := save id s in (s, w, y)
              end
          end
      end
  end.
Definition drive_phases (now : Z) (id : string) (x : State) (s : Server) w : Server * Net * result () :=
  let '(s, w, y) := if String.eqb (out_phase (at_id s id)) "upd" then drive_upd now id x s w else (s, w, Ok ()) in
  match y with
  | Err e => (s, w, Err e)
  | Ok _ => if String.eqb (out_phase (at_id s id)) "rev" then drive_rev now id s w else (s, w, Ok ())
  end.
(** Advance the outbox as far as possible. *)
Definition rchan_drive (now : Z) (id : string) (s : Server) w : Server * Net * result () :=
  if busy (at_id s id) then (s, w, Err "channel busy")
  else
    match decode_state (out_state (at_id s id)) with
    | None => (edit id (set_phase "") s, w, Err "corrupt outbox")
    | Some x =>
        let '(s, w, y) := drive_phases now id x (edit id (set_busy true) s) w in
        (edit id (set_busy false) s, w, y)
    end.

Definition rchan_propose (now : Z) (id : string) (next : State) (kind extra action : string) (s : Server) w :
    Server * Net * result () :=
  let r := at_id s id in
  if negb (is_empty (out_phase r)) then (s, w, Err "update in flight (rchan_recover)")
  else match validate_next (ch r) next with
       | Err e => (s, w, Err e)
       | Ok _ =>
           let r := set_out "upd" (encode_state next) kind extra (or_bar action) r in
           let s := put_channel id (set_tries 0 (last_error r) 0 r) s in
           match save id s with
           | (s, Err e) => (edit id (set_phase "") s, w, Err e)
           | (s, Ok _) => rchan_drive now id s w
           end
       end.

(** ** The queue *)

(** [FAIL] back to the channel an HTLC came from; [None]: [at] throws. *)
Definition fail_back (up : string) (s : Server) : option Server :=
  match split_bar ":" up with
  | ic :: ih :: _ => Some (push_action (line ["FAIL"; ic; ih]) s)
  | _ => None
  end.
Definition can_propose (r : RemoteChannel) : bool :=
  is_empty (out_phase r) && negb (bool_decide (is_Some (pending (ch r)))) && negb (busy r) &&
  negb (awaiting_remote_revoke (ch r)).

Definition run_forward (now h : Z) (action id up amt ph exp t : string) (s : Server) w : Server * Net * option bool :=
  match number amt, number exp with
  | Some amt, Some exp =>
      let r := at_id s id in
      let me := is_a (ch r) in
      let n := next_state (cur (ch r)) in
      let failed s := match fail_back up s with None => (s, w, None) | Some s => (s, w, Some false) end in
      if (amt =? 0) || (bal n me <? u64 (amt + reserve (ch r))) || (exp <=? u64 (h + 1)) then failed s
      else
        let hid := next_htlc_id n in
        let n := set_htlcs (htlcs n ++ [mkHtlc hid me amt ph exp]) (u64 (hid + 1)) (set_bal me (u64 (bal n me - amt)) n) in
        let key := id +:+ ":" +:+ to_string hid in
        let s := rchan_save_meta (set_links (<[key := up]> (links s)) s) in
        let '(s, w, y) := rchan_propose now id n "ADD" t action s w in
        if negb (is_ok y) && is_empty (out_phase (at_id s id)) then
          let s := set_links (delete key (links s)) s in
          match fail_back up s with None => (s, w, None) | Some s => (s, w, Some false) end
        else (s, w, Some false)
  | _, _ => (s, w, Some false)
  end.
Definition run_removal (now : Z) (action kind id hid : string) (rest : list string) (s : Server) w :
    Server * Net * option bool :=
  match number hid with
  | None => (s, w, Some false)
  | Some hid =>
      let r := at_id s id in
      let me := is_a (ch r) in
      let n := next_state (cur (ch r)) in
      match head (filter (λ x, h_id x = hid) (htlcs n)) with
      | None => (s, w, Some false)
      | Some x =>
          let settle := String.eqb kind "SETTLE" in
          let pre := nth 0 rest "" in
          if Bool.eqb (offered_by_a x) me ||
             settle && (negb (length rest =? 1)%nat || negb (String.eqb (hash_preimage_hex pre) (payment_hash x)))
          then (s, w, Some false)
          else
            let n := set_htlcs (erase_htlc hid (htlcs n)) (next_htlc_id n) (add_bal (Bool.eqb settle me) (h_amount x) n) in
            let '(s, w, _) := rchan_propose now id n kind (if settle then pre else "-") action s w in
            (s, w, Some false)
      end
  end.
(** One queued action; [Some true] leaves it queued, [None] is an exception. *)
Definition rchan_run_action (now h : Z) (action : string) (s : Server) w : Server * Net * option bool :=
  match split_bar " " action with
  | kind :: id :: up :: rest =>
      let open := from_option (λ r, String.eqb (status r) "open") false (rchannels s !! id) in
      if negb open then
        if String.eqb kind "FWD" then
          match split_bar ":" up with
          | [] => (s, w, None)
          | ic :: l => (push_action (line ["FAIL"; ic; List.last (ic :: l) ""]) s, w, Some false)
          end
        else (s, w, Some false)
      else if negb (can_propose (at_id s id)) then (s, w, Some true)
      else if String.eqb kind "FWD" && (length rest =? 4)%nat then
        run_forward now h action id up (nth 0 rest "") (nth 1 rest "") (nth 2 rest "") (nth 3 rest "") s w
      else if String.eqb kind "SETTLE" || String.eqb kind "FAIL" then run_removal now action kind id up rest s w
      else (s, w, Some false)
  | _ => (s, w, Some false)
  end.
(** An exception leaves the rest of the queue behind. *)
Fixpoint run_actions (now h : Z) (l : list string) (s : Server) w : Server * Net * bool :=
  match l with
  | [] => (s, w, true)
  | a :: l =>
      match rchan_run_action now h a s w with
      | (s, w, None) => (s, w, false)
      | (s, w, Some keep) => run_actions now h l (if keep then push_action a s else s) w
      end
  end.

(** ** The periodic step *)

(** A loop over the map of channels, into which messages may insert meanwhile. *)
Definition next_id (after : option string) (s : Server) : option string :=
  head (filter (λ k, from_option (λ a, str_ltb a k) true after = true) (in_name_order (rchannels s)).*1).
Fixpoint each (fuel : nat) (f : string → Server → Net → Server * Net) (after : option string) (s : Server) w :
    Server * Net :=
  match fuel with
  | O => (s, w)
  | S fuel =>
      match next_id after s with
      | None => (s, w)
      | Some id => let '(s, w) := f id s w in each fuel f (Some id) s w
      end
  end.
Definition loop (f : string → Server → Net → Server * Net) (s : Server) w : Server * Net :=
  each (S (size (rchannels s) + length (script w ≫= fst))) f None s w.

Definition resume (now : Z) (id : string) (s : Server) w : Server * Net :=
  let r := at_id s id in
  if negb (String.eqb (status r) "open") || is_empty (out_phase r) || (now <? next_try r) then (s, w)
  else (rchan_drive now id s w).1.
(** A pending state that its proposer has abandoned is dropped. *)
Definition probe (now : Z) (id : string) (s : Server) w : Server * Net :=
  let r := at_id s id in
  if negb (String.eqb (status r) "open") || negb (bool_decide (is_Some (pending (ch r)))) ||
     negb (is_empty (out_phase r)) || (pending_since r =? 0) || (now - pending_since r <? 90) then (s, w)
  else
    let '(s, w, resp) := request_peer (rpeer r) ("CHAN|SYNC|" +:+ id) s w in
    let later := edit id (λ r, set_in (in_effect r) now r) s in
    match resp with
    | Err _ => (later, w)
    | Ok resp =>
        match ok_body resp with
        | None => (later, w)
        | Some body =>
            match split_bar "|" body with
            | [n; ph; _] =>
                if String.eqb n (to_string (st_n (cur (ch (at_id s id))))) && String.eqb ph "-"
                then ((save id (edit id (λ r, set_in "" 0 (set_ch (drop_pending (ch r)) r)) s)).1, w)
                else (later, w)
            | _ => (later, w)
            end
        end
    end.
(** The flag: no exception escaped. *)
Definition rchan_tick (now h : Z) (s : Server) w : Server * Net * bool :=
  let s := rchan_load now s in
  let '(s, w) := loop (resume now) s w in
  let '(s, w) := loop (probe now) s w in
  let todo := actions s in
  let '(s, w, fine) := run_actions now h todo (set_actions [] s) w in
  (if fine then rchan_save_meta s else s, w, fine).
End outbox.
