(* ===== verification/RChannelProofs.v ===== *)
(** * What a peer can do to a channel

    Whatever messages arrive, in whatever order and while whatever is in flight, a channel
    loses nothing of what the node can claim in it but HTLCs whose preimage it was shown;
    such a preimage is passed upstream, and an HTLC is forwarded only against a larger one
    that expires later. *)
From S2P Require Import Prelude Strings Lines Crypto Types Wire Block Script Channel ChannelText ChannelPeer.
From S2P Require Import Onion RChannel RChannelOut.

(** ** Well-formed states *)

(** Sums that do not wrap. *)
Definition exact (s : State) : Prop :=
  0 ≤ bal_a s ∧ 0 ≤ bal_b s ∧ Forall (λ x, 0 ≤ h_amount x) (htlcs s) ∧
  bal_a s + bal_b s + list_sum h_amount (htlcs s) < W64.
#[export] Instance exact_dec s : Decision (exact s).
Proof. unfold exact. apply _. Defined.
Definition hashed (s : State) : Prop := Forall (λ x, String.length (payment_hash x) = 128%nat) (htlcs s).

Lemma exact_htlc s x me : exact s → x ∈ htlcs s → is_u64 (bal s me + h_amount x).
Proof.
  intros (Ha & Hb & Hf & Ht) Hx. rewrite Forall_forall in Hf.
  assert (h_amount x ≤ list_sum h_amount (htlcs s)) by (by apply list_sum_elem_le).
  specialize (Hf x Hx). unfold is_u64, bal. destruct me; lia.
Qed.

(** Every state that a message proposes is exact. *)
Definition exact_text (t : string) : bool :=
  match decode_state t with Some x => bool_decide (exact x) | None => true end.
Definition exact_message (body : string) : bool :=
  forallb (λ t, exact_text t && exact_text (cut "#" t).1) (split_bar "|" body).
Lemma exact_text_state t x : exact_text t = true → decode_state t = Some x → exact x.
Proof. unfold exact_text. intros H E. rewrite E in H. by apply bool_decide_eq_true in H. Qed.

Lemma field_u64_range t v : field_u64 t = Some v → is_u64 v.
Proof.
  unfold field_u64. destruct (stoull 10 t) as [[z r]|] eqn:E; [|done]. cbn. intros [= <-].
  unfold stoull in E. repeat case_match; simplify_eq; apply u64_range.
Qed.
Lemma mapM_Forall {A B} (f : A → option B) (P : B → Prop) l k :
  (∀ x y, f x = Some y → P y) → mapM f l = Some k → Forall P k.
Proof.
  intros Hf H%mapM_Some. induction H as [|x y l k Hxy _ IH]; constructor; eauto.
Qed.
Lemma decode_state_ids t x : decode_state t = Some x → Forall (λ y, is_u64 (h_id y)) (htlcs x).
Proof.
  unfold decode_state. destruct (_ : list string) as [|n [|a [|b [|nx [|hs [|]]]]]]; try done.
  destruct (field_u64 n), (field_u64 a), (field_u64 b), (field_u64 nx); try done. cbn [mbind option_bind].
  destruct (mapM _ _) as [l|] eqn:E; [|done]. intros [= <-]. cbn. eapply mapM_Forall; [|exact E].
  intros s h H. unfold decode_htlc in H. destruct (getlines "," (Some s)) as [|i [|o [|am [|ph [|ex ?]]]]]; try done.
  destruct (field_u64 i) as [v|] eqn:Ei, (field_u64 am), (field_u64 ex); try done. cbn in H. injection H as <-.
  by apply field_u64_range in Ei.
Qed.
Lemma by_id_last hs k : by_id hs !! k = last (filter (λ x, h_id x = k) hs).
Proof.
  induction hs as [|x hs IH] using rev_ind; [done|]. rewrite by_id_snoc, filter_app.
  destruct (decide (h_id x = k)) as [<-|Hne].
  - rewrite lookup_insert_eq, filter_cons_True, filter_nil by done. by rewrite last_snoc.
  - rewrite lookup_insert_ne, filter_cons_False, filter_nil, app_nil_r by done. exact IH.
Qed.

Section proofs.
Context {C : Crypto} {OC : OnionCrypto} {CE : ChanEnv}.

Definition side (r : RemoteChannel) : bool := is_a (ch r).

(** What going from [s] to [p] costs: nothing, or an HTLC of this side whose preimage the
    noted effect holds. *)
Definition harmless (me : bool) (s p : State) (eff : string) : Prop :=
  mclaim me s ≤ mclaim me p ∨
  ∃ y pre, y ∈ htlcs s ∧ offered_by_a y = me ∧ hash_preimage_hex pre = payment_hash y ∧
    eff = line ["SETTLE"; to_string (h_id y); pre] ∧ mclaim me s - h_amount y ≤ mclaim me p.
(** A noted addition is an HTLC of the peer in the pending state. *)
Definition effect_true (me : bool) (p : State) (eff : string) : Prop :=
  ∀ hid t l, split_bar " " eff = "ADD" :: hid :: t :: l →
    ∃ y, hid = to_string (h_id y) ∧ is_u64 (h_id y) ∧ by_id (htlcs p) !! h_id y = Some y ∧ offered_by_a y = negb me.

Record rc_ok (r : RemoteChannel) : Prop := {
  r_exact : exact (cur (ch r)) ∧ hashed (cur (ch r));
  r_sig : remote_sig_cur (ch r) ≠ "";
  r_sig_pending : remote_sig_pending (ch r) ≠ Some "";
  r_pending : ∀ p, pending (ch r) = Some p →
    exact p ∧ hashed p ∧ harmless (side r) (cur (ch r)) p (in_effect r) ∧ effect_true (side r) p (in_effect r);
}.
(** A channel that waits for its funding. *)
Definition opening_ok (r : RemoteChannel) : Prop :=
  pending (ch r) = None ∧ remote_sig_cur (ch r) = "" ∧ remote_sig_pending (ch r) = None.
Record srv_ok (s : Server) : Prop := {
  s_loaded : loaded s = true;
  s_channels : map_Forall (λ _, rc_ok) (rchannels s);
  s_opening : map_Forall (λ _, opening_ok) (opening s);
}.

(** ** What leaves the channels alone *)

Definition books (s s' : Server) : Prop :=
  rchannels s' = rchannels s ∧ opening s' = opening s ∧ loaded s' = loaded s.
#[export] Instance books_preorder : PreOrder books.
Proof. split; [done|]. intros a b c (? & ? & ?) (? & ? & ?). unfold books. by split_and!; etrans. Qed.

Lemma save_meta_books s : books s (rchan_save_meta s).
Proof. unfold rchan_save_meta. by destruct (disk_takes _ _). Qed.
Lemma rchan_save_books id r s : books s (rchan_save id r s).1.
Proof. unfold rchan_save. by destruct (disk_takes _ _). Qed.
Lemma route_key_books s : books s (rchan_route_key s).1.
Proof.
  unfold rchan_route_key. case_match; [done|]. destruct (key_file s ≫= stored_key) as [[]|]; [done|].
  destruct (onion_keygen _) as [[]|]; [|done]. by destruct (disk_takes _ _).
Qed.
Lemma settle_invoice_books id hid w x want s : books s (settle_invoice id hid w x want s).
Proof. unfold settle_invoice. repeat case_match; done. Qed.
Lemma peel_onion_books id hid w t x s : books s (peel_onion id hid w t x s).
Proof.
  unfold peel_onion. pose proof (route_key_books s) as H. destruct (rchan_route_key s) as [s1 r1]. cbn in H.
  etrans; [exact H|]. clear H. repeat case_match; try done.
  etrans; [|apply settle_invoice_books]. done.
Qed.
Lemma apply_effect_frame id s r s' r' :
  rchan_apply_effect id s r = (s', r') → books s s' ∧ r' = set_in "" (pending_since r) r.
Proof.
  unfold rchan_apply_effect, effect_add, effect_remove. intros H.
  repeat case_match; simplify_eq; split; try done; rewrite <-save_meta_books;
    try done; auto using settle_invoice_books, peel_onion_books.
Qed.
Lemma abandon_frame why s r s' r' :
  rchan_abandon_out why s r = (s', r') → books s s' ∧
  (if String.eqb (out_phase r) "upd"
   then ∃ c, r' = set_tries 0 (last_error r) (next_try r) (set_out "" "" "" "" "" (set_ch c r)) ∧
          (c = ch r ∨ ∃ x, c = note_signed_abandoned x (ch r))
   else r' = r).
Proof.
  unfold rchan_abandon_out. destruct (String.eqb (out_phase r) "upd"); cbn [negb]; [|intros; by simplify_eq].
  intros H. injection H as <- <-. split.
  - rewrite <-save_meta_books. by repeat case_match.
  - destruct (decode_state (out_state r)) as [x|]; eexists; (split; [reflexivity|]); eauto.
Qed.

(** ** One channel changes *)

Definition step_to (s : Server) (id : string) (r' : RemoteChannel) (s' : Server) : Prop :=
  rchannels s' = <[id := r']> (rchannels s) ∧ opening s' = opening s ∧ loaded s' = loaded s.
(** Every channel is still there and has lost nothing. *)
Definition kept (s s' : Server) : Prop :=
  ∀ id r, rchannels s !! id = Some r → ∃ r', rchannels s' !! id = Some r' ∧ side r' = side r ∧
    harmless (side r) (cur (ch r)) (cur (ch r')) (in_effect r).

Lemma harmless_refl me s eff : harmless me s s eff.
Proof. left. lia. Qed.
Lemma books_kept s s' : srv_ok s → books s s' → srv_ok s' ∧ kept s s'.
Proof.
  intros [H1 H2 H3] (E1 & E2 & E3). split; [split; by rewrite ?E1, ?E2, ?E3|].
  intros id r Hr. exists r. rewrite E1. split_and!; [done|done|apply harmless_refl].
Qed.
Lemma step_kept s id r r' s' :
  srv_ok s → rchannels s !! id = Some r → step_to s id r' s' → rc_ok r' → side r' = side r →
  harmless (side r) (cur (ch r)) (cur (ch r')) (in_effect r) → srv_ok s' ∧ kept s s'.
Proof.
  intros [H1 H2 H3] Hr (E1 & E2 & E3) Hok Hs Hh. split.
  - split; rewrite ?E1, ?E2, ?E3; [done|by apply map_Forall_insert_2|done].
  - intros id' r0 Hr0. rewrite E1. destruct (decide (id' = id)) as [->|Hne].
    + rewrite Hr in Hr0. simplify_eq. rewrite lookup_insert_eq. by exists r'.
    + rewrite lookup_insert_ne by done. exists r0. split_and!; [done|done|apply harmless_refl].
Qed.
Lemma books_step s id r s0 s' : step_to s id r s0 → books s0 s' → step_to s id r s'.
Proof. intros (?&?&?) (?&?&?). unfold step_to. by split_and!; etrans. Qed.
Lemma step_step s id r r' s0 s' : step_to s id r s0 → step_to s0 id r' s' → step_to s id r' s'.
Proof.
  intros (E1&?&?) (E2&?&?). unfold step_to. split_and!; [|by etrans..]. by rewrite E2, E1, insert_insert_eq.
Qed.
Lemma put_step id r s s0 : books s s0 → step_to s id r (put_channel id r s0).
Proof. intros (E1&?&?). unfold step_to. cbn. by rewrite E1. Qed.
Lemma save_and_reply_step id reply s r : step_to s id r (save_and_reply id reply s r).1.
Proof.
  unfold save_and_reply. pose proof (rchan_save_books id r (put_channel id r s)) as H.
  destruct (rchan_save _ _ _) as [s1 x]. cbn in *. eapply books_step; [by apply put_step|done].
Qed.
Lemma unchanged_kept s : srv_ok s → srv_ok s ∧ kept s s.
Proof. intros H. by apply books_kept. Qed.

(** ** The update protocol of a channel *)

Lemma verified_sig pk m sg : verify_message_signature_hybrid_uncached pk m sg = true → sg ≠ "".
Proof. by intros H ->. Qed.
Lemma validate_next_hashed c next : validate_next c next = Ok () → hashed next.
Proof.
  unfold validate_next. intros H. peel H. apply Forall_forall. intros x Hx.
  apply not_true_iff_false in G5. rewrite existsb_exists in G5.
  destruct (htlc_bad x) eqn:Eb; [destruct G5; exists x; split; [by apply list_elem_of_In|done]|].
  unfold htlc_bad in Eb. apply orb_false_elim in Eb as [_ Eb]. apply negb_false_iff in Eb. by apply Nat.eqb_eq.
Qed.
Lemma receive_commit_sig_Ok c next n sg c' :
  remote_sig_cur c ≠ "" → receive_commit_sig c next (mkCommitSig n sg) = (c', Ok ()) →
  hashed next ∧ sg ≠ "" ∧
  c' = set_states (cur c) (Some next) (remote_sig_cur c) (Some sg) (history c) (abandoned c) c.
Proof.
  intros Hs. unfold receive_commit_sig. rewrite (proj2 (is_empty_false _) Hs), andb_false_r. cbn [cs_n cs_sig].
  destruct (validate_next c next) as [[]|] eqn:Ev; [|done].
  destruct (negb _ || negb _) eqn:Eg; [done|]. intros H. injection H as <-.
  apply orb_false_elim in Eg as [_ Eg%negb_false_iff]. eauto using validate_next_hashed, verified_sig.
Qed.
Lemma receive_revoke_Ok c m c' :
  receive_revoke c m = (c', Ok ()) → ∃ hs ss, c' = set_remote hs ss c.
Proof. unfold receive_revoke. intros H. repeat case_match; simplify_eq. eauto. Qed.

(** The effect noted for an accepted update. *)
Lemma split_line3 a b c : free_of " " a = true → free_of " " b = true → free_of " " c = true → c ≠ "" →
  split_bar " " (line [a; b; c]) = [a; b; c].
Proof. intros. unfold split_bar, line. apply getlines_join; [|done]. unfold clean. repeat (constructor; auto). Qed.
Lemma split_line_head k r :
  free_of " " k = true → k ≠ "" → ∃ l, split_bar " " (k +:+ String " " r) = k :: l.
Proof.
  intros Hk Hne. unfold split_bar, getlines. rewrite split_at_app by done.
  destruct (split_at " " r) as [|x l] eqn:E; cbn [List.last].
  - rewrite (proj2 (is_empty_false _) Hne). eauto.
  - destruct (is_empty _); eauto.
Qed.
Lemma noted_effect local next kind extra h u x :
  exact (cur local) → hashed (cur local) → Forall (λ y, is_u64 (h_id y)) (htlcs next) →
  classify_peer_update local next (if String.eqb kind "SETTLE" then extra else "") h = Ok (u, x) →
  harmless (is_a local) (cur local) next (effect_of u x extra) ∧ effect_true (is_a local) next (effect_of u x extra).
Proof.
  intros Hx Hh Hid H. apply classify_keeps in H; [|intros y Hy; by apply exact_htlc].
  assert (Hk : ∀ k r, free_of " " k = true → k ≠ "" → k ≠ "ADD" → effect_true (is_a local) next (k +:+ String " " r)).
  { intros k r Hf Hne Hadd hid t l Hl. destruct (split_line_head k r Hf Hne) as [l' E']. rewrite E' in Hl. by simplify_eq. }
  destruct u; unfold effect_of.
  - split; [by left|]. by intros hid t l.
  - destruct H as (H & y & -> & Hy & Ho). split; [by left|]. intros hid t l Hl. exists y.
    assert (E' : hid = to_string (h_id y)).
    2: { split_and!; [done| |done..]. apply by_id_lookup in Hy as [Hy _]. rewrite Forall_forall in Hid. by apply Hid. }
    unfold split_bar, getlines, line in Hl. cbn [join from_option] in Hl.
    rewrite split_at_app in Hl by done. rewrite split_at_app in Hl by (by apply to_string_free_of).
    destruct (split_at " " extra) as [|e l0] eqn:Ee; [by destruct (is_empty _)|].
    change (List.last ("ADD" :: to_string (h_id y) :: e :: l0) "") with (List.last (e :: l0) "") in Hl.
    destruct (is_empty _); cbn [removelast] in Hl; [destruct l0|]; by simplify_eq.
  - destruct H as (y & -> & Hy & Ho & Hp & Hle). destruct (String.eqb_spec kind "SETTLE").
    + split; [right; exists y, extra; by split_and!|]. by apply Hk.
    + unfold hashed in Hh. rewrite Forall_forall in Hh. apply Hh in Hy. rewrite <-Hp in Hy. vm_compute in Hy. done.
  - split; [by left|]. by apply Hk.
Qed.

(** ** The handlers *)

Lemma abandon_same why s r s' r' :
  rchan_abandon_out why s r = (s', r') →
  books s s' ∧ side r' = side r ∧ cur (ch r') = cur (ch r) ∧ in_effect r' = in_effect r ∧
  pending (ch r') = pending (ch r) ∧ remote_sig_cur (ch r') = remote_sig_cur (ch r) ∧
  remote_sig_pending (ch r') = remote_sig_pending (ch r).
Proof.
  intros [Hb H]%abandon_frame. split; [done|]. destruct (String.eqb _ _); [|by subst].
  by destruct H as (c & -> & [-> | [x ->]]).
Qed.
(** Making room forgets only the pending state. *)
Lemma make_room_ok s r s' r' m :
  make_room s r = (s', r', m) → rc_ok r →
  books s s' ∧ rc_ok r' ∧ side r' = side r ∧ cur (ch r') = cur (ch r) ∧ (is_ok m = true → pending (ch r') = None).
Proof.
  unfold make_room. intros H Hr.
  destruct (bool_decide (is_Some (pending (ch r)))) eqn:Ep; cbn [andb] in H.
  - destruct (is_a (ch r)) eqn:Ea; [by simplify_eq|].
    assert (Hd : rc_ok (set_in "" (pending_since r) (set_ch (drop_pending (ch r)) r))) by (destruct Hr; by split).
    set (r0 := set_in _ _ _) in *. destruct (String.eqb (out_phase r0) "rev"); [by simplify_eq|].
    destruct (String.eqb (out_phase r0) "upd"); [|by simplify_eq].
    destruct (is_a (ch r0)); [by simplify_eq|].
    destruct (rchan_abandon_out "conflict" s r0) as [s1 r1] eqn:Eo. injection H as <- <- <-.
    apply abandon_same in Eo as (Hb & H1 & H2 & H3 & H4 & H5 & H6).
    split_and!; [done| |by rewrite H1|by rewrite H2|by rewrite H4].
    destruct Hd as [D1 D2 D3 D4]. split; unfold side in *; rewrite ?H1, ?H2, ?H3, ?H4, ?H5, ?H6; done.
  - apply bool_decide_eq_false in Ep. rewrite <-eq_None_not_Some in Ep.
    destruct (String.eqb (out_phase r) "rev"); [by simplify_eq|].
    destruct (String.eqb (out_phase r) "upd"); [|by simplify_eq].
    destruct (is_a (ch r)); [by simplify_eq|].
    destruct (rchan_abandon_out "conflict" s r) as [s1 r1] eqn:Eo. injection H as <- <- <-.
    apply abandon_same in Eo as (Hb & H1 & H2 & H3 & H4 & H5 & H6).
    split_and!; [done| |done|done|by rewrite H4].
    destruct Hr as [D1 D2 D3 D4]. split; unfold side in *; rewrite ?H1, ?H2, ?H3, ?H4, ?H5, ?H6; done.
Qed.

Lemma accept_upd_kept now h s id r st sig kind extra :
  srv_ok s → rchannels s !! id = Some r → exact_text st = true →
  let s' := (accept_upd now h s id r st sig kind extra).1 in srv_ok s' ∧ kept s s'.
Proof.
  intros Hs Hr Hst. pose proof (s_channels s Hs id r Hr) as Hok. unfold accept_upd.
  destruct (decode_state st) as [next|] eqn:Ed; [|by apply unchanged_kept].
  pose proof (exact_text_state st next Hst Ed) as Hx.
  destruct (from_option _ _ _); [by apply unchanged_kept|].
  destruct (make_room s r) as [[s1 r1] m] eqn:Em. apply make_room_ok in Em as (Hb & Hr1 & Hs1 & Hc1 & _); [|done].
  assert (Hput : srv_ok (put_channel id r1 s1) ∧ kept s (put_channel id r1 s1)).
  { eapply step_kept; [done|done|by apply put_step|done|done|]. rewrite Hc1. apply harmless_refl. }
  destruct m as [[]|e]; [|exact Hput].
  destruct (classify_peer_update _ _ _ _) as [[u x]|] eqn:Ec; [|exact Hput].
  destruct (_ && _); [exact Hput|].
  destruct (receive_commit_sig _ _ _) as [c [[]|]] eqn:Er; [|exact Hput].
  apply receive_commit_sig_Ok in Er as (Hh & Hsg & ->); [|apply (r_sig _ Hr1)].
  destruct (r_exact _ Hr1) as [He1 Hh1]. apply noted_effect in Ec as [E1 E2]; [|done|done|by eapply decode_state_ids].
  set (r2 := set_in _ _ _). eapply (step_kept s id r r2); [done|done| | |done|].
  - eapply step_step; [apply put_step; exact Hb|apply save_and_reply_step].
  - split; cbn; [by split|apply (r_sig _ Hr1)|congruence|]. by intros p [= <-].
  - cbn. rewrite Hc1. apply harmless_refl.
Qed.
Lemma handle_upd_kept now h s id r f :
  srv_ok s → rchannels s !! id = Some r → forallb exact_text f = true →
  let s' := (handle_upd now h s id r f).1 in srv_ok s' ∧ kept s s'.
Proof.
  intros Hs Hr Hf. unfold handle_upd. rewrite forallb_forall in Hf.
  destruct f as [|f0 [|f1 [|st [|sig [|kd [|ex [|? ?]]]]]]]; try (by apply unchanged_kept);
    apply accept_upd_kept; try done; apply Hf; cbn; auto.
Qed.

Lemma handle_rev_kept s id r f :
  srv_ok s → rchannels s !! id = Some r → let s' := (handle_rev s id r f).1 in srv_ok s' ∧ kept s s'.
Proof.
  intros Hs Hr. pose proof (s_channels s Hs id r Hr) as Hok. unfold handle_rev.
  destruct f as [|? [|? [|n [|sec [|next [|]]]]]]; try (by apply unchanged_kept).
  destruct (number n) as [v|]; [|by apply unchanged_kept].
  destruct (negb _); [destruct (_ && _); by apply unchanged_kept|].
  destruct (String.eqb (fault s) "drop_rev"); [by apply books_kept|].
  destruct (receive_revoke _ _) as [c [[]|]] eqn:Er; [|by apply unchanged_kept].
  apply receive_revoke_Ok in Er as (hs & ss & ->).
  destruct (revoke_and_advance _) as [[c mine]|] eqn:Ea; [|by apply unchanged_kept].
  unfold revoke_and_advance in Ea. cbn in Ea. destruct (pending (ch r)) as [p|] eqn:Ep; [|done].
  destruct (remote_sig_pending (ch r)) as [sg|] eqn:Es; [|done]. injection Ea as <- <-.
  destruct (r_pending r Hok p Ep) as (Hx & Hh & Hha & Het).
  set (r1 := set_in (in_effect r) 0 _). destruct (rchan_apply_effect id s r1) as [sa r2] eqn:Ee.
  apply apply_effect_frame in Ee as [Hb ->]. set (r3 := set_in "" _ r1). pose proof (λ m, save_and_reply_step id m sa r3) as Hst.
  match goal with |- context [save_and_reply id ?m _ _] => specialize (Hst m) end.
  destruct (save_and_reply _ _ _ _) as [sb x]. cbn in Hst.
  assert (Hk : srv_ok sb ∧ kept s sb).
  { apply (step_kept s id r r3); [done|done| | |done|exact Hha].
    - destruct Hst as (E1 & E2 & E3), Hb as (B1 & B2 & B3). unfold step_to. by rewrite E1, E2, E3, B1, B2, B3.
    - split; cbn; [done| |done|done]. pose proof (r_sig_pending r Hok). congruence. }
  destruct x; [|exact Hk]. destruct (String.eqb (fault sb) "drop_rev_reply"); [|exact Hk].
  destruct Hk as [[] ?]. split; [by split|done].
Qed.
Lemma handle_abort_kept s id r f :
  srv_ok s → rchannels s !! id = Some r → let s' := (handle_abort s id r f).1 in srv_ok s' ∧ kept s s'.
Proof.
  intros Hs Hr. pose proof (s_channels s Hs id r Hr) as Hok. unfold handle_abort.
  destruct ((f !! 2%nat) ≫= number) as [n|]; [|by apply unchanged_kept].
  destruct (from_option _ _ _); [|by apply unchanged_kept].
  eapply step_kept; [done|done|apply save_and_reply_step| |done|apply harmless_refl].
  destruct Hok. by split.
Qed.
Lemma handle_close_kept s id r :
  srv_ok s → rchannels s !! id = Some r → let s' := (handle_close s id r).1 in srv_ok s' ∧ kept s s'.
Proof.
  intros Hs Hr. pose proof (s_channels s Hs id r Hr) as Hok. unfold handle_close.
  destruct (_ || _); [by apply unchanged_kept|].
  eapply step_kept; [done|done|apply save_and_reply_step| |done|apply harmless_refl].
  destruct Hok. by split.
Qed.

Lemma set_tables_kept s op :
  srv_ok s → map_Forall (λ _, opening_ok) op → srv_ok (set_tables (rchannels s) op s) ∧ kept s (set_tables (rchannels s) op s).
Proof.
  intros [H1 H2 H3] Ho. split; [by split|]. intros id r Hr. exists r. split_and!; [done|done|apply harmless_refl].
Qed.
Lemma kept_trans_same s s1 s2 : rchannels s1 = rchannels s → kept s1 s2 → kept s s2.
Proof. intros E1 H id r Hr. apply H. by rewrite E1. Qed.
Lemma handle_open_kept s f : srv_ok s → let s' := (handle_open s f).1 in srv_ok s' ∧ kept s s'.
Proof.
  intros Hs. unfold handle_open.
  destruct f as [|? [|tmp [|w [|ep [|aa [|pa [|cap [|push [|h0 [|h1 [|]]]]]]]]]]]; try (by apply unchanged_kept).
  destruct (negb _); [by apply unchanged_kept|].
  set (sa := if (64 <? size (opening s))%nat then _ else s).
  assert (H1 : srv_ok sa ∧ kept s sa).
  { subst sa. destruct (_ <? _)%nat; [by apply set_tables_kept|by apply unchanged_kept]. }
  destruct (load_wallet_keys w) as [kb|]; [|exact H1].
  destruct (number cap) as [cp|], (number push) as [ps|]; try exact H1. destruct (_ || _); [exact H1|].
  assert (Hd : srv_ok (draw sa) ∧ kept s (draw sa)) by (destruct H1 as [[] ?]; by split).
  destruct (random_hex (drawn sa)) as [sd|]; [|exact Hd].
  set (c := set_remote_initial_hashes h0 h1 _). destruct (initial_hashes c) as [g0 g1]. cbn [fst].
  destruct Hd as [[D1 D2 D3] Dk]. split; [split; [done|done|]|exact Dk].
  apply map_Forall_insert_2; [done|exact D3].
Qed.
Lemma handle_fund_kept s f :
  srv_ok s → forallb (λ t, exact_text (cut "#" t).1) f = true → let s' := (handle_fund s f).1 in srv_ok s' ∧ kept s s'.
Proof.
  intros Hs Hf. unfold handle_fund. rewrite forallb_forall in Hf.
  destruct f as [|? [|tmp [|id [|txid [|vout [|sig [|]]]]]]]; try (by apply unchanged_kept).
  destruct (opening s !! tmp) as [r|] eqn:Er; [|by apply unchanged_kept].
  pose proof (s_opening s Hs tmp r Er) as (O1 & O2 & O3).
  destruct (negb (safe_id id)) eqn:Esi; [by apply unchanged_kept|].
  destruct (rchannels s !! id) as [r0|] eqn:Ei; [by apply unchanged_kept|]. cbn [orb is_Some].
  rewrite bool_decide_false by (intros [? ?]; congruence).
  assert (H1 : srv_ok (set_tables (rchannels s) (delete tmp (opening s)) s) ∧
    kept s (set_tables (rchannels s) (delete tmp (opening s)) s)).
  { apply set_tables_kept; [done|]. apply map_Forall_delete, (s_opening s Hs). }
  set (sa := set_tables _ _ s) in *. destruct (number vout) as [v|]; [|exact H1].
  destruct (negb (String.eqb _ _)); [exact H1|].
  set (c := set_funding txid (u32 v) (ch r)).
  destruct (initial_state sig (capacity (info c))) as [[st0 sg]|] eqn:Et; [|exact H1].
  destruct (receive_commit_sig c st0 (mkCommitSig 0 sg)) as [c1 [[]|]] eqn:Ec; [|exact H1].
  pose proof (rchan_save_books id (set_ch c1 r) sa) as Hb. destruct (rchan_save _ _ _) as [sb x]. cbn in Hb.
  destruct H1 as [Hs1 Hk1]. pose proof Hb as Hb0. apply books_kept in Hb as [Hs2 Hk2]; [|done].
  destruct x as [[]|]; [|split; [done|by eapply kept_trans_same]].
  destruct Hb0 as (B1 & B2 & B3). split.
  - destruct Hs2 as [S1 S2 S3]. split; [done| |done]. apply map_Forall_insert_2; [|done].
    unfold initial_state in Et. destruct (cut "#" sig) as [st [sg'|]] eqn:Ecut; [|done].
    destruct (decode_state st) as [x0|] eqn:Ed; [|done]. destruct (_ && _) eqn:Eb in Et; [|done]. injection Et as -> ->.
    apply andb_prop in Eb as [Eb _]. apply andb_prop in Eb as [En Eh].
    apply bool_decide_eq_true in Eh. assert (Hx : exact st0).
    { apply (exact_text_state st); [|done]. specialize (Hf sig). rewrite Ecut in Hf. apply Hf. cbn. tauto. }
    unfold receive_commit_sig in Ec. assert (Ei0 : remote_sig_cur c = "") by done. rewrite Ei0, En in Ec.
    cbn [is_empty String.eqb andb cs_n cs_sig] in Ec. destruct (negb _ || negb _) eqn:Eg in Ec; [done|]. injection Ec as <-.
    apply orb_false_elim in Eg as [_ Eg%negb_false_iff].
    split; cbn; [split; [done|]|by eapply verified_sig|by rewrite O3|by rewrite O1].
    unfold hashed. rewrite Eh. constructor.
  - intros id' r' Hr'. exists r'. cbn. rewrite B1. rewrite lookup_insert_ne by congruence.
    split_and!; [done|done|apply harmless_refl].
Qed.

Lemma message_kept now h s body :
  srv_ok s → exact_message body = true →
  let s' := (handle_channel_message now h s body).1 in srv_ok s' ∧ kept s s'.
Proof.
  intros Hs Hx.
  unfold handle_channel_message, rchan_load. rewrite (s_loaded s Hs). unfold exact_message in Hx.
  set (f := split_bar "|" body) in *. clearbody f.
  assert (H1 : forallb exact_text f = true ∧ forallb (λ t, exact_text (cut "#" t).1) f = true).
  { clear -Hx. induction f as [|t f IH]; [done|]. cbn in *. bools. rewrite H, H1. by apply IH. }
  destruct H1 as [H1 H2]. destruct f as [|op rest]; [by apply unchanged_kept|].
  destruct (String.eqb op "OPEN"); [by apply handle_open_kept|].
  destruct (String.eqb op "RKEY").
  { pose proof (route_key_books s) as Hb. destruct (rchan_route_key s) as [sa x]. by apply books_kept. }
  destruct (String.eqb op "FUND"); [by apply handle_fund_kept|].
  destruct rest as [|id rest]; [by apply unchanged_kept|].
  destruct (rchannels s !! id) as [r|] eqn:Er; [|by apply unchanged_kept].
  destruct (busy r); [by apply unchanged_kept|]. destruct (String.eqb op "SYNC"); [by apply unchanged_kept|].
  destruct (negb _); [by apply unchanged_kept|].
  destruct (String.eqb op "UPD"); [by apply handle_upd_kept|].
  destruct (String.eqb op "REV"); [by apply handle_rev_kept|].
  destruct (String.eqb op "ABORT"); [by apply handle_abort_kept|].
  destruct (String.eqb op "CLOSE"); [by apply handle_close_kept|].
  by apply unchanged_kept.
Qed.


(** ** What is queued *)

Definition queues (P : string → Prop) (s s' : Server) : Prop := ∃ l, actions s' = actions s ++ l ∧ Forall P l.
Lemma queues_none P s s' : actions s' = actions s → queues P s s'.
Proof. intros H. exists []. by rewrite app_nil_r. Qed.
Lemma queues_push P s s0 a : actions s0 = actions s → P a → queues P s (push_action a s0).
Proof. intros H Ha. exists [a]. cbn. rewrite H. by repeat constructor. Qed.
Lemma queues_same P s s1 s2 : queues P s s1 → actions s2 = actions s1 → queues P s s2.
Proof. intros (l & H & Hl) E. exists l. by rewrite E. Qed.

Lemma save_meta_actions s : actions (rchan_save_meta s) = actions s.
Proof. unfold rchan_save_meta. by destruct (disk_takes _ _). Qed.
Lemma rchan_save_actions id r s : actions (rchan_save id r s).1 = actions s.
Proof. unfold rchan_save. by destruct (disk_takes _ _). Qed.
Lemma route_key_actions s : actions (rchan_route_key s).1 = actions s.
Proof.
  unfold rchan_route_key. case_match; [done|]. destruct (key_file s ≫= stored_key) as [[]|]; [done|].
  destruct (onion_keygen _) as [[]|]; [|done]. by destruct (disk_takes _ _).
Qed.

(** A forward of [x], which came over the channel [id]: at most its amount, expiring before
    it, to a channel of this node. *)
Definition forward_of (s : Server) (id : string) (x : Htlc) (a : string) : Prop :=
  starts_with "FWD " a = true →
  ∃ nc amt exp t, a = line ["FWD"; nc; id +:+ ":" +:+ to_string (h_id x); to_string amt; payment_hash x; to_string exp; t] ∧
    is_Some (rchannels s !! nc) ∧ amt ≠ 0 ∧ amt ≤ h_amount x ∧ exp < h_expiry x.
Lemma not_forward_text k r : k = "FAIL" ∨ k = "SETTLE" → starts_with "FWD " (line (k :: r)) ≠ true.
Proof. by intros [-> | ->]; destruct r. Qed.
Lemma not_forward s id x k r : k = "FAIL" ∨ k = "SETTLE" → forward_of s id x (line (k :: r)).
Proof. intros Hk H. by apply not_forward_text in H. Qed.

Lemma settle_invoice_queues id hid w x want s :
  queues (forward_of s id x) s (settle_invoice id hid w x want s).
Proof.
  assert (Hfail : queues (forward_of s id x) s (push_action (line ["FAIL"; id; hid]) s)).
  { apply queues_push; [done|]. apply not_forward. auto. }
  unfold settle_invoice. destruct (invoices s !! _) as [t|]; [|done].
  destruct (split_bar " " t) as [|iw [|ia [|ip ?]]]; [done..|]. destruct (_ && _); [|done].
  eapply queues_same; [apply (queues_push _ s s (line ["SETTLE"; id; hid; ip])); [done|]|done]. apply not_forward. auto.
Qed.
Lemma peel_onion_queues id w t x s :
  queues (forward_of s id x) s (peel_onion id (to_string (h_id x)) w t x s).
Proof.
  unfold peel_onion. pose proof (route_key_books s) as (Hb & _ & _). pose proof (route_key_actions s) as Ha.
  destruct (rchan_route_key s) as [sa y]. cbn in Ha, Hb.
  assert (Hfail : ∀ s0, actions s0 = actions s → queues (forward_of s id x) s (push_action (line ["FAIL"; id; to_string (h_id x)]) s0)).
  { intros s0 E. apply queues_push; [done|]. apply not_forward. auto. }
  destruct y; [|by apply Hfail]. destruct (hex_to_bytes _) as [pkt|]; [|by apply Hfail].
  destruct (peel _ _ _) as [pl|]; [|by apply Hfail]. case_bool_decide; [by apply Hfail|].
  set (sb := set_onion _ _ _ sa). destruct (p_final pl).
  - destruct (_ <? _); [by apply Hfail|].
    destruct (settle_invoice_queues id (to_string (h_id x)) w x (p_amount pl) sb) as (l & E & Hl).
    exists l. rewrite E. cbn. rewrite Ha. split; [done|]. eapply Forall_impl; [exact Hl|]. intros act Hf H1.
    destruct (Hf H1) as (nc & amt & exp & t' & ? & Hnc & ?). exists nc, amt, exp, t'. cbn in Hnc. by rewrite Hb in Hnc.
  - destruct (_ || _) eqn:Eo; [by apply Hfail|]. bools. apply queues_push; [by cbn; rewrite Ha|]. intros _.
    exists (p_next_chan pl), (p_amount pl), (p_expiry pl), ("O" +:+ bytes_to_hex (of_bytes (next_packet pl))).
    cbn in *. rewrite Hb in *. repeat match goal with H : bool_decide _ = false |- _ => apply bool_decide_eq_false in H end.
    split_and!; [done|by apply not_eq_None_Some|lia..].
Qed.

Lemma split_settle id pre : is_u64 id → all_chars is_hex_char pre = true → pre ≠ "" →
  split_bar " " (line ["SETTLE"; to_string id; pre]) = ["SETTLE"; to_string id; pre].
Proof.
  intros Hid Hp Hne. apply split_line3; try done; [by apply to_string_free_of|].
  eapply all_chars_impl; [|exact Hp]. intros c Hc. apply negb_true_iff, Ascii.eqb_neq. by intros <-.
Qed.
Lemma preimage_hex pre h : hash_preimage_hex pre = h → h ≠ "" → all_chars is_hex_char pre = true ∧ pre ≠ "".
Proof.
  unfold hash_preimage_hex. destruct (hex_to_bytes pre) as [b|] eqn:E; [|by intros <-]. intros _ _.
  unfold hex_to_bytes in E. destruct (is_hex_strict pre kMaxHexLen) as [[]|] eqn:Es; [|done].
  unfold is_hex_strict in Es. peel Es. split; [by apply negb_false_iff|by apply is_empty_false].
Qed.

Lemma apply_effect_queues id s r p s' r' :
  cur (ch r) = p → effect_true (side r) p (in_effect r) → rchan_apply_effect id s r = (s', r') →
  queues (λ a, starts_with "FWD " a = true →
    ∃ x, x ∈ htlcs p ∧ offered_by_a x = negb (side r) ∧ forward_of s id x a) s s'.
Proof.
  intros Hp He. unfold rchan_apply_effect. destruct (split_bar " " (in_effect r)) as [|k [|hid [|t l]]] eqn:Es;
    intros H; simplify_eq; try by apply queues_none.
  destruct (number hid) as [v|] eqn:Ev; [|simplify_eq; by apply queues_none].
  assert (Hno : ∀ s0, actions s0 = actions s → queues (λ a, starts_with "FWD " a = true →
    ∃ x, x ∈ htlcs (cur (ch r)) ∧ offered_by_a x = negb (side r) ∧ forward_of s id x a) s (rchan_save_meta s0)).
  { intros s0 E0. apply queues_none. by rewrite save_meta_actions. }
  destruct (String.eqb_spec k "ADD") as [->|Hne].
  - destruct (He hid t l Es) as (y & -> & Hy & Hby & Ho). rewrite number_to_string in Ev by done. injection Ev as <-.
    unfold effect_add in H. rewrite <-by_id_last, Hby in H. apply by_id_lookup in Hby as [Hin _]. injection H as <- _.
    eapply queues_same; [|by rewrite save_meta_actions].
    assert (Hw : ∀ s0, queues (forward_of s id y) s s0 → queues (λ a, starts_with "FWD " a = true →
      ∃ x, x ∈ htlcs (cur (ch r)) ∧ offered_by_a x = negb (side r) ∧ forward_of s id x a) s s0).
    { intros s0 (q & Eq & Hq). exists q. split; [done|]. eapply Forall_impl; [exact Hq|]. intros a Ha _. by exists y. }
    apply Hw. destruct (starts_with "O" t); [by apply peel_onion_queues|].
    destruct (split_bar "," t) as [|e ?]; [apply settle_invoice_queues|]. destruct (String.eqb e "-"); [apply settle_invoice_queues|].
    apply queues_push; [done|]. apply not_forward. auto.
  - destruct (_ || _) eqn:Ek; [|injection H as <- _; by apply Hno]. injection H as <- _.
    eapply queues_same; [|by rewrite save_meta_actions]. unfold effect_remove.
    assert (Hk : k = "FAIL" ∨ k = "SETTLE") by (apply orb_prop in Ek as [Ek%String.eqb_eq|Ek%String.eqb_eq]; auto).
    destruct (links s !! _) as [up|].
    + destruct (split_bar ":" up) as [|ic [|ih [|? ?]]]; try (by apply queues_none).
      eapply queues_same; [apply (queues_push _ s s (if String.eqb k "SETTLE" then line [k; ic; ih; t] else line [k; ic; ih])); [done|]|done].
      intros Hf. by destruct (String.eqb k "SETTLE"); apply not_forward_text in Hf.
    + destruct (bool_decide _); by apply queues_none.
Qed.
Lemma apply_effect_settles id s r y pre ic ih s' r' :
  is_u64 (h_id y) → hash_preimage_hex pre = payment_hash y → String.length (payment_hash y) = 128%nat →
  in_effect r = line ["SETTLE"; to_string (h_id y); pre] →
  links s !! (id +:+ ":" +:+ to_string (h_id y)) = Some (ic +:+ ":" +:+ ih) →
  free_of ":" ic = true → free_of ":" ih = true → ih ≠ "" →
  rchan_apply_effect id s r = (s', r') → actions s' = actions s ++ [line ["SETTLE"; ic; ih; pre]].
Proof.
  intros Hid Hh Hl He Hli Hic Hih Hne. unfold rchan_apply_effect.
  destruct (preimage_hex pre _ Hh) as [Hx Hp]; [by destruct (payment_hash y)|].
  rewrite He, split_settle by done. rewrite number_to_string by done. cbn [String.eqb Ascii.eqb Bool.eqb orb].
  intros H. injection H as <- _. rewrite save_meta_actions. unfold effect_remove. rewrite Hli.
  assert (Es : split_bar ":" (ic +:+ ":" +:+ ih) = [ic; ih]).
  { unfold split_bar. change (ic +:+ ":" +:+ ih) with (join ":" [ic; ih]). apply getlines_join; [|done].
    unfold clean. by repeat constructor. }
  rewrite Es. done.
Qed.

(** C17. A revocation is refused and changes nothing, or makes the pending state current and
    carries out what was noted with it: an HTLC is forwarded only if the peer offered it,
    against a larger amount and a later expiry, and a preimage that took an HTLC of this
    node is queued to claim the HTLC it was forwarded from. *)
Theorem revoked_in_effects s id r p f s' x r' :
  srv_ok s → rchannels s !! id = Some r → pending (ch r) = Some p → handle_rev s id r f = (s', x) →
  rchannels s' !! id = Some r' →
  (r' = r ∧ actions s' = actions s) ∨
  cur (ch r') = p ∧
  (∃ new, actions s' = actions s ++ new ∧ ∀ a, a ∈ new → starts_with "FWD " a = true →
     ∃ y nc amt exp t, y ∈ htlcs p ∧ offered_by_a y = negb (side r) ∧
       a = line ["FWD"; nc; id +:+ ":" +:+ to_string (h_id y); to_string amt; payment_hash y; to_string exp; t] ∧
       is_Some (rchannels s !! nc) ∧ amt ≠ 0 ∧ amt ≤ h_amount y ∧ exp < h_expiry y) ∧
  (∀ y pre ic ih, y ∈ htlcs (cur (ch r)) → is_u64 (h_id y) → hash_preimage_hex pre = payment_hash y →
     in_effect r = line ["SETTLE"; to_string (h_id y); pre] →
     links s !! (id +:+ ":" +:+ to_string (h_id y)) = Some (ic +:+ ":" +:+ ih) →
     free_of ":" ic = true → free_of ":" ih = true → ih ≠ "" →
     line ["SETTLE"; ic; ih; pre] ∈ actions s').
Proof.
  intros Hs Hr Hp H Hr'. pose proof (s_channels s Hs id r Hr) as Hok. unfold handle_rev in H.
  assert (Hsame : s' = s → r' = r ∧ actions s' = actions s) by (intros ->; split; congruence).
  destruct f as [|? [|? [|n [|sec [|next [|]]]]]]; try (left; apply Hsame; congruence).
  destruct (number n) as [v|]; [|left; apply Hsame; congruence].
  rewrite Hp in H. rewrite bool_decide_true in H by done. cbn [negb] in H.
  destruct (String.eqb (fault s) "drop_rev"); [left; injection H as <- _; cbn in Hr'; split; [congruence|done]|].
  destruct (receive_revoke _ _) as [c [[]|]] eqn:Er; [|left; apply Hsame; congruence].
  apply receive_revoke_Ok in Er as (hs & ss & ->).
  destruct (revoke_and_advance _) as [[c mine]|] eqn:Ea; [|left; apply Hsame; congruence].
  unfold revoke_and_advance in Ea. cbn in Ea. rewrite Hp in Ea.
  destruct (remote_sig_pending (ch r)) as [sg|]; [|done]. injection Ea as <- <-.
  destruct (r_pending r Hok p Hp) as (_ & _ & _ & Het).
  set (r1 := set_in (in_effect r) 0 _) in H. destruct (rchan_apply_effect id s r1) as [sa r2] eqn:Ee.
  pose proof (apply_effect_queues id s r1 p sa r2 eq_refl Het Ee) as (new & Hn & Hf).
  pose proof (λ y pre ic ih Hid Hh Hl He Hli Hic Hih Hne,
    apply_effect_settles id s r1 y pre ic ih sa r2 Hid Hh Hl He Hli Hic Hih Hne Ee) as Hset.
  apply apply_effect_frame in Ee as [_ ->]. set (r3 := set_in "" _ r1) in H.
  destruct (save_and_reply _ _ _ _) as [sb y] eqn:Esv in H.
  assert (Hsb : rchannels sb !! id = Some r3 ∧ actions sb = actions sa).
  { pose proof (f_equal fst Esv) as E. cbn in E. rewrite <-E. unfold save_and_reply.
    pose proof (rchan_save_books id r3 (put_channel id r3 sa)) as (B & _). pose proof (rchan_save_actions id r3 (put_channel id r3 sa)) as A.
    destruct (rchan_save _ _ _) as [sc z]. cbn in *. rewrite B. split; [apply lookup_insert_eq|done]. }
  destruct Hsb as [Hsb Hab].
  assert (Hs' : rchannels s' = rchannels sb ∧ actions s' = actions sb).
  { destruct y; [destruct (String.eqb _ _)|]; by injection H as <- _. }
  destruct Hs' as [E1 E2]. rewrite E1, Hsb in Hr'. injection Hr' as <-. right. rewrite E2, Hab. split; [done|]. split.
  - exists new. split; [done|]. intros a Ha Hfw. rewrite Forall_forall in Hf.
    destruct (Hf a Ha Hfw) as (z & Hz & Ho & Hfo). destruct (Hfo Hfw) as (nc & amt & exp & t & ? & ? & ? & ? & ?).
    exists z, nc, amt, exp, t. by split_and!.
  - intros z pre ic ih Hz Hid Hh He Hli Hic Hih Hne.
    assert (Hlen : String.length (payment_hash z) = 128%nat).
    { destruct (r_exact r Hok) as [_ Hh']. unfold hashed in Hh'. rewrite Forall_forall in Hh'. by apply Hh'. }
    rewrite (Hset z pre ic ih Hid Hh Hlen He Hli Hic Hih Hne), elem_of_app. right. by left.
Qed.
End proofs.
