(* ===== verification/RChannelUpdate.v ===== *)
(** * An update between two nodes is an update of the channel

    The outbox of the proposer and the message handlers of its peer, over a network that
    delivers, do to the two ends what [Channel.update] does to a pair of channels. *)
From S2P Require Import Prelude Strings Lines Crypto Types Wire Block Script Channel ChannelText ChannelPeer.
From S2P Require Import ChannelPenalty Onion RChannel RChannelOut RChannelProofs.

Section update.
Context {C : Crypto} {OC : OnionCrypto} {CE : ChanEnv}.

(** ** Texts *)

Definition wire_field (s : string) : Prop := free_of "|" s = true.
Lemma to_string_field z : wire_field (to_string z).
Proof. by apply to_string_free_of. Qed.
Lemma hex_field s : all_chars is_hex_char s = true → wire_field s.
Proof. intros H. apply (all_chars_free _ is_hex_char); [done|]. intros d Hd. by apply hex_char_not. Qed.
Lemma to_hex_field b : wire_field (to_hex b).
Proof. apply hex_field, bytes_to_hex_chars. Qed.
Lemma hash_field pre : wire_field (hash_preimage_hex pre).
Proof. unfold hash_preimage_hex. destruct (hex_to_bytes pre); [apply to_hex_field|done]. Qed.
Lemma verified_field pk m sg : verify_message_signature_hybrid_uncached pk m sg = true → wire_field sg.
Proof.
  unfold verify_message_signature_hybrid_uncached. intros H.
  apply andb_prop in H as [[Hpq _]%andb_prop H]. apply andb_prop in H as [_ H].
  destruct (get_scheme_sizes _) as [sz|]; [|done]. apply andb_prop in H as [_ H]. apply andb_prop in H as [Hsg _].
  assert (Hx : all_chars is_hex_char (substr_from sg 3) = true).
  { revert Hsg. unfold is_hex_strict. repeat (case_match; [done|]). intros _. by apply negb_false_iff. }
  rewrite (starts_with_app _ _ Hpq). unfold wire_field. rewrite free_of_app. apply andb_true_intro.
  split; [done|]. by apply hex_field.
Qed.
Definition state_field (s : State) : Prop := state_text_ok s ∧ Forall (λ x, wire_field (payment_hash x)) (htlcs s).
Lemma encode_field s : state_field s → wire_field (encode_state s).
Proof.
  intros [_ Hf]. apply free_of_join; [done|]. unfold clean. repeat (constructor; [apply to_string_field|]).
  constructor; [|done]. apply free_of_join; [done|]. apply Forall_fmap. eapply Forall_impl; [exact Hf|].
  intros x Hx. by apply encode_htlc_free.
Qed.
Lemma split_fields ws : Forall wire_field ws → List.last ws "" ≠ "" → split_bar "|" (join "|" ws) = ws.
Proof. intros. by apply getlines_join. Qed.
Lemma ok_body_chanok s : ok_body ("CHANOK|" +:+ s) = Some s.
Proof. unfold ok_body. by destruct s. Qed.

(** ** What an update exchanges *)

Lemma validated c next : validate_next c next = Ok () → pending c = None ∧ st_n next = u64 (st_n (cur c) + 1).
Proof.
  unfold validate_next. intros H. peel H. apply bool_decide_eq_false in G. split.
  - by apply eq_None_not_Some.
  - bools. lia.
Qed.
Lemma received c next cs c' :
  receive_commit_sig c next cs = (c', Ok ()) → st_n next ≠ 0 →
  validate_next c next = Ok () ∧ wire_field (cs_sig cs) ∧
  c' = set_states (cur c) (Some next) (remote_sig_cur c) (Some (cs_sig cs)) (history c) (abandoned c) c.
Proof.
  unfold receive_commit_sig. intros H Hn. rewrite (proj2 (Z.eqb_neq _ _) Hn) in H. cbn [andb] in H.
  destruct (validate_next c next) as [[]|]; [|done]. destruct (negb _ || negb _) eqn:Eg; [done|]. injection H as <-.
  apply orb_false_elim in Eg as [_ Eg%negb_false_iff]. eauto using verified_field.
Qed.

Hypothesis disk : ∀ a b, disk_takes a b = true.
Lemma rchan_save_takes id r s : ∃ cf, rchan_save id r s = (set_files cf (meta_file s) (key_file s) s, Ok ()).
Proof. unfold rchan_save. rewrite disk. eauto. Qed.

(** The channel an idle peer holds. *)
Record idle (t : Server) (id : string) (r : RemoteChannel) : Prop := {
  i_loaded : loaded t = true;
  i_at : rchannels t !! id = Some r;
  i_busy : busy r = false;
  i_open : status r = "open";
  i_out : out_phase r = "";
  i_fault : fault t = "";
}.

Lemma peer_signs now h t id r next sg kind extra u x q1 :
  idle t id r → wire_field id → state_field next → st_n next ≠ 0 → wire_field kind → wire_field extra → extra ≠ "" →
  classify_peer_update (ch r) next (if String.eqb kind "SETTLE" then extra else "") h = Ok (u, x) →
  (u = AddHtlc → safe_token extra = true) →
  receive_commit_sig (ch r) next (mkCommitSig (st_n next) sg) = (q1, Ok ()) →
  let '(t1, y) := handle_channel_message now h t (join "|" ["UPD"; id; encode_state next; sg; kind; extra]) in
  y = Ok (reply_sig q1 next) ∧ idle t1 id (set_in (effect_of u x extra) now (set_ch q1 r)).
Proof.
  intros [Hl Ha Hb Ho Hp Hf] Hid Hs Hn Hk He Hne Hc Hsafe Hr.
  destruct (received _ _ _ _ Hr Hn) as (Hv & Hsg & _). destruct (validated _ _ Hv) as [Hpe _].
  unfold handle_channel_message, rchan_load. rewrite Hl.
  rewrite split_fields; [|repeat (constructor; auto using encode_field); done|done].
  cbn [String.eqb Ascii.eqb Bool.eqb]. rewrite Ha, Hb, Ho. cbn [negb String.eqb Ascii.eqb Bool.eqb handle_upd].
  unfold accept_upd. rewrite decode_encode_state by apply Hs. rewrite Hpe. cbn [from_option].
  unfold make_room. rewrite Hpe. cbn [is_Some]. rewrite bool_decide_false by by intros [? ?].
  rewrite Hp. cbn [andb String.eqb]. rewrite Hc.
  assert (Hu : bool_decide (u = AddHtlc) && negb (safe_token extra) = false).
  { case_bool_decide; [|done]. by rewrite Hsafe. }
  rewrite Hu, Hr. unfold save_and_reply. set (r1 := set_in _ _ _).
  destruct (rchan_save_takes id r1 (put_channel id r1 (put_channel id r t))) as [cf ->].
  split; [done|]. split; cbn; try done. apply lookup_insert_eq.
Qed.

Lemma route_key_fault t : fault (rchan_route_key t).1 = fault t.
Proof.
  unfold rchan_route_key. case_match; [done|]. destruct (key_file t ≫= stored_key) as [[]|]; [done|].
  destruct (onion_keygen _) as [[]|]; [|done]. by destruct (disk_takes _ _).
Qed.
Lemma settle_invoice_fault id hid w x want t : fault (settle_invoice id hid w x want t) = fault t.
Proof. unfold settle_invoice. repeat case_match; done. Qed.
Lemma peel_onion_fault id hid w e x t : fault (peel_onion id hid w e x t) = fault t.
Proof.
  unfold peel_onion. pose proof (route_key_fault t) as H. destruct (rchan_route_key t) as [t1 y]. cbn in H. rewrite <-H.
  repeat case_match; try done. by rewrite settle_invoice_fault.
Qed.
Lemma save_meta_fault t : fault (rchan_save_meta t) = fault t.
Proof. unfold rchan_save_meta. by destruct (disk_takes _ _). Qed.
Lemma apply_effect_fault id t r t' r' : rchan_apply_effect id t r = (t', r') → fault t' = fault t.
Proof.
  unfold rchan_apply_effect, effect_add, effect_remove. intros H.
  repeat case_match; simplify_eq; rewrite ?save_meta_fault, ?peel_onion_fault, ?settle_invoice_fault; done.
Qed.

Lemma peer_revokes now h t id r m q2 q3 mq :
  idle t id r → wire_field id → is_u64 (revoked_n m) → wire_field (secret m) → wire_field (next_hash m) →
  is_Some (pending (ch r)) → receive_revoke (ch r) m = (q2, Ok ()) → revoke_and_advance q2 = Some (q3, mq) →
  let '(t1, y) := handle_channel_message now h t (join "|" ["REV"; id; to_string (revoked_n m); secret m; next_hash m]) in
  y = Ok (reply_revoke mq) ∧ ∃ r', idle t1 id r' ∧ ch r' = q3.
Proof.
  intros [Hl Ha Hb Ho Hp Hf] Hid Hn Hs Hx Hpe Hr Hv.
  assert (Hne : next_hash m ≠ "").
  { unfold receive_revoke in Hr. repeat (case_match; try done). by intros E; rewrite E in *. }
  unfold handle_channel_message, rchan_load. rewrite Hl.
  rewrite split_fields; [|repeat (constructor; auto using to_string_field)|done].
  cbn [String.eqb Ascii.eqb Bool.eqb]. rewrite Ha, Hb, Ho. cbn [negb String.eqb Ascii.eqb Bool.eqb handle_rev].
  rewrite number_to_string, (bool_decide_true (is_Some _)), Hf by done. cbn [negb String.eqb].
  assert (Em : mkRevoke (revoked_n m) (secret m) (next_hash m) = m) by by destruct m. rewrite Em, Hr, Hv.
  set (r1 := set_in (in_effect r) 0 _). destruct (rchan_apply_effect id t r1) as [t1 r2] eqn:Ee.
  assert (Hft : fault t1 = fault t).
  { by apply apply_effect_fault in Ee. }
  apply apply_effect_frame in Ee as [(B1 & B2 & B3) ->]. unfold save_and_reply.
  set (r3 := set_in "" _ r1). destruct (rchan_save_takes id r3 (put_channel id r3 t1)) as [cf ->].
  cbn [fault set_files put_channel set_tables]. rewrite Hft, Hf. cbn [String.eqb]. split; [done|].
  exists r3. split; [|done]. split; cbn; try done; [congruence|by rewrite lookup_insert_eq|congruence].
Qed.

(** ** The proposer *)

Lemma at_put s id r : at_id (put_channel id r s) id = r.
Proof. unfold at_id, put_channel. cbn. by rewrite lookup_insert_eq. Qed.
Lemma at_files s id cf mf kf : at_id (set_files cf mf kf s) id = at_id s id.
Proof. done. Qed.
Lemma edit_put_channel s id f r : edit id f (put_channel id r s) = put_channel id (f r) (put_channel id r s).
Proof. unfold edit. by rewrite at_put. Qed.
Lemma edit_at s id f r : at_id s id = r → edit id f s = put_channel id (f r) s.
Proof. by intros <-. Qed.
Lemma save_takes id s : ∃ cf, save id s = (set_files cf (meta_file s) (key_file s) s, Ok ()).
Proof. apply rchan_save_takes. Qed.
Lemma request_delivered p m s x rest sn :
  request_peer p m s (mkNet (([], x) :: rest) sn) = (s, mkNet rest (sn ++ [(p, m)]), x).
Proof. done. Qed.

(** Both requests are answered by a peer that signs and then revokes. *)
Lemma drive_answered now id s r next p1 p2 p3 sg mp mq rest sn :
  at_id s id = r → busy r = false → out_phase r = "upd" → out_state r = encode_state next → state_field next →
  validate_next (ch r) next = Ok () →
  receive_commit_sig (ch r) next (mkCommitSig (st_n next) sg) = (p1, Ok ()) → pending p1 = Some next →
  revoke_and_advance p1 = Some (p2, mp) → last_revoke p2 = mp →
  wire_field (secret mq) → wire_field (next_hash mq) → is_u64 (revoked_n mq) → receive_revoke p2 mq = (p3, Ok ()) →
  ∃ s' r', rchan_drive now id s (mkNet (([], Ok ("CHANOK|" +:+ sg)) :: ([], Ok (reply_revoke mq)) :: rest) sn) =
    (s', mkNet rest (sn ++ [(rpeer r, join "|" ["CHAN"; "UPD"; id; encode_state next;
                               cs_sig (sign_remote_commitment (ch r) next); out_kind r; or_bar (out_extra r)]);
                            (rpeer r, rev_message id mp)]), Ok ()) ∧
    at_id s' id = r' ∧ ch r' = p3 ∧ out_phase r' = "" ∧ busy r' = false.
Proof.
  intros Hr Hb Ho Hst Hs Hv Hrec Hpe Hrev Hl Hqs Hqh Hqn Hrr. destruct (validated _ _ Hv) as [Hp0 Hn0].
  unfold rchan_drive. rewrite Hr, Hb, Hst, decode_encode_state by apply Hs.
  set (r0 := set_busy true r). rewrite (edit_at s id _ r) by done. fold r0. unfold drive_phases. rewrite at_put.
  change (out_phase r0) with (out_phase r). rewrite Ho. cbn [String.eqb Ascii.eqb Bool.eqb].
  unfold drive_upd. rewrite at_put. change (ch r0) with (ch r). change (out_state r0) with (out_state r).
  rewrite Hp0, <-Hn0, Z.eqb_refl. cbn [negb from_option andb]. rewrite at_put. change (ch r0) with (ch r). rewrite Hp0.
  rewrite bool_decide_false by by intros [? ?].
  unfold drive_sign. rewrite at_put. change (out_state r0) with (out_state r). rewrite Hst, request_delivered.
  rewrite ok_body_chanok, at_put. change (ch r0) with (ch r). rewrite Hrec, edit_put_channel, at_put.
  change (ch (set_ch p1 r0)) with p1. rewrite Hrev, edit_put_channel. set (r1 := set_phase "rev" _).
  destruct (save_takes id (put_channel id r1 (put_channel id (set_ch p1 r0) (put_channel id r0 s)))) as [cf ->].
  rewrite at_files, at_put. cbn [out_phase r1 set_phase set_out String.eqb Ascii.eqb Bool.eqb].
  unfold drive_rev, ask_revoke. rewrite at_files, at_put. change (ch r1) with p2. rewrite Hl, request_delivered.
  unfold reply_revoke. rewrite ok_body_chanok. unfold parse_revoke.
  assert (Hne : next_hash mq ≠ "").
  { unfold receive_revoke in Hrr. repeat (case_match; try done). by intros E; rewrite E in *. }
  change (to_string (revoked_n mq) +:+ "|" +:+ secret mq +:+ "|" +:+ next_hash mq) with
    (join "|" [to_string (revoked_n mq); secret mq; next_hash mq]).
  rewrite split_fields; [|repeat (constructor; auto using to_string_field)|done].
  rewrite number_to_string by done. cbn [mbind option_bind].
  assert (Em : mkRevoke (revoked_n mq) (secret mq) (next_hash mq) = mq) by by destruct mq. rewrite Em.
  rewrite at_files, at_put. change (ch r1) with p2. rewrite Hrr.
  erewrite edit_at by (rewrite at_files; apply at_put).
  match goal with |- context [save id (put_channel id ?r2 ?s2)] => set (r3 := r2); set (s3 := s2) end.
  destruct (save_takes id (put_channel id r3 s3)) as [cf' ->].
  eexists _, _. split; [rewrite <-app_assoc; reflexivity|].
  split; [erewrite edit_at by (rewrite at_files; apply at_put); apply at_put|done].
Qed.

(** C15. An update that a node proposes to an idle peer over a network that delivers: the peer's
    handlers answer both messages, the proposal is finished, and the two ends are the two
    channels that [update] leaves. *)
Theorem drive_is_update now1 now2 now h s t id r rq next u x p' q' :
  let kind := out_kind r in
  let extra := or_bar (out_extra r) in
  at_id s id = r → busy r = false → out_phase r = "upd" → out_state r = encode_state next → idle t id rq →
  update (ch r) (ch rq) next = Some (p', q', Ok ()) →
  classify_peer_update (ch rq) next (if String.eqb kind "SETTLE" then extra else "") h = Ok (u, x) →
  (u = AddHtlc → safe_token extra = true) →
  cur (ch rq) = cur (ch r) → 0 ≤ st_n (cur (ch r)) < U64_MAX →
  state_field next → wire_field id → wire_field kind → wire_field extra →
  let m1 := join "|" ["UPD"; id; encode_state next; cs_sig (sign_remote_commitment (ch r) next); kind; extra] in
  let '(t1, y1) := handle_channel_message now1 h t m1 in
  let m2 := join "|" ["REV"; id; to_string (st_n (cur (ch r))); rev_secret (ch r) (st_n (cur (ch r)));
                      rev_hash (ch r) (u64 (st_n (cur (ch r)) + 2))] in
  let '(t2, y2) := handle_channel_message now2 h t1 m2 in
  ∃ s' r' rq', rchan_drive now id s (mkNet [([], y1); ([], y2)] []) =
    (s', mkNet [] [(rpeer r, "CHAN|" +:+ m1); (rpeer r, "CHAN|" +:+ m2)], Ok ()) ∧
    at_id s' id = r' ∧ ch r' = p' ∧ out_phase r' = "" ∧ busy r' = false ∧
    idle t2 id rq' ∧ ch rq' = q'.
Proof.
  intros kind extra Hr Hb Ho Hst Ht Hup Hc Hsafe Hcur Hn Hs Hid Hk He m1. unfold update in Hup.
  destruct (validate_next (ch r) next) as [[]|] eqn:Hvp; [|done]. cbn [mbind result_bind] in Hup.
  destruct (validate_next (ch rq) next) as [[]|] eqn:Hvq; [|done].
  destruct (validated _ _ Hvp) as [_ Hnp]. assert (Hne : st_n next ≠ 0) by (rewrite Hnp, u64_small; unfold is_u64; lia).
  destruct (receive_commit_sig (ch rq) next _) as [q1 [[]|]] eqn:Hrq; [|done].
  destruct (receive_commit_sig (ch r) next _) as [p1 [[]|]] eqn:Hrp; [|done].
  destruct (received _ _ _ _ Hrq Hne) as (_ & _ & Eq1). destruct (received _ _ _ _ Hrp Hne) as (_ & Hsg & Ep1).
  assert (Hex : extra ≠ "") by (subst extra; unfold or_bar; by destruct (out_extra r)).
  pose proof (peer_signs now1 h t id rq next (cs_sig (sign_remote_commitment (ch r) next)) kind extra u x q1 Ht Hid Hs Hne Hk He Hex Hc Hsafe Hrq) as H1.
  fold m1 in H1. destruct (handle_channel_message now1 h t m1) as [t1 y1]. destruct H1 as [-> Ht1].
  destruct (revoke_and_advance p1) as [[p2 mp]|] eqn:Hap; [|done]. cbn [mbind option_bind] in Hup.
  destruct (receive_revoke q1 mp) as [q2 [[]|]] eqn:Hrr; [|done].
  destruct (revoke_and_advance q2) as [[q3 mq]|] eqn:Haq; [|done]. cbn [mbind option_bind] in Hup.
  destruct (receive_revoke p2 mq) as [p3 y3] eqn:Hrp2. injection Hup as -> -> ->.
  assert (Hmp : mp = mkRevoke (st_n (cur (ch r))) (rev_secret (ch r) (st_n (cur (ch r))))
    (rev_hash (ch r) (u64 (st_n (cur (ch r)) + 2))) ∧ cur p2 = next ∧ seed p2 = seed (ch r)).
  { subst p1. cbn in Hap. by injection Hap as <- <-. }
  destruct Hmp as (Emp & Ecur & Eseed). assert (Hlast : last_revoke p2 = mp).
  { unfold last_revoke. rewrite Ecur, Hnp, u64_small by (unfold is_u64; lia).
    rewrite (proj2 (Z.eqb_neq _ _)) by lia. rewrite Z.add_simpl_r, Emp. unfold rev_hash, rev_secret. by rewrite Eseed. }
  assert (Hmq : wire_field (secret mq) ∧ wire_field (next_hash mq) ∧ revoked_n mq = st_n (cur (ch rq))).
  { unfold revoke_and_advance in Haq. destruct (pending q2), (remote_sig_pending q2); try done. injection Haq as _ <-. cbn.
    split; [apply to_hex_field|]. split; [apply hash_field|]. subst q1. by apply receive_revoke_Ok in Hrr as (? & ? & ->). }
  destruct Hmq as (Hq1 & Hq2 & Hq3). rewrite Hcur in Hq3. assert (Hqn : is_u64 (revoked_n mq)) by (rewrite Hq3; unfold is_u64; lia).
  assert (Hpe : is_Some (pending (ch (set_in (effect_of u x extra) now1 (set_ch q1 rq))))) by (cbn; by rewrite Eq1).
  pose proof (peer_revokes now2 h t1 id _ mp q2 q' mq Ht1 Hid) as H2. rewrite Emp in H2. cbn [revoked_n secret next_hash] in H2.
  rewrite <-Emp in H2. specialize (H2 ltac:(unfold is_u64; lia) (to_hex_field _) (hash_field _) Hpe Hrr Haq).
  cbv zeta. destruct (handle_channel_message now2 h t1 _) as [t2 y2]. destruct H2 as [-> (rq' & Hi & Hq')].
  assert (Hpe1 : pending p1 = Some next) by by rewrite Ep1.
  destruct (drive_answered now id s r next p1 p2 p' (cs_sig (sign_remote_commitment q1 next)) mp mq [] [] Hr Hb Ho Hst Hs Hvp Hrp Hpe1 Hap Hlast Hq1 Hq2 Hqn Hrp2)
    as (s' & r' & Hd & Hs' & ? & ? & ?).
  exists s', r', rq'. unfold reply_sig. rewrite Hd. split_and!; try done. by rewrite Emp.
Qed.
End update.
