(* ===== verification/Bridge.v ===== *)
(** * The bridge ([include/addition/bridge.hpp], [src/bridge.cpp])

    Collateral locked per chain and the wrapped balances of its users. Every operation
    returns the engine and its result; [operator[]] on the balances creates an entry,
    also where the call fails afterwards. The cache of verified signatures does not
    change an answer, so signatures are checked without it. *)
From S2P Require Import Prelude Strings Lines Crypto.

Record ChainState := mkChainState {
  locked_pool : Z;
  attestor_pubkey : string;
  wrapped_balances : gmap string Z;
  receipts : list string;
  used_attestations : gset string;
}.
Notation BridgeEngine := (gmap string ChainState).
Definition empty_chain : ChainState := mkChainState 0 "" ∅ [] ∅.

Definition set_locked (n : Z) (s : ChainState) : ChainState :=
  mkChainState n (attestor_pubkey s) (wrapped_balances s) (receipts s) (used_attestations s).
Definition set_attestor (k : string) (s : ChainState) : ChainState :=
  mkChainState (locked_pool s) k (wrapped_balances s) (receipts s) (used_attestations s).
Definition set_wrapped (user : string) (n : Z) (s : ChainState) : ChainState :=
  mkChainState (locked_pool s) (attestor_pubkey s) (<[user := n]> (wrapped_balances s)) (receipts s)
    (used_attestations s).
Definition push_receipt (r : string) (s : ChainState) : ChainState :=
  mkChainState (locked_pool s) (attestor_pubkey s) (wrapped_balances s) (receipts s ++ [r])
    (used_attestations s).
Definition set_used (X : gset string) (s : ChainState) : ChainState :=
  mkChainState (locked_pool s) (attestor_pubkey s) (wrapped_balances s) (receipts s) X.

Section bridge.
Context {C : Crypto}.

Definition register_chain (e : BridgeEngine) (chain : string) : BridgeEngine * result () :=
  if is_empty chain then (e, Err "chain empty")
  else match e !! chain with
       | Some _ => (e, Ok ())
       | None => (<[chain := empty_chain]> e, Ok ())
       end.

Definition set_attestor_key (e : BridgeEngine) (chain pubkey_hex : string) : BridgeEngine * result () :=
  if is_empty chain || is_empty pubkey_hex then (e, Err "chain/pubkey empty")
  else match e !! chain with
       | None => (e, Err "chain not registered")
       | Some s => (<[chain := set_attestor pubkey_hex s]> e, Ok ())
       end.

Definition attestor_key (e : BridgeEngine) (chain : string) : string :=
  from_option attestor_pubkey "" (e !! chain).

Definition lock (e : BridgeEngine) (chain user : string) (amount : Z) : BridgeEngine * result string :=
  if (amount =? 0) || is_empty user then (e, Err "invalid lock params")
  else match e !! chain with
       | None => (e, Err "chain not registered")
       | Some s =>
           if U64_MAX - amount <? locked_pool s then (e, Err "locked pool overflow")
           else
             let receipt := to_hex (sha3_512_bytes (chain +:+ "|" +:+ user +:+ "|" +:+ to_string amount)) in
             (<[chain := push_receipt receipt (set_locked (locked_pool s + amount) s)]> e, Ok receipt)
       end.

Definition mint_wrapped (e : BridgeEngine) (chain user : string) (amount : Z) : BridgeEngine * result () :=
  match e !! chain with
  | None => (e, Err "chain not registered")
  | Some s =>
      if (amount =? 0) || is_empty user then (e, Err "invalid mint params")
      else if locked_pool s <? amount then (e, Err "insufficient locked collateral for mint")
      else
        let w := map_get0 (wrapped_balances s) user in
        if U64_MAX - amount <? w then (<[chain := set_wrapped user w s]> e, Err "wrapped balance overflow")
        else (<[chain := set_wrapped user (w + amount) s]> e, Ok ())
  end.

Definition burn_wrapped (e : BridgeEngine) (chain user : string) (amount : Z) : BridgeEngine * result () :=
  match e !! chain with
  | None => (e, Err "chain not registered")
  | Some s =>
      let b := map_get0 (wrapped_balances s) user in
      if (b <? amount) || (amount =? 0)
      then (<[chain := set_wrapped user b s]> e, Err "insufficient wrapped balance")
      else (<[chain := set_wrapped user (b - amount) s]> e, Ok ())
  end.

Definition release (e : BridgeEngine) (chain user : string) (amount : Z) : BridgeEngine * result () :=
  match e !! chain with
  | None => (e, Err "chain not registered")
  | Some s =>
      if (locked_pool s <? amount) || (amount =? 0) || is_empty user
      then (e, Err "insufficient locked pool")
      else
        let w := map_get0 (wrapped_balances s) user in
        if w <? amount
        then (<[chain := set_wrapped user w s]> e, Err "insufficient wrapped balance for release")
        else (<[chain := set_locked (locked_pool s - amount) (set_wrapped user (w - amount) s)]> e, Ok ())
  end.

(** The two attested operations: the attestor's signature over the request, each
    signature used once, and given back if the operation is refused. *)
Definition request (tag chain user : string) (amount : Z) : string :=
  tag +:+ "|" +:+ chain +:+ "|" +:+ user +:+ "|" +:+ to_string amount.
Definition attested (op : BridgeEngine → string → string → Z → BridgeEngine * result ())
    (msg_tag id_tag : string) (e : BridgeEngine) (chain user : string) (amount : Z) (attestation : string) :
    BridgeEngine * result () :=
  match e !! chain with
  | None => (e, Err "chain not registered")
  | Some s =>
      if is_empty (attestor_pubkey s) then (e, Err "attestor key not configured")
      else if negb (verify_message_signature_hybrid_uncached (attestor_pubkey s)
                      (request msg_tag chain user amount) attestation)
      then (e, Err "invalid attestation signature")
      else
        let id := to_hex (sha3_512_bytes (request id_tag chain user amount +:+ "|" +:+ attestation)) in
        if bool_decide (id ∈ used_attestations s) then (e, Err "attestation replay")
        else match op (<[chain := set_used ({[id]} ∪ used_attestations s) s]> e) chain user amount with
             | (e, Ok _) => (e, Ok ())
             | (e, Err m) =>
                 (alter (λ s, set_used (used_attestations s ∖ {[id]}) s) chain e, Err m)
             end
  end.
Definition mint_wrapped_attested := attested mint_wrapped "bridge_mint" "mint_att".
Definition release_attested := attested release "bridge_release" "release_att".

Definition wrapped_balance (e : BridgeEngine) (chain user : string) : Z :=
  match e !! chain with None => 0 | Some s => map_get0 (wrapped_balances s) user end.
End bridge.

(** ** The store *)

Section dump.
Context `{IterationOrder}.

Definition chain_lines (kv : string * ChainState) : list string :=
  let '(chain, s) := kv in
  join "|" ["C"; chain; to_string (locked_pool s)] ::
  (if is_empty (attestor_pubkey s) then [] else [join "|" ["A"; chain; attestor_pubkey s]]) ++
  ((λ a, join "|" ["Y"; chain; a]) <$> iter_set (used_attestations s)) ++
  ((λ ua, join "|" ["W"; chain; ua.1; to_string ua.2]) <$> iter_map (wrapped_balances s)) ++
  ((λ r, join "|" ["R"; chain; r]) <$> receipts s).
Definition dump_state (e : BridgeEngine) : string := unlines (concat (chain_lines <$> iter_map e)).
End dump.

(** [chains_[chain]] *)
Definition at_chain (e : BridgeEngine) (chain : string) : ChainState := default empty_chain (e !! chain).
Definition edit (chain : string) (f : ChainState → ChainState) (e : BridgeEngine) : BridgeEngine :=
  <[chain := f (at_chain e chain)]> e.

Definition load_line (line : string) (e : BridgeEngine) : option (result BridgeEngine) :=
  let '(tag, ls) := getline "|" (Some line) in
  if String.eqb tag "C" then
    let '(chain, ls) := getline "|" ls in let '(locked, _) := getline "010" ls in
    if is_empty chain then Some (Err "invalid bridge chain line")
    else v ← number locked; Some (Ok (edit chain (set_locked v) e))
  else if String.eqb tag "A" then
    let '(chain, ls) := getline "|" ls in let '(key, _) := getline "010" ls in
    if is_empty chain || is_empty key then Some (Err "invalid bridge attestor line")
    else Some (Ok (edit chain (set_attestor key) e))
  else if String.eqb tag "W" then
    let '(chain, ls) := getline "|" ls in let '(user, ls) := getline "|" ls in
    let '(amount, _) := getline "010" ls in
    if is_empty chain || is_empty user then Some (Err "invalid bridge wrapped line")
    else v ← number amount; Some (Ok (edit chain (set_wrapped user v) e))
  else if String.eqb tag "Y" then
    let '(chain, ls) := getline "|" ls in let '(aid, _) := getline "010" ls in
    if is_empty chain || is_empty aid then Some (Err "invalid bridge attestation line")
    else Some (Ok (edit chain (λ s, set_used ({[aid]} ∪ used_attestations s) s) e))
  else if String.eqb tag "R" then
    let '(chain, ls) := getline "|" ls in let '(r, _) := getline "010" ls in
    if is_empty chain || is_empty r then Some (Err "invalid bridge receipt line")
    else Some (Ok (edit chain (push_receipt r) e))
  else Some (Ok e).

(** [None]: [std::stoull] throws, and [load_state] does not catch. *)
Definition load_state (state : string) : BridgeEngine * option (result ()) :=
  read_lines load_line ∅ (getlines "010" (Some state)).
