(* ===== verification/BridgeProofs.v ===== *)
(** * The bridge's accounts and its attestations

    Over any run of calls, refused ones included, the pools and balances are what the
    calls that succeeded say, and an attestation is good for one operation. *)
From S2P Require Import Prelude Strings Lines Crypto Bridge.

(** ** Runs *)

Inductive Call :=
  | CRegister (chain : string)
  | CSetKey (chain key : string)
  | CLock (chain user : string) (amount : Z)
  | CMint (chain user : string) (amount : Z)
  | CMintAttested (chain user : string) (amount : Z) (att : string)
  | CBurn (chain user : string) (amount : Z)
  | CRelease (chain user : string) (amount : Z)
  | CReleaseAttested (chain user : string) (amount : Z) (att : string).

#[export] Instance Call_eq_dec : EqDecision Call.
Proof. solve_decision. Defined.

Section proofs.
Context {C : Crypto}.

Definition verdict {A} (r : BridgeEngine * result A) : BridgeEngine * bool := (r.1, is_ok r.2).
Definition exec (e : BridgeEngine) (c : Call) : BridgeEngine * bool :=
  match c with
  | CRegister chain => verdict (register_chain e chain)
  | CSetKey chain key => verdict (set_attestor_key e chain key)
  | CLock chain user n => verdict (lock e chain user n)
  | CMint chain user n => verdict (mint_wrapped e chain user n)
  | CMintAttested chain user n att => verdict (mint_wrapped_attested e chain user n att)
  | CBurn chain user n => verdict (burn_wrapped e chain user n)
  | CRelease chain user n => verdict (release e chain user n)
  | CReleaseAttested chain user n att => verdict (release_attested e chain user n att)
  end.

(** The calls that succeed. *)
Fixpoint run (e : BridgeEngine) (calls : list Call) : BridgeEngine * list Call :=
  match calls with
  | [] => (e, [])
  | c :: calls =>
      let '(e, ok) := exec e c in
      let '(e, h) := run e calls in
      (e, if ok : bool then c :: h else h)
  end.

Definition call_amount (c : Call) : Z :=
  match c with
  | CRegister _ | CSetKey _ _ => 0
  | CLock _ _ n | CMint _ _ n | CMintAttested _ _ n _ | CBurn _ _ n | CRelease _ _ n | CReleaseAttested _ _ n _ => n
  end.
Definition call_chain (c : Call) : string :=
  match c with
  | CRegister x | CSetKey x _ | CLock x _ _ | CMint x _ _ | CMintAttested x _ _ _ | CBurn x _ _ | CRelease x _ _
  | CReleaseAttested x _ _ _ => x
  end.
Definition call_user (c : Call) : string :=
  match c with
  | CRegister _ | CSetKey _ _ => ""
  | CLock _ u _ | CMint _ u _ | CMintAttested _ u _ _ | CBurn _ u _ | CRelease _ u _ | CReleaseAttested _ u _ _ => u
  end.

(** What a successful call adds to the pool of its chain and to the balance of its user. *)
Definition to_pool (c : Call) : Z :=
  match c with CLock _ _ n => n | CRelease _ _ n | CReleaseAttested _ _ n _ => - n | _ => 0 end.
Definition to_wrapped (c : Call) : Z :=
  match c with
  | CMint _ _ n | CMintAttested _ _ n _ => n
  | CBurn _ _ n | CRelease _ _ n | CReleaseAttested _ _ n _ => - n
  | _ => 0
  end.
Definition on_chain (chain : string) (f : Call → Z) (c : Call) : Z :=
  if decide (call_chain c = chain) then f c else 0.
Definition of_user (user : string) (f : Call → Z) (c : Call) : Z :=
  if decide (call_user c = user) then f c else 0.

(** The attestation a call presents: what must be signed, and the number it is filed
    under. *)
Definition attestation_of (c : Call) : option (string * string * string) :=
  match c with
  | CMintAttested x u n att =>
      Some (request "bridge_mint" x u n, att, to_hex (sha3_512_bytes (request "mint_att" x u n +:+ "|" +:+ att)))
  | CReleaseAttested x u n att =>
      Some (request "bridge_release" x u n, att, to_hex (sha3_512_bytes (request "release_att" x u n +:+ "|" +:+ att)))
  | _ => None
  end.
Definition is_attested (c : Call) : bool := if attestation_of c is Some _ then true else false.

(** ** One call *)

Definition pool (e : BridgeEngine) (chain : string) : Z := locked_pool (at_chain e chain).
Definition used (e : BridgeEngine) (chain : string) : gset string := used_attestations (at_chain e chain).
Definition key (e : BridgeEngine) (chain : string) : string := attestor_pubkey (at_chain e chain).

Lemma at_chain_insert e x s y : at_chain (<[x := s]> e) y = if decide (x = y) then s else at_chain e y.
Proof.
  unfold at_chain. destruct (decide (x = y)) as [->|?]; [by rewrite lookup_insert_eq|by rewrite lookup_insert_ne].
Qed.
Lemma wrapped_balance_at e x u : wrapped_balance e x u = map_get0 (wrapped_balances (at_chain e x)) u.
Proof. unfold wrapped_balance, at_chain. by destruct (e !! x). Qed.
Lemma at_chain_Some e x s : e !! x = Some s → at_chain e x = s.
Proof. unfold at_chain. by intros ->. Qed.

(** [e'] is [e] with [dp] more in the pool of [x], [dw] more for [u] there, and another
    set of used attestations and another key of [x]. *)
Record moves (e e' : BridgeEngine) (x u : string) (dp dw : Z) (X : gset string) (k : string) : Prop := {
  moves_pool : ∀ y, pool e' y = pool e y + if decide (x = y) then dp else 0;
  moves_wrapped : ∀ y v, wrapped_balance e' y v =
    wrapped_balance e y v + if decide (x = y) then if decide (u = v) then dw else 0 else 0;
  moves_used : ∀ y, used e' y = if decide (x = y) then X else used e y;
  moves_key : ∀ y, key e' y = if decide (x = y) then k else key e y;
}.

Lemma moves_insert e x u s' dp dw :
  locked_pool s' = pool e x + dp →
  (∀ v, map_get0 (wrapped_balances s') v = wrapped_balance e x v + if decide (u = v) then dw else 0) →
  moves e (<[x := s']> e) x u dp dw (used_attestations s') (attestor_pubkey s').
Proof.
  intros Hp Hw. split; intros y; unfold pool, used, key in *;
    [|intros v; rewrite !wrapped_balance_at in *|..]; rewrite at_chain_insert; destruct (decide (x = y)) as [<-|];
    rewrite ?Z.add_0_r; try done. by rewrite Hw, wrapped_balance_at.
Qed.
Lemma moves_refl e x u : moves e e x u 0 0 (used e x) (key e x).
Proof. split; intros y; [|intros v|..]; destruct (decide (x = y)) as [<-|]; try case_decide; lia || done. Qed.

Lemma get_set_wrapped u n s v :
  map_get0 (wrapped_balances (set_wrapped u n s)) v = map_get0 (wrapped_balances s) v +
    if decide (u = v) then n - map_get0 (wrapped_balances s) u else 0.
Proof.
  cbn. destruct (decide (u = v)) as [<-|].
  - rewrite map_get0_insert_eq. lia.
  - rewrite map_get0_insert_ne by done. lia.
Qed.

(** The result of an operation that does not look at attestations: its pool and balance
    changes if it succeeds, which then stay in range; none otherwise. *)
Definition in_range (e : BridgeEngine) : Prop :=
  (∀ x, is_u64 (pool e x)) ∧ ∀ x u, is_u64 (wrapped_balance e x u).
Definition does {A} (e : BridgeEngine) (x u : string) (dp dw : Z) (r : BridgeEngine * result A) : Prop :=
  if is_ok r.2 then moves e r.1 x u dp dw (used e x) (key e x) ∧ is_u64 (pool e x + dp) ∧ is_u64 (wrapped_balance e x u + dw)
  else moves e r.1 x u 0 0 (used e x) (key e x).

Ltac look := match goal with |- context [?e !! ?x] =>
  let Es := fresh "Es" in destruct (e !! x) as [s|] eqn:Es; [|apply moves_refl];
  pose proof (at_chain_Some _ _ _ Es) as Ea end.
Ltac same := apply moves_refl.
Ltac insert_moves := match goal with |- moves ?e (<[?x := ?s']> ?e) ?x ?u ?dp ?dw ?X ?k =>
    let H := fresh in
    assert (H : moves e (<[x := s']> e) x u dp dw (used_attestations s') (attestor_pubkey s'));
    [apply moves_insert|unfold used, key; by match goal with E : at_chain e x = _ |- _ => rewrite E end] end;
  unfold pool; rewrite ?wrapped_balance_at;
  match goal with E : at_chain _ _ = _ |- _ => rewrite ?E end.
Ltac by_get := intros; rewrite ?wrapped_balance_at;
  match goal with E : at_chain _ _ = _ |- _ => rewrite ?E end;
  cbn [set_locked set_used set_attestor push_receipt wrapped_balances]; rewrite ?get_set_wrapped; repeat case_decide; subst; lia.

Lemma mint_does e x u n : in_range e → is_u64 n → does e x u 0 n (mint_wrapped e x u n).
Proof.
  intros [Hp Hw] Hn. specialize (Hp x). specialize (Hw x u). unfold mint_wrapped, does. look.
  destruct (_ || _); [same|]. destruct (_ <? _); [same|].
  rewrite wrapped_balance_at, Ea in *. destruct (Z.ltb_spec (U64_MAX - n) (map_get0 (wrapped_balances s) u)); cbn [fst snd is_ok].
  - insert_moves; [cbn; lia|by_get].
  - split; [insert_moves; [cbn; lia|by_get]|]. unfold pool, is_u64 in *. rewrite Ea in *. lia.
Qed.
Lemma burn_does e x u n : in_range e → is_u64 n → does e x u 0 (- n) (burn_wrapped e x u n).
Proof.
  intros [Hp Hw] Hn. specialize (Hp x). specialize (Hw x u). unfold burn_wrapped, does. look.
  rewrite wrapped_balance_at, Ea in *.
  destruct (Z.ltb_spec (map_get0 (wrapped_balances s) u) n); cbn [orb].
  { cbn [fst snd is_ok]. insert_moves; [cbn; lia|by_get]. }
  destruct (_ =? _); cbn [fst snd is_ok].
  - insert_moves; [cbn; lia|by_get].
  - split; [insert_moves; [cbn; lia|by_get]|]. unfold pool, is_u64 in *. rewrite Ea in *. lia.
Qed.
Lemma release_does e x u n : in_range e → is_u64 n → does e x u (- n) (- n) (release e x u n).
Proof.
  intros [Hp Hw] Hn. specialize (Hp x). specialize (Hw x u). unfold release, does. look.
  rewrite wrapped_balance_at, Ea in *. unfold pool in *. rewrite Ea in *.
  destruct (Z.ltb_spec (locked_pool s) n); cbn [orb]; [same|]. destruct (_ || _); [same|].
  destruct (Z.ltb_spec (map_get0 (wrapped_balances s) u) n); cbn [fst snd is_ok].
  - insert_moves; [cbn; lia|by_get].
  - split; [insert_moves; [cbn; lia|by_get]|]. unfold is_u64 in *. lia.
Qed.
Lemma lock_does e x u n : in_range e → is_u64 n → does e x u n 0 (lock e x u n).
Proof.
  intros [Hp Hw] Hn. specialize (Hp x). specialize (Hw x u). unfold lock, does. destruct (_ || _); [same|]. look.
  unfold pool in *. rewrite Ea in *. destruct (Z.ltb_spec (U64_MAX - n) (locked_pool s)); cbn [fst snd is_ok]; [same|].
  split; [insert_moves; [cbn; lia|by_get]|]. unfold is_u64 in *. rewrite wrapped_balance_at, Ea in *. lia.
Qed.
Lemma register_does e x : in_range e → does e x "" 0 0 (register_chain e x).
Proof.
  intros [Hp Hw]. specialize (Hp x). specialize (Hw x ""). unfold register_chain, does.
  destruct (is_empty x); [same|]. rewrite !Z.add_0_r. destruct (e !! x) as [s|] eqn:E; cbn [fst snd is_ok].
  - split; [same|]. done.
  - assert (Ea : at_chain e x = empty_chain) by (unfold at_chain; by rewrite E).
    split; [insert_moves; [cbn; lia|by_get]|]. done.
Qed.

Lemma moves_trans e1 e2 e3 x u dp dw X Y k k' :
  moves e1 e2 x u 0 0 X k → moves e2 e3 x u dp dw Y k' → moves e1 e3 x u dp dw Y k'.
Proof.
  intros [A1 A2 A3 A4] [B1 B2 B3 B4]. split; intros y; [|intros v|..].
  - rewrite B1, A1. case_decide; lia.
  - rewrite B2, A2. repeat case_decide; lia.
  - rewrite B3, A3. by case_decide.
  - rewrite B4, A4. by case_decide.
Qed.
Lemma moves_range e e' x u X k : in_range e → moves e e' x u 0 0 X k → in_range e'.
Proof.
  intros [Hp Hw] M. split; intros; [rewrite (moves_pool _ _ _ _ _ _ _ _ M)|rewrite (moves_wrapped _ _ _ _ _ _ _ _ M)];
    repeat case_decide; rewrite Z.add_0_r; done.
Qed.

(** Giving a used attestation back. *)
Lemma moves_unuse e x u f X :
  (∀ s, f s = set_used (X s) s) → used e x ≠ ∅ → moves e (alter f x e) x u 0 0 (X (at_chain e x)) (key e x).
Proof.
  intros Hf Hne. destruct (e !! x) as [s|] eqn:Es.
  2:{ exfalso. apply Hne. unfold used, at_chain. by rewrite Es. }
  pose proof (at_chain_Some _ _ _ Es) as Ea.
  replace (alter f x e) with (<[x := f s]> e).
  2:{ apply map_eq. intros y. destruct (decide (x = y)) as [<-|].
      - by rewrite lookup_insert_eq, lookup_alter_eq, Es.
      - by rewrite lookup_insert_ne, lookup_alter_ne. }
  rewrite Hf. insert_moves; [cbn; lia|by_get].
Qed.

Lemma attested_does op mt it e x u n att dp dw :
  (∀ e, in_range e → does e x u dp dw (op e x u n)) → in_range e →
  let r := attested op mt it e x u n att in
  let id := to_hex (sha3_512_bytes (request it x u n +:+ "|" +:+ att)) in
  if is_ok r.2
  then moves e r.1 x u dp dw ({[id]} ∪ used e x) (key e x) ∧
       is_u64 (pool e x + dp) ∧ is_u64 (wrapped_balance e x u + dw) ∧ id ∉ used e x ∧ key e x ≠ "" ∧
       verify_message_signature_hybrid_uncached (key e x) (request mt x u n) att = true
  else moves e r.1 x u 0 0 (used e x) (key e x).
Proof.
  intros Hop Hr r id. unfold r, attested. clear r. look.
  destruct (is_empty (attestor_pubkey s)) eqn:Ek; [apply moves_refl|].
  destruct (negb _) eqn:Ev; [apply moves_refl|]. apply negb_false_iff in Ev. fold id.
  case_bool_decide as Hid; [apply moves_refl|].
  set (e1 := <[x := _]> e). assert (M1 : moves e e1 x u 0 0 ({[id]} ∪ used e x) (key e x)).
  { unfold e1. insert_moves; [cbn; lia|by_get]. }
  specialize (Hop e1 (moves_range _ _ _ _ _ _ Hr M1)). unfold does in Hop.
  assert (Hu : used e x = used_attestations s) by (unfold used; by rewrite Ea).
  assert (Hk : key e x = attestor_pubkey s) by (unfold key; by rewrite Ea).
  rewrite (moves_pool _ _ _ _ _ _ _ _ M1), (moves_wrapped _ _ _ _ _ _ _ _ M1), (moves_used _ _ _ _ _ _ _ _ M1),
    (moves_key _ _ _ _ _ _ _ _ M1), !decide_True in Hop by done. rewrite !Z.add_0_r in Hop.
  destruct (op e1 x u n) as [e2 [[]|m]]; cbn [fst snd is_ok] in *.
  - destruct Hop as (M2 & Hp & Hw). split; [by eapply moves_trans|]. conjs; try done; [by rewrite Hu| |by rewrite Hk].
    rewrite Hk. by apply is_empty_false.
  - pose proof (moves_trans _ _ _ _ _ _ _ _ _ _ _ M1 Hop) as M2.
    assert (Hu2 : used e2 x = {[id]} ∪ used e x) by (by rewrite (moves_used _ _ _ _ _ _ _ _ M2), decide_True).
    assert (M3 := moves_unuse e2 x u (λ s, set_used (used_attestations s ∖ {[id]}) s) (λ s, used_attestations s ∖ {[id]})
                    (λ s, eq_refl)). specialize (M3 ltac:(rewrite Hu2; set_solver)).
    cbv beta in M3. fold (used e2 x) in M3. rewrite Hu2, (moves_key _ _ _ _ _ _ _ _ M2), decide_True in M3 by done.
    replace (({[id]} ∪ used e x) ∖ {[id]}) with (used e x) in M3 by set_solver.
    by eapply moves_trans.
Qed.

Lemma set_key_moves e x k :
  let r := set_attestor_key e x k in
  moves e r.1 x "" 0 0 (used e x) (if is_ok r.2 then k else key e x).
Proof.
  unfold set_attestor_key. destruct (_ || _); [apply moves_refl|]. look. cbn [fst snd is_ok].
  insert_moves; [cbn; lia|by_get].
Qed.

Lemma moves_in_range e e' x u dp dw X k :
  in_range e → moves e e' x u dp dw X k → is_u64 (pool e x + dp) → is_u64 (wrapped_balance e x u + dw) → in_range e'.
Proof.
  intros Hr M Hp Hw. split; intros;
    [rewrite (moves_pool _ _ _ _ _ _ _ _ M)|rewrite (moves_wrapped _ _ _ _ _ _ _ _ M)];
    repeat case_decide; subst; rewrite ?Z.add_0_r; done || apply Hr.
Qed.

Lemma does_verdict {A} e x u dp dw (r : BridgeEngine * result A) e' ok :
  in_range e → does e x u dp dw r → verdict r = (e', ok) →
  ∃ X, moves e e' x u (if ok then dp else 0) (if ok then dw else 0) X (if ok then key e x else key e x) ∧
    in_range e' ∧ X = used e x.
Proof.
  intros Hr Hd [= <- <-]. unfold does in Hd. eexists. destruct (is_ok r.2).
  - destruct Hd as (M & Hp & Hw). split; [exact M|]. split; [by eapply moves_in_range|done].
  - split; [exact Hd|]. split; [by eapply moves_range|done].
Qed.

(** What a successful use of an attestation shows. *)
Definition fresh_attestation (e : BridgeEngine) (x m a i : string) (X : gset string) : Prop :=
  X = {[i]} ∪ used e x ∧ i ∉ used e x ∧ key e x ≠ "" ∧
  verify_message_signature_hybrid_uncached (key e x) m a = true.
Lemma attested_verdict op mt it e x u n att dp dw e' ok :
  (∀ e, in_range e → does e x u dp dw (op e x u n)) → in_range e →
  verdict (attested op mt it e x u n att) = (e', ok) →
  ∃ X, moves e e' x u (if ok then dp else 0) (if ok then dw else 0) X (if ok then key e x else key e x) ∧
    in_range e' ∧
    if ok then fresh_attestation e x (request mt x u n) att
                 (to_hex (sha3_512_bytes (request it x u n +:+ "|" +:+ att))) X
    else X = used e x.
Proof.
  intros Hop Hr [= <- <-]. pose proof (attested_does op mt it e x u n att dp dw Hop Hr) as H. cbn zeta in H.
  destruct (is_ok _); eexists.
  - destruct H as (M & Hp & Hw & H). split; [exact M|]. split; [by eapply moves_in_range|done].
  - split; [exact H|]. split; [by eapply moves_range|done].
Qed.

(** Every call. *)
Definition new_key (c : Call) (k : string) : string := match c with CSetKey _ k => k | _ => k end.
Lemma exec_spec e c e' ok :
  in_range e → is_u64 (call_amount c) → exec e c = (e', ok) →
  ∃ X, moves e e' (call_chain c) (call_user c) (if ok then to_pool c else 0) (if ok then to_wrapped c else 0) X
         (if ok then new_key c (key e (call_chain c)) else key e (call_chain c)) ∧ in_range e' ∧
    match attestation_of c with
    | Some (m, a, i) => if ok then fresh_attestation e (call_chain c) m a i X else X = used e (call_chain c)
    | None => X = used e (call_chain c)
    end.
Proof.
  intros Hr Hn He.
  destruct c as [x|x k|x u n|x u n|x u n att|x u n|x u n|x u n att]; cbn [call_amount] in Hn; cbn in He |- *.
  - by apply (does_verdict _ _ _ _ _ _ _ _ Hr (register_does e x Hr)).
  - injection He as <- <-. pose proof (set_key_moves e x k) as M. cbn zeta in M. eexists.
    split; [|split; [eapply moves_range; [done|exact M]|done]]. by destruct (is_ok _).
  - by apply (does_verdict _ _ _ _ _ _ _ _ Hr (lock_does e x u n Hr Hn)).
  - by apply (does_verdict _ _ _ _ _ _ _ _ Hr (mint_does e x u n Hr Hn)).
  - by apply (attested_verdict _ _ _ _ _ _ _ _ _ _ _ _ (λ e Hr, mint_does e x u n Hr Hn) Hr He).
  - by apply (does_verdict _ _ _ _ _ _ _ _ Hr (burn_does e x u n Hr Hn)).
  - by apply (does_verdict _ _ _ _ _ _ _ _ Hr (release_does e x u n Hr Hn)).
  - by apply (attested_verdict _ _ _ _ _ _ _ _ _ _ _ _ (λ e Hr, release_does e x u n Hr Hn) Hr He).
Qed.

(** ** Whole runs *)

(** What the successful calls [h] account for. *)
Definition pool_of (h : list Call) (x : string) : Z := list_sum (on_chain x to_pool) h.
Definition wrapped_of (h : list Call) (x u : string) : Z := list_sum (on_chain x (of_user u to_wrapped)) h.

Lemma pool_of_snoc h c x : pool_of (h ++ [c]) x = pool_of h x + if decide (call_chain c = x) then to_pool c else 0.
Proof. unfold pool_of. rewrite list_sum_app, list_sum_cons. unfold on_chain at 2. cbn. lia. Qed.
Lemma wrapped_of_snoc h c x u : wrapped_of (h ++ [c]) x u = wrapped_of h x u +
  if decide (call_chain c = x) then if decide (call_user c = u) then to_wrapped c else 0 else 0.
Proof. unfold wrapped_of. rewrite list_sum_app, list_sum_cons. unfold on_chain at 2, of_user at 2. cbn. lia. Qed.

(** An attested call was signed with the key an administrator had set for its chain. *)
Definition authorized (h : list Call) (c : Call) : Prop :=
  match attestation_of c with
  | Some (m, a, _) => ∃ k, k ≠ "" ∧ CSetKey (call_chain c) k ∈ h ∧ verify_message_signature_hybrid_uncached k m a = true
  | None => True
  end.

Record accounts (e : BridgeEngine) (h : list Call) : Prop := {
  acc_range : in_range e;
  acc_pool : ∀ x, pool e x = pool_of h x;
  acc_wrapped : ∀ x u, wrapped_balance e x u = wrapped_of h x u;
  acc_key : ∀ x, key e x ≠ "" → CSetKey x (key e x) ∈ h;
  acc_used : ∀ c m a i, c ∈ h → attestation_of c = Some (m, a, i) → i ∈ used e (call_chain c);
  acc_authorized : ∀ c, c ∈ h → authorized h c;
  acc_once : NoDup (filter (λ c, is_attested c = true) h);
}.

Lemma accounts_empty : accounts ∅ [].
Proof.
  assert (E : ∀ x, at_chain ∅ x = empty_chain) by (intros x; unfold at_chain; by rewrite lookup_empty).
  assert (W : ∀ x u, wrapped_balance ∅ x u = 0) by (intros; by rewrite wrapped_balance_at, E).
  split.
  - split; intros; [unfold pool; by rewrite E|by rewrite W].
  - intros x. unfold pool. by rewrite E.
  - intros x u. by rewrite W.
  - intros x. unfold key. by rewrite E.
  - intros c m a i Hc. by apply elem_of_nil in Hc.
  - intros c Hc. by apply elem_of_nil in Hc.
  - constructor.
Qed.

Lemma new_key_set c k : new_key c k = k ∨ c = CSetKey (call_chain c) (new_key c k).
Proof. destruct c; (by left) || by right. Qed.

(** The attestations of the history, with one more call at its end. *)
Lemma once_step e h c X :
  (∀ c m a i, c ∈ h → attestation_of c = Some (m, a, i) → i ∈ used e (call_chain c)) →
  NoDup (filter (λ c, is_attested c = true) h) →
  match attestation_of c with
  | Some (m, a, i) => fresh_attestation e (call_chain c) m a i X
  | None => X = used e (call_chain c)
  end → NoDup (filter (λ c, is_attested c = true) (h ++ [c])).
Proof.
  intros Hu Hnd HX. rewrite filter_app. apply NoDup_app. split; [done|].
  destruct (is_attested c) eqn:Ec; unfold is_attested in Ec.
  - destruct (attestation_of c) as [[[m a] i]|] eqn:Ea; [|done]. destruct HX as (_ & Hi & _).
    rewrite filter_cons_True by (unfold is_attested; by rewrite Ea). split; [|by apply NoDup_singleton].
    intros c' [_ Hc']%list_elem_of_filter Hin. cbn in Hin. apply list_elem_of_singleton in Hin as ->. apply Hi. by eapply Hu.
  - rewrite filter_cons_False by (unfold is_attested; by destruct (attestation_of c)). split; [|constructor].
    intros c' _ Hin. by apply elem_of_nil in Hin.
Qed.

Lemma accounts_step e h c e' ok :
  accounts e h → is_u64 (call_amount c) → exec e c = (e', ok) → accounts e' (if ok then h ++ [c] else h).
Proof.
  intros [Hr Hp Hw Hk Hu Ha Ho] Hn He. destruct (exec_spec e c e' ok Hr Hn He) as (X & [Mp Mw Mu Mk] & Hr' & HX).
  destruct ok.
  - assert (Hsub : used e (call_chain c) ⊆ X).
    { destruct (attestation_of c) as [[[m a] i]|]; [destruct HX as [-> _]|rewrite HX]; set_solver. }
    split; [done|..].
    + intros x. by rewrite Mp, Hp, pool_of_snoc.
    + intros x u. by rewrite Mw, Hw, wrapped_of_snoc.
    + intros x. rewrite Mk. case_decide as E; [subst x|intros H; apply elem_of_app; left; by apply Hk].
      destruct (new_key_set c (key e (call_chain c))) as [->|E]; intros H; apply elem_of_app; [left; by apply Hk|right].
      rewrite <-E. by apply list_elem_of_singleton.
    + intros c' m a i [Hc|Hc]%elem_of_app E; rewrite Mu; case_decide as Ec.
      * apply Hsub. rewrite Ec. by eapply Hu.
      * by eapply Hu.
      * apply list_elem_of_singleton in Hc as ->. rewrite E in HX. destruct HX as [-> _]. set_solver.
      * by apply list_elem_of_singleton in Hc as ->.
    + intros c' [Hc|Hc]%elem_of_app.
      * specialize (Ha c' Hc). unfold authorized in *. destruct (attestation_of c') as [[[m a] i]|]; [|done].
        destruct Ha as (k & ? & ? & ?). exists k. conjs; [done|apply elem_of_app; by left|done].
      * apply list_elem_of_singleton in Hc as ->. unfold authorized. destruct (attestation_of c) as [[[m a] i]|]; [|done].
        destruct HX as (_ & _ & Hne & Hv). eexists. conjs; [exact Hne|apply elem_of_app; left; by apply Hk|done].
    + eapply once_step; [exact Hu|exact Ho|exact HX].
  - assert (Hsame : X = used e (call_chain c)) by (by destruct (attestation_of c) as [[[m a] i]|]).
    split; [done|..].
    + intros x. rewrite Mp, Hp. case_decide; lia.
    + intros x u. rewrite Mw, Hw. repeat case_decide; lia.
    + intros x. rewrite Mk. case_decide as E; [subst x|]; apply Hk.
    + intros c' m a i Hc E. rewrite Mu, Hsame. case_decide as Ec; [rewrite Ec|]; by eapply Hu.
    + done.
    + done.
Qed.

Lemma run_accounts calls e h e' h' :
  accounts e h → Forall (λ c, is_u64 (call_amount c)) calls → run e calls = (e', h') → accounts e' (h ++ h').
Proof.
  intros Ha Hn. revert e h e' h' Ha. induction Hn as [|c calls Hc _ IH]; intros e h e' h' Ha; cbn [run].
  - intros [= <- <-]. by rewrite app_nil_r.
  - destruct (exec e c) as [e1 ok] eqn:Ee. destruct (run e1 calls) as [e2 h2] eqn:Er. intros [= <- <-].
    pose proof (IH _ _ _ _ (accounts_step e h c e1 ok Ha Hc Ee) Er) as H. destruct ok; [|done].
    by rewrite <-app_assoc in H.
Qed.

End proofs.

(** ** The store *)

Definition chain_storable (x : string) (s : ChainState) : Prop :=
  x ≠ "" ∧ field x ∧ is_u64 (locked_pool s) ∧ free_of "010" (attestor_pubkey s) = true ∧
  Forall last_field (elements (used_attestations s)) ∧
  map_Forall (λ u v, u ≠ "" ∧ field u ∧ is_u64 v) (wrapped_balances s) ∧ Forall last_field (receipts s).
(** Names are not empty and free of separators; receipts and attestation numbers are
    digests, and keys are hex. *)
Definition storable (e : BridgeEngine) : Prop := map_Forall chain_storable e.
#[export] Instance storable_dec e : Decision (storable e).
Proof. unfold storable, chain_storable. apply _. Defined.

Ltac open_line := unfold load_line; rewrite getline_join by done; cbn [String.eqb Ascii.eqb Bool.eqb].

Lemma load_chain_line x v e :
  x ≠ "" → field x → is_u64 v →
  load_line (join "|" ["C"; x; to_string v]) e = Some (Ok (edit x (set_locked v) e)).
Proof.
  intros Hx [Hf _] Hv. open_line. rewrite getline_join, getline_last by (done || by apply to_string_free_of).
  no_empty. by rewrite number_to_string.
Qed.
Lemma load_attestor_line x k e :
  x ≠ "" → field x → last_field k → load_line (join "|" ["A"; x; k]) e = Some (Ok (edit x (set_attestor k) e)).
Proof. intros Hx [Hf _] [Hk Hn]. open_line. rewrite getline_join, getline_last by done. by no_empty. Qed.
Lemma load_used_line x a e :
  x ≠ "" → field x → last_field a →
  load_line (join "|" ["Y"; x; a]) e = Some (Ok (edit x (λ s, set_used ({[a]} ∪ used_attestations s) s) e)).
Proof. intros Hx [Hf _] [Ha Hn]. open_line. rewrite getline_join, getline_last by done. by no_empty. Qed.
Lemma load_receipt_line x r e :
  x ≠ "" → field x → last_field r → load_line (join "|" ["R"; x; r]) e = Some (Ok (edit x (push_receipt r) e)).
Proof. intros Hx [Hf _] [Hr Hn]. open_line. rewrite getline_join, getline_last by done. by no_empty. Qed.
Lemma load_wrapped_line x u v e :
  x ≠ "" → field x → u ≠ "" → field u → is_u64 v →
  load_line (join "|" ["W"; x; u; to_string v]) e = Some (Ok (edit x (set_wrapped u v) e)).
Proof.
  intros Hx [Hf _] Hu [Hg _] Hv. open_line. rewrite !getline_join, getline_last by (done || by apply to_string_free_of).
  no_empty. by rewrite number_to_string.
Qed.

Lemma edit_put x f s (e : BridgeEngine) : edit x f (<[x := s]> e) = <[x := f s]> e.
Proof. unfold edit, at_chain. by rewrite lookup_insert_eq, insert_insert_eq. Qed.
Lemma fold_edit {A} x (f : A → ChainState → ChainState) l s (e : BridgeEngine) :
  foldl (λ e a, edit x (f a) e) (<[x := s]> e) l = <[x := foldl (λ s a, f a s) s l]> e.
Proof. revert s. induction l as [|a l IH]; intros s; cbn [foldl]; [done|]. by rewrite edit_put, IH. Qed.
Lemma fold_used l s :
  foldl (λ s a, set_used ({[a]} ∪ used_attestations s) s) s l =
  set_used (foldl (λ X a, {[a]} ∪ X) (used_attestations s) l) s.
Proof. revert s. induction l as [|a l IH]; intros s; cbn [foldl]; [by destruct s|by rewrite IH]. Qed.
Lemma fold_wrapped (l : list (string * Z)) s :
  foldl (λ s ua, set_wrapped ua.1 ua.2 s) s l =
  mkChainState (locked_pool s) (attestor_pubkey s) (foldl (λ m ua, <[ua.1 := ua.2]> m) (wrapped_balances s) l)
    (receipts s) (used_attestations s).
Proof. revert s. induction l as [|a l IH]; intros s; cbn [foldl]; [by destruct s|by rewrite IH]. Qed.
Lemma fold_receipts l s :
  foldl (λ s r, push_receipt r s) s l =
  mkChainState (locked_pool s) (attestor_pubkey s) (wrapped_balances s) (receipts s ++ l) (used_attestations s).
Proof.
  revert s. induction l as [|a l IH]; intros s; cbn [foldl]; [rewrite app_nil_r; by destruct s|].
  rewrite IH. cbn. by rewrite <-app_assoc.
Qed.

Section store.
Context `{IterationOrder}.

Lemma chain_lines_load (e : BridgeEngine) x s :
  e !! x = None → chain_storable x s → loads load_line e (chain_lines (x, s)) (<[x := s]> e).
Proof.
  intros He (Hx & Hf & Hp & Hk & Hu & Hw & Hr). cbn [chain_lines].
  eapply loads_cons; [by apply join_ne|by apply load_chain_line|].
  unfold edit at 1, at_chain. rewrite He. cbn [default from_option].
  eapply (loads_app _ _ (<[x := set_attestor (attestor_pubkey s) (set_locked (locked_pool s) empty_chain)]> e)).
  { destruct (is_empty (attestor_pubkey s)) eqn:Ek.
    - apply is_empty_true in Ek. rewrite Ek. apply loads_nil.
    - apply is_empty_false in Ek. apply loads_one; [by apply join_ne|]. rewrite <-(edit_put x (set_attestor _)).
      by apply load_attestor_line. }
  eapply loads_app; [apply (loads_map _ _ (λ e a, edit x (λ s, set_used ({[a]} ∪ used_attestations s) s) e))|].
  { intros a e' Ha%(iter_set_Forall _ _ _ Hu). split; [by apply join_ne|by apply load_used_line]. }
  rewrite (fold_edit x (λ a s, set_used ({[a]} ∪ used_attestations s) s)), fold_used,
    (fold_insert_set _ (used_attestations s)) by apply iter_set_perm.
  eapply loads_app; [apply (loads_map _ _ (λ e ua, edit x (set_wrapped ua.1 ua.2) e))|].
  { intros [u v] e' Ha%(iter_map_Forall _ _ _ _ Hw). destruct Ha as (? & ? & ?).
    split; [by apply join_ne|by apply load_wrapped_line]. }
  rewrite (fold_edit x (λ ua, set_wrapped ua.1 ua.2)), fold_wrapped,
    (fold_insert_map _ (wrapped_balances s)) by apply iter_map_perm.
  replace (<[x := s]> e) with (foldl (λ e r, edit x (push_receipt r) e)
    (<[x := mkChainState (locked_pool s) (attestor_pubkey s) (wrapped_balances s) [] (used_attestations s)]> e) (receipts s)).
  - cbn [set_used set_attestor set_locked locked_pool attestor_pubkey wrapped_balances receipts used_attestations empty_chain].
    rewrite (right_id_L ∅ (∪) (wrapped_balances s)), (right_id_L ∅ (∪) (used_attestations s)).
    apply (loads_map _ _ (λ e r, edit x (push_receipt r) e)). intros r e' Hin.
    split; [by apply join_ne|]. apply load_receipt_line; [done..|]. by apply (proj1 (Forall_forall _ _) Hr).
  - rewrite (fold_edit x push_receipt), fold_receipts. by destruct s.
Qed.

Lemma chain_lines_clean x s : chain_storable x s → clean "010" (chain_lines (x, s)).
Proof.
  intros (Hx & Hf & Hp & Hk & Hu & Hw & Hr). cleanup. cbn [chain_lines]. apply Forall_cons. split; [by_line|].
  apply Forall_app; split; [destruct (is_empty _); by_clean; by_line|].
  apply Forall_app; split; [|apply Forall_app; split]; apply fmap_clean.
  - intros a []%(iter_set_Forall _ _ _ Hu). by_line.
  - intros [u v] (? & [] & ?)%(iter_map_Forall _ _ _ _ Hw). by_line.
  - intros r Hin. destruct (proj1 (Forall_forall _ _) Hr r Hin). by_line.
Qed.

(** Loading the dump of an engine gives the engine back, used attestations included, in
    whatever order its tables are visited. *)
Theorem load_dumped_bridge e : storable e → load_state (dump_state e) = (e, Some (Ok ())).
Proof.
  intros He. unfold load_state, dump_state. rewrite getlines_unlines.
  - apply (loads_map_entries _ _ _ _ chain_lines_load He).
  - apply concat_clean. intros [x s] Hin%(iter_map_Forall _ _ _ _ He). by apply chain_lines_clean.
Qed.
End store.
