(* ===== verification/Dandelion.v ===== *)
(** * Dandelion++ routing ([include/addition/dandelion.hpp], [src/dandelion.cpp])

    The random draws of a call are an argument, with the ranges of the standard library's
    distributions as the hypothesis [draws_ok]; so is the clock. Seconds are integers: a
    64-bit signed sum of a clock and the delays does not overflow. *)
From stdpp Require Import sorting.
From S2P Require Import Prelude Strings.

Record Params := mkParams {
  epoch_seconds : Z;
  embargo_base_seconds : Z;
  embargo_jitter_seconds : Z;
}.
(** What a call draws: the coin of a new epoch, the shuffle of the candidates, the index
    of a relay, the jitter of an embargo. *)
Record Draws := mkDraws {
  coin : bool;
  shuffle : list string → list string;
  pick : nat → nat;
  jitter : Z;
}.
Record Router := mkRouter {
  epoch : Z;
  diffuser : bool;
  relays : list string;
  source_to_relay : gmap string string;
  embargo_until : gmap string Z;
}.
Inductive RouteDecision := Fluff | Stem (relay : string).

#[export] Instance RouteDecision_eq_dec : EqDecision RouteDecision.
Proof. solve_decision. Defined.

(** The constructor. *)
Definition make_params (p : Params) : Params :=
  mkParams (if epoch_seconds p <=? 0 then 600 else epoch_seconds p) (embargo_base_seconds p) (embargo_jitter_seconds p).
Definition new_router : Router := mkRouter U64_MAX false [] ∅ ∅.

Definition draws_ok (p : Params) (d : Draws) : Prop :=
  (∀ l, shuffle d l ≡ₚ l) ∧ (∀ n, (0 < n)%nat → (pick d n < n)%nat) ∧
  0 ≤ jitter d ≤ Z.max 0 (embargo_jitter_seconds p).

(** [r] is stale when a chosen relay is no longer a candidate. *)
Definition stale (outbound : list string) (r : Router) : bool :=
  existsb (λ x, negb (bool_decide (x ∈ outbound))) (relays r).
Definition no_relays (r : Router) : bool := match relays r with [] => true | _ => false end.

Definition epoch_of (p : Params) (now : Z) : Z := u64 (Z.quot now (epoch_seconds p)).
Definition maybe_new_epoch (p : Params) (now : Z) (d : Draws) (outbound : list string) (r : Router) : Router :=
  let e := epoch_of p now in
  if (e =? epoch r) && negb (stale outbound r) &&
     negb (no_relays r && match outbound with [] => false | _ => true end)
  then r
  else
    let '(diff, ep) := if e =? epoch r then (diffuser r, epoch r) else (coin d, e) in
    mkRouter ep diff (take 2 (shuffle d (merge_sort str_le outbound))) ∅ (embargo_until r).

(** The key of local transactions. *)
Definition local_key : string := String "001" "local".
Definition source_key (source : string) : string := if is_empty source then local_key else source.

Definition route (p : Params) (now : Z) (d : Draws) (r : Router) (source : string) (outbound : list string) :
    Router * RouteDecision :=
  let r := maybe_new_epoch p now d outbound r in
  if negb (is_empty source) && diffuser r then (r, Fluff)
  else
    let c := filter (λ x, x ≠ source) (relays r) in
    match c with
    | [] => (r, Fluff)
    | _ =>
        let key := source_key source in
        let fresh :=
          let x := nth (pick d (length c)) c "" in
          (mkRouter (epoch r) (diffuser r) (relays r) (<[key := x]> (source_to_relay r)) (embargo_until r), Stem x) in
        match source_to_relay r !! key with
        | None => fresh
        | Some x => if bool_decide (x ∈ c) then (r, Stem x) else fresh
        end
    end.

Definition set_embargoes (m : gmap string Z) (r : Router) : Router :=
  mkRouter (epoch r) (diffuser r) (relays r) (source_to_relay r) m.

Definition embargo (p : Params) (now : Z) (d : Draws) (r : Router) (txid : string) : Router :=
  match embargo_until r !! txid with
  | Some _ => r
  | None => set_embargoes (<[txid := now + embargo_base_seconds p + jitter d]> (embargo_until r)) r
  end.
Definition mark_fluffed (r : Router) (txid : string) : Router := set_embargoes (delete txid (embargo_until r)) r.
Definition is_embargoed (r : Router) (txid : string) : bool := bool_decide (is_Some (embargo_until r !! txid)).

Definition expired_embargoes (now : Z) (r : Router) : Router * list string :=
  let late := filter (λ kv, kv.2 <= now) (embargo_until r) in
  (set_embargoes (filter (λ kv, ¬ kv.2 <= now) (embargo_until r)) r, merge_sort str_le (map_to_list late).*1).
