(* ===== verification/DandelionProofs.v ===== *)
(** * Stems never return, stay on their relay, and end in a fluff

    Any sequence of calls, with any draws the distributions allow. *)
From stdpp Require Import sorting.
From S2P Require Import Prelude Strings Dandelion.

(** ** Events *)

(** A call with its clock and its draws. *)
Inductive Event :=
  | ERoute (now : Z) (d : Draws) (source : string) (outbound : list string)
  | EEmbargo (now : Z) (d : Draws) (txid : string)
  | EFluffed (txid : string)
  | EExpired (now : Z).
Inductive Answer := ARoute (x : RouteDecision) | AExpired (l : list string) | ANone.

Section dandelion.
Context (p : Params).

Definition event (r : Router) (ev : Event) : Router * Answer :=
  match ev with
  | ERoute now d s out => let '(r, x) := route p now d r s out in (r, ARoute x)
  | EEmbargo now d tx => (embargo p now d r tx, ANone)
  | EFluffed tx => (mark_fluffed r tx, ANone)
  | EExpired now => let '(r, l) := expired_embargoes now r in (r, AExpired l)
  end.
Fixpoint events (r : Router) (evs : list Event) : Router * list Answer :=
  match evs with
  | [] => (r, [])
  | ev :: evs => let '(r, a) := event r ev in let '(r, l) := events r evs in (r, a :: l)
  end.
Definition event_ok (ev : Event) : Prop :=
  match ev with ERoute _ d _ _ | EEmbargo _ d _ => draws_ok p d | _ => True end.

(** ** One decision *)

Lemma maybe_new_epoch_relays now d out r :
  draws_ok p d →
  let r' := maybe_new_epoch p now d out r in
  epoch r' = epoch_of p now ∧ relays r' ⊆ out ∧ (out ≠ [] → relays r' ≠ []).
Proof.
  intros (Hs & _). unfold maybe_new_epoch. destruct (_ && _) eqn:E; cbn zeta.
  - apply andb_prop in E as [E Hn]. apply andb_prop in E as [He Hst]. apply Z.eqb_eq in He.
    conjs; [done| |].
    + intros x Hx. apply negb_true_iff in Hst. unfold stale in Hst. destruct (decide (x ∈ out)); [done|].
      exfalso. apply not_true_iff_false in Hst. apply Hst. apply existsb_exists. exists x.
      split; [by apply list_elem_of_In|]. by rewrite bool_decide_false.
    + intros Ho Hr. unfold no_relays in Hn. rewrite Hr in Hn. by destruct out.
  - assert (Hp : shuffle d (merge_sort str_le out) ≡ₚ out) by by rewrite Hs, merge_sort_Permutation.
    set (l := shuffle d _) in *. clearbody l.
    assert (G : take 2 l ⊆ out ∧ (out ≠ [] → take 2 l ≠ [])).
    { split; [intros x Hx; rewrite <-Hp, <-(take_drop 2 l); apply elem_of_app; by left|].
      intros Ho Ht. apply Ho. destruct l as [|x [|y l]]; [|done..]. by apply Permutation_nil_l in Hp. }
    destruct (Z.eqb_spec (epoch_of p now) (epoch r)); by cbn.
Qed.

(** Whom a route may name, by the relays and the side of the epoch it leaves behind. *)
Definition routed (r : Router) (s : string) (x : RouteDecision) : Prop :=
  match x with
  | Stem y => y ∈ relays r ∧ y ≠ s ∧ source_to_relay r !! source_key s = Some y ∧ (s ≠ "" → diffuser r = false)
  | Fluff => (s ≠ "" ∧ diffuser r = true) ∨ ∀ y, y ∈ relays r → y = s
  end.
Lemma route_routed now d r s out r' x :
  draws_ok p d → route p now d r s out = (r', x) →
  routed r' s x ∧ epoch r' = epoch_of p now ∧ relays r' ⊆ out ∧ (out ≠ [] → relays r' ≠ []).
Proof.
  intros Hd. pose proof (maybe_new_epoch_relays now d out r Hd) as H. cbn zeta in H. unfold route.
  set (r1 := maybe_new_epoch p now d out r) in *. clearbody r1.
  destruct (negb (is_empty s) && diffuser r1) eqn:Ef.
  { intros [= <- <-]. split; [|done]. left. apply andb_prop in Ef as [Hs Hf]. split; [|done].
    by apply is_empty_false, negb_true_iff. }
  assert (Hf : s ≠ "" → diffuser r1 = false).
  { intros Hs. by rewrite (proj2 (is_empty_false _) Hs) in Ef. }
  destruct (filter (λ x, x ≠ s) (relays r1)) as [|y c] eqn:Ec.
  { intros [= <- <-]. split; [|done]. right. intros y Hy. destruct (decide (y = s)) as [|Hne]; [done|].
    assert (Hin : y ∈ filter (λ x, x ≠ s) (relays r1)) by by apply list_elem_of_filter.
    rewrite Ec in Hin. by apply elem_of_nil in Hin. }
  assert (Hc : ∀ z, z ∈ y :: c → z ∈ relays r1 ∧ z ≠ s).
  { intros z Hz. rewrite <-Ec in Hz. by apply list_elem_of_filter in Hz as [? ?]. }
  assert (Hpick : nth (pick d (length (y :: c))) (y :: c) "" ∈ y :: c).
  { apply list_elem_of_In, nth_In. destruct Hd as (_ & Hpk & _). apply Hpk. cbn. lia. }
  destruct (Hc _ Hpick) as [Hr1 Hr2]. set (z := nth _ _ _) in *. clearbody z.
  destruct (source_to_relay r1 !! source_key s) as [w|] eqn:Ew; [case_bool_decide as Hw|].
  - intros [= <- <-]. split; [|done]. destruct (Hc w Hw). by cbn.
  - intros [= <- <-]. split; [|done]. cbn. by rewrite lookup_insert_eq.
  - intros [= <- <-]. split; [|done]. cbn. by rewrite lookup_insert_eq.
Qed.

(** ** The relay of a source stays *)

(** Calls within the epoch while the chosen relays are still there. *)
Definition calm (r : Router) (ev : Event) : Prop :=
  match ev with
  | ERoute now _ s out => epoch_of p now = epoch r ∧ relays r ⊆ out ∧ s ≠ local_key
  | _ => True
  end.
Definition same_epoch (r r' : Router) : Prop :=
  epoch r' = epoch r ∧ diffuser r' = diffuser r ∧ relays r' = relays r.

Lemma calm_epoch r now d out : epoch_of p now = epoch r → relays r ⊆ out → relays r ≠ [] → maybe_new_epoch p now d out r = r.
Proof.
  intros He Hsub Hne. unfold maybe_new_epoch. rewrite He, Z.eqb_refl.
  assert (Hs : stale out r = false).
  { unfold stale. apply not_true_iff_false. intros (x & Hx & Hb)%existsb_exists. apply list_elem_of_In in Hx.
    apply negb_true_iff, bool_decide_eq_false_1 in Hb. by apply Hb, Hsub. }
  rewrite Hs. unfold no_relays. by destruct (relays r).
Qed.
Lemma source_key_inj s t : s ≠ local_key → t ≠ local_key → source_key s = source_key t → s = t.
Proof.
  unfold source_key. intros Hs Ht. destruct (is_empty s) eqn:Es, (is_empty t) eqn:Et; intros E; try done.
  apply is_empty_true in Es, Et. by subst.
Qed.

(** [r] has given the relay [y] to [s]. *)
Definition assigned (r : Router) (s y : string) : Prop :=
  y ∈ relays r ∧ y ≠ s ∧ source_to_relay r !! source_key s = Some y ∧ (s ≠ "" → diffuser r = false).
Lemma assigned_route r s y now d out :
  assigned r s y → calm r (ERoute now d s out) → route p now d r s out = (r, Stem y).
Proof.
  intros (Hy & Hne & Hl & Hf) (He & Hsub & _). unfold route.
  rewrite calm_epoch by (done || by intros E; rewrite E in Hy; apply elem_of_nil in Hy).
  assert (E : negb (is_empty s) && diffuser r = false).
  { destruct (is_empty s) eqn:Es; [done|]. by rewrite Hf by by apply is_empty_false. }
  rewrite E. assert (Hin : y ∈ filter (λ x, x ≠ s) (relays r)) by by apply list_elem_of_filter.
  destruct (filter _ _) as [|z c] eqn:Ec; [by apply elem_of_nil in Hin|]. by rewrite Hl, bool_decide_true.
Qed.
Lemma assigned_event r0 r s y ev :
  s ≠ local_key → same_epoch r0 r → assigned r s y → calm r0 ev →
  same_epoch r0 (event r ev).1 ∧ assigned (event r ev).1 s y.
Proof.
  intros Hs Hr Ha Hc. pose proof Hr as (He & Hd & Hrl). pose proof Ha as (Hy & Hne & Hl & Hf).
  destruct ev as [now d t out|now d t|t|now]; cbn [event].
  - destruct Hc as (Hn & Hsub & Ht). rewrite <-He in Hn. rewrite <-Hrl in Hsub. unfold route.
    rewrite calm_epoch by (done || by intros E; rewrite E in Hy; apply elem_of_nil in Hy).
    destruct (negb _ && _); [done|]. destruct (filter _ _) as [|z c] eqn:Ec; [done|].
    assert (G : ∀ w, (∀ v, source_to_relay r !! source_key t = Some v → v ∉ z :: c) →
      assigned (mkRouter (epoch r) (diffuser r) (relays r) (<[source_key t := w]> (source_to_relay r)) (embargo_until r)) s y).
    { intros w Hw. unfold assigned. cbn. conjs; [done..| |done]. rewrite lookup_insert_ne; [done|].
      intros E%source_key_inj; [|done..]. subst t. apply (Hw y Hl). rewrite <-Ec. by apply list_elem_of_filter. }
    destruct (source_to_relay r !! source_key t) as [v|] eqn:Ev; [case_bool_decide as Hv; [done|]|];
      (split; [done|]; apply G; intros v' [= <-]); done.
  - unfold embargo. by destruct (embargo_until r !! t).
  - done.
  - done.
Qed.
Lemma assigned_events r0 r s y evs :
  s ≠ local_key → same_epoch r0 r → assigned r s y → Forall (calm r0) evs →
  same_epoch r0 (events r evs).1 ∧ assigned (events r evs).1 s y.
Proof.
  intros Hs. revert r. induction evs as [|ev evs IH]; intros r Hr Ha Hc; cbn [events]; [done|].
  apply Forall_cons in Hc as [Hev Hc]. destruct (assigned_event r0 r s y ev Hs Hr Ha Hev) as [Hr' Ha'].
  destruct (event r ev) as [r1 a]. cbn [fst] in *. specialize (IH r1 Hr' Ha' Hc).
  by destruct (events r1 evs) as [r2 l].
Qed.

(** A stem goes to a candidate that is not the source; a local transaction is fluffed
    only when there is no candidate; and as long as the epoch lasts and the chosen relays
    are there, every stem of the same source goes to the same relay, whatever else is
    routed in between. *)
Theorem stem_routing now d r s out r' x :
  draws_ok p d → route p now d r s out = (r', x) →
  match x with
  | Stem y => y ∈ out ∧ y ≠ s ∧
      ∀ evs now' d' out', s ≠ local_key → Forall (calm r') evs → calm r' (ERoute now' d' s out') →
        (route p now' d' (events r' evs).1 s out').2 = Stem y
  | Fluff => s = "" → "" ∉ out → out = []
  end.
Proof.
  intros Hd Hr. destruct (route_routed _ _ _ _ _ _ _ Hd Hr) as (Hx & _ & Hsub & Hne). destruct x as [|y].
  - intros -> Ho. destruct Hx as [[? _]|Hx]; [done|]. destruct out as [|o out]; [done|]. exfalso.
    destruct (relays r') as [|z l]; [by apply Hne|]. assert (z = "") as -> by (apply Hx; by left).
    apply Ho, Hsub. by left.
  - pose proof Hx as (Hy & Hys & _). conjs; [by apply Hsub|done|]. intros evs now' d' out' Hs Hevs Hc.
    destruct (assigned_events r' r' s y evs Hs) as [(He & _ & Hl) Ha]; [by split|done..|].
    rewrite (assigned_route _ s y); [done|done|]. unfold calm in *. by rewrite He, Hl.
Qed.

(** ** The embargo *)

Lemma expired_spec now r tx t :
  embargo_until r !! tx = Some t →
  if bool_decide (t <= now) then tx ∈ (expired_embargoes now r).2
  else embargo_until (expired_embargoes now r).1 !! tx = Some t.
Proof.
  intros H. unfold expired_embargoes. cbn [fst snd]. case_bool_decide as Ht.
  - rewrite merge_sort_Permutation. apply list_elem_of_fmap. exists (tx, t). split; [done|].
    apply elem_of_map_to_list. by apply map_lookup_filter_Some.
  - cbn. by apply map_lookup_filter_Some.
Qed.

Lemma route_embargoes now d r s out : embargo_until (route p now d r s out).1 = embargo_until r.
Proof.
  assert (H : embargo_until (maybe_new_epoch p now d out r) = embargo_until r).
  { unfold maybe_new_epoch. destruct (_ && _); [done|]. by destruct (_ =? _). }
  unfold route. destruct (negb _ && _); [done|]. destruct (filter _ _); [done|].
  destruct (_ !! _); [|done]. by destruct (bool_decide _).
Qed.

(** The calls after an embargo was set, up to a late look at the expired ones. *)
Lemma embargo_runs_out evs tx D t r :
  embargo_until r !! tx = Some D → EFluffed tx ∉ evs → D ≤ t →
  ∃ i t' l, (evs ++ [EExpired t]) !! i = Some (EExpired t') ∧
    (events r (evs ++ [EExpired t])).2 !! i = Some (AExpired l) ∧ tx ∈ l ∧ D ≤ t'.
Proof.
  revert r. induction evs as [|ev evs IH]; intros r Hr Hf Ht.
  - pose proof (expired_spec t r tx D Hr) as H. rewrite bool_decide_true in H by done.
    exists 0%nat, t, (expired_embargoes t r).2. cbn [app events event]. by destruct (expired_embargoes t r).
  - apply not_elem_of_cons in Hf as [Hev Hf]. cbn [app events].
    assert (Step : embargo_until (event r ev).1 !! tx = Some D ∨
      ∃ t' l, ev = EExpired t' ∧ (event r ev).2 = AExpired l ∧ tx ∈ l ∧ D ≤ t').
    { destruct ev as [now d s out|now d t'|t'|now]; cbn [event].
      - left. pose proof (route_embargoes now d r s out) as E. destruct (route _ _ _ _ _ _). cbn in *. by rewrite E.
      - left. unfold embargo. destruct (embargo_until r !! t') eqn:E; [done|]. cbn.
        rewrite lookup_insert_ne; [done|]. intros ->. by rewrite Hr in E.
      - left. cbn. rewrite lookup_delete_ne; [done|]. by intros ->.
      - pose proof (expired_spec now r tx D Hr) as H. destruct (expired_embargoes now r) as [r' l].
        case_bool_decide; [right|by left]. by exists now, l. }
    destruct (event r ev) as [r1 a]. cbn [fst snd] in Step. destruct Step as [Hr1|(t' & l & -> & -> & Hl & Hd)].
    + destruct (IH r1 Hr1 Hf Ht) as (i & t' & l & H1 & H2 & H3 & H4). exists (S i), t', l.
      by destruct (events r1 _) as [r2 al].
    + exists 0%nat, t', l. by destruct (events r1 _) as [r2 al].
Qed.

(** A stemmed transaction that is never seen fluffed is handed out for fluffing: not
    before the base delay, and at the latest by the first look at the embargoes after
    base and jitter. *)
Theorem embargo_ends now d r tx evs t :
  is_embargoed r tx = false → draws_ok p d → EFluffed tx ∉ evs →
  now + embargo_base_seconds p + Z.max 0 (embargo_jitter_seconds p) ≤ t →
  ∃ i t' l, (evs ++ [EExpired t]) !! i = Some (EExpired t') ∧
    (events (embargo p now d r tx) (evs ++ [EExpired t])).2 !! i = Some (AExpired l) ∧ tx ∈ l ∧
    now + embargo_base_seconds p ≤ t'.
Proof.
  intros He (_ & _ & Hj) Hf Ht. unfold is_embargoed in He. apply bool_decide_eq_false_1, eq_None_not_Some in He.
  destruct (embargo_runs_out evs tx (now + embargo_base_seconds p + jitter d) t (embargo p now d r tx))
    as (i & t' & l & H1 & H2 & H3 & H4).
  - unfold embargo. rewrite He. cbn. by rewrite lookup_insert_eq.
  - done.
  - lia.
  - exists i, t', l. conjs; [done..|lia].
Qed.
End dandelion.
