(* ===== verification/Peers.v ===== *)
(** * Peer addresses and the peer table ([src/net_transport.cpp], [src/config.cpp],
    [include/addition/p2p.hpp], [src/p2p.cpp])

    Which addresses are peers and how a connection to them is made; the table of peers
    with their scores, bans and candidates. Clocks are arguments. The result of an eviction
    does not depend on the order in which the set of peers is visited: ties are broken by
    name. *)
From stdpp Require Import sorting.
From S2P Require Import Prelude Strings.

(** ** Addresses *)

(** [endpoint.rfind(':')], as the parts before and after it. *)
Fixpoint rsplit (c : ascii) (s : string) : option (string * string) :=
  match s with
  | "" => None
  | String d s =>
      match rsplit c s with
      | Some (a, b) => Some (String d a, b)
      | None => if Ascii.eqb d c then Some ("", s) else None
      end
  end.

(** [inet_pton(AF_INET, host)] of the system. *)
Class Inet := { inet_pton_ok : string → bool }.

Section endpoints.
Context {I : Inet}.

Definition split_host_port (ep : string) : option (string * Z) :=
  match rsplit ":" ep with
  | None => None
  | Some (host, ps) =>
      if is_empty host || is_empty ps || (5 <? String.length ps)%nat then None
      else if negb (all_chars is_digit_char ps) then None
      else let p := dec_val 0 ps in if (p =? 0) || (65535 <? p) then None else Some (host, p)
  end.

Definition is_onion_char (c : ascii) : bool :=
  let b := byte_of_char c in ((97 <=? b) && (b <=? 122)) || ((50 <=? b) && (b <=? 55)).
Definition is_onion_v3_host (host : string) : bool :=
  (String.length host =? 62)%nat && String.eqb (str_drop 56 host) ".onion" &&
  all_chars is_onion_char (str_take 56 host) && (str_byte host 55 =? 100).

Definition is_peer_endpoint (ep : string) : bool :=
  match split_host_port ep with
  | None => false
  | Some (host, _) => is_onion_v3_host host || inet_pton_ok host
  end.

Definition is_loopback_host (host : string) : bool :=
  existsb (String.eqb host) ["127.0.0.1"; "0.0.0.0"; "localhost"; "::1"].
Definition is_loopback_endpoint (ep : string) : bool :=
  match rsplit ":" ep with
  | None => false
  | Some (host, _) => negb (is_empty host) && is_loopback_host host
  end.
Definition is_self_peer_label (ep : string) : bool :=
  String.eqb ep "self" || String.eqb ep "probe-self" ||
  (starts_with "self" ep && negb (is_peer_endpoint ep)) || starts_with "probe-self" ep.
Definition is_external_advertised_peer (ep : string) : bool :=
  is_peer_endpoint ep && negb (is_loopback_endpoint ep) && negb (is_self_peer_label ep).

(** How a connection to a host is made. *)
Record TransportPolicy := mkTransportPolicy {
  socks_proxy : string;
  onion_only : bool;
  proxy_all : bool;
}.
Inductive RouteKind := Direct | Socks | Refused.

Definition route_for (host : string) (p : TransportPolicy) : RouteKind :=
  if is_onion_v3_host host then if is_empty (socks_proxy p) then Refused else Socks
  else if onion_only p then Refused
  else if proxy_all p && negb (is_empty (socks_proxy p)) then Socks
  else Direct.
End endpoints.

(** ** The table *)

Definition kMaxScore : Z := 100.
Definition kMinScore : Z := -10.
Definition kBanScore : Z := -5.

Record PeerNetwork := mkPeerNetwork {
  peers_ : gset string;
  score_ : gmap string Z;
  banned_ : gmap string Z;
  backoff_ : gmap string Z;
  seeds_ : gset string;
  candidates_ : gset string;
  soft_banned_ : gset string;
  max_peers_ : nat;
  max_candidates_ : nat;
  ban_seconds_ : Z;
}.
Definition new_network : PeerNetwork := mkPeerNetwork ∅ ∅ ∅ ∅ ∅ ∅ ∅ 125 1000 3600.

Definition set_limits (mp mc : nat) (bs : Z) (n : PeerNetwork) : PeerNetwork :=
  mkPeerNetwork (peers_ n) (score_ n) (banned_ n) (backoff_ n) (seeds_ n) (candidates_ n) (soft_banned_ n)
    (if (0 <? mp)%nat then mp else 1%nat) mc (if 0 <? bs then bs else 1).
Definition set_peers (X : gset string) (sc : gmap string Z) (n : PeerNetwork) : PeerNetwork :=
  mkPeerNetwork X sc (banned_ n) (backoff_ n) (seeds_ n) (candidates_ n) (soft_banned_ n) (max_peers_ n)
    (max_candidates_ n) (ban_seconds_ n).
Definition set_bans (b bo : gmap string Z) (soft : gset string) (n : PeerNetwork) : PeerNetwork :=
  mkPeerNetwork (peers_ n) (score_ n) b bo (seeds_ n) (candidates_ n) soft (max_peers_ n) (max_candidates_ n)
    (ban_seconds_ n).
Definition set_known (s c : gset string) (n : PeerNetwork) : PeerNetwork :=
  mkPeerNetwork (peers_ n) (score_ n) (banned_ n) (backoff_ n) s c (soft_banned_ n) (max_peers_ n)
    (max_candidates_ n) (ban_seconds_ n).

Definition has_peer (n : PeerNetwork) (ep : string) : bool := bool_decide (ep ∈ peers_ n).
Definition peer_count (n : PeerNetwork) : nat := size (peers_ n).
Definition score (n : PeerNetwork) (ep : string) : Z := map_get0 (score_ n) ep.

Definition is_banned (now : Z) (n : PeerNetwork) (ep : string) : bool :=
  from_option (λ t, now <? t) false (banned_ n !! ep).
Definition ban_expiry (now : Z) (n : PeerNetwork) (ep : string) : Z :=
  if is_banned now n ep then default 0 (banned_ n !! ep) else 0.
Definition in_backoff (now : Z) (n : PeerNetwork) (ep : string) : bool :=
  from_option (λ t, now <? t) false (backoff_ n !! ep).

(** One step of the search for the peer to evict. *)
Definition worse (n : PeerNetwork) (acc : Z * string) (p : string) : Z * string :=
  if bool_decide (p ∈ seeds_ n) then acc
  else let sc := score n p in
       if (sc <? acc.1) || ((sc =? acc.1) && str_ltb p acc.2) then (sc, p) else acc.
Definition eviction_victim (n : PeerNetwork) : string :=
  (foldl (worse n) (kMaxScore + 1, "") (elements (peers_ n))).2.
Fixpoint evict_if_full (fuel : nat) (n : PeerNetwork) : PeerNetwork :=
  match fuel with
  | O => n
  | S fuel =>
      if (size (peers_ n) <? max_peers_ n)%nat then n
      else
        let v := eviction_victim n in
        if is_empty v then n
        else evict_if_full fuel (set_peers (peers_ n ∖ {[v]}) (delete v (score_ n)) n)
  end.

(** [score_.try_emplace(ep, 0)] *)
Definition try_score (ep : string) (sc : gmap string Z) : gmap string Z :=
  match sc !! ep with Some _ => sc | None => <[ep := 0]> sc end.

Definition add_peer (now : Z) (n : PeerNetwork) (ep : string) : PeerNetwork * bool :=
  if is_empty ep || is_banned now n ep then (n, false)
  else
    let n := set_bans (delete ep (banned_ n)) (backoff_ n) (soft_banned_ n) n in
    if has_peer n ep then (n, false)
    else
      let n := evict_if_full (size (peers_ n)) n in
      if (max_peers_ n <=? size (peers_ n))%nat then (n, false)
      else
        (set_peers ({[ep]} ∪ peers_ n) (try_score ep (score_ n)) (set_known (seeds_ n) (candidates_ n ∖ {[ep]}) n),
         true).

Definition add_seed (n : PeerNetwork) (ep : string) : PeerNetwork * bool :=
  if is_empty ep then (n, false)
  else
    let n := set_bans (delete ep (banned_ n)) (backoff_ n) (soft_banned_ n)
               (set_known ({[ep]} ∪ seeds_ n) (candidates_ n) n) in
    if has_peer n ep then (n, false)
    else (set_peers ({[ep]} ∪ peers_ n) (try_score ep (score_ n)) n, true).

Definition add_candidate (now : Z) (n : PeerNetwork) (ep : string) : PeerNetwork * bool :=
  if is_empty ep || has_peer n ep || is_banned now n ep then (n, false)
  else if (max_candidates_ n <=? size (candidates_ n))%nat then (n, false)
  else (set_known (seeds_ n) ({[ep]} ∪ candidates_ n) n, negb (bool_decide (ep ∈ candidates_ n))).

Definition promote_candidate (now : Z) (n : PeerNetwork) (ep : string) : PeerNetwork * bool :=
  if bool_decide (ep ∈ candidates_ n)
  then add_peer now (set_known (seeds_ n) (candidates_ n ∖ {[ep]}) n) ep
  else (n, false).
Definition remove_candidate (n : PeerNetwork) (ep : string) : PeerNetwork * bool :=
  (set_known (seeds_ n) (candidates_ n ∖ {[ep]}) n, bool_decide (ep ∈ candidates_ n)).
Definition remove_peer (n : PeerNetwork) (ep : string) : PeerNetwork * bool :=
  (set_peers (peers_ n ∖ {[ep]}) (score_ n) n, bool_decide (ep ∈ peers_ n)).

Definition mark_peer_good (n : PeerNetwork) (ep : string) : PeerNetwork :=
  if negb (has_peer n ep) then n
  else set_peers (peers_ n) (<[ep := Z.min kMaxScore (score n ep + 1)]> (score_ n))
         (set_bans (banned_ n) (delete ep (backoff_ n)) (soft_banned_ n) n).

Definition mark_peer_bad (now : Z) (n : PeerNetwork) (ep : string) : PeerNetwork :=
  if negb (has_peer n ep) then n
  else
    let sc := Z.max kMinScore (score n ep - 1) in
    if kBanScore <? sc then set_peers (peers_ n) (<[ep := sc]> (score_ n)) n
    else if bool_decide (ep ∈ seeds_ n)
    then set_peers (peers_ n) (<[ep := kBanScore + 2]> (score_ n))
           (set_bans (banned_ n) (<[ep := now + 60]> (backoff_ n)) (soft_banned_ n) n)
    else set_peers (peers_ n ∖ {[ep]}) (delete ep (score_ n))
           (set_bans (<[ep := now + ban_seconds_ n]> (banned_ n)) (backoff_ n) (soft_banned_ n ∖ {[ep]}) n).

Definition mark_peer_unreachable (now : Z) (n : PeerNetwork) (ep : string) : PeerNetwork :=
  if negb (has_peer n ep) then n
  else
    let sc := Z.max kMinScore (score n ep - 1) in
    if sc <=? kBanScore
    then set_peers (peers_ n) (<[ep := kBanScore + 1]> (score_ n))
           (set_bans (banned_ n) (<[ep := now + 60]> (backoff_ n)) (soft_banned_ n) n)
    else set_peers (peers_ n) (<[ep := sc]> (score_ n)) n.

Definition readmit_authenticated (now : Z) (n : PeerNetwork) (ep : string) : PeerNetwork :=
  let soft := bool_decide (ep ∈ soft_banned_ n) in
  let n := set_bans (if soft then delete ep (banned_ n) else banned_ n) (delete ep (backoff_ n))
             (soft_banned_ n ∖ {[ep]}) n in
  if is_banned now n ep then n
  else
    let n := set_bans (delete ep (banned_ n)) (backoff_ n) (soft_banned_ n) n in
    let X := if negb (has_peer n ep) && (size (peers_ n) <? max_peers_ n)%nat then {[ep]} ∪ peers_ n else peers_ n in
    set_peers X (<[ep := Z.max 0 (score n ep)]> (score_ n)) n.

(** Peers by score, best first, those in backoff left out; [0] stands for all. *)
Definition better (a b : Z * string) : Prop := b.1 < a.1 ∨ (a.1 = b.1 ∧ str_ltb b.2 a.2 = false).
#[export] Instance better_dec a b : Decision (better a b).
Proof. unfold better. apply _. Defined.
Definition select_peers (now : Z) (k : nat) (n : PeerNetwork) : list string :=
  let l := filter (λ p, in_backoff now n p = false) (elements (peers_ n)) in
  let l := (merge_sort better ((λ p, (score n p, p)) <$> l)).*2 in
  match k with O => l | _ => take k l end.

Definition sorted_names (l : list string) : list string := merge_sort str_le l.
Definition candidates (n : PeerNetwork) : list string := sorted_names (elements (candidates_ n)).

Section reports.
Context {I : Inet}.
Definition advertised_peers (n : PeerNetwork) : list string :=
  sorted_names (filter (λ p, is_external_advertised_peer p = true) (elements (peers_ n))).
Definition loopback_peers (n : PeerNetwork) : list string :=
  sorted_names (filter (λ p, is_loopback_endpoint p = true) (elements (peers_ n))).
Definition advertised_peer_count (n : PeerNetwork) : nat :=
  length (filter (λ p, is_external_advertised_peer p = true) (elements (peers_ n))).
Definition loopback_peer_count (n : PeerNetwork) : nat :=
  length (filter (λ p, is_loopback_endpoint p = true) (elements (peers_ n))).
End reports.
