(* ===== verification/PeersProofs.v ===== *)
(** * The peer table stays bounded and keeps its bans

    Any sequence of calls, at any clocks. *)
From S2P Require Import Prelude Strings Peers.

Inductive PeerOp :=
  | AddPeer (now : Z) (ep : string)
  | AddSeed (ep : string)
  | AddCandidate (now : Z) (ep : string)
  | PromoteCandidate (now : Z) (ep : string)
  | RemoveCandidate (ep : string)
  | MarkGood (ep : string)
  | MarkBad (now : Z) (ep : string)
  | MarkUnreachable (now : Z) (ep : string)
  | Readmit (now : Z) (ep : string).

Definition peer_step (n : PeerNetwork) (o : PeerOp) : PeerNetwork :=
  match o with
  | AddPeer now ep => (add_peer now n ep).1
  | AddSeed ep => (add_seed n ep).1
  | AddCandidate now ep => (add_candidate now n ep).1
  | PromoteCandidate now ep => (promote_candidate now n ep).1
  | RemoveCandidate ep => (remove_candidate n ep).1
  | MarkGood ep => mark_peer_good n ep
  | MarkBad now ep => mark_peer_bad now n ep
  | MarkUnreachable now ep => mark_peer_unreachable now n ep
  | Readmit now ep => readmit_authenticated now n ep
  end.
Definition peer_run (n : PeerNetwork) (ops : list PeerOp) : PeerNetwork := foldl peer_step n ops.

(** The table is bounded, nobody in it is banned, no score is a ban, seeds stay. *)
Record table_ok (n : PeerNetwork) : Prop := {
  table_size : (size (peers_ n) ≤ max_peers_ n + size (seeds_ n))%nat;
  table_candidates : (size (candidates_ n) ≤ max_candidates_ n)%nat;
  table_banned : ∀ p, p ∈ peers_ n → banned_ n !! p = None;
  table_scores : ∀ p s, score_ n !! p = Some s → kBanScore < s ≤ kMaxScore;
  table_seeds : seeds_ n ⊆ peers_ n;
}.

(** ** Eviction *)

Lemma worse_fold n l acc :
  let r := foldl (worse n) acc l in r = acc ∨ (r.2 ∈ l ∧ r.2 ∉ seeds_ n).
Proof.
  revert acc. induction l as [|p l IH]; intros acc; cbn [foldl]; [by left|].
  destruct (IH (worse n acc p)) as [E|[H1 H2]]; [|right; split; [by right|done]].
  rewrite E. unfold worse. case_bool_decide; [by left|]. destruct (_ || _); [|by left]. right. split; [by left|done].
Qed.
Lemma eviction_victim_spec n v : eviction_victim n = v → v ≠ "" → v ∈ peers_ n ∧ v ∉ seeds_ n.
Proof.
  unfold eviction_victim. intros <- Hv. destruct (worse_fold n (elements (peers_ n)) (kMaxScore + 1, "")) as [E|[H1 H2]].
  - by rewrite E in Hv.
  - split; [by apply elem_of_elements|done].
Qed.

(** What eviction may change. *)
Definition evicted (n n' : PeerNetwork) : Prop :=
  peers_ n' ⊆ peers_ n ∧ (∀ p, p ∈ seeds_ n → p ∈ peers_ n → p ∈ peers_ n') ∧
  (∀ p s, score_ n' !! p = Some s → score_ n !! p = Some s) ∧
  n' = set_peers (peers_ n') (score_ n') n.
Lemma evict_if_full_evicted fuel n : evicted n (evict_if_full fuel n).
Proof.
  revert n. induction fuel as [|fuel IH]; intros n; cbn [evict_if_full].
  { split; [done|]. split; [done|]. split; [done|by destruct n]. }
  destruct (_ <? _)%nat; [split; [done|]; split; [done|]; split; [done|by destruct n]|].
  destruct (is_empty (eviction_victim n)) eqn:Ev; [split; [done|]; split; [done|]; split; [done|by destruct n]|].
  apply is_empty_false in Ev. destruct (eviction_victim_spec n _ eq_refl Ev) as [Hv Hs].
  set (n1 := set_peers _ _ n). destruct (IH n1) as (H1 & H2 & H3 & H4).
  cbn [n1 peers_ seeds_ score_ set_peers] in H1, H2, H3.
  unfold evicted. conjs.
  - intros p [Hp _]%H1%elem_of_difference. exact Hp.
  - intros p Hp Hin. apply H2; [done|]. apply elem_of_difference. split; [done|]. intros ->%elem_of_singleton. by apply Hs.
  - intros p s Hp%H3. by apply lookup_delete_Some in Hp as [_ ?].
  - rewrite H4 at 1. done.
Qed.

(** ** The invariant *)

Lemma try_score_Some ep sc p s : try_score ep sc !! p = Some s → sc !! p = Some s ∨ s = 0.
Proof.
  unfold try_score. destruct (sc !! ep) eqn:E; [by left|]. destruct (decide (ep = p)) as [<-|Hne].
  - rewrite lookup_insert_eq. intros [= <-]. by right.
  - rewrite lookup_insert_ne by done. by left.
Qed.
Lemma score_bounds n ep : table_ok n → kBanScore < score n ep ≤ kMaxScore.
Proof.
  intros Hn. unfold score, map_get0. destruct (score_ n !! ep) eqn:E; [by apply (table_scores n Hn ep)|].
  cbn. unfold kBanScore, kMaxScore. lia.
Qed.
Lemma insert_score ep v (sc : gmap string Z) :
  (∀ p s, sc !! p = Some s → kBanScore < s ≤ kMaxScore) → kBanScore < v ≤ kMaxScore →
  ∀ p s, <[ep := v]> sc !! p = Some s → kBanScore < s ≤ kMaxScore.
Proof.
  intros Hsc Hv p s. destruct (decide (ep = p)) as [<-|Hne].
  - rewrite lookup_insert_eq. by intros [= <-].
  - rewrite lookup_insert_ne by done. apply Hsc.
Qed.
Lemma delete_ban (b : gmap string Z) ep (X : gset string) :
  (∀ p, p ∈ X → b !! p = None) → ∀ p, p ∈ {[ep]} ∪ X → delete ep b !! p = None.
Proof.
  intros Hb p [->%elem_of_singleton|Hp]%elem_of_union; [apply lookup_delete_eq|].
  apply lookup_delete_None. right. by apply Hb.
Qed.
Lemma size_insert_le (X : gset string) ep : (size ({[ep]} ∪ X) ≤ S (size X))%nat.
Proof.
  rewrite size_union_alt, size_singleton. pose proof (subseteq_size (X ∖ {[ep]}) X ltac:(set_solver)). lia.
Qed.
Lemma size_remove_le (X : gset string) ep : (size (X ∖ {[ep]}) ≤ size X)%nat.
Proof. apply subseteq_size. set_solver. Qed.

Ltac sizes := repeat match goal with
  | |- context [size ({[?e]} ∪ ?X)] => pose proof (size_insert_le X e); generalize dependent (size ({[e]} ∪ X)); intros
  | |- context [size (?X ∖ {[?e]})] => pose proof (size_remove_le X e); generalize dependent (size (X ∖ {[e]})); intros
  end.

Lemma add_peer_ok now n ep : table_ok n → table_ok (add_peer now n ep).1.
Proof.
  intros [Hs Hc Hb Hsc Hse]. unfold add_peer. destruct (_ || _); [done|]. set (n1 := set_bans _ _ _ n).
  assert (H1 : table_ok n1).
  { split; cbn; [done|done| |done|done]. intros p Hp. apply lookup_delete_None. right. by apply Hb. }
  destruct (has_peer n1 ep); [done|]. destruct (evict_if_full_evicted (size (peers_ n1)) n1) as (E1 & E2 & E3 & E4).
  set (n2 := evict_if_full _ n1) in *.
  assert (F : max_peers_ n2 = max_peers_ n ∧ max_candidates_ n2 = max_candidates_ n ∧ seeds_ n2 = seeds_ n ∧
    candidates_ n2 = candidates_ n ∧ banned_ n2 = delete ep (banned_ n)) by (rewrite E4; done).
  clearbody n2. destruct F as (F1 & F2 & F3 & F4 & F5).
  assert (Hse2 : seeds_ n ⊆ peers_ n2) by (intros p Hp; apply E2; [done|by apply Hse]).
  destruct (Nat.leb_spec (max_peers_ n2) (size (peers_ n2))) as [Hf|Hf]; cbn [fst].
  - split; rewrite ?F1, ?F2, ?F3, ?F4, ?F5; [|done| |by intros p s ?%E3; eapply Hsc|done].
    + etrans; [by apply subseteq_size|done].
    + intros p Hp%E1. by apply (table_banned n1 H1).
  - split; cbn [peers_ score_ banned_ candidates_ seeds_ max_peers_ max_candidates_ set_peers set_known];
      rewrite ?F1, ?F2, ?F3, ?F4, ?F5.
    + sizes. lia.
    + sizes. lia.
    + intros p Hp%elem_of_union; destruct Hp as [->%elem_of_singleton|Hp]; [apply lookup_delete_eq|].
      apply lookup_delete_None. right. by apply Hb, E1.
    + intros p s H%try_score_Some; destruct H as [H| ->]; [by eapply Hsc, E3|unfold kBanScore, kMaxScore; lia].
    + set_solver.
Qed.
Lemma peer_step_ok n o : table_ok n → table_ok (peer_step n o).
Proof.
  intros Hn. pose proof (score_bounds n) as Hsb. pose proof Hn as [Hs Hc Hb Hsc Hse].
  destruct o as [now ep|ep|now ep|now ep|ep|ep|now ep|now ep|now ep]; cbn [peer_step]; specialize (Hsb ep Hn);
    unfold kBanScore, kMaxScore in *.
  - by apply add_peer_ok.
  - unfold add_seed. destruct (is_empty ep); [done|]. set (n1 := set_bans _ _ _ _).
    destruct (has_peer n1 ep) eqn:Ep; unfold has_peer in Ep.
    + apply bool_decide_eq_true in Ep. cbn in Ep. split; cbn; [|done| |done|set_solver].
      * pose proof (subseteq_size (seeds_ n) ({[ep]} ∪ seeds_ n)). set_unfold. specialize (H ltac:(set_solver)). lia.
      * intros p Hp. apply lookup_delete_None. right. by apply Hb.
    + apply bool_decide_eq_false in Ep. cbn in Ep. split; cbn; [|done|by apply delete_ban| |set_solver].
      * assert (ep ∉ seeds_ n) by set_solver. rewrite !size_union, size_singleton by set_solver. lia.
      * intros p s H%try_score_Some; destruct H as [H| ->]; [by eapply Hsc|unfold kBanScore, kMaxScore; lia].
  - unfold add_candidate. destruct (_ || _); [done|]. destruct (Nat.leb_spec (max_candidates_ n) (size (candidates_ n))); [done|].
    split; cbn; try done. sizes. lia.
  - unfold promote_candidate. case_bool_decide; [|done]. apply add_peer_ok. split; cbn; try done. sizes. lia.
  - split; cbn; try done. sizes. lia.
  - unfold mark_peer_good. destruct (negb _); [done|]. split; cbn; try done. apply insert_score; [done|].
    unfold kMaxScore, kBanScore. lia.
  - unfold mark_peer_bad. destruct (negb (has_peer n ep)) eqn:Ep; [done|].
    destruct (Z.ltb_spec kBanScore (Z.max kMinScore (score n ep - 1))) as [H|H]; [|case_bool_decide as Hseed].
    + split; cbn; try done. apply insert_score; [done|]. unfold kBanScore, kMinScore, kMaxScore in *. lia.
    + split; cbn; try done. apply insert_score; [done|]. unfold kBanScore, kMinScore, kMaxScore in *. lia.
    + split; cbn; [sizes; lia|done| | |set_solver].
      * intros p Hp. rewrite lookup_insert_ne by set_solver. apply Hb. set_solver.
      * intros p s [_ H']%lookup_delete_Some. by eapply Hsc.
  - unfold mark_peer_unreachable. destruct (negb _); [done|].
    destruct (Z.leb_spec (Z.max kMinScore (score n ep - 1)) kBanScore) as [H|H];
      split; cbn; try done; (apply insert_score; [done|]); unfold kBanScore, kMinScore, kMaxScore in *; lia.
  - unfold readmit_authenticated. set (n1 := set_bans _ _ _ n).
    assert (H1 : table_ok n1).
    { split; cbn; try done. intros p Hp. case_bool_decide; [apply lookup_delete_None; right|]; by apply Hb. }
    destruct (is_banned now n1 ep); [done|]. split; cbn [peers_ score_ banned_ candidates_ seeds_ max_peers_ max_candidates_ set_peers set_bans]; try done.
    + destruct (negb _ && _) eqn:E; [|done]. apply andb_prop in E as [_ E%Nat.ltb_lt]. cbn in E |- *. sizes. lia.
    + destruct (negb _ && _); [apply delete_ban, H1|]. intros p Hp. apply lookup_delete_None. right. by apply H1.
    + apply insert_score; [done|]. change (score _ ep) with (score n ep). unfold kBanScore, kMaxScore. lia.
    + destruct (negb _ && _); [set_solver|done].
Qed.

(** Over any sequence of calls the table holds at most its limit besides the seeds, every
    seed is kept, nobody in the table is banned and no score is low enough for a ban. *)
Theorem peer_table mp mc bs ops : table_ok (peer_run (set_limits mp mc bs new_network) ops).
Proof.
  unfold peer_run. assert (H : table_ok (set_limits mp mc bs new_network)).
  { split; try done; cbn -[size]; rewrite size_empty; lia. }
  revert H. generalize (set_limits mp mc bs new_network). induction ops as [|o ops IH]; intros n Hn; cbn; [done|].
  by apply IH, peer_step_ok.
Qed.
