(* ===== verification/Votes.v ===== *)
(** * The vote counter ([include/addition/consensus_engine.hpp], [src/consensus_engine.cpp])

    Votes per height and block hash, each peer counted once. [has_quorum] asks for more
    than two thirds of the peers. *)
From S2P Require Import Prelude.

(** height, block hash, peers *)
Notation ConsensusEngine := (gmap Z (gmap string (gset string))).

Definition submit_vote (e : ConsensusEngine) (peer : string) (height : Z) (block_hash : string) : ConsensusEngine :=
  if is_empty peer || is_empty block_hash then e
  else
    let m := default ∅ (e !! height) in
    <[height := <[block_hash := {[peer]} ∪ default ∅ (m !! block_hash)]> m]> e.

Definition voters (e : ConsensusEngine) (height : Z) (block_hash : string) : gset string :=
  match e !! height with
  | None => ∅
  | Some m => match m !! block_hash with None => ∅ | Some X => X end
  end.
Definition vote_count (e : ConsensusEngine) (height : Z) (block_hash : string) : nat := size (voters e height block_hash).

(** [2 * total_peers] wraps like any [std::size_t]. *)
Definition has_quorum (e : ConsensusEngine) (height : Z) (block_hash : string) (total_peers : Z) : bool :=
  if total_peers =? 0 then false
  else u64 (2 * total_peers) / 3 + 1 <=? Z.of_nat (vote_count e height block_hash).

(** ** What a quorum means *)

Definition Vote : Type := string * Z * string.
Definition submit_all (e : ConsensusEngine) (vs : list Vote) : ConsensusEngine :=
  foldl (λ e v, submit_vote e v.1.1 v.1.2 v.2) e vs.

Lemma voters_submit e p h b h' b' :
  voters (submit_vote e p h b) h' b' =
  if decide (h = h' ∧ b = b' ∧ p ≠ "" ∧ b ≠ "") then {[p]} ∪ voters e h' b' else voters e h' b'.
Proof.
  unfold submit_vote. destruct (is_empty p || is_empty b) eqn:E.
  - rewrite decide_False; [done|]. intros (_ & _ & Hp & Hb). apply is_empty_false in Hp, Hb. by rewrite Hp, Hb in E.
  - apply orb_false_elim in E as [Hp%is_empty_false Hb%is_empty_false]. unfold voters.
    destruct (decide (h = h')) as [<-|Hh].
    + rewrite lookup_insert_eq. destruct (decide (b = b')) as [<-|Hb'].
      * rewrite lookup_insert_eq, decide_True by done. destruct (e !! h) as [m|]; cbn; [by destruct (m !! b)|].
        by rewrite lookup_empty.
      * rewrite lookup_insert_ne, decide_False by (done || by intros (_ & ? & _)).
        destruct (e !! h); cbn; [done|]. by rewrite lookup_empty.
    + rewrite lookup_insert_ne, decide_False by (done || by intros (? & _)). done.
Qed.
Lemma voters_submit_all e vs h b p :
  p ∈ voters (submit_all e vs) h b ↔ p ∈ voters e h b ∨ ((p, h, b) ∈ vs ∧ p ≠ "" ∧ b ≠ "").
Proof.
  revert e. induction vs as [|[[q k] c] vs IH]; intros e; cbn [submit_all foldl].
  { split; [by left|]. intros [H|[H _]]; [done|by apply elem_of_nil in H]. }
  fold (submit_all (submit_vote e q k c) vs). rewrite IH, voters_submit. cbn [fst snd].
  rewrite elem_of_cons. destruct (decide _) as [(-> & -> & Hp & Hb)|Hn]; [set_solver|].
  split; [naive_solver|]. intros [H|[[H|H] [Hp Hb]]]; [by left| |by right]. simplify_eq. by destruct Hn.
Qed.

(** Two blocks of one height that both reach the quorum of the same peers share more
    than a third of them: each of those voted for both blocks. *)
Theorem quorum_intersection (vs : list Vote) (P : gset string) h b c :
  (∀ p, p ∈ vs.*1.*1 → p ∈ P) → Z.of_nat (size P) < 2 ^ 63 → b ≠ c →
  has_quorum (submit_all ∅ vs) h b (Z.of_nat (size P)) = true →
  has_quorum (submit_all ∅ vs) h c (Z.of_nat (size P)) = true →
  ∃ X : gset string, X ⊆ P ∧ (size P < 3 * size X)%nat ∧ ∀ p, p ∈ X → (p, h, b) ∈ vs ∧ (p, h, c) ∈ vs.
Proof.
  intros HP Hn Hbc. unfold has_quorum, vote_count. destruct (_ =? 0); [done|].
  rewrite u64_small by (unfold is_u64; lia). intros Hb%Z.leb_le Hc%Z.leb_le.
  assert (Hin : ∀ d, voters (submit_all ∅ vs) h d ⊆ P ∧ ∀ p, p ∈ voters (submit_all ∅ vs) h d → (p, h, d) ∈ vs).
  { intros d. assert (G : ∀ p, p ∈ voters (submit_all ∅ vs) h d → (p, h, d) ∈ vs).
    { intros p [H|[H _]]%voters_submit_all; [|done]. unfold voters in H. rewrite lookup_empty in H. set_solver. }
    split; [|done]. intros p Hp%G. apply HP. apply list_elem_of_fmap. exists (p, h). split; [done|].
    apply list_elem_of_fmap. by exists (p, h, d). }
  destruct (Hin b) as [Hb1 Hb2], (Hin c) as [Hc1 Hc2].
  set (B := voters _ h b) in *. set (D := voters _ h c) in *. exists (B ∩ D). split; [set_solver|]. split.
  - pose proof (subseteq_size (B ∪ D) P ltac:(set_solver)) as Hs.
    pose proof (size_union_alt B D) as Hu. pose proof (size_union_alt (B ∩ D) (D ∖ B)) as Hd.
    replace (B ∩ D ∪ D ∖ B) with D in Hd by (apply set_eq; intros x; destruct (decide (x ∈ B)); set_solver).
    replace ((D ∖ B) ∖ (B ∩ D)) with (D ∖ B) in Hd by set_solver.
    pose proof (Z.div_mod (2 * Z.of_nat (size P)) 3 ltac:(lia)).
    pose proof (Z.mod_pos_bound (2 * Z.of_nat (size P)) 3 ltac:(lia)). lia.
  - intros p [H1 H2]%elem_of_intersection. split; [by apply Hb2|by apply Hc2].
Qed.
