(* ===== verification/NodeCodec.v ===== *)
(** * What nodes send each other ([src/decentralized_node.cpp], the payload codecs)

    Transactions and blocks go in wire format 3 in base64; a peer that negotiated an
    older protocol gets the same in the hexadecimal format 2, which this file models, or
    nothing when format 2 cannot say it. Stake votes are lines of fields. *)
From S2P Require Import Prelude Strings Lines Crypto Types Wire.

Definition kProtoV2 : Z := 2.
Definition kProtoV3 : Z := 3.
Definition kProtoV4 : Z := 4.
Definition kB64Prefix : string := "b64:".

(** ** Fields of format 2 *)

(** A string too long for its length field is left out, as the result of the writer is
    ignored. *)
Definition write_string (s : string) : string :=
  if W32 <=? str_size s then "" else put_u32 (str_size s) +:+ s.
Definition read_string (inp : string) (off : nat) : option (string * nat) :=
  '(n, off) ← get_u32 inp off;
  if str_size inp <? Z.of_nat off + n then None
  else Some (substr inp off (Z.to_nat n), (off + Z.to_nat n)%nat).

(** [from_hex] of the node: either case, no size limit. *)
Definition from_hex (hex : string) : option string :=
  if Nat.even (String.length hex) then hex_pairs hex else None.

Definition put_input_v2 (i : TxInput) : string := write_string (previous_txid i) +:+ put_u32 (output_index i).
Definition get_input_v2 (inp : string) (off : nat) : option (TxInput * nat) :=
  '(txid, off) ← read_string inp off;
  '(idx, off) ← get_u32 inp off;
  Some (mkTxInput txid idx "", off).
Definition put_output_v2 (o : TxOutput) : string := write_string (recipient o) +:+ put_u64 (amount o).
Definition get_output_v2 (inp : string) (off : nat) : option (TxOutput * nat) :=
  '(r, off) ← read_string inp off;
  '(a, off) ← get_u64 inp off;
  Some (mkTxOutput r a, off).
Definition put_vote_v2 (v : StakeVote) : string :=
  write_string (ticket_id v) +:+ put_u64 (voted_height v) +:+ write_string (voted_hash v) +:+
  put_u32 (if approve v then 1 else 0) +:+ write_string (vote_signature v).
Definition get_vote_v2 (inp : string) (off : nat) : option (StakeVote * nat) :=
  '(tid, off) ← read_string inp off;
  '(h, off) ← get_u64 inp off;
  '(hash, off) ← read_string inp off;
  '(a, off) ← get_u32 inp off;
  '(sig, off) ← read_string inp off;
  Some (mkStakeVote tid h hash (negb (a =? 0)) sig, off).
Definition put_slash_v2 (e : SlashEvidence) : string := put_vote_v2 (ev_a e) +:+ put_vote_v2 (ev_b e).
Definition get_slash_v2 (inp : string) (off : nat) : option (SlashEvidence * nat) :=
  '(a, off) ← get_vote_v2 inp off;
  '(b, off) ← get_vote_v2 inp off;
  Some (mkSlashEvidence a b, off).

Section codec.
Context {C : Crypto}.

(** ** Transactions *)

Definition tx_body_v2 (tx : Transaction) : string :=
  "TXB2" +:+ write_string (signer tx) +:+ write_string (signer_pubkey tx) +:+ write_string (signature tx) +:+
  put_u64 (fee tx) +:+ put_u64 (nonce tx) +:+
  put_u32 (u32 (list_size (inputs tx))) +:+ put_many put_input_v2 (inputs tx) +:+
  put_u32 (u32 (list_size (outputs tx))) +:+ put_many put_output_v2 (outputs tx).
Definition tx_bin_v2 (tx : Transaction) : string :=
  let b := tx_body_v2 tx in b +:+ put_u32 (checksum32 b).
Definition encode_tx_payload_v2 (tx : Transaction) : string := bytes_to_hex (tx_bin_v2 tx).
Definition encode_tx_payload (tx : Transaction) : string := kB64Prefix +:+ base64_encode (encode_tx_v3 tx).

(** The end of a payload: a checksum, or nothing in the oldest formats. *)
Definition check_end (bin : string) (off : nat) (has_checksum : bool) (what : string) : result () :=
  if has_checksum then check_tail bin off what
  else reject_if negb (off =? String.length bin)%nat as "invalid " +:+ what +:+ " trailing bytes" ;; Ok ().

Definition decode_tx_bin (bin : string) : result Transaction :=
  let magic := str_take 4 bin in
  reject_if (String.length bin <? 4)%nat || negb (String.eqb magic "TXB1" || String.eqb magic "TXB2")
    as "invalid tx payload magic" ;;
  '(signer, pubkey, sig, off) ← or_err "invalid tx payload header"
    ('(signer, off) ← read_string bin 4;
     '(pubkey, off) ← read_string bin off;
     '(sig, off) ← read_string bin off;
     Some (signer, pubkey, sig, off));
  '(fee, nonce, off) ← or_err "invalid tx payload numeric fields"
    ('(fee, off) ← get_u64 bin off;
     '(nonce, off) ← get_u64 bin off;
     Some (fee, nonce, off));
  '(n, off) ← or_err "invalid tx payload inputs count" (get_u32 bin off);
  '(ins, off) ← or_err "invalid tx payload input" (get_many get_input_v2 (Z.to_nat n) bin off);
  '(n, off) ← or_err "invalid tx payload outputs count" (get_u32 bin off);
  '(outs, off) ← or_err "invalid tx payload output" (get_many get_output_v2 (Z.to_nat n) bin off);
  _ ← check_end bin off (String.eqb magic "TXB2") "tx payload";
  reject_if bool_decide (outs = []) as "tx payload has no outputs" ;;
  Ok (mkTransaction ins outs signer pubkey sig fee nonce "").

Definition decode_tx_payload (payload : string) : result Transaction :=
  if starts_with kB64Prefix payload then
    raw ← or_err "invalid tx payload base64" (base64_decode (str_drop 4 payload));
    decode_tx_v3 raw
  else
    bin ← or_err "invalid tx payload hex" (from_hex payload);
    decode_tx_bin bin.

(** ** Blocks *)

Definition put_block_tx_v2 (tx : Transaction) : string :=
  match from_hex (encode_tx_payload_v2 tx) with
  | Some t => put_u32 (u32 (str_size t)) +:+ t
  | None => ""
  end.
Definition block_staked (b : Block) : bool :=
  negb (bool_decide (votes b = []) && bool_decide (slashes b = [])).
Definition block_body_v2 (b : Block) : string :=
  let h := header b in
  (if block_staked b then "BLB3" else "BLB2") +:+ put_u64 (height h) +:+ write_string (previous_hash h) +:+
  put_u64 (timestamp h) +:+ put_u64 (header_nonce h) +:+ put_u64 (difficulty_target h) +:+
  write_string (merkle_root h) +:+
  put_u32 (u32 (list_size (transactions b))) +:+ put_many put_block_tx_v2 (transactions b) +:+
  (if block_staked b then
     put_u32 (u32 (list_size (votes b))) +:+ put_many put_vote_v2 (votes b) +:+
     put_u32 (u32 (list_size (slashes b))) +:+ put_many put_slash_v2 (slashes b)
   else "").
Definition encode_block_payload_v2 (b : Block) : string :=
  if existsb (λ tx, bool_decide (from_hex (encode_tx_payload_v2 tx) = None)) (transactions b) then ""
  else let body := block_body_v2 b in bytes_to_hex (body +:+ put_u32 (checksum32 body)).
Definition encode_block_payload (b : Block) : string := kB64Prefix +:+ base64_encode (encode_block_v3 b).

Fixpoint decode_txs_v2 (n : nat) (bin : string) (off : nat) : result (list Transaction * nat) :=
  match n with
  | O => Ok ([], off)
  | S n =>
      '(sz, off) ← or_err "invalid block payload tx size" (get_u32 bin off);
      reject_if str_size bin <? Z.of_nat off + sz as "invalid block payload tx bounds" ;;
      tx ← decode_tx_payload (bytes_to_hex (substr bin off (Z.to_nat sz)));
      '(txs, off) ← decode_txs_v2 n bin (off + Z.to_nat sz);
      Ok (tx :: txs, off)
  end.

Definition kMaxVotesV2 : Z := 4096.
Definition decode_list_v2 {A} (get : string → nat → option (A * nat)) (what : string) (bin : string) (off : nat) :
    result (list A * nat) :=
  '(n, off) ← or_err ("invalid block payload " +:+ what +:+ " count") (get_u32 bin off);
  reject_if kMaxVotesV2 <? n as "invalid block payload " +:+ what +:+ " count" ;;
  or_err ("invalid block payload " +:+ what) (get_many get (Z.to_nat n) bin off).

Definition decode_block_bin (bin : string) : result Block :=
  let magic := str_take 4 bin in
  let staked := String.eqb magic "BLB3" in
  reject_if (String.length bin <? 4)%nat || negb (String.eqb magic "BLB1" || String.eqb magic "BLB2" || staked)
    as "invalid block payload magic" ;;
  '(hdr, off) ← or_err "invalid block payload header"
    ('(h, off) ← get_u64 bin 4;
     '(prev, off) ← read_string bin off;
     '(ts, off) ← get_u64 bin off;
     '(nonce, off) ← get_u64 bin off;
     '(target, off) ← get_u64 bin off;
     '(root, off) ← read_string bin off;
     Some (mkBlockHeader h prev ts nonce target root, off));
  '(n, off) ← or_err "invalid block payload tx count" (get_u32 bin off);
  '(txs, off) ← decode_txs_v2 (Z.to_nat n) bin off;
  '(vs, ss, off) ←
    (if staked then
       '(vs, off) ← decode_list_v2 get_vote_v2 "vote" bin off;
       '(ss, off) ← decode_list_v2 get_slash_v2 "slash" bin off;
       Ok (vs, ss, off)
     else Ok ([], [], off));
  _ ← check_end bin off (staked || String.eqb magic "BLB2") "block payload";
  reject_if bool_decide (txs = []) && negb (height hdr =? 0) as "block payload has no transactions" ;;
  Ok (mkBlock hdr txs vs ss).

Definition decode_block_payload (payload : string) : result Block :=
  if starts_with kB64Prefix payload then
    raw ← or_err "invalid block payload base64" (base64_decode (str_drop 4 payload));
    decode_block_v3 raw
  else
    bin ← or_err "invalid block payload hex" (from_hex payload);
    decode_block_bin bin.

(** ** Older peers *)

Definition tx_needs_proto4 (tx : Transaction) : bool := existsb (λ i, negb (is_empty (witness i))) (inputs tx).
Definition cannot_send (proto : Z) (tx : Transaction) : bool :=
  tx_needs_proto4 tx || ((proto <? kProtoV3) && negb (is_empty (shielded tx))).

(** The empty string: the peer's protocol cannot express the message. *)
Definition adapt_tx (p msg body : string) (proto : Z) : string :=
  match decode_tx_payload body with
  | Ok t => if cannot_send proto t then "" else if kProtoV3 <=? proto then msg else p +:+ encode_tx_payload_v2 t
  | Err _ => msg
  end.
Definition adapt_block (p msg body : string) (proto : Z) : string :=
  match decode_block_payload body with
  | Ok b =>
      if existsb (cannot_send proto) (transactions b) then ""
      else if kProtoV3 <=? proto then msg else p +:+ encode_block_payload_v2 b
  | Err _ => msg
  end.
Definition adapt_for_peer (msg : string) (proto : Z) : string :=
  if kProtoV4 <=? proto then msg
  else
    let has p := starts_with (p +:+ kB64Prefix) msg in
    if has "TX|" then adapt_tx "TX|" msg (str_drop 3 msg) proto
    else if has "STEM|" then adapt_tx "STEM|" msg (str_drop 5 msg) proto
    else if has "BLK|" then adapt_block "BLK|" msg (str_drop 4 msg) proto
    else if has "BLKDATA|" then adapt_block "BLKDATA|" msg (str_drop 8 msg) proto
    else msg.

(** ** Gossip lines *)

Definition encode_tx_gossip (tx : Transaction) : string := "TX|" +:+ encode_tx_payload tx.
Definition encode_block_announce (b : Block) : string := "BLK|" +:+ encode_block_payload b.

Definition encode_stake_vote (v : StakeVote) : string :=
  join "|" [ticket_id v; to_string (voted_height v); voted_hash v; if approve v then "1" else "0";
            bytes_to_hex (vote_signature v)].
Definition decode_stake_vote (payload : string) : result StakeVote :=
  match split_at "|" payload with
  | [tid; h; hash; a; sig] =>
      reject_if is_empty tid || is_empty hash || negb (String.eqb a "0" || String.eqb a "1") || is_empty sig ||
                (Z.to_nat 32768 <? String.length payload)%nat as "invalid stake vote payload" ;;
      h ← or_err "invalid stake vote height" (number h);
      match hex_to_bytes sig with
      | Err _ => Err "invalid stake vote signature hex"
      | Ok raw => Ok (mkStakeVote tid h hash (String.eqb a "1") raw)
      end
  | _ => Err "invalid stake vote payload"
  end.
End codec.
