(* ===== verification/NodeCodecProofs.v ===== *)
(** * A block reads back as it was sent, whatever protocol the peer speaks

    And whatever the bytes were, the integers of what a decoder accepts are in the range of
    their machine types. *)
From S2P Require Import Prelude Strings Lines Crypto Types Wire WireProofs NodeCodec.

(** ** Fields *)

Definition string_wf (s : string) : Prop := str_size s < W32.
#[export] Instance string_v2_codec : WireCodec write_string read_string string_wf.
Proof.
  intros inp off s r Hs H. unfold write_string, read_string in *. unfold string_wf in Hs.
  rewrite (proj2 (Z.leb_gt _ _) Hs) in *.
  assert (Hu : is_u32 (str_size s)) by (unfold is_u32, str_size in *; lia).
  rewrite str_app_assoc in H. pose proof (cursor_length _ _ _ _ H) as Hl.
  rewrite put_u32_length, str_length_app in Hl. read_field H u32_codec. rewrite put_u32_length in *.
  assert (Hn : Z.to_nat (str_size s) = String.length s) by (unfold str_size; lia).
  destruct (Z.ltb_spec (str_size inp) (Z.of_nat (off + 4) + str_size s)) as [Hlt|_].
  - exfalso. unfold str_size in *. lia.
  - unfold substr. rewrite Hn, H, str_take_app. by rewrite str_length_app, put_u32_length, !Nat.add_assoc.
Qed.

Definition input_v2_wf (i : TxInput) : Prop := string_wf (previous_txid i) ∧ is_u32 (output_index i) ∧ witness i = "".
Definition output_v2_wf (o : TxOutput) : Prop := string_wf (recipient o) ∧ is_u64 (amount o).
Definition vote_v2_wf (v : StakeVote) : Prop :=
  string_wf (ticket_id v) ∧ is_u64 (voted_height v) ∧ string_wf (voted_hash v) ∧ string_wf (vote_signature v).
Definition slash_v2_wf (e : SlashEvidence) : Prop := vote_v2_wf (ev_a e) ∧ vote_v2_wf (ev_b e).

#[export] Instance input_v2_codec : WireCodec put_input_v2 get_input_v2 input_v2_wf.
Proof.
  intros inp off [txid idx w] r (Htx & Hi & Hw) H. unfold put_input_v2, get_input_v2 in *.
  cbn [previous_txid output_index witness] in *. subst w. rewrite str_app_assoc in H.
  read_field H string_v2_codec. read_field H u32_codec. by rewrite str_length_app, Nat.add_assoc.
Qed.
#[export] Instance output_v2_codec : WireCodec put_output_v2 get_output_v2 output_v2_wf.
Proof.
  intros inp off [rc a] r [Hr Ha] H. unfold put_output_v2, get_output_v2 in *.
  cbn [recipient amount] in *. rewrite str_app_assoc in H.
  read_field H string_v2_codec. read_field H u64_codec. by rewrite str_length_app, Nat.add_assoc.
Qed.
#[export] Instance vote_v2_codec : WireCodec put_vote_v2 get_vote_v2 vote_v2_wf.
Proof.
  intros inp off [tid vh hash a sig] r (H1 & H2 & H3 & H4) H. unfold put_vote_v2, get_vote_v2 in *.
  cbn [ticket_id voted_height voted_hash approve vote_signature] in *. rewrite !str_app_assoc in H.
  read_field H string_v2_codec. read_field H u64_codec. read_field H string_v2_codec.
  assert (Ha : is_u32 (if a then 1 else 0)) by (destruct a; unfold is_u32; lia).
  read_field H u32_codec. read_field H string_v2_codec. rewrite !str_length_app, !Nat.add_assoc. by destruct a.
Qed.
#[export] Instance slash_v2_codec : WireCodec put_slash_v2 get_slash_v2 slash_v2_wf.
Proof.
  intros inp off [a b] r [Ha Hb] H. unfold put_slash_v2, get_slash_v2 in *. cbn [ev_a ev_b] in *.
  rewrite str_app_assoc in H. read_field H vote_v2_codec. read_field H vote_v2_codec.
  by rewrite str_length_app, Nat.add_assoc.
Qed.

Lemma from_hex_bytes_to_hex b : from_hex (bytes_to_hex b) = Some b.
Proof.
  unfold from_hex. rewrite bytes_to_hex_length, Nat.even_mul. cbn [Nat.even orb]. apply hex_pairs_bytes_to_hex.
Qed.
(** A hexadecimal text is not taken for base64. *)
Lemma hex_not_b64 b : starts_with kB64Prefix (bytes_to_hex b) = false.
Proof.
  destruct (starts_with kB64Prefix (bytes_to_hex b)) eqn:E; [|done]. apply starts_with_split in E.
  pose proof (bytes_to_hex_chars b) as H. rewrite E, all_chars_app in H. by apply andb_prop in H as [H _].
Qed.

Section codec.
Context {C : Crypto}.

(** ** Transactions in format 2 *)

(** What format 2 can say: fields within their length prefix, no witness, nothing
    shielded, and some output. *)
Definition tx_v2_wf (tx : Transaction) : Prop :=
  string_wf (signer tx) ∧ string_wf (signer_pubkey tx) ∧ string_wf (signature tx) ∧ is_u64 (fee tx) ∧
  is_u64 (nonce tx) ∧ list_size (inputs tx) < W32 ∧ list_size (outputs tx) < W32 ∧
  Forall input_v2_wf (inputs tx) ∧ Forall output_v2_wf (outputs tx) ∧ shielded tx = "" ∧ outputs tx ≠ [].

Lemma count_u32 {A} (l : list A) : list_size l < W32 →
  is_u32 (u32 (list_size l)) ∧ Z.to_nat (u32 (list_size l)) = length l.
Proof. intros H. rewrite u32_small; unfold is_u32, list_size in *; lia. Qed.

Lemma decode_tx_bin_v2 tx : tx_v2_wf tx → decode_tx_bin (tx_bin_v2 tx) = Ok tx.
Proof.
  intros (H1 & H2 & H3 & H4 & H5 & Hni & Hno & Hin & Hout & Hsh & Hne).
  unfold decode_tx_bin. set (bin := tx_bin_v2 tx).
  destruct (count_u32 _ Hni) as [Hiu Hin']. destruct (count_u32 _ Hno) as [Hou Hon'].
  assert (Hlen : String.length bin = (String.length (tx_body_v2 tx) + 4)%nat)
    by (unfold bin, tx_bin_v2; by rewrite str_length_app, put_u32_length).
  assert (H : str_drop 4 bin = str_drop 4 (tx_body_v2 tx) +:+ put_u32 (checksum32 (tx_body_v2 tx))) by done.
  assert (Hm : str_take 4 bin = "TXB2") by done. rewrite Hm.
  replace (_ || _) with false; cycle 1.
  { symmetry. apply orb_false_iff. split; [|done]. apply Nat.ltb_ge. rewrite Hlen. lia. }
  unfold tx_body_v2 in H at 1. rewrite (str_drop_app "TXB2") in H. rewrite !str_app_assoc in H.
  read_field H string_v2_codec. read_field H string_v2_codec. read_field H string_v2_codec.
  read_field H u64_codec. read_field H u64_codec. read_field H u32_codec.
  rewrite Hin', (get_many_put put_input_v2 get_input_v2 _ _ _ _ _ Hin H).
  apply cursor_next in H. cbn [mbind option_bind result_bind or_err]. read_field H u32_codec.
  rewrite Hon', (get_many_put put_output_v2 get_output_v2 _ _ _ _ _ Hout H).
  apply cursor_next in H. cbn [mbind option_bind result_bind or_err].
  change (String.eqb "TXB2" "TXB2") with true. unfold check_end.
  apply (f_equal String.length) in H. rewrite str_length_drop, !put_u32_length in H.
  rewrite !put_u32_length. match goal with |- context [check_tail bin ?o _] => replace o with (String.length bin - 4)%nat by lia end.
  rewrite Hlen, Nat.add_sub. unfold bin, tx_bin_v2. rewrite check_tail_ok. cbn [mbind result_bind].
  rewrite bool_decide_false by done. destruct tx. cbn in *. by subst.
Qed.
Lemma decode_tx_payload_v2 tx : tx_v2_wf tx → decode_tx_payload (encode_tx_payload_v2 tx) = Ok tx.
Proof.
  intros H. unfold decode_tx_payload, encode_tx_payload_v2. rewrite hex_not_b64, from_hex_bytes_to_hex.
  by apply decode_tx_bin_v2.
Qed.
Lemma decode_tx_payload_v3 tx : tx_wire_wf tx → decode_tx_payload (encode_tx_payload tx) = Ok tx.
Proof.
  intros H. unfold decode_tx_payload, encode_tx_payload. change (starts_with kB64Prefix (kB64Prefix +:+ ?x)) with true.
  rewrite (str_drop_app kB64Prefix), base64_decode_encode. by apply decode_encode_tx_v3.
Qed.

(** ** Blocks in format 2 *)

Definition block_tx_v2_wf (tx : Transaction) : Prop := tx_v2_wf tx ∧ str_size (tx_bin_v2 tx) < W32.
Definition block_v2_wf (b : Block) : Prop :=
  header_u64 (header b) ∧ string_wf (previous_hash (header b)) ∧ string_wf (merkle_root (header b)) ∧
  list_size (transactions b) < W32 ∧ Forall block_tx_v2_wf (transactions b) ∧
  list_size (votes b) ≤ kMaxVotesV2 ∧ Forall vote_v2_wf (votes b) ∧
  list_size (slashes b) ≤ kMaxVotesV2 ∧ Forall slash_v2_wf (slashes b) ∧
  (transactions b ≠ [] ∨ height (header b) = 0).

Lemma put_block_tx_v2_eq tx : put_block_tx_v2 tx = put_u32 (u32 (str_size (tx_bin_v2 tx))) +:+ tx_bin_v2 tx.
Proof. unfold put_block_tx_v2, encode_tx_payload_v2. by rewrite from_hex_bytes_to_hex. Qed.

Lemma decode_txs_v2_put txs bin off r :
  Forall block_tx_v2_wf txs → str_drop off bin = put_many put_block_tx_v2 txs +:+ r →
  decode_txs_v2 (length txs) bin off = Ok (txs, (off + String.length (put_many put_block_tx_v2 txs))%nat).
Proof.
  intros Hwf. revert off. induction Hwf as [|tx txs [Hx Hsz] Htxs IH]; intros off H.
  { cbn. by rewrite Nat.add_0_r. }
  unfold put_many in *. cbn [foldr length decode_txs_v2] in *. rewrite put_block_tx_v2_eq in *.
  assert (Hu : is_u32 (str_size (tx_bin_v2 tx))) by (unfold is_u32, str_size in *; lia).
  rewrite (u32_small _ Hu) in *. rewrite !str_app_assoc in H. read_field H u32_codec.
  assert (Hpos : (0 < String.length (tx_bin_v2 tx))%nat)
    by (unfold tx_bin_v2; rewrite str_length_app, put_u32_length; lia).
  rewrite (str_size_guard _ _ _ _ _ H eq_refl ltac:(lia)).
  assert (Hn : Z.to_nat (str_size (tx_bin_v2 tx)) = String.length (tx_bin_v2 tx)) by (unfold str_size; lia).
  unfold substr. rewrite Hn, H, str_take_app.
  fold (encode_tx_payload_v2 tx). rewrite decode_tx_payload_v2 by done.
  apply cursor_next in H. cbn [mbind result_bind]. rewrite (IH _ H). cbn [mbind result_bind].
  by rewrite !str_length_app, !Nat.add_assoc.
Qed.

Lemma decode_list_v2_put {A} (put : A → string) get wf `{!WireCodec put get wf} what l bin off r :
  list_size l ≤ kMaxVotesV2 → Forall wf l →
  str_drop off bin = put_u32 (u32 (list_size l)) +:+ put_many put l +:+ r →
  decode_list_v2 get what bin off = Ok (l, (off + 4 + String.length (put_many put l))%nat).
Proof.
  intros Hn Hwf H. unfold decode_list_v2. assert (Hs : list_size l < W32) by (unfold kMaxVotesV2 in Hn; lia).
  destruct (count_u32 _ Hs) as [Hu Hc]. read_field H u32_codec.
  rewrite u32_small at 1 by (unfold is_u32, list_size in *; lia). rewrite (size_guard _ _ Hn), Hc.
  rewrite put_u32_length in *. by rewrite (get_many_put put get wf _ _ _ _ Hwf H).
Qed.

(** The votes and slashes of a block, or nothing. *)
Definition items_v2 (b : Block) : string :=
  if block_staked b then
    put_u32 (u32 (list_size (votes b))) +:+ put_many put_vote_v2 (votes b) +:+
    put_u32 (u32 (list_size (slashes b))) +:+ put_many put_slash_v2 (slashes b)
  else "".
Lemma block_items_put b bin off r :
  list_size (votes b) ≤ kMaxVotesV2 → Forall vote_v2_wf (votes b) →
  list_size (slashes b) ≤ kMaxVotesV2 → Forall slash_v2_wf (slashes b) →
  str_drop off bin = items_v2 b +:+ r →
  (if block_staked b then
     '(vs, off) ← decode_list_v2 get_vote_v2 "vote" bin off;
     '(ss, off) ← decode_list_v2 get_slash_v2 "slash" bin off;
     Ok (vs, ss, off)
   else Ok ([], [], off)) = Ok (votes b, slashes b, (off + String.length (items_v2 b))%nat).
Proof.
  intros Hnv Hvs Hns Hss H. unfold items_v2 in *. destruct (block_staked b) eqn:Eb.
  - rewrite !str_app_assoc in H. rewrite <-(str_app_assoc (put_u32 (u32 (list_size (slashes b))))) in H.
    rewrite (decode_list_v2_put put_vote_v2 get_vote_v2 vote_v2_wf "vote" (votes b) bin off _ Hnv Hvs H).
    cbn [mbind result_bind]. apply cursor_next in H. apply cursor_next in H. rewrite put_u32_length, str_app_assoc in H.
    rewrite (decode_list_v2_put put_slash_v2 get_slash_v2 slash_v2_wf "slash" (slashes b) bin _ _ Hns Hss H).
    cbn [mbind result_bind]. rewrite !str_length_app, !put_u32_length. do 2 f_equal. lia.
  - unfold block_staked in Eb. apply negb_false_iff, andb_prop in Eb as [Hv Hs].
    apply bool_decide_eq_true_1 in Hv, Hs. rewrite Hv, Hs. cbn. by rewrite Nat.add_0_r.
Qed.

Lemma decode_block_bin_v2 b :
  block_v2_wf b → let body := block_body_v2 b in decode_block_bin (body +:+ put_u32 (checksum32 body)) = Ok b.
Proof.
  intros ((Hh & Ht & Hno & Hd) & Hp & Hr & Hn & Htxs & Hnv & Hvs & Hns & Hss & Hne) body.
  unfold decode_block_bin. set (bin := body +:+ _). destruct (count_u32 _ Hn) as [Hnu Hn'].
  assert (Hlen : String.length bin = (String.length body + 4)%nat) by (unfold bin; by rewrite str_length_app, put_u32_length).
  set (magic := if block_staked b then "BLB3" else "BLB2").
  assert (Hm : str_take 4 bin = magic) by (unfold bin, body, block_body_v2, magic; by destruct (block_staked b)).
  assert (H : str_drop 4 bin = str_drop 4 body +:+ put_u32 (checksum32 body))
    by (unfold bin, body, block_body_v2; by destruct (block_staked b)).
  unfold body in H at 1. unfold block_body_v2 in H at 1. fold magic in H. fold (items_v2 b) in H.
  assert (Hmag : ∀ x, str_drop 4 (magic +:+ x) = x) by (intros; unfold magic; by destruct (block_staked b)).
  rewrite Hmag in H. rewrite !str_app_assoc in H. rewrite Hm.
  replace (_ || _) with false; cycle 1.
  { symmetry. apply orb_false_iff. split; [apply Nat.ltb_ge|unfold magic; by destruct (block_staked b)].
    rewrite Hlen. lia. }
  read_field H u64_codec. read_field H string_v2_codec. read_field H u64_codec. read_field H u64_codec.
  read_field H u64_codec. read_field H string_v2_codec. read_field H u32_codec.
  rewrite Hn', (decode_txs_v2_put _ _ _ _ Htxs H). apply cursor_next in H. cbn [mbind result_bind].
  assert (Hs : String.eqb magic "BLB3" = block_staked b) by (unfold magic; by destruct (block_staked b)).
  rewrite Hs, (block_items_put b bin _ _ Hnv Hvs Hns Hss H). cbn [mbind result_bind].
  apply cursor_next in H. apply (f_equal String.length) in H. rewrite str_length_drop, !put_u32_length in H.
  rewrite !put_u32_length. match goal with |- context [check_end bin ?o _ _] =>
    replace o with (String.length bin - 4)%nat by lia end.
  assert (Hc : block_staked b || String.eqb magic "BLB2" = true) by (unfold magic; by destruct (block_staked b)).
  rewrite Hc. unfold check_end. rewrite Hlen, Nat.add_sub. unfold bin. rewrite check_tail_ok. cbn [mbind result_bind].
  destruct (bool_decide _ && _) eqn:He; [exfalso; bools; tauto|]. by destruct b as [[]].
Qed.


(** ** Any protocol *)

Lemma hex_to_raw_size s : (String.length s ≤ 2 * String.length (hex_to_raw s) + 1)%nat.
Proof.
  assert (G : ∀ n s, (String.length s ≤ n)%nat → (String.length s ≤ 2 * String.length (hex_to_raw s) + 1)%nat).
  { intros n. induction n as [|n IH]; intros [|a [|b t]] H; cbn in *; try lia.
    specialize (IH t ltac:(lia)). lia. }
  by apply (G (String.length s)).
Qed.
Lemma tagged_string_wf s : tagged_wf s → string_wf s.
Proof.
  unfold tagged_wf, string_wf, tagged_parts, str_size, kMaxFieldBytes. intros H.
  assert (Hr : ∀ t, (String.length t ≤ 2 * String.length (hex_to_raw t) + 1)%nat) by (intros; apply hex_to_raw_size).
  destruct (_ && _); [|destruct (is_lower_hex s 0)]; cbn [snd] in H.
  - specialize (Hr (str_drop 3 s)). rewrite str_length_drop in Hr. lia.
  - specialize (Hr s). lia.
  - lia.
Qed.
#[local] Hint Resolve tagged_string_wf : core.

Lemma sendable_v2_wf tx :
  tx_wire_wf tx → cannot_send kProtoV2 tx = false → tx_v2_wf tx.
Proof.
  intros (H1 & H2 & H3 & H4 & H5 & H6 & Hni & Hno & Hin & Hw & Hout & Hne) Hs.
  unfold cannot_send in Hs. apply orb_false_elim in Hs as [Hw' Hsh]. cbn in Hsh.
  apply negb_false_iff, is_empty_true in Hsh. unfold tx_v2_wf, kMaxTxIo in *. conjs; eauto; try lia.
  - apply Forall_forall. intros i Hi. destruct (proj1 (Forall_forall _ _) Hin i Hi) as [Ha Hb]. split; [by apply tagged_string_wf|].
    split; [done|]. apply not_true_iff_false in Hw'. destruct (witness i) as [|c w] eqn:Ew; [done|]. exfalso.
    apply Hw'. apply existsb_exists. exists i. split; [by apply list_elem_of_In|]. by rewrite Ew.
  - eapply Forall_impl; [exact Hout|]. intros o [Ha Hb]. split; [by apply tagged_string_wf|done].
  - destruct Hne as [Hne|Hne]; [done|]. by rewrite Hsh in Hne.
Qed.
Lemma decode_block_payload_v2 b : block_v2_wf b → decode_block_payload (encode_block_payload_v2 b) = Ok b.
Proof.
  intros H. unfold decode_block_payload, encode_block_payload_v2. destruct (existsb _ _) eqn:E.
  { exfalso. apply existsb_exists in E as (tx & _ & Hf%bool_decide_eq_true).
    unfold encode_tx_payload_v2 in Hf. by rewrite from_hex_bytes_to_hex in Hf. }
  rewrite hex_not_b64, from_hex_bytes_to_hex. by apply decode_block_bin_v2.
Qed.
Lemma decode_block_payload_v3 b : block_wire_wf b → decode_block_payload (encode_block_payload b) = Ok b.
Proof.
  intros H. unfold decode_block_payload, encode_block_payload.
  change (starts_with kB64Prefix (kB64Prefix +:+ ?x)) with true.
  rewrite (str_drop_app kB64Prefix), base64_decode_encode. by apply decode_encode_block_v3.
Qed.

Lemma sendable_block_v2_wf b proto :
  block_wire_wf b → proto < kProtoV3 → Forall (λ tx, str_size (tx_bin_v2 tx) < W32) (transactions b) →
  existsb (cannot_send proto) (transactions b) = false → block_v2_wf b.
Proof.
  intros (Hh & Hp & Hr & Hn & Htxs & Hvs & Hss & [Hsv _] & [Hs _] & Hne) Hpr Hsz Hsend.
  assert (Hv : ∀ v, vote_wf v → vote_v2_wf v).
  { intros v (? & ? & ? & ?). unfold vote_v2_wf. conjs; by try apply tagged_string_wf. }
  unfold block_v2_wf, kMaxBlockTxs, kMaxExtItems, kMaxVotesV2 in *.
  conjs; try done; try (by apply tagged_string_wf); try lia.
  - apply Forall_forall. intros tx Htx. split; [|by apply (proj1 (Forall_forall _ _) Hsz)].
    apply sendable_v2_wf; [by apply (proj1 (Forall_forall _ _) Htxs)|].
    apply not_true_iff_false. intros Hc. apply not_true_iff_false in Hsend. apply Hsend, existsb_exists.
    exists tx. split; [by apply list_elem_of_In|]. unfold cannot_send in *. by rewrite (proj2 (Z.ltb_lt _ _) Hpr).
  - by eapply Forall_impl.
  - eapply Forall_impl; [exact Hss|]. intros e [? ?]. split; by apply Hv.
Qed.

(** What a peer is sent for a block decodes to that block, whatever protocol it speaks;
    nothing is sent only if some transaction of the block needs a newer protocol. *)
Theorem adapt_preserves p proto b :
  block_wire_wf b → Forall (λ tx, str_size (tx_bin_v2 tx) < W32) (transactions b) → p = "BLK|" ∨ p = "BLKDATA|" →
  let m := adapt_for_peer (p +:+ encode_block_payload b) proto in
  (m = "" ∧ proto < kProtoV4 ∧ ∃ tx, tx ∈ transactions b ∧ cannot_send proto tx = true) ∨
  ∃ payload, m = p +:+ payload ∧ decode_block_payload payload = Ok b.
Proof.
  intros Hb Hsz Hp m. pose proof (decode_block_payload_v3 b Hb) as Hd.
  assert (Hm : m = if kProtoV4 <=? proto then p +:+ encode_block_payload b
                   else adapt_block p (p +:+ encode_block_payload b) (encode_block_payload b) proto).
  { unfold m, adapt_for_peer. destruct (_ <=? _); [done|]. by destruct Hp as [->| ->]. }
  rewrite Hm. destruct (Z.leb_spec kProtoV4 proto) as [H4|H4]; [right; by eexists|].
  unfold adapt_block. rewrite Hd. destruct (existsb _ _) eqn:E.
  - left. apply existsb_exists in E as (tx & Htx & Hc). split; [done|]. split; [done|]. exists tx.
    split; [by apply list_elem_of_In|done].
  - right. destruct (Z.leb_spec kProtoV3 proto) as [H3|H3]; [by eexists|]. eexists. split; [done|].
    by apply decode_block_payload_v2, (sendable_block_v2_wf b proto).
Qed.

(** Votes. *)
Lemma decode_encode_stake_vote v :
  free_of "|" (ticket_id v) = true → ticket_id v ≠ "" → free_of "|" (voted_hash v) = true → voted_hash v ≠ "" →
  is_u64 (voted_height v) → is_ok (hex_to_bytes (bytes_to_hex (vote_signature v))) = true →
  (String.length (encode_stake_vote v) ≤ Z.to_nat 32768)%nat →
  decode_stake_vote (encode_stake_vote v) = Ok v.
Proof.
  intros H1 H2 H3 H4 H5 H6 H7. unfold decode_stake_vote.
  assert (Hx : free_of "|" (bytes_to_hex (vote_signature v)) = true).
  { eapply all_chars_impl; [|apply bytes_to_hex_chars]. intros c Hc. cbn beta. apply negb_true_iff, Ascii.eqb_neq. by intros <-. }
  unfold encode_stake_vote at 1. rewrite split_at_join; [|unfold clean; by_clean; by destruct (approve v)|done].
  rewrite (proj2 (is_empty_false _) H2), (proj2 (is_empty_false _) H4).
  rewrite (proj2 (Nat.ltb_ge _ _) H7). unfold hex_to_bytes in *. rewrite hex_pairs_bytes_to_hex in *.
  destruct (is_hex_strict _ _) as [[]|] eqn:Eh; [|done].
  assert (He : is_empty (bytes_to_hex (vote_signature v)) = false).
  { unfold is_hex_strict in Eh. by destruct (is_empty _). }
  rewrite He, number_to_string by done. cbn [orb negb or_err mbind result_bind].
  by destruct v as [tid h hash [|] sig].
Qed.
End codec.

(** ** What a decoder accepts fits the fields *)

(** Take a successful decoder apart. *)
Ltac invert_decoder H :=
  lazymatch type of H with
  | (_ ≫= _) = Ok _ =>
      let a := fresh "a" in let E := fresh "E" in
      apply bind_Ok in H as (a & E & H); cbv beta in H; invert_decoder E; invert_decoder H
  | (_ ≫= _) = Some _ =>
      let a := fresh "a" in let E := fresh "E" in
      apply bind_Some in H as (a & E & H); cbv beta in H; invert_decoder E; invert_decoder H
  | or_err _ _ = Ok _ => apply or_err_Ok in H; invert_decoder H
  | (if ?c then Err _ else _) = Ok _ =>
      let E := fresh "G" in destruct c eqn:E; [discriminate H|]; invert_decoder H
  | (if ?c then None else _) = Some _ =>
      let E := fresh "G" in destruct c eqn:E; [discriminate H|]; invert_decoder H
  | (match ?p with (_, _) => _ end) = _ => is_var p; destruct p; cbv beta iota in H; invert_decoder H
  | Some _ = Some _ => injection H; clear H; intros; subst
  | Ok _ = Ok _ => injection H; clear H; intros; subst
  | _ => idtac
  end.

Lemma get_u32_range inp off v o : get_u32 inp off = Some (v, o) → is_u32 v.
Proof. unfold get_u32, get_uint. case_match; [done|]. intros [= <- _]. exact (get_le_range 4 inp off). Qed.
Lemma get_u64_range inp off v o : get_u64 inp off = Some (v, o) → is_u64 v.
Proof. unfold get_u64, get_uint. case_match; [done|]. intros [= <- _]. exact (get_le_range 8 inp off). Qed.
Create HintDb decode.
#[export] Hint Resolve get_u32_range get_u64_range : decode.

Lemma get_many_Forall {A} (P : A → Prop) get :
  (∀ inp off x o, get inp off = Some (x, o) → P x) →
  ∀ n inp off xs o, get_many get n inp off = Some (xs, o) → Forall P xs.
Proof.
  intros Hg n. induction n as [|n IH]; intros inp off xs o H; cbn [get_many] in H; [by injection H as <- _|].
  invert_decoder H. constructor; eauto.
Qed.

Lemma get_input_range inp off i o : get_input inp off = Some (i, o) → is_u32 (output_index i).
Proof. unfold get_input. intros H. invert_decoder H. cbn. eauto with decode. Qed.
Lemma get_output_range inp off x o : get_output inp off = Some (x, o) → output_u64 x.
Proof. unfold get_output. intros H. invert_decoder H. unfold output_u64. cbn. eauto with decode. Qed.
Lemma get_input_v2_range inp off i o : get_input_v2 inp off = Some (i, o) → is_u32 (output_index i).
Proof. unfold get_input_v2. intros H. invert_decoder H. cbn. eauto with decode. Qed.
Lemma get_output_v2_range inp off x o : get_output_v2 inp off = Some (x, o) → output_u64 x.
Proof. unfold get_output_v2. intros H. invert_decoder H. unfold output_u64. cbn. eauto with decode. Qed.
#[export] Hint Resolve get_input_range get_output_range get_input_v2_range get_output_v2_range : decode.

Lemma get_witnesses_range ins inp off ins' any o :
  get_witnesses ins inp off = Some (ins', any, o) → Forall (λ i, is_u32 (output_index i)) ins →
  Forall (λ i, is_u32 (output_index i)) ins'.
Proof.
  revert inp off ins' any o. induction ins as [|i ins IH]; intros inp off ins' any o H Hi; cbn [get_witnesses] in H.
  - by injection H as <- _ _.
  - inversion_clear Hi. invert_decoder H. constructor; [done|eauto].
Qed.
#[export] Hint Resolve get_witnesses_range : decode.

Section decoders.
Context {C : Crypto}.

Lemma decode_tx_v3_range bin tx : decode_tx_v3 bin = Ok tx → tx_u64 tx.
Proof.
  unfold decode_tx_v3. intros H. invert_decoder H.
  match goal with E : (if ?c then _ else Ok _) = Ok _ |- _ => destruct c; invert_decoder E end;
    unfold tx_u64; cbn; conjs; eauto using get_many_Forall with decode.
Qed.
Lemma decode_tx_bin_range bin tx : decode_tx_bin bin = Ok tx → tx_u64 tx.
Proof.
  unfold decode_tx_bin. intros H. invert_decoder H.
  unfold tx_u64; cbn; conjs; eauto using get_many_Forall with decode.
Qed.
Lemma decode_tx_payload_range p tx : decode_tx_payload p = Ok tx → tx_u64 tx.
Proof.
  unfold decode_tx_payload. destruct (starts_with _ _); intros H; invert_decoder H;
    eauto using decode_tx_v3_range, decode_tx_bin_range.
Qed.

Lemma decode_block_txs_range n bin off txs o : decode_block_txs n bin off = Ok (txs, o) → Forall tx_u64 txs.
Proof.
  revert off txs o. induction n as [|n IH]; intros off txs o H; cbn [decode_block_txs] in H; [by injection H as <- _|].
  invert_decoder H. constructor; eauto using decode_tx_v3_range.
Qed.
Lemma decode_txs_v2_range n bin off txs o : decode_txs_v2 n bin off = Ok (txs, o) → Forall tx_u64 txs.
Proof.
  revert off txs o. induction n as [|n IH]; intros off txs o H; cbn [decode_txs_v2] in H; [by injection H as <- _|].
  invert_decoder H. constructor; eauto using decode_tx_payload_range.
Qed.
Lemma decode_block_v3_range bin b : decode_block_v3 bin = Ok b → block_u64 b.
Proof.
  unfold decode_block_v3. intros H. invert_decoder H.
  unfold block_u64, header_u64; cbn; conjs; eauto using decode_block_txs_range with decode.
Qed.
Lemma decode_block_bin_range bin b : decode_block_bin bin = Ok b → block_u64 b.
Proof.
  unfold decode_block_bin. intros H. invert_decoder H.
  unfold block_u64, header_u64; cbn; conjs; eauto using decode_txs_v2_range with decode.
Qed.
Lemma decode_block_payload_range p b : decode_block_payload p = Ok b → block_u64 b.
Proof.
  unfold decode_block_payload. destruct (starts_with _ _); intros H; invert_decoder H;
    eauto using decode_block_v3_range, decode_block_bin_range.
Qed.
End decoders.
