(* ===== verification/Node.v ===== *)
(** * The node: what it does with messages ([include/addition/decentralized_node.hpp],
    [src/decentralized_node.cpp])

    The chain, the mempool, the peer table and the Dandelion router are those of their own
    files; the node's state is grouped by concern. An inbound message is handled at one
    reading of the clock. The random draws of the router are an argument. [PmRelay] and the
    channel callback have their own state and are the two classes below. The node signs
    with [sign_message_hybrid], [None] where it throws. *)
From S2P Require Import Prelude ConsensusRules Strings Lines Crypto Types Wire Block Staking Shielded Script.
From S2P Require Import Chain ChainBlock Mempool Mining Votes Dandelion Peers NodeCodec.

(** Private messages: accepted or refused, a duplicate or not. *)
Class PmRelay (R : Type) := {
  accept_package : R → string → string → R * result bool;
  accept_wire : R → string → string → R * result bool;
  accept_delete : R → string → string → R * result bool;
}.
(** The callback for messages of payment channels, which reads the clock and the chain. *)
Class ChanHandler (W : Type) := {
  chan_handler : Z → W → Chain → string → string → W * result string;
}.
Class Signer := { sign_message_hybrid : string → string → option string }.

(** ** State *)

Record Ledger := mkLedger {
  l_chain : Chain;
  l_mempool : Mempool;
  l_consensus : ConsensusEngine;
  seen_txids : gset string;
  seen_block_hashes : gset string;
  outbound : list string;
}.
Record RateBucket := mkRateBucket { generic_hits : list Z; expensive_hits : list Z }.
Record Sessions := mkSessions {
  s_peers : PeerNetwork;
  handshake_ok : gmap string bool;
  peer_proto_ : gmap string Z;
  seen_nonces : gmap string (gset string);
  peer_pubkeys : gmap string string;
  pinned_peer_pubkeys : gmap string string;
  rate_limits : gmap string RateBucket;
}.
Record AutoVoteKey := mkAutoVoteKey { ak_public : string; ak_private : string }.
Record Voting := mkVoting {
  vote_pool : list StakeVote;
  vote_watch : gmap string StakeVote;
  pending_slashes : list SlashEvidence;
  slash_reported : gset string;
  seen_stake_votes : gset string;
  auto_vote_keys : gmap string AutoVoteKey;
}.
Record PendingRotation := mkPendingRotation {
  new_public_key : string;
  new_private_key : string;
  effective_after : Z;
  rot_proof : string;
  rotation_id : string;
  rot_votes : gset string;
  rot_signatures : gset string;
}.
Record Identity := mkIdentity {
  self_id : string;
  node_public_key : string;
  node_private_key : string;
  pending_rotation : option PendingRotation;
  seen_rotation_ids : gset string;
  seen_vote_signatures : gset string;
}.
Record StemPool := mkStemPool {
  dandelion : bool;
  router : Router;
  stempool : gmap string Transaction;
  stem_outbound : list (string * string);
}.
Record Node {R W : Type} := mkNode {
  ledger : Ledger;
  sessions : Sessions;
  voting : Voting;
  identity : Identity;
  stem : StemPool;
  pm_relay : option R;
  channels : option W;
  advertised_p2p : string;
}.
Arguments Node : clear implicits.

Definition set_ledger {R W} (l : Ledger) (n : Node R W) : Node R W :=
  mkNode _ _ l (sessions n) (voting n) (identity n) (stem n) (pm_relay n) (channels n) (advertised_p2p n).
Definition set_sessions {R W} (s : Sessions) (n : Node R W) : Node R W :=
  mkNode _ _ (ledger n) s (voting n) (identity n) (stem n) (pm_relay n) (channels n) (advertised_p2p n).
Definition set_voting {R W} (v : Voting) (n : Node R W) : Node R W :=
  mkNode _ _ (ledger n) (sessions n) v (identity n) (stem n) (pm_relay n) (channels n) (advertised_p2p n).
Definition set_identity {R W} (i : Identity) (n : Node R W) : Node R W :=
  mkNode _ _ (ledger n) (sessions n) (voting n) i (stem n) (pm_relay n) (channels n) (advertised_p2p n).
Definition set_stem {R W} (d : StemPool) (n : Node R W) : Node R W :=
  mkNode _ _ (ledger n) (sessions n) (voting n) (identity n) d (pm_relay n) (channels n) (advertised_p2p n).
Definition set_relay {R W} (r : option R) (n : Node R W) : Node R W :=
  mkNode _ _ (ledger n) (sessions n) (voting n) (identity n) (stem n) r (channels n) (advertised_p2p n).
Definition set_channels {R W} (w : option W) (n : Node R W) : Node R W :=
  mkNode _ _ (ledger n) (sessions n) (voting n) (identity n) (stem n) (pm_relay n) w (advertised_p2p n).

Definition push_out (ms : list string) (l : Ledger) : Ledger :=
  mkLedger (l_chain l) (l_mempool l) (l_consensus l) (seen_txids l) (seen_block_hashes l) (outbound l ++ ms).
Definition set_pool (m : Mempool) (seen : gset string) (l : Ledger) : Ledger :=
  mkLedger (l_chain l) m (l_consensus l) seen (seen_block_hashes l) (outbound l).
Definition set_chain (c : Chain) (m : Mempool) (e : ConsensusEngine) (seen : gset string) (l : Ledger) : Ledger :=
  mkLedger c m e (seen_txids l) seen (outbound l).

Definition set_table (p : PeerNetwork) (s : Sessions) : Sessions :=
  mkSessions p (handshake_ok s) (peer_proto_ s) (seen_nonces s) (peer_pubkeys s) (pinned_peer_pubkeys s) (rate_limits s).
Definition set_handshake (hs : gmap string bool) (s : Sessions) : Sessions :=
  mkSessions (s_peers s) hs (peer_proto_ s) (seen_nonces s) (peer_pubkeys s) (pinned_peer_pubkeys s) (rate_limits s).
Definition set_rates (r : gmap string RateBucket) (s : Sessions) : Sessions :=
  mkSessions (s_peers s) (handshake_ok s) (peer_proto_ s) (seen_nonces s) (peer_pubkeys s) (pinned_peer_pubkeys s) r.

Definition set_rotation (r : option PendingRotation) (ids sigs : gset string) (i : Identity) : Identity :=
  mkIdentity (self_id i) (node_public_key i) (node_private_key i) r ids sigs.

(** ** Limits and helpers *)

Definition kMsgSkewSec : Z := 90.
Definition kMaxPeerIdLen : nat := 128.
Definition kMaxNonceLen : nat := 128.
Definition kMaxPubKeyHexLen : nat := Z.to_nat 12000.
Definition kMaxSigHexLen : nat := Z.to_nat 40000.
Definition kMaxRotationIdLen : nat := 128.
Definition kGenericWindowSec : Z := 10.
Definition kGenericMax : nat := Z.to_nat 2048.
Definition kExpensiveMax : nat := 512.
Definition kMaxStempool : nat := Z.to_nat 5000.

Definition proto_supported (v : string) : bool := String.eqb v "4" || String.eqb v "3" || String.eqb v "2".
Definition is_reasonable_field_size (v : string) (max_len : nat) : bool :=
  negb (is_empty v) && (String.length v <=? max_len)%nat.

Section node.
Context {C : Crypto} {ST : Stark} {MO : MempoolOrder} {I : Inet} {S : Signer} (cfg : ChainConfig) (dp : Params).
Context {R W : Type} {PR : PmRelay R} {CH : ChanHandler W}.
Implicit Type n : Node R W.

Definition active_network_id : string :=
  if is_empty (network_id cfg) then "ADDITION_TESTNET_V1" else network_id cfg.

Definition n_chain n : Chain := l_chain (ledger n).
Definition update_ledger (f : Ledger → Ledger) n : Node R W := set_ledger (f (ledger n)) n.
Definition update_table (f : PeerNetwork → PeerNetwork) n : Node R W :=
  set_sessions (set_table (f (s_peers (sessions n))) (sessions n)) n.
Definition good (peer : string) n : Node R W := update_table (λ p, mark_peer_good p peer) n.
Definition bad (now : Z) (peer : string) n : Node R W := update_table (λ p, mark_peer_bad now p peer) n.
Definition emit (ms : list string) n : Node R W := update_ledger (push_out ms) n.

(** ** Stake votes and equivocation *)

Definition watch_key (v : StakeVote) : string := ticket_id v +:+ "|" +:+ to_string (voted_height v).

(** The new state, the lines to gossip, and whether the vote belongs to an equivocator. *)
Definition observe_vote_for_equivocation (c : Chain) (vt : Voting) (v : StakeVote) : Voting * list string * bool :=
  if negb (is_ok (verify_vote_signature_only cfg c v)) then (vt, [], false)
  else
    match vote_watch vt !! watch_key v with
    | None =>
        let w := if (Z.to_nat 200000 <? size (vote_watch vt))%nat then ∅ else vote_watch vt in
        (mkVoting (vote_pool vt) (<[watch_key v := v]> w) (pending_slashes vt) (slash_reported vt)
           (seen_stake_votes vt) (auto_vote_keys vt), [], false)
    | Some first =>
        if String.eqb (voted_hash first) (voted_hash v) && Bool.eqb (approve first) (approve v) then (vt, [], false)
        else if bool_decide (ticket_id v ∈ slash_reported vt) then (vt, [], true)
        else
          let ev := mkSlashEvidence first v in
          if negb (is_ok (validate_slash cfg c ev)) then (vt, [], false)
          else (mkVoting (vote_pool vt) (vote_watch vt) (pending_slashes vt ++ [ev])
                  ({[ticket_id v]} ∪ slash_reported vt) (seen_stake_votes vt) (auto_vote_keys vt),
                ["SVOTE|" +:+ encode_stake_vote v; "SVOTE|" +:+ encode_stake_vote first], true)
    end.

Definition prune_vote_pool (c : Chain) (vt : Voting) : Voting :=
  mkVoting (filter (λ v, height_of c <= voted_height v) (vote_pool vt)) (vote_watch vt)
    (filter (λ ev, is_Some (tickets c !! ticket_id (ev_a ev))) (pending_slashes vt)) (slash_reported vt)
    (if (Z.to_nat 100000 <? size (seen_stake_votes vt))%nat then ∅ else seen_stake_votes vt) (auto_vote_keys vt).

Definition usable_slash_evidence (c : Chain) (vt : Voting) : list SlashEvidence :=
  filter (λ ev, is_ok (validate_slash cfg c ev) = true) (pending_slashes vt).
Definition usable_stake_votes (c : Chain) (vt : Voting) : list StakeVote :=
  usable_votes_for_next_block cfg c (vote_pool vt).

Definition vote_key (v : StakeVote) : string :=
  ticket_id v +:+ "|" +:+ to_string (voted_height v) +:+ "|" +:+ voted_hash v +:+ "|" +:+
  (if approve v then "1" else "0").
Definition submit_stake_vote (c : Chain) (vt : Voting) (v : StakeVote) : Voting * list string * result () :=
  let '(vt, out, eq) := observe_vote_for_equivocation c (prune_vote_pool c vt) v in
  if eq : bool then (vt, out, Err "duplicate stake vote (equivocation recorded)")
  else if negb (voted_height v =? height_of c) then (vt, out, Err "stale stake vote")
  else if bool_decide (vote_key v ∈ seen_stake_votes vt) then (vt, out, Err "duplicate stake vote")
  else
    match verify_stake_vote cfg c v with
    | Err e => (vt, out, Err e)
    | Ok _ =>
        if negb (bool_decide (ticket_id v ∈ selected_tickets_for_next_block cfg c))
        then (vt, out, Err "ticket not selected for this block")
        else (mkVoting (vote_pool vt ++ [v]) (vote_watch vt) (pending_slashes vt) (slash_reported vt)
                ({[vote_key v]} ∪ seen_stake_votes vt) (auto_vote_keys vt),
              out ++ ["SVOTE|" +:+ encode_stake_vote v], Ok ())
    end.

(** The automatic voter: the vote of one selected ticket. *)
Definition auto_vote (c : Chain) (acc : Voting * list string * nat) (id : string) : Voting * list string * nat :=
  let '(vt, out, cast) := acc in
  match tickets c !! id with
  | None => acc
  | Some t =>
      match auto_vote_keys vt !! owner t with
      | None => acc
      | Some k =>
          if negb (String.eqb (ak_public k) (owner_pubkey t)) then acc
          else
            let h := height_of c in
            let hash := hash_block_header (header (tip c)) in
            match list_find (λ p, ticket_id p = id ∧ voted_height p = h) (vote_pool vt) with
            | Some (_, p) =>
                let msg := "SVOTE|" +:+ encode_stake_vote p in
                if String.eqb (voted_hash p) hash && negb (bool_decide (msg ∈ out)) then (vt, out ++ [msg], cast)
                else acc
            | None =>
                match sign_message_hybrid (ak_private k) (stake_vote_message (network_id cfg) h hash id true) with
                | None => acc
                | Some sig =>
                    let '(vt, ms, r) := submit_stake_vote c vt (mkStakeVote id h hash true sig) in
                    (vt, out ++ ms, if is_ok r then Datatypes.S cast else cast)
                end
            end
      end
  end.
Definition refresh_local_votes (c : Chain) (vt : Voting) (out : list string) : Voting * list string * nat :=
  if bool_decide (auto_vote_keys vt = ∅) || negb (staking_active_at cfg (next_height c)) then (vt, out, O)
  else foldl (auto_vote c) (vt, out, O) (selected_tickets_for_next_block cfg c).

(** ** Transactions *)

Definition fluff_transaction (l : Ledger) (tx : Transaction) : Ledger * result () :=
  match validate_transaction cfg (l_chain l) tx true with
  | Err e => (l, Err e)
  | Ok _ =>
      let txid := hash_transaction tx in
      if bool_decide (txid ∈ seen_txids l) then (l, Ok ())
      else match submit (l_mempool l) tx with
           | (m, false) => (set_pool m (({[txid]} ∪ seen_txids l) ∖ {[txid]}) l, Err "duplicate mempool tx")
           | (m, true) => (push_out [encode_tx_gossip tx] (set_pool m ({[txid]} ∪ seen_txids l) l), Ok ())
           end
  end.

Definition outbound_relay_peers (now : Z) (p : PeerNetwork) : list string :=
  filter (λ ep, is_peer_endpoint ep && negb (is_self_peer_label ep) && negb (is_banned now p ep) = true)
    (select_peers now 0 p).

Definition unstem (txid : string) (s : StemPool) : StemPool :=
  mkStemPool (dandelion s) (mark_fluffed (router s) txid) (delete txid (stempool s)) (stem_outbound s).
Definition set_router (r : Router) (s : StemPool) : StemPool :=
  mkStemPool (dandelion s) r (stempool s) (stem_outbound s).

Definition stem_transaction (now : Z) (d : Draws) n (tx : Transaction) (source : string) : Node R W * result () :=
  match validate_transaction cfg (n_chain n) tx true with
  | Err e => (n, Err e)
  | Ok _ =>
      let txid := hash_transaction tx in
      if bool_decide (txid ∈ seen_txids (ledger n)) || bool_decide (is_Some (stempool (stem n) !! txid)) then (n, Ok ())
      else
        let '(r, x) := route dp now d (router (stem n)) source (outbound_relay_peers now (s_peers (sessions n))) in
        let fluff :=
          let '(l, res) := fluff_transaction (ledger n) tx in
          (set_ledger l (set_stem (set_router (mark_fluffed r txid) (stem n)) n), res) in
        match x with
        | Fluff => fluff
        | Stem relay =>
            if (kMaxStempool <=? size (stempool (stem n)))%nat then fluff
            else
              (set_stem (mkStemPool (dandelion (stem n)) (embargo dp now d r txid)
                           (<[txid := tx]> (stempool (stem n)))
                           (stem_outbound (stem n) ++ [(relay, "STEM|" +:+ str_drop 3 (encode_tx_gossip tx))])) n, Ok ())
        end
  end.
Definition submit_transaction (now : Z) (d : Draws) n (tx : Transaction) : Node R W * result () :=
  if dandelion (stem n) then stem_transaction now d n tx ""
  else let '(l, r) := fluff_transaction (ledger n) tx in (set_ledger l n, r).

(** ** Blocks *)

Definition observe_votes (c : Chain) (vt : Voting) (vs : list StakeVote) : Voting * list string :=
  foldl (λ acc v, let '(vt, ms, _) := observe_vote_for_equivocation c acc.1 v in (vt, acc.2 ++ ms)) (vt, []) vs.

Definition ingest_block (now : Z) n (b : Block) : Node R W * result () :=
  let l := ledger n in
  let bh := hash_block_header (header b) in
  if bool_decide (bh ∈ seen_block_hashes l) then (n, Ok ())
  else
    let '(vt, ms) := observe_votes (l_chain l) (voting n) (votes b) in
    match add_block cfg now (l_chain l) b with
    | (c, Err e) =>
        (set_voting vt (set_ledger (push_out ms (set_chain c (l_mempool l) (l_consensus l)
           (({[bh]} ∪ seen_block_hashes l) ∖ {[bh]}) l)) n), Err e)
    | (c, Ok _) =>
        let m := (remove_confirmed (l_mempool l) (transactions b)).1 in
        let e := submit_vote (l_consensus l) (self_id (identity n)) (height (header b)) bh in
        let l := push_out (ms ++ [encode_block_announce b]) (set_chain c m e ({[bh]} ∪ seen_block_hashes l) l) in
        let '(vt, out, _) := refresh_local_votes c vt (outbound l) in
        (set_voting vt (set_ledger (mkLedger (l_chain l) (l_mempool l) (l_consensus l) (seen_txids l)
           (seen_block_hashes l) out) n), Ok ())
    end.
Definition ingest_block_payload (now : Z) n (payload : string) : Node R W * result () :=
  match decode_block_payload payload with Err e => (n, Err e) | Ok b => ingest_block now n b end.
Definition get_block_payload (c : Chain) (h : Z) : result string :=
  match (if h <? list_size (blocks c) then blocks c !! Z.to_nat h else None) with
  | None => Err "block height out of range"
  | Some b => Ok (encode_block_payload b)
  end.

(** ** Rate limit *)

Fixpoint drop_old (now : Z) (hits : list Z) : list Z :=
  match hits with
  | t :: hits' => if u64 (t + kGenericWindowSec) <? now then drop_old now hits' else hits
  | [] => []
  end.
Definition allow_peer_message (now : Z) (s : Sessions) (peer : string) (expensive : bool) : Sessions * result () :=
  let b := default (mkRateBucket [] []) (rate_limits s !! peer) in
  let g := drop_old now (generic_hits b) in
  let e := drop_old now (expensive_hits b) in
  let put g e := set_rates (<[peer := mkRateBucket g e]> (rate_limits s)) s in
  if (kGenericMax <=? length g)%nat then (put g e, Err "rate limit exceeded (generic)")
  else
    let g := g ++ [now] in
    if expensive then
      if (kExpensiveMax <=? length e)%nat then (put g e, Err "rate limit exceeded (expensive)")
      else (put g (e ++ [now]), Ok ())
    else (put g e, Ok ()).
End node.
