(* ===== verification/NodeInbound.v ===== *)
(** * Inbound messages and identity rotation
    ([DecentralizedNode::handle_inbound_message], [handle_p2p_line] and the rotation of
    the node's key in [src/decentralized_node.cpp])

    A handler takes the state, one reading of the clock and the peer's id and returns the
    new state with the reply, or the error sent back. *)
From S2P Require Import Prelude ConsensusRules Strings Lines Crypto Types Wire Block Staking Shielded Script.
From S2P Require Import Chain ChainBlock Mempool Mining Votes Dandelion Peers NodeCodec Node.

(** [std::getline] for each of the separators in turn, all of which must succeed. *)
Fixpoint read_fields (cs : list ascii) (st : stream) : option (list string) :=
  match cs with
  | [] => Some []
  | c :: cs => match getline_ok c st with
               | None => None
               | Some (f, st) => cons f <$> read_fields cs st
               end
  end.
(** The peer's id and the message of a line. *)
Definition parse_line (line : string) : string * string :=
  let '(peer, rest) := word (skip_spaces line) in
  let payload := (getline nl (Some rest)).1 in
  (peer, match payload with String " " p => p | p => p end).

Definition set_session_keys (nonces : gmap string (gset string)) (keys pins : gmap string string) (s : Sessions) :
    Sessions :=
  mkSessions (s_peers s) (handshake_ok s) (peer_proto_ s) nonces keys pins (rate_limits s).
Definition set_proto (m : gmap string Z) (s : Sessions) : Sessions :=
  mkSessions (s_peers s) (handshake_ok s) m (seen_nonces s) (peer_pubkeys s) (pinned_peer_pubkeys s) (rate_limits s).

Definition peer_proto (s : Sessions) (peer : string) : Z := default 2 (peer_proto_ s !! peer).

(** [map.emplace(k, v)] *)
Definition emplace {A} (k : string) (v : A) (m : gmap string A) : gmap string A :=
  match m !! k with Some _ => m | None => <[k := v]> m end.

(** The message types counted against the tighter limit. *)
Definition is_expensive (message : string) : bool :=
  existsb (λ p, starts_with p message)
    ["REQBLK|"; "REQINV|"; "BLKDATA|"; "REQADDR|"; "ADVERTISE|"; "IDROTATE|"; "IDVOTE|"; "SVOTE|"; "PMSG|";
     "PMDEL|"; "KPKG|"; "CHAN|"].

(** The replies. *)
Definition pm_ok (dup : bool) : string := if dup then "PMOK|dup" else "PMOK|stored".
Definition inv_item {C : Crypto} (blocks : list Block) (h : Z) : option string :=
  (λ b : Block, to_string h +:+ ":" +:+ hash_block_header (header b)) <$> blocks !! Z.to_nat h.

Section inbound.
Context {C : Crypto} {ST : Stark} {MO : MempoolOrder} {I : Inet} {S : Signer} (cfg : ChainConfig) (dp : Params).
Context {R W : Type} {PR : PmRelay R} {CH : ChanHandler W}.
Implicit Type n : Node R W.

Notation verify := verify_message_signature_hybrid_uncached.

(** [error = e; peers_.mark_peer_bad(peer); return false;] and
    [peers_.mark_peer_good(peer); return true;] *)
Definition reject (now : Z) (peer e : string) n : Node R W * result string := (bad now peer n, Err e).
Definition accept (peer reply : string) n : Node R W * result string := (good peer n, Ok reply).
Definition judge (now : Z) (peer : string) (x : Node R W * result ()) : Node R W * result string :=
  match x with (n, Ok _) => accept peer "" n | (n, Err e) => reject now peer e n end.

(** ** The handshake *)

Definition set_ok (peer : string) (f : bool) n : Node R W :=
  set_sessions (set_handshake (<[peer := f]> (handshake_ok (sessions n))) (sessions n)) n.
Definition refuse_hello (now : Z) (peer e : string) n : Node R W * result string :=
  (set_ok peer false (bad now peer n), Err e).

(** The checks on the fields of a HELLO, in the order of the code. *)
Definition check_hello (now : Z) (s : Sessions) (peer version network ts_s nonce pk sig : string) : result () :=
  reject_if negb (proto_supported version) || negb (String.eqb network (active_network_id cfg))
    as "handshake mismatch" ;;
  match stoull 10 ts_s with
  | None => Err "invalid hello timestamp"
  | Some (ts, _) =>
      reject_if (u64 (ts + kMsgSkewSec) <? now) || (u64 (now + kMsgSkewSec) <? ts) as "hello timestamp skew" ;;
      reject_if is_empty nonce as "missing hello nonce" ;;
      reject_if is_empty pk || is_empty sig as "missing hello signature fields" ;;
      reject_if negb (is_reasonable_field_size nonce kMaxNonceLen) ||
                negb (is_reasonable_field_size pk kMaxPubKeyHexLen) ||
                negb (is_reasonable_field_size sig kMaxSigHexLen) as "hello field too large" ;;
      reject_if from_option (λ pin, negb (String.eqb pin pk)) false (pinned_peer_pubkeys s !! peer)
        as "peer pubkey pin mismatch" ;;
      reject_if negb (verify pk (version +:+ "|" +:+ network +:+ "|" +:+ ts_s +:+ "|" +:+ nonce +:+ "|" +:+ pk) sig)
        as "invalid hello signature" ;;
      reject_if bool_decide (nonce ∈ default ∅ (seen_nonces s !! peer)) as "replayed hello nonce" ;;
      Ok ()
  end.
(** What an authenticated HELLO leaves in the sessions. *)
Definition remember_hello (peer nonce pk : string) (s : Sessions) : Sessions :=
  let seen : gset string := {[nonce]} ∪ default ∅ (seen_nonces s !! peer) in
  let seen := if (Z.to_nat 4096 <? size seen)%nat then {[nonce]} else seen in
  set_session_keys (<[peer := seen]> (seen_nonces s)) (<[peer := pk]> (peer_pubkeys s))
    (emplace peer pk (pinned_peer_pubkeys s)) s.
Definition negotiated (version : string) : string :=
  if String.eqb version "4" || String.eqb version "3" then version else "2".
Definition proto_of (negotiated : string) : Z :=
  if String.eqb negotiated "4" then 4 else if String.eqb negotiated "3" then 3 else 2.
Definition ack_body (now : Z) (i : Identity) (version nonce : string) : string :=
  version +:+ "|" +:+ active_network_id cfg +:+ "|" +:+ to_string now +:+ "|" +:+ nonce +:+ "|" +:+ node_public_key i.

Definition handle_hello (now : Z) n (peer body : string) : Node R W * result string :=
  match read_fields ["|"; "|"; "|"; "|"; "|"; nl]%char (Some body) with
  | Some [version; network; ts_s; nonce; pk; sig] =>
      match check_hello now (sessions n) peer version network ts_s nonce pk sig with
      | Err e => refuse_hello now peer e n
      | Ok _ =>
          let n := set_sessions (remember_hello peer nonce pk (sessions n)) n in
          let v := negotiated version in
          let ack := ack_body now (identity n) v nonce in
          match sign_message_hybrid (node_private_key (identity n)) ack with
          | None => refuse_hello now peer "ack signing failed" n
          | Some ack_sig =>
              let n := good peer (update_table (λ p, readmit_authenticated now p peer) n) in
              let n := set_ok peer true n in
              (set_sessions (set_proto (<[peer := proto_of v]> (peer_proto_ (sessions n))) (sessions n)) n,
               Ok ("HELLO_ACK|" +:+ ack +:+ "|" +:+ ack_sig))
          end
      end
  | _ => refuse_hello now peer "invalid hello" n
  end.

(** ** Transactions, votes, blocks *)

Definition handle_tx (now : Z) n (peer body : string) : Node R W * result string :=
  match decode_tx_payload body with
  | Err e => reject now peer e n
  | Ok tx =>
      let n := set_stem (unstem (hash_transaction tx) (stem n)) n in
      let '(l, r) := fluff_transaction cfg (ledger n) tx in
      let n := set_ledger l n in
      match r with
      | Ok _ => accept peer "" n
      | Err e => if contains "signature" e then reject now peer e n else (n, Err e)
      end
  end.
Definition handle_stem (now : Z) (d : Draws) n (peer body : string) : Node R W * result string :=
  match decode_tx_payload body with
  | Err e => reject now peer e n
  | Ok tx =>
      judge now peer
        (if dandelion (stem n) then stem_transaction cfg dp now d n tx peer
         else let '(l, r) := fluff_transaction cfg (ledger n) tx in (set_ledger l n, r))
  end.
Definition handle_svote (now : Z) n (peer body : string) : Node R W * result string :=
  match decode_stake_vote body with
  | Err e => reject now peer e n
  | Ok v =>
      let '(vt, out, r) := submit_stake_vote cfg (n_chain n) (voting n) v in
      let n := emit out (set_voting vt n) in
      match r with
      | Ok _ => accept peer "" n
      | Err e => if contains "duplicate" e || contains "stale" e then accept peer "" n else reject now peer e n
      end
  end.
Definition handle_block (now : Z) n (peer body : string) : Node R W * result string :=
  match decode_block_payload body with
  | Err e => reject now peer e n
  | Ok b => judge now peer (ingest_block cfg now n b)
  end.

(** ** Requests *)

Definition handle_reqblk (now : Z) n (peer body : string) : Node R W * result string :=
  match stoull 10 body with
  | None => reject now peer "invalid block request height" n
  | Some (h, _) =>
      match get_block_payload (n_chain n) h with
      | Err e => reject now peer e n
      | Ok payload =>
          let reply := adapt_for_peer ("BLKDATA|" +:+ payload) (peer_proto (sessions n) peer) in
          if is_empty reply then (n, Err "block requires a newer protocol version (4)") else accept peer reply n
      end
  end.
Definition inventory (blocks : list Block) (start limit : Z) : string :=
  let limit := if limit =? 0 then 1 else if 64 <? limit then 64 else limit in
  let e := Z.min (list_size blocks) (u64 (start + limit)) in
  "INV|" +:+ join "," (omap (inv_item blocks) (seqZ start (e - start))).
Definition handle_reqinv (now : Z) n (peer body : string) : Node R W * result string :=
  match cut "|" body with
  | (_, None) => reject now peer "invalid inventory request" n
  | (start, Some limit) =>
      match stoull 10 start, stoull 10 limit with
      | Some (start, _), Some (limit, _) => accept peer (inventory (blocks (n_chain n)) start limit) n
      | _, _ => reject now peer "invalid inventory request values" n
      end
  end.
Definition handle_advertise (now : Z) n (addr : string) : Node R W * result string :=
  if negb (is_external_advertised_peer addr) then (n, Err "bad advertise address")
  else if String.eqb addr (advertised_p2p n) then (n, Ok "ADVERTISE_OK")
  else (update_table (λ p, (add_candidate now p addr).1) n, Ok "ADVERTISE_OK").
Definition address_list (now : Z) (p : PeerNetwork) : string :=
  "ADDR|" +:+ join "," (take 64 (filter (λ ep, is_external_advertised_peer ep = true) (select_peers now 0 p))).

(** ** Private messages and channels *)

Definition handle_chan (now : Z) n (peer body : string) : Node R W * result string :=
  match channels n with
  | None => (n, Err "channels disabled")
  | Some w =>
      let '(w, r) := chan_handler now w (n_chain n) peer body in
      let n := set_channels (Some w) n in
      match r with Ok reply => accept peer reply n | Err e => (n, Err e) end
  end.
Definition with_relay (f : R → R * result bool) (g : Node R W → Node R W) n : Node R W * result string :=
  match pm_relay n with
  | None => (n, Err "pm relay disabled")
  | Some r =>
      let '(r, x) := f r in
      let n := set_relay (Some r) n in
      match x with Ok dup => (g n, Ok (pm_ok dup)) | Err e => (n, Err e) end
  end.

(** ** Rotation of the node's key *)

Definition with_rotation (r : PendingRotation) (ids sigs : gset string) n : Node R W :=
  set_identity (set_rotation (Some r) ids sigs (identity n)) n.

Definition handle_idrotate (now : Z) n (peer message : string) : Node R W * result string :=
  match read_fields ["|"; "|"; "|"; "|"; nl]%char (Some (str_drop 9 message)) with
  | Some [rid; old_pk; new_pk; eff_s; proof] =>
      if negb (is_reasonable_field_size rid kMaxRotationIdLen) ||
         negb (is_reasonable_field_size old_pk kMaxPubKeyHexLen) ||
         negb (is_reasonable_field_size new_pk kMaxPubKeyHexLen) ||
         negb (is_reasonable_field_size proof kMaxSigHexLen)
      then reject now peer "rotation field too large" n
      else if negb (verify old_pk ("rotate|" +:+ old_pk +:+ "|" +:+ new_pk +:+ "|" +:+ eff_s) proof)
      then reject now peer "invalid rotation proof" n
      else
        match stoull 10 eff_s with
        | None => reject now peer "invalid rotation effective time" n
        | Some (eff, _) =>
            let i := identity n in
            if bool_decide (rid ∈ seen_rotation_ids i) then accept peer "" n
            else
              let r := mkPendingRotation new_pk "" eff proof rid ∅ ∅ in
              let n := with_rotation r ({[rid]} ∪ seen_rotation_ids i) (seen_vote_signatures i) n in
              accept peer "" (emit [message] n)
        end
  | _ => reject now peer "invalid rotation announce" n
  end.

(** A vote is counted once per signature. *)
Definition count_vote (voter sig : string) (r : PendingRotation) : PendingRotation :=
  if bool_decide (sig ∈ rot_signatures r) then r
  else mkPendingRotation (new_public_key r) (new_private_key r) (effective_after r) (rot_proof r) (rotation_id r)
         ({[voter]} ∪ rot_votes r) ({[sig]} ∪ rot_signatures r).
Definition handle_idvote (now : Z) n (peer message : string) : Node R W * result string :=
  match pending_rotation (identity n) with
  | None => reject now peer "no pending rotation for vote" n
  | Some r =>
      match read_fields ["|"; "|"; "|"; nl]%char (Some (str_drop 7 message)) with
      | Some [rid; voter_id; voter_pk; sig] =>
          if negb (is_reasonable_field_size rid kMaxRotationIdLen) ||
             negb (is_reasonable_field_size voter_id kMaxPeerIdLen) ||
             negb (is_reasonable_field_size voter_pk kMaxPubKeyHexLen) ||
             negb (is_reasonable_field_size sig kMaxSigHexLen)
          then reject now peer "vote field too large" n
          else if negb (String.eqb rid (rotation_id r)) then reject now peer "vote rotation id mismatch" n
          else if negb (verify voter_pk ("idvote|" +:+ rid +:+ "|" +:+ voter_id) sig)
          then reject now peer "invalid vote signature" n
          else
            let i := identity n in
            let seen := bool_decide (sig ∈ seen_vote_signatures i) in
            let n := with_rotation (count_vote voter_id sig r) (seen_rotation_ids i)
                       ({[sig]} ∪ seen_vote_signatures i) n in
            accept peer "" (if seen : bool then n else emit [message] n)
      | _ => reject now peer "invalid vote message" n
      end
  end.

Definition propose_identity_rotation (now : Z) n (new_pk new_sk : string) (grace : Z) : Node R W * result () :=
  if is_empty new_pk || is_empty new_sk then (n, Err "new identity keys required")
  else if grace <? 30 then (n, Err "grace too short")
  else
    let i := identity n in
    let eff := u64 (now + grace) in
    let body := "rotate|" +:+ node_public_key i +:+ "|" +:+ new_pk +:+ "|" +:+ to_string eff in
    match sign_message_hybrid (node_private_key i) body with
    | None => (n, Err "rotation proof signing failed")
    | Some proof =>
        let rid := to_hex (sha3_512_bytes body) in
        let r := mkPendingRotation new_pk new_sk eff proof rid {[self_id i]} {[proof]} in
        (with_rotation r (seen_rotation_ids i) (seen_vote_signatures i)
           (emit ["IDROTATE|" +:+ rid +:+ "|" +:+ node_public_key i +:+ "|" +:+ new_pk +:+ "|" +:+ to_string eff +:+
                  "|" +:+ proof] n), Ok ())
    end.
Definition vote_identity_rotation n (peer_id : string) : Node R W * result () :=
  let i := identity n in
  match pending_rotation i with
  | None => (n, Err "no pending rotation")
  | Some r =>
      if is_empty peer_id then (n, Err "peer id required")
      else (with_rotation (mkPendingRotation (new_public_key r) (new_private_key r) (effective_after r) (rot_proof r)
              (rotation_id r) ({[peer_id]} ∪ rot_votes r) (rot_signatures r))
              (seen_rotation_ids i) (seen_vote_signatures i) n, Ok ())
  end.
Definition broadcast_identity_rotation_vote n : Node R W * result () :=
  let i := identity n in
  match pending_rotation i with
  | None => (n, Err "no pending rotation")
  | Some r =>
      match sign_message_hybrid (node_private_key i) ("idvote|" +:+ rotation_id r +:+ "|" +:+ self_id i) with
      | None => (n, Err "vote signing failed")
      | Some sig =>
          (emit ["IDVOTE|" +:+ rotation_id r +:+ "|" +:+ self_id i +:+ "|" +:+ node_public_key i +:+ "|" +:+ sig]
             (with_rotation (count_vote (self_id i) sig r) (seen_rotation_ids i) (seen_vote_signatures i) n), Ok ())
      end
  end.
Definition commit_identity_rotation (now : Z) n : Node R W * result () :=
  let i := identity n in
  match pending_rotation i with
  | None => (n, Err "no pending rotation")
  | Some r =>
      if now <? effective_after r then (n, Err "rotation grace period not elapsed")
      else
        let total := Z.of_nat (peer_count (s_peers (sessions n))) + 1 in
        if Z.of_nat (size (rot_votes r)) <? Z.quot (2 * total) 3 + 1 then (n, Err "rotation quorum not reached")
        else (set_identity (mkIdentity (self_id i) (new_public_key r) (new_private_key r) None
                (seen_rotation_ids i) (seen_vote_signatures i)) n, Ok ())
  end.
Definition identity_rotation_status n : string :=
  match pending_rotation (identity n) with
  | None => "none"
  | Some r => "pending id=" +:+ str_take 16 (rotation_id r) +:+ " effective_after=" +:+ to_string (effective_after r) +:+
              " votes=" +:+ to_string (Z.of_nat (size (rot_votes r)))
  end.

(** ** The dispatcher *)

Definition dispatch (now : Z) (d : Draws) n (peer m : string) : Node R W * result string :=
  if starts_with "TX|" m then handle_tx now n peer (str_drop 3 m)
  else if starts_with "CHAN|" m then handle_chan now n peer (str_drop 5 m)
  else if starts_with "KPKG|" m then with_relay (λ r, accept_package r peer (str_drop 5 m)) (λ n, n) n
  else if starts_with "PMSG|" m || starts_with "PMDEL|" m
  then with_relay (λ r, if starts_with "PMDEL|" m then accept_delete r peer (str_drop 6 m)
                        else accept_wire r peer (str_drop 5 m)) (good peer) n
  else if starts_with "SVOTE|" m then handle_svote now n peer (str_drop 6 m)
  else if starts_with "BLK|" m then handle_block now n peer (str_drop 4 m)
  else if starts_with "REQH|" m then accept peer ("HAVEH|" +:+ to_string (height_of (n_chain n))) n
  else if starts_with "REQWORK|" m then accept peer ("HAVEWORK|" +:+ to_string (cumulative_work (n_chain n))) n
  else if starts_with "REQBLK|" m then handle_reqblk now n peer (str_drop 7 m)
  else if starts_with "REQINV|" m then handle_reqinv now n peer (str_drop 7 m)
  else if starts_with "STEM|" m then handle_stem now d n peer (str_drop 5 m)
  else if starts_with "ADVERTISE|" m then handle_advertise now n (str_drop 10 m)
  else if starts_with "REQADDR|" m then accept peer (address_list now (s_peers (sessions n))) n
  else if starts_with "IDROTATE|" m then handle_idrotate now n peer m
  else if starts_with "IDVOTE|" m then handle_idvote now n peer m
  else if starts_with "BLKDATA|" m then judge now peer (ingest_block_payload cfg now n (str_drop 8 m))
  else reject now peer "unknown message type" n.

Definition banned_error (until : Z) : string :=
  "peer banned until " +:+ to_string until +:+ " (misbehaviour; time-limited)".
(** Admission to the peer table. *)
Definition admit_peer (now : Z) (p : PeerNetwork) (peer : string) : PeerNetwork * result () :=
  let '(p, added) := if has_peer p peer then (p, true) else add_peer now p peer in
  if negb added then
    let until := ban_expiry now p peer in
    (p, Err (if negb (until =? 0) then banned_error until else "peer table full"))
  else if is_banned now p peer then (p, Err (banned_error (ban_expiry now p peer)))
  else (p, Ok ()).

Definition handle_inbound_message (now : Z) (d : Draws) n (peer m : string) : Node R W * result string :=
  let '(p, r) := admit_peer now (s_peers (sessions n)) peer in
  let n := update_table (λ _, p) n in
  match r with
  | Err e => (n, Err e)
  | Ok _ =>
      let '(s, r) := allow_peer_message now (sessions n) peer (is_expensive m) in
      let n := set_sessions s n in
      match r with
      | Err e => reject now peer e n
      | Ok _ =>
          if starts_with "HELLO|" m then handle_hello now n peer (str_drop 6 m)
          else if negb (default false (handshake_ok (sessions n) !! peer)) then (n, Err "handshake required")
          else dispatch now d n peer m
      end
  end.

(** The variant of the callers inside the node: the reply is queued. *)
Definition deliver (now : Z) (d : Draws) n (peer m : string) : Node R W * result () :=
  match handle_inbound_message now d n peer m with
  | (n, Ok reply) => (if is_empty reply then n else emit [reply] n, Ok ())
  | (n, Err e) => (n, Err e)
  end.

(** A line of the P2P port and the answer to it. *)
Definition handle_p2p_line (now : Z) (d : Draws) n (line : string) : Node R W * string :=
  let '(peer, payload) := parse_line line in
  if is_empty peer || is_empty payload then (n, "error: usage <peer> <payload>")
  else
    match handle_inbound_message now d n peer payload with
    | (n, Err e) => (n, "error: " +:+ e)
    | (n, Ok reply) => (n, if is_empty reply then "ok" else "ok:" +:+ reply)
    end.

(** ** Keys of the peers and of the node *)

Definition peer_pins (s : Sessions) : list (string * string) := map_to_list (pinned_peer_pubkeys s).
Definition load_peer_pins (s : Sessions) (pins : list (string * string)) : Sessions :=
  set_session_keys (seen_nonces s) (peer_pubkeys s)
    (foldl (λ m kv, if negb (is_empty kv.1) && negb (is_empty kv.2) then <[kv.1 := kv.2]> m else m) ∅ pins) s.
Definition derive_node_id (requested pubkey : string) : string :=
  if negb (is_empty requested) && negb (String.eqb requested "self") then requested
  else if is_empty pubkey then (if is_empty requested then "self" else requested)
  else "n-" +:+ str_take 32 (to_hex (sha3_512_bytes ("node-id|" +:+ pubkey))).
Definition set_auto_vote_key (address pk sk : string) (vt : Voting) : Voting :=
  mkVoting (vote_pool vt) (vote_watch vt) (pending_slashes vt) (slash_reported vt) (seen_stake_votes vt)
    (<[address := mkAutoVoteKey pk sk]> (auto_vote_keys vt)).
Definition clear_auto_vote_key (address : string) (vt : Voting) : Voting :=
  mkVoting (vote_pool vt) (vote_watch vt) (pending_slashes vt) (slash_reported vt) (seen_stake_votes vt)
    (delete address (auto_vote_keys vt)).

Definition pull_outbound_messages (l : Ledger) : Ledger * list string :=
  (mkLedger (l_chain l) (l_mempool l) (l_consensus l) (seen_txids l) (seen_block_hashes l) [], outbound l).
Definition announce_tip (l : Ledger) : Ledger :=
  if height_of (l_chain l) =? 0 then l
  else
    let b := tip (l_chain l) in
    mkLedger (l_chain l) (l_mempool l) (l_consensus l)
      (foldl (λ X tx, {[hash_transaction tx]} ∪ X) (seen_txids l) (transactions b))
      ({[hash_block_header (header b)]} ∪ seen_block_hashes l) (outbound l ++ [encode_block_announce b]).

(** ** What happens to a node *)

Inductive NodeEvent :=
  | Inbound (now : Z) (d : Draws) (peer message : string)
  | Line (now : Z) (d : Draws) (line : string)
  | SubmitTx (now : Z) (d : Draws) (tx : Transaction)
  | SubmitVote (v : StakeVote)
  | IngestBlock (now : Z) (b : Block)
  | RefreshVotes
  | AutoKey (address pk sk : string)
  | ClearKey (address : string)
  | AnnounceTip
  | PullOutbound
  | ProposeRotation (now : Z) (pk sk : string) (grace : Z)
  | VoteRotation (peer_id : string)
  | BroadcastVote
  | CommitRotation (now : Z)
  | MarkPeerBad (now : Z) (peer : string)
  | MarkPeerUnreachable (now : Z) (peer : string)
  | MarkPeerGood (peer : string).

Definition node_event n (ev : NodeEvent) : Node R W :=
  match ev with
  | Inbound now d peer m => (deliver now d n peer m).1
  | Line now d line => (handle_p2p_line now d n line).1
  | SubmitTx now d tx => (submit_transaction cfg dp now d n tx).1
  | SubmitVote v => let '(vt, out, _) := submit_stake_vote cfg (n_chain n) (voting n) v in emit out (set_voting vt n)
  | IngestBlock now b => (ingest_block cfg now n b).1
  | RefreshVotes =>
      let '(vt, out, _) := refresh_local_votes cfg (n_chain n) (voting n) (outbound (ledger n)) in
      let l := ledger n in
      set_voting vt (set_ledger (mkLedger (l_chain l) (l_mempool l) (l_consensus l) (seen_txids l)
        (seen_block_hashes l) out) n)
  | AutoKey a pk sk => set_voting (set_auto_vote_key a pk sk (voting n)) n
  | ClearKey a => set_voting (clear_auto_vote_key a (voting n)) n
  | AnnounceTip => update_ledger announce_tip n
  | PullOutbound => update_ledger (λ l, (pull_outbound_messages l).1) n
  | ProposeRotation now pk sk grace => (propose_identity_rotation now n pk sk grace).1
  | VoteRotation p => (vote_identity_rotation n p).1
  | BroadcastVote => (broadcast_identity_rotation_vote n).1
  | CommitRotation now => (commit_identity_rotation now n).1
  | MarkPeerBad now p => bad now p n
  | MarkPeerUnreachable now p => update_table (λ t, mark_peer_unreachable now t p) n
  | MarkPeerGood p => good p n
  end.
Definition run n (evs : list NodeEvent) : Node R W := foldl node_event n evs.

(** The message an event delivers: when, under which id, what. *)
Definition delivers (ev : NodeEvent) : option (Z * string * string) :=
  match ev with
  | Inbound now _ peer m => Some (now, peer, m)
  | Line now _ line => let '(peer, m) := parse_line line in Some (now, peer, m)
  | _ => None
  end.
(** A block handed over in memory has fields of their machine types. *)
Definition event_typed (ev : NodeEvent) : Prop := match ev with IngestBlock _ b => block_u64 b | _ => True end.
End inbound.
