(* ===== verification/NodeSync.v ===== *)
(** * The node as a client ([src/decentralized_node.cpp]: handshakes, block download,
    synchronisation, gossip and requests to peers)

    The state lock is released while a request is on the wire. The network is a list of
    turns, one for each time the lock is released: what happens to the node meanwhile, the
    clock and the shutdown flag afterwards, and the reply lines that come back. Code that
    runs between two turns reads one clock. One call of [sync_once] runs at a time
    ([sync_busy_]). Sockets, the pool of connections and the pacing of writes are what a
    turn stands for; [std::vector::reserve] may throw, as the class [Heap] says. *)
From S2P Require Import Prelude ConsensusRules Strings Lines Crypto Types Wire Block Staking Shielded Script.
From S2P Require Import Chain ChainBlock Mempool Mining Wallet Votes Dandelion Peers NodeCodec Node NodeInbound.

(** Whether the allocator has room for that many blocks. *)
Class Heap := { can_reserve : Z → bool }.
(** The messages of users that wait for a peer. *)
Class PmQueue (R : Type) := {
  undelivered_for : Z → R → string → R * list string;
  mark_delivered : R → string → string → R;
}.

Record Client := mkClient {
  outbound_hs_ok : gmap string bool;
  hello_cache : gmap string (string * Z);
  relayed_message_ids : gmap string (gset string);
}.
Record Turn := mkTurn { meanwhile : list NodeEvent; then_now : Z; then_stop : bool; replies : list string }.
Record Host {R W : Type} := mkHost {
  h_node : Node R W;
  h_client : Client;
  h_net : list Turn;
  h_now : Z;
  h_stop : bool;
  h_log : list (string * list string * list string);
}.
Arguments Host : clear implicits.

(** A computation of the client; [None] is an exception that nothing catches. *)
Definition M (R W A : Type) : Type := Host R W → Host R W * option A.
#[export] Instance M_ret {R W} : MRet (M R W) := λ A a h, (h, Some a).
#[export] Instance M_bind {R W} : MBind (M R W) := λ A B f m h,
  match m h with (h, Some a) => f a h | (h, None) => (h, None) end.

Definition kProtoVersion : string := "4".
Definition kProtoVersionLegacy : string := "2".
Definition kHelloCacheSeconds : Z := 600.
Definition kOnionHelloTransportRetries : nat := 5.
Definition kMaxLineBytes : nat := Z.to_nat 4194304.

(** A reply of an old peer to something else. *)
Definition persist_leftover_reply (resp : string) : bool :=
  String.eqb resp "ok" ||
  existsb (λ p, starts_with p resp)
    ["ok:BLK|"; "ok:TX|"; "ok:HAVE"; "ok:INV|"; "ok:IDROTATE|"; "ok:IDVOTE|"; "ok:SVOTE|"].
Definition persist_truncated_hello (resp : string) : bool :=
  String.eqb resp "error: invalid hello" || String.eqb resp "error: invalid hello signature".
Definition is_push_gossip_message (m : string) : bool :=
  existsb (λ p, starts_with p m) ["TX|"; "BLK|"; "IDROTATE|"; "IDVOTE|"; "SVOTE|"].

(** [height:hash] items with a comma between them; what does not parse is skipped. *)
Definition parse_item (item : string) : option (Z * string) :=
  match cut ":" item with
  | (h, Some hash) => if is_empty hash then None else (λ h, (h, hash)) <$> number h
  | _ => None
  end.
Definition parse_inventory (body : string) : list (Z * string) := omap parse_item (getlines "," (Some body)).

Section client.
Context {C : Crypto} {ST : Stark} {MO : MempoolOrder} {IO : IterationOrder} {I : Inet} {SG : Signer} {HP : Heap}.
Context (cfg : ChainConfig) (dp : Params) {R W : Type} {PR : PmRelay R} {PQ : PmQueue R} {CH : ChanHandler W}.
Notation M := (M R W).
Notation Host := (Host R W).

(** ** The host *)

Definition ask {A} (f : Host → A) : M A := λ h, (h, Some (f h)).
Definition host : M Host := λ h, (h, Some h).
Definition throw {A} : M A := λ h, (h, None).
Definition on_node (f : Z → Node R W → Node R W) : M () := λ h,
  (mkHost R W (f (h_now h) (h_node h)) (h_client h) (h_net h) (h_now h) (h_stop h) (h_log h), Some ()).
Definition on_client (f : Client → Client) : M () := λ h,
  (mkHost R W (h_node h) (f (h_client h)) (h_net h) (h_now h) (h_stop h) (h_log h), Some ()).

(** One release of the lock, and a request line for each of [reqs]. *)
Definition take_turn (peer : string) (reqs : list string) : M (list string) := λ h,
  match h_net h with
  | [] => (mkHost R W (h_node h) (h_client h) [] (h_now h) (h_stop h) (h_log h ++ [(peer, reqs, [])]), Some [])
  | t :: ts =>
      let got := take (length reqs) (replies t) in
      (mkHost R W (run cfg dp (h_node h) (meanwhile t)) (h_client h) ts (then_now t) (then_stop t)
         (h_log h ++ [(peer, reqs, got)]), Some got)
  end.
Definition send_p2p_pipeline (peer : string) (reqs : list string) : M (list string) :=
  if existsb (λ r, kMaxLineBytes <? String.length r + 1)%nat reqs || bool_decide (reqs = []) then mret []
  else take_turn peer reqs.
Definition send_p2p_request (peer req : string) : M (option string) :=
  stop ← ask h_stop;
  if stop : bool then mret None
  else rs ← send_p2p_pipeline peer [req]; mret (head rs).
(** The wait before another attempt over a hidden service. *)
Definition backoff : M () := _ ← take_turn "" []; mret ().

Definition mark_unreachable (peer : string) : M () := on_node (λ now, update_table (λ p, mark_peer_unreachable now p peer)).
Definition mark_bad (peer : string) : M () := on_node (λ now, bad now peer).
Definition mark_good (peer : string) : M () := on_node (λ _, good peer).
Definition set_hs (peer : string) (f : bool) : M () :=
  on_client (λ c, mkClient (<[peer := f]> (outbound_hs_ok c)) (hello_cache c) (relayed_message_ids c)).
Definition forget_handshake (peer : string) : M () :=
  on_client (λ c, mkClient (outbound_hs_ok c) (delete peer (hello_cache c)) (relayed_message_ids c)).
Definition self : M string := ask (λ h, self_id (identity (h_node h))).
Definition chain : M Chain := ask (λ h, n_chain (h_node h)).

(** ** The handshake *)

(** The fields of a HELLO_ACK, checked in the order of the code: the version and the key. *)
Definition check_ack (s : Sessions) (peer hello_version hello_nonce ack : string) : result (string * string) :=
  match read_fields ["|"; "|"; "|"; "|"; "|"; nl]%char (Some ack) with
  | Some [v; nw; ts; nonce; pk; sig] =>
      reject_if negb (proto_supported v) || (proto_of hello_version <? proto_of v) ||
                negb (String.eqb nw (active_network_id cfg)) || negb (String.eqb nonce hello_nonce) ||
                is_empty pk || is_empty sig as "HELLO_ACK mismatch" ;;
      reject_if negb (is_reasonable_field_size nonce kMaxNonceLen) ||
                negb (is_reasonable_field_size pk kMaxPubKeyHexLen) ||
                negb (is_reasonable_field_size sig kMaxSigHexLen) as "HELLO_ACK field too large" ;;
      reject_if from_option (λ pin, negb (String.eqb pin pk)) false (pinned_peer_pubkeys s !! peer)
        as "peer pubkey pin mismatch" ;;
      reject_if negb (verify_message_signature_hybrid_uncached pk
                  (v +:+ "|" +:+ active_network_id cfg +:+ "|" +:+ ts +:+ "|" +:+ nonce +:+ "|" +:+ pk) sig)
        as "invalid HELLO_ACK signature" ;;
      Ok (v, pk)
  | _ => Err "invalid HELLO_ACK fields"
  end.
Definition remember_ack (peer v pk : string) (now : Z) (n : Node R W) : Node R W :=
  let s := sessions n in
  let n := set_sessions (set_session_keys (seen_nonces s) (<[peer := pk]> (peer_pubkeys s))
             (emplace peer pk (pinned_peer_pubkeys s)) s) n in
  let n := update_table (λ p, readmit_authenticated now p peer) n in
  set_sessions (set_proto (<[peer := proto_of v]> (peer_proto_ (sessions n))) (sessions n)) n.

(** The variables of the loop over attempts. *)
Record Attempts := mkAttempts { a_version : string; a_downgraded : bool; a_fails : nat; a_error : string }.
Definition with_error (e : string) (a : Attempts) : Attempts := mkAttempts (a_version a) (a_downgraded a) (a_fails a) e.

Definition hello_nonce (k : nat) (now : Z) : string :=
  "s" +:+ to_string (Z.of_nat k) +:+ "-" +:+ to_string (now mod 1000000).
Definition attempt_id (self : string) (k : nat) : string :=
  match k with O => self | _ => self +:+ "x" +:+ to_string (Z.of_nat k) end.
Definition is_onion_endpoint (peer : string) : bool :=
  match split_host_port peer with Some (host, _) => is_onion_v3_host host | None => false end.

(** No answer to the HELLO. *)
Definition hello_unanswered (peer : string) (a : Attempts) : M (result string + Attempts) :=
  let e := "HELLO transport failed to " +:+ peer +:+ " (paced WAN write/read of ML-DSA HELLO failed)" in
  let fails := S (a_fails a) in
  let onion := is_onion_endpoint peer in
  if ((if onion then kOnionHelloTransportRetries else 2) <=? fails)%nat then mret (inl (Err e))
  else
    let a := inr (mkAttempts (a_version a) (a_downgraded a) fails e) in
    if onion then _ ← backoff; mret a else mret a.
(** Another answer than an acknowledgement. *)
Definition hello_refused (peer id resp : string) (a : Attempts) : M (result string + Attempts) :=
  if persist_leftover_reply resp then
    _ ← set_hs peer true;
    work ← send_p2p_request peer (id +:+ " REQWORK|");
    if from_option (starts_with "ok:HAVEWORK|") false work then mret (inl (Ok id))
    else
      _ ← set_hs peer false;
      mret (inr (with_error ("persist leftover reply without HAVEWORK: " +:+ resp) a))
  else if persist_truncated_hello resp then mret (inr (with_error "HELLO rejected as invalid or bad signature" a))
  else if String.eqb resp "error: unknown peer" || starts_with "error: peer banned" resp
  then mret (inr (with_error "seed rejected peer id (persist banned self)" a))
  else
    let e := "expected HELLO_ACK, got: " +:+ resp in
    if starts_with "error: handshake mismatch" resp && negb (a_downgraded a) then
      let v := if String.eqb (a_version a) "4" then "3" else kProtoVersionLegacy in
      mret (inr (mkAttempts v (String.eqb v kProtoVersionLegacy) (a_fails a) e))
    else if existsb (λ p, starts_with p resp)
              ["error: hello timestamp"; "error: handshake mismatch"; "error: peer pubkey pin"; "error: missing hello"]
    then mret (inl (Err e))
    else mret (inr (with_error e a)).
Definition hello_attempt (peer : string) (k : nat) (a : Attempts) : M (result string + Attempts) :=
  h ← host;
  let i := identity (h_node h) in
  let nonce := hello_nonce k (h_now h) in
  let body := a_version a +:+ "|" +:+ active_network_id cfg +:+ "|" +:+ to_string (h_now h) +:+ "|" +:+ nonce +:+
              "|" +:+ node_public_key i in
  match sign_message_hybrid (node_private_key i) body with
  | None => mret (inl (Err "hello signing failed"))
  | Some sig =>
      let id := attempt_id (self_id i) k in
      resp ← send_p2p_request peer (id +:+ " HELLO|" +:+ body +:+ "|" +:+ sig);
      match resp with
      | None => hello_unanswered peer a
      | Some resp =>
          if starts_with "ok:HELLO_ACK|" resp then
            s ← ask (λ h, sessions (h_node h));
            match check_ack s peer (a_version a) nonce (str_drop 13 resp) with
            | Err e => mret (inl (Err e))
            | Ok (v, pk) =>
                _ ← on_node (remember_ack peer v pk);
                _ ← set_hs peer true;
                mret (inl (Ok id))
            end
          else hello_refused peer id resp a
      end
  end.
Fixpoint hello_loop (peer : string) (tries : nat) (k : nat) (a : Attempts) : M (result string) :=
  stop ← ask h_stop;
  match tries with
  | S tries =>
      if stop : bool then mret (Err (if is_empty (a_error a) then "handshake failed" else a_error a))
      else
        x ← hello_attempt peer k a;
        match x with
        | inl r => mret r
        | inr a => hello_loop peer tries (S k) a
        end
  | O => mret (Err (if is_empty (a_error a) then "handshake failed" else a_error a))
  end.
Definition handshake_with_peer_uncached (peer : string) : M (result string) :=
  _ ← set_hs peer false;
  hello_loop peer 8 0 (mkAttempts kProtoVersion false 0 "").
Definition handshake_with_peer (peer : string) : M (result string) :=
  h ← host;
  let c := h_client h in
  let fresh :=
    match hello_cache c !! peer with
    | Some (id, t) => if default false (outbound_hs_ok c !! peer) && (h_now h <? u64 (t + kHelloCacheSeconds)) then Some id else None
    | None => None
    end in
  match fresh with
  | Some id => mret (Ok id)
  | None =>
      _ ← forget_handshake peer;
      r ← handshake_with_peer_uncached peer;
      match r with
      | Err e => mret (Err e)
      | Ok id =>
          h ← host;
          let id' := if is_empty id then self_id (identity (h_node h)) else id in
          _ ← on_client (λ c, mkClient (outbound_hs_ok c) (<[peer := (id', h_now h)]> (hello_cache c)) (relayed_message_ids c));
          mret (Ok id)
      end
  end.
(** [if (wire_id.empty()) wire_id = self_id_;] *)
Definition or_self (id : string) : M string := s ← self; mret (if is_empty id then s else id).

(** ** Blocks *)

Definition has_block_hash (c : Chain) (hash : string) : bool := bool_decide (is_Some (block_by_hash c hash)).
(** The items of an inventory that are below the own tip and another block. *)
Definition reorg_needed (c : Chain) (inv : list (Z * string)) : bool :=
  existsb (λ x, if x.1 <=? height_of c
                then from_option (λ b : Block, negb (String.eqb (hash_block_header (header b)) x.2)) false (block_at c x.1)
                else false) inv.
Definition missing (c : Chain) (inv : list (Z * string)) : list (Z * string) :=
  filter (λ x, (x.1 <=? height_of c) || has_block_hash c x.2 = false) inv.
Definition blkdata (resp : string) : option string :=
  if starts_with "ok:BLKDATA|" resp then Some (str_drop 11 resp) else None.
(** The replies of the pipeline, in order; [Some]: the download ends here. *)
Fixpoint ingest_replies (peer : string) (l : list (Z * string)) (any : bool) : M (option (bool * string) * bool) :=
  match l with
  | [] => mret (None, any)
  | (h, resp) :: l =>
      c ← chain;
      if h <=? height_of c then ingest_replies peer l any
      else
        match blkdata resp with
        | None =>
            _ ← mark_bad peer;
            mret (Some (any, "REQBLK rejected at height " +:+ to_string h +:+ ": " +:+ resp), any)
        | Some payload =>
            n ← ask h_node;
            now ← ask h_now;
            let '(n, r) := ingest_block_payload cfg now n payload in
            _ ← on_node (λ _ _, n);
            match r with
            | Ok _ => _ ← mark_good peer; ingest_replies peer l true
            | Err e =>
                if h <=? height_of (n_chain n) then ingest_replies peer l any
                else _ ← mark_bad peer; mret (Some (any, e), any)
            end
        end
  end.
Definition fetch_missing (peer id : string) (wanted : list Z) : M (bool * string) :=
  if bool_decide (wanted = []) then mret (true, "")
  else
    resps ← send_p2p_pipeline peer ((λ h, id +:+ " REQBLK|" +:+ to_string h) <$> wanted);
    '(stopped, any) ← ingest_replies peer (zip wanted resps) false;
    match stopped with
    | Some x => mret x
    | None =>
        if (length resps <? length wanted)%nat then
          _ ← mark_unreachable peer;
          _ ← forget_handshake peer;
          mret (any, "REQBLK transport failed at height " +:+ to_string (nth (length resps) wanted 0))
        else mret (true, "")
    end.

(** A whole chain, block by block. Every round takes a turn or ends the loop. *)
Fixpoint fetch_candidate (fuel : nat) (peer id : string) (h remote_h : Z) (acc : list Block) : M (result (list Block)) :=
  match fuel with
  | O => throw
  | S fuel =>
      if remote_h <? h then mret (Ok acc)
      else
        resp ← send_p2p_request peer (id +:+ " REQBLK|" +:+ to_string h);
        match resp with
        | None =>
            _ ← mark_unreachable peer; mret (Err ("REQBLK transport failed at height " +:+ to_string h))
        | Some resp =>
            match blkdata resp with
            | None => _ ← mark_bad peer; mret (Err ("REQBLK rejected at height " +:+ to_string h +:+ ": " +:+ resp))
            | Some payload =>
                match decode_block_payload payload with
                | Err e => _ ← mark_bad peer; mret (Err e)
                | Ok b => fetch_candidate fuel peer id (u64 (h + 1)) remote_h (acc ++ [b])
                end
            end
        end
  end.
Definition adopt_candidate (bs : list Block) (c : Chain) (n : Node R W) : Node R W :=
  let l := ledger n in
  set_ledger (mkLedger c (l_mempool l) (l_consensus l)
    (foldl (λ X b, foldl (λ X tx, {[hash_transaction tx]} ∪ X) X (transactions b)) (seen_txids l) bs)
    (foldl (λ X b, {[hash_block_header (header b)]} ∪ X) (seen_block_hashes l) bs) (outbound l)) n.
Definition set_n_chain (c : Chain) (n : Node R W) : Node R W :=
  let l := ledger n in
  set_ledger (mkLedger c (l_mempool l) (l_consensus l) (seen_txids l) (seen_block_hashes l) (outbound l)) n.
Definition fetch_reorg (peer id : string) : M (bool * string) :=
  resp ← send_p2p_request peer (id +:+ " REQH|");
  match resp ≫= (λ r, if starts_with "ok:HAVEH|" r then Some (str_drop 9 r) else None) with
  | None => _ ← mark_unreachable peer; mret (false, "REQH failed during reorg")
  | Some t =>
      match number t with
      | None => _ ← mark_bad peer; mret (false, "invalid remote height during reorg")
      | Some remote_h =>
          if negb (can_reserve (u64 (remote_h + 1))) then throw
          else
            turns ← ask (λ h, length (h_net h));
            r ← fetch_candidate (2 + turns) peer id 0 remote_h [];
            match r with
            | Err e => mret (false, e)
            | Ok [] => _ ← mark_bad peer; mret (false, "empty candidate chain")
            | Ok bs =>
                now ← ask h_now;
                c ← chain;
                match replace_with_chain cfg now c bs with
                | (c, Err e) => _ ← on_node (λ _, set_n_chain c); _ ← mark_bad peer; mret (false, e)
                | (c, Ok _) => _ ← on_node (λ _, adopt_candidate bs c); _ ← mark_good peer; mret (true, "")
                end
            end
      end
  end.
(** The error next to [true] is what the caller ignores. *)
Definition fetch_blocks_from_peer (peer wire_id : string) : M (bool * string) :=
  id ← or_self wire_id;
  c ← chain;
  let start := if 0 <? height_of c then height_of c - 1 else 0 in
  resp ← send_p2p_request peer (id +:+ " REQINV|" +:+ to_string start +:+ "|24");
  match resp with
  | None => _ ← mark_unreachable peer; mret (false, "REQINV transport failed")
  | Some resp =>
      if negb (starts_with "ok:INV|" resp) then _ ← mark_bad peer; mret (false, "REQINV rejected: " +:+ resp)
      else
        let inv := parse_inventory (str_drop 7 resp) in
        c ← chain;
        if reorg_needed c inv then fetch_reorg peer id
        else fetch_missing peer id (missing c inv).*1
  end.

(** ** Synchronisation *)

Definition relay_rotation_messages_to_peer (peer : string) : M (result ()) :=
  s ← self;
  pending ← ask (λ h, outbound (ledger (h_node h)));
  let fix go (ms : list string) : M (result ()) :=
    match ms with
    | [] => mret (Ok ())
    | m :: ms =>
        if negb (starts_with "IDROTATE|" m || starts_with "IDVOTE|" m) then go ms
        else
          let i := to_hex (sha3_512_bytes m) in
          c ← ask h_client;
          if bool_decide (i ∈ default ∅ (relayed_message_ids c !! peer)) then go ms
          else
            _ ← on_client (λ c, mkClient (outbound_hs_ok c) (hello_cache c)
                  (<[peer := {[i]} ∪ default ∅ (relayed_message_ids c !! peer)]> (relayed_message_ids c)));
            resp ← send_p2p_request peer (s +:+ " " +:+ m);
            match resp with
            | None => mret (Err "relay transport failed")
            | Some resp => if starts_with "ok" resp then go ms else mret (Err "relay rejected")
            end
    end in
  go pending.
Definition learn_peers_from (peer wire_id : string) : M () :=
  id ← or_self wire_id;
  resp ← send_p2p_request peer (id +:+ " REQADDR|");
  match resp with
  | None => mret ()
  | Some resp =>
      if negb (starts_with "ok:ADDR|" resp) then mret ()
      else
        on_node (λ now n,
          foldl (λ n item,
            if is_empty item || negb (is_external_advertised_peer item) || String.eqb item (advertised_p2p n) ||
               has_peer (s_peers (sessions n)) item then n
            else update_table (λ p, (add_candidate now p item).1) n)
          n (getlines "," (Some (str_drop 8 resp))))
  end.
Definition advertise_to (peer wire_id : string) : M () :=
  adv ← ask (λ h, advertised_p2p (h_node h));
  if negb (is_empty adv) && is_peer_endpoint peer
  then _ ← send_p2p_request peer (wire_id +:+ " ADVERTISE|" +:+ adv); mret ()
  else mret ().
Fixpoint try_candidates (cands : list string) : M () :=
  match cands with
  | [] => mret ()
  | cand :: cands =>
      r ← handshake_with_peer cand;
      _ ← on_node (λ now, update_table (λ p,
            if is_ok r then (promote_candidate now p cand).1 else (remove_candidate p cand).1));
      try_candidates cands
  end.

(** What a synchronisation has seen so far. *)
Record Seen := mkSeen { saw_longer : bool; any_handshake : bool; max_remote_h : Z; last_error : string }.
Definition note_error (e : string) (s : Seen) : Seen := mkSeen (saw_longer s) (any_handshake s) (max_remote_h s) e.
Definition note_height (h : Z) (s : Seen) : Seen :=
  mkSeen (saw_longer s) (any_handshake s) (if max_remote_h s <? h then h else max_remote_h s) (last_error s).

Definition have (tag resp : string) : option string :=
  if starts_with tag resp then Some (str_drop (String.length tag) resp) else None.
(** [while (chain_.height() < remote_h && ...)]: each round takes a turn or is the last. *)
Fixpoint download (fuel : nat) (peer wire_id : string) (remote_h : Z) (idle : nat) (s : Seen) : M Seen :=
  match fuel with
  | O => throw
  | S fuel =>
      c ← chain;
      stop ← ask h_stop;
      if (remote_h <=? height_of c) || stop then mret s
      else
        let before := height_of c in
        '(fine, e) ← fetch_blocks_from_peer peer wire_id;
        if negb fine then mret (note_error (if is_empty e then "block fetch failed" else e) s)
        else
          resp ← send_p2p_request peer (wire_id +:+ " REQH|");
          let '(remote_h, s) :=
            match (resp ≫= have "ok:HAVEH|") ≫= number with
            | Some h => (h, note_height h s)
            | None => (remote_h, s)
            end in
          c ← chain;
          if height_of c =? before then
            if (2 <=? S idle)%nat then
              mret (note_error ("sync stalled at height " +:+ to_string before +:+ " peer_height=" +:+ to_string remote_h) s)
            else download fuel peer wire_id remote_h (S idle) s
          else download fuel peer wire_id remote_h 0 s
  end.
(** The work a peer claims; a handshake the peer has forgotten is made again. *)
Definition ask_work (peer wire_id : string) : M (string * option string) :=
  resp ← send_p2p_request peer (wire_id +:+ " REQWORK|");
  match resp with
  | None => mret (wire_id, None)
  | Some resp =>
      if contains "handshake required" resp then
        _ ← forget_handshake peer;
        r ← handshake_with_peer peer;
        match r with
        | Ok id =>
            id ← or_self id;
            resp ← send_p2p_request peer (id +:+ " REQWORK|");
            mret (id, Some (default "" resp))
        | Err _ => mret (wire_id, Some resp)
        end
      else mret (wire_id, Some resp)
  end.
Definition sync_connected (peer wire_id : string) (s : Seen) : M Seen :=
  _ ← learn_peers_from peer wire_id;
  _ ← advertise_to peer wire_id;
  relayed ← relay_rotation_messages_to_peer peer;
  match relayed with
  | Err e => _ ← mark_bad peer; mret (note_error e s)
  | Ok _ =>
      '(wire_id, work) ← ask_work peer wire_id;
      match work with
      | None => _ ← mark_unreachable peer; mret (note_error "REQWORK transport failed" s)
      | Some work =>
          match have "ok:HAVEWORK|" work with
          | None => _ ← mark_bad peer; mret (note_error ("REQWORK rejected: " +:+ work) s)
          | Some t =>
              match number t with
              | None => _ ← mark_bad peer; mret (note_error "invalid HAVEWORK" s)
              | Some work =>
                  c ← chain;
                  if work <=? cumulative_work c then _ ← mark_good peer; mret s
                  else
                    resp ← send_p2p_request peer (wire_id +:+ " REQH|");
                    match resp with
                    | None => _ ← mark_unreachable peer; mret (note_error "REQH transport failed" s)
                    | Some resp =>
                        match have "ok:HAVEH|" resp with
                        | None => _ ← mark_bad peer; mret (note_error ("REQH rejected: " +:+ resp) s)
                        | Some t =>
                            match number t with
                            | None => _ ← mark_bad peer; mret (note_error "invalid HAVEH" s)
                            | Some remote_h =>
                                c ← chain;
                                if remote_h <=? height_of c then _ ← mark_good peer; mret s
                                else
                                  let s := mkSeen true (any_handshake s) (max_remote_h (note_height remote_h s)) (last_error s) in
                                  turns ← ask (λ h, length (h_net h));
                                  download (2 + turns) peer wire_id remote_h 0 s
                            end
                        end
                    end
              end
          end
      end
  end.
Definition skipped (now : Z) (n : Node R W) (peer : string) : bool :=
  is_banned now (s_peers (sessions n)) peer ||
  (negb (is_empty (advertised_p2p n)) && String.eqb peer (advertised_p2p n)) || negb (is_peer_endpoint peer).
Definition sync_peer (peer : string) (s : Seen) : M Seen :=
  h ← host;
  if skipped (h_now h) (h_node h) peer then mret s
  else
    r ← handshake_with_peer peer;
    match r with
    | Err e => _ ← set_hs peer false; mret (note_error ((if is_empty e then "handshake failed" else e) +:+ "; p2p only") s)
    | Ok id => id ← or_self id; sync_connected peer id (mkSeen (saw_longer s) true (max_remote_h s) (last_error s))
    end.
Fixpoint sync_peers (peers : list string) (s : Seen) : M (option Seen) :=
  match peers with
  | [] => mret (Some s)
  | peer :: peers =>
      stop ← ask h_stop;
      if stop : bool then mret None else s ← sync_peer peer s; sync_peers peers s
  end.
Definition sync_once_impl : M (result ()) :=
  h ← host;
  _ ← try_candidates (take 2 (candidates (s_peers (sessions (h_node h)))));
  h ← host;
  let peers := select_peers (h_now h) 0 (s_peers (sessions (h_node h))) in
  if bool_decide (peers = []) then mret (Err "no peer")
  else
    x ← sync_peers peers (mkSeen false false (height_of (n_chain (h_node h))) "");
    match x with
    | None => mret (Err "shutting down")
    | Some s =>
        c ← chain;
        if negb (any_handshake s) then mret (Err (if is_empty (last_error s) then "handshake failed" else last_error s))
        else if saw_longer s && (height_of c <? max_remote_h s) then
          mret (Err (if is_empty (last_error s)
                     then "peer has a longer chain; local_height=" +:+ to_string (height_of c) +:+ " peer_height=" +:+
                          to_string (max_remote_h s)
                     else last_error s))
        else mret (Ok ())
    end.
Definition sync_once : M (result ()) :=
  r ← sync_once_impl;
  _ ← on_node (λ _ n, node_event cfg dp n RefreshVotes);
  mret r.
End client.
