(* ===== verification/NodeGossip.v ===== *)
(** * What the node pushes to its peers ([src/decentralized_node.cpp]: stems, gossip, private
    messages, requests for other components)

    The computations of [NodeSync] on the same host. [peers()] is visited in some order. *)
From S2P Require Import Prelude ConsensusRules Strings Lines Crypto Types Wire Block Staking Shielded Script.
From S2P Require Import Chain ChainBlock Mempool Mining Wallet Votes Dandelion Peers NodeCodec Node NodeInbound NodeSync.

Section gossip.
Context {C : Crypto} {ST : Stark} {MO : MempoolOrder} {IO : IterationOrder} {I : Inet} {SG : Signer} {HP : Heap}.
Context (cfg : ChainConfig) (dp : Params) {R W : Type} {PR : PmRelay R} {PQ : PmQueue R} {CH : ChanHandler W}.
Notation M := (M R W).
Notation Host := (Host R W).
Notation handshake_with_peer := (handshake_with_peer cfg dp).
Notation send_p2p_request := (send_p2p_request cfg dp).

(** A request of another component, such as the channels between nodes. *)
Definition request_peer (endpoint m : string) : M (result string) :=
  if negb (is_peer_endpoint endpoint) then mret (Err "invalid peer endpoint")
  else
    _ ← on_node (λ now, update_table (λ p, if has_peer p endpoint then p else (add_peer now p endpoint).1));
    r ← handshake_with_peer endpoint;
    match r with
    | Err e => mret (Err (if is_empty e then "handshake failed" else e))
    | Ok id =>
        id ← or_self id;
        resp ← send_p2p_request endpoint (id +:+ " " +:+ m);
        match resp with
        | None => mret (Err "peer unreachable")
        | Some resp =>
            if starts_with "ok:" resp then mret (Ok (str_drop 3 resp))
            else mret (Err (if is_empty resp then "empty peer response" else resp))
        end
    end.

(** ** Stems *)

Definition fluff_locally (tx : Transaction) (n : Node R W) : Node R W :=
  set_ledger (fluff_transaction cfg (ledger n) tx).1 n.
(** Embargoes that have ended: the transaction is fluffed here. *)
Definition fluff_expired (now : Z) (n : Node R W) : Node R W :=
  let '(r, due) := expired_embargoes now (router (stem n)) in
  foldl (λ n txid,
    match stempool (stem n) !! txid with
    | None => n
    | Some tx =>
        let d := stem n in
        fluff_locally tx (set_stem (mkStemPool (dandelion d) (router d) (delete txid (stempool d)) (stem_outbound d)) n)
    end) (set_stem (set_router r (stem n)) n) due.
Definition take_stems (n : Node R W) : Node R W :=
  let d := stem n in set_stem (mkStemPool (dandelion d) (router d) (stempool d) []) n.
(** A stem that its relay did not take is fluffed. *)
Definition fall_back (m : string) (n : Node R W) : Node R W :=
  match decode_tx_payload (str_drop 5 m) with
  | Err _ => n
  | Ok tx => fluff_locally tx (set_stem (unstem (hash_transaction tx) (stem n)) n)
  end.
Definition send_stem (relay m : string) : M bool :=
  r ← handshake_with_peer relay;
  match r with
  | Err _ => mret false
  | Ok id =>
      id ← or_self id;
      s ← ask (λ h, sessions (h_node h));
      let adapted := adapt_for_peer m (peer_proto s relay) in
      if is_empty adapted then mret false
      else
        resp ← send_p2p_request relay (id +:+ " " +:+ adapted);
        mret (from_option (λ resp, negb (starts_with "error:" resp)) false resp)
  end.
Fixpoint send_stems (queue : list (string * string)) (sent : Z) : M Z :=
  match queue with
  | [] => mret sent
  | (relay, m) :: queue =>
      fine ← send_stem relay m;
      if fine : bool then _ ← mark_good relay; send_stems queue (sent + 1)
      else _ ← mark_unreachable relay; _ ← on_node (λ _, fall_back m); send_stems queue sent
  end.
Definition flush_stem : M Z :=
  _ ← on_node fluff_expired;
  queue ← ask (λ h, stem_outbound (stem (h_node h)));
  _ ← on_node (λ _, take_stems);
  send_stems queue 0.

(** ** Private messages *)

Fixpoint push_lines (peer id : string) (ls : list string) (sent : Z) : M Z :=
  match ls with
  | [] => mret sent
  | l :: ls =>
      resp ← send_p2p_request peer (id +:+ " " +:+ l);
      if from_option (contains "PMOK|") false resp then
        _ ← on_node (λ _ n, set_relay ((λ r, mark_delivered r peer l) <$> pm_relay n) n);
        push_lines peer id ls (sent + 1)
      else
        stop ← ask h_stop;
        if from_option (contains "rate limit") false resp || stop then mret sent else push_lines peer id ls sent
  end.
Definition relay_to (peer : string) (sent : Z) : M Z :=
  h ← host;
  if skipped (h_now h) (h_node h) peer then mret sent
  else
    match pm_relay (h_node h) with
    | None => mret sent
    | Some r =>
        let '(r, ls) := undelivered_for (h_now h) r peer in
        _ ← on_node (λ _, set_relay (Some r));
        if bool_decide (ls = []) then mret sent
        else
          x ← handshake_with_peer peer;
          match x with
          | Err _ => mret sent
          | Ok id => id ← or_self id; push_lines peer id ls sent
          end
    end.
Fixpoint relay_to_all (peers : list string) (sent : Z) : M Z :=
  match peers with
  | [] => mret sent
  | peer :: peers =>
      h ← host;
      if h_stop h then mret sent else sent ← relay_to peer sent; relay_to_all peers sent
  end.
Definition relay_private_messages : M Z :=
  h ← host;
  if bool_decide (pm_relay (h_node h) = None) then mret 0
  else relay_to_all (iter_set (peers_ (s_peers (sessions (h_node h))))) 0.

(** ** Gossip *)

(** At most 32 pending transactions that are not in the stem phase are sent again. *)
Fixpoint rebroadcast (left : nat) (stems : gmap string Transaction) (txs : list Transaction) (ms : list string) : list string :=
  match txs, left with
  | [], _ | _, O => ms
  | tx :: txs, S left' =>
      let m := encode_tx_gossip tx in
      if bool_decide (is_Some (stems !! hash_transaction tx)) || bool_decide (m ∈ ms) then rebroadcast left stems txs ms
      else rebroadcast left' stems txs (ms ++ [m])
  end.
Record Pushed := mkPushed { p_sent : Z; p_any : bool; p_last : string }.
Fixpoint push_messages (peer id : string) (ms : list string) (x : Pushed) : M Pushed :=
  match ms with
  | [] => mret x
  | m :: ms =>
      s ← ask (λ h, sessions (h_node h));
      let adapted := adapt_for_peer m (peer_proto s peer) in
      if is_empty adapted then push_messages peer id ms x
      else
        resp ← send_p2p_request peer (id +:+ " " +:+ adapted);
        match resp with
        | None =>
            _ ← mark_unreachable peer;
            _ ← forget_handshake peer;
            mret (mkPushed (p_sent x) (p_any x) ("gossip transport failed to " +:+ peer))
        | Some resp =>
            _ ← (if contains "handshake required" resp then forget_handshake peer else mret ());
            if starts_with "error:" resp then
              _ ← (if negb (contains "duplicate" resp) && negb (contains "handshake" resp) then mark_good peer else mret ());
              push_messages peer id ms (mkPushed (p_sent x) (p_any x) ("gossip rejected by " +:+ peer +:+ ": " +:+ resp))
            else
              _ ← mark_good peer;
              push_messages peer id ms (mkPushed (p_sent x + 1) true (p_last x))
        end
  end.
Fixpoint push_to_all (peers : list string) (ms : list string) (x : Pushed) : M Pushed :=
  match peers with
  | [] => mret x
  | peer :: peers =>
      h ← host;
      if skipped (h_now h) (h_node h) peer then push_to_all peers ms x
      else
        r ← handshake_with_peer peer;
        match r with
        | Err e =>
            push_to_all peers ms (mkPushed (p_sent x) (p_any x) (if is_empty e then "gossip handshake failed to " +:+ peer else e))
        | Ok id => id ← or_self id; x ← push_messages peer id ms x; push_to_all peers ms x
        end
  end.
(** The number of messages taken, and the note about a round that nobody took. *)
Definition flush_outbound_gossip : M (Z * string) :=
  relayed ← relay_private_messages;
  stems ← flush_stem;
  out ← ask (λ h, outbound (ledger (h_node h)));
  _ ← on_node (λ _, update_ledger (λ l, (pull_outbound_messages l).1));
  h ← host;
  let n := h_node h in
  let ms := rebroadcast 32 (stempool (stem n)) (snapshot (l_mempool (ledger n))) out in
  let pushable := filter (λ m, is_push_gossip_message m = true) ms in
  let sent := relayed + stems in
  if bool_decide (pushable = []) then mret (sent, "")
  else
    x ← push_to_all (iter_set (peers_ (s_peers (sessions n)))) pushable (mkPushed sent false "");
    h ← host;
    mret (p_sent x,
          if negb (p_any x) && negb (bool_decide (peers_ (s_peers (sessions (h_node h))) = ∅)) && (p_sent x =? 0)
          then (if is_empty (p_last x) then "gossip flush: no peer accepted push" else p_last x) else "").
End gossip.
