(* ===== verification/NodeProofs.v ===== *)
(** * The node under any inbound traffic

    What holds of the node's state whatever lines arrive, from whomever, in whatever
    order: the invariant [node_ok], and what a peer without a handshake cannot do. *)
From S2P Require Import Prelude ConsensusRules Strings Lines Crypto Types Wire Block Staking Shielded Script.
From S2P Require Import Chain ChainBlock ChainProofs Mempool Mining Votes Dandelion Peers PeersProofs NodeCodec.
From S2P Require Import NodeCodecProofs Node NodeInbound.

Section invariant.
Context {C : Crypto} {ST : Stark} {MO : MempoolOrder} {I : Inet} {S : Signer} (cfg : ChainConfig) (dp : Params).
Context {R W : Type} {PR : PmRelay R} {CH : ChanHandler W}.
Implicit Type n : Node R W.

(** ** The invariant *)

(** Two valid votes of one ticket at one height that contradict each other. *)
Definition real_evidence (ev : SlashEvidence) : Prop :=
  ticket_id (ev_a ev) = ticket_id (ev_b ev) ∧ voted_height (ev_a ev) = voted_height (ev_b ev) ∧
  (voted_hash (ev_a ev), approve (ev_a ev)) ≠ (voted_hash (ev_b ev), approve (ev_b ev)) ∧
  ∃ t, vote_signature_ok cfg t (ev_a ev) = true ∧ vote_signature_ok cfg t (ev_b ev) = true.
Record voting_ok (vt : Voting) : Prop := {
  evidence_real : Forall real_evidence (pending_slashes vt);
  evidence_marked : ∀ ev, ev ∈ pending_slashes vt → ticket_id (ev_a ev) ∈ slash_reported vt;
  watch_keys : ∀ k v, vote_watch vt !! k = Some v → k = watch_key v;
}.
Definition bucket_ok (b : RateBucket) : Prop :=
  (length (generic_hits b) ≤ kGenericMax)%nat ∧ (length (expensive_hits b) ≤ kExpensiveMax)%nat.
Record sessions_ok (s : Sessions) : Prop := {
  sessions_table : table_ok (s_peers s);
  sessions_rates : ∀ p b, rate_limits s !! p = Some b → bucket_ok b;
  sessions_nonces : ∀ p X, seen_nonces s !! p = Some X → (size X ≤ Z.to_nat 4096)%nat;
}.
(** A transaction in the stem pool has an embargo running, and no other has one. *)
Definition stem_ok (d : StemPool) : Prop := dom (stempool d) = dom (embargo_until (router d)).
Record node_ok n : Prop := {
  ok_chain : reachable cfg (n_chain n);
  ok_sessions : sessions_ok (sessions n);
  ok_voting : voting_ok (voting n);
  ok_stem : stem_ok (stem n);
}.

(** A change that keeps the invariant and touches the sessions in the peer table only. *)
Definition table_only (s s' : Sessions) : Prop := ∃ p, s' = set_table p s.
Definition steps n n' : Prop := (node_ok n → node_ok n') ∧ table_only (sessions n) (sessions n').

#[export] Instance table_only_preorder : PreOrder table_only.
Proof.
  split; [intros s; exists (s_peers s); by destruct s|]. intros s1 s2 s3 [p ->] [q ->]. by exists q.
Qed.
#[export] Instance steps_preorder : PreOrder steps.
Proof. split; [intros n; split; [done|reflexivity]|]. intros n1 n2 n3 [H1 T1] [H2 T2]. split; [tauto|by etrans]. Qed.

(** ** Primitive changes *)

Lemma table_op o n : steps n (update_table (λ p, peer_step p o) n).
Proof.
  split; [|by eexists]. intros [Hc [Ht Hr Hn] Hv Hs]. split; [done| |done|done]. split; [|done..].
  by apply peer_step_ok.
Qed.
Lemma good_steps peer n : steps n (good peer n).
Proof. apply (table_op (MarkGood peer)). Qed.
Lemma bad_steps now peer n : steps n (bad now peer n).
Proof. apply (table_op (MarkBad now peer)). Qed.

Lemma ledger_steps l n : (reachable cfg (n_chain n) → reachable cfg (l_chain l)) → steps n (set_ledger l n).
Proof. intros Hl. split; [|exact (reflexivity (sessions n))]. intros []. split; try done. by apply Hl. Qed.
Lemma emit_steps ms n : steps n (emit ms n).
Proof. by apply ledger_steps. Qed.
Lemma voting_steps vt n : (voting_ok (voting n) → voting_ok vt) → steps n (set_voting vt n).
Proof. intros Hv. split; [|exact (reflexivity (sessions n))]. intros []. split; try done. by apply Hv. Qed.
Lemma stem_steps d n : (stem_ok (stem n) → stem_ok d) → steps n (set_stem d n).
Proof. intros Hd. split; [|exact (reflexivity (sessions n))]. intros []. split; try done. by apply Hd. Qed.
Lemma identity_steps i n : steps n (set_identity i n).
Proof. split; [|exact (reflexivity (sessions n))]. intros []. by split. Qed.
Lemma relay_steps r n : steps n (set_relay r n).
Proof. split; [|exact (reflexivity (sessions n))]. intros []. by split. Qed.
Lemma channels_steps w n : steps n (set_channels w n).
Proof. split; [|exact (reflexivity (sessions n))]. intros []. by split. Qed.

Lemma reject_steps now peer e n : steps n (reject now peer e n).1.
Proof. apply bad_steps. Qed.
Lemma accept_steps peer reply n : steps n (accept peer reply n).1.
Proof. apply good_steps. Qed.
Lemma judge_steps now peer n (x : Node R W * result ()) : steps n x.1 → steps n (judge now peer x).1.
Proof. destruct x as [n1 [[]|e]]; cbn [fst judge]; intros H; (etrans; [exact H|]); [apply accept_steps|apply reject_steps]. Qed.

(** ** Votes *)

Lemma validate_slash_real c ev : validate_slash cfg c ev = Ok () → real_evidence ev.
Proof.
  unfold validate_slash. intros H. peel H. destruct (tickets c !! _) as [t|]; [|done]. peel H.
  bools. match goal with Hs : String.eqb (ticket_id _) _ = true |- _ => apply String.eqb_eq in Hs end. split_and!; [done|done| |by eexists].
  intros [= Eh Ea]. rewrite Eh, Ea, String.eqb_refl, eqb_reflx in G0. done.
Qed.
Lemma observe_vote_ok c vt v : voting_ok vt → voting_ok (observe_vote_for_equivocation cfg c vt v).1.1.
Proof.
  intros [He Hm Hk]. unfold observe_vote_for_equivocation. destruct (negb _); [done|].
  destruct (vote_watch vt !! watch_key v) as [first|] eqn:E.
  - destruct (_ && _) eqn:Eq; [done|]. case_bool_decide as Hr; [done|].
    destruct (negb (is_ok (validate_slash cfg c (mkSlashEvidence first v)))) eqn:Ev; [done|].
    destruct (validate_slash cfg c _) as [[]|] eqn:Ev'; [|done]. apply validate_slash_real in Ev'.
    split; cbn [fst pending_slashes slash_reported vote_watch]; [| |done].
    { apply Forall_app. split; [done|]. by apply Forall_singleton. }
    intros ev [Hev|Hev]%elem_of_app; apply elem_of_union; [right; by apply Hm|left].
    apply list_elem_of_singleton in Hev as ->. apply elem_of_singleton. by destruct Ev' as (-> & _).
  - split; cbn [fst pending_slashes slash_reported vote_watch]; [done..|].
    intros k w. destruct (decide (k = watch_key v)) as [->|Hne].
    + rewrite lookup_insert_eq. by intros [= ->].
    + rewrite lookup_insert_ne by done. destruct (_ <? _)%nat; [by rewrite lookup_empty|apply Hk].
Qed.
Lemma observe_votes_ok c vt vs : voting_ok vt → voting_ok (observe_votes cfg c vt vs).1.
Proof.
  unfold observe_votes. generalize (@nil string). revert vt.
  induction vs as [|v vs IH]; intros vt ms Hv; cbn [foldl]; [done|]. cbn [fst snd].
  pose proof (observe_vote_ok c vt v Hv) as H. destruct (observe_vote_for_equivocation cfg c vt v) as [[vt' ms'] b].
  by apply IH.
Qed.
Lemma prune_ok c vt : voting_ok vt → voting_ok (prune_vote_pool c vt).
Proof.
  intros [He Hm Hk]. assert (Hf : ∀ ev, ev ∈ pending_slashes (prune_vote_pool c vt) → ev ∈ pending_slashes vt)
    by (by intros ev [_ ?]%list_elem_of_filter).
  split; [|intros ev Hev; by apply Hm, Hf|done]. apply Forall_forall. intros ev Hev.
  by apply (proj1 (Forall_forall _ _) He), Hf.
Qed.
Lemma submit_stake_vote_ok c vt v : voting_ok vt → voting_ok (submit_stake_vote cfg c vt v).1.1.
Proof.
  intros Hv. unfold submit_stake_vote. pose proof (observe_vote_ok c _ v (prune_ok c vt Hv)) as H.
  destruct (observe_vote_for_equivocation _ _ _ _) as [[vt' out] eq]. cbn in H. destruct eq; [done|].
  repeat case_match; try done. destruct H. by split.
Qed.
Lemma auto_vote_ok c acc i : voting_ok acc.1.1 → voting_ok (auto_vote cfg c acc i).1.1.
Proof.
  destruct acc as [[vt out] cast]. cbn [fst]. intros Hv. unfold auto_vote. repeat (case_match; try done);
  match goal with E : submit_stake_vote cfg c vt ?v = _ |- _ =>
    pose proof (submit_stake_vote_ok c vt v Hv) as H'; rewrite E in H'; exact H' end.
Qed.
Lemma refresh_local_votes_ok c vt out : voting_ok vt → voting_ok (refresh_local_votes cfg c vt out).1.1.
Proof.
  intros Hv. unfold refresh_local_votes. destruct (_ || _); [done|].
  assert (H : voting_ok (vt, out, O).1.1) by done. revert H. generalize (vt, out, O).
  induction (selected_tickets_for_next_block cfg c) as [|i l IH]; intros acc H; cbn [foldl]; [done|].
  by apply IH, auto_vote_ok.
Qed.

(** ** Transactions and blocks *)

Lemma fluff_chain l tx : l_chain (fluff_transaction cfg l tx).1 = l_chain l.
Proof. unfold fluff_transaction. repeat (case_match; try done). Qed.
Lemma fluff_steps n l tx r : fluff_transaction cfg (ledger n) tx = (l, r) → steps n (set_ledger l n).
Proof. intros E. apply ledger_steps. pose proof (fluff_chain (ledger n) tx) as H. rewrite E in H. cbn in H. by rewrite H. Qed.

Lemma unstem_ok txid d : stem_ok d → stem_ok (unstem txid d).
Proof. unfold stem_ok. cbn. rewrite !dom_delete_L. by intros ->. Qed.
Lemma route_router_embargoes now d r src out : embargo_until (route dp now d r src out).1 = embargo_until r.
Proof.
  assert (H : embargo_until (maybe_new_epoch dp now d out r) = embargo_until r).
  { unfold maybe_new_epoch. repeat case_match; done. }
  unfold route. repeat (case_match; try done).
Qed.
Lemma stem_transaction_steps now d n tx src : steps n (stem_transaction cfg dp now d n tx src).1.
Proof.
  unfold stem_transaction. destruct (validate_transaction _ _ _ _); [|reflexivity].
  destruct (bool_decide _ || _) eqn:Eseen; [reflexivity|]. bools.
  destruct (route dp now d (router (stem n)) src _) as [r x] eqn:Er.
  pose proof (route_router_embargoes now d (router (stem n)) src (outbound_relay_peers now (s_peers (sessions n)))) as He.
  rewrite Er in He. cbn in He. cbn zeta.
  assert (HN : stempool (stem n) !! hash_transaction tx = None) by (by apply eq_None_not_Some).
  assert (Hf : steps n (let '(l, res) := fluff_transaction cfg (ledger n) tx in
    (set_ledger l (set_stem (set_router (mark_fluffed r (hash_transaction tx)) (stem n)) n), res)).1).
  { destruct (fluff_transaction _ _ _) as [l res] eqn:El. cbn [fst].
    etrans; [apply (stem_steps (set_router (mark_fluffed r (hash_transaction tx)) (stem n)))|exact (fluff_steps (set_stem _ n) l tx res El)].
    unfold stem_ok. cbn. rewrite He, dom_delete_L. intros <-. apply not_elem_of_dom in HN. set_solver. }
  destruct x as [|relay]; [done|]. destruct (_ <=? _)%nat; [done|]. cbn [fst]. apply stem_steps.
  unfold stem_ok. cbn. intros Hs. unfold embargo. rewrite He. apply not_elem_of_dom in HN.
  destruct (embargo_until (router (stem n)) !! hash_transaction tx) eqn:E2.
  - exfalso. apply HN. rewrite Hs. by apply elem_of_dom_2 in E2.
  - cbn. rewrite !dom_insert_L. by rewrite Hs.
Qed.

Lemma ingest_block_steps now n b : block_u64 b → steps n (ingest_block cfg now n b).1.
Proof.
  intros Hb. unfold ingest_block. case_bool_decide; [reflexivity|].
  pose proof (observe_votes_ok (l_chain (ledger n)) (voting n) (votes b)) as Hv.
  destruct (observe_votes _ _ _ _) as [vt ms]. cbn [fst] in Hv.
  destruct (add_block cfg now (l_chain (ledger n)) b) as [c r] eqn:Ea.
  assert (Hc : reachable cfg (n_chain n) → reachable cfg c) by (intros; by eapply reach_add).
  destruct r as [[]|e]; [|cbn [fst]; (etrans; [|by apply voting_steps]); by apply ledger_steps].
  pose proof (refresh_local_votes_ok c vt) as Hr.
  match goal with |- context [refresh_local_votes cfg c vt ?o] => specialize (Hr o); destruct (refresh_local_votes cfg c vt o) as [[vt' out] k] end.
  cbn [fst] in *. etrans; [|apply voting_steps; auto]. by apply ledger_steps.
Qed.

(** ** Handlers *)

Ltac handler := repeat first
  [ apply reject_steps | apply accept_steps | apply judge_steps | reflexivity | case_match ].

Lemma handle_tx_steps now n peer body : steps n (handle_tx cfg now n peer body).1.
Proof.
  unfold handle_tx. destruct (decode_tx_payload body) as [tx|]; [|apply reject_steps].
  set (m := set_stem _ n). assert (Hm : steps n m) by apply stem_steps, unstem_ok.
  destruct (fluff_transaction cfg (ledger m) tx) as [l r] eqn:El. pose proof (fluff_steps m l tx r El) as Hl.
  etrans; [exact Hm|]. etrans; [exact Hl|]. cbn zeta. handler.
Qed.
Lemma handle_stem_steps now d n peer body : steps n (handle_stem cfg dp now d n peer body).1.
Proof.
  unfold handle_stem. destruct (decode_tx_payload body) as [tx|]; [|apply reject_steps]. apply judge_steps.
  destruct (dandelion _); [apply stem_transaction_steps|].
  destruct (fluff_transaction cfg (ledger n) tx) as [l r] eqn:El. by eapply fluff_steps.
Qed.
Lemma handle_svote_steps now n peer body : steps n (handle_svote cfg now n peer body).1.
Proof.
  unfold handle_svote. destruct (decode_stake_vote body) as [v|]; [|apply reject_steps].
  pose proof (submit_stake_vote_ok (n_chain n) (voting n) v) as Hv.
  destruct (submit_stake_vote _ _ _ _) as [[vt out] r]. cbn [fst] in Hv.
  assert (H : steps n (emit out (set_voting vt n))) by (etrans; [by apply voting_steps|apply emit_steps]).
  etrans; [exact H|]. cbn zeta. handler.
Qed.
Lemma handle_block_steps now n peer body : steps n (handle_block cfg now n peer body).1.
Proof.
  unfold handle_block. destruct (decode_block_payload body) as [b|] eqn:E; [|apply reject_steps].
  apply judge_steps, ingest_block_steps. by eapply decode_block_payload_range.
Qed.
Lemma ingest_block_payload_steps now n body : steps n (ingest_block_payload cfg now n body).1.
Proof.
  unfold ingest_block_payload. destruct (decode_block_payload body) as [b|] eqn:E; [|reflexivity].
  apply ingest_block_steps. by eapply decode_block_payload_range.
Qed.
Lemma handle_reqblk_steps now n peer body : steps n (handle_reqblk now n peer body).1.
Proof. unfold handle_reqblk. handler. Qed.
Lemma handle_reqinv_steps now n peer body : steps n (handle_reqinv now n peer body).1.
Proof. unfold handle_reqinv. handler. Qed.
Lemma handle_advertise_steps now n addr : steps n (handle_advertise now n addr).1.
Proof. unfold handle_advertise. repeat (case_match; try reflexivity). apply (table_op (AddCandidate now addr)). Qed.
Lemma handle_chan_steps now n peer body : steps n (handle_chan now n peer body).1.
Proof.
  unfold handle_chan. destruct (channels n) as [w|]; [|reflexivity].
  destruct (chan_handler _ w _ _ _) as [w' r]. etrans; [apply (channels_steps (Some w'))|]. handler.
Qed.
Lemma with_relay_steps f g n : (∀ m, steps m (g m)) → steps n (with_relay f g n).1.
Proof.
  intros Hg. unfold with_relay. destruct (pm_relay n) as [r|]; [|reflexivity].
  destruct (f r) as [r' x]. etrans; [apply (relay_steps (Some r'))|]. destruct x; [apply Hg|reflexivity].
Qed.
Lemma handle_idrotate_steps now n peer m : steps n (handle_idrotate now n peer m).1.
Proof.
  unfold handle_idrotate. repeat first [apply reject_steps | apply accept_steps | case_match].
  etrans; [apply identity_steps|]. etrans; [apply emit_steps|apply accept_steps].
Qed.
Lemma handle_idvote_steps now n peer m : steps n (handle_idvote now n peer m).1.
Proof.
  unfold handle_idvote. repeat first [apply reject_steps | case_match]; cbn zeta;
    (etrans; [apply identity_steps|]); [apply accept_steps|]. etrans; [apply emit_steps|apply accept_steps].
Qed.

Lemma dispatch_steps now d n peer m : steps n (dispatch cfg dp now d n peer m).1.
Proof.
  unfold dispatch. repeat case_match; auto using handle_tx_steps, handle_chan_steps, with_relay_steps,
    handle_svote_steps, handle_block_steps, accept_steps, handle_reqblk_steps, handle_reqinv_steps, handle_stem_steps,
    handle_advertise_steps, handle_idrotate_steps, handle_idvote_steps, judge_steps, ingest_block_payload_steps,
    reject_steps, good_steps.
  apply with_relay_steps. reflexivity.
Qed.

(** ** Sessions *)

Lemma drop_old_length now l : (length (drop_old now l) ≤ length l)%nat.
Proof. induction l as [|t l IH]; cbn [drop_old]; [done|]. destruct (_ <? _); cbn; lia. Qed.

Lemma allow_peer_message_ok now s peer x :
  let s' := (allow_peer_message now s peer x).1 in
  (sessions_ok s → sessions_ok s') ∧ ∃ r, s' = set_rates r s.
Proof.
  cbn zeta. unfold allow_peer_message. set (b := default _ _).
  pose proof (drop_old_length now (generic_hits b)) as Hg. pose proof (drop_old_length now (expensive_hits b)) as He.
  set (g := drop_old now (generic_hits b)) in *. set (e := drop_old now (expensive_hits b)) in *.
  assert (K : ∀ g' e', (sessions_ok s → (length g' ≤ kGenericMax)%nat ∧ (length e' ≤ kExpensiveMax)%nat) →
    let s' := set_rates (<[peer := mkRateBucket g' e']> (rate_limits s)) s in
    (sessions_ok s → sessions_ok s') ∧ ∃ r, s' = set_rates r s).
  { intros g' e' Hb. split; [|by eexists]. intros Hs. destruct (Hb Hs) as [? ?]. destruct Hs as [Ht Hr Hn]. split; [done| |done].
    intros p b'. cbn [rate_limits set_rates]. destruct (decide (peer = p)) as [<-|Hne].
    - rewrite lookup_insert_eq. by intros [= <-].
    - rewrite lookup_insert_ne by done. apply Hr. }
  assert (B : sessions_ok s → (length g ≤ kGenericMax)%nat ∧ (length e ≤ kExpensiveMax)%nat).
  { intros [_ Hr _]. clearbody g e. subst b. destruct (rate_limits s !! peer) as [b|] eqn:E; cbn in Hg, He; [|lia].
    destruct (Hr _ _ E). lia. }
  destruct (Nat.leb_spec kGenericMax (length g)); [by apply K|].
  assert (Lg : (length (g ++ [now]) ≤ kGenericMax)%nat) by (rewrite length_app; cbn [length]; lia).
  destruct x; [|apply K; intros Hs; split; [done|by apply B]].
  destruct (Nat.leb_spec kExpensiveMax (length e)); apply K; intros Hs; (split; [done|]); [by apply B|].
  rewrite length_app. cbn [length]. lia.
Qed.

Lemma admit_peer_ok now p peer : table_ok p → table_ok (admit_peer now p peer).1.
Proof.
  intros Hp. unfold admit_peer. pose proof (add_peer_ok now p peer Hp) as Ha.
  destruct (has_peer p peer); [|destruct (add_peer now p peer) as [p' added]; cbn in Ha]; repeat (case_match; try done).
Qed.

(** A HELLO that proves possession of [pk] on this network at this time. *)
Definition genuine_hello (now : Z) (m pk : string) : Prop :=
  starts_with "HELLO|" m = true ∧
  ∃ version ts_s nonce sig ts rest,
    read_fields ["|"; "|"; "|"; "|"; "|"; nl]%char (Some (str_drop 6 m)) =
      Some [version; active_network_id cfg; ts_s; nonce; pk; sig] ∧
    stoull 10 ts_s = Some (ts, rest) ∧ now ≤ u64 (ts + kMsgSkewSec) ∧ ts ≤ u64 (now + kMsgSkewSec) ∧
    verify_message_signature_hybrid_uncached pk
      (version +:+ "|" +:+ active_network_id cfg +:+ "|" +:+ ts_s +:+ "|" +:+ nonce +:+ "|" +:+ pk) sig = true.

(** What one message may change of the authentication state. *)
Definition auth_step (now : Z) (peer m : string) (s s' : Sessions) : Prop :=
  pinned_peer_pubkeys s ⊆ pinned_peer_pubkeys s' ∧
  ∀ p, handshake_ok s' !! p = Some true →
    handshake_ok s !! p = Some true ∨
    (p = peer ∧ ∃ pk, pinned_peer_pubkeys s' !! p = Some pk ∧ genuine_hello now m pk).

Lemma auth_step_same now peer m s s' :
  pinned_peer_pubkeys s' = pinned_peer_pubkeys s → handshake_ok s' = handshake_ok s → auth_step now peer m s s'.
Proof. intros Hp Hh. split; [by rewrite Hp|]. intros p. rewrite Hh. by left. Qed.
Lemma auth_step_off now peer m s s' :
  pinned_peer_pubkeys s ⊆ pinned_peer_pubkeys s' → handshake_ok s' = <[peer := false]> (handshake_ok s) →
  auth_step now peer m s s'.
Proof.
  intros Hp Hh. split; [done|]. intros p. rewrite Hh. destruct (decide (peer = p)) as [<-|Hne].
  - by rewrite lookup_insert_eq.
  - rewrite lookup_insert_ne by done. by left.
Qed.

Lemma emplace_subseteq (k v : string) (m : gmap string string) : m ⊆ emplace k v m.
Proof. unfold emplace. destruct (m !! k) eqn:E; [done|]. by apply insert_subseteq. Qed.
Lemma check_hello_Ok now s peer version network ts_s nonce pk sig :
  check_hello cfg now s peer version network ts_s nonce pk sig = Ok () →
  network = active_network_id cfg ∧
  (∃ ts rest, stoull 10 ts_s = Some (ts, rest) ∧ now ≤ u64 (ts + kMsgSkewSec) ∧ ts ≤ u64 (now + kMsgSkewSec)) ∧
  emplace peer pk (pinned_peer_pubkeys s) !! peer = Some pk ∧
  verify_message_signature_hybrid_uncached pk
    (version +:+ "|" +:+ network +:+ "|" +:+ ts_s +:+ "|" +:+ nonce +:+ "|" +:+ pk) sig = true ∧
  nonce ∉ (default ∅ (seen_nonces s !! peer) : gset string).
Proof.
  unfold check_hello. intros H. peel H. destruct (stoull 10 ts_s) as [[ts rest]|]; [|done]. peel H. bools.
  conjs; try done.
  - by apply String.eqb_eq.
  - by exists ts, rest.
  - unfold emplace. destruct (pinned_peer_pubkeys s !! peer) as [pin|] eqn:E; [|by rewrite lookup_insert_eq].
    cbn in *. bools. rewrite E. f_equal. by apply String.eqb_eq.
Qed.

(** A HELLO touches the sessions only. *)
Definition sessions_only n n' : Prop := n' = set_sessions (sessions n') n.

Lemma sessions_only_refl n : sessions_only n n.
Proof. by destruct n. Qed.

Lemma handle_hello_spec now n peer m :
  starts_with "HELLO|" m = true →
  let '(n', r) := handle_hello cfg now n peer (str_drop 6 m) in
  sessions_only n n' ∧ (sessions_ok (sessions n) → sessions_ok (sessions n')) ∧
  auth_step now peer m (sessions n) (sessions n') ∧
  (is_ok r = true → handshake_ok (sessions n') !! peer = Some true).
Proof.
  intros Hm. unfold handle_hello.
  assert (Refuse : ∀ e (n1 : Node R W), sessions_only n n1 → (sessions_ok (sessions n) → sessions_ok (sessions n1)) →
    pinned_peer_pubkeys (sessions n) ⊆ pinned_peer_pubkeys (sessions n1) →
    handshake_ok (sessions n1) = handshake_ok (sessions n) →
    let '(n', r) := refuse_hello now peer e n1 in
    sessions_only n n' ∧ (sessions_ok (sessions n) → sessions_ok (sessions n')) ∧
    auth_step now peer m (sessions n) (sessions n') ∧
    (is_ok r = true → handshake_ok (sessions n') !! peer = Some true)).
  { intros e n1 Hso Hok Hp Hh. cbn. conjs; [by rewrite Hso| |apply auth_step_off; [done|cbn; by rewrite Hh]|done].
    intros [Ht Hr Hn]%Hok. split; [|done..]. by apply (peer_step_ok _ (MarkBad now peer)). }
  assert (Refuse0 : ∀ e, let '(n', r) := refuse_hello now peer e n in
    sessions_only n n' ∧ (sessions_ok (sessions n) → sessions_ok (sessions n')) ∧
    auth_step now peer m (sessions n) (sessions n') ∧
    (is_ok r = true → handshake_ok (sessions n') !! peer = Some true))
    by (intros e; apply Refuse; [apply sessions_only_refl|done..]).
  destruct (read_fields _ _) as [[|version [|network [|ts_s [|nonce [|pk [|sig [|? ?]]]]]]]|] eqn:Er; try exact (Refuse0 _).
  destruct (check_hello _ _ _ _ _ _ _ _ _ _) as [[]|e] eqn:Ec; [|exact (Refuse0 _)].
  apply check_hello_Ok in Ec as (-> & (ts & rest & Hts & Hs1 & Hs2) & Hpin & Hver & Hnon).
  set (n1 := set_sessions _ n). cbn zeta.
  assert (H1 : sessions_ok (sessions n) → sessions_ok (sessions n1)).
  { intros [Ht Hr Hn]. split; [done..|]. intros p X. cbn [sessions seen_nonces set_session_keys remember_hello set_sessions n1].
    destruct (decide (peer = p)) as [<-|Hne]; [|rewrite lookup_insert_ne by done; apply Hn].
    rewrite lookup_insert_eq. intros [= <-]. destruct (Nat.ltb_spec (Z.to_nat 4096)
      (size ({[nonce]} ∪ default ∅ (seen_nonces (sessions n) !! peer) : gset string))) as [Hl|Hl]; [|done].
    rewrite size_singleton. lia. }
  assert (P1 : pinned_peer_pubkeys (sessions n) ⊆ pinned_peer_pubkeys (sessions n1)) by apply emplace_subseteq.
  destruct (sign_message_hybrid _ _) as [ack_sig|]; [|by apply Refuse].
  cbn [is_ok]. conjs; [done| | |intros _; cbn; by rewrite lookup_insert_eq].
  - intros [Ht Hr Hn]%H1. split; cbn; [|done|done]. apply (peer_step_ok _ (MarkGood peer)).
    by apply (peer_step_ok _ (Readmit now peer)).
  - split; [done|]. intros p. cbn. destruct (decide (peer = p)) as [<-|Hne].
    + intros _. right. split; [done|]. exists pk. split; [done|]. split; [done|]. naive_solver.
    + rewrite lookup_insert_ne by done. by left.
Qed.

(** ** One message *)

Lemma table_only_auth now peer m s s' : table_only s s' → auth_step now peer m s s'.
Proof. intros [p ->]. by apply auth_step_same. Qed.
Lemma auth_step_after now peer m s s1 s' :
  pinned_peer_pubkeys s1 = pinned_peer_pubkeys s → handshake_ok s1 = handshake_ok s →
  auth_step now peer m s1 s' → auth_step now peer m s s'.
Proof. intros Hp Hh [H1 H2]. split; [by rewrite <-Hp|]. intros p. rewrite <-Hh. apply H2. Qed.

(** Admission and the rate limiter: the state they leave, and its sessions. *)
Lemma admission now n peer x n1 n2 :
  n1 = update_table (λ _, (admit_peer now (s_peers (sessions n)) peer).1) n →
  n2 = set_sessions (allow_peer_message now (sessions n1) peer x).1 n1 →
  (node_ok n → node_ok n1 ∧ node_ok n2) ∧
  pinned_peer_pubkeys (sessions n2) = pinned_peer_pubkeys (sessions n) ∧
  handshake_ok (sessions n2) = handshake_ok (sessions n) ∧ sessions_only n n2.
Proof.
  intros -> ->. set (n1 := update_table _ n). destruct (allow_peer_message_ok now (sessions n1) peer x) as [Hok [r Hr]].
  split; [|rewrite Hr; done]. intros Hn.
  assert (H1 : node_ok n1).
  { destruct Hn as [Hc [Ht Hra Hno] Hv Hs]. split; try done. split; try done. by apply admit_peer_ok. }
  split; [done|]. destruct H1 as [Hc Hs Hv Hst]. split; try done. by apply Hok.
Qed.

Lemma handle_inbound_spec now d n peer m :
  let '(n', r) := handle_inbound_message cfg dp now d n peer m in
  (node_ok n → node_ok n') ∧ auth_step now peer m (sessions n) (sessions n') ∧
  (handshake_ok (sessions n) !! peer ≠ Some true →
   sessions_only n n' ∧
   (is_ok r = true → starts_with "HELLO|" m = true ∧ handshake_ok (sessions n') !! peer = Some true)).
Proof.
  unfold handle_inbound_message.
  destruct (admission now n peer (is_expensive m) _ _ eq_refl eq_refl) as (Hok & Hp & Hh & Hso).
  destruct (admit_peer now (s_peers (sessions n)) peer) as [p r]. cbn [fst] in *. set (n1 := update_table (λ _, p) n) in *.
  destruct r as [[]|e]; [|conjs; [tauto|by apply auth_step_same|by split]].
  destruct (allow_peer_message now (sessions n1) peer (is_expensive m)) as [s r]. cbn [fst] in *.
  set (n2 := set_sessions s n1) in *.
  destruct r as [[]|e].
  2:{ cbn [reject]. destruct (bad_steps now peer n2) as [Hb [q Hq]]. conjs; [tauto| |].
    - eapply auth_step_after; [exact Hp|exact Hh|]. rewrite Hq. by apply auth_step_same.
    - intros _. split; [|done]. unfold sessions_only in *. by rewrite Hso. }
  destruct (starts_with "HELLO|" m) eqn:Em.
  - pose proof (handle_hello_spec now n2 peer m Em) as H. destruct (handle_hello _ _ _ _ _) as [n' r].
    destruct H as (H1 & H2 & H3 & H4). conjs.
    + intros [_ [Hc Hs Hv Hst]]%Hok. rewrite H1. split; try done. by apply H2.
    + by eapply auth_step_after.
    + intros _. split; [|by intros ?%H4]. unfold sessions_only in *. by rewrite H1, Hso.
  - rewrite Hh. destruct (handshake_ok (sessions n) !! peer) as [[]|] eqn:Ea; cbn -[dispatch].
    + pose proof (dispatch_steps now d n2 peer m) as [H1 H2]. destruct (dispatch _ _ _ _ _ _ _) as [n' r]. cbn [fst] in *.
      conjs; [tauto| |done]. eapply auth_step_after; [done|done|]. by apply table_only_auth.
    + conjs; [tauto|by eapply auth_step_after, auth_step_same|by split].
    + conjs; [tauto|by eapply auth_step_after, auth_step_same|by split].
Qed.

(** ** Any sequence of events *)

Lemma local_event_steps n ev :
  delivers ev = None → event_typed ev → steps n (node_event cfg dp n ev).
Proof.
  destruct ev; cbn [delivers event_typed node_event]; intros Hd Ht; try done.
  - by destruct (parse_line line).
  - unfold submit_transaction. destruct (dandelion _); [apply stem_transaction_steps|].
    destruct (fluff_transaction _ _ _) as [l r] eqn:El. by eapply fluff_steps.
  - pose proof (submit_stake_vote_ok (n_chain n) (voting n) v) as Hv.
    destruct (submit_stake_vote _ _ _ _) as [[vt out] r]. cbn [fst] in Hv.
    etrans; [by apply voting_steps|apply emit_steps].
  - by apply ingest_block_steps.
  - pose proof (refresh_local_votes_ok (n_chain n) (voting n) (outbound (ledger n))) as Hv.
    destruct (refresh_local_votes _ _ _ _) as [[vt out] k]. cbn [fst] in Hv. cbn zeta.
    etrans; [|by apply voting_steps]. by apply ledger_steps.
  - apply voting_steps. intros []. by split.
  - apply voting_steps. intros []. by split.
  - apply ledger_steps. unfold announce_tip. by destruct (_ =? _).
  - by apply ledger_steps.
  - unfold propose_identity_rotation. repeat (case_match; try reflexivity). cbn [fst].
    etrans; [apply emit_steps|apply identity_steps].
  - unfold vote_identity_rotation. repeat (case_match; try reflexivity). apply identity_steps.
  - unfold broadcast_identity_rotation_vote. repeat (case_match; try reflexivity). cbn [fst].
    etrans; [apply identity_steps|apply emit_steps].
  - unfold commit_identity_rotation. repeat (case_match; try reflexivity). apply identity_steps.
  - apply bad_steps.
  - apply (table_op (MarkUnreachable now peer)).
  - apply good_steps.
Qed.

Lemma message_event n ev now peer m :
  delivers ev = Some (now, peer, m) →
  let n' := node_event cfg dp n ev in
  (node_ok n → node_ok n') ∧ auth_step now peer m (sessions n) (sessions n').
Proof.
  destruct ev as [now' d' peer' m'|now' d' line| | | | | | | | | | | | | | | ]; try done; cbn [delivers node_event].
  - intros [= -> -> ->]. pose proof (handle_inbound_spec now d' n peer m) as H. unfold deliver.
    destruct (handle_inbound_message _ _ _ _ _ _ _) as [n' [reply|e]]; destruct H as (H1 & H2 & _); [|done].
    cbn [fst]. destruct (is_empty reply); [done|]. destruct (emit_steps [reply] n') as [E [q Eq]].
    split; [tauto|]. destruct H2 as [P H]. cbn in *. done.
  - unfold handle_p2p_line. destruct (parse_line line) as [peer' m'] eqn:El. intros [= -> -> ->].
    destruct (_ || _); [by split; [|apply auth_step_same]|].
    pose proof (handle_inbound_spec now d' n peer m) as H.
    destruct (handle_inbound_message _ _ _ _ _ _ _) as [n' [reply|e]]; by destruct H as (H1 & H2 & _).
Qed.

Lemma node_event_ok n ev : event_typed ev → node_ok n → node_ok (node_event cfg dp n ev).
Proof.
  intros Ht Hn. destruct (delivers ev) as [[[now peer] m]|] eqn:E.
  - by apply (message_event n ev now peer m E).
  - by apply (local_event_steps n ev E Ht).
Qed.

Lemma run_app n evs evs' : run cfg dp n (evs ++ evs') = run cfg dp (run cfg dp n evs) evs'.
Proof. apply foldl_app. Qed.

(** A node that handles any lines, from anyone and in any order, between its own
    operations, keeps a chain whose state comes from accepted blocks, a bounded peer table
    without banned peers, rate buckets and nonce sets within their limits, exactly one
    embargo for each transaction in the stem pool, and only evidence of tickets that
    really signed two conflicting votes. *)
Theorem node_invariant n evs :
  Forall event_typed evs → node_ok n → node_ok (run cfg dp n evs).
Proof.
  intros Ht. revert n. induction Ht as [|ev evs Hev _ IH]; intros n Hn; [done|].
  cbn [run foldl]. by apply IH, node_event_ok.
Qed.

(** C31. Trust on first use: once a key is pinned for an id it stays, and an id counts as
    authenticated only after a HELLO under that id, for this network and at that time,
    signed with the key still pinned for it. *)
Theorem handshake_authentic n evs :
  Forall event_typed evs →
  pinned_peer_pubkeys (sessions n) ⊆ pinned_peer_pubkeys (sessions (run cfg dp n evs)) ∧
  ∀ p, handshake_ok (sessions (run cfg dp n evs)) !! p = Some true →
    handshake_ok (sessions n) !! p = Some true ∨
    ∃ pk ev now m, ev ∈ evs ∧ delivers ev = Some (now, p, m) ∧ genuine_hello now m pk ∧
      pinned_peer_pubkeys (sessions (run cfg dp n evs)) !! p = Some pk.
Proof.
  induction evs as [|ev evs IH] using rev_ind; intros Ht; [split; [done|by left]|].
  apply Forall_app in Ht as [Ht Hev]. rewrite Forall_singleton in Hev. destruct (IH Ht) as [IHp IHh]. clear IH.
  rewrite run_app. set (n1 := run cfg dp n evs) in *. cbn [run foldl].
  destruct (delivers ev) as [[[now peer] m]|] eqn:E.
  - destruct (message_event n1 ev now peer m E) as [_ [Hp Hh]]. split; [by etrans|]. intros p Ho.
    destruct (Hh p Ho) as [Ho1|(-> & pk & Hpk & Hg)].
    + destruct (IHh p Ho1) as [?|(pk & ev' & now' & m' & Hin & Hd & Hg & Hpk)]; [by left|]. right.
      exists pk, ev', now', m'. conjs; [apply elem_of_app; by left|done|done|by eapply lookup_weaken].
    + right. exists pk, ev, now, m. conjs; [apply elem_of_app; right; by left|done..].
  - destruct (local_event_steps n1 ev E Hev) as [_ [q ->]]. split; [done|]. intros p Ho.
    destruct (IHh p Ho) as [?|(pk & ev' & now' & m' & Hin & Hd & Hg & Hpk)]; [by left|]. right.
    exists pk, ev', now', m'. conjs; [apply elem_of_app; by left|done..].
Qed.


(** ** Equivocation *)

(** The first vote is remembered and its ticket not yet reported, or there is evidence. *)
Definition watching (v : StakeVote) (vt : Voting) : Prop :=
  vote_watch vt !! watch_key v = Some v ∧ ticket_id v ∉ slash_reported vt.
Definition caught (c : Chain) (id : string) (vt : Voting) : Prop :=
  ∃ ev, ev ∈ usable_slash_evidence cfg c vt ∧ ticket_id (ev_a ev) = id.

Lemma caught_intro c vt ev :
  ev ∈ pending_slashes vt → is_ok (validate_slash cfg c ev) = true → caught c (ticket_id (ev_a ev)) vt.
Proof. intros H1 H2. exists ev. split; [|done]. by apply list_elem_of_filter. Qed.
Lemma observe_vote_caught c id vt v :
  caught c id vt → caught c id (observe_vote_for_equivocation cfg c vt v).1.1.
Proof.
  intros (ev & [Hok Hev]%list_elem_of_filter & <-). unfold observe_vote_for_equivocation.
  repeat (case_match; try (by apply caught_intro)). apply caught_intro; [apply elem_of_app; by left|done].
Qed.
Lemma observe_vote_watching c v vt w :
  (size (vote_watch vt) ≤ Z.to_nat 200000)%nat → watching v vt →
  let vt' := (observe_vote_for_equivocation cfg c vt w).1.1 in
  watching v vt' ∨ caught c (ticket_id v) vt'.
Proof.
  intros Hsz [Hw Hr]. cbn zeta. unfold observe_vote_for_equivocation. destruct (negb _); [by left|].
  destruct (vote_watch vt !! watch_key w) as [first|] eqn:E.
  - destruct (_ && _); [by left|]. case_bool_decide; [by left|].
    destruct (validate_slash cfg c (mkSlashEvidence first w)) as [[]|] eqn:Ev; [|by left].
    destruct (decide (ticket_id w = ticket_id v)) as [Hid|Hid]; [right|left].
    + pose proof (validate_slash_real _ _ Ev) as (Ht & _). cbn in Ht. cbn [negb is_ok fst].
      rewrite <-Hid, <-Ht. apply (caught_intro _ _ (mkSlashEvidence first w)); [|by rewrite Ev].
      cbn. apply elem_of_app. right. by apply list_elem_of_singleton.
    + split; [done|]. cbn. rewrite not_elem_of_union, not_elem_of_singleton. by split.
  - left. destruct (Nat.ltb_spec (Z.to_nat 200000) (size (vote_watch vt))); [lia|]. split; cbn; [|done].
    rewrite lookup_insert_ne; [done|]. intros Hk. by rewrite Hk, Hw in E.
Qed.
Lemma observe_vote_watch_size c vt w :
  (size (vote_watch (observe_vote_for_equivocation cfg c vt w).1.1) ≤ Datatypes.S (size (vote_watch vt)))%nat.
Proof.
  assert (Hi : ∀ k (m : gmap string StakeVote), (size (<[k := w]> m) ≤ Datatypes.S (size m))%nat).
  { intros k m. rewrite map_size_insert. destruct (m !! k); [apply Nat.le_succ_diag_r|done]. }
  unfold observe_vote_for_equivocation. repeat (case_match; try (cbn [fst vote_watch]; lia)); cbn [fst vote_watch].
  - etrans; [apply Hi|]. rewrite map_size_empty. lia.
  - apply Hi.
Qed.
Lemma observe_votes_cons c vt v vs :
  (observe_votes cfg c vt (v :: vs)).1 = (observe_votes cfg c (observe_vote_for_equivocation cfg c vt v).1.1 vs).1.
Proof.
  unfold observe_votes. cbn [foldl fst snd]. destruct (observe_vote_for_equivocation _ _ _ _) as [[vt' ms] e]. cbn [fst].
  match goal with |- (foldl _ (_, ?a) _).1 = (foldl _ (_, ?b) _).1 => generalize a; intros l; generalize b; intros k end.
  revert vt' l k. induction vs as [|w vs IH]; intros vt' l k; cbn [foldl]; [done|].
  cbn [fst snd]. destruct (observe_vote_for_equivocation _ _ _ _) as [[vt2 ms2] e2]. apply IH.
Qed.
Lemma observe_votes_watching c v vt vs :
  (size (vote_watch vt) + length vs ≤ Z.to_nat 200000)%nat → watching v vt ∨ caught c (ticket_id v) vt →
  let vt' := (observe_votes cfg c vt vs).1 in watching v vt' ∨ caught c (ticket_id v) vt'.
Proof.
  revert vt. induction vs as [|w vs IH]; intros vt Hsz H; [done|]. cbn zeta. rewrite observe_votes_cons. cbn [length] in Hsz.
  apply IH.
  - pose proof (observe_vote_watch_size c vt w). lia.
  - destruct H as [H|H]; [apply observe_vote_watching; [lia|done]|right; by apply observe_vote_caught].
Qed.
Lemma observe_votes_app c vt vs vs' :
  (observe_votes cfg c vt (vs ++ vs')).1 = (observe_votes cfg c (observe_votes cfg c vt vs).1 vs').1.
Proof. revert vt. induction vs as [|v vs IH]; intros vt; cbn [app]; [done|]. by rewrite !observe_votes_cons, IH. Qed.

End invariant.
