(* ===== verification/NodeSyncProofs.v ===== *)
(** * The node as a client: what holds whatever the peers answer

    [sound m Q h]: the computation [m], run on [h], only goes on from [h] ([onward]) and ends
    with a result in [Q], if the allocator has room. The rules are those of a weakest
    precondition. The network is finite: a round of a loop that is not the last takes a turn. *)
From stdpp Require Import sorting.
From S2P Require Import Prelude ConsensusRules Strings Lines Crypto Types Wire Block Staking Shielded Script.
From S2P Require Import Chain ChainBlock ChainProofs Mempool Mining Wallet Votes Dandelion Peers PeersProofs NodeCodec.
From S2P Require Import NodeCodecProofs Node NodeInbound NodeProofs NodeSync NodeGossip.

Section client.
Context {C : Crypto} {ST : Stark} {MO : MempoolOrder} {IO : IterationOrder} {I : Inet} {SG : Signer} {HP : Heap}.
Context (cfg : ChainConfig) (dp : Params) {R W : Type} {PR : PmRelay R} {PQ : PmQueue R} {CH : ChanHandler W}.
Notation M := (M R W).
Notation Host := (Host R W).
Notation node_ok := (node_ok cfg).
Notation pins h := (pinned_peer_pubkeys (sessions (h_node h))).
Implicit Types h : Host.

(** ** What a computation may change *)

Definition exchange : Type := string * list string * list string.
(** An acknowledgement signed with [pk], for the nonce and the network of the HELLO it answers. *)
Definition genuine_ack (req resp pk : string) : Prop :=
  starts_with "ok:HELLO_ACK|" resp = true ∧
  ∃ id version ts nonce rest v ts' sig,
    req = id +:+ " HELLO|" +:+ version +:+ "|" +:+ active_network_id cfg +:+ "|" +:+ ts +:+ "|" +:+ nonce +:+ "|" +:+ rest ∧
    read_fields ["|"; "|"; "|"; "|"; "|"; nl]%char (Some (str_drop 13 resp)) =
      Some [v; active_network_id cfg; ts'; nonce; pk; sig] ∧
    verify_message_signature_hybrid_uncached pk
      (v +:+ "|" +:+ active_network_id cfg +:+ "|" +:+ ts' +:+ "|" +:+ nonce +:+ "|" +:+ pk) sig = true.
(** Why the node counts [peer] as authenticated: the exchange, and the key pinned for the peer. *)
Definition vouched (l : list exchange) (P : gmap string string) (peer : string) : Prop :=
  ∃ req resp, (peer, [req], [resp]) ∈ l ∧
    ((∃ pk, genuine_ack req resp pk ∧ P !! peer = Some pk) ∨ persist_leftover_reply resp = true).
Definition typed_turns (l : list Turn) : Prop := Forall (λ t, Forall event_typed (meanwhile t)) l.
Definition authentic (l : list exchange) (P : gmap string string) (before after : gmap string bool) : Prop :=
  ∀ p, after !! p = Some true → before !! p = Some true ∨ vouched l P p.
Record onward (h h' : Host) : Prop := {
  onward_turns : ∃ taken, h_net h = taken ++ h_net h';
  onward_log : h_log h ⊆ h_log h';
  onward_ok : typed_turns (h_net h) → node_ok (h_node h) → node_ok (h_node h');
  onward_pins : typed_turns (h_net h) → pins h ⊆ pins h';
  onward_auth : typed_turns (h_net h) →
    authentic (h_log h') (pins h') (outbound_hs_ok (h_client h)) (outbound_hs_ok (h_client h'));
}.

Lemma authentic_mono l l' P P' b a : l ⊆ l' → P ⊆ P' → authentic l P b a → authentic l' P' b a.
Proof.
  intros Hl HP' H p [?|(req & resp & Hin & Hv)]%H; [by left|right]. exists req, resp. split; [by apply Hl|].
  destruct Hv as [(pk & Hg & Hp)|?]; [left|by right]. exists pk. split; [done|by eapply lookup_weaken].
Qed.
Lemma typed_after l l' : typed_turns (l ++ l') → typed_turns l'.
Proof. intros [_ ?]%Forall_app. done. Qed.
Lemma onward_typed h h' : onward h h' → typed_turns (h_net h) → typed_turns (h_net h').
Proof. intros [[t ->] _ _ _ _]. apply typed_after. Qed.
#[export] Instance onward_preorder : PreOrder onward.
Proof.
  split; [intros h; split; [by exists []|done|done|done|by left]|].
  intros h1 h2 h3 H12. pose proof (onward_typed _ _ H12) as Ht. destruct H12 as [[t1 E1] L1 N1 P1 A1].
  intros [[t2 E2] L2 N2 P2 A2]. split; auto.
  - exists (t1 ++ t2). by rewrite E1, E2, app_assoc.
  - by etrans.
  - intros T. etrans; auto.
  - intros T p [Hm|]%(A2 (Ht T)); [|by right]. by eapply authentic_mono; [done|auto|apply A1|].
Qed.
Lemma onward_fewer h h' : onward h h' → (length (h_net h') ≤ length (h_net h))%nat.
Proof. intros [[t ->] _ _ _ _]. rewrite length_app. lia. Qed.

(** ** The rules *)

Definition roomy : Prop := ∀ z, can_reserve z = true.
Definition sound {A} (m : M A) (Q : Host → A → Prop) h : Prop :=
  onward h (m h).1 ∧ match (m h).2 with Some a => Q (m h).1 a | None => ¬ roomy end.
Definition keeps {A} (m : M A) : Prop := ∀ h, sound m (λ _ _, True) h.

Lemma sound_ret {A} (a : A) (Q : Host → A → Prop) h : Q h a → sound (mret a) Q h.
Proof. split; [reflexivity|done]. Qed.
Lemma sound_bind {A B} (m : M A) (f : A → M B) Q Q' h :
  sound m Q h → (∀ h' a, onward h h' → Q h' a → sound (f a) Q' h') → sound (m ≫= f) Q' h.
Proof.
  unfold sound, mbind, M_bind. destruct (m h) as [h1 [a|]]; cbn [fst snd]; [|done]. intros [H1 Ha] H.
  destruct (H h1 a H1 Ha) as [H2 Hb]. split; [by etrans|done].
Qed.
Lemma sound_ask {A} (f : Host → A) (Q : Host → A → Prop) h : Q h (f h) → sound (ask f) Q h.
Proof. split; [reflexivity|done]. Qed.
Lemma sound_weaken {A} (m : M A) (Q Q' : Host → A → Prop) h :
  sound m Q h → (∀ h' a, onward h h' → Q h' a → Q' h' a) → sound m Q' h.
Proof. intros [H1 H2] H. split; [done|]. destruct (m h).2; [by apply H|done]. Qed.
Lemma keeps_sound {A} (m : M A) h : keeps m → sound m (λ _ _, True) h.
Proof. intros H. apply H. Qed.
Lemma keeps_ret {A} (a : A) : keeps (mret a).
Proof. intros h. by apply sound_ret. Qed.
Lemma keeps_bind {A B} (m : M A) (f : A → M B) : keeps m → (∀ a, keeps (f a)) → keeps (m ≫= f).
Proof. intros Hm Hf h. eapply sound_bind; [apply Hm|]. intros h' a _ _. apply Hf. Qed.
Lemma keeps_ask {A} (f : Host → A) : keeps (ask f).
Proof. intros h. by apply sound_ask. Qed.
Lemma keeps_host : keeps host.
Proof. apply (keeps_ask (λ h, h)). Qed.

(** ** The host *)

Lemma onward_still h h' :
  h_net h' = h_net h → h_log h' = h_log h → outbound_hs_ok (h_client h') = outbound_hs_ok (h_client h) →
  (node_ok (h_node h) → node_ok (h_node h')) → pins h ⊆ pins h' → onward h h'.
Proof. intros En El Ec Hn Hp. split; [by exists []; rewrite En|by rewrite El|done|done|]. intros _ p. rewrite Ec. by left. Qed.
Lemma keeps_on_node (f : Z → Node R W → Node R W) : (∀ now n, steps cfg n (f now n)) → keeps (on_node f).
Proof.
  intros H h. split; [|done]. destruct (H (h_now h) (h_node h)) as [Hok [q Hq]]. apply onward_still; try done.
  cbn. by rewrite Hq.
Qed.
Lemma keeps_client (f : Client → Client) : (∀ c, outbound_hs_ok (f c) = outbound_hs_ok c) → keeps (on_client f).
Proof. intros H h. split; [|done]. by apply onward_still; cbn. Qed.
Lemma keeps_unset peer : keeps (set_hs peer false).
Proof.
  intros h. split; [|done]. split; cbn; [by exists []|done..|]. intros _ p. cbn.
  destruct (decide (peer = p)) as [<-|Hne]; [by rewrite lookup_insert_eq|]. rewrite lookup_insert_ne by done. by left.
Qed.
Lemma set_hs_true peer Q h :
  vouched (h_log h) (pins h) peer → (∀ h', onward h h' → Q h' ()) → sound (set_hs peer true) Q h.
Proof.
  intros Hv HQ. assert (H : onward h (set_hs peer true h).1); [|by split; [|apply HQ]].
  split; cbn; [by exists []|done..|]. intros _ p. cbn.
  destruct (decide (peer = p)) as [<-|Hne]; [by right|]. rewrite lookup_insert_ne by done. by left.
Qed.

Lemma event_pins n ev : event_typed ev → pinned_peer_pubkeys (sessions n) ⊆ pinned_peer_pubkeys (sessions (node_event cfg dp n ev)).
Proof.
  intros Ht. destruct (delivers ev) as [[[now peer] m]|] eqn:E.
  - by destruct (message_event cfg dp n ev now peer m E) as [_ [? _]].
  - by destruct (local_event_steps cfg dp n ev E Ht) as [_ [q ->]].
Qed.
Lemma run_onward n evs :
  Forall event_typed evs →
  (node_ok n → node_ok (run cfg dp n evs)) ∧ pinned_peer_pubkeys (sessions n) ⊆ pinned_peer_pubkeys (sessions (run cfg dp n evs)).
Proof.
  intros Ht. revert n. induction Ht as [|ev evs Hev _ IH]; intros n; [done|]. cbn [run foldl].
  destruct (IH (node_event cfg dp n ev)) as [H1 H2].
  split; [by intros ?%(node_event_ok cfg dp n ev Hev)%H1|]. etrans; [by apply event_pins|done].
Qed.
Lemma take_turn_sound peer reqs h :
  sound (take_turn cfg dp peer reqs) (λ h' rs, (peer, reqs, rs) ∈ h_log h' ∧ (length rs ≤ length reqs)%nat ∧
    (rs ≠ [] → (length (h_net h') < length (h_net h))%nat)) h.
Proof.
  unfold take_turn, sound. destruct (h_net h) as [|t ts] eqn:E; cbn [fst snd h_net h_log h_node h_client].
  - split; [|split; [set_solver|by split; [cbn; lia|]]]. split; cbn; [by exists []; rewrite E|set_solver|done..|]. by left.
  - split; [|split; [set_solver|split; [rewrite length_take; apply Nat.le_min_l|intros _; cbn; lia]]]. split; cbn; [by exists [t]; rewrite E|set_solver| | |by left].
    + rewrite E. intros [Ht _]%Forall_cons. by apply run_onward.
    + rewrite E. intros [Ht _]%Forall_cons. by apply run_onward.
Qed.
Lemma keeps_pipeline peer reqs : keeps (send_p2p_pipeline cfg dp peer reqs).
Proof.
  intros h. unfold send_p2p_pipeline. destruct (_ || _); [by apply sound_ret|].
  eapply sound_weaken; [apply take_turn_sound|done].
Qed.
Lemma request_sound peer req h :
  sound (send_p2p_request cfg dp peer req) (λ h' r, ∀ resp, r = Some resp →
    (peer, [req], [resp]) ∈ h_log h' ∧ (length (h_net h') < length (h_net h))%nat) h.
Proof.
  unfold send_p2p_request. eapply sound_bind; [by apply sound_ask with (Q := λ h' _, h' = h)|]. intros h1 stop _ ->.
  destruct stop; [by apply sound_ret|]. unfold send_p2p_pipeline. destruct (_ || _).
  { eapply sound_bind; [by apply sound_ret with (Q := λ _ l, l = [])|]. intros h' l _ ->. by apply sound_ret. }
  eapply sound_bind; [apply take_turn_sound|]. intros h' rs _ (Hin & Hle & Hlt). apply sound_ret.
  intros resp. destruct rs as [|r [|? ?]]; [done| |cbn in Hle; lia]. intros [= ->]. split; [done|]. by apply Hlt.
Qed.
Lemma keeps_request peer req : keeps (send_p2p_request cfg dp peer req).
Proof. intros h. by eapply sound_weaken; [apply request_sound|]. Qed.
Lemma keeps_backoff : keeps (backoff cfg dp).
Proof. apply keeps_bind; [|intros; apply keeps_ret]. intros h. by eapply sound_weaken; [apply take_turn_sound|]. Qed.
Lemma keeps_unreachable peer : keeps (mark_unreachable peer).
Proof. apply keeps_on_node. intros now n. apply (table_op cfg (MarkUnreachable now peer)). Qed.
Lemma keeps_bad peer : keeps (mark_bad peer).
Proof. apply keeps_on_node. intros now n. apply bad_steps. Qed.
Lemma keeps_good peer : keeps (mark_good peer).
Proof. apply keeps_on_node. intros now n. apply good_steps. Qed.
Lemma keeps_forget peer : keeps (forget_handshake peer).
Proof. by apply keeps_client. Qed.
Lemma keeps_self : keeps self.
Proof. apply keeps_ask. Qed.
Lemma keeps_or_self id : keeps (or_self id).
Proof. apply keeps_bind; [apply keeps_self|]. intros s. apply keeps_ret. Qed.
Lemma keeps_chain : keeps chain.
Proof. apply keeps_ask. Qed.

(** ** The handshake *)

Ltac keeps := repeat first
  [ match goal with |- ∀ _, _ => intros ? end | solve [eauto 2 with keeps nocore] | apply keeps_bind; [|intros ?] | case_match ].
#[local] Hint Resolve keeps_ret keeps_ask keeps_host keeps_unset keeps_pipeline keeps_request keeps_backoff keeps_unreachable
  keeps_bad keeps_good keeps_forget keeps_self keeps_or_self keeps_chain : keeps.

Lemma check_ack_Ok s peer version nonce ack v pk :
  check_ack cfg s peer version nonce ack = Ok (v, pk) →
  emplace peer pk (pinned_peer_pubkeys s) !! peer = Some pk ∧
  ∃ ts sig,
    read_fields ["|"; "|"; "|"; "|"; "|"; nl]%char (Some ack) = Some [v; active_network_id cfg; ts; nonce; pk; sig] ∧
    verify_message_signature_hybrid_uncached pk
      (v +:+ "|" +:+ active_network_id cfg +:+ "|" +:+ ts +:+ "|" +:+ nonce +:+ "|" +:+ pk) sig = true.
Proof.
  unfold check_ack.
  destruct (read_fields _ _) as [[|v' [|nw [|ts [|nonce' [|pk' [|sig [|? ?]]]]]]]|]; try done.
  intros H. peel H. injection H as -> ->. bools. split; [|exists ts, sig].
  - unfold emplace. destruct (pinned_peer_pubkeys s !! peer) as [pin|] eqn:E; [|by rewrite lookup_insert_eq].
    cbn in *. bools. rewrite E. f_equal. by apply String.eqb_eq.
  - repeat match goal with Hs : String.eqb _ _ = true |- _ => apply String.eqb_eq in Hs end. by subst.
Qed.
Lemma remember_ack_onward peer v pk h :
  let h' := (on_node (remember_ack peer v pk) h).1 in
  onward h h' ∧ pins h' = emplace peer pk (pins h).
Proof.
  cbn zeta. split; [|done]. apply onward_still; try done; [|apply emplace_subseteq].
  intros [Hc [Ht Hr Hn] Hv Hs]. split; [done| |done|done]. split; cbn; [|done|done].
  by apply (peer_step_ok _ (Readmit (h_now h) peer)).
Qed.
Lemma keeps_hello_unanswered peer a : keeps (hello_unanswered cfg dp peer a).
Proof. unfold hello_unanswered. keeps. Qed.
Lemma hello_refused_sound peer id req resp a h :
  (peer, [req], [resp]) ∈ h_log h → sound (hello_refused cfg dp peer id resp a) (λ _ _, True) h.
Proof.
  intros Hin. unfold hello_refused. destruct (persist_leftover_reply resp) eqn:E.
  - eapply sound_bind; [apply set_hs_true with (Q := λ _ _, True); [|done]|].
    { exists req, resp. split; [done|by right]. }
    intros h' _ _ _. apply keeps_sound. keeps.
  - apply keeps_sound. keeps.
Qed.
Lemma keeps_hello_attempt peer k a : keeps (hello_attempt cfg dp peer k a).
Proof.
  intros h. unfold hello_attempt. eapply sound_bind; [by apply sound_ask with (Q := λ _ _, True)|]. cbn beta. intros h0 h1 _ _.
  destruct (sign_message_hybrid _ _) as [sig|]; [|by apply sound_ret].
  eapply sound_bind; [apply request_sound|]. intros h2 [resp|] _ Hr; [|apply keeps_sound, keeps_hello_unanswered].
  destruct (Hr _ eq_refl) as [Hin _]. clear Hr. destruct (starts_with "ok:HELLO_ACK|" resp) eqn:Ea; [|by eapply hello_refused_sound].
  eapply sound_bind; [by apply sound_ask with (Q := λ h' s, h' = h2 ∧ s = sessions (h_node h2))|]. intros h3 s _ [-> ->].
  destruct (check_ack _ _ _ _ _ _) as [[v pk]|e] eqn:Ec; [|by apply sound_ret].
  apply check_ack_Ok in Ec as (Hpin & ts & sig' & Hf & Hv).
  destruct (remember_ack_onward peer v pk h2) as [Ho Hp].
  eapply sound_bind with (Q := λ h' _, h' = (on_node (remember_ack peer v pk) h2).1); [by split|]. intros h4 _ _ ->.
  eapply sound_bind; [apply set_hs_true with (Q := λ _ _, True); [|done]|intros; by apply sound_ret].
  eexists _, resp. split; [exact Hin|]. left. exists pk. split; [|by rewrite Hp]. split; [done|].
  exists (attempt_id (self_id (identity (h_node h1))) k), (a_version a), (to_string (h_now h1)), (hello_nonce k (h_now h1)),
    (node_public_key (identity (h_node h1)) +:+ "|" +:+ sig), v, ts, sig'.
  split; [|by split]. cbn zeta. by rewrite !str_app_assoc.
Qed.
Lemma keeps_hello_loop peer tries k a : keeps (hello_loop cfg dp peer tries k a).
Proof.
  revert k a. induction tries as [|tries IH]; intros k a; cbn [hello_loop]; [keeps|].
  apply keeps_bind; [keeps|]. intros []; [keeps|]. apply keeps_bind; [apply keeps_hello_attempt|]. intros []; keeps.
Qed.
Lemma keeps_handshake peer : keeps (handshake_with_peer cfg dp peer).
Proof.
  unfold handshake_with_peer, handshake_with_peer_uncached. apply keeps_bind; [keeps|]. intros h. cbv zeta.
  match goal with |- keeps (match ?x with _ => _ end) => destruct x end.
  - keeps.
  - apply keeps_bind; [keeps|]. intros _. apply keeps_bind; [apply keeps_bind; [keeps|intros; apply keeps_hello_loop]|].
    intros []; [|keeps]. apply keeps_bind; [keeps|]. intros h1. apply keeps_bind; [by apply keeps_client|]. keeps.
Qed.
#[local] Hint Resolve keeps_handshake : keeps.

(** ** Blocks *)

(** A change of the node's state computed from the state as it is. *)
Lemma keeps_here (n' : Node R W) Q h :
  steps cfg (h_node h) n' → (∀ h', onward h h' → h_node h' = n' → Q h' ()) → sound (on_node (λ _ _, n')) Q h.
Proof.
  intros [Hok [q Hq]] HQ. assert (H : onward h (on_node (λ _ _, n') h).1); [|by split; [|apply HQ]].
  apply onward_still; try done. cbn. by rewrite Hq.
Qed.
Lemma ask_here {A} (f : Host → A) h : sound (ask f) (λ h' a, h' = h ∧ a = f h) h.
Proof. by apply sound_ask. Qed.
Lemma keeps_ingest_replies peer l any : keeps (ingest_replies cfg peer l any).
Proof.
  revert any. induction l as [|[ht resp] l IH]; intros any; cbn [ingest_replies]; [keeps|].
  apply keeps_bind; [keeps|]. intros c. destruct (_ <=? _); [apply IH|]. destruct (blkdata resp) as [payload|]; [|keeps].
  intros h. eapply sound_bind; [apply ask_here|]. intros h1 n _ [-> ->]. eapply sound_bind; [apply ask_here|]. intros h1 now _ [-> ->].
  pose proof (ingest_block_payload_steps cfg (h_now h) (h_node h) payload) as Hs.
  destruct (ingest_block_payload _ _ _ _) as [n r]. cbn [fst] in Hs.
  eapply sound_bind; [by apply keeps_here with (Q := λ _ _, True)|]. intros h1 _ _ _. apply keeps_sound.
  destruct r; [apply keeps_bind; [keeps|]; intros _; apply IH|]. destruct (_ <=? _); [apply IH|keeps].
Qed.
Lemma keeps_fetch_missing peer id wanted : keeps (fetch_missing cfg dp peer id wanted).
Proof.
  unfold fetch_missing. case_bool_decide; [keeps|]. apply keeps_bind; [keeps|]. intros resps.
  apply keeps_bind; [apply keeps_ingest_replies|]. intros [[x|] any]; keeps.
Qed.
Lemma fetch_candidate_sound fuel peer id ht remote_h acc h :
  (length (h_net h) < fuel)%nat → Forall block_u64 acc →
  sound (fetch_candidate cfg dp fuel peer id ht remote_h acc) (λ _ r, ∀ bs, r = Ok bs → Forall block_u64 bs) h.
Proof.
  revert ht acc h. induction fuel as [|fuel IH]; intros ht acc h Hf Ha; [lia|]. cbn [fetch_candidate].
  destruct (_ <? _); [by apply sound_ret; intros bs [= <-]|].
  assert (F : ∀ (m : M ()) e h', keeps m → sound (_ ← m; mret (Err e)) (λ _ r, ∀ bs, r = Ok bs → Forall block_u64 bs) h').
  { intros m e h' Hm. eapply sound_bind; [apply Hm|]. intros. by apply sound_ret. }
  eapply sound_bind; [apply request_sound|]. intros h1 [resp|] Ho Hr; [|apply F; keeps].
  destruct (Hr _ eq_refl) as [_ Hlt]. destruct (blkdata resp) as [payload|]; [|apply F; keeps].
  destruct (decode_block_payload payload) as [b|e] eqn:Eb; [|apply F; keeps]. apply IH; [lia|].
  apply Forall_app. split; [done|]. apply Forall_singleton. by eapply decode_block_payload_range.
Qed.
Lemma keeps_fetch_reorg peer id : keeps (fetch_reorg cfg dp peer id).
Proof.
  unfold fetch_reorg. apply keeps_bind; [keeps|]. intros resp. destruct (resp ≫= _) as [t|]; [|keeps].
  destruct (number t) as [remote_h|]; [|keeps]. destruct (can_reserve _) eqn:Er; cbn [negb].
  2:{ intros h. split; [reflexivity|]. intros Hr. by rewrite Hr in Er. }
  intros h. eapply sound_bind; [apply ask_here|]. intros h1 turns _ [-> ->].
  eapply sound_bind; [apply fetch_candidate_sound; [lia|done]|]. intros h1 [bs|e] _ Hbs; [|by apply sound_ret].
  specialize (Hbs bs eq_refl). destruct bs as [|b bs]; [apply keeps_sound; keeps|].
  eapply sound_bind; [apply ask_here|]. intros h2 now _ [-> ->]. eapply sound_bind; [apply ask_here|]. intros h2 c _ [-> ->].
  destruct (replace_with_chain _ _ _ _) as [c r] eqn:E.
  assert (Hc : reachable cfg (n_chain (h_node h1)) → reachable cfg c) by (intros; by eapply reach_replace).
  destruct r as [[]|e].
  all: eapply sound_bind with (Q := λ _ _, True); [|intros; apply keeps_sound; keeps].
  all: split; [|done]; apply onward_still; try done; cbn; intros Hn.
  all: destruct Hn as [Hn Hs Hv Hst]; split; [by apply Hc|done..].
Qed.
Lemma keeps_fetch_blocks peer id : keeps (fetch_blocks_from_peer cfg dp peer id).
Proof.
  unfold fetch_blocks_from_peer. apply keeps_bind; [keeps|]. intros i. apply keeps_bind; [keeps|]. intros c.
  apply keeps_bind; [keeps|]. intros [resp|]; [|keeps]. destruct (negb _); [keeps|].
  apply keeps_bind; [keeps|]. intros c'. destruct (reorg_needed _ _); [apply keeps_fetch_reorg|apply keeps_fetch_missing].
Qed.
(** When the download went well, it took a turn. *)
Lemma fetch_blocks_turn peer id h :
  sound (fetch_blocks_from_peer cfg dp peer id)
    (λ h' r, r.1 = true → (length (h_net h') < length (h_net h))%nat) h.
Proof.
  unfold fetch_blocks_from_peer. eapply sound_bind; [apply keeps_or_self|]. intros h1 i H1 _.
  eapply sound_bind; [apply ask_here|]. intros h2 c _ [-> ->].
  eapply sound_bind; [apply request_sound|]. intros h2 [resp|] _ Hr.
  2:{ eapply sound_bind; [apply keeps_unreachable|]. intros. by apply sound_ret. }
  destruct (Hr _ eq_refl) as [_ Hlt]. apply onward_fewer in H1.
  assert (G : ∀ m : M (bool * string), keeps m → sound m (λ h' r, r.1 = true → (length (h_net h') < length (h_net h))%nat) h2).
  { intros m Hm. eapply sound_weaken; [apply Hm|]. intros h3 r H3%onward_fewer _ _. lia. }
  apply G. destruct (negb _); [keeps|]. apply keeps_bind; [keeps|]. intros c'.
  destruct (reorg_needed _ _); [apply keeps_fetch_reorg|apply keeps_fetch_missing].
Qed.
#[local] Hint Resolve keeps_fetch_blocks : keeps.

(** ** Synchronisation *)

Lemma keeps_table (f : Z → PeerOp) : keeps (on_node (λ now, update_table (λ p, peer_step p (f now)))).
Proof. apply keeps_on_node. intros now n. apply table_op. Qed.
Lemma keeps_relay_rotation peer : keeps (relay_rotation_messages_to_peer cfg dp peer).
Proof.
  unfold relay_rotation_messages_to_peer. apply keeps_bind; [keeps|]. intros s. apply keeps_bind; [keeps|]. intros ms.
  induction ms as [|m ms IH]; [keeps|]. cbn beta iota. destruct (negb _); [exact IH|].
  apply keeps_bind; [keeps|]. intros c. case_bool_decide; [exact IH|].
  apply keeps_bind; [by apply keeps_client|]. intros _. apply keeps_bind; [keeps|]. intros [resp|]; [|keeps].
  destruct (starts_with "ok" resp); [exact IH|keeps].
Qed.
Lemma keeps_learn_peers peer id : keeps (learn_peers_from cfg dp peer id).
Proof.
  unfold learn_peers_from. apply keeps_bind; [keeps|]. intros i. apply keeps_bind; [keeps|]. intros [resp|]; [|keeps].
  destruct (negb _); [keeps|]. apply keeps_on_node. intros now n. generalize (getlines "," (Some (str_drop 8 resp))) as l.
  intros l. revert n. induction l as [|x l IH]; intros n; cbn [foldl]; [reflexivity|].
  etrans; [|apply IH]. destruct (_ || _); [reflexivity|]. apply (table_op cfg (AddCandidate now x)).
Qed.
Lemma keeps_advertise peer id : keeps (advertise_to cfg dp peer id).
Proof. unfold advertise_to. keeps. Qed.
Lemma keeps_try_candidates cands : keeps (try_candidates cfg dp cands).
Proof.
  induction cands as [|x cands IH]; cbn [try_candidates]; [keeps|]. apply keeps_bind; [keeps|]. intros r.
  apply keeps_bind; [|done]. destruct (is_ok r); [exact (keeps_table (λ now, PromoteCandidate now x))|exact (keeps_table (λ now, RemoveCandidate x))].
Qed.
Lemma keeps_ask_work peer id : keeps (ask_work cfg dp peer id).
Proof. unfold ask_work. keeps. Qed.
Lemma download_keeps fuel peer id remote_h idle s h :
  (length (h_net h) < fuel)%nat → sound (download cfg dp fuel peer id remote_h idle s) (λ _ _, True) h.
Proof.
  revert remote_h idle s h. induction fuel as [|fuel IH]; intros remote_h idle s h Hf; [lia|]. cbn [download].
  eapply sound_bind; [apply ask_here|]. intros h1 c _ [-> ->]. eapply sound_bind; [apply ask_here|]. intros h1 stop _ [-> ->].
  destruct (_ || _); [by apply sound_ret|]. eapply sound_bind; [apply fetch_blocks_turn|]. intros h1 [fine e] _ Ht. cbn in Ht.
  destruct fine; cbn [negb]; [|by apply sound_ret]. specialize (Ht eq_refl).
  eapply sound_bind; [apply keeps_request|]. intros h2 resp H2%onward_fewer _. destruct (match _ with Some _ => _ | None => _ end) as [rh s'].
  eapply sound_bind; [apply ask_here|]. intros h3 c _ [-> ->].
  destruct (_ =? _); [destruct (_ <=? _)%nat; [by apply sound_ret|]|]; apply IH; lia.
Qed.
#[local] Hint Resolve keeps_relay_rotation keeps_learn_peers keeps_advertise keeps_ask_work : keeps.
Lemma keeps_sync_connected peer id s : keeps (sync_connected cfg dp peer id s).
Proof.
  unfold sync_connected. do 3 (apply keeps_bind; [keeps|]; intros ?). case_match; [|keeps].
  apply keeps_bind; [keeps|]. intros [wid [work|]]; [|keeps]. destruct (have _ work) as [t|]; [|keeps].
  destruct (number t) as [w|]; [|keeps]. apply keeps_bind; [keeps|]. intros c. destruct (_ <=? _); [keeps|].
  apply keeps_bind; [keeps|]. intros [resp|]; [|keeps]. destruct (have _ resp) as [t'|]; [|keeps].
  destruct (number t') as [rh|]; [|keeps]. apply keeps_bind; [keeps|]. intros c'. destruct (_ <=? _); [keeps|].
  intros h. eapply sound_bind; [apply ask_here|]. intros h1 turns _ [-> ->]. apply download_keeps. lia.
Qed.
#[local] Hint Resolve keeps_sync_connected : keeps.
Lemma keeps_sync_peers peers s : keeps (sync_peers cfg dp peers s).
Proof.
  revert s. induction peers as [|peer peers IH]; intros s; cbn [sync_peers]; [keeps|]. apply keeps_bind; [keeps|].
  intros []; [keeps|]. apply keeps_bind; [|apply IH]. unfold sync_peer. keeps.
Qed.
Lemma keeps_sync_once : keeps (sync_once cfg dp).
Proof.
  apply keeps_bind; [|intros r; apply keeps_bind; [|keeps]].
  - unfold sync_once_impl. apply keeps_bind; [keeps|]. intros h. apply keeps_bind; [apply keeps_try_candidates|]. intros _.
    apply keeps_bind; [keeps|]. intros h1. cbv zeta. case_bool_decide; [keeps|].
    apply keeps_bind; [apply keeps_sync_peers|]. intros x. keeps.
  - apply keeps_on_node. intros _ n. by apply local_event_steps.
Qed.

(** ** Gossip *)

Lemma fluff_locally_steps tx (n : Node R W) : steps cfg n (fluff_locally cfg tx n).
Proof. unfold fluff_locally. destruct (fluff_transaction _ _ _) as [l r] eqn:E. by eapply fluff_steps. Qed.
Lemma keeps_request_peer endpoint m : keeps (request_peer cfg dp endpoint m).
Proof.
  unfold request_peer. destruct (negb _); [keeps|]. apply keeps_bind; [|keeps]. apply keeps_on_node. intros now n.
  unfold update_table. cbn beta. destruct (has_peer (s_peers (sessions n)) endpoint); [|apply (table_op cfg (AddPeer now endpoint))].
  destruct n as [? []]. cbn. reflexivity.
Qed.

(** The transactions that are due leave the pool together with their embargoes. *)
Definition fluff_due (n : Node R W) (txid : string) : Node R W :=
  match stempool (stem n) !! txid with
  | None => n
  | Some tx =>
      let d := stem n in
      fluff_locally cfg tx (set_stem (mkStemPool (dandelion d) (router d) (delete txid (stempool d)) (stem_outbound d)) n)
  end.
Lemma fluff_due_all (due : list string) (n : Node R W) :
  NoDup due → dom (stempool (stem n)) = dom (embargo_until (router (stem n))) ∪ list_to_set due →
  (∀ x, x ∈ due → x ∉ dom (embargo_until (router (stem n)))) →
  ∃ d l, foldl fluff_due n due = set_stem d (set_ledger l n) ∧ l_chain l = n_chain n ∧ stem_ok d.
Proof.
  revert n. induction due as [|x due IH]; intros n Hnd Hd Hx; cbn [foldl].
  { exists (stem n), (ledger n). split; [by destruct n|]. split; [done|]. unfold stem_ok. rewrite Hd. set_solver. }
  apply NoDup_cons in Hnd as [Hx' Hnd]. cbn [list_to_set] in Hd.
  assert (Hin : x ∈ dom (stempool (stem n))) by (rewrite Hd; set_solver).
  apply elem_of_dom in Hin as [tx Htx]. unfold fluff_due at 2. rewrite Htx. unfold fluff_locally.
  pose proof (fluff_chain cfg (ledger n) tx) as Hl. cbn [ledger set_stem].
  destruct (fluff_transaction cfg (ledger n) tx) as [l r]. cbn [fst] in *.
  match goal with |- context [foldl _ ?m due] => destruct (IH m) as (d & l' & E & Hl' & Ok) end; cbn [stem set_ledger set_stem stempool router].
  - done.
  - rewrite dom_delete_L, Hd. specialize (Hx x). set_solver.
  - intros y Hy. apply Hx. by right.
  - exists d, l'. rewrite E. split; [done|]. split; [|done]. by rewrite Hl'.
Qed.
Lemma fold_due_table (due : list string) (n m : Node R W) :
  sessions m = sessions n → table_only (sessions n) (sessions (foldl fluff_due m due)).
Proof.
  revert m. induction due as [|x due IH]; intros m Hm; cbn [foldl]; [by rewrite Hm|]. apply IH. rewrite <-Hm.
  unfold fluff_due, fluff_locally. by destruct (_ !! x).
Qed.
Lemma fluff_expired_steps now (n : Node R W) : steps cfg n (fluff_expired cfg now n).
Proof.
  unfold fluff_expired, expired_embargoes. set (late := filter (λ kv, kv.2 <= now) (embargo_until (router (stem n)))).
  set (rest := filter (λ kv, ¬ kv.2 <= now) (embargo_until (router (stem n)))).
  assert (Hp : merge_sort str_le (map_to_list late).*1 ≡ₚ (map_to_list late).*1) by apply merge_sort_Permutation.
  split.
  - intros [Hc Hs Hv Hst].
    match goal with |- node_ok (foldl ?f ?m ?due) => change (node_ok (foldl fluff_due m due)); destruct (fluff_due_all due m) as (d & l & E & Hl & Ok) end.
    + rewrite Hp. apply NoDup_fst_map_to_list.
    + cbn. rewrite Hst, Hp. apply set_eq. intros x. rewrite elem_of_union, elem_of_list_to_set, !elem_of_dom.
      rewrite list_elem_of_fmap. split.
      * intros [u Hu]. destruct (decide (u <= now)) as [Hd|Hd].
        -- right. exists (x, u). split; [done|]. apply elem_of_map_to_list. subst late. by apply map_lookup_filter_Some.
        -- left. exists u. subst rest. by apply map_lookup_filter_Some.
      * intros [[u [Hu _]%map_lookup_filter_Some]|([y u] & -> & [Hu _]%elem_of_map_to_list%map_lookup_filter_Some)]; by exists u.
    + intros x. rewrite Hp. cbn. rewrite list_elem_of_fmap, elem_of_dom.
      intros ([y u] & -> & [Hu Hd]%elem_of_map_to_list%map_lookup_filter_Some) [v [Hw Hd']%map_lookup_filter_Some].
      cbn in *. rewrite Hu in Hw. injection Hw as ->. done.
    + rewrite E. split; [|done|done|done]. unfold n_chain. cbn. by rewrite Hl.
  - by apply fold_due_table.
Qed.
Lemma take_stems_steps (n : Node R W) : steps cfg n (take_stems n).
Proof. by apply stem_steps. Qed.
Lemma fall_back_steps m (n : Node R W) : steps cfg n (fall_back cfg m n).
Proof.
  unfold fall_back. destruct (decode_tx_payload _) as [tx|]; [|reflexivity].
  etrans; [|apply fluff_locally_steps]. apply stem_steps, unstem_ok.
Qed.
Lemma keeps_send_stems queue sent : keeps (send_stems cfg dp queue sent).
Proof.
  revert sent. induction queue as [|[relay m] queue IH]; intros sent; cbn [send_stems]; [keeps|].
  apply keeps_bind; [unfold send_stem; keeps|]. intros []; (apply keeps_bind; [keeps|]; intros _); [apply IH|].
  apply keeps_bind; [|intros _; apply IH]. apply keeps_on_node. intros _ n. apply fall_back_steps.
Qed.
Lemma keeps_flush_stem : keeps (flush_stem cfg dp).
Proof.
  unfold flush_stem. apply keeps_bind; [apply keeps_on_node; intros; apply fluff_expired_steps|]. intros _.
  apply keeps_bind; [keeps|]. intros q. apply keeps_bind; [apply keeps_on_node; intros; apply take_stems_steps|].
  intros _. apply keeps_send_stems.
Qed.
Lemma keeps_push_lines peer id ls sent : keeps (push_lines cfg dp peer id ls sent).
Proof.
  revert sent. induction ls as [|l ls IH]; intros sent; cbn [push_lines]; [keeps|]. apply keeps_bind; [keeps|].
  intros resp. destruct (from_option _ _ _).
  - apply keeps_bind; [|intros; apply IH]. apply keeps_on_node. intros _ n. apply relay_steps.
  - apply keeps_bind; [keeps|]. intros stop. destruct (_ || _); [keeps|apply IH].
Qed.
Lemma keeps_relay_private : keeps (relay_private_messages cfg dp).
Proof.
  unfold relay_private_messages. apply keeps_bind; [keeps|]. intros h. case_bool_decide; [keeps|].
  generalize (iter_set (peers_ (s_peers (sessions (h_node h))))) as l, 0. intros l.
  induction l as [|peer l IH]; intros sent; cbn [relay_to_all]; [keeps|]. apply keeps_bind; [keeps|]. intros h1.
  destruct (h_stop h1); [keeps|]. apply keeps_bind; [|apply IH]. unfold relay_to. apply keeps_bind; [keeps|]. intros h2.
  destruct (skipped _ _ _); [keeps|]. destruct (pm_relay (h_node h2)) as [q|]; [|keeps].
  destruct (undelivered_for (h_now h2) q peer) as [r' ls].
  apply keeps_bind; [apply keeps_on_node; intros _ n; apply relay_steps|]. intros _. case_bool_decide; [keeps|].
  apply keeps_bind; [keeps|]. intros [i|]; [|keeps]. apply keeps_bind; [keeps|]. intros i'. apply keeps_push_lines.
Qed.
Lemma keeps_push_messages peer id ms x : keeps (push_messages cfg dp peer id ms x).
Proof.
  revert x. induction ms as [|m ms IH]; intros x; cbn [push_messages]; [keeps|]. apply keeps_bind; [keeps|]. intros s. cbv zeta.
  destruct (is_empty _); [apply IH|]. apply keeps_bind; [keeps|]. intros [resp|]; [|keeps].
  apply keeps_bind; [keeps|]. intros _. destruct (starts_with _ _); (apply keeps_bind; [keeps|]; intros _; apply IH).
Qed.
Lemma keeps_push_to_all peers ms x : keeps (push_to_all cfg dp peers ms x).
Proof.
  revert x. induction peers as [|peer peers IH]; intros x; cbn [push_to_all]; [keeps|]. apply keeps_bind; [keeps|]. intros h.
  destruct (skipped _ _ _); [apply IH|]. apply keeps_bind; [keeps|]. intros [i|e]; [|apply IH].
  apply keeps_bind; [keeps|]. intros i'. apply keeps_bind; [apply keeps_push_messages|]. intros x'. apply IH.
Qed.
Lemma keeps_flush_gossip : keeps (flush_outbound_gossip cfg dp).
Proof.
  unfold flush_outbound_gossip. apply keeps_bind; [apply keeps_relay_private|]. intros a.
  apply keeps_bind; [apply keeps_flush_stem|]. intros b. apply keeps_bind; [keeps|]. intros out.
  apply keeps_bind; [apply keeps_on_node; intros _ n; by apply ledger_steps|]. intros _.
  apply keeps_bind; [keeps|]. intros h. cbv zeta. case_bool_decide; [keeps|].
  apply keeps_bind; [apply keeps_push_to_all|]. intros x. keeps.
Qed.

(** ** What holds whatever the peers answer *)

(** The operations of the client on which the rest of the program calls. *)
Inductive ClientOp := SyncOnce | FlushGossip | RequestPeer (endpoint m : string).
Definition client_op (o : ClientOp) : M () :=
  match o with
  | SyncOnce => _ ← sync_once cfg dp; mret ()
  | FlushGossip => _ ← flush_outbound_gossip cfg dp; mret ()
  | RequestPeer endpoint m => _ ← request_peer cfg dp endpoint m; mret ()
  end.
Fixpoint client_run (os : list ClientOp) : M () :=
  match os with [] => mret () | o :: os => _ ← client_op o; client_run os end.

Lemma keeps_client_run os : keeps (client_run os).
Proof.
  induction os as [|o os IH]; [apply keeps_ret|]. apply keeps_bind; [|done]. destruct o; (apply keeps_bind; [|keeps]).
  - apply keeps_sync_once.
  - apply keeps_flush_gossip.
  - apply keeps_request_peer.
Qed.


(** C30. Trust of the client: a peer counts as authenticated only after it answered a HELLO with
    an acknowledgement of that very nonce and network, signed with the key pinned for the
    peer, or with a line that old nodes send (which is no proof of anything). *)
Theorem client_authentic os h peer :
  typed_turns (h_net h) → outbound_hs_ok (h_client h) = ∅ →
  let h' := (client_run os h).1 in
  outbound_hs_ok (h_client h') !! peer = Some true →
  ∃ req resp, (peer, [req], [resp]) ∈ h_log h' ∧
    ((∃ pk, genuine_ack req resp pk ∧ pins h' !! peer = Some pk) ∨ persist_leftover_reply resp = true).
Proof.
  cbn zeta. intros Ht He Hp. destruct (keeps_client_run os h) as [[_ _ _ _ Ha] _].
  destruct (Ha Ht peer Hp) as [H|H]; [|done]. by rewrite He in H.
Qed.
End client.
