(* ===== verification/StateStore.v ===== *)
(** * The files of a node ([src/state_store.cpp])

    Each file is a text of lines. Writing and renaming files is not modelled: a store is
    the contents of its files, [None] a file that is missing. Numbers are read by
    [std::stoull], which may throw; an exception is [None] and is caught at the end of
    loading. *)
From S2P Require Import Prelude ConsensusRules Strings Lines Crypto Types Wire Block Staking Shielded Script.
From S2P Require Import Chain ChainBlock Mempool Peers.

(** Exceptions under errors. *)
Definition outcome (A : Type) : Type := option (result A).
Definition ok {A} (a : A) : outcome A := Some (Ok a).
Definition err {A} (e : string) : outcome A := Some (Err e).
#[export] Instance outcome_bind : MBind outcome := λ A B f m,
  match m with None => None | Some (Err e) => Some (Err e) | Some (Ok a) => f a end.

Definition stoull_or_throw (s : string) : outcome Z :=
  match number s with Some v => ok v | None => None end.

(** ** Transactions *)

Definition line (fs : list string) : string := join "|" fs.
Definition input_lines (i : TxInput) : list string :=
  line ["I"; previous_txid i; to_string (output_index i)] ::
  (if is_empty (witness i) then [] else ["W|" +:+ witness i]).
Definition output_line (o : TxOutput) : string := line ["O"; recipient o; to_string (amount o)].
Definition tx_to_lines (tx : Transaction) : list string :=
  line ["T"; signer tx; signer_pubkey tx; signature tx; to_string (fee tx); to_string (nonce tx)] ::
  concat (input_lines <$> inputs tx) ++ (output_line <$> outputs tx) ++
  (if is_empty (shielded tx) then [] else ["S|" +:+ shielded tx]) ++ ["E"].
Definition tx_to_line (tx : Transaction) : string := unlines (tx_to_lines tx).

Definition add_input (i : TxInput) (tx : Transaction) : Transaction :=
  mkTransaction (inputs tx ++ [i]) (outputs tx) (signer tx) (signer_pubkey tx) (signature tx) (fee tx) (nonce tx)
    (shielded tx).
Definition add_output (o : TxOutput) (tx : Transaction) : Transaction :=
  mkTransaction (inputs tx) (outputs tx ++ [o]) (signer tx) (signer_pubkey tx) (signature tx) (fee tx) (nonce tx)
    (shielded tx).
(** [tx.inputs.back().witness = w] *)
Definition set_witness (w : string) (tx : Transaction) : option Transaction :=
  match last (inputs tx) with
  | None => None
  | Some i => Some (mkTransaction (removelast (inputs tx) ++ [mkTxInput (previous_txid i) (output_index i) w])
                (outputs tx) (signer tx) (signer_pubkey tx) (signature tx) (fee tx) (nonce tx) (shielded tx))
  end.

(** One tagged line of a transaction, the text after the tag on a stream. *)
Definition parse_tx_line (tag : ascii) (body : string) (tx : Transaction) : outcome Transaction :=
  if Ascii.eqb tag "I" then
    let '(txid, ls) := getline "|" (Some body) in
    idx ← stoull_or_throw (getline nl ls).1;
    ok (add_input (mkTxInput txid (u32 idx) "") tx)
  else if Ascii.eqb tag "W" then
    match set_witness body tx with None => err "witness without input" | Some tx => ok tx end
  else if Ascii.eqb tag "O" then
    let '(rc, ls) := getline "|" (Some body) in
    amt ← stoull_or_throw (getline nl ls).1;
    ok (add_output (mkTxOutput rc amt) tx)
  else if Ascii.eqb tag "T" then
    let '(sg, ls) := getline "|" (Some body) in
    let '(pk, ls) := getline "|" ls in
    let '(sig, ls) := getline "|" ls in
    let '(fee, ls) := getline "|" ls in
    let '(nonce, _) := getline nl ls in
    fee ← stoull_or_throw fee;
    nonce ← stoull_or_throw nonce;
    ok (mkTransaction (inputs tx) (outputs tx) sg pk sig fee nonce (shielded tx))
  else if Ascii.eqb tag "S" then
    ok (mkTransaction (inputs tx) (outputs tx) (signer tx) (signer_pubkey tx) (signature tx) (fee tx) (nonce tx)
         (getline nl (Some body)).1)
  else err "unknown tx tag".
Fixpoint parse_tx_lines (tx : Transaction) (ls : list string) : outcome Transaction :=
  match ls with
  | [] => err "unterminated tx block"
  | l :: ls =>
      if String.eqb l "E" then ok tx
      else match l with
           | String tag (String "|" body) => tx ← parse_tx_line tag body tx; parse_tx_lines tx ls
           | _ => err "invalid tx line"
           end
  end.
(** The lines of a transaction: up to its [E], or to the end of the file. *)
Fixpoint take_tx (ls : list string) : list string * list string :=
  match ls with
  | [] => ([], [])
  | l :: ls => if String.eqb l "E" then ([l], ls) else let '(a, b) := take_tx ls in (l :: a, b)
  end.

(** ** Votes *)

Definition vote_fields (v : StakeVote) : string :=
  line [ticket_id v; to_string (voted_height v); voted_hash v; if approve v then "1" else "0"; vote_signature v].
(** [Err] is a field that is missing, [None] a height that is no number. *)
Definition parse_vote_fields (st : stream) : outcome (StakeVote * stream) :=
  match '(tid, st) ← getline_ok "|" st;
        '(h, st) ← getline_ok "|" st;
        '(hash, st) ← getline_ok "|" st;
        '(a, st) ← getline_ok "|" st;
        '(sig, st) ← getline_ok "|" st;
        Some (tid, h, hash, a, sig, st) with
  | None => err ""
  | Some (tid, h, hash, a, sig, st) =>
      h ← stoull_or_throw h;
      ok (mkStakeVote tid h hash (String.eqb a "1") sig, st)
  end.
Definition or_error {A} (e : string) (m : outcome A) : outcome A :=
  match m with Some (Err _) => err e | m => m end.

(** ** Blocks *)

Definition header_line (h : BlockHeader) : string :=
  line ["B"; to_string (height h); previous_hash h; to_string (timestamp h); to_string (header_nonce h);
        to_string (difficulty_target h); merkle_root h].
Definition vote_line (v : StakeVote) : string := "V|" +:+ vote_fields v.
Definition slash_line (e : SlashEvidence) : string := "S|" +:+ vote_fields (ev_a e) +:+ "|" +:+ vote_fields (ev_b e).
Definition block_lines (b : Block) : list string :=
  header_line (header b) :: concat (tx_to_lines <$> transactions b) ++ (vote_line <$> votes b) ++
  (slash_line <$> slashes b) ++ ["Z"].

(** The numbers are read through one text [h], which keeps the last field when the line
    ends early. *)
Definition parse_header (body : string) : outcome BlockHeader :=
  let '(h, st) := getline "|" (Some body) in
  ht ← stoull_or_throw h;
  let '(prev, st) := getline "|" st in
  let '(h, st) := getline_into h "|" st in
  ts ← stoull_or_throw h;
  let '(h, st) := getline_into h "|" st in
  n ← stoull_or_throw h;
  let '(h, st) := getline_into h "|" st in
  t ← stoull_or_throw h;
  ok (mkBlockHeader ht prev ts n t (getline nl st).1).

(** The lines after the header, to the [Z] or the end of the file. *)
Fixpoint parse_body (fuel : nat) (b : Block) (ls : list string) : outcome (Block * list string) :=
  match fuel, ls with
  | O, _ | _, [] => ok (b, [])
  | S fuel, l :: ls =>
      if String.eqb l "Z" then ok (b, ls)
      else if starts_with "V|" l then
        '(v, _) ← or_error "chain load failed: invalid vote line" (parse_vote_fields (Some (str_drop 2 l)));
        parse_body fuel (mkBlock (header b) (transactions b) (votes b ++ [v]) (slashes b)) ls
      else if starts_with "S|" l then
        '(a, b') ← or_error "chain load failed: invalid slash line"
           ('(a, st) ← parse_vote_fields (Some (str_drop 2 l));
            '(b', _) ← parse_vote_fields st; ok (a, b'));
        parse_body fuel (mkBlock (header b) (transactions b) (votes b) (slashes b ++ [mkSlashEvidence a b'])) ls
      else if starts_with "T|" l then
        let '(t, ls) := take_tx ls in
        tx ← match parse_tx_lines empty_transaction (l :: t) with
               | Some (Err e) => err ("chain load failed: " +:+ e)
               | m => m
               end;
        parse_body fuel (mkBlock (header b) (transactions b ++ [tx]) (votes b) (slashes b)) ls
      else parse_body fuel b ls
  end.

Section store.
Context {C : Crypto} {ST : Stark} (cfg : ChainConfig) (network_mode : string).

Definition kTestnetNetworkId : string := "ADDITION_TESTNET_V1".
Definition genesis_block (c : Chain) : Block := nth 0 (blocks c) (mkBlock (mkBlockHeader 0 "" 0 0 0 "") [] [] []).

Definition save_chain (c : Chain) : string :=
  unlines
    ((if String.eqb (network_id cfg) kTestnetNetworkId then []
      else [line ["N"; network_id cfg; network_mode; hash_block_header (header (genesis_block c))]]) ++
     concat (block_lines <$> filter (λ b, height (header b) ≠ 0) (blocks c))).

(** The loop over the blocks; the chain keeps the blocks loaded before an error. *)
Fixpoint load_blocks (now : Z) (fuel : nat) (c : Chain) (ls : list string) : Chain * outcome () :=
  match fuel, ls with
  | O, _ | _, [] => (c, ok ())
  | S fuel, l :: ls =>
      if is_empty l then load_blocks now fuel c ls
      else if starts_with "N|" l then
        let nid := (getline "|" (Some (str_drop 2 l))).1 in
        if negb (String.eqb nid (network_id cfg))
        then (c, err ("chain load failed: blocks.dat network_id=" +:+ nid +:+ " does not match " +:+ network_id cfg))
        else load_blocks now fuel c ls
      else if negb (starts_with "B|" l) then load_blocks now fuel c ls
      else
        match (h ← parse_header (str_drop 2 l); parse_body (S (length ls)) (mkBlock h [] [] []) ls) with
        | None => (c, None)
        | Some (Err e) => (c, err e)
        | Some (Ok (b, ls)) =>
            match add_block cfg now c b with
            | (c, Ok _) => load_blocks now fuel c ls
            | (c, Err e) => (c, err ("chain load failed: failed to replay block: " +:+ e))
            end
        end
  end.
(** [what] is the text of the exception. *)
Definition load_chain (what : string) (now : Z) (c : Chain) (file : option string) : Chain * result () :=
  match file with
  | None => (c, Ok ())
  | Some content =>
      let ls := getlines nl (Some content) in
      match load_blocks now (S (length ls)) c ls with
      | (c, Some r) => (c, r)
      | (c, None) => (c, Err ("chain load failed: state parse exception: " +:+ what))
      end
  end.

(** ** The network marker *)

Definition write_network_marker (c : Chain) : string :=
  unlines ["network_id=" +:+ network_id cfg; "network_mode=" +:+ network_mode;
           "genesis_timestamp=" +:+ to_string (genesis_timestamp cfg);
           "genesis_hash=" +:+ hash_block_header (header (genesis_block c))].
Definition scan_marker (acc : string * string) (l : string) : string * string :=
  if starts_with "network_id=" l then (str_drop 11 l, acc.2)
  else if starts_with "network_mode=" l then (acc.1, str_drop 13 l) else acc.
Definition check_network_marker (content : string) : result () :=
  let '(sid, smode) := foldl scan_marker ("", "") (getlines nl (Some content)) in
  reject_if negb (String.eqb sid (network_id cfg)) || negb (String.eqb smode network_mode)
    as "data-dir network marker mismatch: stored " +:+ sid +:+ "/" +:+ smode +:+ " vs running " +:+
       network_id cfg +:+ "/" +:+ network_mode ;;
  Ok ().
(** The new contents of the file. *)
Definition ensure_network_marker (c : Chain) (file : option string) : option string * result () :=
  match file with
  | Some content => (file, check_network_marker content)
  | None => (Some (write_network_marker c), Ok ())
  end.

(** ** Mempool, peers, keys *)

Definition save_mempool (m : Mempool) : string := unlines (concat (tx_to_lines <$> snapshot m)).
Fixpoint load_txs (fuel : nat) (ls : list string) : outcome (list Transaction) :=
  match fuel, ls with
  | O, _ | _, [] => ok []
  | S fuel, l :: ls =>
      if starts_with "T|" l then
        let '(t, ls) := take_tx ls in
        tx ← parse_tx_lines empty_transaction (l :: t);
        txs ← load_txs fuel ls;
        ok (tx :: txs)
      else load_txs fuel ls
  end.
(** The pool is replaced only when the whole file was read. *)
Definition load_mempool (m : Mempool) (file : option string) : Mempool * outcome () :=
  match file with
  | None => (m, ok ())
  | Some content =>
      let ls := getlines nl (Some content) in
      match load_txs (S (length ls)) ls with
      | Some (Ok txs) => (replace m txs, ok ())
      | Some (Err e) => (m, err e)
      | None => (m, None)
      end
  end.
End store.

Definition save_peers (p : PeerNetwork) : string := unlines (elements (peers_ p)).
Definition load_peers (now : Z) (p : PeerNetwork) (file : option string) : PeerNetwork :=
  match file with
  | None => p
  | Some content =>
      foldl (λ p l, if is_empty l then p else (add_peer now p l).1) p (getlines nl (Some content))
  end.

Definition save_identity (pk : string) : string := unlines ["PUB|" +:+ pk].
Definition check_identity (pk : string) (file : option string) : result () :=
  match file with
  | None => Ok ()
  | Some content =>
      let pub := foldl (λ acc l, if starts_with "PUB|" l then str_drop 4 l else acc) "" (getlines nl (Some content)) in
      reject_if negb (is_empty pub) && negb (String.eqb pub pk) as "node public key mismatch with persisted identity" ;;
      Ok ()
  end.

(** The pins, in the order a listing of the map gives. *)
Definition save_pins (pins : list (string * string)) : string := unlines ((λ kv, kv.1 +:+ "|" +:+ kv.2) <$> pins).
Definition load_pins (file : option string) : list (string * string) :=
  match file with
  | None => []
  | Some content =>
      omap (λ l, match cut "|" l with
                 | (peer, Some pk) => if is_empty peer || is_empty pk then None else Some (peer, pk)
                 | _ => None
                 end) (getlines nl (Some content))
  end.
