(* ===== verification/StateStoreProofs.v ===== *)
(** * A saved chain is loaded back *)
From S2P Require Import Prelude ConsensusRules Strings Lines Crypto Types Wire Block Staking Shielded Script.
From S2P Require Import Chain ChainBlock ChainProofs Mempool MempoolProofs Peers StateStore.

(** ** What a file can hold: texts without separators, numbers in range *)

Definition text (s : string) : Prop := free_of nl s = true.
Definition input_storable (i : TxInput) : Prop :=
  Lines.field (previous_txid i) ∧ is_u32 (output_index i) ∧ text (witness i).
Definition output_storable (o : TxOutput) : Prop := Lines.field (recipient o) ∧ is_u64 (amount o).
Definition tx_storable (tx : Transaction) : Prop :=
  Lines.field (signer tx) ∧ Lines.field (signer_pubkey tx) ∧ Lines.field (signature tx) ∧ is_u64 (fee tx) ∧
  is_u64 (nonce tx) ∧ Forall input_storable (inputs tx) ∧ Forall output_storable (outputs tx) ∧ text (shielded tx).
Definition vote_storable (v : StakeVote) : Prop :=
  Lines.field (ticket_id v) ∧ is_u64 (voted_height v) ∧ Lines.field (voted_hash v) ∧
  Lines.field (vote_signature v) ∧ vote_signature v ≠ "".
Definition block_storable (b : Block) : Prop :=
  header_u64 (header b) ∧ height (header b) ≠ 0 ∧ Lines.field (previous_hash (header b)) ∧
  Lines.field (merkle_root (header b)) ∧ Forall tx_storable (transactions b) ∧ Forall vote_storable (votes b) ∧
  Forall (λ e, vote_storable (ev_a e) ∧ vote_storable (ev_b e)) (slashes b).
#[export] Instance input_storable_dec i : Decision (input_storable i).
Proof. unfold input_storable, text. apply _. Defined.
#[export] Instance output_storable_dec o : Decision (output_storable o).
Proof. unfold output_storable. apply _. Defined.
#[export] Instance tx_storable_dec tx : Decision (tx_storable tx).
Proof. unfold tx_storable, text. apply _. Defined.
#[export] Instance vote_storable_dec v : Decision (vote_storable v).
Proof. unfold vote_storable. apply _. Defined.
#[export] Instance block_storable_dec b : Decision (block_storable b).
Proof. unfold block_storable, header_u64. apply _. Defined.

(** ** Transactions *)

Lemma stoull_to_string_ok z : is_u64 z → stoull_or_throw (to_string z) = ok z.
Proof. intros Hz. unfold stoull_or_throw. by rewrite number_to_string. Qed.
Lemma to_string_nl z : free_of nl (to_string z) = true.
Proof. by apply to_string_free_of. Qed.
Lemma to_string_bar z : free_of "|" (to_string z) = true.
Proof. by apply to_string_free_of. Qed.
Lemma getline_cut c f r : free_of c f = true → getline c (Some (f +:+ String c r)) = (f, Some r).
Proof. apply cut_app. Qed.
Lemma getline_into_Some old c s : getline_into old c (Some s) = getline c (Some s).
Proof. done. Qed.
#[local] Hint Resolve to_string_nl to_string_bar : core.

(** A tagged line of a transaction. *)
Lemma parse_tx_lines_step tx tag body ls :
  parse_tx_lines tx (String tag (String "|" body) :: ls) = (tx ← parse_tx_line tag body tx; parse_tx_lines tx ls).
Proof.
  cbn [parse_tx_lines]. assert (E : String.eqb (String tag (String "|" body)) "E" = false).
  { cbn. by destruct (Ascii.eqb tag "E"). }
  by rewrite E.
Qed.

Lemma last_app_one {A} (l : list A) x : last (l ++ [x]) = Some x ∧ removelast (l ++ [x]) = l.
Proof. split; [by rewrite last_snoc|apply removelast_last]. Qed.

Lemma parse_input tx i ls :
  input_storable i → parse_tx_lines tx (input_lines i ++ ls) = parse_tx_lines (add_input i tx) ls.
Proof.
  intros ([Hf1 Hf2] & Hu & Hw). unfold input_lines, line. cbn [join app].
  change ("I" +:+ String "|" ?x) with (String "I" (String "|" x)). rewrite parse_tx_lines_step.
  assert (E : parse_tx_line "I" (previous_txid i +:+ String "|" (to_string (output_index i))) tx =
    ok (add_input (mkTxInput (previous_txid i) (output_index i) "") tx)).
  { unfold parse_tx_line. cbn [Ascii.eqb Bool.eqb]. rewrite getline_cut by done.
    rewrite getline_last by auto. cbn [fst]. rewrite stoull_to_string_ok by (unfold is_u32, is_u64 in *; lia).
    cbn [mbind outcome_bind ok]. by rewrite u32_small. }
  rewrite E. cbn [mbind outcome_bind ok]. destruct (is_empty (witness i)) eqn:Ew.
  - apply is_empty_true in Ew. destruct i as [txid idx w]. cbn in Ew |- *. by rewrite Ew.
  - cbn [app]. change ("W|" +:+ ?x) with (String "W" (String "|" x)). rewrite parse_tx_lines_step.
    assert (E2 : set_witness (witness i) (add_input (mkTxInput (previous_txid i) (output_index i) "") tx) =
      Some (add_input i tx)).
    { unfold set_witness, add_input. cbn [inputs outputs signer signer_pubkey signature fee nonce shielded].
      destruct (last_app_one (inputs tx) (mkTxInput (previous_txid i) (output_index i) "")) as [-> ->]. by destruct i. }
    unfold parse_tx_line. cbn [Ascii.eqb Bool.eqb]. by rewrite E2.
Qed.
Lemma parse_output tx o ls :
  output_storable o → parse_tx_lines tx (output_line o :: ls) = parse_tx_lines (add_output o tx) ls.
Proof.
  intros ([Hf1 Hf2] & Hu). unfold output_line, line. cbn [join app].
  change ("O" +:+ String "|" ?x) with (String "O" (String "|" x)). rewrite parse_tx_lines_step.
  unfold parse_tx_line. cbn [Ascii.eqb Bool.eqb]. rewrite getline_cut by done. rewrite getline_last by auto. cbn [fst].
  rewrite stoull_to_string_ok by done. cbn [mbind outcome_bind ok]. by destruct o.
Qed.
Lemma parse_inputs tx ins ls :
  Forall input_storable ins →
  parse_tx_lines tx (concat (input_lines <$> ins) ++ ls) = parse_tx_lines (foldl (λ t i, add_input i t) tx ins) ls.
Proof.
  intros H. revert tx. induction H as [|i ins Hi _ IH]; intros tx; [done|]. cbn [fmap list_fmap concat foldl].
  rewrite <-app_assoc, parse_input by done. apply IH.
Qed.
Lemma parse_outputs tx os ls :
  Forall output_storable os →
  parse_tx_lines tx ((output_line <$> os) ++ ls) = parse_tx_lines (foldl (λ t o, add_output o t) tx os) ls.
Proof.
  intros H. revert tx. induction H as [|o os Ho _ IH]; intros tx; [done|]. cbn [fmap list_fmap app foldl].
  rewrite parse_output by done. apply IH.
Qed.
Lemma fold_inputs tx ins :
  foldl (λ t i, add_input i t) tx ins =
  mkTransaction (inputs tx ++ ins) (outputs tx) (signer tx) (signer_pubkey tx) (signature tx) (fee tx) (nonce tx) (shielded tx).
Proof.
  revert tx. induction ins as [|i ins IH]; intros tx; cbn [foldl]; [rewrite app_nil_r; by destruct tx|].
  rewrite IH. unfold add_input. cbn. by rewrite <-app_assoc.
Qed.
Lemma fold_outputs tx os :
  foldl (λ t o, add_output o t) tx os =
  mkTransaction (inputs tx) (outputs tx ++ os) (signer tx) (signer_pubkey tx) (signature tx) (fee tx) (nonce tx) (shielded tx).
Proof.
  revert tx. induction os as [|o os IH]; intros tx; cbn [foldl]; [rewrite app_nil_r; by destruct tx|].
  rewrite IH. unfold add_output. cbn. by rewrite <-app_assoc.
Qed.

Lemma parse_tx_to_lines tx : tx_storable tx → parse_tx_lines empty_transaction (tx_to_lines tx) = ok tx.
Proof.
  intros ([Hs1 Hs2] & [Hp1 Hp2] & [Hg1 Hg2] & Hf & Hn & Hi & Ho & Hsh). unfold tx_to_lines, line. cbn [join].
  change ("T" +:+ String "|" ?x) with (String "T" (String "|" x)). rewrite parse_tx_lines_step.
  unfold parse_tx_line. cbn [Ascii.eqb Bool.eqb].
  rewrite !getline_cut by auto. rewrite getline_last by auto. rewrite !stoull_to_string_ok by done.
  cbn [mbind outcome_bind ok]. rewrite parse_inputs, parse_outputs, fold_outputs, fold_inputs by done.
  cbn [inputs outputs signer signer_pubkey signature fee nonce shielded app].
  destruct (is_empty (shielded tx)) eqn:Es.
  - apply is_empty_true in Es. cbn [app parse_tx_lines]. change (String.eqb "E" "E") with true. cbv iota.
    destruct tx. cbn in Es. by rewrite Es.
  - cbn [app]. change ("S|" +:+ ?x) with (String "S" (String "|" x)). rewrite parse_tx_lines_step.
    unfold parse_tx_line. cbn [Ascii.eqb Bool.eqb]. rewrite getline_last by done. cbn [fst mbind outcome_bind ok].
    cbn [parse_tx_lines]. change (String.eqb "E" "E") with true. cbv iota. by destruct tx.
Qed.

(** A tagged line is never the end mark. *)
Definition tagged (l : string) : Prop := ∃ t r, l = String t (String "|" r).
Lemma tx_lines_tagged tx : ∃ ls, tx_to_lines tx = ls ++ ["E"] ∧ Forall tagged ls.
Proof.
  unfold tx_to_lines. eexists. split; [by rewrite !app_comm_cons, !app_assoc|].
  rewrite !Forall_app. split_and!.
  - apply Forall_cons. split; [by eexists _, _|]. apply Forall_concat, Forall_fmap, Forall_true. intros i. cbn.
    unfold input_lines. apply Forall_cons. split; [by eexists _, _|]. destruct (is_empty _); [done|].
    apply Forall_singleton. by eexists _, _.
  - apply Forall_fmap, Forall_true. intros o. by eexists _, _.
  - destruct (is_empty _); [done|]. apply Forall_singleton. by eexists _, _.
Qed.
Lemma tx_lines_shape tx : ∃ r ls, tx_to_lines tx = String "T" (String "|" r) :: ls ++ ["E"] ∧ Forall tagged ls.
Proof.
  destruct (tx_lines_tagged tx) as (l & El & Hl).
  assert (Hh : ∃ r, head (tx_to_lines tx) = Some (String "T" (String "|" r))) by by eexists.
  destruct Hh as [r Hh]. rewrite El in Hh. destruct l as [|x l']; [done|]. injection Hh as ->.
  apply Forall_cons in Hl as [_ Hl]. by exists r, l'.
Qed.
Lemma take_tx_tagged ls rest : Forall tagged ls → take_tx (ls ++ "E" :: rest) = (ls ++ ["E"], rest).
Proof.
  induction 1 as [|l ls (t & r & ->) _ IH]; [done|]. cbn [app take_tx]. rewrite IH.
  assert (E : String.eqb (String t (String "|" r)) "E" = false) by (cbn; by destruct (Ascii.eqb t "E")). by rewrite E.
Qed.

(** ** Votes *)

Lemma getline_ok_cut c f r : free_of c f = true → getline_ok c (Some (f +:+ String c r)) = Some (f, Some r).
Proof. intros Hf. unfold getline_ok. destruct (f +:+ String c r) eqn:E; [by destruct f|]. by rewrite <-E, cut_app. Qed.
Lemma getline_ok_last c f : f ≠ "" → free_of c f = true → getline_ok c (Some f) = Some (f, None).
Proof. intros Hne Hf. unfold getline_ok. destruct f as [|x f]; [done|]. f_equal. by apply (getline_last c (String x f)). Qed.

(** A vote is read before the end of the line and before another separator. *)
Lemma parse_vote v (r : option string) :
  vote_storable v →
  parse_vote_fields (Some (vote_fields v +:+ from_option (String "|") "" r)) = ok (v, r).
Proof.
  intros ([Ht1 Ht2] & Hu & [Hh1 Hh2] & [Hs1 Hs2] & Hne). unfold parse_vote_fields, vote_fields, line. cbn [join].
  set (a := if approve v then "1" else "0"). assert (Ha : free_of "|" a = true) by (subst a; by destruct (approve v)).
  rewrite !str_app_assoc, ?str_app_cons, ?str_app_assoc, ?str_app_cons, ?str_app_assoc, ?str_app_cons, ?str_app_assoc,
    ?str_app_cons, ?str_app_assoc.
  do 4 (rewrite getline_ok_cut by auto; cbn [mbind option_bind]).
  assert (Hsig : getline_ok "|" (Some (vote_signature v +:+ from_option (String "|") "" r)) = Some (vote_signature v, r)).
  { destruct r as [r|]; cbn [from_option]; [by apply getline_ok_cut|]. rewrite str_app_nil_r. by apply getline_ok_last. }
  rewrite Hsig. cbn [mbind option_bind]. rewrite stoull_to_string_ok by done. cbn [mbind outcome_bind ok].
  subst a. by destruct v as [tid h hash [] sig].
Qed.
Lemma parse_vote_last v : vote_storable v → parse_vote_fields (Some (vote_fields v)) = ok (v, None).
Proof. intros Hv. pose proof (parse_vote v None Hv) as H. cbn in H. by rewrite str_app_nil_r in H. Qed.

(** ** Blocks *)

Definition with_txs (b : Block) (txs : list Transaction) : Block := mkBlock (header b) (transactions b ++ txs) (votes b) (slashes b).

Lemma parse_body_tx fuel b tx ls :
  tx_storable tx → parse_body (S fuel) b (tx_to_lines tx ++ ls) = parse_body fuel (with_txs b [tx]) ls.
Proof.
  intros Htx. pose proof (parse_tx_to_lines tx Htx) as Hp. destruct (tx_lines_shape tx) as (r & l' & El & Hl').
  rewrite El in *. cbn [app]. rewrite <-?app_assoc. cbn [app].
  cbn [parse_body]. assert (E1 : String.eqb (String "T" (String "|" r)) "Z" = false) by done. rewrite E1.
  assert (E2 : starts_with "V|" (String "T" (String "|" r)) = false) by done. rewrite E2.
  assert (E3 : starts_with "S|" (String "T" (String "|" r)) = false) by done. rewrite E3.
  assert (E4 : starts_with "T|" (String "T" (String "|" r)) = true) by (by destruct r). rewrite E4.
  rewrite take_tx_tagged by done. cbn [app] in Hp. rewrite Hp. cbn [mbind outcome_bind ok]. done.
Qed.
Lemma parse_body_txs fuel b txs ls :
  Forall tx_storable txs →
  parse_body (length txs + fuel) b (concat (tx_to_lines <$> txs) ++ ls) = parse_body fuel (with_txs b txs) ls.
Proof.
  intros H. revert b. induction H as [|tx txs Htx _ IH]; intros b; cbn [length Nat.add fmap list_fmap concat].
  { unfold with_txs. rewrite app_nil_r. by destruct b. }
  rewrite <-app_assoc, parse_body_tx, IH by done. unfold with_txs. cbn. by rewrite <-app_assoc.
Qed.
Lemma parse_body_votes fuel b vs ls :
  Forall vote_storable vs →
  parse_body (length vs + fuel) b ((vote_line <$> vs) ++ ls) =
  parse_body fuel (mkBlock (header b) (transactions b) (votes b ++ vs) (slashes b)) ls.
Proof.
  intros H. revert b. induction H as [|v vs Hv _ IH]; intros b; cbn [length Nat.add fmap list_fmap app].
  { rewrite app_nil_r. by destruct b. }
  cbn [parse_body]. assert (E1 : String.eqb (vote_line v) "Z" = false) by done. rewrite E1.
  assert (E2 : starts_with "V|" (vote_line v) = true) by (unfold vote_line; by destruct (vote_fields v)). rewrite E2.
  change (str_drop 2 (vote_line v)) with (vote_fields v). rewrite parse_vote_last by done.
  cbn [or_error ok mbind outcome_bind]. rewrite IH. cbn. by rewrite <-app_assoc.
Qed.
Lemma parse_body_slashes fuel b es ls :
  Forall (λ e, vote_storable (ev_a e) ∧ vote_storable (ev_b e)) es →
  parse_body (length es + fuel) b ((slash_line <$> es) ++ ls) =
  parse_body fuel (mkBlock (header b) (transactions b) (votes b) (slashes b ++ es)) ls.
Proof.
  intros H. revert b. induction H as [|e es [Ha Hb] _ IH]; intros b; cbn [length Nat.add fmap list_fmap app].
  { rewrite app_nil_r. by destruct b. }
  cbn [parse_body]. assert (E1 : String.eqb (slash_line e) "Z" = false) by done. rewrite E1.
  assert (E2 : starts_with "V|" (slash_line e) = false) by done. rewrite E2.
  assert (E3 : starts_with "S|" (slash_line e) = true) by (unfold slash_line; by destruct (vote_fields (ev_a e))). rewrite E3.
  change (str_drop 2 (slash_line e)) with (vote_fields (ev_a e) +:+ from_option (String "|") "" (Some (vote_fields (ev_b e)))).
  rewrite parse_vote by done. cbn [mbind outcome_bind ok]. rewrite parse_vote_last by done. cbn [mbind outcome_bind ok or_error].
  rewrite IH. cbn. rewrite <-app_assoc. by destruct e.
Qed.

Lemma parse_header_line h :
  header_u64 h → Lines.field (previous_hash h) → Lines.field (merkle_root h) →
  parse_header (str_drop 2 (header_line h)) = ok h.
Proof.
  intros (H1 & H2 & H3 & H4) [Hp1 Hp2] [Hm1 Hm2]. unfold header_line, line. cbn [join].
  change (str_drop 2 ("B" +:+ String "|" ?x)) with x. unfold parse_header.
  repeat (rewrite ?getline_into_Some; rewrite getline_cut by auto; rewrite ?stoull_to_string_ok by done; cbn [mbind outcome_bind ok]).
  rewrite getline_last by auto. cbn [fst]. by destruct h.
Qed.

Lemma block_lines_parse b ls :
  block_storable b →
  (h ← parse_header (str_drop 2 (header_line (header b)));
   parse_body (S (length (tail (block_lines b) ++ ls))) (mkBlock h [] [] []) (tail (block_lines b) ++ ls)) = ok (b, ls).
Proof.
  intros (Hh & _ & Hp & Hm & Ht & Hv & Hs). rewrite parse_header_line by done. cbn [mbind outcome_bind ok].
  unfold block_lines. cbn [tail]. set (t := concat (tx_to_lines <$> transactions b)).
  assert (Hl : (length (transactions b) ≤ length t)%nat).
  { subst t. clear. induction (transactions b) as [|tx l IH]; [done|]. cbn [fmap list_fmap concat length]. rewrite length_app.
    change (length (tx_to_lines tx)) with (S (length (tail (tx_to_lines tx)))). lia. }
  set (total := S _). assert (Hf : ∃ k, total = (length (transactions b) + (length (votes b) + (length (slashes b) + S k)))%nat).
  { exists (total - length (transactions b) - length (votes b) - length (slashes b) - 1)%nat.
    subst total. rewrite !length_app, !length_fmap. cbn [length]. lia. }
  destruct Hf as [k ->]. subst t. rewrite <-!app_assoc.
  rewrite parse_body_txs, parse_body_votes, parse_body_slashes by done.
  cbn [app parse_body]. change (String.eqb "Z" "Z") with true. cbv iota. by destruct b.
Qed.

(** ** The chain *)

Section chain.
Context {C : Crypto} {ST : Stark} (cfg : ChainConfig) (network_mode : string).

(** The only test of a block that reads the clock. *)
Definition in_time (now : Z) (b : Block) : Prop :=
  timestamp (header b) ≤ u64 (now + u64 (kFutureTimeLimitBlocks * Z.max 1 (target_block_time_sec cfg))).

#[export] Instance in_time_dec now b : Decision (in_time now b).
Proof. unfold in_time. apply _. Defined.

Lemma add_block_later now0 now c b c' :
  in_time now b → add_block cfg now0 c b = (c', Ok ()) → add_block cfg now c b = (c', Ok ()).
Proof.
  intros Ht. unfold add_block. destruct (_ <? _); [done|].
  destruct (validate_block_header cfg now0 c b) as [[]|] eqn:E; [|done].
  assert (E' : validate_block_header cfg now c b = Ok ()).
  { unfold validate_block_header in *. unfold in_time in Ht. peel E.
    match goal with H : (_ <=? _) && _ = false |- _ => clear H end.
    rewrite (proj2 (Z.ltb_ge _ (timestamp (header b))) Ht), andb_false_r. exact E. }
  by rewrite E'.
Qed.

Fixpoint add_all (now : Z) (c : Chain) (bs : list Block) (c' : Chain) : Prop :=
  match bs with [] => c = c' | b :: bs => ∃ c1, add_block cfg now c b = (c1, Ok ()) ∧ add_all now c1 bs c' end.
Lemma add_all_snoc now c bs c1 b c2 :
  add_all now c bs c1 → add_block cfg now c1 b = (c2, Ok ()) → add_all now c (bs ++ [b]) c2.
Proof.
  revert c. induction bs as [|b' bs IH]; intros c; cbn [app add_all].
  - intros -> H. by exists c2.
  - intros (c0 & H0 & H) Hb. exists c0. split; [done|]. by apply IH.
Qed.
Lemma built_add_all now c bs :
  built cfg c bs → Forall (in_time now) bs → add_all now (reset cfg) bs c.
Proof.
  induction 1 as [|now0 c bs b c' _ IH _ Hb]; intros Ht; [done|].
  apply Forall_app in Ht as [Ht Hbt]. rewrite Forall_singleton in Hbt. eapply add_all_snoc; [by apply IH|].
  by eapply add_block_later.
Qed.

Lemma load_blocks_ok now fuel c bs c' :
  Forall block_storable bs → add_all now c bs c' → (length bs < fuel)%nat →
  load_blocks cfg now fuel c (concat (block_lines <$> bs)) = (c', ok ()).
Proof.
  intros H. revert fuel c. induction H as [|b bs Hb _ IH]; intros fuel c Ha Hf; (destruct fuel as [|fuel]; [cbn in Hf; lia|]).
  { cbn in Ha. by subst. }
  destruct Ha as (c1 & Hb1 & Ha). cbn [fmap list_fmap concat]. pose proof (block_lines_parse b (concat (block_lines <$> bs)) Hb) as Hp.
  change (block_lines b) with (header_line (header b) :: tail (block_lines b)).
  set (t := tail (block_lines b)) in *. cbn [app load_blocks].
  assert (E1 : is_empty (header_line (header b)) = false) by done. rewrite E1.
  assert (E2 : starts_with "N|" (header_line (header b)) = false) by done. rewrite E2.
  assert (E3 : starts_with "B|" (header_line (header b)) = true).
  { unfold header_line, line. cbn [join]. by destruct (to_string (height (header b))). }
  rewrite E3. cbn [negb]. rewrite Hp. cbn [ok]. rewrite Hb1. apply IH; [done|cbn in Hf; lia].
Qed.
(** Every line of the file is one line. *)
Lemma join_clean fs : clean nl fs → text (line fs).
Proof. intros H. by apply free_of_join. Qed.
Lemma vote_fields_text v : vote_storable v → text (vote_fields v).
Proof.
  intros ([_ H1] & _ & [_ H2] & [_ H3] & _). apply join_clean. unfold clean. repeat (constructor; auto). by destruct (approve v).
Qed.
Lemma text_app a b : text a → text b → text (a +:+ b).
Proof. intros Ha Hb. unfold text in *. by rewrite free_of_app, Ha, Hb. Qed.
Lemma tx_lines_clean tx : tx_storable tx → clean nl (tx_to_lines tx).
Proof.
  intros ([_ H1] & [_ H2] & [_ H3] & _ & _ & Hi & Ho & Hs). unfold tx_to_lines, clean.
  constructor; [apply join_clean; unfold clean; repeat (constructor; auto)|]. rewrite !Forall_app. split_and!.
  - apply Forall_concat, Forall_fmap. eapply Forall_impl; [exact Hi|]. intros i ([_ Hp] & _ & Hw). cbn. unfold input_lines.
    constructor; [apply join_clean; unfold clean; repeat (constructor; auto)|]. destruct (is_empty _); [done|].
    constructor; [|done]. by apply text_app.
  - apply Forall_fmap. eapply Forall_impl; [exact Ho|]. intros o ([_ Hr] & _). apply join_clean. unfold clean. repeat (constructor; auto).
  - destruct (is_empty _); [done|]. constructor; [|done]. by apply text_app.
  - by constructor.
Qed.
Lemma block_lines_clean b : block_storable b → clean nl (block_lines b).
Proof.
  intros (_ & _ & [_ H1] & [_ H2] & Ht & Hv & Hs). unfold block_lines, clean.
  constructor; [apply join_clean; unfold clean; repeat (constructor; auto)|]. rewrite !Forall_app. split_and!.
  - apply Forall_concat, Forall_fmap. eapply Forall_impl; [exact Ht|]. intros tx. apply tx_lines_clean.
  - apply Forall_fmap. eapply Forall_impl; [exact Hv|]. intros v H. apply text_app; [done|]. by apply vote_fields_text.
  - apply Forall_fmap. eapply Forall_impl; [exact Hs|]. intros e [Ha Hb]. unfold slash_line. cbn beta.
    repeat (apply text_app; [first [done|by apply vote_fields_text]|]). by apply vote_fields_text.
  - by constructor.
Qed.
Lemma hash_text h : text (hash_block_header h).
Proof.
  unfold hash_block_header, strong_hash, text. eapply all_chars_impl; [|apply bytes_to_hex_chars].
  intros c Hc. apply negb_true_iff, Ascii.eqb_neq. by intros <-.
Qed.

Definition network_line (c : Chain) : list string :=
  if String.eqb (network_id cfg) kTestnetNetworkId then []
  else [line ["N"; network_id cfg; network_mode; hash_block_header (header (genesis_block c))]].
Lemma load_network_line now fuel c c0 ls :
  Lines.field (network_id cfg) →
  load_blocks cfg now (length (network_line c) + fuel) c0 (network_line c ++ ls) = load_blocks cfg now fuel c0 ls.
Proof.
  intros [Hn _]. unfold network_line. destruct (String.eqb (network_id cfg) kTestnetNetworkId); [done|].
  cbn [app length Nat.add load_blocks]. set (l := line _).
  assert (E1 : is_empty l = false) by done. rewrite E1.
  assert (E2 : starts_with "N|" l = true) by (subst l; unfold line; cbn [join]; by destruct (network_id cfg)). rewrite E2.
  change (str_drop 2 l) with (network_id cfg +:+ String "|" (line [network_mode; hash_block_header (header (genesis_block c))])).
  rewrite getline_cut by done. cbn [fst]. by rewrite String.eqb_refl.
Qed.

(** C38. The chain a file is written from and the chain read from it are the same, at every
    later time. *)
Theorem load_saved_chain what now c :
  reachable cfg c → Forall block_storable (tail (blocks c)) → Forall (in_time now) (tail (blocks c)) →
  Lines.field (network_id cfg) → text network_mode →
  load_chain cfg what now (reset cfg) (Some (save_chain cfg network_mode c)) = (c, Ok ()).
Proof.
  intros [bs Hb]%reachable_built Hs Ht Hn Hm. rewrite (built_blocks cfg _ _ Hb) in Hs, Ht. cbn [tail] in Hs, Ht.
  assert (Hf : filter (λ b, height (header b) ≠ 0) (blocks c) = bs).
  { rewrite (built_blocks cfg _ _ Hb), filter_cons_False by (cbn; auto). clear -Hs.
    induction Hs as [|b l (_ & H & _) _ IH]; [done|]. by rewrite filter_cons_True, IH. }
  unfold load_chain, save_chain. rewrite Hf. fold (network_line c).
  set (ls := network_line c ++ concat (block_lines <$> bs)). rewrite getlines_unlines.
  2: { subst ls. apply Forall_app. split.
    - unfold network_line. destruct (String.eqb _ _); [done|]. destruct Hn as [_ Hn]. constructor; [|done].
      apply join_clean. unfold clean. pose proof (hash_text (header (genesis_block c))). unfold text in *. repeat (constructor; auto).
    - apply Forall_concat, Forall_fmap. eapply Forall_impl; [exact Hs|]. intros b. apply block_lines_clean. }
  assert (Hl : (length bs ≤ length (concat (block_lines <$> bs)))%nat).
  { clear. induction bs as [|b l IH]; [done|]. cbn [fmap list_fmap concat length]. rewrite length_app.
    change (length (block_lines b)) with (S (length (tail (block_lines b)))). lia. }
  assert (E : S (length ls) = (length (network_line c) + S (length (concat (block_lines <$> bs))))%nat).
  { subst ls. rewrite length_app. lia. }
  rewrite E. subst ls. rewrite load_network_line by done.
  rewrite (load_blocks_ok now _ (reset cfg) bs c); [done|done|by apply built_add_all|lia].
Qed.
End chain.

(** ** The pool's file *)

Lemma load_txs_saved fuel txs :
  Forall tx_storable txs → (length txs < fuel)%nat → load_txs fuel (concat (tx_to_lines <$> txs)) = ok txs.
Proof.
  intros H. revert fuel. induction H as [|tx txs Ht _ IH]; intros fuel Hf; (destruct fuel as [|fuel]; [cbn in Hf; lia|]); [done|].
  pose proof (parse_tx_to_lines tx Ht) as Hp. destruct (tx_lines_shape tx) as (r & l' & El & Hl').
  cbn [fmap list_fmap concat]. rewrite El in *. cbn [app]. rewrite <-?app_assoc. cbn [app].
  cbn [load_txs]. assert (E4 : starts_with "T|" (String "T" (String "|" r)) = true) by (by destruct r). rewrite E4.
  rewrite take_tx_tagged by done. cbn [app] in Hp. rewrite Hp. cbn [mbind outcome_bind ok].
  rewrite IH by (cbn in Hf; lia). done.
Qed.

(** A pool that a node built from any operations and saved is the pool of the node that
    loads the file, with its indexes, whatever that node held before. *)
Theorem load_saved_mempool {C : Crypto} {MO : MempoolOrder} os m0 :
  Forall tx_storable (snapshot (pool_after os)) →
  load_mempool m0 (Some (save_mempool (pool_after os))) = (pool_after os, ok ()).
Proof.
  intros Hs. unfold load_mempool, save_mempool.
  rewrite getlines_unlines by (apply Forall_concat, Forall_fmap; eapply Forall_impl; [exact Hs|apply tx_lines_clean]).
  rewrite load_txs_saved; [|done|].
  - cbn [ok]. by rewrite replace_snapshot.
  - apply Nat.lt_succ_r. clear. induction (snapshot _) as [|tx l IH]; [done|]. cbn [fmap list_fmap concat length].
    rewrite length_app. change (length (tx_to_lines tx)) with (S (length (tail (tx_to_lines tx)))). lia.
Qed.

(** ** The marker of the network *)

Lemma marker_written {C : Crypto} cfg mode (c : Chain) :
  text (network_id cfg) → text mode →
  check_network_marker cfg mode (write_network_marker cfg mode c) = Ok ().
Proof.
  intros Hn Hm. unfold check_network_marker, write_network_marker. rewrite getlines_unlines.
  2: { unfold text in *. repeat (apply Forall_cons; split); [..|done]; apply text_app; try done; [apply to_string_nl|apply hash_text]. }
  assert (H1 : ∀ acc x, scan_marker acc ("network_id=" +:+ x) = (x, acc.2)) by (intros ? []; reflexivity).
  assert (H2 : ∀ acc x, scan_marker acc ("network_mode=" +:+ x) = (acc.1, x)) by (intros ? []; reflexivity).
  assert (H3 : ∀ acc x, scan_marker acc ("genesis_timestamp=" +:+ x) = acc) by reflexivity.
  assert (H4 : ∀ acc x, scan_marker acc ("genesis_hash=" +:+ x) = acc) by reflexivity.
  cbn [foldl]. rewrite H1, H2, H3, H4. cbn [fst snd]. by rewrite !String.eqb_refl.
Qed.
