(* ===== verification/PqSession.v ===== *)
(** * Secure sessions between wallets ([include/addition/pq_session.hpp],
    [src/pq_session.cpp])

    Key packages, the handshake and the ratchet of AMLS1. Byte strings are strings. ML-KEM,
    HMAC, AES-GCM and the signing of liboqs and OpenSSL are the class [PmCrypto], what they
    draw at random is an argument. The files of a wallet are texts; writing one succeeds. *)
From stdpp Require Import sorting.
From S2P Require Import Prelude Strings Lines Crypto Types StateStore.

Record KemSizes := mkKemSizes { kem_pk_size : nat; kem_sk_size : nat; kem_ct_size : nat; kem_ss_size : nat }.
(** [None] where the algorithm is missing or the call fails; the coins of a call come first. *)
Class PmCrypto := {
  OQS_KEM_ml_kem_1024 : option KemSizes;
  OQS_KEM_keypair : string → option (string * string);
  OQS_KEM_encaps : string → string → option (string * string);
  OQS_KEM_decaps : string → string → option string;
  OQS_SIG_keypair : string → option (string * string);
  OQS_SIG_sign : string → string → option string;
  HMAC_sha3_512 : string → string → string;
  gcm_seal : string → string → string → string → string;
  gcm_open : string → string → string → string → option string;
}.

Definition kMaxPackageLifetime : Z := 2592000.
Definition kMaxSkip : Z := 512.
Definition kMaxStoredSkipped : nat := 256.
Definition kSuite : string := "MLKEM1024+AES256GCM+HMAC-SHA3-512/MLDSA87".

(** ** Encoding *)

Fixpoint put_be (n : nat) (v : Z) : string :=
  match n with O => "" | S n => put_be n (Z.shiftr v 8) +:+ String (char_of_byte (Z.land v 255)) "" end.
Fixpoint get_be (v : Z) (s : string) : Z :=
  match s with "" => v | String c s => get_be (u64 (Z.lor (Z.shiftl v 8) (byte_of_char c))) s end.
Definition put (b : string) : string := put_be 4 (u32 (Z.of_nat (String.length b))) +:+ b.
Definition put64 (v : Z) : string := put_be 8 v.

(** A reader that has failed stays so: [None]. *)
Definition magic (m s : string) : option string :=
  if starts_with m s then Some (str_drop (String.length m) s) else None.
Definition get (max : Z) (s : string) : option (string * string) :=
  if (String.length s <? 4)%nat then None
  else
    let n := u32 (get_be 0 (str_take 4 s)) in
    let s := str_drop 4 s in
    if (max <? n) || (Z.of_nat (String.length s) <? n) then None
    else Some (str_take (Z.to_nat n) s, str_drop (Z.to_nat n) s).
Definition get64 (s : string) : option (Z * string) :=
  if (String.length s <? 8)%nat then None else Some (get_be 0 (str_take 8 s), str_drop 8 s).

Definition is_alnum (c : ascii) : bool :=
  let b := byte_of_char c in
  ((48 <=? b) && (b <=? 57)) || ((65 <=? b) && (b <=? 90)) || ((97 <=? b) && (b <=? 122)).
Definition to_lower (c : ascii) : ascii :=
  let b := byte_of_char c in if (65 <=? b) && (b <=? 90) then char_of_byte (b + 32) else c.
Definition safe_name (w : string) : bool :=
  negb (is_empty w) && (String.length w <=? 64)%nat && negb (starts_with "." w) &&
  all_chars (λ c, is_alnum c || Ascii.eqb c "_" || Ascii.eqb c "-" || Ascii.eqb c ".") w.

Record KeyPackage := mkKeyPackage {
  kp_index : string;
  identity_pub : string;
  init_pub : string;
  relay_pub : string;
  kp_created : Z;
  kp_expires : Z;
  kp_sig : string;
}.
Record Session := mkSession {
  sid : string;
  peer_fp : string;
  my_fp : string;
  peer_identity : string;
  peer_relay : string;
  rk : string;
  cks : string;
  ckr : string;
  ns : Z;
  nr : Z;
  pn : Z;
  my_pub : string;
  my_sk : string;
  prev_pub : string;
  prev_sk : string;
  peer_rk : string;
  step_ct : string;
  step_to : string;
  need_step : bool;
  skipped : gmap string string;
}.
Definition empty_session : Session := mkSession "" "" "" "" "" "" "" "" 0 0 0 "" "" "" "" "" "" "-" false ∅.

(** The order of [std::map] on its keys. *)
Definition key_le {A} (x y : string * A) : Prop := str_le x.1 y.1.
#[export] Instance key_le_dec {A} (x y : string * A) : Decision (key_le x y).
Proof. unfold key_le. apply _. Defined.

Section session.
Context {C : Crypto} {P : PmCrypto}.

Definition h32 (b : string) : string := str_take 32 (to_hex (sha3_512_bytes b)).
Fixpoint handle_text (handle : string) : string :=
  match handle with
  | "" => ""
  | String c h => if is_space c then handle_text h else String (to_lower c) (handle_text h)
  end.
Definition handle_index (handle : string) : string := h32 ("ADDITION-KP-dir|v1|" +:+ handle_text handle).
Definition fingerprint (pub : string) : string := str_take 40 (to_hex (sha3_512_bytes pub)).

(** ** Keys *)

Definition hmac (key label data : string) : string := HMAC_sha3_512 key (label +:+ data).
(** The new root key and the chain key. *)
Definition kdf_rk (rk ss : string) : string * string :=
  let o := hmac rk "AMLS1 rk" ss in (str_take 32 o, str_take 32 (str_drop 32 o)).
(** The message key and the next chain key. *)
Definition kdf_ck (ck : string) : string * string :=
  (str_take 32 (hmac ck (String (char_of_byte 1) "") ""), str_take 32 (hmac ck (String (char_of_byte 2) "") "")).
Definition aead_open (key iv aad s : string) : option string :=
  if (String.length s <? 16)%nat then None else gcm_open key iv aad s.

Definition kem_keypair (coins : string) : option (string * string) :=
  match OQS_KEM_ml_kem_1024 with None => None | Some _ => OQS_KEM_keypair coins end.
Definition kem_encaps (coins pk : string) : option (string * string) :=
  match OQS_KEM_ml_kem_1024 with
  | None => None
  | Some k => if (String.length pk =? kem_pk_size k)%nat then OQS_KEM_encaps coins pk else None
  end.
Definition kem_decaps (sk ct : string) : option string :=
  match OQS_KEM_ml_kem_1024 with
  | None => None
  | Some k =>
      if (String.length ct =? kem_ct_size k)%nat && (String.length sk =? kem_sk_size k)%nat
      then OQS_KEM_decaps sk ct else None
  end.
Definition sig_keypair (coins : string) : option (string * string) :=
  match oqs_sizes MlDsa87 with None => None | Some _ => OQS_SIG_keypair coins end.
Definition sig_sign (sk msg : string) : option string :=
  match oqs_sizes MlDsa87 with
  | None => None
  | Some z => if (String.length sk =? secret_key z)%nat then OQS_SIG_sign sk msg else None
  end.
Definition sig_verify (pk msg sig : string) : bool :=
  match oqs_sizes MlDsa87 with
  | None => false
  | Some z =>
      (String.length pk =? public_key z)%nat && negb (is_empty sig) &&
      (String.length sig <=? signature_len z)%nat && oqs_sig_verify pk msg sig
  end.

(** ** Key packages *)

Definition tbs (k : KeyPackage) : string :=
  "AKP1|" +:+ kSuite +:+ "|" +:+ kp_index k +:+ "|" +:+ bytes_to_hex (identity_pub k) +:+ "|" +:+
  bytes_to_hex (init_pub k) +:+ "|" +:+ bytes_to_hex (relay_pub k) +:+ "|" +:+ to_string (kp_created k) +:+ "|" +:+
  to_string (kp_expires k).
Definition encode (k : KeyPackage) : string :=
  "AKP1" +:+ put (kp_index k) +:+ put (identity_pub k) +:+ put (init_pub k) +:+ put (relay_pub k) +:+
  put64 (kp_created k) +:+ put64 (kp_expires k) +:+ put (kp_sig k).
Definition kp_hex (k : KeyPackage) : string := bytes_to_hex (encode k).
Definition kp_hash (k : KeyPackage) : string := h32 (encode k).
Definition decode (b : string) : result KeyPackage :=
  or_err "malformed key package" (
    r ← magic "AKP1" b;
    '(index, r) ← get 64 r;
    '(identity, r) ← get 4096 r;
    '(init, r) ← get 4096 r;
    '(relay, r) ← get 4096 r;
    '(created, r) ← get64 r;
    '(expires, r) ← get64 r;
    '(sig, r) ← get 8192 r;
    if is_empty r then Some (mkKeyPackage index identity init relay created expires sig) else None).
Definition from_hex (hex : string) : result KeyPackage :=
  let h := if starts_with "addc1:" hex then str_drop 6 hex else hex in
  if (Z.to_nat 64000 <? String.length h)%nat then Err "malformed key package"
  else match hex_to_bytes h with Err _ => Err "malformed key package" | Ok b => decode b end.
Definition is_index (i : string) : bool :=
  String.eqb i "-" || ((String.length i =? 32)%nat && all_chars is_lower_hex_char i).
Definition kp_verify (now : Z) (k : KeyPackage) : result () :=
  reject_if negb (String.length (identity_pub k) =? Z.to_nat 2592)%nat ||
            negb (String.length (init_pub k) =? Z.to_nat 1568)%nat ||
            negb (String.length (relay_pub k) =? Z.to_nat 1568)%nat as "key package: bad key sizes" ;;
  reject_if negb (is_index (kp_index k)) as "key package: bad index" ;;
  reject_if (kp_expires k <=? kp_created k) || (kMaxPackageLifetime <? u64 (kp_expires k - kp_created k)) ||
            (u64 (now + 600) <? kp_created k) as "key package: bad lifetime" ;;
  reject_if kp_expires k <=? now as "key package expired" ;;
  reject_if negb (sig_verify (identity_pub k) (tbs k) (kp_sig k)) as "key package: bad ML-DSA-87 signature" ;;
  Ok ().

(** ** Sessions as text *)

Definition hx (b : string) : string := if is_empty b then "-" else bytes_to_hex b.
Definition unhex (h : string) : option string :=
  if String.eqb h "-" then Some "" else match hex_to_bytes h with Ok b => Some b | Err _ => None end.
Definition skip_line (kv : string * string) : string := "skip " +:+ kv.1 +:+ " " +:+ hx kv.2.
Definition ser_lines (s : Session) : list string :=
  ["sid " +:+ sid s; "peer_fp " +:+ peer_fp s; "my_fp " +:+ my_fp s; "peer_id " +:+ hx (peer_identity s);
   "peer_relay " +:+ hx (peer_relay s); "rk " +:+ hx (rk s); "cks " +:+ hx (cks s); "ckr " +:+ hx (ckr s);
   "ns " +:+ to_string (ns s); "nr " +:+ to_string (nr s); "pn " +:+ to_string (pn s); "my_pub " +:+ hx (my_pub s);
   "my_sk " +:+ hx (my_sk s); "prev_pub " +:+ hx (prev_pub s); "prev_sk " +:+ hx (prev_sk s);
   "peer_rk " +:+ hx (peer_rk s); "step_ct " +:+ hx (step_ct s); "step_to " +:+ step_to s;
   "need_step " +:+ (if need_step s then "1" else "0")] ++
  (skip_line <$> merge_sort key_le (map_to_list (skipped s))).
Definition ser (s : Session) : string := unlines (ser_lines s).

Fixpoint words_from (cur s : string) : list string :=
  match s with
  | "" => if is_empty cur then [] else [cur]
  | String c s =>
      if is_space c then (if is_empty cur then words_from "" s else cur :: words_from "" s)
      else words_from (cur +:+ String c "") s
  end.
(** The words that [>>] reads one after the other. *)
Definition words (s : string) : list string := words_from "" s.
Definition set_field (k v : string) (s : Session) : outcome Session :=
  let '(mkSession a b c d e f g h i j l m n o p q r t u w) := s in
  let bytes (x : string → Session) : outcome Session := match unhex v with Some y => ok (x y) | None => err "parse" end in
  let num (x : Z → Session) : outcome Session := z ← stoull_or_throw v; ok (x (u32 z)) in
  let key x := String.eqb k x in
  if key "sid" then ok (mkSession v b c d e f g h i j l m n o p q r t u w)
  else if key "peer_fp" then ok (mkSession a v c d e f g h i j l m n o p q r t u w)
  else if key "my_fp" then ok (mkSession a b v d e f g h i j l m n o p q r t u w)
  else if key "peer_id" then bytes (λ x, mkSession a b c x e f g h i j l m n o p q r t u w)
  else if key "peer_relay" then bytes (λ x, mkSession a b c d x f g h i j l m n o p q r t u w)
  else if key "rk" then bytes (λ x, mkSession a b c d e x g h i j l m n o p q r t u w)
  else if key "cks" then bytes (λ x, mkSession a b c d e f x h i j l m n o p q r t u w)
  else if key "ckr" then bytes (λ x, mkSession a b c d e f g x i j l m n o p q r t u w)
  else if key "ns" then num (λ x, mkSession a b c d e f g h x j l m n o p q r t u w)
  else if key "nr" then num (λ x, mkSession a b c d e f g h i x l m n o p q r t u w)
  else if key "pn" then num (λ x, mkSession a b c d e f g h i j x m n o p q r t u w)
  else if key "my_pub" then bytes (λ x, mkSession a b c d e f g h i j l x n o p q r t u w)
  else if key "my_sk" then bytes (λ x, mkSession a b c d e f g h i j l m x o p q r t u w)
  else if key "prev_pub" then bytes (λ x, mkSession a b c d e f g h i j l m n x p q r t u w)
  else if key "prev_sk" then bytes (λ x, mkSession a b c d e f g h i j l m n o x q r t u w)
  else if key "peer_rk" then bytes (λ x, mkSession a b c d e f g h i j l m n o p x r t u w)
  else if key "step_ct" then bytes (λ x, mkSession a b c d e f g h i j l m n o p q x t u w)
  else if key "step_to" then ok (mkSession a b c d e f g h i j l m n o p q r v u w)
  else if key "need_step" then ok (mkSession a b c d e f g h i j l m n o p q r t (String.eqb v "1") w)
  else ok s.
Definition set_skipped (m : gmap string string) (s : Session) : Session :=
  mkSession (sid s) (peer_fp s) (my_fp s) (peer_identity s) (peer_relay s) (rk s) (cks s) (ckr s) (ns s) (nr s) (pn s)
    (my_pub s) (my_sk s) (prev_pub s) (prev_sk s) (peer_rk s) (step_ct s) (step_to s) (need_step s) m.
Fixpoint parse_words (ws : list string) (s : Session) : outcome Session :=
  match ws with
  | [] => ok s
  | k :: ws =>
      if String.eqb k "skip" then
        match ws with
        | id :: v :: ws =>
            match unhex v with
            | None => err "parse"
            | Some mk => parse_words ws (set_skipped (<[id := mk]> (skipped s)) s)
            end
        | _ => err "parse"
        end
      else match ws with [] => err "parse" | v :: ws => s ← set_field k v s; parse_words ws s end
  end.
Definition parse (text : string) : outcome Session :=
  s ← parse_words (words text) empty_session;
  if negb (is_empty (sid s)) && (String.length (rk s) =? 32)%nat then ok s else err "parse".

(** ** The ratchet *)

(** What [RAND_bytes] and the key generators draw. *)
Record Rand := mkRand { r_encaps : string; r_keypair : string; r_iv : string; r_sid : string }.

(** A new sending chain: a key of one's own and a secret for the peer's. *)
Definition ratchet_step (r : Rand) (s : Session) : result Session :=
  match kem_encaps (r_encaps r) (peer_rk s), kem_keypair (r_keypair r) with
  | Some (ct, ss), Some (pub, sk) =>
      let '(rk', ck) := kdf_rk (rk s) ss in
      Ok (mkSession (sid s) (peer_fp s) (my_fp s) (peer_identity s) (peer_relay s) rk' ck (ckr s) 0 (nr s) (ns s)
            pub sk (my_pub s) (my_sk s) (peer_rk s) ct (h32 (peer_rk s)) false (skipped s))
  | _, _ => Err "ratchet step failed"
  end.
Definition next_send (s : Session) : Session :=
  mkSession (sid s) (peer_fp s) (my_fp s) (peer_identity s) (peer_relay s) (rk s) (kdf_ck (cks s)).2 (ckr s)
    (u32 (ns s + 1)) (nr s) (pn s) (my_pub s) (my_sk s) (prev_pub s) (prev_sk s) (peer_rk s) (step_ct s) (step_to s)
    (need_step s) (skipped s).
Definition frame_aad (sid rk_pub step_ct to : string) (pn n : Z) : string :=
  "AMLS1|M|" +:+ sid +:+ "|" +:+ h32 rk_pub +:+ "|" +:+ h32 step_ct +:+ "|" +:+ to +:+ "|" +:+ to_string pn +:+ "|" +:+ to_string n.
Record Frame := mkFrame { f_sid : string; f_rk_pub : string; f_step_ct : string; f_to : string; f_pn : Z; f_n : Z;
                          f_iv : string; f_ct : string }.
Definition frame_body (f : Frame) : string :=
  "AMM1" +:+ put (f_sid f) +:+ put (f_rk_pub f) +:+ put (f_step_ct f) +:+ put (f_to f) +:+ put64 (f_pn f) +:+
  put64 (f_n f) +:+ put (f_iv f) +:+ put (f_ct f).
(** [encrypt_locked] up to the bytes of the frame. *)
Definition encrypt (r : Rand) (s : Session) (text : string) : result (Session * Frame) :=
  s ← (if need_step s then ratchet_step r s else Ok s);
  reject_if negb (String.length (cks s) =? 32)%nat as "session not ready to send" ;;
  let n := ns s in
  let mk := (kdf_ck (cks s)).1 in
  let aad := frame_aad (sid s) (my_pub s) (step_ct s) (step_to s) (pn s) n in
  Ok (next_send s, mkFrame (sid s) (my_pub s) (step_ct s) (step_to s) (pn s) n (r_iv r) (gcm_seal mk (r_iv r) aad text)).

Definition skip_key (pub : string) (n : Z) : string := h32 pub +:+ ":" +:+ to_string n.
Definition with_receiving (ckr' : string) (nr' : Z) (m : gmap string string) (s : Session) : Session :=
  mkSession (sid s) (peer_fp s) (my_fp s) (peer_identity s) (peer_relay s) (rk s) (cks s) ckr' (ns s) nr' (pn s)
    (my_pub s) (my_sk s) (prev_pub s) (prev_sk s) (peer_rk s) (step_ct s) (step_to s) (need_step s) m.
(** Message keys of frames that have not arrived are kept. *)
Fixpoint skip_keys (k : nat) (s : Session) : Session :=
  match k with
  | O => s
  | S k =>
      let '(mk, ck) := kdf_ck (ckr s) in
      skip_keys k (with_receiving ck (u32 (nr s + 1)) (<[skip_key (peer_rk s) (nr s) := mk]> (skipped s)) s)
  end.
Definition first_key (m : gmap string string) : option string := fst <$> head (merge_sort key_le (map_to_list m)).
Fixpoint evict (k : nat) (m : gmap string string) : gmap string string :=
  match k with
  | O => m
  | S k => match first_key m with None => m | Some x => evict k (delete x m) end
  end.
Definition skip_to (until : Z) (s : Session) : option Session :=
  if negb (String.length (ckr s) =? 32)%nat then Some s
  else if nr s + kMaxSkip <? until then None
  else
    let s := skip_keys (Z.to_nat (until - nr s)) s in
    Some (set_skipped (evict (size (skipped s) - kMaxStoredSkipped) (skipped s)) s).
(** The peer has a new chain: its secret is for this key or the one before. *)
Definition new_chain (f : Frame) (s : Session) : result Session :=
  reject_if is_empty (f_step_ct f) as "out-of-order frame (no ratchet ciphertext)" ;;
  s ← or_err "too many skipped messages" (skip_to (f_pn f) s);
  let sk :=
    if negb (is_empty (my_pub s)) && String.eqb (f_to f) (h32 (my_pub s)) then Some (my_sk s)
    else if negb (is_empty (prev_pub s)) && String.eqb (f_to f) (h32 (prev_pub s)) then Some (prev_sk s)
    else None in
  ss ← or_err "ratchet key unknown" (sk ≫= λ sk, kem_decaps sk (f_step_ct f));
  let '(rk', ck) := kdf_rk (rk s) ss in
  Ok (mkSession (sid s) (peer_fp s) (my_fp s) (peer_identity s) (peer_relay s) rk' (cks s) ck (ns s) 0 (pn s)
        (my_pub s) (my_sk s) (prev_pub s) (prev_sk s) (f_rk_pub f) (step_ct s) (step_to s) true (skipped s)).
(** The message key of a frame, and the session if the frame is authentic. *)
Definition message_key (f : Frame) (s : Session) : result (Session * string) :=
  match skipped s !! skip_key (f_rk_pub f) (f_n f) with
  | Some mk => Ok (set_skipped (delete (skip_key (f_rk_pub f) (f_n f)) (skipped s)) s, mk)
  | None =>
      s ← (if String.eqb (f_rk_pub f) (peer_rk s) then Ok s else new_chain f s);
      reject_if f_n f <? nr s as "duplicate or replayed message" ;;
      s ← or_err "too many skipped messages" (skip_to (f_n f) s);
      let '(mk, ck) := kdf_ck (ckr s) in
      Ok (with_receiving ck (u32 (nr s + 1)) (skipped s) s, mk)
  end.
Definition decrypt (f : Frame) (s : Session) : result (Session * string) :=
  '(s', mk) ← message_key f s;
  let aad := frame_aad (f_sid f) (f_rk_pub f) (f_step_ct f) (f_to f) (f_pn f) (f_n f) in
  match aead_open mk (f_iv f) aad (f_ct f) with
  | None => Err "authentication failed"
  | Some text => Ok (s', text)
  end.
End session.
