(* ===== verification/PmRelay.v ===== *)
(** * Private messages, stored and forwarded ([include/addition/pm_relay.hpp],
    [src/pm_relay.cpp])

    Envelopes, their deletion, the directory of key packages and what each peer has been
    given. The clock is an argument; a call reads it once. [delivered_] and [del_lines_]
    are visited in some order, the other maps in the order of their keys. The key files
    are texts, and writing one succeeds. *)
From stdpp Require Import sorting.
From S2P Require Import Prelude Strings Lines Crypto Types StateStore PqSession.

Definition kMaxPlaintext : nat := Z.to_nat 4096.
Definition kMinTtl : Z := 60.
Definition kMaxTtl : Z := 604800.
Definition kMaxMessages : nat := Z.to_nat 4096.
Definition kMaxStoreBytes : Z := 33554432.
Definition kPeerRatePerMin : nat := 60.
Definition kPushPerPeerRound : nat := 32.
Definition kMaxFrame : nat := Z.to_nat 32768.
Definition kMaxPackages : nat := Z.to_nat 2048.

Record Env := mkEnv {
  e_id : string;
  e_mailbox : string;
  e_del_hash : string;
  e_kem_ct : string;
  e_iv : string;
  e_ct : string;
  expire_at : Z;
}.
Record Pkg := mkPkg { p_hex : string; line_id : string; p_identity : string; p_created : Z; p_expires : Z }.
Record Keys := mkKeys { k_pk : string; k_sk : string; k_mailbox : string }.
Record PmStore := mkPmStore {
  key_dir : string;
  key_files : gmap string string;
  pkgs : gmap string Pkg;
  envs : gmap string Env;
  tombstones : gmap string Z;
  del_lines : gmap string string;
  delivered : gmap string (gset string);
  rate : gmap string (list Z);
  bytes : Z;
}.
Definition empty_store (dir : string) : PmStore := mkPmStore dir ∅ ∅ ∅ ∅ ∅ ∅ ∅ 0.

Definition set_key_files (f : gmap string string) (r : PmStore) : PmStore :=
  mkPmStore (key_dir r) f (pkgs r) (envs r) (tombstones r) (del_lines r) (delivered r) (rate r) (bytes r).
Definition set_key_dir (dir : string) (r : PmStore) : PmStore :=
  mkPmStore dir (key_files r) (pkgs r) (envs r) (tombstones r) (del_lines r) (delivered r) (rate r) (bytes r).
Definition set_pkgs (p : gmap string Pkg) (r : PmStore) : PmStore :=
  mkPmStore (key_dir r) (key_files r) p (envs r) (tombstones r) (del_lines r) (delivered r) (rate r) (bytes r).
Definition set_envs (e : gmap string Env) (b : Z) (r : PmStore) : PmStore :=
  mkPmStore (key_dir r) (key_files r) (pkgs r) e (tombstones r) (del_lines r) (delivered r) (rate r) b.
Definition set_tombstones (t : gmap string Z) (l : gmap string string) (r : PmStore) : PmStore :=
  mkPmStore (key_dir r) (key_files r) (pkgs r) (envs r) t l (delivered r) (rate r) (bytes r).
Definition set_delivered (d : gmap string (gset string)) (r : PmStore) : PmStore :=
  mkPmStore (key_dir r) (key_files r) (pkgs r) (envs r) (tombstones r) (del_lines r) d (rate r) (bytes r).
Definition set_rate (q : gmap string (list Z)) (r : PmStore) : PmStore :=
  mkPmStore (key_dir r) (key_files r) (pkgs r) (envs r) (tombstones r) (del_lines r) (delivered r) q (bytes r).

Definition is_hex (s : string) (min max : nat) : bool :=
  negb (String.length s <? min)%nat && negb (max <? String.length s)%nat && Nat.even (String.length s) &&
  all_chars is_lower_hex_char s.
Definition in_key_order {A} (m : gmap string A) : list (string * A) := merge_sort key_le (map_to_list m).
Definition env_size (e : Env) : Z := Z.of_nat (String.length (e_ct e) + String.length (e_kem_ct e)).
Definition wire (e : Env) : string :=
  "PMSG|v1|" +:+ e_id e +:+ "|" +:+ e_mailbox e +:+ "|" +:+ to_string (expire_at e) +:+ "|" +:+ e_del_hash e +:+ "|" +:+
  e_kem_ct e +:+ "|" +:+ e_iv e +:+ "|" +:+ e_ct e.
Definition aad_of (mailbox : string) (exp : Z) (del_hash id : string) : string :=
  "PMSG|v1|" +:+ id +:+ "|" +:+ mailbox +:+ "|" +:+ to_string exp +:+ "|" +:+ del_hash.

Section relay.
Context {C : Crypto} {P : PmCrypto} {IO : IterationOrder}.

Definition derive (ss label : string) : string := str_take 32 (sha3_512_bytes ("ADDITION-PM-v1|" +:+ label +:+ "|" +:+ ss)).
Definition mailbox_of (pk : string) : string := h32 pk.
Definition token_hash (token : string) : string := str_take 64 (to_hex (sha3_512_bytes token)).

(** ** Time *)

Definition purge_delivered (envs : gmap string Env) (tombstones : gmap string Z) (ids : gset string) : gset string :=
  filter (λ i, let raw := if (2 <? String.length i)%nat then str_drop 2 i else i in
               is_Some (envs !! raw) ∨ is_Some (tombstones !! raw)) ids.
Definition purge (now : Z) (r : PmStore) : PmStore :=
  let kept := filter (λ kv, ¬ expire_at kv.2 <= now) (envs r) in
  let gone := filter (λ kv, expire_at kv.2 <= now) (envs r) in
  let t := filter (λ kv, ¬ kv.2 <= now) (tombstones r) in
  let l := filter (λ kv, default false ((λ e, e <=? now) <$> tombstones r !! kv.1) = false) (del_lines r) in
  mkPmStore (key_dir r) (key_files r) (filter (λ kv, ¬ p_expires kv.2 <= now) (pkgs r)) kept t l
    (purge_delivered kept t <$> delivered r) (rate r)
    (foldl (λ b e, u64 (b - env_size e)) (bytes r) (map_to_list gone).*2).
Definition rate_ok (now : Z) (peer : string) (r : PmStore) : PmStore * bool :=
  let fix pop (q : list Z) := match q with t :: q' => if u64 (t + 60) <=? now then pop q' else q | [] => [] end in
  let q := pop (default [] (rate r !! peer)) in
  if (kPeerRatePerMin <=? length q)%nat then (set_rate (<[peer := q]> (rate r)) r, false)
  else
    let m := <[peer := q ++ [now]]> (rate r) in
    (set_rate (if (Z.to_nat 1024 <? size m)%nat then ∅ else m) r, true).
Definition note_delivered (peer id : string) (r : PmStore) : PmStore :=
  set_delivered (<[peer := {[id]} ∪ default ∅ (delivered r !! peer)]> (delivered r)) r.

(** ** Envelopes *)

(** The flag: the envelope is known. *)
Definition store (now : Z) (e : Env) (r : PmStore) : PmStore * result bool :=
  let r := purge now r in
  if bool_decide (is_Some (envs r !! e_id e)) || bool_decide (is_Some (tombstones r !! e_id e)) then (r, Ok true)
  else if expire_at e <=? now then (r, Err "expired")
  else if u64 (now + kMaxTtl + 300) <? expire_at e then (r, Err "ttl too long")
  else if (kMaxMessages <=? size (envs r))%nat || (kMaxStoreBytes <? u64 (bytes r + env_size e))
  then (r, Err "relay store full")
  else (set_envs (<[e_id e := e]> (envs r)) (u64 (bytes r + env_size e)) r, Ok false).
Definition ct_max : nat := 2 * ((kMaxFrame + 2 + 255) / 256 * 256 + 16).
Definition parse_env (body : string) : option Env :=
  match getlines "|" (Some body) with
  | [v; id; mailbox; exp; del_hash; kem_ct; iv; ct] =>
      if negb (String.eqb v "v1") then None
      else
        exp ← number exp;
        if is_hex id 32 32 && is_hex mailbox 32 32 && is_hex del_hash 64 64 &&
           is_hex kem_ct (Z.to_nat 3136) (Z.to_nat 3136) && is_hex iv 24 24 && is_hex ct 544 ct_max &&
           (Nat.modulo (String.length ct / 2 - 16) 256 =? 0)%nat
        then Some (mkEnv id mailbox del_hash kem_ct iv ct exp) else None
  | _ => None
  end.
Definition accept_wire (now : Z) (peer body : string) (r : PmStore) : PmStore * result bool :=
  match parse_env body with
  | None => (r, Err "bad pm envelope")
  | Some e =>
      if bool_decide (is_Some (envs r !! e_id e)) || bool_decide (is_Some (tombstones r !! e_id e)) then (r, Ok true)
      else
        match rate_ok now peer r with
        | (r, false) => (r, Err "pm rate limit")
        | (r, true) =>
            match store now e r with
            | (r, Err e) => (r, Err e)
            | (r, Ok dup) => (note_delivered peer ("m:" +:+ e_id e) r, Ok dup)
            end
        end
  end.
(** The envelope goes, a tombstone and the line to pass on come. *)
Definition bury (id : string) (e : Env) (token : string) (r : PmStore) : PmStore :=
  set_tombstones (<[id := expire_at e]> (tombstones r)) (<[id := "PMDEL|" +:+ id +:+ "|" +:+ token]> (del_lines r))
    (set_envs (delete id (envs r)) (u64 (bytes r - env_size e)) r).
Definition accept_delete (peer body : string) (r : PmStore) : PmStore * result bool :=
  match getlines "|" (Some body) with
  | [id; token] =>
      if negb (is_hex id 32 32) || negb (is_hex token 64 64) then (r, Err "bad pm delete")
      else if bool_decide (is_Some (tombstones r !! id)) then (r, Ok true)
      else
        match envs r !! id with
        | None => (r, Ok true)
        | Some e =>
            match hex_to_bytes token with
            | Err _ => (r, Err "pm delete token mismatch")
            | Ok t =>
                if negb (String.eqb (token_hash t) (e_del_hash e)) then (r, Err "pm delete token mismatch")
                else (note_delivered peer ("d:" +:+ id) (bury id e token r), Ok false)
            end
        end
  | _ => (r, Err "bad pm delete")
  end.

(** ** Sealing *)

Fixpoint zeros (n : nat) : string := match n with O => "" | S n => String (char_of_byte 0) (zeros n) end.
(** The length, the text, and zeros up to a multiple of 256. *)
Definition framed (text : string) : string :=
  let n := Z.of_nat (String.length text) in
  let f := String (char_of_byte (Z.land (Z.shiftr n 8) 255)) (String (char_of_byte (Z.land n 255)) text) in
  f +:+ zeros ((String.length f + 255) / 256 * 256 - String.length f).
Definition unframed (f : string) : option string :=
  match f with
  | String a (String b text) =>
      let n := Z.to_nat (Z.lor (Z.shiftl (byte_of_char a) 8) (byte_of_char b)) in
      if (String.length text <? n)%nat then None else Some (str_take n text)
  | _ => None
  end.

(** What a message draws at random. *)
Record PmRand := mkPmRand { pm_encaps : string; pm_id : string; pm_iv : string }.
Definition seal (now : Z) (d : PmRand) (recipient_pk_hex text : string) (max : nat) (ttl : Z) : result Env :=
  reject_if is_empty text || (max <? String.length text)%nat
    as ("message must be 1.." +:+ to_string (Z.of_nat max) +:+ " bytes") ;;
  let ttl := Z.min (Z.max ttl kMinTtl) kMaxTtl in
  match hex_to_bytes recipient_pk_hex with
  | Err _ => Err "invalid recipient key"
  | Ok pk =>
      match OQS_KEM_ml_kem_1024 with
      | None => Err "ML-KEM-1024 unavailable"
      | Some k =>
          reject_if negb (String.length pk =? kem_pk_size k)%nat as "invalid recipient key size" ;;
          '(ct, ss) ← or_err "encapsulation failed" (OQS_KEM_encaps (pm_encaps d) pk);
          let id := bytes_to_hex (pm_id d) in
          let exp := u64 (now + ttl) in
          let del_hash := token_hash (derive ss "del") in
          let sealed := gcm_seal (derive ss "key") (pm_iv d) (aad_of (mailbox_of pk) exp del_hash id) (framed text) in
          Ok (mkEnv id (mailbox_of pk) del_hash (bytes_to_hex ct) (bytes_to_hex (pm_iv d)) (bytes_to_hex sealed) exp)
      end
  end.
Definition send_impl (now : Z) (d : PmRand) (recipient_pk_hex text : string) (max : nat) (ttl : Z) (r : PmStore) :
    PmStore * result string :=
  match seal now d recipient_pk_hex text max ttl with
  | Err e => (r, Err e)
  | Ok e => match store now e r with (r, Ok _) => (r, Ok (e_id e)) | (r, Err x) => (r, Err x) end
  end.
Definition pm_send now d pk text ttl r := send_impl now d pk text kMaxPlaintext ttl r.
Definition pm_send_frame now d pk frame ttl r := send_impl now d pk frame kMaxFrame ttl r.
(** The text and the token that deletes the envelope. *)
Definition pm_decrypt (e : Env) (k : Keys) : result (string * string) :=
  match OQS_KEM_ml_kem_1024 with
  | None => Err "ML-KEM-1024 unavailable"
  | Some z =>
      ss ← or_err "decapsulation failed" (
        match hex_to_bytes (e_kem_ct e) with
        | Ok ct => if (String.length ct =? kem_ct_size z)%nat then OQS_KEM_decaps (k_sk k) ct else None
        | Err _ => None
        end);
      or_err "decryption failed" (
        match hex_to_bytes (e_iv e), hex_to_bytes (e_ct e) with
        | Ok iv, Ok sealed =>
            f ← aead_open (derive ss "key") iv (aad_of (e_mailbox e) (expire_at e) (e_del_hash e) (e_id e)) sealed;
            text ← unframed f;
            Some (text, bytes_to_hex (derive ss "del"))
        | _, _ => None
        end)
  end.

(** ** Keys *)

Definition key_path (r : PmStore) (wallet : string) : string := key_dir r +:+ "/" +:+ wallet +:+ ".pmkey".
(** [coins]: create a key that is missing. *)
Definition load_key (wallet : string) (coins : option string) (r : PmStore) : PmStore * result Keys :=
  if negb (safe_name wallet) then (r, Err "invalid wallet name")
  else if is_empty (key_dir r) then (r, Err "message key dir not configured")
  else
    match key_files r !! key_path r wallet with
    | Some text =>
        (r, match hex_to_bytes (nth 0 (words text) ""), hex_to_bytes (nth 1 (words text) "") with
            | Ok pk, Ok sk => Ok (mkKeys pk sk (mailbox_of pk))
            | _, _ => Err "corrupt message key"
            end)
    | None =>
        match coins with
        | None => (r, Err "no message key for wallet (run msg_key)")
        | Some coins =>
            match OQS_KEM_ml_kem_1024 with
            | None => (r, Err "ML-KEM-1024 unavailable")
            | Some _ =>
                match OQS_KEM_keypair coins with
                | None => (r, Err "keygen failed")
                | Some (pk, sk) =>
                    (set_key_files (<[key_path r wallet := unlines [bytes_to_hex pk; bytes_to_hex sk]]> (key_files r)) r,
                     Ok (mkKeys pk sk (mailbox_of pk)))
                end
            end
        end
    end.
Definition ensure_key (wallet coins : string) (r : PmStore) : PmStore * result (string * string) :=
  match load_key wallet (Some coins) r with
  | (r, Err e) => (r, Err e)
  | (r, Ok k) => (r, Ok (bytes_to_hex (k_pk k), k_mailbox k))
  end.

(** ** The mailbox of a wallet *)

(** The envelopes that the key opens, in the order of their ids. *)
Definition readable (k : Keys) (r : PmStore) : list (Env * string) :=
  omap (λ kv, if String.eqb (e_mailbox kv.2) (k_mailbox k)
              then match pm_decrypt kv.2 k with Ok (text, _) => Some (kv.2, text) | Err _ => None end
              else None) (in_key_order (envs r)).
Definition inbox (now : Z) (wallet : string) (r : PmStore) : PmStore * result string :=
  match load_key wallet None r with
  | (r, Err e) => (r, Err e)
  | (r, Ok k) =>
      let r := purge now r in
      let l := readable k r in
      (r, Ok ("messages=" +:+ to_string (Z.of_nat (length l)) +:+ " mailbox=" +:+ k_mailbox k +:+
              foldr (λ x s, String nl (e_id x.1 +:+ " expires=" +:+ to_string (expire_at x.1) +:+ " bytes=" +:+
                                       to_string (Z.of_nat (String.length x.2))) +:+ s) "" l))
  end.
Definition read_all (now : Z) (wallet : string) (r : PmStore) : PmStore * result (list (string * string)) :=
  match load_key wallet None r with
  | (r, Err e) => (r, Err e)
  | (r, Ok k) => let r := purge now r in (r, Ok ((λ x, (e_id x.1, x.2)) <$> readable k r))
  end.
Definition pm_read (now : Z) (wallet msg_id : string) (r : PmStore) : result string :=
  k ← (load_key wallet None r).2;
  match envs r !! msg_id with
  | Some e =>
      if negb (String.eqb (e_mailbox e) (k_mailbox k)) || (expire_at e <=? now) then Err "message not found"
      else '(text, _) ← pm_decrypt e k; Ok text
  | None => Err "message not found"
  end.
Definition pm_remove (wallet msg_id : string) (r : PmStore) : PmStore * result () :=
  match load_key wallet None r with
  | (r, Err e) => (r, Err e)
  | (r, Ok k) =>
      match envs r !! msg_id with
      | Some e =>
          if negb (String.eqb (e_mailbox e) (k_mailbox k)) then (r, Err "message not found")
          else match pm_decrypt e k with Err x => (r, Err x) | Ok (_, token) => (bury msg_id e token r, Ok ()) end
      | None => (r, Err "message not found")
      end
  end.
Definition wire_le (x y : Z * string) : Prop := x.1 < y.1 ∨ (x.1 = y.1 ∧ str_le x.2 y.2).
#[export] Instance wire_le_dec x y : Decision (wire_le x y).
Proof. unfold wire_le. apply _. Defined.
Definition fetch_mailbox (now : Z) (mailbox : string) (max : nat) (r : PmStore) : PmStore * list string :=
  let r := purge now r in
  (r, take max (snd <$> merge_sort wire_le
        ((λ e, (expire_at e, wire e)) <$> filter (λ e, e_mailbox e = mailbox) (snd <$> in_key_order (envs r))))).

(** ** What a peer has not been given *)

Definition undelivered_for (now : Z) (peer : string) (max : nat) (r : PmStore) : PmStore * list string :=
  let r := purge now r in
  let done := default ∅ (delivered r !! peer) in
  let dels := omap (λ kv, if bool_decide ("d:" +:+ kv.1 ∈ done) then None else Some kv.2) (iter_map (del_lines r)) in
  let msgs := omap (λ kv, if bool_decide ("m:" +:+ kv.1 ∈ done) then None else Some (wire kv.2)) (in_key_order (envs r)) in
  let packs := omap (λ kv, if bool_decide (line_id kv.2 ∈ done) then None else Some ("KPKG|v1|" +:+ p_hex kv.2)) (in_key_order (pkgs r)) in
  (set_delivered (<[peer := done]> (delivered r)) r, take max (dels ++ msgs ++ packs)).
Definition has_undelivered (now : Z) (peer : string) (r : PmStore) : PmStore * bool :=
  let '(r, l) := undelivered_for now peer 1 r in (r, negb (bool_decide (l = []))).
Definition pkg_line_id (hex : string) : string := "k:" +:+ h32 hex.
Definition mark_delivered (peer line : string) (r : PmStore) : PmStore :=
  if starts_with "PMSG|v1|" line then note_delivered peer ("m:" +:+ str_take 32 (str_drop 8 line)) r
  else if starts_with "PMDEL|" line then note_delivered peer ("d:" +:+ str_take 32 (str_drop 6 line)) r
  else if starts_with "KPKG|v1|" line then note_delivered peer (pkg_line_id (str_drop 8 line)) r
  else r.

(** ** The directory of key packages *)

Definition put_package (now : Z) (hex : string) (r : PmStore) : PmStore * result bool :=
  match (k ← from_hex hex; _ ← kp_verify now k; Ok k) with
  | Err e => (r, Err e)
  | Ok k =>
      if String.eqb (kp_index k) "-" then (r, Err "unlisted key package")
      else
        let who := fingerprint (identity_pub k) in
        let put := (set_pkgs (<[kp_index k := mkPkg hex (pkg_line_id hex) who (kp_created k) (kp_expires k)]> (pkgs r)) r, Ok false) in
        match pkgs r !! kp_index k with
        | Some p =>
            if now <? p_expires p then
              if negb (String.eqb (p_identity p) who) then (r, Err "index owned by another identity")
              else if kp_created k <=? p_created p then (r, Ok true) else put
            else put
        | None => if (kMaxPackages <=? size (pkgs r))%nat then (r, Err "key-package directory full") else put
        end
  end.
Definition publish_package (now : Z) (hex : string) (r : PmStore) : PmStore * result () :=
  let '(r, x) := put_package now hex r in (r, _ ← x; Ok ()).
Definition accept_package (now : Z) (peer body : string) (r : PmStore) : PmStore * result bool :=
  if negb (starts_with "v1|" body) || (Z.to_nat 64000 <? String.length body)%nat then (r, Err "bad key package line")
  else
    let hex := str_drop 3 body in
    match rate_ok now peer r with
    | (r, false) => (r, Err "pm rate limit")
    | (r, true) =>
        match put_package now hex r with
        | (r, Ok dup) => (note_delivered peer (pkg_line_id hex) r, Ok dup)
        | (r, Err e) => (r, Err e)
        end
    end.
Definition find_package (now : Z) (index : string) (r : PmStore) : result string :=
  match pkgs r !! index with
  | Some p => if p_expires p <=? now then Err "no key package for that handle" else Ok (p_hex p)
  | None => Err "no key package for that handle"
  end.

Definition purge_expired (now : Z) (r : PmStore) : PmStore * Z :=
  let r' := purge now r in (r', Z.of_nat (size (envs r)) - Z.of_nat (size (envs r'))).
Definition pm_status (now : Z) (r : PmStore) : PmStore * string :=
  let r := purge now r in
  let n x := to_string (Z.of_nat x) in
  (r, "pm_relay stored=" +:+ n (size (envs r)) +:+ " bytes=" +:+ to_string (bytes r) +:+ " tombstones=" +:+
      n (size (tombstones r)) +:+ " key_packages=" +:+ n (size (pkgs r)) +:+ " max_messages=" +:+ n kMaxMessages +:+
      " kem=ML-KEM-1024 aead=AES-256-GCM").
End relay.
