(* ===== verification/PqMessenger.v ===== *)
(** * The messenger of a wallet ([include/addition/pq_session.hpp], [src/pq_session.cpp])

    Identities, key packages and sessions in files, the frames of the handshake and of a
    session, and the messages of a wallet over the relay. [None] is an exception of
    [std::stoull] on a file that does not hold a number. *)
From S2P Require Import Prelude Strings Lines Crypto Types StateStore PqSession PmRelay.

Record Messenger := mkMessenger { m_dir : string; m_files : gmap string string; m_relay : option PmStore }.
Definition write_file (path text : string) (m : Messenger) : Messenger :=
  mkMessenger (m_dir m) (<[path := text]> (m_files m)) (m_relay m).
Definition set_m_relay (r : PmStore) (m : Messenger) : Messenger := mkMessenger (m_dir m) (m_files m) (Some r).

(** [in >> word] on what is left of a stream; an empty word is the end. *)
Definition next_word (s : string) : string * string := word (skip_spaces s).
Definition after_line (s : string) : string := default "" (getline nl (Some s)).2.

Section messenger.
Context {C : Crypto} {P : PmCrypto} {IO : IterationOrder}.

Definition id_path (m : Messenger) (wallet : string) : string := m_dir m +:+ "/" +:+ wallet +:+ ".idkey".
Definition kp_path (m : Messenger) (wallet : string) : string := m_dir m +:+ "/" +:+ wallet +:+ ".kp".
Definition session_path (m : Messenger) (wallet sid : string) : string :=
  m_dir m +:+ "/sessions/" +:+ wallet +:+ "/" +:+ sid +:+ ".s".

(** ** Identities and key packages *)

Definition load_identity (wallet : string) (coins : option string) (m : Messenger) : Messenger * result (string * string) :=
  if negb (safe_name wallet) then (m, Err "invalid wallet name")
  else
    match m_files m !! id_path m wallet with
    | Some text =>
        (m, match unhex (nth 0 (words text) ""), unhex (nth 1 (words text) "") with
            | Some pk, Some sk => if (String.length pk =? Z.to_nat 2592)%nat then Ok (pk, sk) else Err "corrupt identity key"
            | _, _ => Err "corrupt identity key"
            end)
    | None =>
        match coins with
        | None => (m, Err "no messaging identity (run msg_kp_publish)")
        | Some coins =>
            match sig_keypair coins with
            | None => (m, Err "ML-DSA-87 keygen failed")
            | Some (pk, sk) => (write_file (id_path m wallet) (unlines [bytes_to_hex pk; bytes_to_hex sk]) m, Ok (pk, sk))
            end
        end
    end.
(** The last package of the file, if it can be read. *)
Fixpoint scan_package (fuel : nat) (s : string) (found : bool) (k : KeyPackage) : bool * KeyPackage :=
  match fuel with
  | O => (found, k)
  | S fuel =>
      let '(tag, s) := next_word s in
      if is_empty tag then (found, k)
      else
        let '(v, s') := next_word s in
        if String.eqb tag "kp" && negb (is_empty v) then
          match from_hex v with Ok k => scan_package fuel s' true k | Err _ => scan_package fuel s' false k end
        else scan_package fuel (after_line s) found k
  end.
Definition no_package : KeyPackage := mkKeyPackage "-" "" "" "" 0 0 "".
Definition load_package (now : Z) (wallet : string) (m : Messenger) : result KeyPackage :=
  let text := default "" (m_files m !! kp_path m wallet) in
  match scan_package (S (String.length text)) text false no_package with
  | (false, _) => Err "no key package for wallet (run msg_kp_publish)"
  | (true, k) => _ ← kp_verify now k; Ok k
  end.
(** [in >> h >> exp >> skh] *)
Definition init_entry (s : string) : option (string * string * string * string) :=
  let '(h, s) := next_word s in
  let '(exp, s) := next_word s in
  let '(skh, s) := next_word s in
  if is_empty skh then None else Some (h, exp, skh, s).
Fixpoint scan_init (fuel : nat) (now : Z) (hash s : string) : outcome string :=
  match fuel with
  | O => err "unknown or expired key package"
  | S fuel =>
      let '(tag, s) := next_word s in
      if is_empty tag then err "unknown or expired key package"
      else if String.eqb tag "init" then
        match init_entry s with
        | None => err "unknown or expired key package"
        | Some (h, exp, skh, s) =>
            if String.eqb h hash then
              exp ← stoull_or_throw exp;
              if exp <=? now then err "unknown or expired key package"
              else match unhex skh with Some sk => ok sk | None => scan_init fuel now hash s end
            else scan_init fuel now hash s
        end
      else if String.eqb tag "kp" then scan_init fuel now hash (after_line s)
      else scan_init fuel now hash s
  end.
Definition find_init_sk (now : Z) (wallet hash : string) (m : Messenger) : outcome string :=
  let text := default "" (m_files m !! kp_path m wallet) in
  scan_init (S (String.length text)) now hash text.
Definition init_line (h exp skh : string) : string := "init " +:+ h +:+ " " +:+ exp +:+ " " +:+ skh.
(** The entries of the old file that have not expired. *)
Fixpoint kept_inits (fuel : nat) (now : Z) (s : string) : outcome (list string) :=
  match fuel with
  | O => ok []
  | S fuel =>
      let '(tag, s) := next_word s in
      if is_empty tag then ok []
      else
        match (if String.eqb tag "init" then init_entry s else None) with
        | Some (h, exp, skh, s) =>
            e ← stoull_or_throw exp;
            ls ← kept_inits fuel now s;
            ok (if now <? e then init_line h exp skh :: ls else ls)
        | None => if String.eqb tag "init" then ok [] else kept_inits fuel now (after_line s)
        end
  end.

Record PublishRand := mkPublishRand { pr_identity : string; pr_relay : string; pr_init : string }.
(** The contact string and the fingerprint. *)
Definition publish (now : Z) (d : PublishRand) (wallet handle : string) (days : Z) (m : Messenger) :
    Messenger * outcome (string * string) :=
  match m_relay m with
  | None => (m, err "pm relay disabled")
  | Some _ =>
      match load_identity wallet (Some (pr_identity d)) m with
      | (m, Err e) => (m, err e)
      | (m, Ok (id_pk, id_sk)) =>
          let '(r, x) := ensure_key wallet (pr_relay d) (default (empty_store "") (m_relay m)) in
          let m := set_m_relay r m in
          match x with
          | Err e => (m, err e)
          | Ok (relay_hex, _) =>
              match kem_keypair (pr_init d) with
              | None => (m, err "ML-KEM-1024 keygen failed")
              | Some (init_pub, init_sk) =>
                  let index := if is_empty handle || String.eqb handle "-" then "-" else handle_index handle in
                  let expires := u64 (now + Z.min (Z.max days 1) 30 * 24 * 3600) in
                  let unsigned := mkKeyPackage index id_pk init_pub (default "" (unhex relay_hex)) now expires "" in
                  match sig_sign id_sk (tbs unsigned) with
                  | None => (m, err "ML-DSA-87 signing failed")
                  | Some sig =>
                      let k := mkKeyPackage index id_pk init_pub (relay_pub unsigned) now expires sig in
                      let old := default "" (m_files m !! kp_path m wallet) in
                      match kept_inits (S (String.length old)) now old with
                      | None => (m, None)
                      | Some (Err e) => (m, err e)
                      | Some (Ok kept) =>
                          let m := write_file (kp_path m wallet)
                            (unlines (("kp " +:+ kp_hex k) :: kept ++ [init_line (kp_hash k) (to_string expires) (bytes_to_hex init_sk)])) m in
                          let '(r, y) := if String.eqb index "-" then (r, Ok ()) else publish_package now (kp_hex k) r in
                          let m := set_m_relay r m in
                          (m, match y with Err e => err e | Ok _ => ok ("addc1:" +:+ kp_hex k, fingerprint id_pk) end)
                      end
                  end
              end
          end
      end
  end.
Definition lookup_package (now : Z) (x : string) (m : Messenger) : result KeyPackage :=
  k ← (if starts_with "addc1:" x then from_hex x
       else match m_relay m with
            | None => Err "pm relay disabled"
            | Some r =>
                hex ← find_package now (handle_index x) r;
                k ← from_hex hex;
                reject_if negb (String.eqb (kp_index k) (handle_index x)) as "directory entry index mismatch" ;;
                Ok k
            end);
  _ ← kp_verify now k;
  Ok k.

(** ** Sessions *)

Definition load_session (wallet sid : string) (m : Messenger) : outcome Session :=
  if negb (safe_name wallet) || negb (safe_name sid) then err "invalid name"
  else
    match m_files m !! session_path m wallet sid with
    | None => err "unknown session"
    | Some text => match parse text with None => None | Some (Err _) => err "unknown session" | Some (Ok s) => ok s end
    end.
Definition save_session (wallet : string) (s : Session) (m : Messenger) : Messenger :=
  write_file (session_path m wallet (sid s)) (ser s) m.
Definition send_frame (r : Rand) (wallet sid text : string) (m : Messenger) : Messenger * outcome string :=
  match (s ← load_session wallet sid m; Some (encrypt r s text)) with
  | None => (m, None)
  | Some (Err e) => (m, err e)
  | Some (Ok (s, f)) => (save_session wallet s m, ok (frame_body f))
  end.

(** ** The handshake *)

Definition transcript (sid peer_hash my_hash ct pub : string) : string :=
  "AMLS1-INIT|" +:+ sid +:+ "|" +:+ peer_hash +:+ "|" +:+ my_hash +:+ "|" +:+ h32 ct +:+ "|" +:+ h32 pub.
Record Init := mkInit { i_sid : string; i_kp_hash : string; i_package : string; i_ct1 : string; i_rk_pub : string;
                        i_sig : string; i_iv : string; i_ct : string }.
Definition init_body (i : Init) : string :=
  "AMI1" +:+ put (i_sid i) +:+ put (i_kp_hash i) +:+ put (i_package i) +:+ put (i_ct1 i) +:+ put (i_rk_pub i) +:+
  put (i_sig i) +:+ put (i_iv i) +:+ put (i_ct i).
Definition root_key (t ss : string) : string := str_take 32 (hmac (sha3_512_bytes t) "AMLS1 init" ss).
Definition first_chain (rk : string) : string := str_take 32 (hmac rk "AMLS1 chain-i" "").
Definition init_aad (t : string) : string := "AMLS1|I|" +:+ h32 t.
(** The frame and the session of the initiator. *)
Definition start_init (r : Rand) (id_pk id_sk : string) (mine peer : KeyPackage) (text : string) : result (Session * Init) :=
  match kem_encaps (r_encaps r) (init_pub peer), kem_keypair (r_keypair r) with
  | Some (ct1, ss1), Some (pub, sk) =>
      let sid := bytes_to_hex (r_sid r) in
      let t := transcript sid (kp_hash peer) (kp_hash mine) ct1 pub in
      sig ← or_err "ML-DSA-87 signing failed" (sig_sign id_sk t);
      let rk := root_key t ss1 in
      let '(mk, ck) := kdf_ck (first_chain rk) in
      Ok (mkSession sid (fingerprint (identity_pub peer)) (fingerprint id_pk) (identity_pub peer) (relay_pub peer)
            rk ck "" 1 0 0 pub sk "" "" "" "" "-" false ∅,
          mkInit sid (kp_hash peer) (encode mine) ct1 pub sig (r_iv r) (gcm_seal mk (r_iv r) (init_aad t) text))
  | _, _ => Err "handshake keygen failed"
  end.
Definition start_frame (now : Z) (r : Rand) (wallet : string) (peer : KeyPackage) (text : string) (m : Messenger) :
    Messenger * result (string * string) :=
  match (_ ← kp_verify now peer;
         '(id_pk, id_sk) ← (load_identity wallet None m).2;
         mine ← load_package now wallet m;
         start_init r id_pk id_sk mine peer text) with
  | Err e => (m, Err e)
  | Ok (s, i) => (save_session wallet s m, Ok (sid s, init_body i))
  end.

Definition parse_init (frame : string) : option Init :=
  r ← magic "AMI1" frame;
  '(sid, r) ← get 64 r;
  '(hash, r) ← get 64 r;
  '(package, r) ← get 16384 r;
  '(ct1, r) ← get 4096 r;
  '(pub, r) ← get 4096 r;
  '(sig, r) ← get 8192 r;
  '(iv, r) ← get 64 r;
  '(ct, r) ← get 40000 r;
  if is_empty r && (String.length iv =? 12)%nat && safe_name sid then Some (mkInit sid hash package ct1 pub sig iv ct) else None.
Definition parse_frame (frame : string) : option Frame :=
  r ← magic "AMM1" frame;
  '(sid, r) ← get 64 r;
  '(pub, r) ← get 4096 r;
  '(step, r) ← get 4096 r;
  '(to, r) ← get 64 r;
  '(pn, r) ← get64 r;
  '(n, r) ← get64 r;
  '(iv, r) ← get 64 r;
  '(ct, r) ← get 40000 r;
  if is_empty r && (String.length iv =? 12)%nat && (pn <=? 4294967295) && (n <=? 4294967295)
  then Some (mkFrame sid pub step to pn n iv ct) else None.
(** The session that an initial frame of [sender] opens, and its text. *)
Definition accept_init (i : Init) (init_sk id_pk : string) (sender : KeyPackage) : result (Session * string) :=
  let t := transcript (i_sid i) (i_kp_hash i) (kp_hash sender) (i_ct1 i) (i_rk_pub i) in
  ss1 ← or_err "decapsulation failed" (kem_decaps init_sk (i_ct1 i));
  let rk := root_key t ss1 in
  let '(mk, ck) := kdf_ck (first_chain rk) in
  text ← or_err "authentication failed" (aead_open mk (i_iv i) (init_aad t) (i_ct i));
  Ok (mkSession (i_sid i) (fingerprint (identity_pub sender)) (fingerprint id_pk) (identity_pub sender)
        (relay_pub sender) rk "" ck 0 1 0 "" "" "" "" (i_rk_pub i) "" "-" true ∅, text).
Definition open_init (now : Z) (wallet : string) (i : Init) (m : Messenger) : outcome (Session * string) :=
  match load_session wallet (i_sid i) m with
  | None => None
  | Some (Ok _) => err "duplicate or replayed message"
  | Some (Err _) =>
      sender ← Some (k ← decode (i_package i); _ ← kp_verify now k; Ok k);
      let t := transcript (i_sid i) (i_kp_hash i) (kp_hash sender) (i_ct1 i) (i_rk_pub i) in
      if negb (sig_verify (identity_pub sender) t (i_sig i)) then err "init: bad ML-DSA-87 signature"
      else
        sk ← find_init_sk now wallet (i_kp_hash i) m;
        match kem_decaps sk (i_ct1 i) with
        | None => err "decapsulation failed"
        | Some _ =>
            id ← Some (load_identity wallet None m).2;
            Some (accept_init i sk id.1 sender)
        end
  end.
(** The session id, the sender's fingerprint and the text. *)
Definition open_frame (now : Z) (wallet frame : string) (m : Messenger) : Messenger * outcome (string * string * string) :=
  let done (x : outcome (Session * string)) : Messenger * outcome (string * string * string) :=
    match x with
    | None => (m, None)
    | Some (Err e) => (m, err e)
    | Some (Ok (s, text)) => (save_session wallet s m, ok (sid s, peer_fp s, text))
    end in
  if starts_with "AMI1" frame then
    match parse_init frame with None => (m, err "malformed init frame") | Some i => done (open_init now wallet i m) end
  else
    match parse_frame frame with
    | None => (m, err "malformed frame")
    | Some f => done (s ← load_session wallet (f_sid f) m; Some (decrypt f s))
    end.

(** ** Over the relay *)

Definition relay_frame (now : Z) (d : PmRand) (relay_pub frame : string) (ttl : Z) (m : Messenger) : Messenger * result () :=
  match m_relay m with
  | None => (m, Err "pm relay disabled")
  | Some r => let '(r, x) := pm_send_frame now d (bytes_to_hex relay_pub) frame ttl r in (set_m_relay r m, _ ← x; Ok ())
  end.
Definition start (now : Z) (r : Rand) (d : PmRand) (wallet peer text : string) (ttl : Z) (m : Messenger) :
    Messenger * outcome string :=
  match m_relay m with
  | None => (m, err "pm relay disabled")
  | Some _ =>
      match lookup_package now peer m with
      | Err e => (m, err e)
      | Ok k =>
          match start_frame now r wallet k text m with
          | (m, Err e) => (m, err e)
          | (m, Ok (sid, frame)) =>
              let '(m, x) := relay_frame now d (relay_pub k) frame ttl m in (m, match x with Ok _ => ok sid | Err e => err e end)
          end
      end
  end.
Definition send (now : Z) (r : Rand) (d : PmRand) (wallet sid text : string) (ttl : Z) (m : Messenger) : Messenger * outcome () :=
  match m_relay m with
  | None => (m, err "pm relay disabled")
  | Some _ =>
      match load_session wallet sid m with
      | None => (m, None)
      | Some (Err e) => (m, err e)
      | Some (Ok s) =>
          match send_frame r wallet sid text m with
          | (m, Some (Ok frame)) => let '(m, x) := relay_frame now d (peer_relay s) frame ttl m in (m, Some x)
          | (m, Some (Err e)) => (m, err e)
          | (m, None) => (m, None)
          end
      end
  end.

Definition session_frame (plain : string) : bool := starts_with "AMI1" plain || starts_with "AMM1" plain.
(** One envelope: [None] in the place of the line: it stays for the next pass. *)
Definition receive_one (now : Z) (wallet id plain : string) (m : Messenger) : Messenger * outcome (option string) :=
  let '(m, x) := open_frame now wallet plain m in
  let done (l : string) :=
    let r := (pm_remove wallet id (default (empty_store "") (m_relay m))).1 in (set_m_relay r m, ok (Some l)) in
  match x with
  | None => (m, None)
  | Some (Ok (sid, fp, text)) => done ("session=" +:+ sid +:+ " from=" +:+ fp +:+ " text=" +:+ text)
  | Some (Err e) =>
      if String.eqb e "unknown session" || starts_with "out-of-order" e then (m, ok None)
      else done ("rejected msg_id=" +:+ id +:+ " (" +:+ e +:+ ")")
  end.
(** One pass: what stays and the lines. *)
Fixpoint receive_pass (now : Z) (wallet : string) (items : list (string * string)) (m : Messenger) :
    Messenger * outcome (list (string * string) * list string) :=
  match items with
  | [] => (m, ok ([], []))
  | (id, plain) :: items =>
      match receive_one now wallet id plain m with
      | (m, None) => (m, None)
      | (m, Some (Err e)) => (m, err e)
      | (m, Some (Ok x)) =>
          let '(m, y) := receive_pass now wallet items m in
          (m, '(rest, ls) ← y; ok (match x with None => ((id, plain) :: rest, ls) | Some l => (rest, l :: ls) end))
      end
  end.
Fixpoint receive_passes (n : nat) (now : Z) (wallet : string) (items : list (string * string)) (m : Messenger) :
    Messenger * outcome (list (string * string) * list string) :=
  match n with
  | O => (m, ok (items, []))
  | S n =>
      match receive_pass now wallet items m with
      | (m, None) => (m, None)
      | (m, Some (Err e)) => (m, err e)
      | (m, Some (Ok (items, ls))) =>
          let '(m, y) := receive_passes n now wallet items m in (m, '(rest, ls') ← y; ok (rest, ls ++ ls'))
      end
  end.
(** The number of deferred frames and the lines of the report. *)
Definition receive (now : Z) (wallet : string) (m : Messenger) : Messenger * outcome (nat * list string) :=
  match m_relay m with
  | None => (m, err "pm relay disabled")
  | Some r =>
      match read_all now wallet r with
      | (r, Err e) => (set_m_relay r m, err e)
      | (r, Ok items) =>
          let items := filter (λ x, starts_with "AMI1" x.2 = true) items ++ filter (λ x, starts_with "AMI1" x.2 = false) items in
          let items := filter (λ x, session_frame x.2 = true) items in
          let '(m, y) := receive_passes 3 now wallet items (set_m_relay r m) in
          (m, '(rest, ls) ← y; ok (length rest, ls))
      end
  end.
End messenger.
