(* ===== verification/PqSessionProofs.v ===== *)
(** * The ratchet keeps two sessions together

    Two sessions that a handshake has set up exchange frames; the network delivers them in
    any order. Ghost state: the epochs, one for each chain of message keys, which the two
    sides start in turn. *)
From stdpp Require Import sorting functions.
From S2P Require Import Prelude Strings Lines Crypto Types Block PqSession PmRelay PqMessenger.

(** What the protocol relies on in liboqs and OpenSSL, with the sizes of ML-KEM-1024 (ML-KEM fails to decapsulate with
    negligible probability; here it never does). *)
Class PmLaws {P : PmCrypto} := {
  kem_sizes k : OQS_KEM_ml_kem_1024 = Some k → k = mkKemSizes (Z.to_nat 1568) (Z.to_nat 3168) (Z.to_nat 1568) 32;
  keypair_sizes k coins pk sk : OQS_KEM_ml_kem_1024 = Some k → OQS_KEM_keypair coins = Some (pk, sk) →
    String.length pk = kem_pk_size k ∧ String.length sk = kem_sk_size k ∧ pk ≠ "";
  encaps_sizes k coins pk ct ss : OQS_KEM_ml_kem_1024 = Some k → OQS_KEM_encaps coins pk = Some (ct, ss) →
    String.length ct = kem_ct_size k ∧ ct ≠ "";
  decaps_encaps coins coins' pk sk ct ss :
    OQS_KEM_keypair coins = Some (pk, sk) → OQS_KEM_encaps coins' pk = Some (ct, ss) → OQS_KEM_decaps sk ct = Some ss;
  hmac_size key msg : String.length (HMAC_sha3_512 key msg) = 64%nat;
  gcm_opens key iv aad text : gcm_open key iv aad (gcm_seal key iv aad text) = Some text;
  gcm_size key iv aad text : String.length (gcm_seal key iv aad text) = (String.length text + 16)%nat;
}.
Arguments PmLaws : clear implicits.

Section ratchet.
Context {C : Crypto} {P : PmCrypto} {L : PmLaws P}.

(** ** Chains of keys *)

Fixpoint chain_at (ck : string) (n : nat) : string :=
  match n with O => ck | S n => chain_at (kdf_ck ck).2 n end.
Definition message_key_at (ck : string) (n : nat) : string := (kdf_ck (chain_at ck n)).1.
Lemma chain_at_S ck n : chain_at ck (S n) = (kdf_ck (chain_at ck n)).2.
Proof. revert ck. induction n as [|n IH]; intros ck; [done|]. cbn [chain_at] in *. by rewrite IH. Qed.
Lemma chain_key_size ck : String.length (kdf_ck ck).2 = 32%nat.
Proof. unfold kdf_ck, hmac. cbn [snd]. by rewrite str_length_take, hmac_size. Qed.
Lemma chain_at_size ck n : String.length ck = 32%nat → String.length (chain_at ck n) = 32%nat.
Proof. destruct n; [done|]. intros _. rewrite chain_at_S. apply chain_key_size. Qed.
Lemma kdf_rk_size rk ss : String.length (kdf_rk rk ss).2 = 32%nat.
Proof. unfold kdf_rk, hmac. cbn [snd]. by rewrite str_length_take, str_length_drop, hmac_size. Qed.
Lemma skip_key_inj p p' (n n' : nat) :
  Z.of_nat n < W64 → Z.of_nat n' < W64 → skip_key p (Z.of_nat n) = skip_key p' (Z.of_nat n') → h32 p = h32 p' ∧ n = n'.
Proof.
  intros Hn Hn' H. unfold skip_key in H. change (":" +:+ ?x) with (String ":" x) in H.
  apply split_unique_r in H as [H1 H2]; [|by apply to_string_free_of..]. split; [done|].
  apply to_string_inj in H2; unfold is_u64 in *; lia.
Qed.

(** ** Two sessions and the frames between them *)

Record Sent := mkSent { from : bool; frame : Frame; sent_text : string; seen : bool }.
(** [side true] started the session; [keys]: the public keys of all chains so far. *)
Record World := mkWorld { side : bool → Session; sent : list Sent; keys : list string }.
Definition set_side (x : bool) (s : Session) (w : World) (l : list Sent) (ks : list string) : World :=
  mkWorld (λ y, if Bool.eqb y x then s else side w y) l ks.
Definition unseen (x : bool) (l : list Sent) : list Sent := filter (λ m, from m = x ∧ seen m = false) l.
Definition mark_seen (m : Sent) : Sent := mkSent (from m) (frame m) (sent_text m) true.

(** What two sessions do: a side sends a text, or a frame that the other side sent and that
    has not been read arrives and is accepted. At most 256 frames of a side are on their way,
    fewer than 2^32 frames are sent, and a new chain has a key of its own. *)
Inductive exchange (w0 : World) : World → Prop :=
  | ex_start : exchange w0 w0
  | ex_send w x r text s f :
      exchange w0 w → String.length (r_iv r) = 12%nat → encrypt r (side w x) text = Ok (s, f) →
      (length (unseen x (sent w)) < 256)%nat → Z.of_nat (length (sent w)) < W32 - 2 →
      (need_step (side w x) = true → h32 (my_pub s) ∉ h32 <$> keys w) →
      exchange w0 (set_side x s w (sent w ++ [mkSent x f text false])
                     (if need_step (side w x) then keys w ++ [my_pub s] else keys w))
  | ex_deliver w i m s text :
      exchange w0 w → sent w !! i = Some m → seen m = false → decrypt (frame m) (side w (negb (from m))) = Ok (s, text) →
      exchange w0 (set_side (negb (from m)) s w (<[i := mark_seen m]> (sent w)) (keys w)).

(** ** Epochs *)

(** One for each chain. Even ones are those of the side that started the session, the first
    is number 2. [ep_root]: the root key when it starts. *)
Record Epoch := mkEpoch { ep_pub : string; ep_sk : string; ep_root : string; ep_ck : string; ep_ct : string;
                          ep_to : string; ep_pn : nat }.
Implicit Types (ep : nat → Epoch) (cnt : nat → nat) (pend : gset (nat * nat)) (k n h : nat).

Definition passed h q k n : Prop := (k < h ∨ (k = h ∧ n < q))%nat.
(** The chains from 2 to [hi], [cnt k] frames in chain [k]. *)
Record epochs_ok ep cnt (hi : nat) : Prop := {
  ep_named k : (2 ≤ k ≤ hi)%nat → ep_pub (ep k) ≠ "" ∧ String.length (ep_ck (ep k)) = 32%nat;
  ep_pair k : (2 ≤ k ≤ hi)%nat → ∃ coins, OQS_KEM_keypair coins = Some (ep_pub (ep k), ep_sk (ep k));
  ep_distinct k k' : (2 ≤ k ≤ hi)%nat → (2 ≤ k' ≤ hi)%nat → h32 (ep_pub (ep k)) = h32 (ep_pub (ep k')) → k = k';
  ep_link k : (3 ≤ k ≤ hi)%nat →
    ep_ct (ep k) ≠ "" ∧ ep_to (ep k) = h32 (ep_pub (ep (k - 1)%nat)) ∧ ep_pn (ep k) = cnt (k - 2)%nat ∧
    ∃ ss, kem_decaps (ep_sk (ep (k - 1)%nat)) (ep_ct (ep k)) = Some ss ∧
          kdf_rk (ep_root (ep (k - 1)%nat)) ss = (ep_root (ep k), ep_ck (ep k));
  ep_small k : Z.of_nat (cnt k) < W32;
}.
(** The receiving half of a session: it has heard of chain [h], [q] is the next frame of it;
    [pend] are the frames on their way. *)
Record receiving_ok ep cnt (hi : nat) pend h (q : nat) (s : Session) : Prop := {
  rc_h : (h ≤ hi)%nat;
  rc_q : (q ≤ cnt h)%nat;
  rc_nr : nr s = Z.of_nat q;
  rc_old : (h < 2)%nat → peer_rk s = "" ∧ ckr s = "" ∧ cnt h = O;
  rc_key : (2 ≤ h)%nat → peer_rk s = ep_pub (ep h) ∧ ckr s = chain_at (ep_ck (ep h)) q;
  rc_first : h = 2%nat → (1 ≤ q)%nat;
  rc_pend k n : (k, n) ∈ pend → (2 ≤ k ≤ hi)%nat ∧ (n < cnt k)%nat ∧ Nat.even k = Nat.even h;
  rc_rest k n : (2 ≤ k ≤ hi)%nat → Nat.even k = Nat.even h → (n < cnt k)%nat → (k = 2 → 1 ≤ n)%nat →
    ¬ passed h q k n → (k, n) ∈ pend;
  rc_skip i mk : skipped s !! i = Some mk ↔
    ∃ k n, (k, n) ∈ pend ∧ passed h q k n ∧ i = skip_key (ep_pub (ep k)) (Z.of_nat n) ∧
           mk = message_key_at (ep_ck (ep k)) n;
  rc_size : (size pend ≤ 256)%nat;
}.

Arguments rc_h {_ _ _ _ _ _ _} _.
Arguments rc_q {_ _ _ _ _ _ _} _.
Arguments rc_nr {_ _ _ _ _ _ _} _.
Arguments rc_old {_ _ _ _ _ _ _} _.
Arguments rc_key {_ _ _ _ _ _ _} _.
Arguments rc_first {_ _ _ _ _ _ _} _.
Arguments rc_pend {_ _ _ _ _ _ _} _.
Arguments rc_rest {_ _ _ _ _ _ _} _.
Arguments rc_skip {_ _ _ _ _ _ _} _.
Arguments rc_size {_ _ _ _ _ _ _} _.
Arguments ep_named {_ _ _} _.
Arguments ep_pair {_ _ _} _.
Arguments ep_distinct {_ _ _} _.
Arguments ep_link {_ _ _} _.
Arguments ep_small {_ _ _} _.
Ltac keep R := try first [exact (rc_h R) | exact (rc_q R) | exact (rc_nr R) | exact (rc_old R) | exact (rc_key R) | exact (rc_first R)
                           | exact (rc_pend R) | exact (rc_size R)].

Lemma message_key_at_shift ck n i : message_key_at (chain_at ck n) i = message_key_at ck (n + i).
Proof.
  unfold message_key_at. f_equal. f_equal. revert ck. induction n as [|n IH]; intros ck; [done|]. apply IH.
Qed.
Lemma skip_keys_spec c p j s n :
  ckr s = chain_at c n → nr s = Z.of_nat n → peer_rk s = p → Z.of_nat (n + j) < W32 →
  ∃ m, skip_keys j s = with_receiving (chain_at c (n + j)) (Z.of_nat (n + j)) m s ∧
    ∀ i mk, m !! i = Some mk ↔
      (∃ q, (n ≤ q < n + j)%nat ∧ i = skip_key p (Z.of_nat q) ∧ mk = message_key_at c q) ∨
      (skipped s !! i = Some mk ∧ ∀ q, (n ≤ q < n + j)%nat → i ≠ skip_key p (Z.of_nat q)).
Proof.
  revert s n. induction j as [|j IH]; intros s n Hc Hn Hp Hw.
  - exists (skipped s). rewrite Nat.add_0_r, <- Hc, <- Hn. split; [by destruct s|]. intros i mk. split.
    + intros H. right. split; [done|]. intros q Hq. lia.
    + intros [(q & Hq & _)|[H _]]; [lia|done].
  - cbn [skip_keys]. rewrite (surjective_pairing (kdf_ck (ckr s))), Hc, <- chain_at_S, Hp, Hn.
    assert (Hu : u32 (Z.of_nat n + 1) = Z.of_nat (S n)) by (rewrite u32_small; unfold is_u32; lia). rewrite Hu.
    destruct (IH (with_receiving (chain_at c (S n)) (Z.of_nat (S n))
                    (<[skip_key p (Z.of_nat n) := (kdf_ck (chain_at c n)).1]> (skipped s)) s) (S n))
      as (m & Hm & Hl); [done..|lia|].
    exists m. rewrite Hm. split; [by rewrite <- Nat.add_succ_comm|]. intros i mk. rewrite Hl. cbn [skipped with_receiving].
    rewrite lookup_insert_Some. split.
    + intros [(q & Hq & H)|[[[<- <-]|[Hne H]] Hf]].
      * left. exists q. split; [lia|done].
      * left. exists n. split; [lia|done].
      * right. split; [done|]. intros q Hq ->. destruct (decide (q = n)) as [->|]; [done|]. by apply (Hf q); [lia|].
    + intros [(q & Hq & -> & ->)|[H Hf]].
      * destruct (decide (q = n)) as [->|]; [|left; exists q; split; [lia|done]].
        right. split; [by left|]. intros q' Hq' E. apply skip_key_inj in E as [_ ->]; lia.
      * right. split; [|intros q Hq; apply Hf; lia]. right. split; [|done]. intros <-. by apply (Hf n); [lia|].
Qed.

(** ** Receiving *)

Lemma keys_bounded {A B} `{Countable B} (m : gmap string A) (X : gset B) (f : B → string) :
  (∀ i a, m !! i = Some a → ∃ b, b ∈ X ∧ i = f b) → (size m ≤ size X)%nat.
Proof.
  intros H1. rewrite <- (size_dom (D := gset string)). unfold size at 1 2, set_size. cbn.
  rewrite <- (length_fmap f (elements X)). apply submseteq_length, NoDup_submseteq; [apply NoDup_elements|].
  intros i Hi%elem_of_elements. apply elem_of_dom in Hi as [a Ha]. destruct (H1 i a Ha) as (b & Hb & ->).
  apply list_elem_of_fmap. exists b. split; [done|]. by apply elem_of_elements.
Qed.
Lemma gap_bounded pend h (q u : nat) :
  (∀ n, (q ≤ n < u)%nat → (h, n) ∈ pend) → (u - q ≤ size pend)%nat.
Proof.
  intros H. assert (Hs : list_to_set ((h,.) <$> seq q (u - q)) ⊆ pend).
  { intros x (n & -> & Hn%elem_of_seq)%elem_of_list_to_set%list_elem_of_fmap. apply H. lia. }
  apply subseteq_size in Hs. rewrite size_list_to_set, length_fmap, length_seq in Hs; [done|].
  apply NoDup_fmap_2, NoDup_seq. by intros ? ? [= ->].
Qed.

Section receive.
Context ep cnt (hi : nat) (Hep : epochs_ok ep cnt hi).

(** The frames before [u] are passed over: their keys are kept. *)
Lemma skip_to_ok pend h q s (u : nat) :
  receiving_ok ep cnt hi pend h q s → (2 ≤ h)%nat → (q ≤ u ≤ cnt h)%nat →
  ∃ m, let s' := with_receiving (chain_at (ep_ck (ep h)) u) (Z.of_nat u) m s in
    skip_to (Z.of_nat u) s = Some s' ∧ receiving_ok ep cnt hi pend h u s'.
Proof.
  intros R Hh Hu. destruct (rc_key R Hh) as [Hp Hc]. pose proof (rc_h R) as Hhi.
  destruct (ep_named Hep h ltac:(lia)) as [_ Hl]. pose proof (ep_small Hep h) as Hsm.
  assert (Hin : ∀ n, (q ≤ n < u)%nat → (h, n) ∈ pend).
  { intros n Hn. apply (rc_rest R); [lia|done|lia| |unfold passed; lia].
    intros ->. pose proof (rc_first R eq_refl). lia. }
  pose proof (gap_bounded _ _ _ _ Hin) as Hgap. pose proof (rc_size R) as Hsz.
  destruct (skip_keys_spec (ep_ck (ep h)) (ep_pub (ep h)) (u - q) s q Hc (rc_nr R) Hp ltac:(lia))
    as (m & Hm & Hlk).
  replace (q + (u - q))%nat with u in * by lia. exists m. cbv zeta.
  assert (R' : receiving_ok ep cnt hi pend h u (with_receiving (chain_at (ep_ck (ep h)) u) (Z.of_nat u) m s)).
  { split; keep R; cbn; [lia|done|lia|done| | |].
    - intros E. pose proof (rc_first R E). lia.
    - intros k n Hk He Hn H0 Hno. apply (rc_rest R); try done. unfold passed in *. lia.
    - intros i mk. rewrite Hlk, (rc_skip R). split.
      + intros [(n & Hn & -> & ->)|[(k & n & Hk & Hpa & H') _]]; [exists h, n|exists k, n].
        * split; [by apply Hin|]. split; [unfold passed; lia|done].
        * split; [done|]. split; [unfold passed in *; lia|done].
      + intros (k & n & Hk & Hpa & -> & ->). destruct (rc_pend R k n Hk) as (Hk1 & Hk2 & _).
        destruct (decide (k = h ∧ (q ≤ n)%nat)) as [[-> Hq]|Hne].
        * left. exists n. unfold passed in Hpa. split; [lia|done].
        * right. split; [exists k, n; split; [done|]; split; [unfold passed in *; lia|done]|].
          intros n' Hn' E. pose proof (ep_small Hep k). pose proof (ep_small Hep h).
          apply skip_key_inj in E as [E ->]; [|lia..]. apply (ep_distinct Hep) in E as ->; lia. }
  split; [|done]. unfold skip_to. rewrite Hc, chain_at_size by done. cbn [Nat.eqb negb].
  rewrite (rc_nr R). replace (Z.of_nat q + kMaxSkip <? Z.of_nat u) with false
    by (symmetry; apply Z.ltb_ge; unfold kMaxSkip; lia).
  replace (Z.to_nat (Z.of_nat u - Z.of_nat q)) with (u - q)%nat by lia. rewrite Hm. cbn [skipped with_receiving].
  assert (Hm' : (size m ≤ size pend)%nat).
  { apply (keys_bounded m pend (λ x, skip_key (ep_pub (ep x.1)) (Z.of_nat x.2))). intros i a Ha.
    apply (rc_skip R') in Ha as (k & n & Hk & _ & -> & _). by exists (k, n). }
  replace (size m - kMaxStoredSkipped)%nat with 0%nat by (unfold kMaxStoredSkipped; lia). done.
Qed.

(** The next frame of the chain is read. *)
Lemma read_next_ok pend h q s :
  receiving_ok ep cnt hi pend h q s → (2 ≤ h)%nat → (h, q) ∈ pend →
  receiving_ok ep cnt hi (pend ∖ {[(h, q)]}) h (S q)
    (with_receiving (chain_at (ep_ck (ep h)) (S q)) (Z.of_nat (S q)) (skipped s) s).
Proof.
  intros R Hh Hin. destruct (rc_pend R h q Hin) as (_ & Hq & _). split; keep R; cbn.
  - lia.
  - done.
  - lia.
  - intros _. split; [by apply R|done].
  - lia.
  - intros k n [H _]%elem_of_difference. by apply R.
  - intros k n Hk He Hn H0 Hno. apply elem_of_difference. rewrite elem_of_singleton. unfold passed in Hno. split.
    + apply (rc_rest R); try done. unfold passed. lia.
    + intros [= -> ->]. lia.
  - intros i mk. rewrite (rc_skip R). unfold passed. split.
    + intros (k & n & Hk & Hpa & H). exists k, n. rewrite elem_of_difference, elem_of_singleton.
      split; [split; [done|intros [= -> ->]; lia]|]. split; [lia|done].
    + intros (k & n & [Hk Hne]%elem_of_difference & Hpa & H). exists k, n. split; [done|]. split; [|done].
      destruct (decide (k = h ∧ n = q)) as [[-> ->]|]; [|lia]. by destruct Hne; apply elem_of_singleton.
  - pose proof (rc_size R). pose proof (subseteq_size (pend ∖ {[(h, q)]}) pend ltac:(set_solver)). lia.
Qed.
(** A frame whose key was kept is read. *)
Lemma read_kept_ok pend h q s k n :
  receiving_ok ep cnt hi pend h q s → (k, n) ∈ pend → passed h q k n →
  let i := skip_key (ep_pub (ep k)) (Z.of_nat n) in
  skipped s !! i = Some (message_key_at (ep_ck (ep k)) n) ∧
  receiving_ok ep cnt hi (pend ∖ {[(k, n)]}) h q (set_skipped (delete i (skipped s)) s).
Proof.
  intros R Hin Hpa i. split. { apply (rc_skip R). by exists k, n. }
  destruct (rc_pend R k n Hin) as (Hk & Hn & _). split; keep R; cbn.
  - intros k' n' [H _]%elem_of_difference. by apply R.
  - intros k' n' Hk' He Hn' H0 Hno. apply elem_of_difference. rewrite elem_of_singleton. split.
    + by apply (rc_rest R).
    + by intros [= -> ->].
  - intros j mk. rewrite lookup_delete_Some, (rc_skip R). split.
    + intros (Hne & k' & n' & Hk' & Hpa' & -> & ->). exists k', n'. rewrite elem_of_difference, elem_of_singleton.
      split; [|done]. split; [done|]. by intros [= -> ->].
    + intros (k' & n' & [Hk' Hne]%elem_of_difference & Hpa' & -> & ->). split; [|by exists k', n'].
      intros E. destruct (rc_pend R k' n' Hk') as (Hkk & Hnn & _).
      pose proof (ep_small Hep k). pose proof (ep_small Hep k').
      apply skip_key_inj in E as [E ->]; [|lia..]. apply (ep_distinct Hep) in E as ->; [|lia..].
      by destruct Hne; apply elem_of_singleton.
  - pose proof (rc_size R). pose proof (subseteq_size (pend ∖ {[(k, n)]}) pend ltac:(set_solver)). lia.
Qed.

(** The peer's next chain begins. *)
Definition hear (e : Epoch) (m : gmap string string) (s : Session) : Session :=
  mkSession (sid s) (peer_fp s) (my_fp s) (peer_identity s) (peer_relay s) (ep_root e) (cks s) (ep_ck e) (ns s) 0 (pn s)
    (my_pub s) (my_sk s) (prev_pub s) (prev_sk s) (ep_pub e) (step_ct s) (step_to s) true m.
Lemma even_gap a b : Nat.even a = Nat.even b → (a < S (S b))%nat → (a ≤ b)%nat.
Proof. intros He Hl. destruct (decide (a = S b)) as [->|]; [|lia]. rewrite Nat.even_succ, <- Nat.negb_even in He. by destruct (Nat.even b). Qed.
Lemma hear_ok pend h s :
  receiving_ok ep cnt hi pend h (cnt h) s → (1 ≤ h)%nat → (S (S h) ≤ hi)%nat →
  receiving_ok ep cnt hi pend (S (S h)) 0 (hear (ep (S (S h))) (skipped s) s).
Proof.
  intros R Hh Hk. assert (Hpa : ∀ k n, (k, n) ∈ pend → passed h (cnt h) k n ↔ passed (S (S h)) 0 k n).
  { intros k n Hin. destruct (rc_pend R k n Hin) as (_ & Hn & He). unfold passed. pose proof (even_gap k h He).
    split; [lia|]. intros Hp. destruct (decide (k = h)) as [->|]; lia. }
  split; keep R; cbn [peer_rk ckr nr skipped hear];
    [lia|lia|done|lia|done|lia| |].
  - intros k n Hk' He Hn H0 Hno. apply (rc_rest R); try done. unfold passed in *. lia.
  - intros i mk. rewrite (rc_skip R). split; intros (k & n & Hin & Hp & H); exists k, n; split; try done;
      (split; [by apply (Hpa k n Hin)|done]).
Qed.
Lemma new_chain_ok pend h q f s :
  receiving_ok ep cnt hi pend h q s → (1 ≤ h)%nat → (S (S h) ≤ hi)%nat →
  f_rk_pub f = ep_pub (ep (S (S h))) → f_step_ct f = ep_ct (ep (S (S h))) → f_to f = ep_to (ep (S (S h))) →
  f_pn f = Z.of_nat (ep_pn (ep (S (S h)))) →
  my_pub s = ep_pub (ep (S h)) → my_sk s = ep_sk (ep (S h)) → rk s = ep_root (ep (S h)) →
  ∃ m, new_chain f s = Ok (hear (ep (S (S h))) m s) ∧
       receiving_ok ep cnt hi pend (S (S h)) 0 (hear (ep (S (S h))) m s).
Proof.
  intros R Hh Hk Hfp Hfc Hft Hfn Hmp Hms Hrk.
  destruct (ep_link Hep (S (S h)) ltac:(lia)) as (Hct & Hto & Hpn & ss & Hss & Hkdf).
  destruct (ep_named Hep (S h) ltac:(lia)) as [Hne _].
  replace (S (S h) - 1)%nat with (S h) in * by lia. replace (S (S h) - 2)%nat with h in Hpn by lia.
  assert (Hs : ∃ s1, skip_to (f_pn f) s = Some s1 ∧ receiving_ok ep cnt hi pend h (cnt h) s1 ∧
                     ∃ c u m, s1 = with_receiving c u m s).
  { destruct (decide (2 ≤ h)%nat) as [H2|H2].
    - pose proof (rc_q R). destruct (skip_to_ok pend h q s (cnt h) R H2 ltac:(lia)) as (m & Hm & R'). eexists.
      rewrite Hfn, Hpn. split; [exact Hm|]. split; [exact R'|]. by eexists _, _, _.
    - exists s. destruct (rc_old R ltac:(lia)) as (_ & Hc & H0). pose proof (rc_q R).
      unfold skip_to. rewrite Hc. split; [done|]. rewrite H0 in *. replace q with 0%nat in R by lia. split; [done|].
      exists (ckr s), (nr s), (skipped s). by destruct s. }
  destruct Hs as (s1 & Hs & R1 & c & u & m & ->). exists m.
  pose proof (hear_ok pend h _ R1 Hh Hk) as R2. cbn [skipped with_receiving] in R2. split; [|exact R2].
  unfold new_chain. rewrite Hs, Hfc, Hft, Hfp. apply is_empty_false in Hct, Hne. rewrite Hct.
  cbn [or_err mbind result_bind my_pub my_sk rk with_receiving]. rewrite Hmp, Hne, Hto, String.eqb_refl. cbn [negb andb].
  rewrite Hms. cbn [mbind option_bind]. rewrite Hss. cbn [or_err mbind result_bind]. rewrite Hrk, Hkdf. unfold hear. by rewrite Hmp, Hms.
Qed.

(** A session whose own chain is [o], and which has heard of chain [h]. *)
Record session_ok pend (o h : nat) (s : Session) : Prop := {
  se_pub : my_pub s = ep_pub (ep o);
  se_sk : my_sk s = ep_sk (ep o);
  se_chain : cks s = chain_at (ep_ck (ep o)) (cnt o);
  se_ns : ns s = Z.of_nat (cnt o);
  se_pn : pn s = Z.of_nat (ep_pn (ep o));
  se_ct : step_ct s = ep_ct (ep o);
  se_to : step_to s = ep_to (ep o);
  se_root : rk s = ep_root (ep (Nat.max o h));
  se_need : need_step s = (o <? h)%nat;
  se_near : h = S o ∨ o = S h;
  se_h : (1 ≤ h)%nat;
  se_o : (1 ≤ o)%nat;
  se_recv : ∃ q, receiving_ok ep cnt hi pend h q s;
}.
(** Frame [n] of chain [k]. *)
Definition frame_of (k n : nat) (text : string) (f : Frame) : Prop :=
  f_rk_pub f = ep_pub (ep k) ∧ f_step_ct f = ep_ct (ep k) ∧ f_to f = ep_to (ep k) ∧
  f_pn f = Z.of_nat (ep_pn (ep k)) ∧ f_n f = Z.of_nat n ∧
  f_ct f = gcm_seal (message_key_at (ep_ck (ep k)) n) (f_iv f)
             (frame_aad (f_sid f) (f_rk_pub f) (f_step_ct f) (f_to f) (f_pn f) (f_n f)) text.
Lemma aead_opens mk iv aad text : aead_open mk iv aad (gcm_seal mk iv aad text) = Some text.
Proof.
  unfold aead_open. rewrite gcm_opens. pose proof (gcm_size mk iv aad text) as H.
  by replace (String.length (gcm_seal mk iv aad text) <? 16)%nat with false by (symmetry; apply Nat.ltb_ge; lia).
Qed.
Lemma frame_opens k n text f (s s' : Session) :
  frame_of k n text f → message_key f s = Ok (s', message_key_at (ep_ck (ep k)) n) → decrypt f s = Ok (s', text).
Proof.
  intros (_ & _ & _ & _ & _ & E) H. unfold decrypt. rewrite H. cbn [mbind result_bind]. by rewrite E, aead_opens.
Qed.
(** The key of frame [q] or a later one of the chain that the session hears. *)
Lemma key_of_current pend h q n f s :
  receiving_ok ep cnt hi pend h q s → (2 ≤ h)%nat → (h, n) ∈ pend → (q ≤ n)%nat → f_n f = Z.of_nat n →
  ∃ c m u, (reject_if f_n f <? nr s as "duplicate or replayed message" ;;
           s ← or_err "too many skipped messages" (skip_to (f_n f) s);
           let '(mk, ck) := kdf_ck (ckr s) in Ok (with_receiving ck (u32 (nr s + 1)) (skipped s) s, mk)) =
         Ok (with_receiving c (Z.of_nat u) m s, message_key_at (ep_ck (ep h)) n) ∧
    receiving_ok ep cnt hi (pend ∖ {[(h, n)]}) h u (with_receiving c (Z.of_nat u) m s).
Proof.
  intros R Hh Hin Hq Hn. destruct (rc_pend R h n Hin) as (_ & Hc & _).
  destruct (skip_to_ok pend h q s n R Hh ltac:(lia)) as (m & Hm & R').
  rewrite (rc_nr R), Hn. destruct (Z.ltb_spec (Z.of_nat n) (Z.of_nat q)); [lia|]. cbn [mbind result_bind].
  rewrite Hm. cbn [or_err mbind result_bind]. pose proof (read_next_ok pend h n _ R' Hh Hin) as R2.
  cbn [skipped with_receiving] in R2. exists (chain_at (ep_ck (ep h)) (S n)), m, (S n). split; [|exact R2].
  cbn [ckr nr skipped with_receiving]. rewrite (surjective_pairing (kdf_ck _)), <- chain_at_S.
  pose proof (ep_small Hep h). replace (u32 (Z.of_nat n + 1)) with (Z.of_nat (S n)) by (rewrite u32_small; unfold is_u32; lia).
  done.
Qed.

(** Every frame on its way is read, and the session stays as it should be. *)
Lemma receive_ok pend o h s k n text f :
  session_ok pend o h s → (k, n) ∈ pend → (k ≤ S o)%nat → frame_of k n text f →
  ∃ s', decrypt f s = Ok (s', text) ∧ session_ok (pend ∖ {[(k, n)]}) o (Nat.max h k) s' ∧ sid s' = sid s.
Proof.
  intros [Hmp Hms Hck Hns Hpn Hct Hto Hrk Hneed Hnear Hh Ho (q & R)] Hin Hko Hf.
  destruct (rc_pend R k n Hin) as (Hk & Hn & He). pose proof Hf as (Ffp & Ffc & Fft & Ffn & Fn & _).
  destruct (decide (passed h q k n)) as [Hpa|Hno].
  { destruct (read_kept_ok pend h q s k n R Hin Hpa) as [Hl R']. assert (k ≤ h)%nat by (unfold passed in Hpa; lia).
    eexists. split; [apply (frame_opens k n _ _ _ _ Hf); unfold message_key; rewrite Ffp, Fn, Hl; reflexivity|].
    split; [|done]. rewrite Nat.max_l by done. split; try done. by exists q. }
  assert (Hnone : skipped s !! skip_key (f_rk_pub f) (f_n f) = None).
  { rewrite Ffp, Fn. destruct (skipped s !! _) as [mk|] eqn:E; [|done].
    apply (rc_skip R) in E as (k' & n' & Hin' & Hp' & E & _). destruct (rc_pend R k' n' Hin') as (Hk' & _ & _).
    pose proof (ep_small Hep k). pose proof (ep_small Hep k'). pose proof (rc_pend R k' n' Hin').
    apply skip_key_inj in E as [E ->]; [|lia..]. apply (ep_distinct Hep) in E as ->; [|lia..]. by destruct Hno. }
  assert (Hcase : (k = h ∧ q ≤ n ∨ k = S (S h) ∧ o = S h)%nat).
  { destruct (decide (k < S (S h))%nat) as [Hlt|]; [|lia]. pose proof (even_gap k h He Hlt). unfold passed in Hno. lia. }
  destruct Hcase as [[-> Hq]|[-> ->]].
  - destruct (key_of_current pend h q n f s R ltac:(lia) Hin Hq Fn) as (c & m & u & Hkey & R').
    eexists. split.
    { apply (frame_opens h n _ _ _ _ Hf). unfold message_key. rewrite Hnone, Ffp.
      destruct (rc_key R ltac:(lia)) as [-> _]. rewrite String.eqb_refl. exact Hkey. }
    split; [|done]. rewrite Nat.max_id. split; try done. by exists u.
  - destruct (new_chain_ok pend h q f s R Hh ltac:(lia) Ffp Ffc Fft Ffn Hmp Hms) as (m1 & Hnew & R1).
    { by rewrite Hrk, Nat.max_l by lia. }
    destruct (key_of_current pend (S (S h)) 0 n f _ R1 ltac:(lia) Hin ltac:(lia) Fn) as (c & m & u & Hkey & R').
    eexists. split.
    { apply (frame_opens _ n _ _ _ _ Hf). unfold message_key. rewrite Hnone.
      replace (String.eqb (f_rk_pub f) (peer_rk s)) with false; [rewrite Hnew; exact Hkey|].
      symmetry. apply String.eqb_neq. rewrite Ffp. destruct (decide (2 ≤ h)%nat) as [H2|H2].
      - destruct (rc_key R H2) as [-> _]. intros E. apply (f_equal h32), (ep_distinct Hep) in E; lia.
      - destruct (rc_old R ltac:(lia)) as [-> _]. apply (ep_named Hep). lia. }
    split; [|done]. rewrite (Nat.max_r h (S (S h))) by lia. split; try done.
    + by rewrite (Nat.max_r (S h)) by lia.
    + symmetry. apply Nat.ltb_lt. lia.
    + by left.
    + lia.
    + by exists u.
Qed.
End receive.

(** ** Sending *)

(** More frames and a new chain of the peer do no harm to what a session has received. *)
Lemma receiving_extend ep cnt hi pend h q s ep' cnt' hi' pend' :
  receiving_ok ep cnt hi pend h q s → (hi ≤ hi')%nat → (∀ k, (k ≤ hi)%nat → ep' k = ep k) →
  (∀ k, (k ≤ hi)%nat → Nat.even k = Nat.even h → (cnt k ≤ cnt' k)%nat) → ((h < 2)%nat → cnt' h = cnt h) →
  (∀ k n, (2 ≤ k ≤ hi')%nat → Nat.even k = Nat.even h → (n < cnt' k)%nat →
     (k ≤ hi ∧ n < cnt k)%nat ∨ (k, n) ∈ pend') →
  pend ⊆ pend' → (size pend' ≤ 256)%nat →
  (∀ k n, (k, n) ∈ pend' → (k, n) ∈ pend ∨
     ((2 ≤ k ≤ hi')%nat ∧ (n < cnt' k)%nat ∧ Nat.even k = Nat.even h ∧ ¬ passed h q k n)) →
  receiving_ok ep' cnt' hi' pend' h q s.
Proof.
  intros R Hhi Hep Hcnt Hold Hnew Hsub Hsz Hp. pose proof (rc_h R) as Hh1. pose proof (rc_q R) as Hq1.
  pose proof (Hcnt h Hh1 eq_refl) as Hc1.
  split; keep R; try done; [lia|lia| | | | |].
  - intros Hh. rewrite Hold by done. by apply R.
  - intros Hh. rewrite Hep by done. by apply R.
  - intros k n Hin. destruct (Hp k n Hin) as [Hi|Hi]; [|naive_solver]. destruct (rc_pend R k n Hi) as (Hk & Hn & He).
    pose proof (Hcnt k ltac:(lia) He). split; [lia|]. split; [lia|done].
  - intros k n Hk He Hn H0 Hno. destruct (Hnew k n Hk He Hn) as [[Hk' Hn']|]; [|done].
    apply Hsub, (rc_rest R); try done. lia.
  - intros i mk. rewrite (rc_skip R). split; intros (k & n & Hin & Hpa & -> & ->); exists k, n.
    + destruct (rc_pend R k n Hin) as (Hk & _). rewrite Hep by lia. split; [by apply Hsub|done].
    + destruct (Hp k n Hin) as [Hi|(_ & _ & _ & Hno)]; [|done]. destruct (rc_pend R k n Hi) as (Hk & _).
      rewrite Hep by lia. done.
Qed.

(** A step of the ratchet makes the next epoch. *)
Definition epoch_of (rk' : string) (s : Session) : Epoch :=
  mkEpoch (my_pub s) (my_sk s) rk' (cks s) (step_ct s) (step_to s) (Z.to_nat (pn s)).
Lemma ratchet_step_ok ep cnt hi pend o r s s1 :
  epochs_ok ep cnt hi → session_ok ep cnt hi pend o (S o) s → (S o ≤ hi)%nat → ratchet_step r s = Ok s1 →
  ∃ coins ss, OQS_KEM_keypair coins = Some (my_pub s1, my_sk s1) ∧
    kem_decaps (ep_sk (ep (S o))) (step_ct s1) = Some ss ∧ kdf_rk (ep_root (ep (S o))) ss = (rk s1, cks s1) ∧
    step_ct s1 ≠ "" ∧ my_pub s1 ≠ "" ∧ step_to s1 = h32 (ep_pub (ep (S o))) ∧ pn s1 = Z.of_nat (cnt o) ∧ ns s1 = 0 ∧
    need_step s1 = false ∧ nr s1 = nr s ∧ ckr s1 = ckr s ∧ peer_rk s1 = peer_rk s ∧ skipped s1 = skipped s.
Proof.
  intros Hep HS Hhi H. destruct (se_recv _ _ _ _ _ _ _ HS) as (q & R).
  pose proof (se_o _ _ _ _ _ _ _ HS) as Ho. destruct (rc_key R ltac:(lia)) as [Hp _].
  destruct (ep_pair Hep (S o) ltac:(lia)) as (c0 & Hc0). unfold ratchet_step in H.
  destruct (kem_encaps _ _) as [[ct ss]|] eqn:He; [|done]. destruct (kem_keypair _) as [[pub sk]|] eqn:Hk; [|done].
  rewrite Hp in He. unfold kem_encaps in He. unfold kem_keypair in Hk.
  destruct OQS_KEM_ml_kem_1024 as [z|] eqn:Hz; [|done]. destruct (_ =? _)%nat; [|done].
  destruct (encaps_sizes _ _ _ _ _ Hz He) as [Hl Hne]. destruct (keypair_sizes _ _ _ _ Hz Hk) as (_ & _ & Hpub).
  destruct (keypair_sizes _ _ _ _ Hz Hc0) as (_ & Hsk & _).
  exists (r_keypair r), ss. rewrite (se_root _ _ _ _ _ _ _ HS), Nat.max_r in H by lia.
  rewrite (surjective_pairing (kdf_rk _ _)) in H. injection H as <-. cbn [my_pub my_sk step_ct rk cks step_to pn ns need_step nr ckr peer_rk skipped].
  rewrite Hp, (se_ns _ _ _ _ _ _ _ HS). unfold kem_decaps. rewrite Hz, Hl, Hsk, !Nat.eqb_refl. cbn [andb].
  rewrite (decaps_encaps _ _ _ _ _ _ Hc0 He). repeat (split; [done || apply surjective_pairing|]). done.
Qed.

(** ** The two sessions *)

Notation Log := (list (Sent * (nat * nat))).
(** The frames on their way to [x]. *)
Definition on_the_way (x : bool) (log : Log) : gset (nat * nat) :=
  list_to_set (filter (λ p, from p.1 = negb x ∧ seen p.1 = false) log).*2.
Definition top (own : bool → nat) : nat := Nat.max (own true) (own false).
(** The ghost state: the epochs, the frames of each, the own chain of a side and the last one
    it has heard of, and which frame of which chain was sent. *)
Record world_ok (w : World) ep cnt (own heard : bool → nat) (log : Log) : Prop := {
  wo_sent : sent w = log.*1;
  wo_once : NoDup log.*2;
  wo_frames i m k n : log !! i = Some (m, (k, n)) →
    from m = Nat.even k ∧ (2 ≤ k ≤ own (Nat.even k))%nat ∧ (n < cnt k)%nat ∧ frame_of ep k n (sent_text m) (frame m);
  wo_epochs : epochs_ok ep cnt (top own);
  wo_count k : (cnt k ≤ S (length log))%nat;
  wo_session x : session_ok ep cnt (top own) (on_the_way x log) (own x) (heard x) (side w x);
  wo_own x : Nat.even (own x) = x;
  wo_near x : (own x ≤ S (own (negb x)))%nat;
  wo_heard x : (heard x ≤ own (negb x))%nat;
  wo_keys : keys w = (λ k, ep_pub (ep k)) <$> seq 2 (top own - 1);
}.
Arguments wo_session {_ _ _ _ _ _} _ _.
Arguments wo_frames {_ _ _ _ _ _} _ {_ _ _ _} _.
Arguments wo_epochs {_ _ _ _ _ _} _.
Arguments wo_own {_ _ _ _ _ _} _ _.
Arguments wo_near {_ _ _ _ _ _} _ _.
Arguments wo_heard {_ _ _ _ _ _} _ _.
Arguments wo_count {_ _ _ _ _ _} _ _.
Arguments wo_sent {_ _ _ _ _ _} _.
Arguments wo_once {_ _ _ _ _ _} _.
Arguments wo_keys {_ _ _ _ _ _} _.

Lemma elem_of_on_the_way x log kn :
  kn ∈ on_the_way x log ↔ ∃ i m, log !! i = Some (m, kn) ∧ from m = negb x ∧ seen m = false.
Proof.
  unfold on_the_way. rewrite elem_of_list_to_set, list_elem_of_fmap. split.
  - intros ([m kn'] & -> & [H Hin]%list_elem_of_filter). apply list_elem_of_lookup in Hin as [i Hi]. by exists i, m.
  - intros (i & m & Hi & H). exists (m, kn). split; [done|]. apply list_elem_of_filter. split; [done|].
    by eapply list_elem_of_lookup_2.
Qed.
Lemma on_the_way_app x log m kn :
  on_the_way x (log ++ [(m, kn)]) =
  if decide (from m = negb x ∧ seen m = false) then {[kn]} ∪ on_the_way x log else on_the_way x log.
Proof.
  unfold on_the_way. rewrite filter_app. destruct (decide _) as [H|H].
  - rewrite filter_cons_True, filter_nil by done. rewrite fmap_app. apply set_eq. intros y. set_solver.
  - rewrite filter_cons_False, filter_nil, app_nil_r by done. done.
Qed.
Lemma on_the_way_size x log : (size (on_the_way x log) ≤ length (unseen (negb x) log.*1))%nat.
Proof.
  unfold on_the_way, unseen. transitivity (length (filter (λ p, from p.1 = negb x ∧ seen p.1 = false) log).*2).
  - generalize ((filter (λ p, from p.1 = negb x ∧ seen p.1 = false) log).*2). intros l.
    induction l as [|y l IH]; cbn; [by rewrite size_empty|].
    rewrite size_union_alt, size_singleton. pose proof (subseteq_size (list_to_set l ∖ {[y]}) (list_to_set (C := gset (nat * nat)) l) ltac:(set_solver)). lia.
  - rewrite length_fmap. induction log as [|[m kn] log IH]; [done|]. rewrite filter_cons, fmap_cons, filter_cons. cbn [fst].
    destruct (decide _); cbn [length]; lia.
Qed.
Lemma even_heard w ep cnt own heard log x : world_ok w ep cnt own heard log → Nat.even (heard x) = negb x.
Proof.
  intros W. pose proof (wo_own W x) as Ho. destruct (se_near _ _ _ _ _ _ _ (wo_session W x)) as [E|E].
  - by rewrite E, Nat.even_succ, <- Nat.negb_even, Ho.
  - rewrite E, Nat.even_succ, <- Nat.negb_even in Ho. by destruct (Nat.even (heard x)), x.
Qed.
Lemma session_extend ep cnt hi pend o h s ep' cnt' hi' pend' q :
  session_ok ep cnt hi pend o h s → (o ≤ hi)%nat → (h ≤ hi)%nat → (∀ k, (k ≤ hi)%nat → ep' k = ep k) → cnt' o = cnt o →
  receiving_ok ep' cnt' hi' pend' h q s → session_ok ep' cnt' hi' pend' o h s.
Proof.
  intros [] Ho Hh He Hc R. assert (Nat.max o h ≤ hi)%nat by lia. split; rewrite ?He, ?Hc by done; try done. by exists q.
Qed.

(** A frame on its way arrives. *)
Lemma on_the_way_read x log i m kn :
  NoDup log.*2 → log !! i = Some (m, kn) →
  on_the_way x (<[i := (mark_seen m, kn)]> log) = on_the_way x log ∖ {[kn]} ∨ from m = x.
Proof.
  intros Hnd Hi. destruct (decide (from m = x)) as [|Hx]; [by right|left]. apply set_eq. intros y.
  rewrite elem_of_difference, elem_of_singleton, !elem_of_on_the_way. split.
  - intros (j & m' & Hj & H). rewrite list_lookup_insert in Hj. destruct (decide _) as [[-> _]|Hne].
    + injection Hj as <- <-. by destruct H.
    + split; [by exists j, m'|]. intros ->. destruct Hne. split; [|by eapply lookup_lt_Some].
      apply (NoDup_lookup _ _ _ kn Hnd); by rewrite list_lookup_fmap, ?Hi, ?Hj.
  - intros [(j & m' & Hj & H) Hne]. exists j, m'. rewrite list_lookup_insert_ne; [done|]. intros ->. by simplify_eq.
Qed.
Lemma on_the_way_other x log i m kn :
  log !! i = Some (m, kn) → from m = x → on_the_way x (<[i := (mark_seen m, kn)]> log) = on_the_way x log.
Proof.
  intros Hi Hx. apply set_eq. intros y. rewrite !elem_of_on_the_way. split; intros (j & m' & Hj & H).
  - rewrite list_lookup_insert in Hj. destruct (decide _) as [[-> _]|Hne]; [by injection Hj as <- _; destruct H|by exists j, m'].
  - exists j, m'. rewrite list_lookup_insert_ne; [done|]. intros ->. rewrite Hi in Hj. injection Hj as <- <-. destruct H as [H _]. rewrite H in Hx. by destruct x.
Qed.
Lemma frame_read w ep cnt own heard log i m :
  world_ok w ep cnt own heard log → sent w !! i = Some m → seen m = false →
  ∃ s', decrypt (frame m) (side w (negb (from m))) = Ok (s', sent_text m) ∧
    ∃ heard' log', world_ok (set_side (negb (from m)) s' w (<[i := mark_seen m]> (sent w)) (keys w)) ep cnt own heard' log'.
Proof.
  intros W Hi Hseen. rewrite (wo_sent W) in Hi. apply list_lookup_fmap_Some in Hi as ([m' [k n]] & -> & Hi). cbn [fst] in *.
  destruct (wo_frames W Hi) as (Hm & Hk & Hn & Hf). set (x := negb (from m')) in *.
  assert (Hown : own (from m') = own (negb x)) by (unfold x; by rewrite negb_involutive).
  destruct (receive_ok ep cnt (top own) (wo_epochs W) (on_the_way x log) (own x) (heard x) (side w x) k n (sent_text m') (frame m'))
    as (s' & Hd & HS & _); [apply W| | |done|].
  { apply elem_of_on_the_way. exists i, m'. unfold x. by rewrite negb_involutive. }
  { pose proof (wo_near W (negb x)) as Hr. rewrite negb_involutive in Hr. rewrite <- Hm, Hown in Hk. lia. }
  exists s'. split; [done|]. exists (λ y, if Bool.eqb y x then Nat.max (heard x) k else heard y), (<[i := (mark_seen m', (k, n))]> log).
  assert (Hlt : (i < length log)%nat) by by eapply lookup_lt_Some.
  assert (Hsnd : (<[i := (mark_seen m', (k, n))]> log).*2 = log.*2).
  { rewrite list_fmap_insert. apply list_insert_id. by rewrite list_lookup_fmap, Hi. }
  split; cbn [sent keys side set_side]; try apply W.
  - by rewrite list_fmap_insert, (wo_sent W).
  - by rewrite Hsnd; apply W.
  - intros j m1 k1 n1 Hj. rewrite list_lookup_insert in Hj. destruct (decide _) as [[-> _]|Hne].
    + injection Hj as <- <- <-. by apply (wo_frames W Hi).
    + by apply (wo_frames W Hj).
  - intros k1. rewrite length_insert. apply W.
  - intros y. destruct (Bool.eqb y x) eqn:E.
    + apply eqb_prop in E as ->. destruct (on_the_way_read x log i m' (k, n) (wo_once W) Hi) as [->|Hx]; [done|].
      unfold x in Hx. by destruct (from m').
    + rewrite on_the_way_other; [by apply W|done|]. unfold x in E. by destruct y, (from m').
  - intros y. destruct (Bool.eqb y x) eqn:E; [|apply W]. apply eqb_prop in E as ->. pose proof (wo_heard W x).
    rewrite <- Hm, Hown in Hk. lia.
Qed.

Lemma world_ok_ext w w' ep cnt own heard log :
  world_ok w ep cnt own heard log → sent w' = sent w → keys w' = keys w → (∀ x, side w' x = side w x) →
  world_ok w' ep cnt own heard log.
Proof. intros [] Hs Hk Hx. split; try done; [by rewrite Hs|intros x; by rewrite Hx|by rewrite Hk]. Qed.
Lemma top_case (own : bool → nat) x : top own = Nat.max (own x) (own (negb x)).
Proof. unfold top. destruct x; cbn [negb]; lia. Qed.

Lemma epochs_step ep cnt o e ss coins :
  epochs_ok ep cnt (S o) → (1 ≤ o)%nat →
  OQS_KEM_keypair coins = Some (ep_pub e, ep_sk e) → kem_decaps (ep_sk (ep (S o))) (ep_ct e) = Some ss →
  kdf_rk (ep_root (ep (S o))) ss = (ep_root e, ep_ck e) → ep_ct e ≠ "" → ep_pub e ≠ "" →
  ep_to e = h32 (ep_pub (ep (S o))) → ep_pn e = cnt o →
  (∀ k, (2 ≤ k ≤ S o)%nat → h32 (ep_pub (ep k)) ≠ h32 (ep_pub e)) →
  epochs_ok (<[S (S o) := e]> ep) (<[S (S o) := 0%nat]> cnt) (S (S o)).
Proof.
  intros Hep Ho Hpair Hss Hkdf Hct Hpub Hto Hpn Hfresh. set (ep' := <[_ := e]> ep). set (cnt' := <[_ := 0%nat]> cnt).
  assert (He : ∀ k, (k ≤ S o)%nat → ep' k = ep k) by (intros k Hk; unfold ep'; rewrite fn_lookup_insert_ne by lia; done).
  assert (Hc : ∀ k, (k ≤ S o)%nat → cnt' k = cnt k) by (intros k Hk; unfold cnt'; rewrite fn_lookup_insert_ne by lia; done).
  assert (Hnew : ep' (S (S o)) = e) by apply fn_lookup_insert.
  assert (Hcase : ∀ k, (k ≤ S (S o))%nat → k = S (S o) ∨ (k ≤ S o)%nat) by lia. split.
  - intros k Hk. destruct (Hcase k ltac:(lia)) as [->|Hk']; [|rewrite He by done; apply Hep; lia].
    rewrite Hnew. split; [done|]. rewrite <- (kdf_rk_size (ep_root (ep (S o))) ss), Hkdf. done.
  - intros k Hk. destruct (Hcase k ltac:(lia)) as [->|Hk']; [|rewrite He by done; apply Hep; lia].
    rewrite Hnew. by exists coins.
  - intros k k' Hk Hk'. destruct (Hcase k ltac:(lia)) as [->|H1], (Hcase k' ltac:(lia)) as [->|H2]; [done|..].
    + rewrite Hnew, He by done. intros E. by destruct (Hfresh k' ltac:(lia)).
    + rewrite Hnew, He by done. intros E. by destruct (Hfresh k ltac:(lia)).
    + rewrite !He by done. apply Hep; lia.
  - intros k Hk. rewrite (He (k - 1)%nat), (Hc (k - 2)%nat) by lia. destruct (Hcase k ltac:(lia)) as [->|Hk'].
    + rewrite Hnew. replace (S (S o) - 1)%nat with (S o) by lia. replace (S (S o) - 2)%nat with o by lia.
      split; [done|]. split; [done|]. split; [done|]. by exists ss.
    + rewrite He by done. apply Hep. lia.
  - intros k. unfold cnt'. destruct (decide (k = S (S o))) as [->|]; [by rewrite fn_lookup_insert|].
    rewrite fn_lookup_insert_ne by done. apply Hep.
Qed.
(** A side that has heard of a new chain starts the next one. *)
Lemma step_world w ep cnt own heard log x r s1 :
  world_ok w ep cnt own heard log → need_step (side w x) = true → ratchet_step r (side w x) = Ok s1 →
  h32 (my_pub s1) ∉ h32 <$> keys w →
  ∃ ep' cnt' own', world_ok (set_side x s1 w (sent w) (keys w ++ [my_pub s1])) ep' cnt' own' heard log ∧
                   need_step s1 = false.
Proof.
  intros W Hneed Hstep Hfresh. pose proof (wo_session W x) as HS. rewrite (se_need _ _ _ _ _ _ _ HS) in Hneed.
  apply Nat.ltb_lt in Hneed. assert (Hh : heard x = S (own x)) by (destruct (se_near _ _ _ _ _ _ _ HS); lia).
  pose proof (wo_heard W x) as Hhx. pose proof (wo_near W (negb x)) as Hnx. rewrite negb_involutive in Hnx.
  pose proof (wo_own W x) as Hox. pose proof (wo_own W (negb x)) as Hoy.
  assert (Htop : top own = S (own x)) by (rewrite (top_case own x); lia).
  set (o := own x) in *. rewrite Hh in HS.
  destruct (ratchet_step_ok ep cnt (top own) _ o r _ s1 (wo_epochs W) HS ltac:(lia) Hstep)
    as (coins & ss & Hpair & Hss & Hkdf & Hct & Hpub & Hto & Hpn & Hns & Hnd & Hnr & Hckr & Hprk & Hsk).
  exists (<[S (S o) := epoch_of (rk s1) s1]> ep), (<[S (S o) := 0%nat]> cnt), (λ y, if Bool.eqb y x then S (S o) else own y).
  split; [|done]. set (ep' := <[S (S o) := epoch_of (rk s1) s1]> ep). set (cnt' := <[S (S o) := 0%nat]> cnt).
  set (own' := λ y, if Bool.eqb y x then S (S o) else own y).
  assert (Hep : ∀ k, (k ≤ S o)%nat → ep' k = ep k) by (intros k Hk; unfold ep'; rewrite fn_lookup_insert_ne by lia; done).
  assert (Hcnt : ∀ k, (k ≤ S o)%nat → cnt' k = cnt k) by (intros k Hk; unfold cnt'; rewrite fn_lookup_insert_ne by lia; done).
  assert (Hnew : ep' (S (S o)) = epoch_of (rk s1) s1) by apply fn_lookup_insert.
  assert (Hcnew : cnt' (S (S o)) = 0%nat) by apply fn_lookup_insert.
  assert (Htop' : top own' = S (S o)).
  { rewrite (top_case own' x). unfold own'. rewrite eqb_reflx. destruct x; cbn [negb Bool.eqb] in *; lia. }
  assert (Hrecv : ∀ y q, receiving_ok ep cnt (S o) (on_the_way y log) (heard y) q (side w y) →
                         receiving_ok ep' cnt' (S (S o)) (on_the_way y log) (heard y) q (side w y)).
  { intros y q R. eapply receiving_extend; [exact R|lia|done| | | |done|apply R|by left].
    - intros k Hk _. by rewrite Hcnt.
    - intros Hy. rewrite Hcnt; [done|]. pose proof (rc_h R). lia.
    - intros k n Hk _ Hn. left. destruct (decide (k = S (S o))) as [->|]; [lia|]. rewrite Hcnt in Hn by lia. lia. }
  assert (Hkeys : keys w = (λ k, ep_pub (ep k)) <$> seq 2 o) by (rewrite (wo_keys W), Htop; do 2 f_equal; lia).
  split; cbn [sent keys side set_side]; try apply W.
  - intros i m k n Hi. destruct (wo_frames W Hi) as (Hm & Hk & Hn & Hf). split; [done|].
    assert (Hko : (k ≤ S o)%nat) by (destruct (Nat.even k), x; cbn [negb] in *; unfold o in *; lia).
    unfold frame_of. rewrite Hep, Hcnt by done. split; [|done]. unfold own'. destruct (Bool.eqb _ _); [lia|done].
  - rewrite Htop'. apply (epochs_step _ _ _ _ ss coins); try done.
    + rewrite <- Htop. apply W.
    + apply (se_o _ _ _ _ _ _ _ HS).
    + cbn. by rewrite Hpn, Nat2Z.id.
    + intros k Hk E. apply Hfresh. rewrite Hkeys. cbn [epoch_of ep_pub] in E. rewrite <- E.
      apply list_elem_of_fmap. exists (ep_pub (ep k)). split; [done|]. apply list_elem_of_fmap. exists k.
      split; [done|]. apply elem_of_seq. lia.
  - intros k. unfold cnt'. destruct (decide (k = S (S o))) as [->|]; [rewrite fn_lookup_insert; lia|].
    rewrite fn_lookup_insert_ne by done. apply W.
  - intros y. rewrite Htop'. unfold own'. destruct (Bool.eqb y x) eqn:E.
    + apply eqb_prop in E as ->. destruct (se_recv _ _ _ _ _ _ _ (wo_session W x)) as (q & R).
      rewrite Htop in R. apply Hrecv in R. split; rewrite ?Hnew, ?Hcnew; try done.
      * cbn. rewrite Hpn, Nat2Z.id. done.
      * rewrite Nat.max_l by lia. by rewrite Hnew.
      * rewrite Hnd, Hh. symmetry. apply Nat.ltb_ge. lia.
      * right. lia.
      * lia.
      * lia.
      * exists q. destruct R. split; rewrite ?Hnr, ?Hckr, ?Hprk, ?Hsk; done.
    + assert (y = negb x) as -> by (by destruct x, y). pose proof (wo_session W (negb x)) as HSy.
      destruct (se_recv _ _ _ _ _ _ _ HSy) as (q & R). pose proof (rc_h R) as Hhy. rewrite Htop in *.
      eapply session_extend; [exact HSy|lia|done|done|by rewrite Hcnt by lia|by apply Hrecv].
  - intros y. unfold own'. destruct (Bool.eqb y x) eqn:E; [|apply W]. apply eqb_prop in E as ->. done.
  - intros y. unfold own'. destruct (Bool.eqb y x) eqn:E; destruct x, y; try done; cbn [negb Bool.eqb] in *; lia.
  - intros y. pose proof (wo_heard W y). unfold own'. destruct x, y; cbn [negb Bool.eqb] in *; unfold o in *; lia.
  - rewrite Hkeys, Htop'. replace (S (S o) - 1)%nat with (o + 1)%nat by lia. rewrite seq_app, fmap_app. cbn. rewrite Hnew. f_equal.
    apply list_fmap_ext. intros i k Hk%lookup_seq. by rewrite Hep by lia.
Qed.

(** A side whose chain is the last sends the next frame of it. *)
Lemma frame_sent w ep cnt own heard log x text f :
  world_ok w ep cnt own heard log → need_step (side w x) = false →
  (length (unseen x (sent w)) < 256)%nat → Z.of_nat (length (sent w)) < W32 - 2 →
  frame_of ep (own x) (cnt (own x)) text f →
  ∃ cnt' log', world_ok (set_side x (next_send (side w x)) w (sent w ++ [mkSent x f text false]) (keys w)) ep cnt' own heard log'.
Proof.
  intros W Hneed Hun Hlen Hf. pose proof (wo_session W x) as HS. rewrite (se_need _ _ _ _ _ _ _ HS) in Hneed.
  apply Nat.ltb_ge in Hneed. pose proof (se_near _ _ _ _ _ _ _ HS) as Hnear. pose proof (se_h _ _ _ _ _ _ _ HS) as Hh1.
  pose proof (wo_near W x) as Hn1. pose proof (wo_near W (negb x)) as Hn2. rewrite negb_involutive in Hn2.
  pose proof (wo_own W x) as Hox. pose proof (wo_own W (negb x)) as Hoy. pose proof (top_case own x) as Htop.
  pose proof (wo_heard W (negb x)) as Hhy. rewrite negb_involutive in Hhy.
  assert (Hlog : length log = length (sent w)) by (rewrite (wo_sent W); by rewrite length_fmap).
  set (o := own x) in *. set (n := cnt o). exists (<[o := S n]> cnt), (log ++ [(mkSent x f text false, (o, n))]).
  set (cnt' := <[o := S n]> cnt). set (m := mkSent x f text false).
  assert (Hc : ∀ k, k ≠ o → cnt' k = cnt k) by (intros k Hk; unfold cnt'; by rewrite fn_lookup_insert_ne).
  assert (Ho : cnt' o = S n) by apply fn_lookup_insert.
  assert (Hle : ∀ k, (cnt k ≤ cnt' k)%nat) by (intros k; destruct (decide (k = o)) as [->|]; [rewrite Ho; unfold n; lia|by rewrite Hc]).
  assert (Hsm : Z.of_nat (S n) < W32) by (pose proof (wo_count W o); unfold n; lia).
  assert (Hother : ∀ k, Nat.even k = negb x → k ≠ o) by (intros k He ->; rewrite Hox in He; by destruct x).
  split; cbn [sent keys side set_side]; try apply W.
  - by rewrite fmap_app, (wo_sent W).
  - rewrite fmap_app. apply NoDup_app. split; [apply W|]. split; [|apply NoDup_singleton].
    intros kn Hin ->%list_elem_of_singleton. apply list_elem_of_lookup in Hin as [i Hi].
    apply list_lookup_fmap_Some in Hi as ([m' kn] & E & Hi). cbn in E. subst kn.
    destruct (wo_frames W Hi) as (_ & _ & Hlt & _). unfold n in Hlt. lia.
  - intros i m' k n' [Hi|[_ Hi]]%lookup_app_Some.
    + destruct (wo_frames W Hi) as (Hm & Hk & Hn & Hfr). split; [done|]. split; [done|]. split; [|done]. pose proof (Hle k). lia.
    + apply list_lookup_singleton_Some in Hi as [_ [= <- <- <-]]. cbn [from frame sent_text m]. rewrite Hox, Ho.
      split; [done|]. fold o. split; [lia|]. split; [unfold n; lia|]. done.
  - destruct (wo_epochs W) as [E1 E2 E3 E4 E5]. split; try done.
    + intros k Hk. rewrite Hc by lia. by apply E4.
    + intros k. destruct (decide (k = o)) as [->|Hk]; [by rewrite Ho|by rewrite Hc].
  - intros k. rewrite length_app. cbn. destruct (decide (k = o)) as [->|Hk].
    + rewrite Ho. pose proof (wo_count W o). unfold n. lia.
    + rewrite Hc by done. pose proof (wo_count W k). lia.
  - intros y. rewrite on_the_way_app. cbn [from seen m]. destruct (Bool.eqb y x) eqn:E.
    + apply eqb_prop in E as ->. rewrite decide_False by (intros [E _]; by destruct x). pose proof (even_heard _ _ _ _ _ _ x W) as Heh.
      assert (Hpar : ∀ k, Nat.even k = Nat.even (heard x) → cnt' k = cnt k) by (intros k Hk; apply Hc, Hother; by rewrite Hk).
      destruct HS. destruct se_recv0 as (q & R). fold o. split; try done; cbn [cks ns next_send].
      * by rewrite se_chain0, Ho, <- chain_at_S.
      * rewrite se_ns0, Ho. fold n. rewrite u32_small; unfold is_u32; lia.
      * exists q. assert (R' : receiving_ok ep cnt' (top own) (on_the_way x log) (heard x) q (side w x)).
        { eapply receiving_extend; [exact R|done|done| | | |done|apply R|by left].
          - intros k _ Hk. by rewrite Hpar.
          - intros _. by rewrite Hpar.
          - intros k n' Hk He Hn'. left. rewrite Hpar in Hn' by done. lia. }
        by destruct R'.
    + assert (y = negb x) as -> by (by destruct x, y). rewrite decide_True by (by rewrite negb_involutive).
      pose proof (wo_session W (negb x)) as HSy. destruct (se_recv _ _ _ _ _ _ _ HSy) as (q & R). pose proof (rc_h R) as Hhi.
      pose proof (even_heard _ _ _ _ _ _ (negb x) W) as Heh. rewrite negb_involutive in Heh.
      apply (session_extend _ _ _ _ _ _ _ _ _ _ _ q HSy); [lia|done|done|by apply Hc, Hother|].
      pose proof (on_the_way_size (negb x) log) as Hsz. rewrite negb_involutive, <- (wo_sent W) in Hsz.
      apply (receiving_extend ep cnt (top own) (on_the_way (negb x) log)); try done.
      * intros Hh. apply Hc. intros E2. rewrite E2 in *. pose proof (se_h _ _ _ _ _ _ _ HSy). lia.
      * intros k n' Hk He Hn'. destruct (decide (k = o)) as [->|]; [|left; rewrite Hc in Hn' by done; lia].
        rewrite Ho in Hn'. destruct (decide (n' = n)) as [->|]; [right; set_solver|left; unfold n in *; lia].
      * set_solver.
      * pose proof (size_union_alt {[(o, n)]} (on_the_way (negb x) log)) as Hu. rewrite size_singleton in Hu.
        pose proof (subseteq_size (on_the_way (negb x) log ∖ {[(o, n)]}) (on_the_way (negb x) log) ltac:(set_solver)). lia.
      * intros k n' [[= -> ->]%elem_of_singleton|Hin]%elem_of_union; [right|by left]. rewrite Ho, Hox. pose proof (rc_q R) as Hq.
        split; [lia|]. split; [lia|]. split; [by rewrite Heh|]. unfold passed. intros [Hlt|[Heq Hlt]]; [lia|]. rewrite <- Heq in Hq. unfold n in Hlt. lia.
Qed.

Lemma world_sends w ep cnt own heard log x r text s f :
  world_ok w ep cnt own heard log → encrypt r (side w x) text = Ok (s, f) →
  (length (unseen x (sent w)) < 256)%nat → Z.of_nat (length (sent w)) < W32 - 2 →
  (need_step (side w x) = true → h32 (my_pub s) ∉ h32 <$> keys w) →
  ∃ ep' cnt' own' log', world_ok (set_side x s w (sent w ++ [mkSent x f text false])
                                    (if need_step (side w x) then keys w ++ [my_pub s] else keys w)) ep' cnt' own' heard log'.
Proof.
  intros W He Hun Hlen Hfresh. unfold encrypt in He. apply bind_Ok in He as (s1 & Hs1 & He).
  destruct (negb _); [done|]. cbn [mbind result_bind] in He. injection He as <- <-.
  cbn [my_pub next_send] in Hfresh.
  assert (Hof : ∀ w1 ep1 cnt1 own1, world_ok w1 ep1 cnt1 own1 heard log → side w1 x = s1 →
    frame_of ep1 (own1 x) (cnt1 (own1 x)) text
      (mkFrame (sid s1) (my_pub s1) (step_ct s1) (step_to s1) (pn s1) (ns s1) (r_iv r)
         (gcm_seal (kdf_ck (cks s1)).1 (r_iv r) (frame_aad (sid s1) (my_pub s1) (step_ct s1) (step_to s1) (pn s1) (ns s1)) text))).
  { intros w1 ep1 cnt1 own1 W1 <-. destruct (wo_session W1 x). unfold frame_of. cbn [f_rk_pub f_step_ct f_to f_pn f_n f_ct f_iv f_sid].
    split; [done|]. split; [done|]. split; [done|]. split; [done|]. split; [done|]. by rewrite se_chain0. }
  destruct (need_step (side w x)) eqn:Hneed.
  - destruct (step_world _ _ _ _ _ _ x r s1 W Hneed Hs1 (Hfresh eq_refl)) as (ep' & cnt' & own' & W1 & Hn1).
    set (w1 := set_side x s1 w (sent w) (keys w ++ [my_pub s1])) in *.
    assert (Hs : side w1 x = s1) by (cbn; by rewrite eqb_reflx).
    destruct (frame_sent w1 _ _ _ _ _ x text _ W1 ltac:(by rewrite Hs) Hun Hlen (Hof _ _ _ _ W1 Hs)) as (cnt2 & log' & W2).
    exists ep', cnt2, own', log'. eapply world_ok_ext; [exact W2|done|done|]. intros y. cbn. rewrite eqb_reflx.
    by destruct (Bool.eqb y x).
  - injection Hs1 as <-. destruct (frame_sent w _ _ _ _ _ x text _ W Hneed Hun Hlen (Hof _ _ _ _ W eq_refl)) as (cnt2 & log' & W2).
    by exists ep, cnt2, own, log'.
Qed.

Definition delivers (w : World) : Prop :=
  ∀ i m, sent w !! i = Some m → seen m = false →
    ∃ s, decrypt (frame m) (side w (negb (from m))) = Ok (s, sent_text m).
Lemma exchange_ok w0 w : (∃ ep cnt own heard log, world_ok w0 ep cnt own heard log) → exchange w0 w →
  ∃ ep cnt own heard log, world_ok w ep cnt own heard log.
Proof.
  intros H0 H. induction H as [|w x r text s f _ IH _ He Hun Hlen Hfresh|w i m s text _ IH Hi Hseen Hd]; [done| |];
    destruct IH as (ep & cnt & own & heard & log & W).
  - destruct (world_sends _ _ _ _ _ _ _ _ _ _ _ W He Hun Hlen Hfresh) as (ep' & cnt' & own' & log' & W').
    by exists ep', cnt', own', heard, log'.
  - destruct (frame_read _ _ _ _ _ _ _ _ W Hi Hseen) as (s' & Hd' & heard' & log' & W'). rewrite Hd in Hd'. injection Hd' as <- _.
    by exists ep, cnt, own, heard', log'.
Qed.
Lemma exchange_delivers w0 w : (∃ ep cnt own heard log, world_ok w0 ep cnt own heard log) → exchange w0 w → delivers w.
Proof.
  intros H0 H i m Hi Hseen. destruct (exchange_ok w0 w H0 H) as (ep & cnt & own & heard & log & W).
  destruct (frame_read _ _ _ _ _ _ _ _ W Hi Hseen) as (s' & Hd & _). by exists s'.
Qed.

(** ** The handshake *)

Definition two_sides (a b : Session) : World := mkWorld (λ x, if x then a else b) [] [my_pub a].
Lemma receiving_start ep cnt hi h q s :
  (h ≤ hi)%nat → (q ≤ cnt h)%nat → nr s = Z.of_nat q → ((h < 2)%nat → peer_rk s = "" ∧ ckr s = "" ∧ cnt h = O) →
  ((2 ≤ h)%nat → peer_rk s = ep_pub (ep h) ∧ ckr s = chain_at (ep_ck (ep h)) q) → (h = 2%nat → (1 ≤ q)%nat) →
  (∀ k, (2 ≤ k ≤ hi)%nat → Nat.even k = Nat.even h → k = 2 ∧ cnt k = 1)%nat → skipped s = ∅ →
  receiving_ok ep cnt hi ∅ h q s.
Proof.
  intros Hh Hq Hn H1 H2 H3 Hk Hs. split; try done.
  - intros k n He Hpar Hl Hno _. destruct (Hk k He Hpar) as [-> E]. rewrite E in Hl. specialize (Hno eq_refl). lia.
  - intros i mk. rewrite Hs, lookup_empty. split; [done|]. intros (k & n & Hin & _). set_solver.
  - rewrite size_empty. lia.
Qed.
Lemma handshake_world r id_pk id_sk mine peer text a i id_pk' init_sk coins :
  OQS_KEM_keypair coins = Some (init_pub peer, init_sk) →
  start_init r id_pk id_sk mine peer text = Ok (a, i) →
  ∃ b, accept_init i init_sk id_pk' mine = Ok (b, text) ∧ ∃ ep cnt own heard log, world_ok (two_sides a b) ep cnt own heard log.
Proof.
  intros Hpair H. unfold start_init in H. destruct (kem_encaps _ _) as [[ct1 ss1]|] eqn:He; [|done].
  destruct (kem_keypair _) as [[pub sk]|] eqn:Hk; [|done]. apply bind_Ok in H as (sig & _ & H).
  set (t := transcript _ _ _ _ _) in H. set (rk0 := root_key t ss1) in H. set (ck0 := first_chain rk0) in H.
  rewrite (surjective_pairing (kdf_ck ck0)) in H. injection H as <- <-.
  unfold kem_encaps in He. unfold kem_keypair in Hk. destruct OQS_KEM_ml_kem_1024 as [z|] eqn:Hz; [|done].
  destruct (_ =? _)%nat; [|done]. destruct (encaps_sizes _ _ _ _ _ Hz He) as [Hl Hne].
  destruct (keypair_sizes _ _ _ _ Hz Hk) as (_ & _ & Hpub). destruct (keypair_sizes _ _ _ _ Hz Hpair) as (_ & Hsk & _).
  eexists. split.
  { unfold accept_init. cbn [i_sid i_kp_hash i_ct1 i_rk_pub i_iv i_ct]. unfold kem_decaps.
    rewrite Hz, Hl, Hsk, !Nat.eqb_refl. cbn [andb]. rewrite (decaps_encaps _ _ _ _ _ _ Hpair He). cbn [or_err mbind result_bind].
    fold t. fold rk0. fold ck0. rewrite (surjective_pairing (kdf_ck ck0)), aead_opens. reflexivity. }
  assert (Hck : String.length ck0 = 32%nat) by (unfold ck0, first_chain, hmac; by rewrite str_length_take, hmac_size).
  set (e := mkEpoch pub sk rk0 ck0 "" "-" 0). set (e1 := mkEpoch "" "" "" "" "" "-" 0).
  exists (λ k, if (k =? 2)%nat then e else e1), (λ k, if (k =? 2)%nat then 1%nat else 0%nat), (λ x : bool, if x then 2%nat else 1%nat),
    (λ x : bool, if x then 1%nat else 2%nat), [].
  split; cbn [sent keys side two_sides]; try done.
  - constructor.
  - split; unfold top; cbn.
    + intros k Hk2. replace k with 2%nat by lia. done.
    + intros k Hk2. replace k with 2%nat by lia. by exists (r_keypair r).
    + lia.
    + lia.
    + intros k. destruct (k =? 2)%nat; lia.
  - intros k. cbn. destruct (k =? 2)%nat; lia.
  - intros x. replace (on_the_way x []) with (∅ : gset (nat * nat)) by done.
    destruct x; split; cbn [my_pub my_sk cks ns pn step_ct step_to rk need_step]; try done; try lia.
    + exists 0%nat. apply receiving_start; try done; unfold top; cbn; try lia.
      intros k Hk2. by replace k with 2%nat by lia.
    + exists 1%nat. apply receiving_start; try done; unfold top; cbn [Nat.max Nat.eqb]; try lia.
      intros k Hk2 _. by replace k with 2%nat by lia.
  - by intros [].
  - intros []; cbn; lia.
  - intros []; cbn; lia.
Qed.
End ratchet.
