(* ===== verification/PqCodecProofs.v ===== *)
(** * What the messenger writes reads back

    Frames, key packages and the files of sessions. *)
From stdpp Require Import sorting.
From S2P Require Import Prelude Strings Lines Crypto Types Wire WireProofs Block StateStore StateStoreProofs.
From S2P Require Import PqSession PmRelay PqMessenger PqSessionProofs.

(** ** Fields *)

Lemma put_be_length n v : String.length (put_be n v) = n.
Proof. revert v. induction n as [|n IH]; intros v; [done|]. cbn [put_be]. rewrite str_length_app, IH. cbn. lia. Qed.
Lemma get_be_app a s t : get_be a (s +:+ t) = get_be (get_be a s) t.
Proof. revert a. induction s as [|c s IH]; intros a; [done|]. rewrite str_app_cons. apply IH. Qed.
Lemma get_be_put_be n v : (n ≤ 8)%nat → 0 ≤ v < 2 ^ (8 * Z.of_nat n) → get_be 0 (put_be n v) = v.
Proof.
  revert v. induction n as [|n IH]; intros v Hn Hv; [cbn in *; lia|]. cbn [put_be]. rewrite get_be_app.
  replace (8 * Z.of_nat (S n)) with (8 + 8 * Z.of_nat n) in Hv by lia. rewrite Z.pow_add_r in Hv by lia. change (2 ^ 8) with 256 in Hv.
  rewrite IH; [|lia|rewrite Z.shiftr_div_pow2 by lia; change (2 ^ 8) with 256; split; [apply Z.div_pos; lia|apply Z.div_lt_upper_bound; lia]].
  cbn [get_be]. change 255 with (Z.ones 8). rewrite byte_of_char_of_byte, (Z.land_ones v 8), Z.mod_mod by lia.
  rewrite lor_shiftl_add by (try apply Z.mod_pos_bound; lia). rewrite Z.shiftr_div_pow2 by lia. change (2 ^ 8) with 256.
  rewrite u64_small; [pose proof (Z.div_mod v 256 ltac:(lia)); lia|]. unfold is_u64.
  pose proof (Z.div_mod v 256 ltac:(lia)).
  assert (2 ^ (8 * Z.of_nat n) ≤ 2 ^ 56) by (apply Z.pow_le_mono_r; lia). lia.
Qed.
Lemma take_len k a b : String.length a = k → str_take k (a +:+ b) = a.
Proof. intros <-. apply str_take_app. Qed.
Lemma drop_len k a b : String.length a = k → str_drop k (a +:+ b) = b.
Proof. intros <-. apply str_drop_app. Qed.
(** A field of at most [max] bytes. *)
Lemma get_put max b r : Z.of_nat (String.length b) ≤ max → max < W32 → get max (put b +:+ r) = Some (b, r).
Proof.
  intros Hl Hm. unfold get, put. set (n := Z.of_nat (String.length b)) in *.
  rewrite (u32_small n) by (unfold is_u32; lia). rewrite str_app_assoc.
  assert (H4 : String.length (put_be 4 n) = 4%nat) by apply put_be_length.
  destruct (Nat.ltb_spec (String.length (put_be 4 n +:+ (b +:+ r))) 4) as [Hs|_]; [rewrite str_length_app in Hs; lia|].
  rewrite (take_len 4), (drop_len 4), get_be_put_be by (done || cbn; lia).
  rewrite (u32_small n) by (unfold is_u32; lia). destruct (Z.ltb_spec max n); [lia|].
  destruct (Z.ltb_spec (Z.of_nat (String.length (b +:+ r))) n) as [Hs|_]; [rewrite str_length_app in Hs; lia|].
  cbn [orb]. unfold n. by rewrite Nat2Z.id, str_take_app, str_drop_app.
Qed.
Lemma get64_of_put64 v r : is_u64 v → get64 (put64 v +:+ r) = Some (v, r).
Proof.
  intros Hv. unfold get64, put64. assert (H8 : String.length (put_be 8 v) = 8%nat) by apply put_be_length.
  destruct (Nat.ltb_spec (String.length (put_be 8 v +:+ r)) 8) as [Hs|_]; [rewrite str_length_app in Hs; lia|].
  rewrite (take_len 8), (drop_len 8), get_be_put_be by (done || unfold is_u64 in Hv; cbn; lia). done.
Qed.
Lemma magic_app m r : magic m (m +:+ r) = Some r.
Proof. unfold magic. by rewrite starts_with_self, str_drop_app. Qed.

(** Read the next field of the message being read. *)
Ltac read_next :=
  first [rewrite get_put by (assumption || done) | rewrite get64_of_put64 by (assumption || done)]; cbn [mbind option_bind].

Lemma starts_with_other p q r : starts_with p q = false → String.length p = String.length q → starts_with p (q +:+ r) = false.
Proof.
  unfold starts_with. revert q. induction p as [|c p IH]; intros [|d q] H Hl; try done. rewrite str_app_cons. cbn in *.
  destruct (Ascii.ascii_dec c d); [|done]. apply IH; [done|lia].
Qed.

(** ** Frames and key packages *)

Definition fits (max : nat) (b : string) : Prop := (String.length b ≤ max)%nat.
Record init_wf (i : Init) : Prop := {
  iw_sid : safe_name (i_sid i) = true;
  iw_hash : Z.of_nat (String.length (i_kp_hash i)) ≤ 64;
  iw_package : Z.of_nat (String.length (i_package i)) ≤ 16384;
  iw_ct1 : Z.of_nat (String.length (i_ct1 i)) ≤ 4096;
  iw_pub : Z.of_nat (String.length (i_rk_pub i)) ≤ 4096;
  iw_sig : Z.of_nat (String.length (i_sig i)) ≤ 8192;
  iw_iv : String.length (i_iv i) = 12%nat;
  iw_ct : Z.of_nat (String.length (i_ct i)) ≤ 40000;
}.
Record frame_wf (f : Frame) : Prop := {
  fw_sid : Z.of_nat (String.length (f_sid f)) ≤ 64;
  fw_pub : Z.of_nat (String.length (f_rk_pub f)) ≤ 4096;
  fw_step : Z.of_nat (String.length (f_step_ct f)) ≤ 4096;
  fw_to : Z.of_nat (String.length (f_to f)) ≤ 64;
  fw_pn : is_u32 (f_pn f);
  fw_n : is_u32 (f_n f);
  fw_iv : String.length (f_iv f) = 12%nat;
  fw_ct : Z.of_nat (String.length (f_ct f)) ≤ 40000;
}.
Record package_wf (k : KeyPackage) : Prop := {
  pw_index : Z.of_nat (String.length (kp_index k)) ≤ 64;
  pw_identity : Z.of_nat (String.length (identity_pub k)) ≤ 4096;
  pw_init : Z.of_nat (String.length (init_pub k)) ≤ 4096;
  pw_relay : Z.of_nat (String.length (relay_pub k)) ≤ 4096;
  pw_created : is_u64 (kp_created k);
  pw_expires : is_u64 (kp_expires k);
  pw_sig : Z.of_nat (String.length (kp_sig k)) ≤ 8192;
}.
Lemma put_last b : put b = put b +:+ "".
Proof. by rewrite str_app_nil_r. Qed.
Lemma u32_u64 v : is_u32 v → is_u64 v.
Proof. unfold is_u32, is_u64. lia. Qed.

Lemma parse_init_body i : init_wf i → parse_init (init_body i) = Some i.
Proof.
  intros [H1 H2 H3 H4 H5 H6 H7 H8]. unfold parse_init, init_body. rewrite (put_last (i_ct i)), magic_app. cbn [mbind option_bind].
  assert (Hs : Z.of_nat (String.length (i_sid i)) ≤ 64) by (unfold safe_name in H1; bools; rewrite ?Nat.leb_le in *; lia).
  assert (Hv : Z.of_nat (String.length (i_iv i)) ≤ 64) by lia.
  do 8 read_next. cbn [is_empty String.eqb andb]. rewrite H7, H1. by destruct i.
Qed.
Lemma parse_frame_body f : frame_wf f → parse_frame (frame_body f) = Some f.
Proof.
  intros [H1 H2 H3 H4 H5 H6 H7 H8]. unfold parse_frame, frame_body. rewrite (put_last (f_ct f)), magic_app. cbn [mbind option_bind].
  assert (Hv : Z.of_nat (String.length (f_iv f)) ≤ 64) by lia. pose proof (u32_u64 _ H5). pose proof (u32_u64 _ H6).
  do 8 read_next. cbn [is_empty String.eqb andb]. rewrite H7. unfold is_u32 in H5, H6.
  rewrite (proj2 (Z.leb_le (f_pn f) _)), (proj2 (Z.leb_le (f_n f) _)) by lia. by destruct f.
Qed.
Lemma decode_encode k : package_wf k → decode (encode k) = Ok k.
Proof.
  intros [H1 H2 H3 H4 H5 H6 H7]. unfold decode, encode. rewrite (put_last (kp_sig k)), magic_app. cbn [mbind option_bind].
  do 7 read_next. by destruct k.
Qed.

(** ** The file of a session *)

Definition word_ok (w : string) : Prop := w ≠ "" ∧ all_chars (λ c, negb (is_space c)) w = true.
#[export] Instance word_ok_dec w : Decision (word_ok w).
Proof. unfold word_ok. apply _. Defined.
Lemma words_from_app cur w r :
  all_chars (λ c, negb (is_space c)) w = true → words_from cur (w +:+ r) = words_from (cur +:+ w) r.
Proof.
  revert cur. induction w as [|c w IH]; intros cur Hw; [by rewrite str_app_nil_r|]. cbn [all_chars] in Hw.
  apply andb_prop in Hw as [Hc Hw]. apply negb_true_iff in Hc. rewrite str_app_cons. cbn [words_from]. rewrite Hc, IH by done.
  by rewrite str_app_assoc.
Qed.
Lemma words_cons w c r : word_ok w → is_space c = true → words (w +:+ String c r) = w :: words r.
Proof.
  intros [Hne Hw] Hc. unfold words. rewrite words_from_app by done. cbn [words_from]. rewrite Hc, str_app_nil_l.
  by rewrite (proj2 (is_empty_false w) Hne).
Qed.
Lemma words_line k v r : word_ok k → word_ok v → words ((k +:+ String " " v) +:+ String nl r) = k :: v :: words r.
Proof. intros Hk Hv. rewrite str_app_assoc, str_app_cons, words_cons by done. by rewrite words_cons. Qed.
Lemma hx_word b : word_ok (hx b).
Proof.
  unfold hx. destruct (is_empty b) eqn:E; [done|]. apply is_empty_false in E. split; [by destruct b|].
  apply (all_chars_impl is_hex_char); [|apply bytes_to_hex_chars]. intros c. by destruct c as [[][][][][][][][]].
Qed.
Lemma number_word z : word_ok (to_string z).
Proof.
  split; [apply to_string_ne|]. apply (all_chars_impl is_digit_char); [|apply to_string_digits].
  intros c. by destruct c as [[][][][][][][][]].
Qed.
Lemma unhex_hx b : 2 * Z.of_nat (String.length b) ≤ 131072 → unhex (hx b) = Some b.
Proof.
  intros Hb. unfold hx. destruct (is_empty b) eqn:E; [by destruct b|]. apply is_empty_false in E. unfold unhex.
  destruct (String.eqb_spec (bytes_to_hex b) "-") as [H|_]; [|rewrite hex_to_bytes_to_hex; [done..|unfold kMaxHexLen; lia]].
  apply (f_equal String.length) in H. rewrite bytes_to_hex_length in H. cbn in H. lia.
Qed.

Definition short (b : string) : Prop := 2 * Z.of_nat (String.length b) ≤ 131072.
Record storable (s : Session) : Prop := {
  st_sid : word_ok (sid s);
  st_peer_fp : word_ok (peer_fp s);
  st_my_fp : word_ok (my_fp s);
  st_to : word_ok (step_to s);
  st_identity : short (peer_identity s);
  st_relay : short (peer_relay s);
  st_rk : String.length (rk s) = 32%nat;
  st_cks : short (cks s);
  st_ckr : short (ckr s);
  st_ns : is_u32 (ns s);
  st_nr : is_u32 (nr s);
  st_pn : is_u32 (pn s);
  st_pub : short (my_pub s);
  st_sk : short (my_sk s);
  st_prev_pub : short (prev_pub s);
  st_prev_sk : short (prev_sk s);
  st_peer_rk : short (peer_rk s);
  st_ct : short (step_ct s);
  st_skipped : map_Forall (λ id mk, word_ok id ∧ short mk) (skipped s);
}.
Definition reads_as (l : string) (ws : list string) : Prop := ∀ r, words (l +:+ String nl r) = ws ++ words r.
Lemma words_lines ls wss : Forall2 reads_as ls wss → words (unlines ls) = concat wss.
Proof. induction 1 as [|l ws ls wss H _ IH]; [done|]. cbn [unlines concat]. by rewrite (H _), IH. Qed.
Lemma reads_field l k v ls wss :
  word_ok k → word_ok v → l = k +:+ String " " v → Forall2 reads_as ls wss → Forall2 reads_as (l :: ls) ([k; v] :: wss).
Proof. intros Hk Hv -> Hl. constructor; [|done]. intros r. by rewrite words_line. Qed.
Lemma reads_skip kv : word_ok kv.1 → reads_as (skip_line kv) ["skip"; kv.1; hx kv.2].
Proof.
  intros Hk r. change (skip_line kv) with ("skip" +:+ String " " (kv.1 +:+ String " " (hx kv.2))).
  rewrite str_app_assoc, (str_app_cons " "), str_app_assoc, (str_app_cons " "), !words_cons by (done || apply hx_word). done.
Qed.
Definition field_words (s : Session) : list (list string) :=
  [["sid"; sid s]; ["peer_fp"; peer_fp s]; ["my_fp"; my_fp s]; ["peer_id"; hx (peer_identity s)];
   ["peer_relay"; hx (peer_relay s)]; ["rk"; hx (rk s)]; ["cks"; hx (cks s)]; ["ckr"; hx (ckr s)]; ["ns"; to_string (ns s)];
   ["nr"; to_string (nr s)]; ["pn"; to_string (pn s)]; ["my_pub"; hx (my_pub s)]; ["my_sk"; hx (my_sk s)];
   ["prev_pub"; hx (prev_pub s)]; ["prev_sk"; hx (prev_sk s)]; ["peer_rk"; hx (peer_rk s)]; ["step_ct"; hx (step_ct s)];
   ["step_to"; step_to s]; ["need_step"; if need_step s then "1" else "0"]].
Lemma words_ser s :
  storable s → words (ser s) = concat (field_words s ++ ((λ kv, ["skip"; kv.1; hx kv.2]) <$> merge_sort key_le (map_to_list (skipped s)))).
Proof.
  intros St. unfold ser, ser_lines. apply words_lines, Forall2_app.
  - unfold field_words.
    repeat (apply reads_field; [done|done || apply hx_word || apply number_word || apply St || by destruct (need_step s)|done|]).
    constructor.
  - apply Forall2_fmap_2, Forall_Forall2_diag, Forall_forall. intros kv Hin. apply reads_skip.
    rewrite merge_sort_Permutation in Hin. destruct kv as [k v]. apply elem_of_map_to_list in Hin. by apply (st_skipped _ St k v).
Qed.
Lemma parse_skips (l : list (string * string)) s :
  (∀ kv, kv ∈ l → short kv.2) →
  parse_words (concat ((λ kv, ["skip"; kv.1; hx kv.2]) <$> l)) s = ok (set_skipped (foldl (λ a kv, <[kv.1 := kv.2]> a) (skipped s) l) s).
Proof.
  revert s. induction l as [|kv l IH]; intros s Hl; [by destruct s|].
  cbn [fmap list_fmap concat app]. cbn [parse_words]. rewrite String.eqb_refl, unhex_hx by (apply Hl; set_solver).
  change (list_fmap _ _ ?f l) with (f <$> l). rewrite IH by set_solver. done.
Qed.
Lemma parse_words_field k v ws s :
  String.eqb k "skip" = false → parse_words (k :: v :: ws) s = (s ← set_field k v s; parse_words ws s).
Proof. intros H. cbn [parse_words]. by rewrite H. Qed.
Ltac next_field :=
  rewrite parse_words_field by reflexivity; unfold set_field at 1; cbn [String.eqb Ascii.eqb Bool.eqb];
  rewrite ?unhex_hx by assumption; rewrite ?stoull_to_string_ok, ?u32_small by first [assumption | by apply u32_u64];
  cbn [mbind outcome_bind ok].
(** A session that is stored is the session that is loaded. *)
Lemma parse_ser s : storable s → parse (ser s) = ok s.
Proof.
  intros St. unfold parse. rewrite words_ser, concat_app by done. unfold field_words. cbn [concat app].
  pose proof St as [[Hsid _] _ _ _ H1 H2 Hrk H3 H4 Hn1 Hn2 Hn3 H5 H6 H7 H8 H9 H10 Hsk].
  assert (Hrks : short (rk s)) by (unfold short; lia). unfold short in *. unfold empty_session.
  do 19 next_field. rewrite parse_skips.
  - cbn [mbind outcome_bind ok skipped set_skipped sid rk]. rewrite (fold_insert_map _ (skipped s)), (right_id ∅ (∪)) by apply merge_sort_Permutation.
    apply is_empty_false in Hsid. rewrite Hsid, Hrk. cbn [negb andb Nat.eqb]. unfold set_skipped.
    cbn [sid peer_fp my_fp peer_identity peer_relay rk cks ckr ns nr pn my_pub my_sk prev_pub prev_sk peer_rk step_ct step_to need_step].
    destruct s as [? ? ? ? ? ? ? ? ? ? ? ? ? ? ? ? ? ? n ?]. by destruct n.
  - intros [k v] Hin. rewrite merge_sort_Permutation in Hin. apply elem_of_map_to_list in Hin. by apply (Hsk k v).
Qed.

(** ** Sessions that exchange frames can be stored at any time *)

Section talk.
Context {C : Crypto} {P : PmCrypto} {IO : IterationOrder} {L : PmLaws P} (Hsha : sha3_512_digests).

Lemma hex_word b n : (1 ≤ n)%nat → b ≠ "" → word_ok (str_take n (to_hex b)).
Proof.
  intros Hn Hb. split; [by destruct b, n; try lia|].
  assert (H : ∀ s n, all_chars (λ c, negb (is_space c)) s = true → all_chars (λ c, negb (is_space c)) (str_take n s) = true).
  { induction s as [|c s IH]; intros [|m] Hs; try done. cbn in *. apply andb_prop in Hs as [-> Hs]. by rewrite IH. }
  apply H. apply (all_chars_impl is_hex_char); [|apply bytes_to_hex_chars]. intros c. by destruct c as [[][][][][][][][]].
Qed.
Lemma digest_ne s : sha3_512_bytes s ≠ "".
Proof. intros E. apply (f_equal String.length) in E. unfold sha3_512_bytes in E. by rewrite Hsha in E. Qed.
Lemma h32_word s : word_ok (h32 s).
Proof. apply hex_word; [lia|apply digest_ne]. Qed.
Lemma fingerprint_word s : word_ok (fingerprint s).
Proof. apply hex_word; [lia|apply digest_ne]. Qed.
Lemma h32_length s : String.length (h32 s) = 32%nat.
Proof. unfold h32, to_hex. by rewrite str_length_take, bytes_to_hex_length, Hsha. Qed.
Lemma skip_key_word p n : word_ok (skip_key p n).
Proof.
  destruct (h32_word p) as [Hne Hw]. split; [by unfold skip_key; destruct (h32 p)|]. unfold skip_key.
  rewrite !all_chars_app, Hw. destruct (number_word n) as [_ ->]. done.
Qed.
Lemma kem_short coins pk sk : kem_keypair coins = Some (pk, sk) →
  Z.of_nat (String.length pk) = 1568 ∧ Z.of_nat (String.length sk) = 3168.
Proof.
  unfold kem_keypair. destruct OQS_KEM_ml_kem_1024 as [z|] eqn:Hz; [|done]. intros Hk.
  destruct (keypair_sizes _ _ _ _ Hz Hk) as (H1 & H2 & _). rewrite (kem_sizes _ Hz) in H1, H2. cbn [kem_pk_size kem_sk_size] in H1, H2. lia.
Qed.
Lemma encaps_short coins pk ct ss : kem_encaps coins pk = Some (ct, ss) → Z.of_nat (String.length ct) = 1568.
Proof.
  unfold kem_encaps. destruct OQS_KEM_ml_kem_1024 as [z|] eqn:Hz; [|done]. destruct (_ =? _)%nat; [|done]. intros Hk.
  destruct (encaps_sizes _ _ _ _ _ Hz Hk) as (H1 & _). rewrite (kem_sizes _ Hz) in H1. cbn [kem_ct_size] in H1. lia.
Qed.
Lemma kdf_ck_size ck : String.length (kdf_ck ck).1 = 32%nat ∧ String.length (kdf_ck ck).2 = 32%nat.
Proof. unfold kdf_ck, hmac. cbn [fst snd]. by rewrite !str_length_take, !hmac_size. Qed.
Lemma kdf_rk_sizes rk ss : String.length (kdf_rk rk ss).1 = 32%nat ∧ String.length (kdf_rk rk ss).2 = 32%nat.
Proof. unfold kdf_rk, hmac. cbn [fst snd]. by rewrite !str_length_take, str_length_drop, !hmac_size. Qed.

(** [storable], and what the frames need. *)
Record sending_wf (id : string) (s : Session) : Prop := {
  sw_storable : storable s;
  sw_sid : sid s = id;
  sw_pub : Z.of_nat (String.length (my_pub s)) ≤ 4096;
  sw_ct : Z.of_nat (String.length (step_ct s)) ≤ 4096;
  sw_to : Z.of_nat (String.length (step_to s)) ≤ 64;
}.
Lemma ratchet_wf id r s s' : sending_wf id s → ratchet_step r s = Ok s' → sending_wf id s'.
Proof.
  intros [[] Hid Hp Hc Ht] H. unfold ratchet_step in H. destruct (kem_encaps _ _) as [[ct ss]|] eqn:He; [|done].
  destruct (kem_keypair _) as [[pub sk]|] eqn:Hk; [|done]. pose proof (kdf_rk_sizes (rk s) ss) as [R1 R2].
  destruct (kdf_rk (rk s) ss) as [rk' ck']. cbn [fst snd] in R1, R2. injection H as <-.
  apply encaps_short in He. apply kem_short in Hk as [Hk1 Hk2].
  split; [|done|cbn [my_pub]; lia|cbn [step_ct]; lia|cbn [step_to]; rewrite h32_length; lia].
  split; cbn [sid peer_fp my_fp peer_identity peer_relay rk cks ckr ns nr pn my_pub my_sk prev_pub prev_sk peer_rk step_ct step_to skipped];
    try done; unfold short in *; try lia. apply h32_word.
Qed.
Lemma next_send_wf id s : sending_wf id s → sending_wf id (next_send s).
Proof.
  intros [[] Hid Hp Hc Ht]. destruct (kdf_ck_size (cks s)) as [_ R]. split; try done. split; try done; unfold next_send.
  - cbn [cks]. unfold short. lia.
  - cbn [ns]. unfold is_u32, u32. apply Z.mod_pos_bound. lia.
Qed.
Lemma encrypt_wf id r s text s' f :
  String.length (r_iv r) = 12%nat → sending_wf id s → encrypt r s text = Ok (s', f) →
  sending_wf id s' ∧ f_sid f = id ∧
  (Z.of_nat (String.length id) ≤ 64 → Z.of_nat (String.length text) ≤ 39984 → frame_wf f) ∧
  Z.of_nat (String.length (f_rk_pub f)) ≤ 4096.
Proof.
  intros Hiv Hs He. unfold encrypt in He. apply bind_Ok in He as (s1 & Hs1 & He). destruct (negb _); [done|].
  cbn [mbind result_bind] in He. injection He as <- <-.
  assert (Hw : sending_wf id s1) by (destruct (need_step s); [by eapply ratchet_wf|by injection Hs1 as <-]).
  split; [by apply next_send_wf|]. destruct Hw as [[] <- Hp Hc Ht]. cbn [f_sid f_rk_pub]. split; [done|]. split; [|done].
  intros Hid Htext. split; cbn [f_sid f_rk_pub f_step_ct f_to f_pn f_n f_iv f_ct]; try done. rewrite gcm_size. lia.
Qed.
Lemma with_receiving_wf id c n m s :
  sending_wf id s → short c → is_u32 n → map_Forall (λ i mk, word_ok i ∧ short mk) m → sending_wf id (with_receiving c n m s).
Proof. intros [[] Hid Hp Hc Ht] H1 H2 H3. by split. Qed.
Lemma u32_is z : is_u32 (u32 z).
Proof. unfold is_u32, u32. by apply Z.mod_pos_bound. Qed.
Lemma kdf_ck_short ck mk ck' : kdf_ck ck = (mk, ck') → short mk ∧ short ck'.
Proof. intros E. destruct (kdf_ck_size ck) as [H1 H2]. rewrite E in H1, H2. cbn in H1, H2. unfold short. lia. Qed.
Lemma skip_keys_wf id k s : sending_wf id s → sending_wf id (skip_keys k s).
Proof.
  revert s. induction k as [|k IH]; intros s Hs; [done|]. cbn [skip_keys]. destruct (kdf_ck (ckr s)) as [mk ck] eqn:E.
  destruct (kdf_ck_short _ _ _ E) as [H1 H2]. apply IH, with_receiving_wf; [done|done|apply u32_is|].
  apply map_Forall_insert_2; [split; [apply skip_key_word|done]|]. apply Hs.
Qed.
Lemma evict_Forall (Q : string → string → Prop) k m : map_Forall Q m → map_Forall Q (evict k m).
Proof.
  revert m. induction k as [|k IH]; intros m Hm; [done|]. cbn [evict]. destruct (first_key m) as [x|]; [|done].
  by apply IH, map_Forall_delete.
Qed.
Lemma set_skipped_wf id m s :
  sending_wf id s → map_Forall (λ i mk, word_ok i ∧ short mk) m → sending_wf id (set_skipped m s).
Proof. intros [[] Hid Hp Hc Ht] H. by split. Qed.
Lemma skip_to_wf id u s s' : sending_wf id s → skip_to u s = Some s' → sending_wf id s'.
Proof.
  intros Hs. unfold skip_to. destruct (negb _); [by intros [= <-]|]. destruct (_ <? _); [done|]. intros [= <-].
  pose proof (skip_keys_wf id (Z.to_nat (u - nr s)) s Hs) as H. apply set_skipped_wf; [done|]. apply evict_Forall, H.
Qed.
Lemma new_chain_wf id f s s' :
  Z.of_nat (String.length (f_rk_pub f)) ≤ 4096 → sending_wf id s → new_chain f s = Ok s' → sending_wf id s'.
Proof.
  intros Hf Hs H. unfold new_chain in H. destruct (is_empty _); [done|]. apply bind_Ok in H as (s1 & H1%or_err_Ok & H).
  apply (skip_to_wf id _ _ _ Hs) in H1 as [[] Hid Hp Hc Ht]. apply bind_Ok in H as (ss & _ & H).
  pose proof (kdf_rk_sizes (rk s1) ss) as [R1 R2]. destruct (kdf_rk (rk s1) ss) as [rk' ck']. cbn [fst snd] in R1, R2. injection H as <-.
  split; try done. split; cbn [sid peer_fp my_fp peer_identity peer_relay rk cks ckr ns nr pn my_pub my_sk prev_pub prev_sk peer_rk step_ct step_to skipped];
    try done; unfold short in *; lia.
Qed.
Lemma decrypt_wf id f s s' text :
  Z.of_nat (String.length (f_rk_pub f)) ≤ 4096 → sending_wf id s → decrypt f s = Ok (s', text) → sending_wf id s'.
Proof.
  intros Hf Hs H. unfold decrypt in H. apply bind_Ok in H as ([s1 mk] & Hk & H). destruct (aead_open _ _ _ _); [|done].
  injection H as <- _. unfold message_key in Hk. destruct (skipped s !! _) as [mk'|] eqn:E.
  - injection Hk as <- _. apply set_skipped_wf; [done|]. apply map_Forall_delete, Hs.
  - apply bind_Ok in Hk as (s2 & H2 & Hk).
    assert (W2 : sending_wf id s2) by (destruct (String.eqb _ _); [by injection H2 as <-|by eapply new_chain_wf]).
    destruct (_ <? _); [done|]. cbn [mbind result_bind] in Hk. apply bind_Ok in Hk as (s3 & H3%or_err_Ok & Hk).
    apply (skip_to_wf id _ _ _ W2) in H3. destruct (kdf_ck (ckr s3)) as [mk1 ck1] eqn:Ek. injection Hk as <- _.
    destruct (kdf_ck_short _ _ _ Ek) as [_ R]. apply with_receiving_wf; [done|done|apply u32_is|apply H3].
Qed.

Definition message_wf (id : string) (m : Sent) : Prop :=
  f_sid (frame m) = id ∧ Z.of_nat (String.length (f_rk_pub (frame m))) ≤ 4096 ∧
  (Z.of_nat (String.length id) ≤ 64 → Z.of_nat (String.length (sent_text m)) ≤ 39984 → frame_wf (frame m)).
Definition world_wf (id : string) (w : World) : Prop :=
  (∀ x, sending_wf id (side w x)) ∧ ∀ m, m ∈ sent w → message_wf id m.
Lemma exchange_wf id w0 w : world_wf id w0 → exchange w0 w → world_wf id w.
Proof.
  intros H0 H. induction H as [|w x r text s f _ IH Hiv He _ _ _|w i m s text _ IH Hi _ Hd]; [done|..]; destruct IH as [Hs Hm].
  - destruct (encrypt_wf id _ _ _ _ _ Hiv (Hs x) He) as (H1 & H2 & H3 & H4). split.
    + intros y. cbn. by destruct (Bool.eqb y x).
    + intros m [Hin|Hin]%elem_of_app; [by apply Hm|]. apply list_elem_of_singleton in Hin as ->. done.
  - pose proof (Hm m ltac:(by eapply list_elem_of_lookup_2)) as Hw. split.
    + intros y. cbn. destruct (Bool.eqb y (negb (from m))); [|done]. destruct Hw as (_ & Hp & _). by eapply decrypt_wf.
    + intros m' [j Hj]%list_elem_of_lookup. cbn in Hj. rewrite list_lookup_insert in Hj. destruct (decide _) as [_|_].
      * by injection Hj as <-.
      * apply Hm. by eapply list_elem_of_lookup_2.
Qed.
Lemma load_held wallet m s :
  storable s → safe_name wallet = true → safe_name (sid s) = true →
  m_files m !! session_path m wallet (sid s) = Some (ser s) → load_session wallet (sid s) m = ok s.
Proof. intros Hst Hw Hs Hf. unfold load_session. by rewrite Hw, Hs, Hf, parse_ser. Qed.
Lemma hex_safe b : String.length b = 16%nat → safe_name (bytes_to_hex b) = true.
Proof.
  intros Hb. unfold safe_name. rewrite bytes_to_hex_length, Hb. destruct b as [|c b]; [done|].
  assert (Hc : all_chars (λ c, is_alnum c || Ascii.eqb c "_" || Ascii.eqb c "-" || Ascii.eqb c ".") (bytes_to_hex (String c b)) = true).
  { apply (all_chars_impl is_hex_char); [|apply bytes_to_hex_chars]. intros d. by destruct d as [[][][][][][][][]]. }
  rewrite Hc. pose proof (bytes_to_hex_chars (String c b)) as Hx. cbn [bytes_to_hex all_chars] in *. cbn [is_empty String.eqb negb andb].
  apply andb_prop in Hx as [Hx _]. unfold starts_with. cbn [String.prefix].
  destruct (Ascii.ascii_dec "." (hex_digit (Z.shiftr (byte_of_char c) 4))) as [E|]; [|done]. by rewrite <- E in Hx.
Qed.
Definition card_wf (k : KeyPackage) : Prop :=
  Z.of_nat (String.length (identity_pub k)) ≤ 4096 ∧ Z.of_nat (String.length (relay_pub k)) ≤ 4096.
Lemma handshake_wf r id_pk id_sk mine peer text a i id_pk' init_sk b text' :
  start_init r id_pk id_sk mine peer text = Ok (a, i) → accept_init i init_sk id_pk' mine = Ok (b, text') →
  String.length (r_sid r) = 16%nat → card_wf mine → card_wf peer →
  world_wf (sid a) (two_sides a b) ∧ sid a = bytes_to_hex (r_sid r).
Proof.
  intros Ha Hb Hr [M1 M2] [P1 P2]. unfold start_init in Ha. destruct (kem_encaps _ _) as [[ct1 ss1]|]; [|done].
  destruct (kem_keypair _) as [[pub sk]|] eqn:Hk; [|done]. apply kem_short in Hk as [K1 K2]. apply bind_Ok in Ha as (sg & _ & Ha).
  destruct (kdf_ck _) as [mk ck] eqn:Ek in Ha. apply kdf_ck_short in Ek as [_ E1]. injection Ha as <- <-.
  unfold accept_init in Hb. apply bind_Ok in Hb as (ss2 & _ & Hb). cbn [i_sid i_kp_hash i_ct1 i_rk_pub] in Hb.
  destruct (kdf_ck _) as [mk' ck'] eqn:Ek in Hb. apply kdf_ck_short in Ek as [_ E2]. apply bind_Ok in Hb as (tx & _ & Hb). injection Hb as <- _.
  split; [|done]. assert (Hw : word_ok (bytes_to_hex (r_sid r))).
  { split; [intros E; apply (f_equal String.length) in E; rewrite bytes_to_hex_length, Hr in E; discriminate|].
    apply (all_chars_impl is_hex_char); [|apply bytes_to_hex_chars]. intros c. by destruct c as [[][][][][][][][]]. }
  assert (Hrk : ∀ t ss, String.length (root_key t ss) = 32%nat) by (intros; unfold root_key, hmac; by rewrite str_length_take, hmac_size).
  split; [|by intros m Hm%elem_of_nil].
  intros []; (split; [|done|cbn [two_sides side my_pub]; cbn; lia|cbn; lia|cbn; lia]);
    (split; cbn [two_sides side sid peer_fp my_fp peer_identity peer_relay rk cks ckr ns nr pn my_pub my_sk prev_pub prev_sk peer_rk step_ct step_to skipped];
     try done; try apply fingerprint_word; try apply Hrk; unfold short in *; cbn; try lia).
Qed.

End talk.
