(* ===== verification/PmRelayProofs.v ===== *)
(** * The relay keeps what it promises

    Any calls, in any order and at any clocks: the bounds of the store, how an envelope can
    leave it, and that a deleted one does not come back. Then the way of one message from
    the sender over another relay to the mailbox, and its deletion. *)
From stdpp Require Import sorting.
From S2P Require Import Prelude Strings Lines Crypto Types Wire WireProofs Block StateStore StateStoreProofs.
From S2P Require Import PqSession PmRelay PqMessenger PqSessionProofs.

Section relay.
Context {C : Crypto} {P : PmCrypto} {IO : IterationOrder}.

(** The calls of a relay. [PmClock]: those that only drop what has expired ([inbox],
    [read_all], [fetch_mailbox], [has_undelivered], [purge_expired], [pm_status]). *)
Inductive PmOp :=
  | PmKeyDir (dir : string)
  | PmKey (wallet coins : string)
  | PmSend (now : Z) (d : PmRand) (pk text : string) (frame : bool) (ttl : Z)
  | PmWire (now : Z) (peer body : string)
  | PmDelete (peer body : string)
  | PmRemove (wallet id : string)
  | PmClock (now : Z)
  | PmRound (now : Z) (peer : string) (max : nat)
  | PmMark (peer line : string)
  | PmPublish (now : Z) (hex : string)
  | PmPackage (now : Z) (peer body : string).
Definition pm_step (r : PmStore) (o : PmOp) : PmStore :=
  match o with
  | PmKeyDir dir => set_key_dir dir r
  | PmKey wallet coins => (ensure_key wallet coins r).1
  | PmSend now d pk text frame ttl => (if frame then pm_send_frame now d pk text ttl r else pm_send now d pk text ttl r).1
  | PmWire now peer body => (accept_wire now peer body r).1
  | PmDelete peer body => (accept_delete peer body r).1
  | PmRemove wallet id => (pm_remove wallet id r).1
  | PmClock now => purge now r
  | PmRound now peer max => (undelivered_for now peer max r).1
  | PmMark peer line => mark_delivered peer line r
  | PmPublish now hex => (publish_package now hex r).1
  | PmPackage now peer body => (accept_package now peer body r).1
  end.
(** The clock that a call compares with the times of the store. *)
Definition clock (o : PmOp) : option Z :=
  match o with PmSend now _ _ _ _ _ | PmWire now _ _ | PmClock now | PmRound now _ _ => Some now | _ => None end.

(** ** The bounds *)

Record relay_ok (r : PmStore) : Prop := {
  rl_bytes : bytes r = map_sum env_size (envs r);
  rl_cap : bytes r ≤ kMaxStoreBytes;
  rl_count : (size (envs r) ≤ kMaxMessages)%nat;
  rl_pkgs : (size (pkgs r) ≤ kMaxPackages)%nat;
  rl_env id e : envs r !! id = Some e → e_id e = id ∧ tombstones r !! id = None;
  rl_lines : dom (del_lines r) ⊆ dom (tombstones r);
  rl_queue peer q : rate r !! peer = Some q → (length q ≤ kPeerRatePerMin)%nat;
  rl_peers : (size (rate r) ≤ Z.to_nat 1024)%nat;
}.

Lemma env_size_nonneg e : 0 ≤ env_size e.
Proof. unfold env_size. lia. Qed.
Lemma foldl_sub l b :
  0 ≤ list_sum env_size l ≤ b → b < W64 → foldl (λ b e, u64 (b - env_size e)) b l = b - list_sum env_size l.
Proof.
  revert b. induction l as [|e l IH]; intros b Hl Hb; cbn [foldl]; [cbn; lia|]. rewrite list_sum_cons in *.
  pose proof (env_size_nonneg e). assert (0 ≤ list_sum env_size l) by (apply list_sum_nonneg; intros; apply env_size_nonneg).
  rewrite u64_small by (unfold is_u64; lia). rewrite IH; lia.
Qed.
Lemma empty_store_ok dir : relay_ok (empty_store dir).
Proof.
  split; cbn; rewrite ?map_sum_empty, ?map_size_empty; try done; try lia.
Qed.

(** What has expired goes. *)
Lemma purge_env now r i e : envs (purge now r) !! i = Some e ↔ envs r !! i = Some e ∧ now < expire_at e.
Proof. cbn. rewrite map_lookup_filter_Some. cbn. by rewrite Z.nle_gt. Qed.
Lemma purge_tombstone now r i t : tombstones (purge now r) !! i = Some t ↔ tombstones r !! i = Some t ∧ now < t.
Proof. cbn. rewrite map_lookup_filter_Some. cbn. by rewrite Z.nle_gt. Qed.
Lemma purge_ok now r : relay_ok r → relay_ok (purge now r).
Proof.
  intros [Hb Hc Hn Hp He Hl Hq Hr]. pose proof (map_filter_union_complement (λ kv, expire_at kv.2 <= now) (envs r)) as Hu.
  apply (f_equal (map_sum env_size)) in Hu. rewrite map_sum_union in Hu by apply map_disjoint_filter_complement.
  set (gone := filter (λ kv, expire_at kv.2 <= now) (envs r)) in *.
  set (kept := filter (λ kv, ¬ expire_at kv.2 <= now) (envs r)) in *.
  assert (0 ≤ map_sum env_size gone) by (apply map_sum_nonneg; intros; apply env_size_nonneg).
  assert (0 ≤ map_sum env_size kept) by (apply map_sum_nonneg; intros; apply env_size_nonneg).
  assert (Hs : bytes (purge now r) = map_sum env_size kept).
  { change (foldl (λ b e, u64 (b - env_size e)) (bytes r) (map_to_list gone).*2 = map_sum env_size kept).
    assert (Hg : list_sum env_size (map_to_list gone).*2 = map_sum env_size gone).
    { unfold map_sum. induction (map_to_list gone) as [|kv l IH]; [done|]. cbn. by rewrite IH. }
    unfold kMaxStoreBytes in *. rewrite foldl_sub, Hg; lia. }
  split; try done.
  - rewrite Hs. lia.
  - etransitivity; [|exact Hn]. apply map_size_filter.
  - etransitivity; [|exact Hp]. apply map_size_filter.
  - intros id e [Hid _]%purge_env. destruct (He id e Hid) as [Hi Ht]. split; [done|].
    apply eq_None_not_Some. intros [t [Ht' _]%purge_tombstone]. congruence.
  - intros id [l Hid]%elem_of_dom. cbn in Hid. apply map_lookup_filter_Some in Hid as [Hid Hx]. cbn in Hx.
    assert (Hin : id ∈ dom (tombstones r)) by (apply Hl, elem_of_dom; by exists l). apply elem_of_dom in Hin as [t Ht].
    rewrite Ht in Hx. cbn in Hx. apply Z.leb_gt in Hx. apply elem_of_dom. exists t. by apply purge_tombstone.
Qed.

(** What a call leaves alone. *)
Definition same_store (r r' : PmStore) : Prop :=
  bytes r' = bytes r ∧ envs r' = envs r ∧ tombstones r' = tombstones r ∧ del_lines r' = del_lines r.
Definition limits (r : PmStore) : Prop :=
  (size (pkgs r) ≤ kMaxPackages)%nat ∧ (∀ peer q, rate r !! peer = Some q → (length q ≤ kPeerRatePerMin)%nat) ∧
  (size (rate r) ≤ Z.to_nat 1024)%nat.
Lemma relay_limits r : relay_ok r → limits r.
Proof. by intros []. Qed.
Lemma same_store_ok r r' : same_store r r' → limits r' → relay_ok r → relay_ok r'.
Proof. intros (Hb & He & Ht & Hl) (Hp & Hq & Hr) []. split; rewrite ?Hb, ?He, ?Ht, ?Hl; done. Qed.
Lemma same_store_trans r1 r2 r3 : same_store r1 r2 → same_store r2 r3 → same_store r1 r3.
Proof. intros (? & ? & ? & ?) (? & ? & ? & ?). split_and!; congruence. Qed.
Lemma same_store_purge now r r' : same_store r r' → same_store (purge now r) (purge now r').
Proof. intros (Hb & He & Ht & Hl). unfold same_store, purge. cbn. by rewrite Hb, He, Ht, Hl. Qed.
Lemma rate_ok_store now peer r : same_store r (rate_ok now peer r).1 ∧ pkgs (rate_ok now peer r).1 = pkgs r.
Proof. unfold rate_ok. by destruct (_ <=? _)%nat. Qed.
Lemma note_delivered_store peer id r :
  same_store r (note_delivered peer id r) ∧ pkgs (note_delivered peer id r) = pkgs r ∧ rate (note_delivered peer id r) = rate r.
Proof. done. Qed.
Lemma rate_ok_ok now peer r : relay_ok r → relay_ok (rate_ok now peer r).1.
Proof.
  intros [Hb Hc Hn Hp He Hl Hq Hr]. unfold rate_ok. set (pop := fix pop (q : list Z) := _). set (q := pop _).
  assert (Hlen : (length q ≤ kPeerRatePerMin)%nat).
  { assert (Hpop : ∀ l, (length (pop l) ≤ length l)%nat).
    { induction l as [|t l IH]; cbn; [lia|]. destruct (_ <=? _); cbn; lia. }
    unfold q. destruct (rate r !! peer) as [l|] eqn:E; cbn; [|unfold kPeerRatePerMin; lia].
    pose proof (Hpop l). pose proof (Hq peer l E). lia. }
  destruct (Nat.leb_spec kPeerRatePerMin (length q)) as [Hfull|Hfree]; cbn [fst].
  - split; try done; cbn.
    + intros p' l' [[_ <-]|[_ Hl']]%lookup_insert_Some; [done|by eapply Hq].
    + destruct (rate r !! peer) as [l|] eqn:E; [rewrite map_size_insert_Some by eauto; lia|].
      exfalso. unfold q in Hfull. cbn in Hfull. unfold kPeerRatePerMin in Hfull. lia.
  - split; try done; cbn [rate set_rate].
    + destruct (Z.to_nat 1024 <? size (<[peer := q ++ [now]]> (rate r)))%nat; [intros p' l'; by rewrite lookup_empty|].
      intros p' l' [[_ <-]|[_ Hl']]%lookup_insert_Some; [rewrite length_app; cbn; lia|by eapply Hq].
    + destruct (Nat.ltb_spec (Z.to_nat 1024) (size (<[peer := q ++ [now]]> (rate r)))); [rewrite map_size_empty; lia|lia].
Qed.

(** ** Storing and burying *)

(** An envelope is added under a new id, or nothing changes but what has expired. *)
Lemma store_cases now e r :
  let r' := (store now e r).1 in
  r' = purge now r ∨
  envs (purge now r) !! e_id e = None ∧ tombstones (purge now r) !! e_id e = None ∧
  (size (envs (purge now r)) < kMaxMessages)%nat ∧ u64 (bytes (purge now r) + env_size e) ≤ kMaxStoreBytes ∧
  now < expire_at e ∧ (store now e r).2 = Ok false ∧
  r' = set_envs (<[e_id e := e]> (envs (purge now r))) (u64 (bytes (purge now r) + env_size e)) (purge now r).
Proof.
  unfold store. cbv zeta. set (r1 := purge now r). destruct (bool_decide (is_Some (envs r1 !! e_id e)) || bool_decide (is_Some (tombstones r1 !! e_id e))) eqn:E1; [by left|].
  destruct (Z.leb_spec (expire_at e) now); [by left|]. destruct (_ <? expire_at e); [by left|].
  destruct ((kMaxMessages <=? size (envs r1))%nat || (kMaxStoreBytes <? u64 (bytes r1 + env_size e))) eqn:E2; [by left|]. right. apply orb_false_elim in E1 as [E1 E3], E2 as [E2 E4].
  apply bool_decide_eq_false, eq_None_not_Some in E1. apply bool_decide_eq_false, eq_None_not_Some in E3. apply Nat.leb_gt in E2. apply Z.ltb_ge in E4.
  done.
Qed.
Lemma store_ok now e r : env_size e < W32 → relay_ok r → relay_ok (store now e r).1.
Proof.
  intros Hsz R. apply (purge_ok now) in R. destruct (store_cases now e r) as [->|(He & Ht & Hn & Hb & _ & _ & ->)]; [done|].
  set (r1 := purge now r) in *. destruct R as [Rb Rc Rn Rp Re Rl Rq Rr]. pose proof (env_size_nonneg e).
  assert (0 ≤ bytes r1) by (rewrite Rb; apply map_sum_nonneg; intros; apply env_size_nonneg).
  unfold kMaxStoreBytes in *. rewrite u64_small in * by (unfold is_u64; lia).
  split; cbn [bytes envs pkgs tombstones del_lines rate set_envs]; try done.
  - rewrite map_sum_insert_None by done. lia.
  - rewrite map_size_insert_None by done. lia.
  - intros id x [[<- <-]|[_ Hx]]%lookup_insert_Some; [done|by apply Re].
Qed.
Lemma bury_ok id e token r : envs r !! id = Some e → relay_ok r → relay_ok (bury id e token r).
Proof.
  intros He [Rb Rc Rn Rp Re Rl Rq Rr]. pose proof (env_size_nonneg e).
  assert (Hle : env_size e ≤ map_sum env_size (envs r)) by (apply (map_sum_lookup_le _ _ id); [intros; apply env_size_nonneg|done]).
  unfold kMaxStoreBytes in *. split; cbn [bytes envs pkgs tombstones del_lines rate bury set_envs set_tombstones]; try done.
  - rewrite u64_small by (unfold is_u64; lia). rewrite (map_sum_delete _ _ _ e) by done. lia.
  - rewrite u64_small by (unfold is_u64; lia). unfold kMaxStoreBytes. lia.
  - rewrite map_size_delete_Some by done. lia.
  - intros i x [Hi Hx]%lookup_delete_Some. rewrite lookup_insert_ne by done. by apply Re.
  - rewrite !dom_insert_L. set_solver.
Qed.

(** ** What a call does to the store *)

(** Who may delete an envelope: who knows its token, or has the key of its mailbox. *)
Definition entitled (r : PmStore) (o : PmOp) (i : string) (e : Env) : Prop :=
  (∃ peer body token t, o = PmDelete peer body ∧ getlines "|" (Some body) = [i; token] ∧ hex_to_bytes token = Ok t ∧
                        token_hash t = e_del_hash e) ∨
  (∃ wallet k text token, o = PmRemove wallet i ∧ (load_key wallet None r).2 = Ok k ∧ e_mailbox e = k_mailbox k ∧
                          pm_decrypt e k = Ok (text, token)).
(** Nothing but what has expired, a new envelope, or a deletion. *)
Inductive effect (r : PmStore) (o : PmOp) (r' : PmStore) : Prop :=
  | eff_none : same_store r r' → effect r o r'
  | eff_purge now : clock o = Some now → same_store (purge now r) r' → effect r o r'
  | eff_store now e : clock o = Some now → env_size e < W32 → same_store (store now e r).1 r' → effect r o r'
  | eff_bury i e token : envs r !! i = Some e → entitled r o i e → same_store (bury i e token r) r' → effect r o r'.
Lemma same_store_refl r : same_store r r.
Proof. done. Qed.
Lemma same_store_store now e r r' : same_store r r' → same_store (store now e r).1 (store now e r').1.
Proof.
  intros Hs. pose proof (same_store_purge now _ _ Hs) as (Hb & He & Ht & Hl). unfold store. cbv zeta.
  rewrite Hb, He, Ht. repeat case_match; unfold same_store; cbn [fst bytes envs tombstones del_lines set_envs]; by rewrite ?Hb, ?He, ?Ht, ?Hl.
Qed.
Lemma load_key_store wallet coins r :
  same_store r (load_key wallet coins r).1 ∧ pkgs (load_key wallet coins r).1 = pkgs r ∧
  rate (load_key wallet coins r).1 = rate r.
Proof. unfold load_key. by repeat case_match. Qed.
Lemma load_key_none wallet r : (load_key wallet None r).1 = r.
Proof. unfold load_key. by repeat case_match. Qed.

Context {L : PmLaws P}.
Lemma ct_max_tight : Z.of_nat ct_max < 96000.
Proof. vm_compute. done. Qed.
Lemma is_hex_length s lo hi : is_hex s lo hi = true → (lo ≤ String.length s ≤ hi)%nat.
Proof. unfold is_hex. intros H. bools. rewrite ?Nat.ltb_ge in *. lia. Qed.
Lemma parse_env_Some body e :
  parse_env body = Some e ↔ ∃ exp,
    getlines "|" (Some body) = ["v1"; e_id e; e_mailbox e; exp; e_del_hash e; e_kem_ct e; e_iv e; e_ct e] ∧
    number exp = Some (expire_at e) ∧ is_hex (e_id e) 32 32 = true ∧ is_hex (e_mailbox e) 32 32 = true ∧
    is_hex (e_del_hash e) 64 64 = true ∧ is_hex (e_kem_ct e) (Z.to_nat 3136) (Z.to_nat 3136) = true ∧
    is_hex (e_iv e) 24 24 = true ∧ is_hex (e_ct e) 544 ct_max = true ∧
    (Nat.modulo (String.length (e_ct e) / 2 - 16) 256 =? 0)%nat = true.
Proof.
  unfold parse_env. split.
  - destruct (getlines _ _) as [|v [|id [|mb [|exp [|dh [|kc [|iv [|ct [|]]]]]]]]]; try done.
    destruct (String.eqb_spec v "v1") as [->|]; [|done]. cbn [negb]. intros (t & Ht & H)%bind_Some.
    destruct (_ && _) eqn:E in H; [|done]. injection H as <-. cbn [e_id e_mailbox e_del_hash e_kem_ct e_iv e_ct expire_at].
    exists exp. rewrite !andb_true_iff in E. tauto.
  - intros (exp & -> & Hn & H1 & H2 & H3 & H4 & H5 & H6 & H7). rewrite String.eqb_refl. cbn [negb].
    rewrite Hn. cbn [mbind option_bind]. rewrite H1, H2, H3, H4, H5, H6, H7. by destruct e.
Qed.
Lemma parse_env_small body e : parse_env body = Some e → env_size e < W32.
Proof.
  intros (exp & _ & _ & _ & _ & _ & H4%is_hex_length & _ & H6%is_hex_length & _)%parse_env_Some. pose proof ct_max_tight.
  unfold env_size. lia.
Qed.
Lemma framed_length text :
  String.length (framed text) = ((String.length text + 2 + 255) / 256 * 256)%nat ∧
  (String.length text + 2 ≤ String.length (framed text) ≤ String.length text + 258)%nat.
Proof.
  assert (Hz : ∀ n, String.length (zeros n) = n) by (induction n; cbn; congruence).
  unfold framed. cbv zeta. rewrite str_length_app, Hz. cbn [String.length].
  replace (S (S (String.length text)) + 255)%nat with (String.length text + 2 + 255)%nat by lia.
  pose proof (Nat.div_mod (String.length text + 2 + 255) 256 ltac:(lia)).
  pose proof (Nat.mod_upper_bound (String.length text + 2 + 255) 256 ltac:(lia)). lia.
Qed.
Lemma seal_small now d pk text (frame : bool) ttl e :
  seal now d pk text (if frame then kMaxFrame else kMaxPlaintext) ttl = Ok e → env_size e < W32.
Proof.
  unfold seal. destruct (_ || _) eqn:E; [done|]. destruct (hex_to_bytes pk) as [pkb|]; [|done].
  destruct OQS_KEM_ml_kem_1024 as [z|] eqn:Hz; [|done]. destruct (negb _); [done|].
  intros ([ct ss] & Hen%or_err_Ok & H)%bind_Ok. injection H as <-. unfold env_size. cbn [e_ct e_kem_ct].
  destruct (encaps_sizes _ _ _ _ _ Hz Hen) as [Hl _]. rewrite (kem_sizes _ Hz) in Hl. cbn [kem_ct_size] in Hl.
  rewrite !bytes_to_hex_length, gcm_size, Hl. apply orb_false_elim in E as [_ E]. apply Nat.ltb_ge in E.
  pose proof (framed_length text) as [_ Hfl]. assert (String.length text ≤ Z.to_nat 32768)%nat by (destruct frame; unfold kMaxFrame, kMaxPlaintext in E; lia).
  lia.
Qed.
Lemma put_package_store now hex r : same_store r (put_package now hex r).1 ∧ rate (put_package now hex r).1 = rate r.
Proof. unfold put_package. by repeat case_match. Qed.
Lemma step_effect r o : effect r o (pm_step r o).
Proof.
  destruct o as [dir|wallet coins|now d pk text frame ttl|now peer body|peer body|wallet id|now|now peer max|peer line|now hex|now peer body];
    cbn [pm_step].
  - by apply eff_none.
  - apply eff_none. unfold ensure_key. destruct (load_key_store wallet (Some coins) r) as [H _].
    destruct (load_key wallet (Some coins) r) as [r' [k|e]]; done.
  - unfold pm_send_frame, pm_send.
    replace (if frame then send_impl now d pk text kMaxFrame ttl r else send_impl now d pk text kMaxPlaintext ttl r)
      with (send_impl now d pk text (if frame then kMaxFrame else kMaxPlaintext) ttl r) by (by destruct frame).
    unfold send_impl. destruct (seal _ _ _ _ _ _) as [e|x] eqn:E; [|by apply eff_none].
    eapply (eff_store _ _ _ now e); [done|by eapply seal_small|]. by destruct (store now e r) as [r' [b|x]].
  - unfold accept_wire. destruct (parse_env body) as [e|] eqn:E; [|by apply eff_none]. destruct (_ || _); [by apply eff_none|].
    destruct (rate_ok_store now peer r) as [Hs _]. destruct (rate_ok now peer r) as [r1 [|]]; [|by apply eff_none].
    apply (same_store_store now e) in Hs. eapply (eff_store _ _ _ now e); [done|by eapply parse_env_small|].
    cbn [fst] in Hs. by destruct (store now e r1) as [r2 [b|x]].
  - unfold accept_delete. destruct (getlines _ _) as [|id [|token [|]]] eqn:E; try by apply eff_none.
    destruct (_ || _); [by apply eff_none|]. destruct (bool_decide _); [by apply eff_none|].
    destruct (envs r !! id) as [e|] eqn:He; [|by apply eff_none].
    destruct (hex_to_bytes token) as [t|] eqn:Ht; [|by apply eff_none].
    destruct (String.eqb_spec (token_hash t) (e_del_hash e)) as [Hh|]; cbn [negb]; [|by apply eff_none].
    apply (eff_bury _ _ _ id e token He); [left; by exists peer, body, token, t|done].
  - unfold pm_remove. pose proof (load_key_none wallet r) as Hl. destruct (load_key wallet None r) as [r1 [k|x]] eqn:Ek; cbn [fst] in Hl;
      subst r1; [|by apply eff_none].
    destruct (envs r !! id) as [e|] eqn:He; [|by apply eff_none].
    destruct (String.eqb_spec (e_mailbox e) (k_mailbox k)) as [Hm|]; cbn [negb]; [|by apply eff_none].
    destruct (pm_decrypt e k) as [[text token]|x] eqn:Ed; [|by apply eff_none].
    apply (eff_bury _ _ _ id e token He); [right; exists wallet, k, text, token; by rewrite Ek|done].
  - by eapply (eff_purge _ _ _ now).
  - by eapply (eff_purge _ _ _ now).
  - apply eff_none. unfold mark_delivered. by repeat case_match.
  - apply eff_none. unfold publish_package. destruct (put_package_store now hex r) as [H _].
    by destruct (put_package now hex r) as [r' x].
  - apply eff_none. unfold accept_package. destruct (_ || _); [done|].
    destruct (rate_ok_store now peer r) as [Hs _]. destruct (rate_ok now peer r) as [r1 [|]]; [|done]. cbn [fst] in Hs.
    destruct (put_package_store now (str_drop 3 body) r1) as [Hp _].
    destruct (put_package now (str_drop 3 body) r1) as [r2 [b|x]]; cbn [fst] in *; by apply (same_store_trans _ r1).
Qed.

(** ** The invariant *)

Lemma put_package_limits now hex r : limits r → limits (put_package now hex r).1.
Proof.
  intros (Hp & Hq & Hr). unfold put_package. destruct (_ ≫= _) as [k|e]; [|done].
  destruct (String.eqb _ "-"); [done|]. destruct (pkgs r !! kp_index k) as [p|] eqn:E.
  - repeat case_match; try done; (split; [cbn; rewrite map_size_insert_Some by eauto; lia|done]).
  - destruct (Nat.leb_spec kMaxPackages (size (pkgs r))); [done|]. split; [cbn; rewrite map_size_insert_None by done; lia|done].
Qed.
Lemma purge_limits now r : limits r → limits (purge now r).
Proof. intros (Hp & Hq & Hr). split; [|done]. etransitivity; [|exact Hp]. apply map_size_filter. Qed.
Lemma store_limits now e r : limits r → limits (store now e r).1.
Proof. intros H. apply (purge_limits now) in H. by destruct (store_cases now e r) as [->|(_ & _ & _ & _ & _ & _ & ->)]. Qed.
Lemma step_limits r o : relay_ok r → limits (pm_step r o).
Proof.
  intros R. pose proof (relay_limits _ R) as H.
  destruct o as [dir|wallet coins|now d pk text frame ttl|now peer body|peer body|wallet id|now|now peer max|peer line|now hex|now peer body];
    cbn [pm_step].
  - done.
  - unfold ensure_key. destruct (load_key_store wallet (Some coins) r) as (_ & Hp & Hr).
    destruct (load_key wallet (Some coins) r) as [r' [k|e]]; cbn [fst] in *; unfold limits; by rewrite Hp, Hr.
  - assert (Hs : ∀ max, limits (send_impl now d pk text max ttl r).1).
    { intros max. unfold send_impl. destruct (seal _ _ _ _ _ _) as [e|x]; [|done]. pose proof (store_limits now e r H).
      by destruct (store now e r) as [r' [b|x]]. }
    destruct frame; apply Hs.
  - unfold accept_wire. destruct (parse_env body) as [e|]; [|done]. destruct (_ || _); [done|].
    pose proof (relay_limits _ (rate_ok_ok now peer r R)) as H1. destruct (rate_ok now peer r) as [r1 [|]]; [|done].
    pose proof (store_limits now e r1 H1). by destruct (store now e r1) as [r2 [b|x]].
  - unfold accept_delete. by repeat case_match.
  - unfold pm_remove. pose proof (load_key_none wallet r) as Hl. destruct (load_key wallet None r) as [r1 [k|x]]; cbn [fst] in Hl; subst r1;
      by repeat case_match.
  - by apply purge_limits.
  - by apply purge_limits.
  - unfold mark_delivered. by repeat case_match.
  - unfold publish_package. pose proof (put_package_limits now hex r H). by destruct (put_package now hex r) as [r' x].
  - unfold accept_package. destruct (_ || _); [done|].
    pose proof (relay_limits _ (rate_ok_ok now peer r R)) as H1. destruct (rate_ok now peer r) as [r1 [|]]; [|done]. cbn [fst] in H1.
    pose proof (put_package_limits now (str_drop 3 body) r1 H1). by destruct (put_package now (str_drop 3 body) r1) as [r2 [b|x]].
Qed.
Lemma relay_step_ok r o : relay_ok r → relay_ok (pm_step r o).
Proof.
  intros R. pose proof (step_limits r o R) as H. destruct (step_effect r o) as [Hs|now _ Hs|now e _ Hsz Hs|i e token He _ Hs];
    apply (same_store_ok _ _ Hs H); [done|by apply purge_ok|by apply store_ok|by apply bury_ok].
Qed.

Definition pm_run (r : PmStore) (os : list PmOp) : PmStore := foldl pm_step r os.
Lemma relay_run_ok r os : relay_ok r → relay_ok (pm_run r os).
Proof. revert r. induction os as [|o os IH]; intros r R; [done|]. by apply IH, relay_step_ok. Qed.

(** ** The life of an envelope *)

Lemma step_present r o i e :
  relay_ok r → envs r !! i = Some e → (∀ now, clock o = Some now → now < expire_at e) →
  envs (pm_step r o) !! i = Some e ∨
  (entitled r o i e ∧ envs (pm_step r o) !! i = None ∧ tombstones (pm_step r o) !! i = Some (expire_at e)).
Proof.
  intros R He Hc. assert (Hpurge : ∀ now, clock o = Some now → envs (purge now r) !! i = Some e)
    by (intros now Hn; apply purge_env; by split; [|apply Hc]).
  destruct (step_effect r o) as [Hs|now Hn Hs|now x Hn _ Hs|j x token Hx Hent Hs]; destruct Hs as (_ & -> & -> & _).
  - by left.
  - left. by apply Hpurge.
  - left. destruct (store_cases now x r) as [->|(Hno & _ & _ & _ & _ & _ & ->)]; [by apply Hpurge|].
    cbn [envs set_envs]. rewrite lookup_insert_ne; [by apply Hpurge|]. intros <-. rewrite Hpurge in Hno; done.
  - cbn [bury envs tombstones set_envs set_tombstones]. destruct (decide (i = j)) as [<-|Hne].
    + right. simplify_eq. by rewrite lookup_delete_eq, lookup_insert_eq.
    + left. by rewrite lookup_delete_ne.
Qed.
Lemma step_deleted r o i t :
  envs r !! i = None → tombstones r !! i = Some t → (∀ now, clock o = Some now → now < t) →
  envs (pm_step r o) !! i = None ∧ tombstones (pm_step r o) !! i = Some t.
Proof.
  intros He Ht Hc. assert (Hpurge : ∀ now, clock o = Some now → envs (purge now r) !! i = None ∧ tombstones (purge now r) !! i = Some t).
  { intros now Hn. split; [|apply purge_tombstone; by split; [|apply Hc]].
    apply eq_None_not_Some. intros [e [H _]%purge_env]. congruence. }
  destruct (step_effect r o) as [Hs|now Hn Hs|now x Hn _ Hs|j x token Hx Hent Hs]; destruct Hs as (_ & -> & -> & _).
  - done.
  - by apply Hpurge.
  - destruct (Hpurge now Hn) as [H1 H2]. destruct (store_cases now x r) as [->|(_ & Hno & _ & _ & _ & _ & ->)]; [done|].
    cbn [envs tombstones set_envs]. split; [|done]. rewrite lookup_insert_ne; [done|]. intros <-. congruence.
  - assert (i ≠ j) by congruence. cbn [bury envs tombstones set_envs set_tombstones].
    by rewrite lookup_delete_ne, lookup_insert_ne.
Qed.
Lemma run_deleted r os i t :
  envs r !! i = None → tombstones r !! i = Some t → (∀ o now, o ∈ os → clock o = Some now → now < t) →
  envs (pm_run r os) !! i = None.
Proof.
  revert r. induction os as [|o os IH]; intros r He Ht Hc; [done|].
  destruct (step_deleted r o i t He Ht) as [He' Ht']; [intros now; apply Hc; set_solver|].
  apply IH; [done..|]. intros o' now Ho. apply Hc. set_solver.
Qed.
Lemma run_present r os i e :
  relay_ok r → envs r !! i = Some e → (∀ o now, o ∈ os → clock o = Some now → now < expire_at e) →
  envs (pm_run r os) !! i = Some e ∨
  (envs (pm_run r os) !! i = None ∧ ∃ os1 o os2, os = os1 ++ o :: os2 ∧ entitled (pm_run r os1) o i e).
Proof.
  revert r. induction os as [|o os IH]; intros r R He Hc; [by left|].
  assert (Hc' : ∀ o' now, o' ∈ os → clock o' = Some now → now < expire_at e) by (intros o' now Ho; apply Hc; set_solver).
  destruct (step_present r o i e R He) as [H|(Hent & H1 & H2)]; [intros now; apply Hc; set_solver| |].
  - destruct (IH _ (relay_step_ok r o R) H Hc') as [H'|[H' (os1 & o' & os2 & -> & Hent)]]; [by left|right].
    split; [done|]. by exists (o :: os1), o', os2.
  - right. split; [by apply (run_deleted _ os i (expire_at e))|]. by exists [], o, os.
Qed.

(** The store of a relay that has run any calls: the count of bytes is the sum of what is
    stored, the bounds hold, and an id is never both stored and deleted. *)
Theorem relay_invariant dir os :
  let r := pm_run (empty_store dir) os in
  bytes r = map_sum env_size (envs r) ∧ bytes r ≤ kMaxStoreBytes ∧ (size (envs r) ≤ kMaxMessages)%nat ∧
  (size (pkgs r) ≤ kMaxPackages)%nat ∧ (∀ peer q, rate r !! peer = Some q → (length q ≤ kPeerRatePerMin)%nat) ∧
  (∀ id e, envs r !! id = Some e → e_id e = id ∧ tombstones r !! id = None) ∧ dom (del_lines r) ⊆ dom (tombstones r).
Proof. by destruct (relay_run_ok _ os (empty_store_ok dir)). Qed.


(** ** One message *)

Lemma is_hex_bytes b lo hi :
  (lo ≤ 2 * String.length b ≤ hi)%nat → is_hex (bytes_to_hex b) lo hi = true.
Proof.
  intros H. unfold is_hex. rewrite bytes_to_hex_length. destruct (Nat.ltb_spec (2 * String.length b) lo); [lia|].
  destruct (Nat.ltb_spec hi (2 * String.length b)); [lia|]. cbn [negb andb].
  rewrite Nat.even_mul. cbn [Nat.even orb andb]. clear. induction b as [|c b IH]; [done|]. cbn [bytes_to_hex all_chars]. rewrite IH.
  destruct (byte_split (byte_of_char c) (byte_of_char_range c)) as (H1 & H2 & _).
  assert (Hd : ∀ n, 0 ≤ n < 16 → is_lower_hex_char (hex_digit n) = true).
  { intros n Hn. assert (Hin : n ∈ seqZ 0 16) by (apply elem_of_seqZ; lia).
    assert (Hall : Forall (λ n, is_lower_hex_char (hex_digit n) = true) (seqZ 0 16)) by (vm_compute; repeat constructor).
    by apply (proj1 (Forall_forall _ _) Hall). }
  by rewrite !Hd.
Qed.
Lemma hex_take k b : str_take (2 * k) (bytes_to_hex b) = bytes_to_hex (str_take k b).
Proof.
  revert b. induction k as [|k IH]; intros b; [by destruct b|]. replace (2 * S k)%nat with (S (S (2 * k))) by lia.
  destruct b as [|c b]; [done|]. cbn [bytes_to_hex str_take]. by rewrite IH.
Qed.
Lemma unframed_framed text : (String.length text ≤ Z.to_nat 32768)%nat → unframed (framed text) = Some text.
Proof.
  intros Hl. unfold framed. cbv zeta. set (n := Z.of_nat (String.length text)).
  generalize ((String.length (String (char_of_byte (Z.land (Z.shiftr n 8) 255)) (String (char_of_byte (Z.land n 255)) text)) + 255) / 256 * 256 -
    String.length (String (char_of_byte (Z.land (Z.shiftr n 8) 255)) (String (char_of_byte (Z.land n 255)) text)))%nat.
  intros k. rewrite !str_app_cons. cbn [unframed].
  rewrite !byte_of_char_of_byte, !(Z.land_ones _ 8), Z.shiftr_div_pow2 by lia. change (2 ^ 8) with 256.
  rewrite !Z.mod_mod by lia. pose proof (Z.mod_pos_bound n 256 ltac:(lia)).
  rewrite lor_shiftl_add by (change (2 ^ 8) with 256; lia). change (2 ^ 8) with 256.
  rewrite (Z.mod_small (n / 256)) by (split; [apply Z.div_pos; lia|apply Z.div_lt_upper_bound; lia]).
  replace (n / 256 * 256 + n mod 256) with n by (pose proof (Z.div_mod n 256 ltac:(lia)); lia). unfold n. rewrite Nat2Z.id.
  destruct (Nat.ltb_spec (String.length (text +:+ zeros k)) (String.length text)) as [Hlt|_]; [rewrite str_length_app in Hlt; lia|].
  by rewrite str_take_app.
Qed.

Context (Hsha : sha3_512_digests).
Lemma derive_size ss label : String.length (derive ss label) = 32%nat.
Proof. unfold derive, sha3_512_bytes. by rewrite str_length_take, Hsha. Qed.
Lemma digest_hex k s : (k ≤ 64)%nat → is_hex (str_take (2 * k) (to_hex (sha3_512_bytes s))) (2 * k) (2 * k) = true.
Proof.
  intros Hk. unfold to_hex, sha3_512_bytes. rewrite hex_take. apply is_hex_bytes. rewrite str_length_take, Hsha. lia.
Qed.
Definition body_of (e : Env) : string :=
  join "|" ["v1"; e_id e; e_mailbox e; to_string (expire_at e); e_del_hash e; e_kem_ct e; e_iv e; e_ct e].
Lemma wire_body e : wire e = "PMSG|" +:+ body_of e.
Proof. done. Qed.
Lemma is_hex_free s lo hi : is_hex s lo hi = true → free_of "|" s = true.
Proof.
  unfold is_hex. intros H. bools. unfold free_of. apply (all_chars_impl is_lower_hex_char); [|done].
  intros c. by destruct c as [[][][][][][][][]].
Qed.

(** What [seal] makes: the sender's envelope is a valid line, and the owner of the key reads it. *)
Lemma seal_ok now d pk sk coins text (frame : bool) ttl e :
  OQS_KEM_keypair coins = Some (pk, sk) → String.length (pm_id d) = 16%nat → String.length (pm_iv d) = 12%nat →
  0 ≤ now → now + kMaxTtl < W64 →
  seal now d (bytes_to_hex pk) text (if frame then kMaxFrame else kMaxPlaintext) ttl = Ok e →
  now + kMinTtl ≤ expire_at e ≤ now + kMaxTtl ∧ parse_env (body_of e) = Some e ∧ e_mailbox e = mailbox_of pk ∧
  ∃ token t, pm_decrypt e (mkKeys pk sk (mailbox_of pk)) = Ok (text, token) ∧ is_hex token 64 64 = true ∧
             hex_to_bytes token = Ok t ∧ token_hash t = e_del_hash e.
Proof.
  intros Hpair Hid Hiv Hnow Hw. unfold seal. destruct (_ || _) eqn:E; [done|]. apply orb_false_elim in E as [Hne E]. apply Nat.ltb_ge in E.
  assert (Hlen : (1 ≤ String.length text ≤ Z.to_nat 32768)%nat).
  { split; [destruct text; [done|cbn; lia]|]. destruct frame; unfold kMaxFrame, kMaxPlaintext in E; lia. }
  destruct (hex_to_bytes (bytes_to_hex pk)) as [pkb|] eqn:Hpk; [|done].
  assert (pkb = pk) as ->.
  { unfold hex_to_bytes in Hpk. apply bind_Ok in Hpk as (u & _ & Hpk). rewrite hex_pairs_bytes_to_hex in Hpk. by injection Hpk. }
  destruct OQS_KEM_ml_kem_1024 as [z|] eqn:Hz; [|done]. destruct (negb _); [done|].
  intros ([ct ss] & Hen%or_err_Ok & H)%bind_Ok. injection H as <-.
  destruct (encaps_sizes _ _ _ _ _ Hz Hen) as [Hct Hctne]. pose proof (kem_sizes _ Hz) as Hzs. rewrite Hzs in Hct. cbn [kem_ct_size] in Hct.
  set (exp := u64 (now + Z.min (Z.max ttl kMinTtl) kMaxTtl)). set (dh := token_hash (derive ss "del")).
  set (sealed := gcm_seal _ _ _ _).
  assert (Hexp : exp = now + Z.min (Z.max ttl kMinTtl) kMaxTtl).
  { unfold exp, kMinTtl, kMaxTtl in *. apply u64_small. unfold is_u64. lia. }
  assert (Hsl : String.length sealed = (String.length (framed text) + 16)%nat) by apply gcm_size.
  destruct (framed_length text) as [Hfl Hfl2]. rewrite Hfl in Hsl.
  set (pad := ((String.length text + 2 + 255) / 256)%nat) in *.
  assert (Hpad : (1 ≤ pad)%nat) by (rewrite Hfl in Hfl2; lia).
  assert (Hpad2 : (pad ≤ (kMaxFrame + 2 + 255) / 256)%nat) by (apply Nat.Div0.div_le_mono; unfold kMaxFrame; lia).
  cbn [e_mailbox expire_at]. split; [rewrite Hexp; unfold kMinTtl, kMaxTtl; lia|]. split; [|split; [done|]].
  - apply parse_env_Some. exists (to_string exp). unfold body_of.
    cbn [e_id e_mailbox e_del_hash e_kem_ct e_iv e_ct expire_at].
    assert (Hctm : (2 * (pad * 256 + 16) ≤ ct_max)%nat) by (unfold ct_max; nia).
    assert (H1 : is_hex (bytes_to_hex (pm_id d)) 32 32 = true) by (apply is_hex_bytes; lia).
    assert (H2 : is_hex (mailbox_of pk) 32 32 = true) by (apply (digest_hex 16); lia).
    assert (H3 : is_hex dh 64 64 = true) by (apply (digest_hex 32); lia).
    assert (H4 : is_hex (bytes_to_hex ct) (Z.to_nat 3136) (Z.to_nat 3136) = true) by (apply is_hex_bytes; lia).
    assert (H5 : is_hex (bytes_to_hex (pm_iv d)) 24 24 = true) by (apply is_hex_bytes; lia).
    assert (H6 : is_hex (bytes_to_hex sealed) 544 ct_max = true) by (apply is_hex_bytes; lia).
    split; [|split; [apply number_to_string; unfold is_u64, kMinTtl, kMaxTtl in *; lia|]].
    + apply getlines_join; [|cbn; intros E0; apply (f_equal String.length) in E0; rewrite bytes_to_hex_length in E0; cbn in E0; lia].
      repeat constructor; try (by eapply is_hex_free); [apply to_string_bar].
    + do 6 (split; [done|]). rewrite bytes_to_hex_length, Hsl, Nat.mul_comm, Nat.div_mul by lia.
      apply Nat.eqb_eq. rewrite Nat.add_sub. apply Nat.Div0.mod_mul.
  - exists (bytes_to_hex (derive ss "del")), (derive ss "del"). pose proof (derive_size ss "del") as Hd.
    assert (Hhex : ∀ b, (1 ≤ String.length b ≤ Z.to_nat 65536)%nat → hex_to_bytes (bytes_to_hex b) = Ok b).
    { intros b Hb. apply hex_to_bytes_to_hex; [by intros ->; cbn in Hb; lia|unfold kMaxHexLen; lia]. }
    split; [|split; [apply is_hex_bytes; lia|split; [apply Hhex; lia|done]]].
    unfold pm_decrypt. cbn [e_kem_ct e_iv e_ct e_mailbox expire_at e_del_hash e_id k_sk]. rewrite Hz, !Hhex by (unfold kMaxFrame in *; lia).
    rewrite Hzs. cbn [kem_ct_size]. rewrite Hct, Nat.eqb_refl, (decaps_encaps _ _ _ _ _ _ Hpair Hen). cbn [or_err mbind result_bind].
    unfold sealed. rewrite aead_opens. cbn [mbind option_bind]. rewrite unframed_framed by lia. done.
Qed.

Definition with_env (e : Env) (b : Z) (r : PmStore) : PmStore := set_envs (<[e_id e := e]> (envs r)) b r.
Lemma purge_None now e r :
  envs r !! e_id e = None → tombstones r !! e_id e = None →
  envs (purge now r) !! e_id e = None ∧ tombstones (purge now r) !! e_id e = None.
Proof.
  intros He Ht. split; apply eq_None_not_Some; [intros [x [H _]%purge_env]|intros [x [H _]%purge_tombstone]]; congruence.
Qed.
Lemma store_new now e r r' b :
  envs r !! e_id e = None → tombstones r !! e_id e = None → store now e r = (r', Ok b) →
  ∃ n, r' = with_env e n (purge now r).
Proof.
  intros He Ht. destruct (purge_None now e r He Ht) as [He' Ht']. unfold store. cbv zeta. rewrite He', Ht'.
  rewrite !bool_decide_eq_false_2 by (by intros []). cbn [orb]. destruct (_ <=? _); [done|]. destruct (_ <? _); [done|].
  destruct (_ || _); [done|]. intros [= <- _]. by eexists.
Qed.
Lemma store_room now e r :
  relay_ok r → envs r !! e_id e = None → tombstones r !! e_id e = None → now < expire_at e ≤ now + kMaxTtl + 300 →
  0 ≤ now → now + kMaxTtl + 300 < W64 → (size (envs r) < kMaxMessages)%nat → bytes r + env_size e ≤ kMaxStoreBytes →
  ∃ n, store now e r = (with_env e n (purge now r), Ok false).
Proof.
  intros R He Ht Hexp Hnow Hw Hn Hb. destruct (purge_None now e r He Ht) as [He' Ht']. unfold store. cbv zeta. rewrite He', Ht'.
  rewrite !bool_decide_eq_false_2 by (by intros []). cbn [orb]. destruct (Z.leb_spec (expire_at e) now); [lia|].
  rewrite (u64_small (now + kMaxTtl + 300)) by (unfold is_u64, kMaxTtl in *; lia).
  destruct (Z.ltb_spec (now + kMaxTtl + 300) (expire_at e)); [lia|].
  pose proof (purge_ok now r R) as R'. pose proof (env_size_nonneg e).
  assert (Hle : bytes (purge now r) ≤ bytes r).
  { rewrite (rl_bytes _ R'), (rl_bytes _ R). pose proof (map_filter_union_complement (λ kv, expire_at kv.2 <= now) (envs r)) as Hu.
    apply (f_equal (map_sum env_size)) in Hu. rewrite map_sum_union in Hu by apply map_disjoint_filter_complement.
    assert (0 ≤ map_sum env_size (filter (λ kv, expire_at kv.2 <= now) (envs r))) by (apply map_sum_nonneg; intros; apply env_size_nonneg).
    unfold purge. cbn [envs]. lia. }
  assert (0 ≤ bytes (purge now r)) by (rewrite (rl_bytes _ R'); apply map_sum_nonneg; intros; apply env_size_nonneg).
  rewrite u64_small by (unfold is_u64, kMaxStoreBytes in *; lia).
  assert (Hsz : (size (envs (purge now r)) ≤ size (envs r))%nat) by apply map_size_filter.
  destruct (Nat.leb_spec kMaxMessages (size (envs (purge now r)))); [lia|].
  destruct (Z.ltb_spec kMaxStoreBytes (bytes (purge now r) + env_size e)); [lia|]. cbn [orb]. by eexists.
Qed.
Lemma load_key_same wallet r r' :
  key_dir r' = key_dir r → key_files r' = key_files r → (load_key wallet None r').2 = (load_key wallet None r).2.
Proof. intros Hd Hf. unfold load_key, key_path. rewrite Hd, Hf. by repeat case_match. Qed.
Lemma rate_ok_keys now peer r :
  key_dir (rate_ok now peer r).1 = key_dir r ∧ key_files (rate_ok now peer r).1 = key_files r.
Proof. unfold rate_ok. by destruct (_ <=? _)%nat. Qed.
Lemma rate_ok_envs now peer r :
  envs (rate_ok now peer r).1 = envs r ∧ tombstones (rate_ok now peer r).1 = tombstones r ∧ bytes (rate_ok now peer r).1 = bytes r.
Proof. unfold rate_ok. by destruct (_ <=? _)%nat. Qed.

(** A line of the sender's relay arrives at another one that has room for it. *)
Lemma wire_arrives now peer e body r :
  parse_env body = Some e → relay_ok r → envs r !! e_id e = None → tombstones r !! e_id e = None →
  (rate_ok now peer r).2 = true → now < expire_at e ≤ now + kMaxTtl + 300 → 0 ≤ now → now + kMaxTtl + 300 < W64 →
  (size (envs r) < kMaxMessages)%nat → bytes r + env_size e ≤ kMaxStoreBytes →
  ∃ r', accept_wire now peer body r = (r', Ok false) ∧ envs r' !! e_id e = Some e ∧
        key_dir r' = key_dir r ∧ key_files r' = key_files r.
Proof.
  intros Hp R He Ht Hrate Hexp Hnow Hw Hn Hb. unfold accept_wire. rewrite Hp, He, Ht, !bool_decide_eq_false_2 by (by intros []).
  cbn [orb]. pose proof (rate_ok_ok now peer r R) as R1. destruct (rate_ok_envs now peer r) as (E1 & E2 & E3).
  destruct (rate_ok_keys now peer r) as [K1 K2].
  destruct (rate_ok now peer r) as [r1 ok]. cbn [fst snd] in *. subst ok.
  destruct (store_room now e r1 R1) as (n & Hs); [by rewrite ?E1, ?E2, ?E3..|]. rewrite Hs. eexists. split; [reflexivity|].
  split; [apply lookup_insert_eq|by rewrite <- K1, <- K2].
Qed.

(** The owner of the mailbox reads an envelope, removes it, and the line that goes out
    removes it elsewhere. *)
Lemma owner_reads now wallet k e text token r :
  (load_key wallet None r).2 = Ok k → envs r !! e_id e = Some e → e_mailbox e = k_mailbox k → now < expire_at e →
  pm_decrypt e k = Ok (text, token) →
  pm_read now wallet (e_id e) r = Ok text ∧
  (∃ r' items, read_all now wallet r = (r', Ok items) ∧ (e_id e, text) ∈ items) ∧
  pm_remove wallet (e_id e) r = (bury (e_id e) e token r, Ok ()).
Proof.
  intros Hk He Hm Hnow Hd. pose proof (load_key_none wallet r) as Hr. unfold pm_read, read_all, pm_remove.
  destruct (load_key wallet None r) as [r1 x] eqn:E. cbn [fst snd] in *. subst r1 x. cbn [mbind result_bind].
  rewrite He, Hm, String.eqb_refl. cbn [negb orb]. destruct (Z.leb_spec (expire_at e) now); [lia|]. rewrite Hd. cbn [mbind result_bind].
  split; [done|]. split; [|done]. eexists _, _. split; [reflexivity|]. apply list_elem_of_fmap. exists (e, text). split; [done|].
  unfold readable. apply list_elem_of_omap. exists (e_id e, e). split.
  - unfold in_key_order. rewrite merge_sort_Permutation. apply elem_of_map_to_list. by apply purge_env.
  - cbn [snd]. by rewrite Hm, String.eqb_refl, Hd.
Qed.
Lemma delete_passes peer e token t r :
  is_hex (e_id e) 32 32 = true → is_hex token 64 64 = true → hex_to_bytes token = Ok t → token_hash t = e_del_hash e →
  envs r !! e_id e = Some e → tombstones r !! e_id e = None →
  ∃ r', accept_delete peer (join "|" [e_id e; token]) r = (r', Ok false) ∧ envs r' !! e_id e = None.
Proof.
  intros Hid Htok Ht Hh He Hno. unfold accept_delete. rewrite getlines_join.
  - rewrite Hid, Htok, Hno, He, Ht, Hh, String.eqb_refl, bool_decide_eq_false_2 by (by intros []). cbn [negb orb].
    eexists. split; [reflexivity|]. apply lookup_delete_eq.
  - repeat constructor; by eapply is_hex_free.
  - cbn. intros ->. done.
Qed.

(** C36. A message sent at one relay is accepted by another one, as one line; the owner of the key
    reads the text there, and what the owner's deletion sends back deletes the message at the
    first. The clocks differ by five minutes at most. *)
Theorem message_arrives now d pk sk coins text (frame : bool) ttl r1 r1' id now2 peer wallet r2 :
  OQS_KEM_keypair coins = Some (pk, sk) → String.length (pm_id d) = 16%nat → String.length (pm_iv d) = 12%nat →
  300 ≤ now → now + 2 * kMaxTtl < W64 →
  (if frame then pm_send_frame now d (bytes_to_hex pk) text ttl r1 else pm_send now d (bytes_to_hex pk) text ttl r1) = (r1', Ok id) →
  envs r1 !! id = None → tombstones r1 !! id = None →
  relay_ok r2 → (load_key wallet None r2).2 = Ok (mkKeys pk sk (mailbox_of pk)) →
  envs r2 !! id = None → tombstones r2 !! id = None → now - 300 ≤ now2 < now + kMinTtl →
  (rate_ok now2 peer r2).2 = true → (size (envs r2) < kMaxMessages)%nat → bytes r2 + 100000 ≤ kMaxStoreBytes →
  ∃ e body r2', envs r1' !! id = Some e ∧ wire e = "PMSG|" +:+ body ∧
    accept_wire now2 peer body r2 = (r2', Ok false) ∧
    (∀ now3, now3 < now + kMinTtl → pm_read now3 wallet id r2' = Ok text ∧
       ∃ r3 items, read_all now3 wallet r2' = (r3, Ok items) ∧ (id, text) ∈ items) ∧
    ∃ r2'' token r1'', pm_remove wallet id r2' = (r2'', Ok ()) ∧ envs r2'' !! id = None ∧
      del_lines r2'' !! id = Some ("PMDEL|" +:+ join "|" [id; token]) ∧
      accept_delete peer (join "|" [id; token]) r1' = (r1'', Ok false) ∧ envs r1'' !! id = None.
Proof.
  intros Hpair Hid Hiv Hnow Hw Hsend He1 Ht1 R2 Hkey He2 Ht2 Hnow2 Hrate Hn Hb.
  assert (Hs : send_impl now d (bytes_to_hex pk) text (if frame then kMaxFrame else kMaxPlaintext) ttl r1 = (r1', Ok id)) by (by destruct frame).
  clear Hsend. unfold send_impl in Hs. destruct (seal _ _ _ _ _ _) as [e|] eqn:Hseal; [|done].
  destruct (store now e r1) as [r x] eqn:Hst. destruct x as [b|]; [|done]. injection Hs as <- <-.
  destruct (store_new now e r1 r b He1 Ht1 Hst) as (n & ->). pose proof (purge_None now e r1 He1 Ht1) as [_ Ht1'].
  destruct (seal_ok now d pk sk coins text frame ttl e Hpair Hid Hiv ltac:(lia) ltac:(unfold kMaxTtl in *; lia) Hseal)
    as (Hexp & Hparse & Hm & token & t & Hdec & Htok & Hh & Hth).
  assert (Hsm : env_size e < 100000).
  { apply parse_env_Some in Hparse as (exp & _ & _ & _ & _ & _ & H4%is_hex_length & _ & H6%is_hex_length & _).
    pose proof ct_max_tight. unfold env_size. lia. }
  destruct (wire_arrives now2 peer e (body_of e) r2 Hparse R2 He2 Ht2 Hrate) as (r2' & Hacc & He2' & Kd & Kf);
    [unfold kMinTtl, kMaxTtl in *; lia..|].
  pose proof (load_key_same wallet r2 r2' Kd Kf) as Hkey'. rewrite Hkey in Hkey'.
  exists e, (body_of e), r2'. split; [apply lookup_insert_eq|]. split; [apply wire_body|]. split; [done|].
  assert (Hread : ∀ now3, now3 < now + kMinTtl → _) by (intros now3 H3; exact (owner_reads now3 wallet _ e text token r2' Hkey' He2' Hm ltac:(lia) Hdec)).
  split; [intros now3 H3; destruct (Hread now3 H3) as (H1 & H2 & _); done|].
  destruct (Hread 0 ltac:(unfold kMinTtl; lia)) as (_ & _ & Hrm).
  pose proof (proj1 (parse_env_Some _ _) Hparse) as (exp & _ & _ & Hidh & _).
  destruct (delete_passes peer e token t (with_env e n (purge now r1)) Hidh Htok Hh Hth) as (r1'' & Hdel & Hgone);
    [apply lookup_insert_eq|done|].
  eexists _, token, r1''. split; [exact Hrm|]. split; [apply lookup_delete_eq|]. split; [apply lookup_insert_eq|done].
Qed.
End relay.
