(* ===== verification/NodeCatchUp.v ===== *)
(** * Catching up from an honest peer

    Two nodes together: the replies that the client reads are what the code of another node
    answers to its requests ([handle_p2p_line]), and the client ends with the peer's chain. *)
From S2P Require Import Prelude ConsensusRules Strings Lines Crypto Types Wire WireProofs Block Staking Shielded Script.
From S2P Require Import Chain ChainBlock ChainProofs ChainRules Mempool Mining Wallet Votes Dandelion Peers PeersProofs.
From S2P Require Import NodeCodec NodeCodecProofs Node NodeInbound NodeProofs NodeSync StateStore StateStoreProofs.

Section peers.
Context {C : Crypto} {ST : Stark} {MO : MempoolOrder} {IO : IterationOrder} {I : Inet} {SG : Signer} {HP : Heap}.
Context (cfg : ChainConfig) (dp : Params) {R W : Type} {PR : PmRelay R} {PQ : PmQueue R} {CH : ChanHandler W}.
Notation M := (M R W).
Notation Host := (Host R W).
Implicit Types n : Node R W.
Implicit Types h : Host.

(** ** Chains *)

Lemma reachable_height c i b :
  is_u64 (initial_difficulty_target cfg) → reachable cfg c → list_size (blocks c) < W64 →
  blocks c !! i = Some b → height (header b) = Z.of_nat i.
Proof.
  intros Ht [bs Hb]%reachable_built Hs. destruct (built_chain_ok cfg c bs Ht Hb) as [Hl _].
  revert b. induction i as [|i IH]; intros b Hi.
  - rewrite (built_blocks cfg c bs Hb) in Hi. by injection Hi as <-.
  - pose proof (lookup_lt_Some _ _ _ Hi) as Hlt. destruct (lookup_lt_is_Some_2 (blocks c) i ltac:(lia)) as [p Hp].
    destruct (Hl i p b Hp Hi) as (Hh & _). rewrite Hh, (IH p Hp). unfold list_size in Hs. rewrite u64_small; [lia|]. unfold is_u64. lia.
Qed.
Lemma reachable_tip c :
  is_u64 (initial_difficulty_target cfg) → reachable cfg c → list_size (blocks c) < W64 →
  height_of c = list_size (blocks c) - 1 ∧ blocks c ≠ [].
Proof.
  intros Ht Hr Hs. assert (Hne : ∃ l b, blocks c = l ++ [b]).
  { pose proof Hr as [bs Hb]%reachable_built. rewrite (built_blocks cfg c bs Hb).
    destruct (exists_last (l := make_genesis cfg (initial_difficulty_target cfg) :: bs)) as (l & b & E); [done|by exists l, b]. }
  destruct Hne as (l & b & E). unfold height_of. rewrite (tip_app c l b E). rewrite E. split; [|by destruct l].
  rewrite (reachable_height c (length l) b Ht Hr Hs); [unfold list_size; rewrite length_app; cbn [length]; lia|].
  rewrite E. by rewrite list_lookup_middle.
Qed.
(** What one chain adds to another is added by [add_block], one block after the other. *)
Lemma extension_add_all now c1 c2 more :
  reachable cfg c1 → reachable cfg c2 → blocks c2 = blocks c1 ++ more → Forall (in_time cfg now) more →
  add_all cfg now c1 more c2.
Proof.
  intros [bs1 H1]%reachable_built [bs2 H2]%reachable_built E Ht.
  rewrite (built_blocks cfg _ _ H1), (built_blocks cfg _ _ H2) in E. injection E as ->.
  revert c2 H2. induction more as [|b more IH] using rev_ind; intros c2 H2.
  - rewrite app_nil_r in H2. by eapply built_unique.
  - apply Forall_app in Ht as [Ht Hbt]. rewrite Forall_singleton in Hbt. rewrite app_assoc in H2.
    remember ((bs1 ++ more) ++ [b]) as l eqn:El. destruct H2 as [|now0 c0 bs' b' c' H0 Hb0 Hadd]; [by destruct (bs1 ++ more)|].
    apply app_inj_tail in El as [-> ->]. eapply add_all_snoc; [by apply IH|]. by eapply add_block_later.
Qed.

(** ** The peer's answers *)

(** A word of the protocol: what a line starts with. *)
Definition wire_word (id : string) : Prop := id ≠ "" ∧ all_chars (λ c, negb (is_space c)) id = true.
(** A node whose chain is [c], which speaks the present protocol with the client, does not
    refuse the line and answers it with [reply]; the line is not longer than lines may be. *)
Definition served (c : Chain) (line reply : string) : Prop :=
  (String.length line + 1 ≤ kMaxLineBytes)%nat ∧
  ∃ now d n, n_chain n = c ∧ peer_proto (sessions n) (parse_line line).1 = kProtoV4 ∧
    (handle_p2p_line cfg dp now d n line).2 = reply ∧ starts_with "ok:" reply = true.

Lemma word_space id r : all_chars (λ c, negb (is_space c)) id = true → word (id +:+ String " " r) = (id, String " " r).
Proof.
  induction id as [|c id IH]; intros H; rewrite ?str_app_nil_l, ?str_app_cons; cbn [word]; [done|].
  cbn [all_chars] in H. bools. rewrite H. by rewrite IH.
Qed.
Lemma parse_line_request id m : wire_word id → free_of nl m = true → parse_line (id +:+ " " +:+ m) = (id, m).
Proof.
  intros [Hne Hid] Hm. unfold parse_line. assert (Hs : ∀ x, skip_spaces (id +:+ x) = id +:+ x).
  { intros x. destruct id as [|c id]; [done|]. cbn [all_chars] in Hid. bools. rewrite str_app_cons. cbn [skip_spaces]. by rewrite H. }
  rewrite Hs. change (" " +:+ m) with (String " " m). rewrite word_space by done.
  rewrite getline_last by done. done.
Qed.
Lemma served_dispatch c id m reply :
  wire_word id → free_of nl m = true → starts_with "HELLO|" m = false → served c (id +:+ " " +:+ m) reply →
  ∃ now d n r, n_chain n = c ∧ peer_proto (sessions n) id = kProtoV4 ∧
    (dispatch cfg dp now d n id m).2 = Ok r ∧ reply = "ok:" +:+ r.
Proof.
  intros Hid Hm Hh (_ & now & d & n & Hc & Hp & Hr & Hok). unfold handle_p2p_line in Hr. rewrite parse_line_request in * by done.
  cbn [fst] in Hp. destruct (_ || _); [by subst reply|]. unfold handle_inbound_message in Hr. rewrite Hh in Hr.
  destruct (admit_peer _ _ _) as [p [[]|e]]; [|by subst reply]. cbn zeta in Hr.
  set (n1 := update_table (λ _, p) n) in *.
  destruct (allow_peer_message_ok now (sessions n1) id (is_expensive m)) as [_ [rates Hs]].
  destruct (allow_peer_message now (sessions n1) id (is_expensive m)) as [s [[]|e]]; [|by subst reply]. cbn [fst] in Hs.
  destruct (negb _); [by subst reply|]. exists now, d, (set_sessions s n1).
  destruct (dispatch _ _ _ _ _ _ _) as [n' [r|e]]; [|by subst reply]. exists r. cbn [snd] in *.
  split; [done|]. split; [by rewrite Hs|]. split; [done|]. destruct (is_empty r); [by subst reply|done].
Qed.

(** The handler that a line reaches: what precedes the tag in the dispatcher does not match. *)
Ltac at_tag tag x :=
  repeat (match goal with |- context [starts_with ?p (tag +:+ x)] =>
    change (starts_with p (tag +:+ x)) with false end; cbn [orb]);
  rewrite starts_with_self, ?(str_drop_app tag).
Lemma dispatch_reqinv now d n id x : dispatch cfg dp now d n id ("REQINV|" +:+ x) = handle_reqinv now n id x.
Proof. unfold dispatch. by at_tag "REQINV|" x. Qed.
Lemma dispatch_reqblk now d n id x : dispatch cfg dp now d n id ("REQBLK|" +:+ x) = handle_reqblk now n id x.
Proof. unfold dispatch. by at_tag "REQBLK|" x. Qed.
Lemma reqinv_reply c id start reply :
  wire_word id → is_u64 start → served c (id +:+ " REQINV|" +:+ to_string start +:+ "|24") reply →
  reply = "ok:" +:+ inventory (blocks c) start 24.
Proof.
  intros Hid Hs Hr. change (" REQINV|" +:+ ?x) with (" " +:+ ("REQINV|" +:+ x)) in Hr.
  apply served_dispatch in Hr as (now & d & n & r & Hc & _ & Hd & ->); [|done|rewrite !free_of_app, to_string_nl; done|done].
  f_equal. rewrite dispatch_reqinv in Hd. unfold handle_reqinv in Hd.
  rewrite (cut_app "|" (to_string start) "24") in Hd by apply to_string_bar.
  rewrite stoull_to_string in Hd by done. change (stoull 10 "24") with (Some (24, "")) in Hd. injection Hd as <-. by rewrite <-Hc.
Qed.
Lemma reqblk_reply c id ht b reply :
  wire_word id → is_u64 ht → ht < list_size (blocks c) → blocks c !! Z.to_nat ht = Some b →
  served c (id +:+ " REQBLK|" +:+ to_string ht) reply → reply = "ok:BLKDATA|" +:+ encode_block_payload b.
Proof.
  intros Hid Hs Hlt Hb Hr. change (" REQBLK|" +:+ ?x) with (" " +:+ ("REQBLK|" +:+ x)) in Hr.
  apply served_dispatch in Hr as (now & d & n & r & Hc & Hp & Hd & ->); [|done|rewrite !free_of_app, to_string_nl; done|done].
  rewrite dispatch_reqblk in Hd. unfold handle_reqblk, get_block_payload in Hd.
  rewrite stoull_to_string, Hc, (proj2 (Z.ltb_lt _ _)), Hb in Hd by done. unfold adapt_for_peer in Hd. rewrite Hp in Hd.
  change (kProtoV4 <=? kProtoV4) with true in Hd. by injection Hd as <-.
Qed.

(** ** The inventory *)

Definition inv_of (i : nat) (b : Block) : Z * string := (Z.of_nat i, hash_block_header (header b)).
Lemma inv_item_parse i b :
  sha3_512_digests → Z.of_nat i < W64 →
  parse_item (to_string (Z.of_nat i) +:+ ":" +:+ hash_block_header (header b)) = Some (inv_of i b).
Proof.
  intros Hd Hi. unfold parse_item. change (":" +:+ ?x) with (String ":" x). rewrite cut_app by by apply to_string_free_of.
  assert (Hl : String.length (hash_block_header (header b)) = 128%nat) by by apply strong_hash_length.
  destruct (is_empty _) eqn:E; [by apply String.eqb_eq in E; rewrite E in Hl|].
  rewrite number_to_string; [done|]. unfold is_u64. lia.
Qed.
Lemma inventory_items bs start len :
  start + Z.of_nat len ≤ list_size bs → 0 ≤ start →
  omap (inv_item bs) (seqZ start (Z.of_nat len)) =
  imap (λ i b, to_string (start + Z.of_nat i) +:+ ":" +:+ hash_block_header (header b)) (take len (drop (Z.to_nat start) bs)).
Proof.
  unfold list_size. revert start. induction len as [|len IH]; intros start Hle H0; [done|]. 
  rewrite seqZ_cons by lia. replace (Z.pred (Z.of_nat (S len))) with (Z.of_nat len) by lia. cbn [omap list_omap].
  destruct (lookup_lt_is_Some_2 bs (Z.to_nat start)) as [b Hb]; [lia|].
  unfold inv_item at 1. rewrite Hb. cbn [fmap option_fmap option_map].
  rewrite (drop_S bs b (Z.to_nat start) Hb). cbn [take imap]. rewrite IH by lia.
  replace (Z.to_nat (Z.succ start)) with (S (Z.to_nat start)) by lia. f_equal; [by rewrite Z.add_0_r|].
  apply imap_ext. intros i x _. cbn -[Z.of_nat]. do 2 f_equal. lia.
Qed.
Lemma parse_inventory_items bs k :
  sha3_512_digests → (bs ≠ [] → Z.of_nat (k + length bs) ≤ W64) →
  parse_inventory (join "," (imap (λ i b, to_string (Z.of_nat k + Z.of_nat i) +:+ ":" +:+ hash_block_header (header b)) bs)) =
  imap (λ i b, inv_of (k + i) b) bs.
Proof.
  intros Hd Hk. unfold parse_inventory. set (f := λ i b, _ +:+ _).
  assert (Hp : ∀ i b, bs !! i = Some b → parse_item (f i b) = Some (inv_of (k + i) b)).
  { intros i b Hi. apply lookup_lt_Some in Hi as Hlt. unfold f. rewrite <-Nat2Z.inj_add. apply inv_item_parse; [done|].
    specialize (Hk ltac:(by intros ->)). lia. }
  assert (Hclean : clean "," (imap f bs)).
  { apply Forall_forall. intros x (i & b & -> & _)%elem_of_lookup_imap. unfold f. rewrite !free_of_app.
    rewrite to_string_free_of by done. cbn. unfold free_of. eapply all_chars_impl; [|apply bytes_to_hex_chars].
    intros c Hc. apply negb_true_iff, Ascii.eqb_neq. by intros <-. }
  destruct bs as [|b0 bs0] eqn:Ebs; [done|]. rewrite <-Ebs in *. rewrite getlines_join; [|done|].
  - clearbody f. clear Hk Hclean Ebs. revert f k Hp. induction bs as [|b bs IH]; intros f k Hp; [done|]. cbn [imap omap list_omap].
    rewrite (Hp 0%nat b eq_refl). f_equal.
    specialize (IH (f ∘ S) (S k)). cbn [compose] in IH. fold (omap (M := list) parse_item). rewrite IH.
    + apply imap_ext. intros i x _. cbn. f_equal. lia.
    + intros i x Hx. specialize (Hp (S i) x Hx). cbn in Hp. rewrite Hp. do 2 f_equal. lia.
  - intros Hl. destruct (exists_last (l := imap f bs)) as (l & x & El); [by rewrite Ebs|].
    rewrite El, List.last_last in Hl. subst x. assert (Hin : "" ∈ imap f bs) by (rewrite El; set_solver).
    apply elem_of_lookup_imap in Hin as (i & b & Hx & _). unfold f in Hx. symmetry in Hx.
    by apply (f_equal is_empty) in Hx; destruct (to_string (Z.of_nat k + Z.of_nat i)).
Qed.

(** ** What the client asks for *)

Definition block_hash (b : Block) : string := hash_block_header (header b).
Lemma filter_every {A} (P : A → Prop) `{∀ x, Decision (P x)} l : Forall P l → filter P l = l.
Proof. induction 1; rewrite ?filter_cons_True; by f_equal. Qed.
Lemma filter_no {A} (P : A → Prop) `{∀ x, Decision (P x)} l : Forall (λ x, ¬ P x) l → filter P l = [].
Proof. induction 1; [done|]. by rewrite filter_cons_False. Qed.

Lemma inventory_reply c id k reply :
  wire_word id → (k ≤ length (blocks c))%nat → list_size (blocks c) < 2 ^ 63 →
  served c (id +:+ " REQINV|" +:+ to_string (Z.of_nat k) +:+ "|24") reply →
  reply = "ok:INV|" +:+ join "," (imap (λ i b, to_string (Z.of_nat k + Z.of_nat i) +:+ ":" +:+ block_hash b)
                                     (take (Nat.min (length (blocks c) - k) 24) (drop k (blocks c)))).
Proof.
  intros Hid Hk Hs Hr. unfold list_size in Hs. set (len := Nat.min (length (blocks c) - k) 24).
  rewrite (reqinv_reply c id (Z.of_nat k) reply Hid ltac:(unfold is_u64; lia) Hr). unfold inventory, list_size.
  change (24 =? 0) with false. change (64 <? 24) with false. cbn iota.
  rewrite u64_small by (unfold is_u64; lia). replace (_ - _) with (Z.of_nat len) by lia.
  rewrite inventory_items by (unfold list_size; lia). by rewrite Nat2Z.id.
Qed.
Definition sync_start (c : Chain) : Z := if 0 <? height_of c then height_of c - 1 else 0.
Lemma sync_start_nat c :
  is_u64 (initial_difficulty_target cfg) → reachable cfg c → list_size (blocks c) < W64 →
  ∃ k, sync_start c = Z.of_nat k ∧ (k ≤ length (blocks c) ≤ k + 2)%nat.
Proof.
  intros Ht Hr Hs. destruct (reachable_tip c Ht Hr Hs) as [Hh Hne]. unfold list_size in *.
  exists (length (blocks c) - 2)%nat. unfold sync_start. rewrite Hh. assert (length (blocks c) ≠ 0%nat) by by destruct (blocks c).
  destruct (Z.ltb_spec 0 (Z.of_nat (length (blocks c)) - 1)); lia.
Qed.

Section offer.
Context (c1 c2 : Chain) (more : list Block).
Hypothesis target_u64 : is_u64 (initial_difficulty_target cfg).
Hypothesis ours : reachable cfg c1.
Hypothesis theirs : reachable cfg c2.
Hypothesis extends : blocks c2 = blocks c1 ++ more.
Hypothesis small : list_size (blocks c2) < 2 ^ 63.
Hypothesis unknown : Forall (λ b, has_block_hash c1 (block_hash b) = false) more.

Lemma our_size : list_size (blocks c1) + list_size more = list_size (blocks c2).
Proof. rewrite extends. unfold list_size. rewrite length_app. lia. Qed.
Lemma our_height : height_of c1 = list_size (blocks c1) - 1 ∧ blocks c1 ≠ [].
Proof. apply reachable_tip; [done..|]. pose proof our_size. unfold list_size in *. lia. Qed.

Lemma reorg_not_needed k len :
  reorg_needed c1 (imap (λ i b, inv_of (k + i) b) (take len (drop k (blocks c2)))) = false.
Proof.
  apply not_true_is_false. intros (x & Hx & Hr)%existsb_exists. apply list_elem_of_In, elem_of_lookup_imap in Hx as (i & b & -> & Hb).
  apply lookup_take_Some in Hb as [Hb _]. rewrite lookup_drop, extends in Hb. cbn [inv_of fst snd] in Hr.
  destruct (Z.leb_spec (Z.of_nat (k + i)) (height_of c1)) as [Hle|]; [|done]. destruct our_height as [Hh _].
  rewrite lookup_app_l in Hb by (unfold list_size in Hh; lia). unfold block_at in Hr. rewrite Nat2Z.id, Hb in Hr. cbn in Hr.
  by rewrite String.eqb_refl in Hr.
Qed.
Lemma missing_items k len :
  (k ≤ length (blocks c1))%nat → (length (blocks c2) ≤ k + len)%nat →
  missing c1 (imap (λ i b, inv_of (k + i) b) (take len (drop k (blocks c2)))) =
  imap (λ i b, inv_of (length (blocks c1) + i) b) more.
Proof.
  intros Hk Hlen. rewrite extends, length_app in Hlen. destruct our_height as [Hh _]. unfold list_size in Hh.
  rewrite take_ge by (rewrite length_drop, extends, length_app; lia).
  rewrite extends, drop_app_le by done. unfold missing. rewrite imap_app, filter_app, filter_no.
  - rewrite filter_every; cbn [app].
    + apply imap_ext. intros i b _. cbn. f_equal. rewrite length_drop. lia.
    + apply Forall_forall. intros x (i & b & -> & Hb)%elem_of_lookup_imap. cbn [inv_of fst snd compose].
      rewrite length_drop. destruct (Z.leb_spec (Z.of_nat (k + (length (blocks c1) - k + i))) (height_of c1)); [lia|]. cbn [orb].
      apply (proj1 (Forall_forall _ _) unknown). by apply list_elem_of_lookup_2 in Hb.
  - apply Forall_forall. intros x (i & b & -> & Hb)%elem_of_lookup_imap. cbn [inv_of fst snd].
    apply lookup_lt_Some in Hb. rewrite length_drop in Hb.
    destruct (Z.leb_spec (Z.of_nat (k + i)) (height_of c1)); [done|lia].
Qed.
Lemma more_heights i b : more !! i = Some b → height (header b) = Z.of_nat (length (blocks c1) + i).
Proof.
  intros Hb. apply (reachable_height c2); [done..|lia|]. rewrite extends, lookup_app_r by lia.
  by rewrite Nat.add_comm, Nat.add_sub.
Qed.

(** The replies to the requests for the blocks. *)
Lemma blocks_served id replies :
  wire_word id → Forall2 (λ b r, served c2 (id +:+ " REQBLK|" +:+ to_string (height (header b))) r) more replies →
  replies = (λ b, "ok:BLKDATA|" +:+ encode_block_payload b) <$> more.
Proof.
  intros Hid Hblk. apply list_eq. intros i. rewrite list_lookup_fmap. destruct (more !! i) as [b|] eqn:Eb; cbn.
  - destruct (Forall2_lookup_l _ _ _ i b Hblk Eb) as (r & Hr & Hsv). rewrite Hr. f_equal.
    pose proof (more_heights i b Eb) as Hb. pose proof (lookup_lt_Some _ _ _ Eb). pose proof our_size as Hsz. pose proof small as Hs.
    eapply (reqblk_reply c2 id (height (header b))); [done| | | |done]; rewrite ?Hb; unfold is_u64, list_size in *; [lia..|].
    rewrite Nat2Z.id, extends, lookup_app_r by lia. by rewrite Nat.add_comm, Nat.add_sub.
  - apply lookup_ge_None in Eb. apply lookup_ge_None. by rewrite <-(Forall2_length _ _ _ Hblk).
Qed.
Lemma missing_heights : (imap (λ i b, inv_of (length (blocks c1) + i) b) more).*1 = (λ b, height (header b)) <$> more.
Proof.
  rewrite fmap_imap. apply list_eq. intros i. rewrite list_lookup_imap, list_lookup_fmap. destruct (more !! i) as [b|] eqn:Eb; [|done].
  cbn. by rewrite (more_heights i b Eb).
Qed.
End offer.

(** ** The client *)

(** The host after a turn in which nothing else happens. *)
Definition turned h (t : Turn) (ts : list Turn) (e : string * list string * list string) : Host :=
  mkHost R W (h_node h) (h_client h) ts (then_now t) (then_stop t) (h_log h ++ [e]).
Lemma pipeline_served peer reqs h t ts :
  reqs ≠ [] → Forall (λ r, (String.length r + 1 ≤ kMaxLineBytes)%nat) reqs →
  h_net h = t :: ts → meanwhile t = [] → length (replies t) = length reqs →
  send_p2p_pipeline cfg dp peer reqs h = (turned h t ts (peer, reqs, replies t), Some (replies t)).
Proof.
  intros Hne Hf En Hm Hl. unfold send_p2p_pipeline. destruct (_ || _) eqn:E.
  - exfalso. apply orb_prop in E as [(r & Hr & Hlt)%existsb_exists|Hb]; [|by apply bool_decide_eq_true in Hb].
    apply list_elem_of_In in Hr. apply (proj1 (Forall_forall _ _) Hf) in Hr. apply Nat.ltb_lt in Hlt. lia.
  - unfold take_turn. rewrite En, Hm, <-Hl, firstn_all. done.
Qed.
Lemma request_served peer req resp h t ts :
  h_stop h = false → (String.length req + 1 ≤ kMaxLineBytes)%nat → h_net h = t :: ts → meanwhile t = [] → replies t = [resp] →
  send_p2p_request cfg dp peer req h = (turned h t ts (peer, [req], [resp]), Some (Some resp)).
Proof.
  intros Hs Hf En Hm Hr. unfold send_p2p_request, mbind, M_bind, ask. rewrite Hs.
  rewrite (pipeline_served peer [req] h t ts) by (rewrite ?Hr; auto). by rewrite Hr.
Qed.
Lemma ingest_block_accepted now n b c :
  block_hash b ∉ seen_block_hashes (ledger n) → add_block cfg now (n_chain n) b = (c, Ok ()) →
  let '(n', r) := ingest_block cfg now n b in
  r = Ok () ∧ n_chain n' = c ∧ seen_block_hashes (ledger n') = {[block_hash b]} ∪ seen_block_hashes (ledger n).
Proof.
  intros Hs Ha. unfold ingest_block, block_hash in *. rewrite bool_decide_false by done.
  destruct (observe_votes _ _ _ _) as [vt ms]. unfold n_chain in Ha. rewrite Ha.
  by destruct (refresh_local_votes _ _ _ _) as [[vt' out] k].
Qed.
Lemma add_block_tip now c b c' : add_block cfg now c b = (c', Ok ()) → height_of c' = height (header b).
Proof.
  intros (_ & _ & c1 & co & txs & total & fees & _ & _ & _ & _ & _ & ->)%add_block_Ok.
  unfold height_of, tip, committed_state. cbn [blocks set_tip set_applying]. by rewrite List.last_last.
Qed.
(** The blocks of the replies are added one after the other. *)
Lemma ingest_replies_served peer bs c l h any :
  add_all cfg (h_now h) (n_chain (h_node h)) bs c → NoDup (block_hash <$> bs) →
  Forall (λ b, block_wire_wf b ∧ block_hash b ∉ seen_block_hashes (ledger (h_node h))) bs →
  (∀ i b, bs !! i = Some b → height (header b) = height_of (n_chain (h_node h)) + 1 + Z.of_nat i) →
  l = (λ b, (height (header b), "ok:BLKDATA|" +:+ encode_block_payload b)) <$> bs →
  ∃ h' any', ingest_replies cfg peer l any h = (h', Some (None, any')) ∧ n_chain (h_node h') = c.
Proof.
  revert c l h any. induction bs as [|b bs IH]; intros c l h any Ha Hnd Hw Hh ->; cbn [fmap list_fmap ingest_replies].
  { exists h, any. by split; [|cbn in Ha]. }
  destruct Ha as (c1 & Hb & Ha). apply NoDup_cons in Hnd as [Hnot Hnd]. apply Forall_cons in Hw as [[Hwf Hseen] Hw].
  pose proof (Hh 0%nat b eq_refl) as Hh0. cbn in Hh0. unfold chain, ask, mbind, M_bind. cbn beta iota.
  rewrite (proj2 (Z.leb_gt _ _)) by lia. unfold blkdata. rewrite starts_with_self, (str_drop_app "ok:BLKDATA|").
  unfold ingest_block_payload. rewrite decode_block_payload_v3 by done.
  pose proof (ingest_block_accepted (h_now h) (h_node h) b c1 Hseen Hb) as Hi.
  destruct (ingest_block _ _ _ _) as [n1 r]. destruct Hi as (-> & Hc1 & Hs1). cbn [on_node mark_good mbind M_bind h_node h_now].
  apply IH; cbn [h_node h_now]; [|done| | |done].
  - change (n_chain (good peer n1)) with (n_chain n1). by rewrite Hc1.
  - apply Forall_forall. intros x Hx. destruct (proj1 (Forall_forall _ _) Hw x Hx) as [Hxw Hxs]. split; [done|]. change (ledger (good peer n1)) with (ledger n1).
    rewrite Hs1. intros [E%elem_of_singleton|]%elem_of_union; [|done]. apply Hnot. rewrite <-E. apply list_elem_of_fmap. by exists x.
  - intros i x Hx. change (n_chain (good peer n1)) with (n_chain n1). rewrite Hc1. specialize (Hh (S i) x Hx).
    rewrite (add_block_tip _ _ _ _ Hb), Hh0, Hh. lia.
Qed.

Lemma zip_fmap {A B D} (f : A → B) (g : A → D) l : zip (f <$> l) (g <$> l) = (λ x, (f x, g x)) <$> l.
Proof. induction l as [|x l IH]; [done|]. cbn. by rewrite IH. Qed.

(** C29. Catching up: the peer's chain is ours and at most 22 blocks more, that the clock and the
    sizes of the wire format allow and that are new to us. If nothing else happens meanwhile
    and the peer answers the inventory request and the pipeline of block requests, then one
    download ends without an error and the node's chain, with its whole state, is the peer's. *)
Theorem catch_up c2 more peer id resp h t1 t2 ts :
  sha3_512_digests → is_u64 (initial_difficulty_target cfg) →
  reachable cfg (n_chain (h_node h)) → reachable cfg c2 →
  blocks c2 = blocks (n_chain (h_node h)) ++ more → (0 < length more ≤ 22)%nat → list_size (blocks c2) < 2 ^ 63 →
  Forall block_wire_wf more → Forall (in_time cfg (then_now t2)) more → NoDup (block_hash <$> more) →
  Forall (λ b, has_block_hash (n_chain (h_node h)) (block_hash b) = false ∧
               block_hash b ∉ seen_block_hashes (ledger (h_node h))) more →
  wire_word id → h_stop h = false → h_net h = t1 :: t2 :: ts → meanwhile t1 = [] → meanwhile t2 = [] →
  replies t1 = [resp] → served c2 (id +:+ " REQINV|" +:+ to_string (sync_start (n_chain (h_node h))) +:+ "|24") resp →
  Forall2 (λ b resp, served c2 (id +:+ " REQBLK|" +:+ to_string (height (header b))) resp) more (replies t2) →
  let '(h', r) := fetch_blocks_from_peer cfg dp peer id h in
  r = Some (true, "") ∧ n_chain (h_node h') = c2.
Proof.
  intros Hd Ht H1 H2 E Hn Hs Hw Hti Hnd Hu Hid Hst En Hm1 Hm2 Hr1 Hinv Hblk.
  set (c1 := n_chain (h_node h)) in *. pose proof (our_height c1 c2 more Ht H1 E Hs) as [Hh Hne].
  pose proof (our_size c1 c2 more E) as Hsz.
  destruct (sync_start_nat c1 Ht H1) as (k & Hstart & Hk); [unfold list_size in *; lia|].
  pose proof (proj1 Hinv) as Hfit. rewrite Hstart in Hinv. apply inventory_reply in Hinv as ->; [|done|unfold list_size in *; lia|done].
  assert (Hfits : Forall (λ r, (String.length r + 1 ≤ kMaxLineBytes)%nat) ((λ b, id +:+ " REQBLK|" +:+ to_string (height (header b))) <$> more)).
  { apply Forall_fmap. clear -Hblk. induction Hblk as [|b r l l' [Hf _] _ IH]; constructor; done. }
  pose proof (blocks_served c1 c2 more Ht H2 E Hs id _ Hid Hblk) as Eresps.
  unfold fetch_blocks_from_peer, or_self, self, chain, ask, mbind, M_bind, mret, M_ret. cbn beta iota.
  destruct (is_empty id) eqn:Eid; [by apply String.eqb_eq in Eid; destruct Hid|]. fold c1. fold (sync_start c1).
  erewrite (request_served peer _ _ h t1 (t2 :: ts)) by done. cbn beta iota.
  rewrite starts_with_self, (str_drop_app "ok:INV|"). cbn [negb]. fold c1.
  change (n_chain (h_node (turned h t1 (t2 :: ts) ?e))) with c1.
  rewrite parse_inventory_items by (try done; intros _; rewrite length_take, length_drop; unfold list_size in *; lia).
  assert (Hun : Forall (λ b, has_block_hash c1 (block_hash b) = false) more) by (eapply Forall_impl; [exact Hu|]; by intros ? []).
  rewrite (reorg_not_needed c1 c2 more), (missing_items c1 c2 more) by (done || (unfold list_size in *; lia)).
  rewrite (missing_heights c1 c2 more Ht H2 E Hs). unfold fetch_missing. rewrite bool_decide_false by (by destruct more; cbn in Hn; [lia|]).
  unfold mbind, M_bind. rewrite <-list_fmap_compose. erewrite (pipeline_served peer _ _ t2 ts) by
    (first [done | by rewrite Eresps, !length_fmap | by destruct more; [cbn in Hn; lia|]]).
  cbn beta iota. match goal with |- context [ingest_replies cfg peer ?l ?any ?g] =>
    destruct (ingest_replies_served peer more c2 l g any) as (h' & any' & -> & Hc) end.
  - apply extension_add_all; done.
  - done.
  - apply Forall_forall. intros b Hb. split; [by apply (proj1 (Forall_forall _ _) Hw)|]. by apply (proj1 (Forall_forall _ _) Hu).
  - intros i b Hb. rewrite (more_heights c1 c2 more Ht H2 E Hs i b Hb). cbn. fold c1. rewrite Hh. unfold list_size. lia.
  - rewrite Eresps, zip_fmap. done.
  - cbn beta iota. rewrite Eresps, !length_fmap, Nat.ltb_irrefl. done.
Qed.

(** ** Changing to a heavier fork *)

Lemma replay_add_all now c i bs c' : add_all cfg now c bs c' → replay cfg now c i bs = (c', Ok ()).
Proof.
  revert c i. induction bs as [|b bs IH]; intros c i; cbn [add_all replay]; [by intros ->|].
  intros (c1 & -> & Ha). by apply IH.
Qed.
Lemma replace_adopts now c1 c2 :
  reachable cfg c1 → reachable cfg c2 → Forall (in_time cfg now) (tail (blocks c2)) → cumulative_work c1 < cumulative_work c2 →
  replace_with_chain cfg now c1 (blocks c2) = (c2, Ok ()).
Proof.
  intros H1 H2 Ht Hw. destruct (reachable_built cfg c1 H1) as [bs1 E1%built_blocks], (reachable_built cfg c2 H2) as [bs2 E2%built_blocks].
  assert (Ha : add_all cfg now (reset cfg) bs2 c2).
  { apply extension_add_all; [constructor|done|by rewrite E2|by rewrite E2 in Ht]. }
  unfold replace_with_chain. rewrite E2, E1. cbn [head from_option]. rewrite String.eqb_refl. cbn [negb].
  rewrite (replay_add_all now (reset cfg) 1 bs2 c2 Ha). by rewrite (proj2 (Z.leb_gt _ _)).
Qed.
Lemma dispatch_reqh now d n id x :
  dispatch cfg dp now d n id ("REQH|" +:+ x) = accept id ("HAVEH|" +:+ to_string (height_of (n_chain n))) n.
Proof. unfold dispatch. by at_tag "REQH|" x. Qed.
Lemma reqh_reply c id reply :
  wire_word id → served c (id +:+ " REQH|") reply → reply = "ok:HAVEH|" +:+ to_string (height_of c).
Proof.
  intros Hid Hr. change " REQH|" with (" " +:+ ("REQH|" +:+ "")) in Hr.
  apply served_dispatch in Hr as (now & d & n & r & Hc & _ & Hd & ->); [|done..].
  rewrite dispatch_reqh in Hd. injection Hd as <-. by rewrite <-Hc.
Qed.

(** A turn in which the peer answers one line and nothing else happens. *)
Definition answers (c : Chain) (line : string) (t : Turn) : Prop :=
  meanwhile t = [] ∧ then_stop t = false ∧ ∃ reply, replies t = [reply] ∧ served c line reply.
Definition blk_line (id : string) (b : Block) : string := id +:+ " REQBLK|" +:+ to_string (height (header b)).
Lemma answers_request c peer line t ts h :
  answers c line t → h_stop h = false → h_net h = t :: ts →
  ∃ reply, served c line reply ∧ send_p2p_request cfg dp peer line h = (turned h t ts (peer, [line], [reply]), Some (Some reply)).
Proof. intros (Hm & _ & reply & Hr & Hs) Hst En. exists reply. split; [done|]. apply request_served; [done|apply Hs|done..]. Qed.

Section fork.
Context (c2 : Chain) (peer id : string).
Hypothesis target_u64 : is_u64 (initial_difficulty_target cfg).
Hypothesis theirs : reachable cfg c2.
Hypothesis small : list_size (blocks c2) < 2 ^ 63.
Hypothesis sendable : Forall block_wire_wf (blocks c2).
Hypothesis word_id : wire_word id.

Lemma fetch_candidate_served l tb done rest fuel h :
  blocks c2 = done ++ l → Forall2 (λ b, answers c2 (blk_line id b)) l tb → h_net h = tb ++ rest → h_stop h = false →
  (length tb < fuel)%nat →
  ∃ h', fetch_candidate cfg dp fuel peer id (list_size done) (height_of c2) done h = (h', Some (Ok (blocks c2))) ∧
    h_node h' = h_node h ∧ h_now h' = foldl (λ _ t, then_now t) (h_now h) tb.
Proof.
  destruct (reachable_tip c2 target_u64 theirs ltac:(lia)) as [Hh _]. intros E H. revert done E fuel h.
  induction H as [|b t l tb Hb _ IH]; intros done E fuel h En Hst Hf; (destruct fuel as [|fuel]; [cbn in Hf; lia|]);
    cbn [fetch_candidate foldl].
  - rewrite app_nil_r in E. rewrite Hh, E, (proj2 (Z.ltb_lt _ _)) by lia. by exists h.
  - assert (Hsz : list_size (blocks c2) = list_size done + 1 + list_size l).
    { rewrite E. unfold list_size. rewrite length_app. cbn [length]. lia. }
    assert (Hlen : 0 ≤ list_size done ∧ 0 ≤ list_size l) by (unfold list_size; lia).
    rewrite Hh, (proj2 (Z.ltb_ge _ _)) by lia.
    assert (Hat : blocks c2 !! length done = Some b) by (rewrite E; by rewrite list_lookup_middle).
    pose proof (reachable_height c2 _ b target_u64 theirs ltac:(lia) Hat) as Hbh.
    assert (Eline : id +:+ " REQBLK|" +:+ to_string (list_size done) = blk_line id b) by (unfold blk_line; by rewrite Hbh).
    rewrite Eline. destruct (answers_request c2 peer _ t (tb ++ rest) h Hb Hst En) as (reply & Hs & Er).
    unfold mbind, M_bind. rewrite Er. cbn beta iota. rewrite (reqblk_reply c2 id (height (header b)) b reply word_id) by
      first [exact Hs | rewrite Hbh, ?Nat2Z.id; first [exact Hat | unfold is_u64, list_size in *; lia]].
    unfold blkdata. rewrite starts_with_self, (str_drop_app "ok:BLKDATA|").
    rewrite decode_block_payload_v3 by (apply (proj1 (Forall_forall _ _) sendable); by eapply list_elem_of_lookup_2).
    rewrite u64_small by (unfold is_u64; lia).
    replace (list_size done + 1) with (list_size (done ++ [b])) by (unfold list_size; rewrite length_app; cbn [length]; lia).
    destruct (IH (done ++ [b])) with (fuel := fuel) (h := turned h t (tb ++ rest) (peer, [blk_line id b], ["ok:BLKDATA|" +:+ encode_block_payload b]))
      as (h' & E' & Hn & Hnow); [by rewrite <-app_assoc|done|by destruct Hb as (_ & ? & _)|cbn in Hf; lia|].
    rewrite Hh in E'. exists h'. by split.
Qed.

Lemma reorg_is_needed c1 k len i b1 b2 :
  list_size (blocks c1) < 2 ^ 63 → reachable cfg c1 → (k ≤ i < k + len)%nat →
  blocks c1 !! i = Some b1 → blocks c2 !! i = Some b2 → block_hash b1 ≠ block_hash b2 →
  reorg_needed c1 (imap (λ i b, inv_of (k + i) b) (take len (drop k (blocks c2)))) = true.
Proof.
  intros Hs H1 Hi E1 E2 Hne. apply existsb_exists. exists (inv_of i b2). split.
  - apply list_elem_of_In, elem_of_lookup_imap. exists (i - k)%nat, b2. split; [f_equal; lia|].
    rewrite lookup_take_lt by lia. rewrite lookup_drop. by replace (k + (i - k))%nat with i by lia.
  - cbn [inv_of fst snd]. destruct (reachable_tip c1 target_u64 H1 ltac:(lia)) as [Hh _]. pose proof (lookup_lt_Some _ _ _ E1).
    unfold list_size in Hh. rewrite (proj2 (Z.leb_le _ _)) by lia. unfold block_at. rewrite Nat2Z.id, E1. cbn.
    apply negb_true_iff, String.eqb_neq. done.
Qed.
Lemma fetch_reorg_served t tb rest h :
  answers c2 (id +:+ " REQH|") t → Forall2 (λ b, answers c2 (blk_line id b)) (blocks c2) tb →
  h_net h = t :: tb ++ rest → h_stop h = false → can_reserve (list_size (blocks c2)) = true →
  reachable cfg (n_chain (h_node h)) → cumulative_work (n_chain (h_node h)) < cumulative_work c2 →
  Forall (in_time cfg (foldl (λ _ t, then_now t) (then_now t) tb)) (tail (blocks c2)) →
  let '(h', r) := fetch_reorg cfg dp peer id h in r = Some (true, "") ∧ n_chain (h_node h') = c2.
Proof.
  intros Ha Hb En Hst Hres H1 Hw Hti. destruct (reachable_tip c2 target_u64 theirs ltac:(lia)) as [Hh Hne].
  destruct (answers_request c2 peer _ t (tb ++ rest) h Ha Hst En) as (reply & Hs & Er). apply reqh_reply in Hs as ->; [|done].
  unfold fetch_reorg, mbind, M_bind. rewrite Er. cbn [option_bind]. rewrite starts_with_self, (str_drop_app "ok:HAVEH|").
  assert (Hlen : 0 ≤ height_of c2 < 2 ^ 63) by (rewrite Hh; unfold list_size in *; destruct (blocks c2); [done|cbn [length] in *; lia]).
  rewrite number_to_string by (unfold is_u64; lia). rewrite u64_small by (unfold is_u64; lia).
  replace (height_of c2 + 1) with (list_size (blocks c2)) by lia. rewrite Hres. cbn [negb ask]. cbn beta iota.
  set (h1 := turned _ _ _ _). destruct (fetch_candidate_served (blocks c2) tb [] rest (2 + length (h_net h1)) h1) as (h' & E & Hn & Hnow);
    [done..|by destruct Ha as (_ & ? & _)|cbn [h_net turned h1]; rewrite length_app; lia|].
  change (list_size []) with 0 in E. rewrite E. cbn beta iota. destruct (blocks c2) as [|g bs] eqn:Eb; [done|]. rewrite <-Eb in *.
  unfold chain, ask. cbn beta iota. rewrite Hn, Hnow. change (h_now h1) with (then_now t). change (h_node h1) with (h_node h).
  rewrite replace_adopts by done. done.
Qed.
End fork.

(** C28. Changing forks: the peer's chain has more work than ours, and the inventory shows where
    they differ. If nothing else happens meanwhile and the peer answers the requests of the
    download, the clock and the sizes of the wire format allow the blocks and there is room for
    them, then the download ends without an error and the node's chain is the peer's. *)
Theorem heavier_fork_adopted c2 peer id h t1 t2 tb rest i b1 b2 :
  let c1 := n_chain (h_node h) in
  sha3_512_digests → is_u64 (initial_difficulty_target cfg) → reachable cfg c1 → reachable cfg c2 →
  list_size (blocks c1) < 2 ^ 63 → list_size (blocks c2) < 2 ^ 63 → cumulative_work c1 < cumulative_work c2 →
  sync_start c1 ≤ Z.of_nat i < sync_start c1 + 24 → blocks c1 !! i = Some b1 → blocks c2 !! i = Some b2 →
  block_hash b1 ≠ block_hash b2 →
  Forall block_wire_wf (blocks c2) → can_reserve (list_size (blocks c2)) = true →
  Forall (in_time cfg (foldl (λ _ t, then_now t) (then_now t2) tb)) (tail (blocks c2)) →
  wire_word id → h_stop h = false → h_net h = t1 :: t2 :: tb ++ rest →
  answers c2 (id +:+ " REQINV|" +:+ to_string (sync_start c1) +:+ "|24") t1 → answers c2 (id +:+ " REQH|") t2 →
  Forall2 (λ b, answers c2 (blk_line id b)) (blocks c2) tb →
  let '(h', r) := fetch_blocks_from_peer cfg dp peer id h in
  r = Some (true, "") ∧ n_chain (h_node h') = c2.
Proof.
  intros c1 Hd Ht H1 H2 Hs1 Hs2 Hw Hi E1 E2 Hne Hwf Hres Hti Hid Hst En A1 A2 Ab.
  destruct (sync_start_nat c1 Ht H1 ltac:(lia)) as (k & Hk & Hkl). rewrite Hk in *.
  pose proof (lookup_lt_Some _ _ _ E2) as Hlt. destruct (answers_request c2 peer _ t1 _ h A1 Hst En) as (reply & Hs & Er).
  apply inventory_reply in Hs as ->; [|done|lia|done].
  unfold fetch_blocks_from_peer, or_self, self, chain, ask, mbind, M_bind, mret, M_ret. cbn beta iota.
  destruct (is_empty id) eqn:Eid; [by apply String.eqb_eq in Eid; destruct Hid|]. fold c1. fold (sync_start c1). rewrite Hk, Er. cbn beta iota.
  rewrite starts_with_self, (str_drop_app "ok:INV|"). cbn [negb].
  change (n_chain (h_node (turned h t1 (t2 :: tb ++ rest) ?e))) with c1.
  rewrite parse_inventory_items by (try done; intros _; rewrite length_take, length_drop; unfold list_size in *; lia).
  rewrite (reorg_is_needed c2 Ht c1 k _ i b1 b2) by (done || lia).
  by apply (fetch_reorg_served c2 peer id Ht H2 Hs2 Hwf Hid t2 tb rest); [| | |destruct A1 as (_ & ? & _)|..].
Qed.
End peers.
