(* ===== verification/RpcAccess.v ===== *)
(** * Who may run which command ([src/rpc_access.cpp], the gate of
    [RpcServer::handle_command] and the three listeners of [apps/additiond_main.cpp])

    A listener turns the bytes of a request into at most one command line for the server.
    The commands themselves are the operations of the class [Rpc]. JSON and URLs are read
    as the code reads them; [i] of the parsers is the rest of the text here. *)
From S2P Require Import Prelude Strings Lines Crypto.

(** What the listeners use of the server: the body of [handle_command] after its gate, run
    on the command's name and the line, and the banner. *)
Class Rpc (St : Type) := {
  run_command : St → string → string → bool → St * string;
  network_mode : St → string;
  strict_admin_mode : St → bool;
}.

Definition contains_char (c : ascii) (s : string) : bool := any_char (Ascii.eqb c) s.
Definition cr : ascii := "013".
Definition tab : ascii := "009".
Definition lf_str : string := String nl "".
Definition crlf : string := String cr (String nl "").
Definition quote : ascii := "034".
Definition backslash : ascii := "092".

(** ** Command lists *)

Definition is_public_read_command (cmd : string) : bool :=
  existsb (String.eqb cmd)
    ["getinfo"; "monetary_info"; "crypto_selftest"; "tx_status"; "peers"; "getblock"; "getblockhash"; "getblockraw"].
Definition is_remote_allowed_command (cmd : string) : bool :=
  is_public_read_command cmd ||
  existsb (String.eqb cmd)
    ["protocol_status"; "fee_info"; "node_pubkey"; "getbalance"; "getbalance_instant"; "staked"; "stake_claimable";
     "token_balance"; "token_info"; "swap_quote"; "swap_pool_info"; "swap_quote_route"; "swap_best_route";
     "nft_owner"; "nft_info"; "swap_tvl"; "privacy_status"; "bridge_balance"; "bridge_attestor";
     "pouw_storage_deal_status"; "pouw_storage_worker_status"; "pouw_compute_job_status";
     "pouw_compute_worker_status"; "pm_inbox"; "pm_status"; "pm_fetch"; "verify_message"; "ai_status"].
Definition requires_admin_signature_command (cmd : string) : bool :=
  String.eqb cmd "stake_policy" || String.eqb cmd "bridge_set_attestor".

Definition first_command_token (line : string) : string := (word (skip_spaces line)).1.

(** ** URLs *)

Definition hex_value (c : ascii) : option Z := digit_value c.

Fixpoint url_decode (s : string) : string :=
  match s with
  | "" => ""
  | String c s' =>
      if Ascii.eqb c "+" then String " " (url_decode s')
      else if Ascii.eqb c "%" then
        match s' with
        | String a (String b r) =>
            match hex_value a, hex_value b with
            | Some hi, Some lo => String (char_of_byte (Z.lor (Z.shiftl hi 4) lo)) (url_decode r)
            | _, _ => String c (url_decode s')
            end
        | _ => String c (url_decode s')
        end
      else String c (url_decode s')
  end.

(** [url_encode_cmd] of [src/decentralized_node.cpp]. *)
Definition is_url_char (c : ascii) : bool :=
  let b := byte_of_char c in
  ((97 <=? b) && (b <=? 122)) || ((65 <=? b) && (b <=? 90)) || ((48 <=? b) && (b <=? 57)) ||
  Ascii.eqb c "_" || Ascii.eqb c "-".
Definition hexd (n : Z) : ascii := default "0"%char (String.get (Z.to_nat n) "0123456789ABCDEF").
Fixpoint url_encode_cmd (s : string) : string :=
  match s with
  | "" => ""
  | String c s =>
      (if is_url_char c then String c ""
       else if Ascii.eqb c " " then "%20"
       else let b := byte_of_char c in String "%" (String (hexd (Z.shiftr b 4)) (String (hexd (Z.land b 15)) ""))) +:+
      url_encode_cmd s
  end.

(** The part up to a separator, and what follows the separator. *)
Definition split_first (c : ascii) (s : string) : string * option string := cut c s.

Definition query_parts (query : string) : list string := if is_empty query then [] else split_at "&" query.
Fixpoint find_param (parts : list string) (key : string) : string :=
  match parts with
  | [] => ""
  | part :: parts =>
      let '(k, v) := split_first "=" part in
      if String.eqb (url_decode k) key then from_option url_decode "" v else find_param parts key
  end.
(** A separator at the very end starts no further part. *)
Definition query_param (query key : string) : string :=
  let parts := query_parts query in
  find_param (if is_empty (List.last parts "") then removelast parts else parts) key.

(** ** HTTP *)

Definition request_path_query (raw : string) : option (string * string * string) :=
  let '(method, r) := word (skip_spaces raw) in
  let '(target, r) := word (skip_spaces r) in
  let '(version, _) := word (skip_spaces r) in
  if is_empty method || is_empty target || is_empty version then None
  else
    let '(path, query) := split_first "?" target in
    Some (method, path, default "" query).

(** [raw.find(sub)] and the text after the match. *)
Fixpoint after (sub s : string) : option string :=
  if starts_with sub s then Some (str_drop (String.length sub) s)
  else match s with String _ s' => after sub s' | "" => None end.
Definition http_body (raw : string) : string :=
  match after (crlf +:+ crlf) raw with
  | Some b => b
  | None => default "" (after (lf_str +:+ lf_str) raw)
  end.
Definition is_http_rpc_request (raw : string) : bool :=
  starts_with "GET " raw || starts_with "POST " raw || starts_with "OPTIONS " raw || starts_with "HEAD " raw.

Fixpoint trim_end (s : string) : string :=
  match s with
  | "" => ""
  | String c s =>
      let r := trim_end s in
      if is_empty r && (Ascii.eqb c nl || Ascii.eqb c cr || Ascii.eqb c " ") then "" else String c r
  end.
Definition parse_http_rpc_command (raw : string) : result string :=
  match request_path_query raw with
  | None => Err "malformed request line"
  | Some (method, path, query) =>
      if String.eqb method "OPTIONS" || String.eqb method "HEAD" then Ok ""
      else if negb (String.eqb path "/rpc") && negb (String.eqb path "/rpc/") then Err "not an RPC path"
      else
        let cmd := query_param query "cmd" in
        let cmd := if is_empty cmd && String.eqb method "POST" then trim_end (http_body raw) else cmd in
        if is_empty cmd then Err "missing cmd" else Ok cmd
  end.

Definition reason_of (status : Z) : string :=
  if status =? 200 then "OK" else if status =? 204 then "No Content" else if status =? 400 then "Bad Request"
  else if status =? 403 then "Forbidden" else if status =? 404 then "Not Found"
  else if status =? 405 then "Method Not Allowed" else "Error".
Definition http_headers (status : Z) (body content_type : string) : list string :=
  ["HTTP/1.1 " +:+ to_string status +:+ " " +:+ reason_of status; "Content-Type: " +:+ content_type;
   "Content-Length: " +:+ to_string (Z.of_nat (String.length body)); "Access-Control-Allow-Origin: *";
   "Access-Control-Allow-Methods: GET, OPTIONS"; "Access-Control-Allow-Headers: Content-Type";
   "Cache-Control: no-store"; "Connection: close"; ""].
Definition http_rpc_response (status : Z) (body content_type : string) : string :=
  foldr (λ h r, h +:+ crlf +:+ r) body (http_headers status body content_type).
Definition text_plain : string := "text/plain; charset=utf-8".
Definition app_json : string := "application/json".

(** ** JSON *)

Definition escape_char (c : ascii) : string :=
  let esc d := String backslash (String d "") in
  if Ascii.eqb c quote then esc quote
  else if Ascii.eqb c backslash then esc backslash
  else if Ascii.eqb c nl then esc "n"%char
  else if Ascii.eqb c cr then esc "r"%char
  else if Ascii.eqb c tab then esc "t"%char
  else if byte_of_char c <? 32 then String backslash ("u00" +:+ bytes_to_hex (String c ""))
  else String c "".
Fixpoint json_escape (s : string) : string :=
  match s with "" => "" | String c s => escape_char c +:+ json_escape s end.

Definition quoted (s : string) : string := String quote (s +:+ String quote "").
Definition field (k v : string) : string := quoted k +:+ ":" +:+ v.
Definition jsonrpc_result_body (id_json result_text : string) : string :=
  "{" +:+ field "jsonrpc" (quoted "2.0") +:+ "," +:+ field "id" id_json +:+ "," +:+
  field "result" (quoted (json_escape result_text)) +:+ "}".
Definition int_to_string (z : Z) : string := if z <? 0 then String "-" (to_string (- z)) else to_string z.
Definition jsonrpc_error_body (id_json : string) (code : Z) (message : string) : string :=
  "{" +:+ field "jsonrpc" (quoted "2.0") +:+ "," +:+ field "id" id_json +:+ "," +:+
  field "error" ("{" +:+ field "code" (int_to_string code) +:+ "," +:+
    field "message" (quoted (json_escape message)) +:+ "}") +:+ "}".

Definition is_ws (c : ascii) : bool := Ascii.eqb c " " || Ascii.eqb c tab || Ascii.eqb c nl || Ascii.eqb c cr.
Fixpoint skip_ws (s : string) : string :=
  match s with String c s' => if is_ws c then skip_ws s' else s | "" => "" end.

Definition unescape (e : ascii) : option ascii :=
  if Ascii.eqb e quote || Ascii.eqb e backslash || Ascii.eqb e "/" then Some e
  else if Ascii.eqb e "n" then Some nl
  else if Ascii.eqb e "r" then Some cr
  else if Ascii.eqb e "t" then Some tab
  else None.
Fixpoint json_chars (s : string) : option (string * string) :=
  match s with
  | "" => None
  | String c s =>
      if Ascii.eqb c quote then Some ("", s)
      else if Ascii.eqb c backslash then
        match s with
        | "" => None
        | String e s => match unescape e with
                        | None => None
                        | Some d => '(out, r) ← json_chars s; Some (String d out, r)
                        end
        end
      else '(out, r) ← json_chars s; Some (String c out, r)
  end.
Definition parse_json_string (s : string) : option (string * string) :=
  match skip_ws s with
  | String c s => if Ascii.eqb c quote then json_chars s else None
  | "" => None
  end.

Fixpoint digits (s : string) : string * string :=
  match s with
  | String c s' => if is_digit_char c then let '(d, r) := digits s' in (String c d, r) else ("", s)
  | "" => ("", "")
  end.
Definition parse_json_number_token (s : string) : option (string * string) :=
  let s := skip_ws s in
  let '(sign, s) := match s with String "-" s' => ("-", s') | _ => ("", s) end in
  let '(d, r) := digits s in
  if is_empty d then None else Some (sign +:+ d, r).

(** The fields read so far. *)
Record JsonRequest := mkJsonRequest {
  jsonrpc : string;
  j_method : string;
  have_method : bool;
  j_params : list string;
  id_json : string;
}.
Definition empty_request : JsonRequest := mkJsonRequest "" "" false [] "null".

(** The entries of [params]: the text is where the loop tests its condition. *)
Fixpoint parse_params (fuel : nat) (ps : list string) (s : string) : result (list string * string) :=
  match fuel, s with
  | O, _ | _, "" => Err "unterminated params array"
  | S fuel, String c r =>
      if Ascii.eqb c "]" then Ok (ps, r)
      else
        match skip_ws s with
        | "" => Err "truncated params"
        | String c' _ as s =>
            '(v, s) ← (if Ascii.eqb c' quote then or_err "invalid params string" (parse_json_string s)
                       else or_err "params entries must be strings or integers" (parse_json_number_token s));
            match skip_ws s with
            | String d r =>
                if Ascii.eqb d "," then parse_params fuel (ps ++ [v]) r
                else if Ascii.eqb d "]" then Ok (ps ++ [v], r)
                else Err "invalid params array"
            | "" => Err "invalid params array"
            end
        end
  end.

(** One field: the value of [key], which starts the text. *)
Definition parse_field (fuel : nat) (q : JsonRequest) (key s : string) : result (JsonRequest * string) :=
  if String.eqb key "jsonrpc" then
    '(v, s) ← or_err "jsonrpc must be a string" (parse_json_string s);
    Ok (mkJsonRequest v (j_method q) (have_method q) (j_params q) (id_json q), s)
  else if String.eqb key "method" then
    '(v, s) ← or_err "method must be a string" (parse_json_string s);
    Ok (mkJsonRequest (jsonrpc q) v true (j_params q) (id_json q), s)
  else if String.eqb key "id" then
    '(v, s) ←
      (if starts_with (String quote "") s then
         '(v, s) ← or_err "invalid id string" (parse_json_string s); Ok (quoted (json_escape v), s)
       else if starts_with "null" s then Ok ("null", str_drop 4 s)
       else or_err "id must be string, number, or null" (parse_json_number_token s));
    Ok (mkJsonRequest (jsonrpc q) (j_method q) (have_method q) (j_params q) v, s)
  else if String.eqb key "params" then
    match s with
    | String "[" s =>
        '(ps, s) ← parse_params fuel (j_params q) (skip_ws s);
        Ok (mkJsonRequest (jsonrpc q) (j_method q) (have_method q) ps (id_json q), s)
    | _ => Err "params must be a positional array"
    end
  else Err "unknown JSON-RPC field".

(** The loop over the fields; what was read of them is kept when one is refused. *)
Fixpoint parse_fields (fuel : nat) (q : JsonRequest) (s : string) : JsonRequest * result () :=
  match fuel, s with
  | O, _ | _, "" => (q, Ok ())
  | S fuel, _ =>
      let s := skip_ws s in
      if starts_with "}" s then (q, Ok ())
      else
        match parse_json_string s with
        | None => (q, Err "invalid JSON key")
        | Some (key, s) =>
            match skip_ws s with
            | String ":" s =>
                let s := skip_ws s in
                if is_empty s then (q, Err "truncated JSON-RPC object")
                else
                  match parse_field fuel q key s with
                  | Err e => (q, Err e)
                  | Ok (q, s) =>
                      match skip_ws s with
                      | String d s =>
                          if Ascii.eqb d "," then parse_fields fuel q s
                          else if Ascii.eqb d "}" then (q, Ok ())
                          else (q, Err "invalid JSON-RPC object")
                      | "" => (q, Err "invalid JSON-RPC object")
                      end
                  end
            | _ => (q, Err "expected ':'")
            end
        end
  end.
(** The id is an out-parameter: it is there also when the request is refused. *)
Definition parse_jsonrpc_request (body : string) : string * result (string * list string) :=
  match skip_ws body with
  | String "{" s =>
      let '(q, r) := parse_fields (S (String.length s)) empty_request s in
      (id_json q,
       _ ← r;
       reject_if negb (String.eqb (jsonrpc q) "2.0") as "jsonrpc must be 2.0" ;;
       reject_if negb (have_method q) || is_empty (j_method q) as "method must be a string" ;;
       Ok (j_method q, j_params q))
  | _ => ("null", Err "JSON-RPC body must be an object")
  end.

(** ** The listeners *)

Section listeners.
Context {St : Type} {RP : Rpc St}.

Definition public_rpc_banner (s : St) : string := "addition-public-rpc read-only " +:+ network_mode s.

(** The gate of [handle_command]. *)
Definition handle_command (s : St) (line : string) (trusted : bool) : St * string :=
  let cmd := first_command_token line in
  if is_empty cmd then (s, "error: empty command")
  else if negb trusted && negb (is_remote_allowed_command cmd) then (s, "error: command disabled on remote RPC")
  else if strict_admin_mode s && requires_admin_signature_command cmd && negb trusted
  then (s, "error: admin command allowed only on trusted interface")
  else run_command s cmd line trusted.

Definition join_text_command (method : string) (params : list string) : string :=
  foldl (λ cmd p, cmd +:+ " " +:+ p) method params.
Definition dispatch_public_jsonrpc (s : St) (method : string) (params : list string) (id : string) : St * string :=
  if contains_char " " method || contains_char nl method
  then (s, jsonrpc_error_body id (-32600) "method must be a single TEXT RPC command name")
  else if negb (is_public_read_command method)
  then (s, jsonrpc_error_body id (-32601) "error: command disabled on public RPC")
  else if existsb (λ p, contains_char " " p || contains_char nl p || contains_char cr p) params
  then (s, jsonrpc_error_body id (-32602) "params must be single TEXT RPC tokens")
  else
    let '(s, reply) := handle_command s (join_text_command method params) false in
    (s, if starts_with "error:" reply then jsonrpc_error_body id (-32000) reply else jsonrpc_result_body id reply).

Definition split_query_params (raw : string) : list string :=
  filter (λ p, p ≠ "") (split_at "," raw).
Definition query_id (query : string) : string :=
  let idq := query_param query "id" in
  if is_empty idq then "1" else if all_chars is_digit_char idq then idq else quoted (json_escape idq).
Definition json_reply (x : St * string) : St * string := (x.1, http_rpc_response 200 x.2 app_json).

Definition dispatch_jsonrpc (s : St) (method query raw : string) : St * string :=
  if String.eqb method "HEAD" then (s, http_rpc_response 200 "" app_json)
  else if String.eqb method "GET" then
    let jmethod := query_param query "method" in
    json_reply
      (if is_empty jmethod then (s, jsonrpc_error_body "null" (-32600) "missing method")
       else dispatch_public_jsonrpc s jmethod (split_query_params (query_param query "params")) (query_id query))
  else if String.eqb method "POST" then
    json_reply
      (match parse_jsonrpc_request (http_body raw) with
       | (id, Err e) => (s, jsonrpc_error_body (if is_empty id then "null" else id) (-32600) e)
       | (id, Ok (m, ps)) => dispatch_public_jsonrpc s m ps id
       end)
  else (s, http_rpc_response 405 "error: method not allowed" text_plain).

Definition dispatch_public_read_rpc (s : St) (raw : string) : St * string :=
  if is_http_rpc_request raw then
    match request_path_query raw with
    | None => (s, http_rpc_response 400 "error: malformed HTTP request" text_plain)
    | Some (method, path, query) =>
        if String.eqb method "OPTIONS" then (s, http_rpc_response 204 "" text_plain)
        else if String.eqb path "/" || String.eqb path "/health"
        then (s, http_rpc_response 200 (public_rpc_banner s) text_plain)
        else if String.eqb path "/jsonrpc" || String.eqb path "/jsonrpc/" then dispatch_jsonrpc s method query raw
        else
          match parse_http_rpc_command raw with
          | Err e =>
              (s, if String.eqb e "not an RPC path"
                  then http_rpc_response 404 "error: use /rpc?cmd=getinfo or /jsonrpc?method=getinfo" text_plain
                  else http_rpc_response 400 ("error: " +:+ e) text_plain)
          | Ok cmd =>
              if String.eqb method "HEAD" then (s, http_rpc_response 200 "" text_plain)
              else if negb (is_public_read_command (first_command_token cmd))
              then (s, http_rpc_response 403 "error: command disabled on public RPC" text_plain)
              else let '(s, reply) := handle_command s cmd false in (s, http_rpc_response 200 reply text_plain)
          end
    end
  else if negb (is_public_read_command (first_command_token raw))
  then (s, "error: command disabled on public RPC")
  else handle_command s raw false.

(** The token of the local and LAN listeners. *)
Definition is_blank (c : ascii) : bool := Ascii.eqb c " " || Ascii.eqb c tab.
Fixpoint trim_right (s : string) : string :=
  match s with
  | "" => ""
  | String c s =>
      let r := trim_right s in
      if is_empty r && (is_blank c || Ascii.eqb c cr || Ascii.eqb c nl) then "" else String c r
  end.
Fixpoint trim_left (s : string) : string :=
  match s with String c s' => if is_blank c then trim_left s' else s | "" => "" end.
Definition trim_copy (s : string) : string := trim_left (trim_right s).

Definition parse_rpc_auth (cmd expected_token : string) : result string :=
  let '(provided, rest) := word (skip_spaces cmd) in
  reject_if is_empty provided as "error: missing auth token" ;;
  reject_if negb (String.eqb provided expected_token) as "error: unauthorized" ;;
  let stripped := trim_copy (getline nl (Some rest)).1 in
  reject_if is_empty stripped as "error: missing command" ;;
  Ok stripped.

(** The three listeners; an empty token is one that is not configured. The local listener
    also says whether the side state is saved afterwards. *)
Definition is_side_state_write (cmd : string) : bool :=
  let one_of l := existsb (String.eqb cmd) l in
  if one_of ["stake"; "unstake"; "stake_reward"; "stake_claim"; "stake_policy"; "consume_stake_credit"; "add_liquidity"]
  then true
  else if starts_with "token_" cmd then negb (one_of ["token_balance"; "token_info"; "token_sign_payload"])
  else if starts_with "swap_" cmd then
    negb (one_of ["swap_quote"; "swap_quote_route"; "swap_best_route"; "swap_best_route_sign_payload"; "swap_pool_info";
                  "swap_tvl"])
  else if starts_with "nft_" cmd then negb (one_of ["nft_owner"; "nft_info"])
  else if starts_with "privacy_" cmd then
    one_of ["privacy_mint_open"; "privacy_spend_open"; "privacy_mint_zk"; "privacy_spend_zk"; "privacy_mint_zk_v1";
            "privacy_spend_zk_v1"]
  else if starts_with "contract_" cmd then negb (one_of ["contract_get"])
  else if starts_with "bridge_" cmd then negb (one_of ["bridge_balance"; "bridge_attestor"])
  else if starts_with "pouw_" cmd then bool_decide (after "_status" cmd = None)
  else if starts_with "pm_" cmd then one_of ["pm_send_ttl"; "pm_destroy"; "pm_purge"]
  else false.
Definition persist_side_after (line resp : string) : bool :=
  negb (starts_with "error:" resp) && is_side_state_write (first_command_token line).

Definition local_rpc (token : string) (s : St) (cmd : string) : St * string * bool :=
  match (if is_empty token then Ok cmd else parse_rpc_auth cmd token) with
  | Err e => (s, e, false)
  | Ok line => let '(s, resp) := handle_command s line true in (s, resp, persist_side_after line resp)
  end.
Definition lan_rpc (token : string) (s : St) (cmd : string) : St * string :=
  if is_empty token then (s, "error: LAN RPC auth token not configured")
  else match parse_rpc_auth cmd token with
       | Err e => (s, e)
       | Ok line => handle_command s line false
       end.
End listeners.
