(* ===== verification/RpcProofs.v ===== *)
(** * What the listeners let through *)
From S2P Require Import Prelude Strings Lines Crypto RpcAccess.

(** ** Words *)

Definition no_space (s : string) : bool := all_chars (λ c, negb (is_space c)) s.
(** A text that does not continue a word. *)
Definition breaks (s : string) : Prop := s = "" ∨ ∃ c r, s = String c r ∧ is_space c = true.

Lemma word_app w r : no_space w = true → breaks r → word (w +:+ r) = (w, r).
Proof.
  intros Hw Hr. induction w as [|c w IH]; rewrite ?str_app_cons, ?str_app_nil_l.
  - by destruct Hr as [->|(c & r' & -> & Hc)]; cbn [word]; rewrite ?Hc.
  - cbn in Hw. apply andb_prop in Hw as [Hc%negb_true_iff Hw]. cbn [word]. by rewrite Hc, (IH Hw).
Qed.
Lemma skip_spaces_no_space w r : no_space w = true → w ≠ "" → skip_spaces (w +:+ r) = w +:+ r.
Proof.
  destruct w as [|c w]; [done|]. intros Hw _. cbn in Hw. apply andb_prop in Hw as [Hc%negb_true_iff _].
  rewrite str_app_cons. cbn [skip_spaces]. by rewrite Hc.
Qed.
Lemma first_token_app w r : no_space w = true → w ≠ "" → breaks r → first_command_token (w +:+ r) = w.
Proof. intros. unfold first_command_token. by rewrite skip_spaces_no_space, word_app. Qed.

Lemma public_command_word m : is_public_read_command m = true → no_space m = true ∧ m ≠ "".
Proof.
  intros (x & Hx & <-%String.eqb_eq)%existsb_exists. cbn in Hx.
  repeat (destruct Hx as [<-|Hx]; [done|]). done.
Qed.
Lemma public_remote m : is_public_read_command m = true → is_remote_allowed_command m = true.
Proof. unfold is_remote_allowed_command. by intros ->. Qed.

Section listeners.
Context {St : Type} {RP : Rpc St}.

Lemma join_text_command_app m ps : ∃ t, join_text_command m ps = m +:+ t ∧ breaks t.
Proof.
  unfold join_text_command.
  assert (H : ∀ acc, (∃ t, acc = m +:+ t ∧ breaks t) → ∃ t, foldl (λ cmd p, cmd +:+ " " +:+ p) acc ps = m +:+ t ∧ breaks t).
  { induction ps as [|p ps IH]; intros acc (t & -> & Hb); cbn [foldl]; [by exists t|].
    apply IH. exists (t +:+ " " +:+ p). rewrite !str_app_assoc. split; [done|].
    destruct Hb as [->|(c & r & -> & Hc)]; right; rewrite ?str_app_nil_l, ?str_app_cons; by eexists _, _. }
  apply H. exists "". rewrite str_app_nil_r. split; [done|by left].
Qed.
Lemma join_token m ps : is_public_read_command m = true → first_command_token (join_text_command m ps) = m.
Proof.
  intros [Hw Hne]%public_command_word. destruct (join_text_command_app m ps) as (t & -> & Ht). by apply first_token_app.
Qed.

(** What a command may do when its interface is not trusted. *)
Lemma handle_command_cases s line trusted :
  handle_command s line trusted = run_command s (first_command_token line) line trusted ∨
  (handle_command s line trusted).1 = s.
Proof. unfold handle_command. repeat (case_match; [by right|]). by left. Qed.

(** The state after a request is the one before it, or the one a command of the list left
    that was run without trust. *)
Definition ran (allowed : string → bool) (s s' : St) : Prop :=
  s' = s ∨ ∃ line, allowed (first_command_token line) = true ∧
    s' = (run_command s (first_command_token line) line false).1.

Lemma handle_command_ran allowed s line :
  allowed (first_command_token line) = true → ran allowed s (handle_command s line false).1.
Proof.
  intros Ha. destruct (handle_command_cases s line false) as [E|E]; rewrite E; [|by left]. right. by exists line.
Qed.
Lemma handle_untrusted_ran s line : ran is_remote_allowed_command s (handle_command s line false).1.
Proof.
  destruct (is_remote_allowed_command (first_command_token line)) eqn:E; [by apply handle_command_ran|].
  left. unfold handle_command. rewrite E. by destruct (is_empty _).
Qed.

Lemma dispatch_public_jsonrpc_ran s m ps id : ran is_public_read_command s (dispatch_public_jsonrpc s m ps id).1.
Proof.
  unfold dispatch_public_jsonrpc. destruct (_ || _); [by left|].
  destruct (is_public_read_command m) eqn:Em; [|by left]. destruct (existsb _ _); [by left|].
  pose proof (handle_command_ran is_public_read_command s (join_text_command m ps)) as H.
  rewrite join_token in H by done. specialize (H Em). by destruct (handle_command _ _ _) as [s' reply].
Qed.

Lemma dispatch_public_ran s raw : ran is_public_read_command s (dispatch_public_read_rpc s raw).1.
Proof.
  assert (Hc : ∀ line, is_public_read_command (first_command_token line) = true →
    ran is_public_read_command s (handle_command s line false).1) by (intros; by apply handle_command_ran).
  unfold dispatch_public_read_rpc. destruct (is_http_rpc_request raw).
  - destruct (request_path_query raw) as [[[method path] query]|]; [|by left].
    destruct (String.eqb method "OPTIONS"); [by left|]. destruct (_ || _); [by left|]. destruct (_ || _).
    + unfold dispatch_jsonrpc, json_reply. destruct (String.eqb method "HEAD"); [by left|].
      destruct (String.eqb method "GET"); [|destruct (String.eqb method "POST"); [|by left]]; cbn [fst].
      * destruct (is_empty _); [by left|]. apply dispatch_public_jsonrpc_ran.
      * destruct (parse_jsonrpc_request _) as [id [[m ps]|e]]; [apply dispatch_public_jsonrpc_ran|by left].
    + destruct (parse_http_rpc_command raw) as [cmd|e]; [|by left]. destruct (String.eqb method "HEAD"); [by left|].
      destruct (is_public_read_command _) eqn:Ec; [|by left]. specialize (Hc cmd Ec). cbn [negb].
      by destruct (handle_command s cmd false).
  - destruct (is_public_read_command _) eqn:Ec; [|by left]. by apply Hc.
Qed.

(** C34. The public listener, whatever bytes it is sent, runs at most one command, never as a
    trusted caller, and only one of the eight public read commands; the LAN listener runs
    nothing without the token and then only remote commands; the local listener runs a
    command only for the token, if one is configured. *)
Theorem listeners_confined s raw token :
  ran is_public_read_command s (dispatch_public_read_rpc s raw).1 ∧
  ran is_remote_allowed_command s (lan_rpc token s raw).1 ∧
  ((lan_rpc token s raw).1 ≠ s ∨ (token ≠ "" ∧ (local_rpc token s raw).1.1 ≠ s) →
   token ≠ "" ∧ first_command_token raw = token).
Proof.
  assert (Hauth : ∀ line, parse_rpc_auth raw token = Ok line → first_command_token raw = token).
  { intros line. unfold parse_rpc_auth, first_command_token. destruct (word (skip_spaces raw)) as [p r]. intros H. peel H.
    cbn. bools. by apply String.eqb_eq. }
  conjs.
  - apply dispatch_public_ran.
  - unfold lan_rpc. destruct (is_empty token); [by left|]. destruct (parse_rpc_auth raw token); [|by left].
    apply handle_untrusted_ran.
  - unfold lan_rpc, local_rpc. destruct (is_empty token) eqn:Et.
    + apply is_empty_true in Et. by intros [?|[? _]].
    + apply is_empty_false in Et. destruct (parse_rpc_auth raw token) as [line|e] eqn:Ea; [|by intros [?|[_ ?]]].
      intros _. split; [done|]. by eapply Hauth.
Qed.
End listeners.

(** ** A command in a URL *)

Lemma char_cases (P : ascii → Prop) : (∀ n, (n < 256)%nat → P (Ascii.ascii_of_nat n)) → ∀ c, P c.
Proof.
  intros H c. rewrite <-(Ascii.ascii_nat_embedding c). apply H. apply Ascii.nat_ascii_bounded.
Qed.
(** A decidable property of bytes is checked on all of them. *)
Lemma char_all (f : ascii → bool) :
  forallb (λ n, f (Ascii.ascii_of_nat n)) (seq 0 256) = true → ∀ c, f c = true.
Proof.
  intros H. apply char_cases. intros n Hn. rewrite forallb_forall in H. apply H. apply in_seq. lia.
Qed.

Definition enc_char (c : ascii) : string := url_encode_cmd (String c "").
Lemma url_encode_cons c s : url_encode_cmd (String c s) = enc_char c +:+ url_encode_cmd s.
Proof. unfold enc_char. cbn [url_encode_cmd]. by rewrite str_app_nil_r. Qed.

(** The encoding of a byte is one plain character or an escape. *)
Definition enc_ok (c : ascii) : bool :=
  match enc_char c with
  | String a "" => negb (Ascii.eqb a "+" || Ascii.eqb a "%") && Ascii.eqb a c
  | String p (String a (String b "")) =>
      Ascii.eqb p "%" &&
      match hex_value a, hex_value b with
      | Some hi, Some lo => Ascii.eqb (char_of_byte (Z.lor (Z.shiftl hi 4) lo)) c
      | _, _ => false
      end
  | _ => false
  end.
Lemma enc_char_ok c : enc_ok c = true.
Proof. revert c. apply char_all. vm_compute. reflexivity. Qed.
Definition plain_char (c : ascii) : bool :=
  negb (is_space c) && negb (Ascii.eqb "&" c) && negb (Ascii.eqb "=" c) && negb (Ascii.eqb "?" c).
Lemma enc_char_plain c : all_chars plain_char (enc_char c) = true.
Proof. revert c. apply char_all. vm_compute. reflexivity. Qed.

Lemma url_decode_encode s : url_decode (url_encode_cmd s) = s.
Proof.
  induction s as [|c s IH]; [done|]. rewrite url_encode_cons. pose proof (enc_char_ok c) as H. unfold enc_ok in H.
  destruct (enc_char c) as [|p [|a [|b [|? ?]]]]; try done; rewrite !str_app_cons, str_app_nil_l; cbn [url_decode].
  - apply andb_prop in H as [H1 H2%Ascii.eqb_eq]. subst p. apply negb_true_iff, orb_false_elim in H1 as [-> ->]. by rewrite IH.
  - apply andb_prop in H as [H1%Ascii.eqb_eq H]. subst p. cbn [Ascii.eqb]. destruct (hex_value a); [|done].
    destruct (hex_value b); [|done]. apply Ascii.eqb_eq in H. by rewrite H, IH.
Qed.
Lemma url_encode_plain s : all_chars plain_char (url_encode_cmd s) = true.
Proof. induction s as [|c s IH]; [done|]. by rewrite url_encode_cons, all_chars_app, enc_char_plain, IH. Qed.

Lemma plain_word s : all_chars plain_char s = true → no_space s = true.
Proof. apply all_chars_impl. unfold plain_char. intros c H. bools. by apply negb_true_iff. Qed.
Lemma plain_free c s : c = "&"%char ∨ c = "?"%char → all_chars plain_char s = true → free_of c s = true.
Proof. intros Hc. apply all_chars_impl. unfold plain_char. intros d H. bools. apply negb_true_iff. by destruct Hc as [-> | ->]. Qed.
Lemma url_encode_empty c : url_encode_cmd c = "" → c = "".
Proof.
  destruct c as [|x c]; [done|]. rewrite url_encode_cons. pose proof (enc_char_ok x) as H. unfold enc_ok in H.
  by destruct (enc_char x).
Qed.

Definition get_request (cmd : string) : string :=
  "GET " +:+ ("/rpc?cmd=" +:+ url_encode_cmd cmd) +:+ " HTTP/1.1" +:+ crlf +:+ crlf.

Lemma get_request_path cmd :
  request_path_query (get_request cmd) = Some ("GET", "/rpc", "cmd=" +:+ url_encode_cmd cmd).
Proof.
  unfold request_path_query, get_request. set (u := url_encode_cmd cmd).
  assert (Hu : no_space u = true) by apply plain_word, url_encode_plain.
  change ("GET " +:+ ?x) with ("GET" +:+ String " " x). rewrite skip_spaces_no_space by done.
  rewrite word_app by (done || right; by eexists _, _).
  assert (Hs : ∀ x y, skip_spaces (String " " (("/rpc?cmd=" +:+ x) +:+ y)) = ("/rpc?cmd=" +:+ x) +:+ y) by done.
  rewrite Hs, word_app; [|done|right; by eexists _, _].
  change (skip_spaces (" HTTP/1.1" +:+ crlf +:+ crlf)) with ("HTTP/1.1" +:+ (crlf +:+ crlf)).
  rewrite word_app; [|done|right; by eexists _, _]. cbn [is_empty String.eqb orb]. unfold split_first.
  change ("/rpc?cmd=" +:+ u) with ("/rpc" +:+ String "?" ("cmd=" +:+ u)). by rewrite cut_app.
Qed.
Lemma get_request_cmd cmd : cmd ≠ "" → parse_http_rpc_command (get_request cmd) = Ok cmd.
Proof.
  intros Hne. unfold parse_http_rpc_command. rewrite get_request_path.
  change (String.eqb "GET" "OPTIONS" || String.eqb "GET" "HEAD") with false. cbv iota.
  assert (Hq : query_param ("cmd=" +:+ url_encode_cmd cmd) "cmd" = cmd).
  { unfold query_param, query_parts. change (is_empty ("cmd=" +:+ ?x)) with false. cbv iota.
    rewrite split_at_last by (rewrite free_of_app; by rewrite (plain_free "&" _ (or_introl eq_refl) (url_encode_plain cmd))).
    cbn [List.last]. change (is_empty ("cmd=" +:+ ?x)) with false. cbv iota. cbn [find_param].
    change ("cmd=" +:+ url_encode_cmd cmd) with ("cmd" +:+ String "=" (url_encode_cmd cmd)).
    unfold split_first. rewrite cut_app by done. cbn [from_option]. by rewrite url_decode_encode. }
  change (negb (String.eqb "/rpc" "/rpc")) with false. cbn [andb]. rewrite Hq.
  apply is_empty_false in Hne. rewrite Hne. cbn [andb]. by rewrite Hne.
Qed.

Section http.
Context {St : Type} {RP : Rpc St}.

(** A GET of [/rpc] with a command line in its query has the effect of the line itself on
    the text interface, and its body is the answer there, whatever bytes the line has. *)
Theorem http_serves_text s cmd :
  cmd ≠ "" → is_http_rpc_request cmd = false →
  let '(s1, r1) := dispatch_public_read_rpc s cmd in
  dispatch_public_read_rpc s (get_request cmd) =
  (s1, http_rpc_response (if is_public_read_command (first_command_token cmd) then 200 else 403) r1 text_plain).
Proof.
  intros Hne Hh. unfold dispatch_public_read_rpc. rewrite Hh.
  change (is_http_rpc_request (get_request cmd)) with true. cbv iota. rewrite get_request_path, get_request_cmd by done.
  cbn [String.eqb Ascii.eqb Bool.eqb orb andb negb].
  destruct (is_public_read_command (first_command_token cmd)); cbn [negb]; [|done].
  by destruct (handle_command s cmd false).
Qed.
End http.

(** ** JSON-RPC *)

Lemma skip_ws_length s : (String.length (skip_ws s) ≤ String.length s)%nat.
Proof. induction s as [|c s IH]; cbn [skip_ws]; [done|]. destruct (is_ws c); cbn [String.length]; lia. Qed.
Lemma json_chars_length s out r : json_chars s = Some (out, r) → (String.length r < String.length s)%nat.
Proof.
  revert out r. induction s as [s IH] using (induction_ltof1 _ String.length). unfold ltof in IH. intros out r.
  destruct s as [|c s]; cbn [json_chars]; [done|]. destruct (Ascii.eqb c quote); [intros [= _ <-]; cbn; lia|].
  destruct (Ascii.eqb c backslash).
  - destruct s as [|e s]; [done|]. destruct (unescape e); [|done]. intros ([out' r'] & H & E)%bind_Some.
    apply IH in H; [|cbn; lia]. injection E as _ <-. cbn in *. lia.
  - intros ([out' r'] & H & E)%bind_Some. apply IH in H; [|cbn; lia]. injection E as _ <-. cbn in *. lia.
Qed.
Lemma parse_json_string_length s out r : parse_json_string s = Some (out, r) → (String.length r < String.length s)%nat.
Proof.
  unfold parse_json_string. pose proof (skip_ws_length s). destruct (skip_ws s) as [|c s']; [done|].
  destruct (Ascii.eqb c quote); [|done]. intros Hj%json_chars_length. cbn in *. lia.
Qed.
Lemma digits_length s : (String.length (digits s).1 + String.length (digits s).2 = String.length s)%nat.
Proof.
  induction s as [|c s IH]; cbn [digits]; [done|]. destruct (is_digit_char c); [|done].
  destruct (digits s). cbn in *. lia.
Qed.
Lemma parse_json_number_length s out r : parse_json_number_token s = Some (out, r) → (String.length r < String.length s)%nat.
Proof.
  unfold parse_json_number_token. pose proof (skip_ws_length s) as Hs. set (t := skip_ws s) in *.
  assert (Hsign : ∃ sg u, (match t with String "-" s' => ("-", s') | _ => ("", t) end) = (sg, u) ∧
    (String.length u ≤ String.length t)%nat).
  { destruct t as [|c t']; [by eexists _, _|]. destruct c as [[] [] [] [] [] [] [] []]; eexists _, _; (split; [reflexivity|cbn; lia]). }
  destruct Hsign as (sg & u & -> & Hu). pose proof (digits_length u) as Hd. destruct (digits u) as [d r'].
  destruct d as [|x d]; [done|]. cbn [is_empty String.eqb]. intros [= _ <-]. cbn in *. lia.
Qed.

(** The fuel is enough: one more unit than there are characters changes nothing. *)
Lemma parse_params_fuel f1 f2 ps s :
  (String.length s < f1)%nat → (String.length s < f2)%nat → parse_params f1 ps s = parse_params f2 ps s.
Proof.
  revert f2 ps s. induction f1 as [|f1 IH]; intros f2 ps s H1 H2; [lia|]. destruct f2 as [|f2]; [lia|].
  destruct s as [|c s]; [done|]. cbn [parse_params]. destruct (Ascii.eqb c "]"); [done|].
  pose proof (skip_ws_length (String c s)) as Hw. destruct (skip_ws (String c s)) as [|c' s'] eqn:Es; [done|].
  assert (Hv : ∀ x, (if Ascii.eqb c' quote then or_err "invalid params string" (parse_json_string (String c' s'))
      else or_err "params entries must be strings or integers" (parse_json_number_token (String c' s'))) = Ok x →
    (String.length x.2 < String.length (String c' s'))%nat).
  { intros [v r]. destruct (Ascii.eqb c' quote).
    - destruct (parse_json_string _) as [[v' r']|] eqn:E; cbn; [|done]. apply parse_json_string_length in E. by intros [= _ <-].
    - destruct (parse_json_number_token _) as [[v' r']|] eqn:E; cbn; [|done]. apply parse_json_number_length in E. by intros [= _ <-]. }
  destruct (if Ascii.eqb c' quote then _ else _) as [[v r]|e]; [|done]. specialize (Hv _ eq_refl). cbn [mbind result_bind snd] in *.
  pose proof (skip_ws_length r). destruct (skip_ws r) as [|d r']; [done|]. destruct (Ascii.eqb d ","); [|done].
  apply IH; cbn [String.length] in *; lia.
Qed.

(** ** What a client prints is what is read *)

Definition json_char_ok (c : ascii) : bool :=
  (32 <=? byte_of_char c) || Ascii.eqb c nl || Ascii.eqb c cr || Ascii.eqb c tab.
Definition esc_ok (c : ascii) : bool :=
  negb (json_char_ok c) ||
  match escape_char c with
  | String a "" => negb (Ascii.eqb a quote || Ascii.eqb a backslash) && Ascii.eqb a c
  | String a (String e "") =>
      Ascii.eqb a backslash && match unescape e with Some d => Ascii.eqb d c | None => false end
  | _ => false
  end.
Lemma escape_char_ok c : esc_ok c = true.
Proof. revert c. apply char_all. vm_compute. reflexivity. Qed.

Lemma json_chars_escape s r :
  all_chars json_char_ok s = true → json_chars (json_escape s +:+ String quote r) = Some (s, r).
Proof.
  induction s as [|c s IH]; [done|]. cbn [all_chars json_escape]. intros [Hc Hs]%andb_prop.
  pose proof (escape_char_ok c) as H. unfold esc_ok in H. rewrite Hc in H. cbn [negb orb] in H. rewrite str_app_assoc.
  destruct (escape_char c) as [|a [|e [|? ?]]]; try done; rewrite ?str_app_cons, ?str_app_nil_l; cbn [json_chars].
  - apply andb_prop in H as [H1 H2%Ascii.eqb_eq]. subst a. apply negb_true_iff, orb_false_elim in H1 as [-> ->].
    by rewrite (IH Hs).
  - apply andb_prop in H as [H1%Ascii.eqb_eq H]. subst a. cbn [Ascii.eqb]. destruct (unescape e) as [d|]; [|done].
    apply Ascii.eqb_eq in H as ->. change (Ascii.eqb backslash quote) with false. change (Ascii.eqb backslash backslash) with true.
    cbv iota. by rewrite (IH Hs).
Qed.
Definition json_text (s : string) : string := quoted (json_escape s).
Lemma parse_json_text s r : all_chars json_char_ok s = true → parse_json_string (json_text s +:+ r) = Some (s, r).
Proof.
  intros Hs. unfold json_text, quoted. rewrite str_app_cons, str_app_assoc, str_app_cons, str_app_nil_l.
  unfold parse_json_string. cbn [skip_ws]. change (is_ws quote) with false. change (Ascii.eqb quote quote) with true. cbv iota.
  by apply json_chars_escape.
Qed.

Definition print_params (ps : list string) : string := join "," (json_text <$> ps).
Definition print_request (m : string) (ps : list string) (id : string) : string :=
  "{" +:+ field "jsonrpc" (quoted "2.0") +:+ "," +:+ field "method" (json_text m) +:+ "," +:+
  field "id" (json_text id) +:+ "," +:+ field "params" ("[" +:+ print_params ps +:+ "]") +:+ "}".

Lemma parse_print_params fuel acc ps r :
  Forall (λ p, all_chars json_char_ok p = true) ps → (length ps < fuel)%nat →
  parse_params fuel acc (print_params ps +:+ String "]" r) = Ok (acc ++ ps, r).
Proof.
  intros Hps. revert fuel acc. induction Hps as [|p ps Hp Hps IH]; intros fuel acc Hf; (destruct fuel as [|fuel]; [cbn in Hf; lia|]).
  { by rewrite app_nil_r. }
  assert (Hhead : ∀ t, parse_params (S fuel) acc (json_text p +:+ t) =
    match skip_ws t with
    | String d r => if Ascii.eqb d "," then parse_params fuel (acc ++ [p]) r
                    else if Ascii.eqb d "]" then Ok (acc ++ [p], r) else Err "invalid params array"
    | "" => Err "invalid params array"
    end).
  { intros t. pose proof (parse_json_text p t Hp) as E. unfold json_text, quoted in *.
    rewrite str_app_cons in *. cbn [parse_params]. change (Ascii.eqb quote "]") with false. cbv iota.
    cbn [skip_ws]. change (is_ws quote) with false. change (Ascii.eqb quote quote) with true. cbv iota.
    rewrite E. done. }
  destruct ps as [|q ps].
  - change (print_params [p]) with (json_text p). by rewrite Hhead.
  - change (print_params (p :: q :: ps)) with (json_text p +:+ String "," (print_params (q :: ps))).
    rewrite str_app_assoc, str_app_cons, Hhead. cbn [skip_ws]. change (is_ws ",") with false. cbv iota.
    change (Ascii.eqb "," ",") with true. cbv iota. rewrite IH by (cbn in *; lia). by rewrite <-app_assoc.
Qed.

Lemma print_params_length ps : (length ps ≤ String.length (print_params ps))%nat.
Proof.
  induction ps as [|p ps IH]; [done|]. destruct ps as [|q ps]; [cbn; lia|].
  change (print_params (p :: q :: ps)) with (json_text p +:+ String "," (print_params (q :: ps))).
  rewrite str_length_app. cbn in *. lia.
Qed.

(** A key and its colon, then the value. *)
Lemma parse_fields_step fuel q key v s q' r :
  all_chars json_char_ok key = true → json_escape key = key → skip_ws v = v → v ≠ "" →
  parse_field fuel q key (v +:+ s) = Ok (q', r) →
  skip_ws (v +:+ s) = v +:+ s →
  parse_fields (S fuel) q (field key v +:+ s) =
  match skip_ws r with
  | String d r => if Ascii.eqb d "," then parse_fields fuel q' r
                  else if Ascii.eqb d "}" then (q', Ok ()) else (q', Err "invalid JSON-RPC object")
  | "" => (q', Err "invalid JSON-RPC object")
  end.
Proof.
  intros Hk He Hv Hne Hf Hw. pose proof (parse_json_text key (":" +:+ v +:+ s) Hk) as E.
  unfold json_text in E. rewrite He in E. unfold field. rewrite !str_app_assoc. unfold quoted in *.
  rewrite str_app_cons in *. cbn [parse_fields skip_ws]. change (is_ws quote) with false. cbv iota.
  change (starts_with "}" (String quote ?x)) with false. cbv iota. rewrite E.
  change (skip_ws (":" +:+ ?x)) with (String ":" x). cbv iota. rewrite Hw.
  assert (En : is_empty (v +:+ s) = false) by (destruct v; done). rewrite En, Hf. done.
Qed.

Lemma starts_with_head c r : starts_with (String c "") (String c r) = true.
Proof. unfold starts_with. cbn [String.prefix]. destruct (Ascii.ascii_dec c c); [by destruct r|done]. Qed.
Lemma json_text_starts s r : starts_with (String quote "") (json_text s +:+ r) = true.
Proof. unfold json_text, quoted. rewrite str_app_cons. apply starts_with_head. Qed.

(** Every request a client prints is read back as its method, its parameters and its id. *)
Lemma parse_print_request m ps id :
  m ≠ "" → all_chars json_char_ok m = true → all_chars json_char_ok id = true →
  Forall (λ p, all_chars json_char_ok p = true) ps →
  parse_jsonrpc_request (print_request m ps id) = (json_text id, Ok (m, ps)).
Proof.
  intros Hne Hm Hid Hps. unfold parse_jsonrpc_request, print_request.
  set (body := field "jsonrpc" (quoted "2.0") +:+ _).
  change (skip_ws ("{" +:+ body)) with (String "{" body). cbv iota.
  assert (Hlen : (4 + length ps < S (String.length body))%nat).
  { subst body. pose proof (print_params_length ps). unfold field. rewrite !str_length_app. cbn. lia. }
  assert (E : parse_fields (S (String.length body)) empty_request body =
    (mkJsonRequest "2.0" m true ps (json_text id), Ok ())).
  { destruct (String.length body) as [|[|[|n]]]; try lia. subst body.
    rewrite (parse_fields_step _ _ "jsonrpc" (quoted "2.0") _ (mkJsonRequest "2.0" "" false [] "null")
      ("," +:+ field "method" (json_text m) +:+ "," +:+ field "id" (json_text id) +:+ "," +:+
       field "params" ("[" +:+ print_params ps +:+ "]") +:+ "}")) by done.
    change (skip_ws ("," +:+ ?x)) with (String "," x). cbv iota. change (Ascii.eqb "," ",") with true. cbv iota.
    rewrite (parse_fields_step _ _ "method" (json_text m) _ (mkJsonRequest "2.0" m true [] "null")
      ("," +:+ field "id" (json_text id) +:+ "," +:+ field "params" ("[" +:+ print_params ps +:+ "]") +:+ "}"));
      [|done..| |done].
    2:{ unfold parse_field. change (String.eqb "method" "jsonrpc") with false. change (String.eqb "method" "method") with true.
        cbv iota. by rewrite parse_json_text. }
    change (skip_ws ("," +:+ ?x)) with (String "," x). cbv iota. change (Ascii.eqb "," ",") with true. cbv iota.
    rewrite (parse_fields_step _ _ "id" (json_text id) _ (mkJsonRequest "2.0" m true [] (json_text id))
      ("," +:+ field "params" ("[" +:+ print_params ps +:+ "]") +:+ "}"));
      [|done..| |done].
    2:{ unfold parse_field. change (String.eqb "id" "jsonrpc") with false. change (String.eqb "id" "method") with false.
        change (String.eqb "id" "id") with true. cbv iota.
        rewrite json_text_starts. by rewrite parse_json_text. }
    change (skip_ws ("," +:+ ?x)) with (String "," x). cbv iota. change (Ascii.eqb "," ",") with true. cbv iota.
    rewrite (parse_fields_step n _ "params" ("[" +:+ print_params ps +:+ "]") _ (mkJsonRequest "2.0" m true ps (json_text id)) "}");
      [done|done..| |done].
    unfold parse_field. change (String.eqb "params" "jsonrpc") with false. change (String.eqb "params" "method") with false.
    change (String.eqb "params" "id") with false. change (String.eqb "params" "params") with true. cbv iota.
    rewrite !str_app_assoc. change ("[" +:+ ?x) with (String "[" x). cbv iota.
    assert (Hw : skip_ws (print_params ps +:+ "]" +:+ "}") = print_params ps +:+ String "]" "}") by (destruct ps as [|p [|? ?]]; done).
    rewrite Hw, parse_print_params by (done || lia). done. }
  rewrite E. cbn [id_json mbind result_bind jsonrpc have_method j_method j_params].
  change (negb (String.eqb "2.0" "2.0")) with false. cbv iota. cbn [negb orb]. by rewrite (proj2 (is_empty_false m)).
Qed.

Section jsonrpc.
Context {St : Type} {RP : Rpc St}.

Definition post_request (m : string) (ps : list string) (id : string) : string :=
  "POST /jsonrpc HTTP/1.1" +:+ crlf +:+ crlf +:+ print_request m ps id.
Definition param_ok (p : string) : bool :=
  all_chars json_char_ok p && negb (contains_char " " p || contains_char nl p || contains_char cr p).

Lemma public_command_cases (P : string → Prop) :
  Forall P ["getinfo"; "monetary_info"; "crypto_selftest"; "tx_status"; "peers"; "getblock"; "getblockhash"; "getblockraw"] →
  ∀ m, is_public_read_command m = true → P m.
Proof.
  intros H m (x & Hx & <-%String.eqb_eq)%existsb_exists. rewrite Forall_forall in H. by apply H, list_elem_of_In.
Qed.
Lemma public_not_http m t : is_public_read_command m = true → is_http_rpc_request (m +:+ t) = false.
Proof. revert m. apply public_command_cases. by repeat constructor. Qed.

(** A JSON-RPC call of a public command has the effect of the command line on the text
    interface, its answer is the one there, and it carries the caller's id. *)
Theorem jsonrpc_serves_text s m ps id :
  is_public_read_command m = true → Forall (λ p, param_ok p = true) ps → all_chars json_char_ok id = true →
  let '(s1, r) := dispatch_public_read_rpc s (join_text_command m ps) in
  dispatch_public_read_rpc s (post_request m ps id) =
  (s1, http_rpc_response 200
    (if starts_with "error:" r then jsonrpc_error_body (json_text id) (-32000) r
     else jsonrpc_result_body (json_text id) r) app_json).
Proof.
  intros Hm Hps Hid.
  assert (Hc : all_chars json_char_ok m = true ∧ contains_char " " m || contains_char nl m = false).
  { revert m Hm. apply public_command_cases. by repeat constructor. }
  destruct Hc as [Hj Hc].
  assert (Hp1 : Forall (λ p, all_chars json_char_ok p = true) ps).
  { eapply Forall_impl; [exact Hps|]. unfold param_ok. intros p H. by bools. }
  assert (Hp2 : existsb (λ p, contains_char " " p || contains_char nl p || contains_char cr p) ps = false).
  { apply not_true_iff_false. intros (p & Hin & Hb)%existsb_exists. apply list_elem_of_In in Hin.
    rewrite Forall_forall in Hps. specialize (Hps p Hin). unfold param_ok in Hps. rewrite Hb in Hps. by bools. }
  assert (Ht : dispatch_public_read_rpc s (join_text_command m ps) = handle_command s (join_text_command m ps) false).
  { unfold dispatch_public_read_rpc. rewrite join_token by done. rewrite Hm. cbn [negb].
    destruct (join_text_command_app m ps) as (t & Et & _). rewrite Et, public_not_http; done. }
  rewrite Ht. destruct (handle_command s (join_text_command m ps) false) as [s1 r] eqn:Eh.
  set (body := print_request m ps id).
  assert (Hreq : request_path_query (post_request m ps id) = Some ("POST", "/jsonrpc", "")) by reflexivity.
  assert (Hb : http_body (post_request m ps id) = body) by reflexivity.
  unfold dispatch_public_read_rpc. change (is_http_rpc_request (post_request m ps id)) with true. cbv iota. rewrite Hreq.
  change (String.eqb "POST" "OPTIONS") with false. change (String.eqb "/jsonrpc" "/" || String.eqb "/jsonrpc" "/health") with false.
  change (String.eqb "/jsonrpc" "/jsonrpc" || String.eqb "/jsonrpc" "/jsonrpc/") with true. cbv iota.
  unfold dispatch_jsonrpc. change (String.eqb "POST" "HEAD") with false. change (String.eqb "POST" "GET") with false.
  change (String.eqb "POST" "POST") with true. cbv iota. rewrite Hb. unfold body.
  rewrite parse_print_request by (done || by apply public_command_word).
  unfold dispatch_public_jsonrpc. rewrite Hc, Hm, Hp2, Eh. done.
Qed.
End jsonrpc.
