(* ===== verification/TokenEngine.v ===== *)
(** * Tokens, NFTs and the swap pools ([include/addition/token_engine.hpp],
    [src/token_engine.cpp])

    The maps of the engine are [gmap]s. A reference obtained with [operator[]]
    creates the entry it names; [touch] and [token_at] write that out, and the
    references that alias one entry (a transfer to oneself) are reads and writes of
    the same key. Persistence is in [TokenState]. *)
From S2P Require Import Prelude Strings.

Record Token := mkToken {
  t_name : string;
  t_owner : string;
  decimals : Z;
  burnable : bool;
  dev_wallet : string;
  dev_allocation : Z;
  treasury_wallet : string;
  transfer_fee_bps : Z;
  burn_fee_bps : Z;
  paused : bool;
  max_tx_amount : Z;
  max_wallet_amount : Z;
  t_max_supply : Z;
  total_supply : Z;
  balances : gmap string Z;
  blacklist : gset string;
  fee_exempt : gset string;
}.

Record NftAsset := mkNftAsset { nft_owner : string; metadata : string }.

Record Pool := mkPool {
  token0 : string;
  token1 : string;
  reserve0 : Z;
  reserve1 : Z;
  fee_bps : Z;
  lp_total_supply : Z;
  lp_balances : gmap string Z;
}.

Record TokenEngine := mkTokenEngine {
  tokens : gmap string Token;
  nfts : gmap string (gmap string NftAsset);
  pools : gmap string Pool;
}.

Definition engine_empty : TokenEngine := mkTokenEngine ∅ ∅ ∅.
(** [Token{}]. *)
Definition empty_token : Token := mkToken "" "" 18 false "" 0 "" 0 0 false 0 0 0 0 ∅ ∅ ∅.

(** Writes of one or two fields. *)
Definition set_ledger (supply : Z) (b : gmap string Z) (t : Token) : Token :=
  mkToken (t_name t) (t_owner t) (decimals t) (burnable t) (dev_wallet t) (dev_allocation t)
    (treasury_wallet t) (transfer_fee_bps t) (burn_fee_bps t) (paused t) (max_tx_amount t)
    (max_wallet_amount t) (t_max_supply t) supply b (blacklist t) (fee_exempt t).
Definition set_fees (treasury : string) (tf bf : Z) (p : bool) (t : Token) : Token :=
  mkToken (t_name t) (t_owner t) (decimals t) (burnable t) (dev_wallet t) (dev_allocation t)
    treasury tf bf p (max_tx_amount t) (max_wallet_amount t) (t_max_supply t) (total_supply t)
    (balances t) (blacklist t) (fee_exempt t).
Definition set_lists (bl ex : gset string) (t : Token) : Token :=
  mkToken (t_name t) (t_owner t) (decimals t) (burnable t) (dev_wallet t) (dev_allocation t)
    (treasury_wallet t) (transfer_fee_bps t) (burn_fee_bps t) (paused t) (max_tx_amount t)
    (max_wallet_amount t) (t_max_supply t) (total_supply t) (balances t) bl ex.
Definition set_caps (mt mw : Z) (t : Token) : Token :=
  mkToken (t_name t) (t_owner t) (decimals t) (burnable t) (dev_wallet t) (dev_allocation t)
    (treasury_wallet t) (transfer_fee_bps t) (burn_fee_bps t) (paused t) mt mw (t_max_supply t)
    (total_supply t) (balances t) (blacklist t) (fee_exempt t).
Definition set_pool (r0 r1 lp : Z) (lps : gmap string Z) (p : Pool) : Pool :=
  mkPool (token0 p) (token1 p) r0 r1 (fee_bps p) lp lps.

Definition put_token (s : string) (t : Token) (e : TokenEngine) : TokenEngine :=
  mkTokenEngine (<[s := t]> (tokens e)) (nfts e) (pools e).
Definition put_pool (k : string) (p : Pool) (e : TokenEngine) : TokenEngine :=
  mkTokenEngine (tokens e) (nfts e) (<[k := p]> (pools e)).

(** ** Balances *)

Definition bal (t : Token) (who : string) : Z := map_get0 (balances t) who.
Definition set_bal (who : string) (v : Z) (t : Token) : Token :=
  set_ledger (total_supply t) (<[who := v]> (balances t)) t.
(** [balances[who]] as a reference: the entry exists afterwards. *)
Definition touch (who : string) (t : Token) : Token := set_bal who (bal t who) t.

(** [tokens_[s]]. *)
Definition token_at (e : TokenEngine) (s : string) : Token := default empty_token (tokens e !! s).
Definition touch_token (s who : string) (e : TokenEngine) : TokenEngine :=
  put_token s (touch who (token_at e s)) e.
Definition credit (s who : string) (v : Z) (e : TokenEngine) : TokenEngine :=
  put_token s (set_bal who v (token_at e s)) e.
Definition bal_of (e : TokenEngine) (s who : string) : Z := bal (token_at e s) who.

Definition balance_of (e : TokenEngine) (s who : string) : Z :=
  match tokens e !! s with None => 0 | Some t => default 0 (balances t !! who) end.

(** ** Names and pool keys *)

Definition token_name_ok (name : string) : bool :=
  negb (is_empty name) &&
  all_chars (λ c, negb (Ascii.eqb c "|" || Ascii.eqb c "010" || Ascii.eqb c "013" ||
                        Ascii.eqb c " " || Ascii.eqb c "009")) name.

Definition ordered_pair (a b : string) : option (string * string) :=
  if negb (token_name_ok a) || negb (token_name_ok b) || String.eqb a b then None
  else if str_ltb a b then Some (a, b) else Some (b, a).

(** [""] when the pair is invalid. *)
Definition pool_key (a b : string) : string :=
  match ordered_pair a b with None => "" | Some (t0, t1) => t0 +:+ "|" +:+ t1 end.

(** [isqrt_u64]. [None]: the loop did not end within the fuel, or it divides by
    zero. *)
Fixpoint newton (fuel : nat) (x r prev : Z) : option Z :=
  if r =? prev then Some r
  else
    match fuel with
    | O => None
    | S fuel => if r =? 0 then None else newton fuel x (u64 (r + x / r) / 2) r
    end.
Fixpoint sqrt_up (fuel : nat) (x r : Z) : option Z :=
  if (u64 (r + 1) <=? U64_MAX / u64 (r + 1)) && (u64 (u64 (r + 1) * u64 (r + 1)) <=? x)
  then match fuel with O => None | S fuel => sqrt_up fuel x (u64 (r + 1)) end
  else Some r.
Fixpoint sqrt_down (fuel : nat) (x r : Z) : option Z :=
  if x <? u64 (r * r)
  then match fuel with O => None | S fuel => sqrt_down fuel x (u64 (r - 1)) end
  else Some r.
Definition isqrt_u64 (fuel : nat) (x : Z) : option Z :=
  if x =? 0 then Some 0
  else r ← newton fuel x x 0; r ← sqrt_up fuel x r; sqrt_down fuel x r.

(** ** Tokens *)

(** An early return that leaves the engine [e]. *)
Notation "'fail_if' c 'with' e 'as' m ;; k" := (if c then (e, Err m) else k)
  (at level 10, c at level 99, e at level 99, m at level 99, k at level 200) : addition_scope.

Definition create_token_ex (e : TokenEngine) (symbol name owner : string)
    (max_supply initial_mint decimals : Z) (burnable : bool) (dev_wallet : string)
    (dev_allocation : Z) : TokenEngine * result () :=
  fail_if is_empty symbol || is_empty owner with e as "symbol/owner empty" ;;
  fail_if is_empty name with e as "name empty" ;;
  fail_if 30 <? decimals with e as "decimals too high" ;;
  fail_if max_supply =? 0 with e as "max supply must be > 0" ;;
  fail_if max_supply <? dev_allocation with e as "dev allocation exceeds max supply" ;;
  fail_if (0 <? dev_allocation) && is_empty dev_wallet
    with e as "dev wallet required when dev allocation > 0" ;;
  fail_if U64_MAX - dev_allocation <? initial_mint with e as "initial + dev allocation overflow" ;;
  fail_if max_supply <? initial_mint + dev_allocation
    with e as "initial + dev allocation exceeds max supply" ;;
  fail_if max_supply <? initial_mint with e as "initial mint exceeds max supply" ;;
  fail_if bool_decide (is_Some (tokens e !! symbol)) with e as "token already exists" ;;
  let t := mkToken name owner decimals burnable dev_wallet dev_allocation "" 0 0 false 0 0
             max_supply (initial_mint + dev_allocation) ∅ ∅ ∅ in
  let t := if 0 <? initial_mint then set_bal owner initial_mint t else t in
  let t := if 0 <? dev_allocation then set_bal dev_wallet (u64 (bal t dev_wallet + dev_allocation)) t
           else t in
  (put_token symbol t e, Ok ()).

Definition create_token (e : TokenEngine) (symbol owner : string) (max_supply initial_mint : Z) :
    TokenEngine * result () :=
  create_token_ex e symbol symbol owner max_supply initial_mint 18 false "" 0.

Definition mint (e : TokenEngine) (symbol caller to : string) (amount : Z) : TokenEngine * result () :=
  match tokens e !! symbol with
  | None => (e, Err "token not found")
  | Some t =>
      fail_if negb (String.eqb caller (t_owner t)) with e as "only owner can mint" ;;
      fail_if is_empty to || (amount =? 0) with e as "invalid mint params" ;;
      fail_if U64_MAX - amount <? total_supply t with e as "token supply overflow" ;;
      fail_if t_max_supply t <? total_supply t + amount with e as "token max supply exceeded" ;;
      let t := touch to t in
      fail_if U64_MAX - amount <? bal t to with put_token symbol t e as "recipient balance overflow" ;;
      let t := set_ledger (total_supply t + amount) (balances t) t in
      (put_token symbol (set_bal to (bal t to + amount) t) e, Ok ())
  end.

(** The transfer and burn fees, with the products' wrap-around. *)
Definition transfer_fees (t : Token) (from to : string) (amount : Z) : Z * Z :=
  if bool_decide (from ∈ fee_exempt t) || bool_decide (to ∈ fee_exempt t) then (0, 0)
  else (u64 (amount * transfer_fee_bps t) / 10000, u64 (amount * burn_fee_bps t) / 10000).

Definition transfer (e : TokenEngine) (symbol from to : string) (amount : Z) :
    TokenEngine * result () :=
  match tokens e !! symbol with
  | None => (e, Err "token not found")
  | Some t =>
      fail_if is_empty from || is_empty to || (amount =? 0) with e as "invalid transfer params" ;;
      fail_if paused t with e as "token transfers paused" ;;
      fail_if bool_decide (from ∈ blacklist t) || bool_decide (to ∈ blacklist t)
        with e as "wallet blacklisted" ;;
      fail_if (0 <? max_tx_amount t) && (max_tx_amount t <? amount)
        with e as "amount exceeds max_tx_amount" ;;
      let '(transfer_fee, burn_fee) := transfer_fees t from to amount in
      fail_if amount <? u64 (transfer_fee + burn_fee) with e as "invalid fee policy" ;;
      let receive := amount - transfer_fee - burn_fee in
      let t := touch from t in
      fail_if bal t from <? amount with put_token symbol t e as "insufficient token balance" ;;
      let t := touch to (set_bal from (bal t from - amount) t) in
      fail_if U64_MAX - receive <? bal t to
        with put_token symbol (set_bal from (u64 (bal t from + amount)) t) e
        as "recipient balance overflow" ;;
      let t := set_bal to (bal t to + receive) t in
      let undo t := let t := set_bal from (u64 (bal t from + amount)) t in
                    set_bal to (u64 (bal t to - receive)) t in
      fail_if (0 <? max_wallet_amount t) && (max_wallet_amount t <? bal t to)
        with put_token symbol (undo t) e as "recipient exceeds max_wallet_amount" ;;
      let pays := (0 <? transfer_fee) && negb (is_empty (treasury_wallet t)) in
      let t := if pays then touch (treasury_wallet t) t else t in
      fail_if pays && (U64_MAX - transfer_fee <? bal t (treasury_wallet t))
        with put_token symbol (undo t) e as "treasury balance overflow" ;;
      let t := if pays then set_bal (treasury_wallet t) (bal t (treasury_wallet t) + transfer_fee) t
               else t in
      fail_if (0 <? burn_fee) && (total_supply t <? burn_fee)
        with put_token symbol t e as "burn fee exceeds supply" ;;
      let t := if 0 <? burn_fee then set_ledger (total_supply t - burn_fee) (balances t) t else t in
      (put_token symbol t e, Ok ())
  end.

Definition burn (e : TokenEngine) (symbol from : string) (amount : Z) : TokenEngine * result () :=
  match tokens e !! symbol with
  | None => (e, Err "token not found")
  | Some t =>
      fail_if negb (burnable t) with e as "token is not burnable" ;;
      fail_if is_empty from || (amount =? 0) with e as "invalid burn params" ;;
      let t := touch from t in
      fail_if bal t from <? amount with put_token symbol t e as "insufficient token balance" ;;
      let t := set_bal from (bal t from - amount) t in
      (put_token symbol (set_ledger (u64 (total_supply t - amount)) (balances t) t) e, Ok ())
  end.

(** The owner's settings. *)
Definition set_policy (e : TokenEngine) (symbol caller treasury : string) (tf bf : Z) (p : bool) :
    TokenEngine * result () :=
  match tokens e !! symbol with
  | None => (e, Err "token not found")
  | Some t =>
      fail_if negb (String.eqb caller (t_owner t)) with e as "only owner can set policy" ;;
      fail_if 2000 <? u64 (tf + bf) with e as "total fee bps too high (>2000)" ;;
      (put_token symbol (set_fees treasury tf bf p t) e, Ok ())
  end.

Definition set_blacklist (e : TokenEngine) (symbol caller wallet : string) (blocked : bool) :
    TokenEngine * result () :=
  match tokens e !! symbol with
  | None => (e, Err "token not found")
  | Some t =>
      fail_if negb (String.eqb caller (t_owner t)) with e as "only owner can set blacklist" ;;
      fail_if is_empty wallet with e as "wallet empty" ;;
      let bl := if blocked then {[wallet]} ∪ blacklist t else blacklist t ∖ {[wallet]} in
      (put_token symbol (set_lists bl (fee_exempt t) t) e, Ok ())
  end.

Definition set_fee_exempt (e : TokenEngine) (symbol caller wallet : string) (exempt : bool) :
    TokenEngine * result () :=
  match tokens e !! symbol with
  | None => (e, Err "token not found")
  | Some t =>
      fail_if negb (String.eqb caller (t_owner t)) with e as "only owner can set fee exemption" ;;
      fail_if is_empty wallet with e as "wallet empty" ;;
      let ex := if exempt then {[wallet]} ∪ fee_exempt t else fee_exempt t ∖ {[wallet]} in
      (put_token symbol (set_lists (blacklist t) ex t) e, Ok ())
  end.

Definition set_limits (e : TokenEngine) (symbol caller : string) (mt mw : Z) :
    TokenEngine * result () :=
  match tokens e !! symbol with
  | None => (e, Err "token not found")
  | Some t =>
      fail_if negb (String.eqb caller (t_owner t)) with e as "only owner can set limits" ;;
      (put_token symbol (set_caps mt mw t) e, Ok ())
  end.

(** ** NFTs *)

Definition put_collection (col : string) (m : gmap string NftAsset) (e : TokenEngine) : TokenEngine :=
  mkTokenEngine (tokens e) (<[col := m]> (nfts e)) (pools e).

Definition mint_nft (e : TokenEngine) (collection token_id owner meta : string) :
    TokenEngine * result () :=
  fail_if is_empty collection || is_empty token_id || is_empty owner
    with e as "invalid nft mint params" ;;
  let col := default ∅ (nfts e !! collection) in
  fail_if bool_decide (is_Some (col !! token_id))
    with put_collection collection col e as "nft already exists" ;;
  (put_collection collection (<[token_id := mkNftAsset owner meta]> col) e, Ok ()).

Definition transfer_nft (e : TokenEngine) (collection token_id from to : string) :
    TokenEngine * result () :=
  match nfts e !! collection with
  | None => (e, Err "collection not found")
  | Some col =>
      match col !! token_id with
      | None => (e, Err "nft not found")
      | Some a =>
          fail_if is_empty from || is_empty to with e as "invalid nft transfer params" ;;
          fail_if negb (String.eqb (nft_owner a) from) with e as "not nft owner" ;;
          (put_collection collection (<[token_id := mkNftAsset to (metadata a)]> col) e, Ok ())
      end
  end.

Definition nft_owner_of (e : TokenEngine) (collection token_id : string) : string :=
  match nfts e !! collection ≫= λ col, col !! token_id with
  | Some a => nft_owner a
  | None => ""
  end.

(** ** Pools *)

Definition create_pool (e : TokenEngine) (token_a token_b : string) (fee : Z) :
    TokenEngine * result () :=
  match ordered_pair token_a token_b with
  | None => (e, Err "invalid token pair")
  | Some (t0, t1) =>
      fail_if bool_decide (tokens e !! t0 = None) || bool_decide (tokens e !! t1 = None)
        with e as "pool tokens must exist" ;;
      fail_if 10000 <=? fee with e as "fee_bps must be in [0,9999]" ;;
      let key := pool_key t0 t1 in
      fail_if is_empty key || bool_decide (is_Some (pools e !! key))
        with e as (if is_empty key then "invalid token pair" else "pool already exists") ;;
      (put_pool key (mkPool t0 t1 0 0 fee 0 ∅) e, Ok ())
  end.

Definition touch_lp (who : string) (p : Pool) : Pool :=
  set_pool (reserve0 p) (reserve1 p) (lp_total_supply p)
    (<[who := map_get0 (lp_balances p) who]> (lp_balances p)) p.

(** The LP tokens a deposit mints. [None]: [isqrt_u64] does not return. *)
Definition lp_minted (fuel : nat) (p : Pool) (add0 add1 : Z) : option (result Z) :=
  if lp_total_supply p =? 0 then
    if U64_MAX / add1 <? add0 then Some (Err "liquidity product overflow")
    else
      minted ← isqrt_u64 fuel (add0 * add1);
      Some (reject_if minted =? 0 as "liquidity too small" ;; Ok minted)
  else
    Some (
      reject_if (reserve0 p =? 0) || (reserve1 p =? 0) as "invalid pool reserves" ;;
      reject_if (U64_MAX / reserve1 p <? add0) || (U64_MAX / add1 <? reserve0 p)
        as "liquidity ratio overflow" ;;
      reject_if negb (add0 * reserve1 p =? add1 * reserve0 p)
        as "liquidity amounts must match pool ratio" ;;
      let lp0 := u64 (add0 * lp_total_supply p) / reserve0 p in
      let lp1 := u64 (add1 * lp_total_supply p) / reserve1 p in
      let minted := Z.min lp0 lp1 in
      reject_if minted =? 0 as "liquidity too small" ;;
      Ok minted).

Definition add_liquidity (fuel : nat) (e : TokenEngine) (token_a token_b provider : string)
    (amount_a amount_b : Z) : option (TokenEngine * result ()) :=
  if is_empty provider || (amount_a =? 0) || (amount_b =? 0)
  then Some (e, Err "invalid liquidity params")
  else
    let key := pool_key token_a token_b in
    match pools e !! key with
    | None => Some (e, Err "pool not found")
    | Some p =>
        let a_is_0 := String.eqb token_a (token0 p) in
        let add0 := if a_is_0 then amount_a else amount_b in
        let add1 := if a_is_0 then amount_b else amount_a in
        let e := touch_token (token1 p) provider (touch_token (token0 p) provider e) in
        if (bal_of e (token0 p) provider <? add0) || (bal_of e (token1 p) provider <? add1)
        then Some (e, Err "insufficient token balance for liquidity")
        else
          r ← lp_minted fuel p add0 add1;
          match r with
          | Err m => Some (e, Err m)
          | Ok minted =>
              let p' := touch_lp provider p in
              (* the checks before the last conjunct decide whether the entry is created *)
              let over := (U64_MAX - add0 <? reserve0 p) || (U64_MAX - add1 <? reserve1 p) ||
                          (U64_MAX - minted <? lp_total_supply p) in
              if over then Some (e, Err "pool state overflow")
              else if U64_MAX - minted <? map_get0 (lp_balances p) provider
              then Some (put_pool key p' e, Err "pool state overflow")
              else
                let e := credit (token0 p) provider (bal_of e (token0 p) provider - add0) e in
                let e := credit (token1 p) provider (bal_of e (token1 p) provider - add1) e in
                let p := set_pool (reserve0 p + add0) (reserve1 p + add1) (lp_total_supply p + minted)
                           (<[provider := map_get0 (lp_balances p) provider + minted]> (lp_balances p)) p in
                Some (put_pool key p e, Ok ())
          end
    end.

Definition remove_liquidity (e : TokenEngine) (token_a token_b provider : string) (lp_amount : Z) :
    TokenEngine * result (Z * Z) :=
  fail_if is_empty provider || (lp_amount =? 0) with e as "invalid remove params" ;;
  let key := pool_key token_a token_b in
  match pools e !! key with
  | None => (e, Err "pool not found")
  | Some p =>
      let p := touch_lp provider p in
      let lp_bal := map_get0 (lp_balances p) provider in
      fail_if (lp_bal <? lp_amount) || (lp_total_supply p =? 0)
        with put_pool key p e as "insufficient lp balance" ;;
      let take0 := u64 (reserve0 p * lp_amount) / lp_total_supply p in
      let take1 := u64 (reserve1 p * lp_amount) / lp_total_supply p in
      fail_if (take0 =? 0) || (take1 =? 0) with put_pool key p e as "lp amount too small" ;;
      let e0 := touch_token (token0 p) provider e in
      fail_if U64_MAX - take0 <? bal_of e0 (token0 p) provider
        with put_pool key p e0 as "provider balance overflow" ;;
      let e1 := touch_token (token1 p) provider e0 in
      fail_if U64_MAX - take1 <? bal_of e1 (token1 p) provider
        with put_pool key p e1 as "provider balance overflow" ;;
      let p' := set_pool (reserve0 p - take0) (reserve1 p - take1) (lp_total_supply p - lp_amount)
                  (<[provider := lp_bal - lp_amount]> (lp_balances p)) p in
      let e := credit (token0 p) provider (bal_of e1 (token0 p) provider + take0) e1 in
      let e := credit (token1 p) provider (bal_of e (token1 p) provider + take1) e in
      (put_pool key p' e,
       Ok (if String.eqb token_a (token0 p) then (take0, take1) else (take1, take0)))
  end.

(** ** Quotes and swaps *)

(** The reserves seen from the input side. *)
Definition reserve_in (p : Pool) (token_in : string) : Z :=
  if String.eqb token_in (token0 p) then reserve0 p else reserve1 p.
Definition reserve_out (p : Pool) (token_in : string) : Z :=
  if String.eqb token_in (token0 p) then reserve1 p else reserve0 p.

Definition quote_exact_in (e : TokenEngine) (token_in token_out : string) (amount_in : Z) : result Z :=
  reject_if (amount_in =? 0) || is_empty token_in || is_empty token_out || String.eqb token_in token_out
    as "invalid quote params" ;;
  match pools e !! pool_key token_in token_out with
  | None => Err "pool not found"
  | Some p =>
      let rin := reserve_in p token_in in
      let rout := reserve_out p token_in in
      reject_if (rin =? 0) || (rout =? 0) as "pool has no liquidity" ;;
      let fee_multiplier := u64 (10000 - fee_bps p) in
      reject_if U64_MAX / fee_multiplier <? amount_in as "quote overflow" ;;
      let amount_in_with_fee := amount_in * fee_multiplier in
      reject_if amount_in_with_fee =? 0 as "amount too small after fee" ;;
      reject_if U64_MAX / rout <? amount_in_with_fee as "quote overflow" ;;
      let num := amount_in_with_fee * rout in
      reject_if U64_MAX / 10000 <? rin as "quote overflow" ;;
      let base_den := rin * 10000 in
      reject_if U64_MAX - amount_in_with_fee <? base_den as "quote overflow" ;;
      let den := base_den + amount_in_with_fee in
      reject_if den =? 0 as "quote denominator zero" ;;
      let amount_out := num / den in
      reject_if (amount_out =? 0) || (rout <=? amount_out) as "insufficient output amount" ;;
      Ok amount_out
  end.

(** The pool after [amount_in] of [token_in] went in and [amount_out] came out. *)
Definition swap_reserves (p : Pool) (token_in : string) (amount_in amount_out : Z) : Pool :=
  if String.eqb token_in (token0 p)
  then set_pool (reserve0 p + amount_in) (reserve1 p - amount_out) (lp_total_supply p) (lp_balances p) p
  else set_pool (reserve0 p - amount_out) (reserve1 p + amount_in) (lp_total_supply p) (lp_balances p) p.

Definition swap_exact_in (e : TokenEngine) (token_in token_out trader : string)
    (amount_in min_out : Z) : TokenEngine * result Z :=
  fail_if is_empty trader with e as "trader empty" ;;
  match quote_exact_in e token_in token_out amount_in with
  | Err m => (e, Err m)
  | Ok amount_out =>
      fail_if amount_out <? min_out with e as "slippage exceeded" ;;
      let key := pool_key token_in token_out in
      match pools e !! key with
      | None => (e, Err "pool not found")
      | Some p =>
          let e := touch_token token_in trader e in
          fail_if bal_of e token_in trader <? amount_in with e as "insufficient input token balance" ;;
          fail_if reserve_out p token_in <=? amount_out with e as "insufficient pool reserve" ;;
          let e := touch_token token_out trader e in
          fail_if (U64_MAX - amount_out <? bal_of e token_out trader) ||
                  (U64_MAX - amount_in <? reserve_in p token_in)
            with e as "swap state overflow" ;;
          let e := credit token_in trader (bal_of e token_in trader - amount_in) e in
          let e := credit token_out trader (bal_of e token_out trader + amount_out) e in
          (put_pool key (swap_reserves p token_in amount_in amount_out) e, Ok amount_out)
      end
  end.

Fixpoint quote_route_from (e : TokenEngine) (i : Z) (route : list string) (running : Z) : result Z :=
  match route with
  | a :: ((b :: _) as rest) =>
      match quote_exact_in e a b running with
      | Err m => Err ("route hop " +:+ to_string i +:+ " failed: " +:+ m)
      | Ok out => quote_route_from e (i + 1) rest out
      end
  | _ => Ok running
  end.
Definition quote_route_exact_in (e : TokenEngine) (route : list string) (amount_in : Z) : result Z :=
  reject_if (length route <? 2)%nat as "route must contain at least 2 tokens" ;;
  reject_if amount_in =? 0 as "amount_in must be > 0" ;;
  quote_route_from e 0 route amount_in.

(** The hop loop; only the last hop carries the caller's minimum. *)
Fixpoint swap_route_from (e : TokenEngine) (i : Z) (route : list string) (trader : string)
    (running min_out : Z) : TokenEngine * result Z :=
  match route with
  | a :: ((b :: rest') as rest) =>
      let hop_min := if bool_decide (rest' = []) then min_out else 1 in
      match swap_exact_in e a b trader running hop_min with
      | (e, Err m) => (e, Err ("route swap hop " +:+ to_string i +:+ " failed: " +:+ m))
      | (e, Ok out) => swap_route_from e (i + 1) rest trader out min_out
      end
  | _ => (e, Ok running)
  end.
Definition swap_route_exact_in (e : TokenEngine) (route : list string) (trader : string)
    (amount_in min_out : Z) : TokenEngine * result Z :=
  fail_if is_empty trader with e as "trader empty" ;;
  match quote_route_exact_in e route amount_in with
  | Err m => (e, Err m)
  | Ok quoted =>
      fail_if quoted <? min_out with e as "slippage exceeded on route" ;;
      let e := touch_token (hd "" route) trader e in
      fail_if bal_of e (hd "" route) trader <? amount_in with e as "insufficient input token balance" ;;
      match swap_route_from e 0 route trader amount_in min_out with
      | (e', Err m) => (mkTokenEngine (tokens e) (nfts e') (pools e), Err m)
      | (e', Ok out) => (e', Ok out)
      end
  end.

Definition swap_tvl_step (sum : Z) (p : Pool) : Z :=
  if U64_MAX - reserve0 p <? sum then U64_MAX
  else let sum := sum + reserve0 p in
       if U64_MAX - reserve1 p <? sum then U64_MAX else sum + reserve1 p.
(** In any order of the pools: once saturated, the sum stays saturated. *)
Definition swap_tvl (e : TokenEngine) : Z := foldl swap_tvl_step 0 ((map_to_list (pools e)).*2).

(** ** The route search *)

Record Best := mkBest {
  best_out : Z;
  best_score : Z;
  best_liquidity : Z;
  best_route : list string;
}.

(** [kHopPenaltyBps] per hop after the first. *)
Definition route_score (q : Z) (hops : nat) : Z :=
  u64 (q * (10000 - Z.min 9999 (7 * (Z.of_nat hops - 1)))) / 10000.

Fixpoint bottleneck_from (e : TokenEngine) (liq : Z) (route : list string) : Z :=
  match route with
  | a :: ((b :: _) as rest) =>
      match pools e !! pool_key a b with
      | None => 0
      | Some p => bottleneck_from e (Z.min liq (reserve_in p a)) rest
      end
  | _ => liq
  end.

Definition consider (e : TokenEngine) (current : list string) (q : Z) (best : Best) : Best :=
  let score := route_score q (length current - 1) in
  let liq := bottleneck_from e U64_MAX current in
  if (best_score best <? score) ||
     ((score =? best_score best) && (best_out best <? q)) ||
     ((score =? best_score best) && (q =? best_out best) && (best_liquidity best <? liq))
  then mkBest q score liq current else best.

(** [hops] is [max_hops - depth]; [used] holds exactly the tokens of [current]. *)
Fixpoint dfs (hops : nat) (e : TokenEngine) (all : list string) (token_out : string)
    (current : list string) (running : Z) (best : Best) : Best :=
  let cur := List.last current "" in
  if String.eqb cur token_out && (2 <=? length current)%nat then consider e current running best
  else
    match hops with
    | O => best
    | S hops =>
        foldl (λ best nxt,
          if bool_decide (nxt ∈ current) then best
          else
            match quote_exact_in e cur nxt running with
            | Err _ => best
            | Ok out => dfs hops e all token_out (current ++ [nxt]) out best
            end) best all
    end.

(** [all] is the iteration order of [tokens_]. *)
Definition best_route_exact_in (e : TokenEngine) (all : list string) (token_in token_out : string)
    (amount_in : Z) (max_hops : nat) : result (list string * Z) :=
  reject_if is_empty token_in || is_empty token_out || String.eqb token_in token_out
    as "invalid token pair" ;;
  reject_if amount_in =? 0 as "amount_in must be > 0" ;;
  let max_hops := Nat.min 4 (Nat.max 1 max_hops) in
  let best := dfs max_hops e all token_out [token_in] amount_in (mkBest 0 0 0 []) in
  reject_if bool_decide (best_route best = []) || (best_out best =? 0) as "no viable route" ;;
  Ok (best_route best, best_out best).
