(* ===== verification/TokenProofs.v ===== *)
(** * Tokens and pools: square root, conservation, swaps

    When [isqrt_u64] returns and what; the ledger invariant of the engine over all
    its operations; the swap formula, the constant product and the atomicity of
    routes. *)
From S2P Require Import Prelude Strings TokenEngine.

(** ** The integer square root *)

Section isqrt.
Context (x : Z) (Hx : 0 < x < W64).
Let s := Z.sqrt x.

Lemma sqrt_bounds : 1 ≤ s ∧ s * s ≤ x ∧ x < (s + 1) * (s + 1).
Proof.
  pose proof (Z.sqrt_spec x ltac:(lia)) as [H1 H2]. fold s in H1, H2. unfold Z.succ in H2.
  assert (0 < s) by (apply Z.sqrt_pos; lia). split_and!; [lia|exact H1|exact H2].
Qed.

(** One Newton step, in unbounded integers. *)
Definition newton_step (r : Z) : Z := (r + x / r) / 2.

Lemma div_bounds r : 0 < r → r * (x / r) ≤ x < r * (x / r + 1).
Proof. intros Hr. pose proof (Z.div_mod x r ltac:(lia)). pose proof (Z.mod_pos_bound x r Hr). lia. Qed.

Lemma newton_step_lower r : 0 < r → s ≤ newton_step r.
Proof.
  intros Hr. destruct sqrt_bounds as (H1 & H2 & H3). pose proof (div_bounds r Hr).
  apply Z.div_le_lower_bound; [lia|]. set (q := x / r) in *.
  destruct (Z.le_gt_cases (2 * s) (r + q)) as [|Hlt]; [lia|exfalso].
  assert (0 ≤ q) by (apply Z.div_pos; lia).
  assert (4 * (r * (q + 1)) ≤ (r + (q + 1)) * (r + (q + 1))).
  { pose proof (Z.square_nonneg (r - (q + 1))). lia. }
  assert ((r + (q + 1)) * (r + (q + 1)) ≤ (2 * s) * (2 * s)) by (apply Z.mul_le_mono_nonneg; lia).
  lia.
Qed.
Lemma newton_step_decreases r : s < r → newton_step r < r.
Proof.
  intros Hr. destruct sqrt_bounds as (H1 & H2 & H3). pose proof (div_bounds r ltac:(lia)).
  assert (x / r ≤ s) by (enough (x / r < s + 1) by lia; apply Z.div_lt_upper_bound; nia).
  apply Z.div_lt_upper_bound; lia.
Qed.
Lemma newton_step_upper r : 0 < r ≤ x → r + x / r ≤ x + 1 ∧ newton_step r ≤ x.
Proof.
  intros Hr. pose proof (div_bounds r ltac:(lia)).
  assert (r + x / r ≤ x + 1).
  { assert (0 ≤ x / r) by (apply Z.div_pos; lia).
    destruct (Z.eq_dec r 1) as [->|]; [rewrite Z.div_1_r; lia|].
    assert (x / r * r ≤ x) by lia. nia. }
  split; [done|]. apply Z.div_le_upper_bound; lia.
Qed.
Lemma newton_step_fix : (∀ n, 2 ≤ n → x ≠ n * n - 1) → newton_step s = s.
Proof.
  intros Hn. destruct sqrt_bounds as (H1 & H2 & H3). pose proof (div_bounds s ltac:(lia)).
  pose proof (Hn (s + 1) ltac:(lia)). unfold newton_step.
  assert (x / s < s + 2) by (apply Z.div_lt_upper_bound; nia).
  assert (s ≤ x / s) by (apply Z.div_le_lower_bound; nia).
  destruct (Z.eq_dec (x / s) s) as [->|]; symmetry; [apply (Z.div_unique _ _ _ 0); lia|].
  apply (Z.div_unique _ _ _ 1); lia.
Qed.
Lemma newton_step_no_fix n r : 2 ≤ n → x = n * n - 1 → s ≤ r → newton_step r ≠ r.
Proof.
  intros Hn He Hr. destruct (Z.eq_dec r s) as [->|]; [|pose proof (newton_step_decreases r); lia].
  destruct sqrt_bounds as (H1 & H2 & H3).
  assert (s = n - 1) as Hs by nia. unfold newton_step.
  assert (x / s = s + 2) as -> by (symmetry; apply (Z.div_unique _ _ _ 0); nia).
  assert ((s + (s + 2)) / 2 = s + 1) as ->; [|lia]. symmetry. apply (Z.div_unique _ _ _ 0); lia.
Qed.

Lemma newton_unfold fuel r prev :
  r ≠ prev → 0 < r ≤ x → x < W64 - 1 → newton (S fuel) x r prev = newton fuel x (newton_step r) r.
Proof.
  intros Hne Hr Hw. cbn [newton]. destruct (Z.eqb_spec r prev); [done|].
  destruct (Z.eqb_spec r 0); [lia|]. pose proof (newton_step_upper r Hr).
  assert (0 ≤ x / r) by (apply Z.div_pos; lia).
  rewrite u64_small; [done|]. unfold is_u64. lia.
Qed.

Lemma newton_result fuel r v :
  x < W64 - 1 → s ≤ r ≤ x → newton fuel x (newton_step r) r = Some v → v = s.
Proof.
  intros Hw. destruct sqrt_bounds as (H1 & _). revert r. induction fuel as [|fuel IH]; intros r Hr.
  - cbn [newton]. destruct (Z.eqb_spec (newton_step r) r) as [He|]; [|done]. intros [= <-].
    pose proof (newton_step_decreases r). lia.
  - destruct (Z.eq_dec (newton_step r) r) as [He|Hne].
    + cbn [newton]. rewrite (proj2 (Z.eqb_eq _ _) He). intros [= <-].
      pose proof (newton_step_decreases r). lia.
    + pose proof (newton_step_lower r ltac:(lia)). pose proof (newton_step_upper r ltac:(lia)).
      rewrite newton_unfold by lia. apply IH. lia.
Qed.
Lemma newton_returns r :
  (∀ n, 2 ≤ n → x ≠ n * n - 1) → x < W64 - 1 → s ≤ r ≤ x →
  ∃ fuel, newton fuel x (newton_step r) r = Some s.
Proof.
  intros Hn Hw. destruct sqrt_bounds as (H1 & _). intros Hr.
  enough (Hgen : ∀ m, 0 ≤ m → ∀ r, r - s = m → r ≤ x →
    ∃ fuel, newton fuel x (newton_step r) r = Some s) by (apply (Hgen (r - s)); lia).
  clear r Hr. intros m Hm. pattern m. apply Zlt_0_ind; [|done]. clear m Hm. intros m IH H0 r <- Hr.
  destruct (Z.eq_dec r s) as [->|].
  { exists O. cbn [newton]. rewrite newton_step_fix by done. by rewrite Z.eqb_refl. }
  pose proof (newton_step_lower r ltac:(lia)). pose proof (newton_step_decreases r ltac:(lia)).
  pose proof (newton_step_upper r ltac:(lia)).
  destruct (IH (newton_step r - s) ltac:(lia) (newton_step r) eq_refl ltac:(lia)) as [fuel Hf].
  exists (S fuel). rewrite newton_unfold by lia. done.
Qed.
End isqrt.

Lemma newton_max fuel : newton fuel (W64 - 1) (W64 - 1) 0 = None.
Proof. destruct fuel as [|[|fuel]]; vm_compute; reflexivity. Qed.

(** On an [x] one below a square, the Newton loop alternates between two values (or
    divides by zero, for the largest [x]). *)
Lemma newton_diverges n x fuel :
  0 < x < W64 → 2 ≤ n → x = n * n - 1 → newton fuel x x 0 = None.
Proof.
  intros Hx Hn He. destruct (Z.eq_dec x (W64 - 1)) as [->|]; [apply newton_max|].
  destruct (sqrt_bounds x Hx) as (H1 & H2 & _). assert (Z.sqrt x ≤ x) by nia.
  assert (Hgen : ∀ fuel r, Z.sqrt x ≤ r ≤ x → newton fuel x (newton_step x r) r = None).
  { clear fuel. induction fuel as [|fuel IH]; intros r Hr.
    - pose proof (newton_step_no_fix x Hx n r Hn He ltac:(lia)). cbn [newton].
      by destruct (Z.eqb_spec (newton_step x r) r).
    - pose proof (newton_step_no_fix x Hx n r Hn He ltac:(lia)).
      pose proof (newton_step_lower x Hx r ltac:(lia)). pose proof (newton_step_upper x Hx r ltac:(lia)).
      rewrite newton_unfold by lia. apply IH. lia. }
  destruct fuel as [|fuel]; [cbn [newton]; by destruct (Z.eqb_spec x 0); [lia|]|].
  rewrite newton_unfold by lia. apply Hgen. lia.
Qed.

Lemma sqrt_up_done fuel x : 0 < x < W64 → sqrt_up fuel x (Z.sqrt x) = Some (Z.sqrt x).
Proof.
  intros Hx. destruct (sqrt_bounds x Hx) as (H1 & H2 & H3). set (s := Z.sqrt x) in *.
  assert (s < W32) by nia.
  assert (H4 : (u64 (s + 1) <=? U64_MAX / u64 (s + 1)) && (u64 (u64 (s + 1) * u64 (s + 1)) <=? x) = false).
  { rewrite (u64_small (s + 1)) by (unfold is_u64; lia).
    apply andb_false_iff. destruct (Z.leb_spec (s + 1) (U64_MAX / (s + 1))) as [Hle|]; [right|by left].
    assert ((s + 1) * (s + 1) ≤ U64_MAX).
    { pose proof (Z.mul_div_le U64_MAX (s + 1) ltac:(lia)). nia. }
    rewrite u64_small by (unfold is_u64; nia). apply Z.leb_gt. lia. }
  destruct fuel; cbn [sqrt_up]; by rewrite H4.
Qed.
Lemma sqrt_down_done fuel x : 0 < x < W64 → sqrt_down fuel x (Z.sqrt x) = Some (Z.sqrt x).
Proof.
  intros Hx. destruct (sqrt_bounds x Hx) as (H1 & H2 & H3). set (s := Z.sqrt x) in *.
  assert (H4 : (x <? u64 (s * s)) = false).
  { rewrite u64_small by (unfold is_u64; nia). apply Z.ltb_ge. lia. }
  destruct fuel; cbn [sqrt_down]; by rewrite H4.
Qed.

Lemma newton_exact fuel x r :
  0 < x < W64 → newton fuel x x 0 = Some r → r = Z.sqrt x.
Proof.
  intros Hx Hr. destruct (Z.eq_dec x (W64 - 1)) as [->|]; [by rewrite newton_max in Hr|].
  destruct (sqrt_bounds x Hx) as (H1 & H2 & H3). assert (Z.sqrt x ≤ x) by nia.
  destruct fuel as [|fuel].
  - cbn [newton] in Hr. by destruct (Z.eqb_spec x 0); [lia|].
  - rewrite newton_unfold in Hr by lia. by eapply newton_result in Hr; [|lia..].
Qed.

Lemma isqrt_u64_value fuel x r : is_u64 x → isqrt_u64 fuel x = Some r → r = Z.sqrt x.
Proof.
  intros Hu. unfold isqrt_u64. destruct (Z.eqb_spec x 0) as [->|Hne]; [by intros [= <-]|].
  assert (Hx : 0 < x < W64) by (unfold is_u64 in Hu; lia).
  intros Hr. apply bind_Some in Hr as (r1 & Hn & Hr). apply newton_exact in Hn as ->; [|done].
  rewrite sqrt_up_done in Hr by done. cbn [mbind option_bind] in Hr.
  rewrite sqrt_down_done in Hr by done. by injection Hr.
Qed.

(** One below a square the loop never ends. *)
Lemma isqrt_diverges n fuel : 2 ≤ n → is_u64 (n * n - 1) → isqrt_u64 fuel (n * n - 1) = None.
Proof.
  intros Hn Hu. unfold isqrt_u64. destruct (Z.eqb_spec (n * n - 1) 0); [nia|].
  rewrite (newton_diverges n); [done|unfold is_u64 in Hu; nia|done|done].
Qed.

(** [isqrt_u64] is exact when it returns, and it returns on all arguments but those
    one below a square: there its loop never ends, for any number of iterations. *)
Theorem isqrt_u64_spec x :
  is_u64 x →
  (∀ fuel r, isqrt_u64 fuel x = Some r → r = Z.sqrt x) ∧
  ((∃ fuel, isqrt_u64 fuel x = Some (Z.sqrt x)) ↔ ∀ n, 2 ≤ n → x ≠ n * n - 1).
Proof.
  intros Hu. split; [intros fuel r; by apply isqrt_u64_value|]. unfold isqrt_u64.
  destruct (Z.eqb_spec x 0) as [->|Hne]; [by split; [intros _ n Hn; nia|exists O]|].
  assert (Hx : 0 < x < W64) by (unfold is_u64 in Hu; lia).
  destruct (sqrt_bounds x Hx) as (H1 & H2 & H3). assert (Z.sqrt x ≤ x) by nia. split.
  - intros [fuel Hr] n Hn He. by rewrite (newton_diverges n) in Hr.
  - intros Hn. assert (x ≠ W64 - 1) by (apply (Hn W32); lia).
    destruct (newton_returns x Hx x Hn) as [fuel Hf]; [lia..|]. exists (S fuel).
    rewrite newton_unfold, Hf by lia. cbn [mbind option_bind]. rewrite sqrt_up_done by done.
    by apply sqrt_down_done.
Qed.

(** ** Ledgers *)

Definition nonneg (m : gmap string Z) : Prop := ∀ k v, m !! k = Some v → 0 ≤ v.
(** All balances of a token. *)
Definition ledger (t : Token) : Z := map_sum (λ v, v) (balances t).

Lemma map_get0_insert (m : gmap string Z) k v j :
  map_get0 (<[k := v]> m) j = if decide (k = j) then v else map_get0 m j.
Proof.
  unfold map_get0. case_decide; [subst; by rewrite lookup_insert_eq|by rewrite lookup_insert_ne].
Qed.
Lemma map_sum_get0 (m : gmap string Z) k v :
  map_sum (λ v, v) (<[k := v]> m) = map_sum (λ v, v) m + v - map_get0 m k.
Proof.
  rewrite map_sum_insert. unfold map_get0. destruct (m !! k); cbn; lia.
Qed.
Lemma nonneg_insert m k v : nonneg m → 0 ≤ v → nonneg (<[k := v]> m).
Proof. intros Hm Hv j w [[_ <-]|[_ H]]%lookup_insert_Some; [done|by eapply Hm]. Qed.
Lemma get0_bounds m k : nonneg m → 0 ≤ map_get0 m k ≤ map_sum (λ v, v) m.
Proof.
  intros Hm. split.
  - unfold map_get0. destruct (m !! k) eqn:E; cbn; [by eapply Hm|lia].
  - rewrite <-contrib_id. by apply map_sum_contrib_le.
Qed.

Definition fine (t : Token) : Prop := nonneg (balances t).

Lemma bal_set who v t w : bal (set_bal who v t) w = if decide (who = w) then v else bal t w.
Proof. apply map_get0_insert. Qed.
Lemma ledger_set who v t : ledger (set_bal who v t) = ledger t + v - bal t who.
Proof. apply map_sum_get0. Qed.
Lemma fine_set who v t : fine t → 0 ≤ v → fine (set_bal who v t).
Proof. apply nonneg_insert. Qed.
Lemma bal_bounds t who : fine t → 0 ≤ bal t who ≤ ledger t.
Proof. apply get0_bounds. Qed.

Lemma bal_touch who t w : bal (touch who t) w = bal t w.
Proof. unfold touch. rewrite bal_set. by case_decide; subst. Qed.
Lemma ledger_touch who t : ledger (touch who t) = ledger t.
Proof. unfold touch. rewrite ledger_set. lia. Qed.
Lemma fine_touch who t : fine t → fine (touch who t).
Proof. intros Ht. apply fine_set; [done|]. by apply bal_bounds. Qed.

Lemma ledger_supply n t : ledger (set_ledger n (balances t) t) = ledger t.
Proof. done. Qed.
Lemma bal_supply n t who : bal (set_ledger n (balances t) t) who = bal t who.
Proof. done. Qed.

(** ** The engine's invariant *)

(** What the pools hold of token [s]. *)
Definition pool_holds (s : string) (p : Pool) : Z :=
  (if decide (token0 p = s) then reserve0 p else 0) + (if decide (token1 p = s) then reserve1 p else 0).
Definition pooled (e : TokenEngine) (s : string) : Z := map_sum (pool_holds s) (pools e).

(** A token of which the pools hold [held]. *)
Definition token_ok (held : Z) (t : Token) : Prop :=
  fine t ∧ ledger t + held ≤ total_supply t ∧ total_supply t ≤ t_max_supply t ∧ is_u64 (t_max_supply t).

Definition pool_ok (e : TokenEngine) (k : string) (p : Pool) : Prop :=
  k = token0 p +:+ "|" +:+ token1 p ∧
  ordered_pair (token0 p) (token1 p) = Some (token0 p, token1 p) ∧ token0 p ≠ token1 p ∧
  is_Some (tokens e !! token0 p) ∧ is_Some (tokens e !! token1 p) ∧
  0 ≤ reserve0 p ∧ 0 ≤ reserve1 p ∧ 0 ≤ fee_bps p < 10000 ∧
  nonneg (lp_balances p) ∧ map_sum (λ v, v) (lp_balances p) = lp_total_supply p.

Definition engine_ok (e : TokenEngine) : Prop :=
  (∀ s t, tokens e !! s = Some t → token_ok (pooled e s) t) ∧
  (∀ k p, pools e !! k = Some p → pool_ok e k p).

Lemma pool_holds_nonneg e : engine_ok e → ∀ s k p, pools e !! k = Some p → 0 ≤ pool_holds s p.
Proof.
  intros [_ Hp] s k p (_ & _ & _ & _ & _ & ? & ? & _)%Hp. unfold pool_holds. repeat case_decide; lia.
Qed.
Lemma pooled_nonneg e s : engine_ok e → 0 ≤ pooled e s.
Proof. intros H. apply map_sum_nonneg. by apply pool_holds_nonneg. Qed.

Lemma pooled_absent e s : engine_ok e → tokens e !! s = None → pooled e s = 0.
Proof.
  intros [_ Hp] Hs. unfold pooled, map_sum. etrans; [apply (list_sum_ext _ (λ _, 0))|].
  - intros [k p] Hin%elem_of_map_to_list. apply Hp in Hin as (_ & _ & _ & [] & [] & _).
    unfold pool_holds. cbn [snd]. repeat case_decide; subst; congruence || lia.
  - by induction (map_to_list (pools e)).
Qed.

(** Only the pools' side of a state matters for the pools' conditions. *)
Lemma pool_ok_tokens e e' k p :
  (∀ s, is_Some (tokens e !! s) → is_Some (tokens e' !! s)) → pool_ok e k p → pool_ok e' k p.
Proof. unfold pool_ok. intros H. naive_solver. Qed.

(** One token is created or rewritten. *)
Lemma put_token_ok e s t :
  engine_ok e → token_ok (pooled e s) t → engine_ok (put_token s t e).
Proof.
  intros [Ht Hp] Hs. split.
  - intros s' t'. change (pooled (put_token s t e) s') with (pooled e s').
    cbn [tokens put_token]. intros [[<- <-]|[_ H]]%lookup_insert_Some; [done|by apply Ht].
  - intros k p H. apply (pool_ok_tokens e); [|by apply Hp].
    intros s' Hs'. cbn [tokens put_token]. destruct (decide (s = s')) as [->|].
    + rewrite lookup_insert_eq. by eexists.
    + by rewrite lookup_insert_ne.
Qed.

(** Changes of metadata. *)
Lemma token_ok_meta held t t' :
  balances t' = balances t → total_supply t' = total_supply t → t_max_supply t' = t_max_supply t →
  token_ok held t → token_ok held t'.
Proof. unfold token_ok, fine, ledger. by intros -> -> ->. Qed.

(** ** Tokens keep the invariant *)

Lemma create_token_ex_ok e sym nm ow mx im dec bu dw da e' r :
  engine_ok e → 0 ≤ im → 0 ≤ da → is_u64 mx →
  create_token_ex e sym nm ow mx im dec bu dw da = (e', r) → engine_ok e'.
Proof.
  intros Hok Him Hda Hmx. unfold create_token_ex.
  repeat match goal with |- (if ?c then _ else _) = _ → _ => destruct c eqn:?; [by intros [= <- <-]|] end.
  bools. intros [= <- <-]. apply put_token_ok; [done|].
  rewrite pooled_absent by (done || by apply eq_None_not_Some).
  set (t0 := mkToken _ _ _ _ _ _ _ _ _ _ _ _ _ _ _ _ _).
  assert (K0 : fine t0 ∧ ledger t0 = 0 ∧ ∀ w, bal t0 w = 0).
  { split_and!; [intros k v; unfold t0; cbn; by rewrite lookup_empty|apply map_sum_empty|done]. }
  destruct K0 as (F0 & L0 & B0). set (t1 := if 0 <? im then _ else _).
  assert (K1 : fine t1 ∧ ledger t1 = im ∧ total_supply t1 = im + da ∧ t_max_supply t1 = mx).
  { subst t1. destruct (Z.ltb_spec 0 im); [|split_and!; try done; lia].
    rewrite ledger_set, B0. split_and!; [by apply fine_set|lia|done..]. }
  destruct K1 as (F1 & L1 & T1 & M1). pose proof (bal_bounds t1 dw F1).
  unfold token_ok, is_u64 in *. destruct (Z.ltb_spec 0 da); [|split_and!; done || lia].
  assert (Hu : u64 (bal t1 dw + da) = bal t1 dw + da) by (apply u64_small; unfold is_u64; lia).
  rewrite Hu, ledger_set. cbn [total_supply t_max_supply set_bal set_ledger].
  split_and!; [apply fine_set; [done|lia]|lia..].
Qed.

Lemma mint_ok e sym c to a e' r :
  engine_ok e → 0 ≤ a → mint e sym c to a = (e', r) → engine_ok e'.
Proof.
  intros Hok Ha. unfold mint. destruct (tokens e !! sym) as [t|] eqn:Et; [|by intros [= <- <-]].
  destruct (proj1 Hok _ _ Et) as (Hf & Hl & Hs & Hu).
  repeat match goal with |- (if ?c then (e, _) else _) = _ → _ => destruct c eqn:?; [by intros [= <- <-]|] end.
  bools. pose proof (bal_bounds t to Hf). pose proof (pooled_nonneg e sym Hok).
  destruct (_ <? _) eqn:E; intros [= <- <-]; apply put_token_ok; try done.
  - apply (token_ok_meta _ (touch to t)); try done. split_and!; [by apply fine_touch| |done..].
    by rewrite ledger_touch.
  - split_and!.
    + apply fine_set; [apply (fine_touch to t Hf)|]. change (bal (set_ledger _ _ ?t) to) with (bal t to).
      rewrite bal_touch. lia.
    + rewrite ledger_set. change (ledger (set_ledger _ _ ?t)) with (ledger t).
      change (bal (set_ledger _ _ ?t) to) with (bal t to). rewrite ledger_touch.
      cbn [total_supply set_bal set_ledger touch]. lia.
    + cbn [total_supply t_max_supply set_bal set_ledger touch]. done.
    + done.
Qed.

Lemma burn_ok e sym from a e' r :
  engine_ok e → 0 ≤ a → burn e sym from a = (e', r) → engine_ok e'.
Proof.
  intros Hok Ha. unfold burn. destruct (tokens e !! sym) as [t|] eqn:Et; [|by intros [= <- <-]].
  destruct (proj1 Hok _ _ Et) as (Hf & Hl & Hs & Hu).
  repeat match goal with |- (if ?c then (e, _) else _) = _ → _ => destruct c eqn:?; [by intros [= <- <-]|] end.
  bools. pose proof (bal_bounds t from Hf). pose proof (pooled_nonneg e sym Hok).
  destruct (_ <? _) eqn:E; bools; intros [= <- <-]; apply put_token_ok; try done.
  - split_and!; [by apply fine_touch|by rewrite ledger_touch|done..].
  - rewrite bal_touch in *. set (t2 := set_bal from _ _).
    assert (L2 : ledger t2 = ledger t - a) by (unfold t2; rewrite ledger_set, ledger_touch, bal_touch; lia).
    assert (F2 : fine t2) by (apply fine_set; [by apply fine_touch|lia]).
    assert (T2 : total_supply t2 = total_supply t) by done.
    assert (Hw : u64 (total_supply t2 - a) = total_supply t2 - a)
      by (apply u64_small; unfold is_u64 in *; lia).
    change (token_ok (pooled e sym) (set_ledger (u64 (total_supply t2 - a)) (balances t2) t2)).
    rewrite Hw. split_and!; [done| | |done].
    + rewrite ledger_supply. cbn [total_supply set_ledger]. lia.
    + cbn [total_supply set_ledger]. change (t_max_supply (set_ledger _ _ t2)) with (t_max_supply t). lia.
Qed.

(** Giving [a] back to [from] and taking [d] from [to], modulo [2^64], also when they
    are the same account. *)
Lemma undo_ledger t from to a d :
  fine t → 0 ≤ a → 0 ≤ d → is_u64 (bal t from + a - (if decide (from = to) then d else 0)) →
  is_u64 (bal t to - d) →
  let t1 := set_bal from (u64 (bal t from + a)) t in
  let t2 := set_bal to (u64 (bal t1 to - d)) t1 in
  fine t2 ∧ ledger t2 = ledger t + a - d.
Proof.
  intros Hf Ha Hd Hu1 Hu2 t1 t2.
  assert (F1 : fine t1) by (apply fine_set; [done|apply u64_range]).
  split; [apply fine_set; [done|apply u64_range]|].
  unfold t2, t1. rewrite !ledger_set, !bal_set. case_decide as He.
  - subst. replace (u64 (u64 (bal t to + a) - d)) with (u64 (bal t to + a - d)); cycle 1.
    { unfold Z.sub. symmetry. apply u64_add_l. }
    rewrite (u64_small (_ - d)) by done. lia.
  - rewrite (u64_small (bal t to - d)) by done.
    assert (is_u64 (bal t from + a)) by (unfold is_u64 in *; lia).
    rewrite u64_small by done. lia.
Qed.

Lemma transfer_fees_bounds t from to a tf bf :
  transfer_fees t from to a = (tf, bf) → 0 ≤ tf ∧ 0 ≤ bf ∧ is_u64 (tf + bf).
Proof.
  unfold transfer_fees, is_u64.
  assert (H : ∀ z, 0 ≤ u64 z / 10000 ≤ 1844674407370955).
  { intros z. pose proof (u64_range z) as Hz. unfold is_u64 in Hz.
    split; [apply Z.div_pos; lia|]. enough (u64 z / 10000 < 1844674407370956) by lia.
    apply Z.div_lt_upper_bound; lia. }
  pose proof (H (a * transfer_fee_bps t)). pose proof (H (a * burn_fee_bps t)).
  destruct (_ || _); intros [= <- <-]; lia.
Qed.

Lemma transfer_ok e sym from to a e' r :
  engine_ok e → 0 ≤ a → transfer e sym from to a = (e', r) → engine_ok e'.
Proof.
  intros Hok Ha. unfold transfer. destruct (tokens e !! sym) as [t|] eqn:Et; [|by intros [= <- <-]].
  destruct (proj1 Hok _ _ Et) as (Hf & Hl & Hs & Hu). pose proof (pooled_nonneg e sym Hok) as Hh.
  do 4 (match goal with |- (if ?c then (e, _) else _) = _ → _ => destruct c; [by intros [= <- <-]|] end).
  destruct (transfer_fees t from to a) as [tf bf] eqn:Efee.
  destruct (transfer_fees_bounds _ _ _ _ _ _ Efee) as (Htf & Hbf & Hsum).
  rewrite u64_small by done. destruct (Z.ltb_spec a (tf + bf)); [by intros [= <- <-]|].
  set (d := a - tf - bf). set (t1 := touch from t).
  assert (F1 : fine t1 ∧ ledger t1 = ledger t) by by split; [apply fine_touch|apply ledger_touch].
  assert (P1 : ∀ tx, token_ok (pooled e sym) tx → ∀ m : result (), (put_token sym tx e, m) = (e', r) → engine_ok e').
  { intros tx Htx m [= <- _]. by apply put_token_ok. }
  assert (M : ∀ tx, fine tx → ledger tx ≤ ledger t → total_supply tx = total_supply t →
    t_max_supply tx = t_max_supply t → token_ok (pooled e sym) tx).
  { intros tx ? ? H1 H2. unfold token_ok. rewrite H1, H2. split_and!; done || lia. }
  destruct F1 as [F1 L1]. pose proof (bal_bounds t1 from F1) as B1.
  destruct (Z.ltb_spec (bal t1 from) a) as [|Hge]; [apply P1, M; done || lia|].
  set (t2 := touch to (set_bal from (bal t1 from - a) t1)).
  assert (F2 : fine t2) by (apply fine_touch, fine_set; [done|lia]).
  assert (L2 : ledger t2 = ledger t - a) by (unfold t2; rewrite ledger_touch, ledger_set; lia).
  assert (Bf : bal t2 from = bal t1 from - a) by (unfold t2; by rewrite bal_touch, bal_set, decide_True).
  pose proof (bal_bounds t2 to F2) as B2. unfold is_u64 in Hu.
  destruct (_ <? bal t2 to).
  { apply P1. rewrite Bf. replace (bal t1 from - a + a) with (bal t1 from) by lia.
    rewrite u64_small by (unfold is_u64; lia).
    apply M; [apply fine_set; [done|lia]|rewrite ledger_set; lia|done..]. }
  set (t3 := set_bal to (bal t2 to + d) t2).
  assert (F3 : fine t3) by (apply fine_set; [done|lia]).
  assert (L3 : ledger t3 = ledger t - a + d) by (unfold t3; rewrite ledger_set; lia).
  assert (U : ∀ tx, fine tx → ledger tx = ledger t3 → (∀ w, bal tx w = bal t3 w) →
    total_supply tx = total_supply t → t_max_supply tx = t_max_supply t →
    token_ok (pooled e sym)
      (set_bal to (u64 (bal (set_bal from (u64 (bal tx from + a)) tx) to - d))
         (set_bal from (u64 (bal tx from + a)) tx))).
  { intros tx Fx Lx Bx Tx Mx. destruct (undo_ledger tx from to a d) as [Fu Lu]; [done|done|lia|..].
    - rewrite Bx. unfold t3. rewrite bal_set. unfold is_u64.
      case_decide; [rewrite decide_True by done; subst; lia|rewrite decide_False by done; lia].
    - rewrite Bx. unfold t3. rewrite bal_set, decide_True by done. unfold is_u64. lia.
    - apply M; [done|rewrite Lu; lia|done..]. }
  destruct (_ && (_ <? bal t3 to)); [apply P1, U; done|].
  set (pays := _ && negb _). set (t4 := if pays then touch _ _ else _).
  assert (K4 : fine t4 ∧ ledger t4 = ledger t3 ∧ (∀ w, bal t4 w = bal t3 w) ∧
    total_supply t4 = total_supply t ∧ t_max_supply t4 = t_max_supply t).
  { unfold t4. destruct pays; [|done]. split_and!; [by apply fine_touch|apply ledger_touch|apply bal_touch|done..]. }
  destruct K4 as (F4 & L4 & B4 & T4 & M4).
  destruct (pays && _); [apply P1, U; done|]. set (t5 := if pays then set_bal _ _ _ else _).
  assert (K5 : fine t5 ∧ ledger t5 ≤ ledger t3 + tf ∧ total_supply t5 = total_supply t ∧
    t_max_supply t5 = t_max_supply t).
  { unfold t5. destruct pays; [|split_and!; done || lia].
    pose proof (bal_bounds t4 (treasury_wallet t4) F4).
    split_and!; [apply fine_set; [done|lia]|rewrite ledger_set; lia|done..]. }
  destruct K5 as (F5 & L5 & T5 & M5).
  destruct (_ && (_ <? bf)); [apply P1, M; done || lia|]. apply P1.
  destruct (Z.ltb_spec 0 bf); [|apply M; done || lia].
  unfold token_ok, is_u64. rewrite ledger_supply. cbn [total_supply t_max_supply set_ledger].
  split_and!; [done|lia..].
Qed.

(** The owner's settings and the NFTs do not touch the ledgers. *)
Lemma settings_ok e s t t' :
  engine_ok e → tokens e !! s = Some t → balances t' = balances t →
  total_supply t' = total_supply t → t_max_supply t' = t_max_supply t → engine_ok (put_token s t' e).
Proof.
  intros Hok Hs Hb Ht Hm. apply put_token_ok; [done|].
  eapply token_ok_meta; [exact Hb|exact Ht|exact Hm|]. by apply Hok.
Qed.
Lemma put_collection_ok e col m : engine_ok e → engine_ok (put_collection col m e).
Proof. done. Qed.

(** ** Pools keep the invariant *)

(** [e'] has the tokens of [e] with the ledger of token [s] changed by [d s], and
    the same pools. *)
Definition moved (e e' : TokenEngine) (d : string → Z) : Prop :=
  pools e' = pools e ∧ nfts e' = nfts e ∧
  ∀ s, match tokens e !! s, tokens e' !! s with
       | Some t, Some t' =>
           (fine t → fine t') ∧ ledger t' = ledger t + d s ∧ total_supply t' = total_supply t ∧
           t_max_supply t' = t_max_supply t
       | None, None => True
       | _, _ => False
       end.

Lemma moved_refl e : moved e e (λ _, 0).
Proof.
  split_and!; [done..|]. intros s. destruct (tokens e !! s); [|done]. split_and!; [done|lia|done..].
Qed.
Lemma moved_trans e1 e2 e3 d1 d2 :
  moved e1 e2 d1 → moved e2 e3 d2 → moved e1 e3 (λ s, d1 s + d2 s).
Proof.
  intros (P1 & N1 & M1) (P2 & N2 & M2). split_and!; [congruence..|]. intros s.
  specialize (M1 s). specialize (M2 s).
  destruct (tokens e1 !! s), (tokens e2 !! s), (tokens e3 !! s); try done.
  destruct M1 as (? & ? & ? & ?), M2 as (? & ? & ? & ?). split_and!; [tauto|lia|congruence..].
Qed.
Lemma moved_tokens e e' d s : moved e e' d → is_Some (tokens e !! s) → is_Some (tokens e' !! s).
Proof.
  intros (_ & _ & M) [t Ht]. specialize (M s). rewrite Ht in M.
  destruct (tokens e' !! s); [by eexists|done].
Qed.

Lemma token_at_Some e s t : tokens e !! s = Some t → token_at e s = t.
Proof. unfold token_at. by intros ->. Qed.

Lemma credit_moved e s who v :
  is_Some (tokens e !! s) → 0 ≤ v →
  moved e (credit s who v e) (λ s', if decide (s' = s) then v - bal_of e s who else 0).
Proof.
  intros [t Ht] Hv. split_and!; [done..|]. intros s'. unfold credit, bal_of. cbn [tokens put_token].
  rewrite (token_at_Some _ _ _ Ht). destruct (decide (s' = s)) as [->|].
  - rewrite lookup_insert_eq, Ht. split_and!; [intros; by apply fine_set|rewrite ledger_set; lia|done..].
  - rewrite lookup_insert_ne by done. destruct (tokens e !! s'); [|done].
    split_and!; [done|lia|done..].
Qed.

Lemma bal_of_bounds e s who : engine_ok e → is_Some (tokens e !! s) → 0 ≤ bal_of e s who < W64.
Proof.
  intros Hok [t Ht]. unfold bal_of. rewrite (token_at_Some _ _ _ Ht).
  destruct (proj1 Hok _ _ Ht) as (Hf & ? & ? & Hu). pose proof (bal_bounds t who Hf).
  pose proof (pooled_nonneg e s Hok). unfold is_u64 in Hu. lia.
Qed.

Lemma touch_moved e s who :
  engine_ok e → is_Some (tokens e !! s) → moved e (touch_token s who e) (λ _, 0).
Proof.
  intros Hok Hs. pose proof (bal_of_bounds e s who Hok Hs) as Hb.
  pose proof (credit_moved e s who (bal_of e s who) Hs ltac:(lia)) as (P & N & M).
  split_and!; [done..|]. intros s'. specialize (M s').
  change (touch_token s who e) with (credit s who (bal_of e s who) e).
  destruct (tokens e !! s'), (tokens (credit s who (bal_of e s who) e) !! s'); try done.
  destruct M as (? & Hl & ? & ?). split_and!; [done| |done..]. case_decide; lia.
Qed.

(** A move of tokens with a matching change of one pool. *)
Lemma moved_pool_ok e e' d k p p' :
  engine_ok e → moved e e' d → pools e !! k = Some p →
  token0 p' = token0 p → token1 p' = token1 p → fee_bps p' = fee_bps p →
  0 ≤ reserve0 p' → 0 ≤ reserve1 p' → nonneg (lp_balances p') →
  map_sum (λ v, v) (lp_balances p') = lp_total_supply p' →
  (∀ s, is_Some (tokens e !! s) → d s + pool_holds s p' ≤ pool_holds s p) →
  engine_ok (put_pool k p' e').
Proof.
  intros Hok Hm Hk Ht0 Ht1 Hfee Hr0 Hr1 Hlp Hsum Hd. pose proof Hm as (Hp & _ & M). split.
  - intros s t'. cbn [tokens put_pool]. intros Ht'. specialize (M s). rewrite Ht' in M.
    destruct (tokens e !! s) as [t|] eqn:Et; [|done]. destruct M as (Hf & Hl & Hts & Hmx).
    destruct (proj1 Hok _ _ Et) as (F & L & T & U). unfold token_ok. rewrite Hts, Hmx.
    split_and!; [tauto| |done..].
    assert (pooled (put_pool k p' e') s = pooled e s + pool_holds s p' - pool_holds s p) as ->.
    { unfold pooled. cbn [pools put_pool]. rewrite Hp, map_sum_insert, Hk. cbn [contrib]. lia. }
    specialize (Hd s ltac:(by eexists)). lia.
  - intros k' q. cbn [pools put_pool]. rewrite Hp. intros Hq.
    assert (Hex : ∀ s, is_Some (tokens e !! s) → is_Some (tokens (put_pool k p' e') !! s))
      by (intros s; by apply (moved_tokens e e' d)).
    apply lookup_insert_Some in Hq as [[<- <-]|[_ Hq]]; [|by eapply pool_ok_tokens, Hok].
    destruct (proj2 Hok _ _ Hk) as (? & ? & ? & ? & ? & _ & _ & ? & _). unfold pool_ok.
    rewrite Ht0, Ht1, Hfee. split_and!; auto; lia.
Qed.

Lemma moved_ok e e' d :
  engine_ok e → moved e e' d → (∀ s, is_Some (tokens e !! s) → d s ≤ 0) → engine_ok e'.
Proof.
  intros Hok Hm Hd. pose proof Hm as (Hp & _ & M). split.
  - intros s t' Ht'. specialize (M s). rewrite Ht' in M.
    destruct (tokens e !! s) as [t|] eqn:Et; [|done]. destruct M as (Hf & Hl & Hts & Hmx).
    destruct (proj1 Hok _ _ Et) as (F & L & T & U). unfold token_ok, pooled. rewrite Hts, Hmx, Hp.
    specialize (Hd s ltac:(by eexists)). unfold pooled in L. split_and!; [tauto|lia|done..].
  - intros k p. rewrite Hp. intros Hk. eapply pool_ok_tokens; [|by apply Hok].
    intros s. by apply (moved_tokens e e' d).
Qed.

Lemma bal_of_credit e s who v s' w :
  bal_of (credit s who v e) s' w = if decide (s' = s ∧ w = who) then v else bal_of e s' w.
Proof.
  unfold bal_of, credit, token_at. cbn [tokens put_token]. destruct (decide (s' = s)) as [->|].
  - rewrite lookup_insert_eq. change (default ?d (Some ?x)) with x. rewrite bal_set.
    repeat case_decide; naive_solver.
  - rewrite lookup_insert_ne by done. by rewrite decide_False by naive_solver.
Qed.
Lemma bal_of_touch e s who s' w : bal_of (touch_token s who e) s' w = bal_of e s' w.
Proof.
  change (touch_token s who e) with (credit s who (bal_of e s who) e). rewrite bal_of_credit.
  case_decide as H; [|done]. by destruct H as [-> ->].
Qed.

(** Two tokens of a pool, both touched for one account. *)
Lemma touch_pair_moved e s0 s1 who :
  engine_ok e → is_Some (tokens e !! s0) → is_Some (tokens e !! s1) →
  moved e (touch_token s1 who (touch_token s0 who e)) (λ _, 0).
Proof.
  intros Hok H0 H1. pose proof (touch_moved e s0 who Hok H0) as M0.
  assert (Hok0 : engine_ok (touch_token s0 who e)) by (eapply moved_ok; [done..|]; done).
  pose proof (touch_moved _ s1 who Hok0 (moved_tokens _ _ _ _ M0 H1)) as M1.
  exact (moved_trans _ _ _ _ _ M0 M1).
Qed.

(** ... and then both changed. *)
Lemma credit_pair_moved e s0 s1 who v0 v1 :
  engine_ok e → is_Some (tokens e !! s0) → is_Some (tokens e !! s1) → 0 ≤ v0 → 0 ≤ v1 → s0 ≠ s1 →
  moved e (credit s1 who v1 (credit s0 who v0 e))
    (λ s, (if decide (s = s0) then v0 - bal_of e s0 who else 0) +
          (if decide (s = s1) then v1 - bal_of e s1 who else 0)).
Proof.
  intros Hok H0 H1 Hv0 Hv1 Hne. pose proof (credit_moved e s0 who v0 H0 Hv0) as M0.
  pose proof (credit_moved (credit s0 who v0 e) s1 who v1 (moved_tokens _ _ _ _ M0 H1) Hv1) as M1.
  pose proof (moved_trans _ _ _ _ _ M0 M1) as M. cbn beta in M.
  rewrite bal_of_credit, decide_False in M by naive_solver. done.
Qed.

Lemma lp_minted_nonneg fuel p a0 a1 v :
  0 < a0 → 0 < a1 → 0 ≤ reserve0 p → 0 ≤ reserve1 p →
  lp_minted fuel p a0 a1 = Some (Ok v) → 0 ≤ v.
Proof.
  intros H0 H1 Hr0 Hr1. unfold lp_minted. destruct (lp_total_supply p =? 0).
  - destruct (Z.ltb_spec (U64_MAX / a1) a0) as [|Hle]; [done|]. intros Hb.
    apply bind_Some in Hb as (m & Hm & Hb). injection Hb as Hb. peel Hb. injection Hb as <-.
    assert (a0 * a1 ≤ U64_MAX) by (pose proof (Z.mul_div_le U64_MAX a1 ltac:(lia)); nia).
    apply isqrt_u64_value in Hm as ->; [apply Z.sqrt_nonneg|unfold is_u64; nia].
  - intros [= Hb]. peel Hb. injection Hb as <-. bools.
    pose proof (u64_range (a0 * lp_total_supply p)). pose proof (u64_range (a1 * lp_total_supply p)).
    unfold is_u64 in *. apply Z.min_glb; apply Z.div_pos; lia.
Qed.

Lemma touch_lp_ok p who :
  nonneg (lp_balances p) → nonneg (lp_balances (touch_lp who p)) ∧
  map_sum (λ v, v) (lp_balances (touch_lp who p)) = map_sum (λ v, v) (lp_balances p).
Proof.
  intros Hn. cbn [touch_lp lp_balances set_pool]. rewrite map_sum_get0.
  split; [|lia]. apply nonneg_insert; [done|]. by apply get0_bounds.
Qed.
Lemma put_touched_ok e k p who :
  engine_ok e → pools e !! k = Some p → engine_ok (put_pool k (touch_lp who p) e).
Proof.
  intros Hok Hk. destruct (proj2 Hok _ _ Hk) as (_ & _ & _ & _ & _ & ? & ? & _ & Hn & Hs).
  destruct (touch_lp_ok p who Hn) as [Hn' Hs'].
  eapply (moved_pool_ok e e (λ _, 0)); [done|apply moved_refl|done|done..| |].
  - by rewrite Hs'.
  - intros s _. by rewrite Z.add_0_l.
Qed.

Ltac split_fail Hok :=
  match goal with
  | |- (if ?c then (?e, _) else _) = _ → _ => destruct c eqn:?; [by intros [= <- <-]|]
  end.

Lemma create_pool_ok e a b f e' r :
  engine_ok e → 0 ≤ f → create_pool e a b f = (e', r) → engine_ok e'.
Proof.
  intros Hok Hf. unfold create_pool. destruct (ordered_pair a b) as [[t0 t1]|] eqn:Eo; [|by intros [= <- <-]].
  repeat split_fail Hok. bools. intros [= <- <-].
  assert (Ho : ordered_pair t0 t1 = Some (t0, t1) ∧ t0 ≠ t1).
  { revert Eo. unfold ordered_pair. destruct (_ || _) eqn:E1; [done|].
    apply orb_false_elim in E1 as [[Ea Eb]%orb_false_elim Ene]. apply negb_false_iff in Ea, Eb.
    destruct (str_ltb a b) eqn:E2; intros [= <- <-].
    - split; [|by apply String.eqb_neq]. by rewrite Ea, Eb, Ene, E2.
    - split; [|by apply not_eq_sym, String.eqb_neq]. rewrite Ea, Eb, String.eqb_sym, Ene.
      cbn [negb orb]. destruct (str_ltb b a) eqn:E3; [done|]. exfalso.
      apply String.eqb_neq in Ene. by apply Ene, str_ltb_total. }
  destruct Ho as [Ho Hne]. split.
  - intros s t Ht. destruct (proj1 Hok _ _ Ht) as (F & L & T & U). split_and!; [done| |done..].
    unfold pooled in *. cbn [pools put_pool]. rewrite map_sum_insert.
    assert (pools e !! pool_key t0 t1 = None) as -> by by apply eq_None_not_Some.
    assert (pool_holds s (mkPool t0 t1 0 0 f 0 ∅) = 0) as ->
      by (unfold pool_holds; cbn; by repeat case_decide).
    cbn [contrib]. lia.
  - intros k p. cbn [pools put_pool]. intros [[<- <-]|[_ Hk]]%lookup_insert_Some;
      [|by eapply pool_ok_tokens, Hok].
    assert (Hkey : pool_key t0 t1 = t0 +:+ "|" +:+ t1) by (unfold pool_key; by rewrite Ho).
    unfold pool_ok. cbn [token0 token1 reserve0 reserve1 fee_bps lp_balances lp_total_supply].
    split_and!; try done; try lia;
      by apply not_eq_None_Some.
Qed.

Lemma add_liquidity_ok fuel e a b pr xa xb e' r :
  engine_ok e → 0 ≤ xa → 0 ≤ xb → add_liquidity fuel e a b pr xa xb = Some (e', r) → engine_ok e'.
Proof.
  intros Hok Ha Hb. unfold add_liquidity.
  destruct (_ || (xb =? 0)) eqn:E0; [by intros [= <- <-]|]. bools.
  set (k := pool_key a b). destruct (pools e !! k) as [p|] eqn:Ek; [|by intros [= <- <-]].
  destruct (proj2 Hok _ _ Ek) as (_ & _ & Hne & S0 & S1 & R0 & R1 & _ & Hlp & Hls).
  set (add0 := if String.eqb a (token0 p) then xa else xb).
  set (add1 := if String.eqb a (token0 p) then xb else xa).
  assert (0 < add0 ∧ 0 < add1) as [P0 P1] by (unfold add0, add1; destruct (String.eqb _ _); lia).
  pose proof (touch_pair_moved e _ _ pr Hok S0 S1) as M1.
  set (e1 := touch_token (token1 p) pr _) in *.
  assert (Hok1 : engine_ok e1) by by apply (moved_ok _ _ _ Hok M1).
  assert (Ek1 : pools e1 !! k = Some p) by (by rewrite (proj1 M1)).
  destruct (_ || _) eqn:E1; [by intros [= <- <-]|]. bools.
  intros Hr. apply bind_Some in Hr as (m & Hm & Hr). destruct m as [m|m]; [|by injection Hr as <- <-].
  destruct (_ || _) eqn:E2; [by injection Hr as <- <-|]. bools.
  pose proof (lp_minted_nonneg _ _ _ _ _ P0 P1 R0 R1 Hm). pose proof (get0_bounds _ pr Hlp).
  destruct (_ <? map_get0 _ _); injection Hr as <- <-; [by apply put_touched_ok|].
  assert (S0' := moved_tokens _ _ _ _ M1 S0). assert (S1' := moved_tokens _ _ _ _ M1 S1).
  eapply (moved_pool_ok e1); [done|eapply credit_pair_moved|exact Ek1|done..| | | | |];
    cbn [reserve0 reserve1 lp_balances lp_total_supply set_pool]; try done; try lia.
  - rewrite bal_of_credit, decide_False by (intros [? _]; congruence). lia.
  - apply nonneg_insert; [done|lia].
  - rewrite map_sum_get0. lia.
  - intros s _. rewrite bal_of_credit.
    destruct (decide (token1 p = token0 p ∧ pr = pr)) as [[? _]|_]; [congruence|]. unfold pool_holds.
    cbn [token0 token1 reserve0 reserve1 set_pool].
    destruct (decide (s = token0 p)), (decide (s = token1 p)), (decide (token0 p = s)),
      (decide (token1 p = s)); subst; try done; lia.
Qed.

Lemma take_bounds (r lp total : Z) :
  0 ≤ r → 0 ≤ lp ≤ total → total ≠ 0 → 0 ≤ u64 (r * lp) / total ≤ r * lp / total ∧ r * lp / total ≤ r.
Proof.
  intros Hr Hlp Ht. pose proof (u64_range (r * lp)) as Hu. unfold is_u64 in Hu.
  pose proof (u64_le (r * lp) ltac:(nia)). split_and!.
  - apply Z.div_pos; lia.
  - apply Z.div_le_mono; lia.
  - apply Z.div_le_upper_bound; nia.
Qed.

Lemma remove_liquidity_ok e a b pr lp e' r :
  engine_ok e → 0 ≤ lp → remove_liquidity e a b pr lp = (e', r) → engine_ok e'.
Proof.
  intros Hok Hlp0. unfold remove_liquidity. repeat split_fail Hok. bools.
  set (k := pool_key a b). destruct (pools e !! k) as [p|] eqn:Ek; [|by intros [= <- <-]].
  destruct (proj2 Hok _ _ Ek) as (_ & _ & Hne & S0 & S1 & R0 & R1 & _ & Hlp & Hls).
  destruct (touch_lp_ok p pr Hlp) as [Hlp' Hsum'].
  change (reserve0 (touch_lp pr p)) with (reserve0 p). change (reserve1 (touch_lp pr p)) with (reserve1 p).
  change (lp_total_supply (touch_lp pr p)) with (lp_total_supply p).
  change (token0 (touch_lp pr p)) with (token0 p). change (token1 (touch_lp pr p)) with (token1 p).
  pose proof (get0_bounds _ pr Hlp'). set (lb := map_get0 (lp_balances (touch_lp pr p)) pr) in *.
  pose proof (put_touched_ok e k p pr Hok Ek) as Hokp.
  destruct (_ || _) eqn:E1; [by intros [= <- <-]|]. bools.
  destruct (take_bounds (reserve0 p) lp (lp_total_supply p)) as [B0 B0']; [lia..|].
  destruct (take_bounds (reserve1 p) lp (lp_total_supply p)) as [B1 B1']; [lia..|].
  set (take0 := u64 (reserve0 p * lp) / _) in *. set (take1 := u64 (reserve1 p * lp) / _) in *.
  destruct (_ || _) eqn:E2; [by intros [= <- <-]|].
  pose proof (touch_moved e (token0 p) pr Hok S0) as M0.
  pose proof (touch_pair_moved e _ _ pr Hok S0 S1) as M1.
  set (e0 := touch_token (token0 p) pr e) in *. set (e1 := touch_token (token1 p) pr e0) in *.
  assert (T : ∀ e2, moved e e2 (λ _, 0) → engine_ok (put_pool k (touch_lp pr p) e2)).
  { intros e2 M2. eapply (moved_pool_ok e); [done|exact M2|exact Ek|done..| |].
    - change (lp_total_supply (touch_lp pr p)) with (lp_total_supply p). lia.
    - intros s _. by rewrite Z.add_0_l. }
  destruct (_ <? bal_of e0 _ _) eqn:E3; [intros [= <- <-]; by apply T|].
  destruct (_ <? bal_of e1 _ _) eqn:E4; [intros [= <- <-]; by apply T|].
  intros Hr. apply pair_equal_spec in Hr as [<- _].
  assert (Hok1 : engine_ok e1) by by apply (moved_ok _ _ _ Hok M1).
  assert (S0' := moved_tokens _ _ _ _ M1 S0). assert (S1' := moved_tokens _ _ _ _ M1 S1).
  pose proof (bal_of_bounds e1 (token0 p) pr Hok1 S0'). pose proof (bal_of_bounds e1 (token1 p) pr Hok1 S1').
  assert (Ek1 : pools e1 !! k = Some p) by (by rewrite (proj1 M1)).
  eapply (moved_pool_ok e1); [done|eapply credit_pair_moved|exact Ek1|done..| | | | |];
    cbn [reserve0 reserve1 lp_balances lp_total_supply set_pool]; try done; try lia.
  - rewrite bal_of_credit, decide_False by (intros [? _]; congruence). lia.
  - apply nonneg_insert; [done|lia].
  - rewrite map_sum_get0. fold lb. lia.
  - intros s _. rewrite bal_of_credit.
    destruct (decide (token1 p = token0 p ∧ pr = pr)) as [[? _]|_]; [congruence|]. unfold pool_holds.
    cbn [token0 token1 reserve0 reserve1 set_pool touch_lp].
    destruct (decide (s = token0 p)), (decide (s = token1 p)), (decide (token0 p = s)),
      (decide (token1 p = s)); subst; try done; lia.
Qed.

(** ** Quotes *)

Lemma name_free s : token_name_ok s = true → free_of "|" s = true.
Proof.
  unfold token_name_ok. intros [_ H]%andb_prop. eapply all_chars_impl; [|exact H].
  intros c Hc. cbn beta in *. apply negb_true_iff in Hc. apply negb_true_iff.
  do 4 apply orb_false_elim in Hc as [Hc _]. by rewrite Ascii.eqb_sym.
Qed.

Lemma ordered_pair_Some a b x y :
  ordered_pair a b = Some (x, y) →
  token_name_ok x = true ∧ token_name_ok y = true ∧ ((a = x ∧ b = y) ∨ (a = y ∧ b = x)).
Proof.
  unfold ordered_pair. destruct (_ || _) eqn:E1; [done|].
  apply orb_false_elim in E1 as [[Ea Eb]%orb_false_elim _]. apply negb_false_iff in Ea, Eb.
  destruct (str_ltb a b); intros [= <- <-]; auto.
Qed.

(** A pool key determines the pair. *)
Lemma pool_key_inj a b t0 t1 :
  ordered_pair t0 t1 = Some (t0, t1) → pool_key a b = t0 +:+ "|" +:+ t1 →
  (a = t0 ∧ b = t1) ∨ (a = t1 ∧ b = t0).
Proof.
  intros (H0 & H1 & _)%ordered_pair_Some. unfold pool_key.
  destruct (ordered_pair a b) as [[x y]|] eqn:E; [|by destruct t0].
  apply ordered_pair_Some in E as (Hx & Hy & Hxy). change ("|" +:+ ?s) with (String "|" s).
  intros He. apply split_unique in He as [-> ->]; [|by apply name_free..]. done.
Qed.

(** The pool a pair finds, seen from the input token. *)
Lemma pool_found e a b p :
  engine_ok e → pools e !! pool_key a b = Some p →
  (a = token0 p ∧ b = token1 p) ∨ (a = token1 p ∧ b = token0 p).
Proof.
  intros Hok Hp. destruct (proj2 Hok _ _ Hp) as (Hk & Ho & _). by eapply pool_key_inj.
Qed.

Lemma reserves_pos e k p a :
  engine_ok e → pools e !! k = Some p → 0 ≤ reserve_in p a ∧ 0 ≤ reserve_out p a.
Proof.
  intros Hok Hp. destruct (proj2 Hok _ _ Hp) as (_ & _ & _ & _ & _ & ? & ? & _).
  unfold reserve_in, reserve_out. destruct (String.eqb a (token0 p)); lia.
Qed.

(** The quoted amount is the constant-product formula with the fee taken from the
    input, over unbounded integers, and less than the reserve. *)
Lemma quote_formula e a b x out :
  engine_ok e → 0 ≤ x → quote_exact_in e a b x = Ok out →
  ∃ p, pools e !! pool_key a b = Some p ∧
    let rin := reserve_in p a in let rout := reserve_out p a in
    let xf := x * (10000 - fee_bps p) in
    0 < x ∧ 0 < rin ∧ 0 < out < rout ∧ out = xf * rout / (rin * 10000 + xf) ∧
    rin * rout ≤ (rin + x) * (rout - out).
Proof.
  intros Hok Hx. unfold quote_exact_in. intros H. peel H.
  destruct (pools e !! pool_key a b) as [p|] eqn:Ep; [|done]. exists p. split; [done|].
  destruct (reserves_pos e _ p a Hok Ep) as [Hi Ho]. cbn zeta in *.
  set (rin := reserve_in p a) in *. set (rout := reserve_out p a) in *. peel H. injection H as H.
  destruct (proj2 Hok _ _ Ep) as (_ & _ & _ & _ & _ & _ & _ & Hfee & _).
  assert (Hf : u64 (10000 - fee_bps p) = 10000 - fee_bps p) by (apply u64_small; unfold is_u64; lia).
  rewrite Hf in *. set (xf := x * (10000 - fee_bps p)) in *. bools.
  assert (0 < x) by lia. assert (0 < xf) by (unfold xf in *; nia). assert (xf ≤ x * 10000) by (unfold xf; nia).
  rewrite H in *.
  assert (0 ≤ out) by (rewrite <-H; apply Z.div_pos; nia).
  split_and!; try lia.
  assert (Hd : out * (rin * 10000 + xf) ≤ xf * rout).
  { rewrite <-H, Z.mul_comm. apply Z.mul_div_le. lia. }
  assert (xf * (rout - out) ≤ x * 10000 * (rout - out)) by (apply Z.mul_le_mono_nonneg_r; lia).
  nia.
Qed.

(** ** Swaps *)

(** Two states with the same pools and balances (entries at zero may differ). *)
Definition same_funds (e e' : TokenEngine) : Prop :=
  pools e' = pools e ∧ ∀ s w, bal_of e' s w = bal_of e s w.

#[export] Instance same_funds_preorder : PreOrder same_funds.
Proof.
  split; [by intros e|]. intros e1 e2 e3 [P1 B1] [P2 B2]. split; [congruence|].
  intros s w. by rewrite B2, B1.
Qed.
Lemma touch_same e s w : same_funds e (touch_token s w e).
Proof. split; [done|]. intros. apply bal_of_touch. Qed.

(** The trader's part of a swap. *)
Definition traded (e : TokenEngine) (a b tr : string) (x out : Z) (s w : string) : Z :=
  bal_of e s w + (if decide (s = a ∧ w = tr) then - x else 0) +
  (if decide (s = b ∧ w = tr) then out else 0).

Lemma swap_step e a b tr x mn e' r :
  engine_ok e → 0 ≤ x → swap_exact_in e a b tr x mn = (e', r) →
  engine_ok e' ∧
  match r with
  | Err _ => same_funds e e'
  | Ok out =>
      quote_exact_in e a b x = Ok out ∧ mn ≤ out ∧ x ≤ bal_of e a tr ∧
      (∀ s w, bal_of e' s w = traded e a b tr x out s w) ∧
      ∃ p, pools e !! pool_key a b = Some p ∧
        pools e' = <[pool_key a b := swap_reserves p a x out]> (pools e)
  end.
Proof.
  intros Hok Hx. unfold swap_exact_in.
  destruct (is_empty tr); [by intros [= <- <-]|].
  destruct (quote_exact_in e a b x) as [out|] eqn:Eq; [|by intros [= <- <-]].
  destruct (Z.ltb_spec out mn) as [|Hmn]; [by intros [= <- <-]|].
  destruct (quote_formula e a b x out Hok Hx Eq) as (p & Ep & Hx0 & Hin & Hout & _ & _). rewrite Ep.
  destruct (proj2 Hok _ _ Ep) as (_ & _ & Hne & S0 & S1 & R0 & R1 & _ & Hlp & Hls).
  assert (Hab : a ≠ b ∧ is_Some (tokens e !! a) ∧ is_Some (tokens e !! b)).
  { destruct (pool_found e a b p Hok Ep) as [[-> ->]|[-> ->]]; auto using not_eq_sym. }
  destruct Hab as (Hab & Sa & Sb). pose proof (touch_moved e a tr Hok Sa) as M0.
  assert (Hok0 : engine_ok (touch_token a tr e)) by by apply (moved_ok _ _ _ Hok M0).
  rewrite (bal_of_touch e a tr). destruct (Z.ltb_spec (bal_of e a tr) x) as [|Hb].
  { intros [= <- <-]. split; [done|apply touch_same]. }
  destruct (Z.leb_spec (reserve_out p a) out); [lia|].
  pose proof (touch_pair_moved e a b tr Hok Sa Sb) as M1.
  set (e1 := touch_token b tr _) in *.
  assert (B1 : ∀ s w, bal_of e1 s w = bal_of e s w) by (intros; unfold e1; by rewrite !bal_of_touch).
  assert (Hok1 : engine_ok e1) by by apply (moved_ok _ _ _ Hok M1).
  destruct (_ || _) eqn:E2.
  { intros [= <- <-]. split; [done|]. trans (touch_token a tr e); apply touch_same. }
  bools. intros Hr. apply pair_equal_spec in Hr as [<- <-].
  assert (Sa' := moved_tokens _ _ _ _ M1 Sa). assert (Sb' := moved_tokens _ _ _ _ M1 Sb).
  pose proof (bal_of_bounds e b tr Hok Sb) as Bb.
  assert (Hcb : bal_of (credit a tr (bal_of e1 a tr - x) e1) b tr = bal_of e b tr).
  { rewrite bal_of_credit, B1. by destruct (decide (b = a ∧ tr = tr)) as [[? _]|_]; [congruence|]. }
  rewrite Hcb, (B1 a). split_and!; try done.
  - assert (Ep1 : pools e1 !! pool_key a b = Some p) by (by rewrite (proj1 M1)).
    eapply (moved_pool_ok e1); [done|eapply credit_pair_moved|exact Ep1|..]; try done; try lia;
      unfold swap_reserves, reserve_in, reserve_out in *; rewrite ?B1;
      try (destruct (String.eqb a (token0 p)); cbn; done || lia).
    intros s _. unfold pool_holds.
    destruct (pool_found e a b p Hok Ep) as [[-> ->]|[-> ->]].
    + rewrite String.eqb_refl in *. cbn.
      destruct (decide (s = token0 p)), (decide (s = token1 p)), (decide (token0 p = s)),
        (decide (token1 p = s)); subst; try done; lia.
    + rewrite (proj2 (String.eqb_neq _ _)) in * by congruence. cbn.
      destruct (decide (s = token0 p)), (decide (s = token1 p)), (decide (token0 p = s)),
        (decide (token1 p = s)); subst; try done; lia.
  - intros s w. unfold traded. change (bal_of (put_pool _ _ ?e) s w) with (bal_of e s w).
    rewrite !bal_of_credit, B1. destruct (decide (s = a ∧ w = tr)) as [[-> ->]|].
    + destruct (decide (a = b ∧ tr = tr)) as [[? _]|_]; [congruence|]. lia.
    + destruct (decide (s = b ∧ w = tr)) as [[-> ->]|]; lia.
  - by exists p.
Qed.
