(* ===== verification/TokenSafety.v ===== *)
(** * The token engine as a whole: reachable engines, swaps, routes, the route search *)
From S2P Require Import Prelude Strings TokenEngine TokenProofs.

(** ** Reachable engines *)

(** One call of the engine's interface, accepted or refused. The amounts are the
    [std::uint64_t]s of the callers. *)
Inductive engine_step (e : TokenEngine) : TokenEngine → Prop :=
  | step_create sym nm ow mx im dec bu dw da e' r :
      is_u64 mx → is_u64 im → is_u64 da →
      create_token_ex e sym nm ow mx im dec bu dw da = (e', r) → engine_step e e'
  | step_mint sym c to a e' r : is_u64 a → mint e sym c to a = (e', r) → engine_step e e'
  | step_transfer sym from to a e' r : is_u64 a → transfer e sym from to a = (e', r) → engine_step e e'
  | step_burn sym from a e' r : is_u64 a → burn e sym from a = (e', r) → engine_step e e'
  | step_policy sym c tr tf bf p e' r : set_policy e sym c tr tf bf p = (e', r) → engine_step e e'
  | step_blacklist sym c w b e' r : set_blacklist e sym c w b = (e', r) → engine_step e e'
  | step_exempt sym c w b e' r : set_fee_exempt e sym c w b = (e', r) → engine_step e e'
  | step_limits sym c mt mw e' r : set_limits e sym c mt mw = (e', r) → engine_step e e'
  | step_mint_nft col i ow m e' r : mint_nft e col i ow m = (e', r) → engine_step e e'
  | step_transfer_nft col i from to e' r : transfer_nft e col i from to = (e', r) → engine_step e e'
  | step_create_pool a b f e' r : is_u64 f → create_pool e a b f = (e', r) → engine_step e e'
  | step_add fuel a b pr xa xb e' r :
      is_u64 xa → is_u64 xb → add_liquidity fuel e a b pr xa xb = Some (e', r) → engine_step e e'
  | step_remove a b pr lp e' r : is_u64 lp → remove_liquidity e a b pr lp = (e', r) → engine_step e e'
  | step_swap a b tr x mn e' r : is_u64 x → swap_exact_in e a b tr x mn = (e', r) → engine_step e e'
  | step_route rt tr x mn e' r : is_u64 x → swap_route_exact_in e rt tr x mn = (e', r) → engine_step e e'.

Inductive engine_reachable : TokenEngine → Prop :=
  | reach_empty : engine_reachable engine_empty
  | reach_step e e' : engine_reachable e → engine_step e e' → engine_reachable e'.

Lemma engine_empty_ok : engine_ok engine_empty.
Proof. split; intros ?? H; cbn in H; by rewrite lookup_empty in H. Qed.

(** The settings rewrite one token's metadata. *)
Ltac by_settings Hok :=
  match goal with |- context [tokens ?e !! ?s] => destruct (tokens e !! s) eqn:? end;
  [repeat split_fail Hok|]; intros [= <- <-]; [by eapply settings_ok|done].

Lemma set_policy_ok e sym c tr tf bf p e' r :
  engine_ok e → set_policy e sym c tr tf bf p = (e', r) → engine_ok e'.
Proof. intros Hok. unfold set_policy. by_settings Hok. Qed.
Lemma set_blacklist_ok e sym c w b e' r :
  engine_ok e → set_blacklist e sym c w b = (e', r) → engine_ok e'.
Proof. intros Hok. unfold set_blacklist. by_settings Hok. Qed.
Lemma set_fee_exempt_ok e sym c w b e' r :
  engine_ok e → set_fee_exempt e sym c w b = (e', r) → engine_ok e'.
Proof. intros Hok. unfold set_fee_exempt. by_settings Hok. Qed.
Lemma set_limits_ok e sym c mt mw e' r :
  engine_ok e → set_limits e sym c mt mw = (e', r) → engine_ok e'.
Proof. intros Hok. unfold set_limits. by_settings Hok. Qed.
Lemma mint_nft_ok e col i ow m e' r :
  engine_ok e → mint_nft e col i ow m = (e', r) → engine_ok e'.
Proof. intros Hok. unfold mint_nft. repeat split_fail Hok. all: try by intros [= <- <-]. Qed.
Lemma transfer_nft_ok e col i from to e' r :
  engine_ok e → transfer_nft e col i from to = (e', r) → engine_ok e'.
Proof.
  intros Hok. unfold transfer_nft. destruct (nfts e !! col) as [m|]; [|by intros [= <- <-]].
  destruct (m !! i); [|by intros [= <- <-]]. repeat split_fail Hok. by intros [= <- <-].
Qed.

(** ** Routes *)

Lemma same_funds_bal e e' s w : same_funds e e' → bal_of e' s w = bal_of e s w.
Proof. by intros [_ ->]. Qed.
Lemma quote_pools e e' a b x :
  pools e' !! pool_key a b = pools e !! pool_key a b → quote_exact_in e' a b x = quote_exact_in e a b x.
Proof. unfold quote_exact_in. by intros ->. Qed.
Lemma quote_route_cons e i a b rt x :
  quote_route_from e i (a :: b :: rt) x =
  match quote_exact_in e a b x with
  | Err m => Err ("route hop " +:+ to_string i +:+ " failed: " +:+ m)
  | Ok out => quote_route_from e (i + 1) (b :: rt) out
  end.
Proof. done. Qed.
Lemma swap_route_cons e i a b rt tr x mn :
  swap_route_from e i (a :: b :: rt) tr x mn =
  match swap_exact_in e a b tr x (if bool_decide (rt = []) then mn else 1) with
  | (e', Err m) => (e', Err ("route swap hop " +:+ to_string i +:+ " failed: " +:+ m))
  | (e', Ok out) => swap_route_from e' (i + 1) (b :: rt) tr out mn
  end.
Proof. done. Qed.
Lemma quote_route_pools e e' i rt x :
  (∀ a b, a ∈ rt → b ∈ rt → pools e' !! pool_key a b = pools e !! pool_key a b) →
  quote_route_from e' i rt x = quote_route_from e i rt x.
Proof.
  revert i x. induction rt as [|a rt IH]; intros i x H; [done|]. destruct rt as [|b rt]; [done|].
  rewrite !quote_route_cons, (quote_pools e e') by (apply H; set_solver).
  destruct (quote_exact_in e a b x); [|done]. apply IH. set_solver.
Qed.

(** The net effect of a route: only the trader's first and last token move. *)
Lemma swap_route_from_spec e i rt tr x mn e' r :
  engine_ok e → 0 ≤ x → swap_route_from e i rt tr x mn = (e', r) →
  engine_ok e' ∧
  match r with
  | Err _ => True
  | Ok out =>
      ((2 ≤ length rt)%nat → mn ≤ out) ∧ 0 ≤ out ∧
      (∀ s w, bal_of e' s w = traded e (hd "" rt) (List.last rt "") tr x out s w) ∧
      (NoDup rt → quote_route_from e i rt x = Ok out)
  end.
Proof.
  revert e i x. induction rt as [|a rt IH]; intros e i x Hok Hx.
  { intros [= <- <-]. split_and!; [done|cbn; lia|done| |done].
    intros. unfold traded. cbn. repeat case_decide; lia. }
  destruct rt as [|b rt].
  { intros [= <- <-]. split_and!; [done|cbn; lia|done| |done].
    intros. unfold traded. cbn. repeat case_decide; lia. }
  rewrite swap_route_cons, quote_route_cons. intros H.
  destruct (swap_exact_in e a b tr x _) as [e1 [out1|m]] eqn:Es; cycle 1.
  { injection H as <- <-. split; [|done]. by destruct (swap_step _ _ _ _ _ _ _ _ Hok Hx Es). }
  destruct (swap_step _ _ _ _ _ _ _ _ Hok Hx Es) as (Hok1 & Hq & Hmn & _ & Hb & p & Hp & Hps).
  destruct (quote_formula e a b x out1 Hok Hx Hq) as (q & _ & _ & _ & [Ho _] & _).
  destruct (IH e1 (i + 1) out1 Hok1 ltac:(lia) H) as [Hok' Hr]. split; [done|].
  destruct r as [out|]; [|done]. destruct Hr as (Hmin & H0 & Hbal & Hquote). split_and!; [|done| |].
  - intros _. destruct rt as [|c rt]; [|apply Hmin; cbn; lia].
    injection H as _ <-. by rewrite bool_decide_true in Hmn by done.
  - intros s w. rewrite Hbal. unfold traded. rewrite Hb. unfold traded.
    change (List.last (a :: b :: rt) "") with (List.last (b :: rt) ""). cbn [hd].
    destruct (decide (s = a ∧ w = tr)), (decide (s = b ∧ w = tr)); lia.
  - intros [Ha Hnd]%NoDup_cons. rewrite Hq, <-(Hquote Hnd). symmetry. apply quote_route_pools.
    intros c d Hc Hd. rewrite Hps, lookup_insert_ne; [done|]. intros He.
    destruct (proj2 Hok _ _ Hp) as (Hk & Hord & _).
    destruct (pool_found e a b p Hok Hp) as [[-> ->]|[-> ->]];
      (rewrite Hk in He; symmetry in He; apply (pool_key_inj _ _ _ _ Hord) in He as [[-> ->]|[-> ->]]); done.
Qed.

(** Putting back the snapshot of the tokens and the pools undoes the hops. *)
Lemma swap_from_nfts e a b tr x mn e' r : swap_exact_in e a b tr x mn = (e', r) → nfts e' = nfts e.
Proof.
  unfold swap_exact_in. destruct (is_empty tr); [by intros [= <- _]|].
  destruct (quote_exact_in e a b x); [|by intros [= <- _]].
  destruct (_ <? mn); [by intros [= <- _]|]. destruct (pools e !! _); [|by intros [= <- _]].
  repeat match goal with |- (if ?c then _ else _) = _ → _ => destruct c; [by intros [= <- _]|] end.
  intros H. by apply pair_equal_spec in H as [<- _].
Qed.
Lemma swap_route_nfts e i rt tr x mn e' r : swap_route_from e i rt tr x mn = (e', r) → nfts e' = nfts e.
Proof.
  revert e i x. induction rt as [|a [|b rt] IH]; intros e i x; [by intros [= <- _]..|].
  rewrite swap_route_cons. destruct (swap_exact_in e a b tr x _) as [e1 [out1|m]] eqn:Es.
  - intros H. by rewrite (IH _ _ _ H), (swap_from_nfts _ _ _ _ _ _ _ _ Es).
  - intros [= <- _]. by apply swap_from_nfts in Es.
Qed.

Lemma quote_from_tokens e i a b rt x out :
  engine_ok e → 0 ≤ x → quote_route_from e i (a :: b :: rt) x = Ok out → is_Some (tokens e !! a).
Proof.
  intros Hok Hx. rewrite quote_route_cons. destruct (quote_exact_in e a b x) eqn:Eq; [|done]. intros _.
  destruct (quote_formula e a b x _ Hok Hx Eq) as (p & Hp & _).
  destruct (proj2 Hok _ _ Hp) as (_ & _ & _ & S0 & S1 & _).
  by destruct (pool_found e a b p Hok Hp) as [[-> ->]|[-> ->]].
Qed.

(** A route swap: everything or nothing. *)
Lemma swap_route_spec e rt tr x mn e' r :
  engine_ok e → 0 ≤ x → swap_route_exact_in e rt tr x mn = (e', r) →
  engine_ok e' ∧
  match r with
  | Err _ => same_funds e e' ∧ nfts e' = nfts e
  | Ok out =>
      mn ≤ out ∧ x ≤ bal_of e (hd "" rt) tr ∧
      (∀ s w, bal_of e' s w = traded e (hd "" rt) (List.last rt "") tr x out s w) ∧
      (NoDup rt → quote_route_exact_in e rt x = Ok out)
  end.
Proof.
  intros Hok Hx. unfold swap_route_exact_in. destruct (is_empty tr); [by intros [= <- <-]|].
  destruct (quote_route_exact_in e rt x) as [q|] eqn:Eq; [|by intros [= <- <-]].
  destruct (q <? mn); [by intros [= <- <-]|].
  unfold quote_route_exact_in in Eq. peel Eq.
  assert (Hlen : (2 ≤ length rt)%nat) by by apply Nat.ltb_ge.
  assert (Sa : is_Some (tokens e !! hd "" rt)).
  { destruct rt as [|a [|b rt]]; [cbn in Hlen; lia..|]. by eapply quote_from_tokens. }
  pose proof (touch_moved e (hd "" rt) tr Hok Sa) as M. pose proof (touch_same e (hd "" rt) tr) as Hsame.
  set (e1 := touch_token (hd "" rt) tr e) in *.
  assert (Hok1 : engine_ok e1) by by apply (moved_ok _ _ _ Hok M).
  rewrite (same_funds_bal _ _ _ _ Hsame).
  destruct (Z.ltb_spec (bal_of e (hd "" rt) tr) x); [by intros [= <- <-]|].
  destruct (swap_route_from e1 0 rt tr x mn) as [e2 [out|m]] eqn:Es; intros [= <- <-].
  - destruct (swap_route_from_spec _ _ _ _ _ _ _ _ Hok1 Hx Es) as (Hok2 & Hmn & _ & Hbal & Hq).
    split_and!; [done|by apply Hmn|done| |].
    + intros s w. rewrite Hbal. unfold traded. by rewrite (same_funds_bal e e1).
    + intros Hnd. rewrite <-Eq, <-(Hq Hnd). symmetry. by apply quote_route_pools.
  - apply swap_route_nfts in Es. split_and!; [done|done|done].
Qed.

(** ** Every call keeps the engine's invariant *)

Lemma engine_step_ok e e' : engine_ok e → engine_step e e' → engine_ok e'.
Proof.
  intros Hok Hs.
  destruct Hs; unfold is_u64 in *.
  - eapply (create_token_ex_ok e); [done|..|eassumption]; unfold is_u64; lia.
  - eapply (mint_ok e); [done| |eassumption]; lia.
  - eapply (transfer_ok e); [done| |eassumption]; lia.
  - eapply (burn_ok e); [done| |eassumption]; lia.
  - by eapply (set_policy_ok e).
  - by eapply (set_blacklist_ok e).
  - by eapply (set_fee_exempt_ok e).
  - by eapply (set_limits_ok e).
  - by eapply (mint_nft_ok e).
  - by eapply (transfer_nft_ok e).
  - eapply (create_pool_ok e); [done| |eassumption]; lia.
  - eapply (add_liquidity_ok fuel e); [done|..|eassumption]; lia.
  - eapply (remove_liquidity_ok e); [done| |eassumption]; lia.
  - eapply (swap_step e); [done| |eassumption]; lia.
  - eapply (swap_route_spec e); [done| |eassumption]; lia.
Qed.

Lemma engine_reachable_ok e : engine_reachable e → engine_ok e.
Proof. induction 1; [apply engine_empty_ok|by eapply engine_step_ok]. Qed.

(** C18. Tokens are conserved. In every engine the calls can reach, whatever they were and
    however they failed, no balance is negative, and the balances of a token with what
    the pools hold of it never exceed its recorded supply, which never exceeds its
    maximum. The LP balances of a pool add up to its LP supply. *)
Theorem token_conservation e :
  engine_reachable e →
  (∀ s t, tokens e !! s = Some t →
    (∀ who, 0 ≤ bal t who) ∧ 0 ≤ pooled e s ∧
    map_sum (λ v, v) (balances t) + pooled e s ≤ total_supply t ≤ t_max_supply t) ∧
  (∀ k p, pools e !! k = Some p →
    k = pool_key (token0 p) (token1 p) ∧ 0 ≤ reserve0 p ∧ 0 ≤ reserve1 p ∧ 0 ≤ fee_bps p < 10000 ∧
    map_sum (λ v, v) (lp_balances p) = lp_total_supply p).
Proof.
  intros Hok%engine_reachable_ok. split.
  - intros s t Ht. destruct (proj1 Hok s t Ht) as (F & L & T & _).
    split_and!; [intros who; by apply bal_bounds|by apply pooled_nonneg|exact L|exact T].
  - intros k p Hp. destruct (proj2 Hok k p Hp) as (-> & Ho & _ & _ & _ & ? & ? & ? & _ & ?).
    split_and!; try done; try lia. unfold pool_key. by rewrite Ho.
Qed.

(** C19. A swap is the constant-product trade it was quoted: the trader pays exactly the
    input and gets exactly the quoted output, at least the requested minimum and less
    than the reserve; the product of the reserves does not decrease; no other balance
    and no other pool changes. A refused swap moves nothing. *)
Theorem swap_constant_product e a b tr x mn e' r :
  engine_reachable e → is_u64 x → swap_exact_in e a b tr x mn = (e', r) →
  match r with
  | Err _ => pools e' = pools e ∧ ∀ s w, bal_of e' s w = bal_of e s w
  | Ok out =>
      ∃ p p', pools e !! pool_key a b = Some p ∧ pools e' = <[pool_key a b := p']> (pools e) ∧
        let xf := x * (10000 - fee_bps p) in
        out = xf * reserve_out p a / (reserve_in p a * 10000 + xf) ∧
        0 < out < reserve_out p a ∧ mn ≤ out ∧
        reserve_in p' a = reserve_in p a + x ∧ reserve_out p' a = reserve_out p a - out ∧
        reserve0 p * reserve1 p ≤ reserve0 p' * reserve1 p' ∧ a ≠ b ∧ x ≤ bal_of e a tr ∧
        (∀ s w, bal_of e' s w =
          if decide (s = a ∧ w = tr) then bal_of e a tr - x
          else if decide (s = b ∧ w = tr) then bal_of e b tr + out else bal_of e s w)
  end.
Proof.
  intros Hok%engine_reachable_ok [Hx _] H.
  destruct (swap_step _ _ _ _ _ _ _ _ Hok Hx H) as [_ Hr]. destruct r as [out|]; [|exact Hr].
  destruct Hr as (Hq & Hmn & Hpay & Hb & p & Hp & Hps).
  destruct (quote_formula e a b x out Hok Hx Hq) as (p' & Hp' & _ & _ & Ho & Hf & Hk).
  rewrite Hp in Hp'. injection Hp' as <-. cbn zeta in Hf. exists p, (swap_reserves p a x out).
  assert (Hab : a ≠ b).
  { destruct (proj2 Hok _ _ Hp) as (_ & _ & Hne & _).
    destruct (pool_found e a b p Hok Hp) as [[-> ->]|[-> ->]]; auto using not_eq_sym. }
  assert (Hr : let p' := swap_reserves p a x out in
    reserve_in p' a = reserve_in p a + x ∧ reserve_out p' a = reserve_out p a - out ∧
    reserve0 p * reserve1 p ≤ reserve0 p' * reserve1 p').
  { unfold reserve_in, reserve_out, swap_reserves in *.
    destruct (String.eqb a (token0 p)) eqn:E; cbn; rewrite E; split_and!; lia || nia. }
  destruct Hr as (Hi & Hro & Hprod). cbn zeta. split_and!; try done; try lia.
  intros s w. rewrite Hb. unfold traded.
  destruct (decide (s = a ∧ w = tr)) as [[-> ->]|]; [rewrite decide_False by naive_solver; lia|].
  destruct (decide (s = b ∧ w = tr)) as [[-> ->]|]; lia.
Qed.

(** A swap along a route is atomic: refused at any hop, it moves nothing; accepted, the
    trader has paid the input, received at least the minimum of the last token, and the
    intermediate tokens and everybody else's balances are as before. On a route
    without repetition the amount received is the quoted one. *)
Theorem swap_route_atomic e rt tr x mn e' r :
  engine_reachable e → is_u64 x → swap_route_exact_in e rt tr x mn = (e', r) →
  match r with
  | Err _ => pools e' = pools e ∧ nfts e' = nfts e ∧ ∀ s w, bal_of e' s w = bal_of e s w
  | Ok out =>
      mn ≤ out ∧ x ≤ bal_of e (hd "" rt) tr ∧
      (NoDup rt → quote_route_exact_in e rt x = Ok out) ∧
      (∀ s w, bal_of e' s w = bal_of e s w
        - (if decide (s = hd "" rt ∧ w = tr) then x else 0)
        + (if decide (s = List.last rt "" ∧ w = tr) then out else 0))
  end.
Proof.
  intros Hok%engine_reachable_ok [Hx _] H.
  destruct (swap_route_spec _ _ _ _ _ _ _ Hok Hx H) as [_ Hr]. destruct r as [out|].
  - destruct Hr as (Hmn & Hpay & Hb & Hq). split_and!; try done. intros s w. rewrite Hb.
    unfold traded. case_decide; lia.
  - by destruct Hr as [[? ?] ?].
Qed.

(** ** The route search *)

(** The search's order on candidates: the score, then the output. *)
Definition no_better (s1 q1 s2 q2 : Z) : Prop := s1 < s2 ∨ (s1 = s2 ∧ q1 ≤ q2).
Definition le_best (b c : Best) : Prop := no_better (best_score b) (best_out b) (best_score c) (best_out c).

#[export] Instance le_best_preorder : PreOrder le_best.
Proof.
  unfold le_best, no_better. split; [intros b; lia|intros b c d; lia].
Qed.

Lemma consider_le e cur q b : le_best b (consider e cur q b).
Proof. unfold consider, le_best, no_better. destruct (_ || _) eqn:E; [|lia]. cbn. lia || (bools; lia). Qed.

Lemma consider_new e cur q b :
  le_best (mkBest q (route_score q (length cur - 1)) 0 cur) (consider e cur q b).
Proof.
  unfold consider, le_best, no_better. destruct (_ || _) eqn:E; cbn; [lia|]. bools.
  apply andb_false_iff in H0. destruct (Z.eqb_spec (route_score q (length cur - 1)) (best_score b)), H0; bools; lia.
Qed.
Lemma consider_route e cur q b :
  consider e cur q b = b ∨
  (best_route (consider e cur q b) = cur ∧ best_out (consider e cur q b) = q ∧
   best_score (consider e cur q b) = route_score q (length cur - 1)).
Proof. unfold consider. destruct (_ || _); auto. Qed.

Lemma foldl_preserve {A B} (R : A → A → Prop) `{!PreOrder R} (f : A → B → A) l a :
  (∀ a b, R a (f a b)) → R a (foldl f a l).
Proof. intros Hf. revert a. induction l as [|b l IH]; intros a; cbn; [done|]. etrans; [apply Hf|apply IH]. Qed.
Lemma foldl_inv {A B} (P : A → Prop) (f : A → B → A) l a :
  (∀ a b, P a → P (f a b)) → P a → P (foldl f a l).
Proof. intros Hf. revert a. induction l as [|b l IH]; intros a; cbn; auto. Qed.

Lemma quote_route_snoc e i rt nxt x q out :
  rt ≠ [] → quote_route_from e i rt x = Ok q → quote_exact_in e (List.last rt "") nxt q = Ok out →
  quote_route_from e i (rt ++ [nxt]) x = Ok out.
Proof.
  revert i x. induction rt as [|a [|b rt] IH]; intros i x; [done| |].
  - cbn. intros _ [= ->] Hq. by rewrite Hq.
  - intros _. change ((a :: b :: rt) ++ [nxt]) with (a :: b :: (rt ++ [nxt])).
    rewrite !quote_route_cons. destruct (quote_exact_in e a b x); [|done].
    change (List.last (a :: b :: rt) "") with (List.last (b :: rt) "").
    intros. change (b :: rt ++ [nxt]) with ((b :: rt) ++ [nxt]). by apply IH.
Qed.

(** One step of the loop over the candidates for the next token. *)
Definition dfs_step (hops : nat) (e : TokenEngine) (all : list string) (token_out : string)
    (current : list string) (running : Z) (best : Best) (nxt : string) : Best :=
  if bool_decide (nxt ∈ current) then best
  else match quote_exact_in e (List.last current "") nxt running with
       | Err _ => best
       | Ok out => dfs hops e all token_out (current ++ [nxt]) out best
       end.
Lemma dfs_unfold hops e all token_out cur running b :
  dfs hops e all token_out cur running b =
  if String.eqb (List.last cur "") token_out && (2 <=? length cur)%nat then consider e cur running b
  else match hops with
       | O => b
       | S hops => foldl (dfs_step hops e all token_out cur running) b all
       end.
Proof. by destruct hops. Qed.

Section search.
Context (e : TokenEngine) (all : list string) (token_in token_out : string) (x : Z) (max_hops : nat).

Lemma dfs_le hops cur running b : le_best b (dfs hops e all token_out cur running b).
Proof.
  revert cur running b. induction hops as [|hops IH]; intros cur running b; rewrite dfs_unfold;
    (destruct (_ && _); [apply consider_le|]); [done|].
  apply foldl_preserve; [apply _|]. intros b' nxt. unfold dfs_step.
  destruct (bool_decide _); [done|]. by destruct (quote_exact_in _ _ _ _).
Qed.
Lemma dfs_step_le hops cur running b nxt :
  le_best b (dfs_step hops e all token_out cur running b nxt).
Proof.
  unfold dfs_step. destruct (bool_decide _); [done|].
  destruct (quote_exact_in _ _ _ _); [apply dfs_le|done].
Qed.

(** A route the search may return, with its quote. *)
Definition viable (rt : list string) (q : Z) : Prop :=
  hd "" rt = token_in ∧ List.last rt "" = token_out ∧ NoDup rt ∧
  (2 ≤ length rt ≤ S max_hops)%nat ∧ quote_route_from e 0 rt x = Ok q.
Definition found (b : Best) : Prop :=
  b = mkBest 0 0 0 [] ∨
  (viable (best_route b) (best_out b) ∧
   best_score b = route_score (best_out b) (length (best_route b) - 1)).

Lemma consider_found cur q b :
  String.eqb (List.last cur "") token_out && (2 <=? length cur)%nat = true →
  hd "" cur = token_in → NoDup cur → (length cur ≤ S max_hops)%nat →
  quote_route_from e 0 cur x = Ok q → found b → found (consider e cur q b).
Proof.
  intros [El%String.eqb_eq Hl%Nat.leb_le]%andb_prop Hhd Hnd Hlen Hq Hb.
  destruct (consider_route e cur q b) as [->|(Hr & Ho & Hs)]; [done|].
  right. rewrite Hs, Hr, Ho. split; [|done]. unfold viable. split_and!; done || lia.
Qed.

Lemma dfs_found hops cur running b :
  cur ≠ [] → hd "" cur = token_in → NoDup cur → (length cur + hops ≤ S max_hops)%nat →
  quote_route_from e 0 cur x = Ok running → found b →
  found (dfs hops e all token_out cur running b).
Proof.
  revert cur running b. induction hops as [|hops IH]; intros cur running b Hne Hhd Hnd Hlen Hq Hb;
    rewrite dfs_unfold; (destruct (_ && _) eqn:E; [apply consider_found; done || lia|]); [done|].
  apply (foldl_inv found (dfs_step hops e all token_out cur running)); [|done]. intros b' nxt Hb'. unfold dfs_step.
  case_bool_decide as Hin; [done|]. destruct (quote_exact_in _ _ _ _) as [out|] eqn:Eq; [|done].
  apply IH; [by destruct cur|by destruct cur| | |by eapply quote_route_snoc|done].
  - apply NoDup_app. split_and!; [done|set_solver|apply NoDup_singleton].
  - rewrite length_app. cbn. lia.
Qed.

(** Every extension of the current path that ends in the wanted token is no better
    than what the search returns. *)
Lemma dfs_complete hops cur ext running q b i :
  cur ≠ [] → NoDup (cur ++ ext) → List.last (cur ++ ext) "" = token_out →
  (2 ≤ length (cur ++ ext))%nat → (length ext ≤ hops)%nat → (∀ s, s ∈ ext → s ∈ all) →
  quote_route_from e i (List.last cur "" :: ext) running = Ok q →
  no_better (route_score q (length (cur ++ ext) - 1)) q
    (best_score (dfs hops e all token_out cur running b)) (best_out (dfs hops e all token_out cur running b)).
Proof.
  revert hops cur running b i. induction ext as [|nxt ext IH]; intros hops cur running b i Hne Hnd Hl H2 Hh Hall.
  { rewrite app_nil_r in *. cbn. intros [= <-]. rewrite dfs_unfold, Hl, String.eqb_refl.
    rewrite (proj2 (Nat.leb_le _ _)) by lia. apply (consider_new e cur running b). }
  rewrite quote_route_cons. destruct (quote_exact_in e _ nxt running) as [out|] eqn:Eq; [|done]. intros Hq.
  destruct hops as [|hops]; [cbn in Hh; lia|]. rewrite dfs_unfold.
  assert (Hcur : String.eqb (List.last cur "") token_out = false).
  { apply String.eqb_neq. intros <-. apply NoDup_app in Hnd as (_ & Hd & _).
    apply (Hd (List.last cur "")).
    - destruct (exists_last Hne) as (c & y & ->). rewrite last_last. set_solver.
    - rewrite <-Hl. destruct (@exists_last _ (nxt :: ext) ltac:(done)) as (c & y & ->).
      rewrite app_assoc, last_last. set_solver. }
  rewrite Hcur. cbn [andb].
  destruct (list_elem_of_split all nxt (Hall nxt ltac:(set_solver))) as (l1 & l2 & El).
  replace (foldl (dfs_step hops e all token_out cur running) b all) with
    (foldl (dfs_step hops e all token_out cur running) b (l1 ++ nxt :: l2)) by by rewrite El.
  rewrite foldl_app. cbn [foldl]. set (b1 := foldl _ b l1).
  assert (Hstep : dfs_step hops e all token_out cur running b1 nxt =
                  dfs hops e all token_out (cur ++ [nxt]) out b1).
  { unfold dfs_step. rewrite bool_decide_false, Eq; [done|]. intros Hin.
    apply NoDup_app in Hnd as (_ & Hd & _). apply (Hd nxt Hin). set_solver. }
  rewrite Hstep. clear Hstep.
  assert (Hsplit : cur ++ nxt :: ext = (cur ++ [nxt]) ++ ext) by by rewrite <-app_assoc.
  rewrite Hsplit in *.
  pose proof (IH hops (cur ++ [nxt]) out b1 (i + 1) ltac:(by destruct cur) Hnd Hl H2 ltac:(cbn in Hh; lia)
    ltac:(set_solver)) as Hbest.
  rewrite last_last in Hbest. specialize (Hbest Hq).
  pose proof (foldl_preserve le_best (dfs_step hops e all token_out cur running) l2
    (dfs hops e all token_out (cur ++ [nxt]) out b1) (dfs_step_le hops cur running)) as Hle.
  unfold le_best, no_better in *. lia.
Qed.
End search.

Lemma quote_route_pos e i rt x q :
  engine_ok e → 0 < x → quote_route_from e i rt x = Ok q → 0 < q.
Proof.
  intros Hok. revert i x. induction rt as [|a [|b rt] IH]; intros i x Hx; [by intros [= <-]..|].
  rewrite quote_route_cons. destruct (quote_exact_in e a b x) as [out|] eqn:Eq; [|done]. apply IH.
  destruct (quote_formula e a b x out Hok ltac:(lia) Eq) as (p & _ & _ & _ & [Ho _] & _). exact Ho.
Qed.
Lemma quote_route_tokens e i rt x q :
  engine_ok e → 0 < x → (2 ≤ length rt)%nat → quote_route_from e i rt x = Ok q →
  ∀ s, s ∈ rt → is_Some (tokens e !! s).
Proof.
  intros Hok. revert i x. induction rt as [|a [|b rt] IH]; intros i x Hx; [cbn; lia..|]. intros _.
  rewrite quote_route_cons. destruct (quote_exact_in e a b x) as [out|] eqn:Eq; [|done]. intros Hq.
  destruct (quote_formula e a b x out Hok ltac:(lia) Eq) as (p & Hp & _ & _ & [Ho _] & _).
  destruct (proj2 Hok _ _ Hp) as (_ & _ & _ & S0 & S1 & _).
  assert (Hab : is_Some (tokens e !! a) ∧ is_Some (tokens e !! b))
    by (destruct (pool_found e a b p Hok Hp) as [[-> ->]|[-> ->]]; done).
  destruct rt as [|c rt]; [set_solver|]. intros s [->|Hs]%elem_of_cons; [apply Hab|].
  by eapply (IH _ out); [|cbn; lia|exact Hq|].
Qed.

Lemma route_score_nonneg q h : 0 ≤ route_score q h.
Proof. apply Z.div_pos; [|lia]. apply u64_range. Qed.

(** A route the caller could ask for, with what it pays. *)
Definition candidate (e : TokenEngine) (token_in token_out : string) (x : Z) (hops : nat)
    (rt : list string) (q : Z) : Prop :=
  hd "" rt = token_in ∧ List.last rt "" = token_out ∧ NoDup rt ∧ (length rt ≤ S hops)%nat ∧
  quote_route_exact_in e rt x = Ok q.

