(* ===== verification/TokenState.v ===== *)
(** * The token engine's store ([TokenEngine::dump_state], [TokenEngine::load_state] of
    [src/token_engine.cpp]) and its read-only reports

    The dump is the lines in the order of the iteration over the maps; the reader is a
    fold over the lines. [None] stands for an exception. *)
From S2P Require Import Prelude Strings Lines TokenEngine.

(** ** Reports *)

Definition flag (b : bool) : string := if b then "true" else "false".

Definition token_info (e : TokenEngine) (symbol : string) : result string :=
  match tokens e !! symbol with
  | None => Err "token not found"
  | Some t =>
      Ok ("symbol=" +:+ symbol +:+ " name=" +:+ t_name t +:+ " owner=" +:+ t_owner t +:+
          " decimals=" +:+ to_string (decimals t) +:+ " burnable=" +:+ flag (burnable t) +:+
          " paused=" +:+ flag (paused t) +:+ " transfer_fee_bps=" +:+ to_string (transfer_fee_bps t) +:+
          " burn_fee_bps=" +:+ to_string (burn_fee_bps t) +:+ " treasury_wallet=" +:+ treasury_wallet t +:+
          " max_tx_amount=" +:+ to_string (max_tx_amount t) +:+
          " max_wallet_amount=" +:+ to_string (max_wallet_amount t) +:+
          " max_supply=" +:+ to_string (t_max_supply t) +:+ " total_supply=" +:+ to_string (total_supply t) +:+
          " dev_wallet=" +:+ dev_wallet t +:+ " dev_allocation=" +:+ to_string (dev_allocation t) +:+
          " blacklist_size=" +:+ to_string (Z.of_nat (size (blacklist t))) +:+
          " fee_exempt_size=" +:+ to_string (Z.of_nat (size (fee_exempt t))))
  end.

Definition nft_info (e : TokenEngine) (collection token_id : string) : result string :=
  match nfts e !! collection ≫= λ col, col !! token_id with
  | None => Err "nft not found"
  | Some a => Ok ("owner=" +:+ nft_owner a +:+ " collection=" +:+ collection +:+ " token_id=" +:+ token_id +:+
                  " metadata=" +:+ metadata a)
  end.

(** Both reserves as the caller named the tokens, the fee and the LP supply. *)
Definition pool_info (e : TokenEngine) (token_a token_b : string) : result (Z * Z * Z * Z) :=
  match pools e !! pool_key token_a token_b with
  | None => Err "pool not found"
  | Some p => Ok (reserve_in p token_a, reserve_out p token_a, fee_bps p, lp_total_supply p)
  end.

(** ** Writing *)

Definition bit (b : bool) : string := if b then "1" else "0".

Section dump.
Context `{IterationOrder}.

Definition token_line (sym : string) (t : Token) : string :=
  join "|" ["T"; sym; t_name t; t_owner t; to_string (decimals t); bit (burnable t); dev_wallet t;
            to_string (dev_allocation t); treasury_wallet t; to_string (transfer_fee_bps t);
            to_string (burn_fee_bps t); bit (paused t); to_string (max_tx_amount t);
            to_string (max_wallet_amount t); to_string (t_max_supply t); to_string (total_supply t)].
Definition token_lines (kv : string * Token) : list string :=
  let '(sym, t) := kv in
  token_line sym t ::
  ((λ av, join "|" ["B"; sym; av.1; to_string av.2]) <$> iter_map (balances t)) ++
  ((λ w, join "|" ["X"; sym; w]) <$> iter_set (blacklist t)) ++
  ((λ w, join "|" ["E"; sym; w]) <$> iter_set (fee_exempt t)).

Definition nft_lines (kv : string * gmap string NftAsset) : list string :=
  (λ ia, join "|" ["N"; kv.1; ia.1; nft_owner ia.2; metadata ia.2]) <$> iter_map kv.2.

Definition pool_lines (kv : string * Pool) : list string :=
  let p := kv.2 in
  join "|" ["P"; token0 p; token1 p; to_string (reserve0 p); to_string (reserve1 p); to_string (fee_bps p);
            to_string (lp_total_supply p)] ::
  ((λ av, join "|" ["L"; token0 p; token1 p; av.1; to_string av.2]) <$> iter_map (lp_balances p)).

Definition state_lines (e : TokenEngine) : list string :=
  concat (token_lines <$> iter_map (tokens e)) ++
  concat (nft_lines <$> iter_map (nfts e)) ++
  concat (pool_lines <$> iter_map (pools e)).
Definition dump_state (e : TokenEngine) : string := unlines (state_lines e).
End dump.

(** ** Reading *)

Definition number_or (d : Z) (s : string) : option Z := if is_empty s then Some d else number s.

(** [parse_u64_field]: the whole field is a number. *)
Definition parse_u64_field (s : string) : option Z :=
  if is_empty s then None
  else match stoull 10 s with Some (v, "") => Some v | _ => None end.

Definition load_token (parts : list string) : option (string * Token) :=
  let part i := nth i parts "" in
  let name := if is_empty (part 1%nat) then part 0%nat else part 1%nat in
  if (15 <=? length parts)%nat then
    dec ← number_or 18 (part 3%nat); dev ← number_or 0 (part 6%nat);
    tfb ← number_or 0 (part 8%nat); bfb ← number_or 0 (part 9%nat);
    mt ← number_or 0 (part 11%nat); mw ← number_or 0 (part 12%nat);
    mx ← number (part 13%nat); tot ← number (part 14%nat);
    Some (part 0%nat,
      mkToken name (part 2%nat) (u32 dec) (String.eqb (part 4%nat) "1") (part 5%nat) dev (part 7%nat)
        tfb bfb (String.eqb (part 10%nat) "1") mt mw mx tot ∅ ∅ ∅)
  else if (13 <=? length parts)%nat then
    dec ← number_or 18 (part 3%nat); dev ← number_or 0 (part 6%nat);
    tfb ← number_or 0 (part 8%nat); bfb ← number_or 0 (part 9%nat);
    mx ← number (part 11%nat); tot ← number (part 12%nat);
    Some (part 0%nat,
      mkToken name (part 2%nat) (u32 dec) (String.eqb (part 4%nat) "1") (part 5%nat) dev (part 7%nat)
        tfb bfb (String.eqb (part 10%nat) "1") 0 0 mx tot ∅ ∅ ∅)
  else
    mx ← number (part 2%nat); tot ← number (part 3%nat);
    Some (part 0%nat, mkToken (part 0%nat) (part 1%nat) 18 false "" 0 "" 0 0 false 0 0 mx tot ∅ ∅ ∅).

(** The two layouts of a pool line. *)
Definition pool_fields (parts : list string) : option (string * string * list string) :=
  if (length parts =? 6)%nat then Some (nth 0 parts "", nth 1 parts "", drop 2 parts)
  else if (length parts =? 8)%nat then Some (nth 2 parts "", nth 3 parts "", drop 4 parts)
  else None.
Definition load_pool (parts : list string) : option (string * Pool) :=
  '(t0, t1, nums) ← pool_fields parts;
  let key := pool_key t0 t1 in
  if is_empty key then None
  else
    r0 ← parse_u64_field (nth 0 nums ""); r1 ← parse_u64_field (nth 1 nums "");
    fee ← parse_u64_field (nth 2 nums ""); lps ← parse_u64_field (nth 3 nums "");
    Some (key, mkPool t0 t1 r0 r1 fee lps ∅).

(** [pools_[key]] creates a pool with the declared defaults. *)
Definition empty_pool : Pool := mkPool "" "" 0 0 30 0 ∅.
Definition load_lp (parts : list string) (e : TokenEngine) : option TokenEngine :=
  let key := pool_key (nth 0 parts "") (nth 1 parts "") in
  if negb (length parts =? 4)%nat || is_empty key || is_empty (nth 2 parts "") then None
  else
    v ← parse_u64_field (nth 3 parts "");
    let p := default empty_pool (pools e !! key) in
    Some (put_pool key (set_pool (reserve0 p) (reserve1 p) (lp_total_supply p)
                          (<[nth 2 parts "" := v]> (lp_balances p)) p) e).

Definition add_blacklist (sym w : string) (e : TokenEngine) : TokenEngine :=
  let t := token_at e sym in put_token sym (set_lists ({[w]} ∪ blacklist t) (fee_exempt t) t) e.
Definition add_fee_exempt (sym w : string) (e : TokenEngine) : TokenEngine :=
  let t := token_at e sym in put_token sym (set_lists (blacklist t) ({[w]} ∪ fee_exempt t) t) e.
Definition put_nft (col i : string) (a : NftAsset) (e : TokenEngine) : TokenEngine :=
  put_collection col (<[i := a]> (default ∅ (nfts e !! col))) e.

Definition load_line (line : string) (e : TokenEngine) : option (result TokenEngine) :=
  let '(tag, ls) := getline "|" (Some line) in
  if String.eqb tag "T" then
    let parts := getlines "|" ls in
    if (length parts <? 4)%nat then Some (Err "invalid token state line")
    else
      '(sym, t) ← load_token parts;
      Some (reject_if is_empty sym || is_empty (t_owner t) as "invalid token state line" ;;
            Ok (put_token sym t e))
  else if String.eqb tag "B" then
    let '(sym, ls) := getline "|" ls in let '(addr, ls) := getline "|" ls in
    let '(v, _) := getline "010" ls in
    if is_empty sym || is_empty addr then Some (Err "invalid token balance line")
    else v ← number v; Some (Ok (credit sym addr v e))
  else if String.eqb tag "N" then
    let '(col, ls) := getline "|" ls in let '(i, ls) := getline "|" ls in
    let '(owner, ls) := getline "|" ls in let '(meta, _) := getline "010" ls in
    if is_empty col || is_empty i || is_empty owner then Some (Err "invalid nft line")
    else Some (Ok (put_nft col i (mkNftAsset owner meta) e))
  else if String.eqb tag "P" then
    match load_pool (getlines "|" ls) with
    | None => Some (Err "invalid pool line")
    | Some (key, p) => Some (Ok (put_pool key p e))
    end
  else if String.eqb tag "L" then
    match load_lp (getlines "|" ls) e with
    | None => Some (Err "invalid lp line")
    | Some e => Some (Ok e)
    end
  else if String.eqb tag "X" then
    let '(sym, ls) := getline "|" ls in let '(w, _) := getline "010" ls in
    if is_empty sym || is_empty w then Some (Err "invalid blacklist line")
    else Some (Ok (add_blacklist sym w e))
  else if String.eqb tag "E" then
    let '(sym, ls) := getline "|" ls in let '(w, _) := getline "010" ls in
    if is_empty sym || is_empty w then Some (Err "invalid fee exempt line")
    else Some (Ok (add_fee_exempt sym w e))
  else Some (Ok e).

(** Whatever the engine held is dropped first. *)
Definition load_state (state : string) : TokenEngine * result () :=
  match read_lines load_line engine_empty (getlines "010" (Some state)) with
  | (e, Some r) => (e, r)
  | (_, None) => (engine_empty, Err "invalid token state")
  end.
