(* ===== verification/TokenStateProofs.v ===== *)
(** * The token engine's store reads back what it wrote *)
From S2P Require Import Prelude Strings Lines TokenEngine TokenProofs TokenState.

(** ** Numbers and flags *)

Lemma number_or_to_string d z : is_u64 z → number_or d (to_string z) = Some z.
Proof. intros Hz. unfold number_or. rewrite to_string_empty. by apply number_to_string. Qed.
Lemma parse_u64_to_string z : is_u64 z → parse_u64_field (to_string z) = Some z.
Proof. intros Hz. unfold parse_u64_field. by rewrite to_string_empty, stoull_to_string. Qed.
Lemma bit_eqb b : String.eqb (bit b) "1" = b.
Proof. by destruct b. Qed.

(** ** What can be stored *)

Definition balances_storable (m : gmap string Z) : Prop :=
  map_Forall (λ a v, a ≠ "" ∧ field a ∧ is_u64 v) m.
Definition token_storable (s : string) (t : Token) : Prop :=
  s ≠ "" ∧ t_name t ≠ "" ∧ t_owner t ≠ "" ∧
  Forall field [s; t_name t; t_owner t; dev_wallet t; treasury_wallet t] ∧
  is_u32 (decimals t) ∧
  Forall is_u64 [dev_allocation t; transfer_fee_bps t; burn_fee_bps t; max_tx_amount t;
                 max_wallet_amount t; t_max_supply t; total_supply t] ∧
  balances_storable (balances t) ∧
  Forall last_field (elements (blacklist t)) ∧ Forall last_field (elements (fee_exempt t)).
Definition collection_storable (col : string) (m : gmap string NftAsset) : Prop :=
  col ≠ "" ∧ field col ∧ m ≠ ∅ ∧
  map_Forall (λ i a, i ≠ "" ∧ nft_owner a ≠ "" ∧ field i ∧ field (nft_owner a) ∧
                     free_of "010" (metadata a) = true) m.
Definition pool_storable (k : string) (p : Pool) : Prop :=
  k = pool_key (token0 p) (token1 p) ∧ k ≠ "" ∧
  Forall is_u64 [reserve0 p; reserve1 p; fee_bps p; lp_total_supply p] ∧ balances_storable (lp_balances p).

(** Names are not empty, none contains a separator, and numbers have their width. *)
Definition storable (e : TokenEngine) : Prop :=
  map_Forall token_storable (tokens e) ∧ map_Forall collection_storable (nfts e) ∧
  map_Forall pool_storable (pools e).

#[export] Instance storable_dec e : Decision (storable e).
Proof.
  unfold storable, token_storable, collection_storable, pool_storable, balances_storable. apply _.
Defined.

Lemma name_field s : token_name_ok s = true → field s ∧ s ≠ "".
Proof.
  intros H. pose proof (name_free s H). unfold token_name_ok in H. apply andb_prop in H as [Hne H].
  split; [split; [done|]|by apply is_empty_false, negb_true_iff].
  eapply all_chars_impl; [|exact H]. intros c Hc. cbn beta in *. apply negb_true_iff in Hc.
  apply negb_true_iff. do 3 apply orb_false_elim in Hc as [Hc _].
  apply orb_false_elim in Hc as [_ Hc]. by rewrite Ascii.eqb_sym.
Qed.

#[local] Notation loads := (loads load_line).

(** ** Single lines *)

Ltac by_clean ::= repeat (apply Forall_cons; split); try apply Forall_nil; try done;
  try (by apply to_string_free_of); try (by match goal with |- free_of _ (bit ?b) = true => destruct b end).

Lemma load_token_line sym t e :
  token_storable sym t →
  load_line (token_line sym t) e =
  Some (Ok (put_token sym (mkToken (t_name t) (t_owner t) (decimals t) (burnable t) (dev_wallet t)
    (dev_allocation t) (treasury_wallet t) (transfer_fee_bps t) (burn_fee_bps t) (paused t)
    (max_tx_amount t) (max_wallet_amount t) (t_max_supply t) (total_supply t) ∅ ∅ ∅) e)).
Proof.
  intros (Hs & Hn & Ho & Hf & Hd & Hu & _). unfold load_line, token_line.
  rewrite getline_join by done. cbn [String.eqb Ascii.eqb Bool.eqb].
  rewrite getlines_join; [|cleanup; unfold clean; by_clean|apply to_string_ne].
  cleanup. cbn [length Nat.ltb Nat.leb]. unfold load_token. cbn [length Nat.leb nth].
  rewrite !number_or_to_string, !number_to_string by (done || (unfold is_u64, is_u32 in *; lia)).
  cbn [mbind option_bind]. rewrite !bit_eqb, u32_small by done.
  rewrite (proj2 (is_empty_false _) Hn), (proj2 (is_empty_false _) Hs). cbn [t_owner].
  by rewrite (proj2 (is_empty_false _) Ho).
Qed.

Ltac open_line := unfold load_line; rewrite getline_join by done; cbn [String.eqb Ascii.eqb Bool.eqb].
Lemma load_balance_line sym a v e :
  sym ≠ "" → field sym → a ≠ "" → field a → is_u64 v →
  load_line (join "|" ["B"; sym; a; to_string v]) e = Some (Ok (credit sym a v e)).
Proof.
  intros Hs [Hf _] Ha [Hg _] Hv. open_line. rewrite !getline_join by done.
  rewrite getline_last by by apply to_string_free_of. no_empty. by rewrite number_to_string.
Qed.
Lemma load_blacklist_line sym w e :
  sym ≠ "" → field sym → last_field w →
  load_line (join "|" ["X"; sym; w]) e = Some (Ok (add_blacklist sym w e)).
Proof.
  intros Hs [Hf _] [Hw Hg]. open_line. rewrite getline_join by done.
  rewrite getline_last by done. by no_empty.
Qed.
Lemma load_exempt_line sym w e :
  sym ≠ "" → field sym → last_field w →
  load_line (join "|" ["E"; sym; w]) e = Some (Ok (add_fee_exempt sym w e)).
Proof.
  intros Hs [Hf _] [Hw Hg]. open_line. rewrite getline_join by done.
  rewrite getline_last by done. by no_empty.
Qed.
Lemma load_nft_line col i a e :
  col ≠ "" → field col → i ≠ "" → field i → nft_owner a ≠ "" → field (nft_owner a) →
  free_of "010" (metadata a) = true →
  load_line (join "|" ["N"; col; i; nft_owner a; metadata a]) e = Some (Ok (put_nft col i a e)).
Proof.
  intros Hc [Hf _] Hi [Hg _] Ho [Hh _] Hm. open_line. rewrite !getline_join by done.
  rewrite getline_last by done. no_empty. by destruct a.
Qed.

Lemma pool_storable_names k p :
  pool_storable k p → field (token0 p) ∧ field (token1 p) ∧ token0 p ≠ "" ∧ token1 p ≠ "".
Proof.
  intros (-> & Hk & _). unfold pool_key in Hk.
  destruct (ordered_pair (token0 p) (token1 p)) as [[x y]|] eqn:E; [|done].
  apply ordered_pair_Some in E as ([Fx Nx]%name_field & [Fy Ny]%name_field & [[-> ->]|[-> ->]]); auto.
Qed.
Definition bare_pool (p : Pool) : Pool :=
  mkPool (token0 p) (token1 p) (reserve0 p) (reserve1 p) (fee_bps p) (lp_total_supply p) ∅.

Lemma load_pool_line k p e :
  pool_storable k p →
  load_line (join "|" ["P"; token0 p; token1 p; to_string (reserve0 p); to_string (reserve1 p);
                       to_string (fee_bps p); to_string (lp_total_supply p)]) e =
  Some (Ok (put_pool k (bare_pool p) e)).
Proof.
  intros Hp. destruct (pool_storable_names _ _ Hp) as ([F0 _] & [F1 _] & _).
  destruct Hp as (Hk & Hne & Hu & _). open_line. cleanup.
  rewrite getlines_join; [|unfold clean; by_clean|apply to_string_ne].
  unfold load_pool, pool_fields. cbn [length Nat.eqb mbind option_bind nth drop].
  rewrite <-Hk, (proj2 (is_empty_false _) Hne). by rewrite !parse_u64_to_string.
Qed.
Lemma load_lp_line k p a v e q :
  pool_storable k p → a ≠ "" → field a → is_u64 v → pools e !! k = Some q →
  load_line (join "|" ["L"; token0 p; token1 p; a; to_string v]) e =
  Some (Ok (put_pool k (set_pool (reserve0 q) (reserve1 q) (lp_total_supply q)
                          (<[a := v]> (lp_balances q)) q) e)).
Proof.
  intros Hp Ha [Hf _] Hv Hq. destruct (pool_storable_names _ _ Hp) as ([F0 _] & [F1 _] & _).
  destruct Hp as (Hk & Hne & _). open_line.
  rewrite getlines_join; [|unfold clean; by_clean|apply to_string_ne].
  unfold load_lp. cbn [length Nat.eqb negb orb nth]. rewrite <-Hk, Hq.
  rewrite (proj2 (is_empty_false _) Hne), (proj2 (is_empty_false _) Ha). cbn [orb].
  by rewrite parse_u64_to_string.
Qed.

(** ** Tokens, collections, pools *)

Section readback.
Context `{IterationOrder}.

Definition with_balances (b : gmap string Z) (bl ex : gset string) (t : Token) : Token :=
  set_lists bl ex (set_ledger (total_supply t) b t).
Lemma token_at_put e s t : token_at (put_token s t e) s = t.
Proof. unfold token_at. cbn [tokens put_token]. by rewrite lookup_insert_eq. Qed.
Lemma put_put_token e s t t' : put_token s t (put_token s t' e) = put_token s t e.
Proof. unfold put_token. cbn [tokens nfts pools]. by rewrite insert_insert_eq. Qed.

(** Adding entries one by one to a token just created. *)
Lemma fold_credit sym t b bl ex l e :
  foldl (λ e av, credit sym av.1 av.2 e) (put_token sym (with_balances b bl ex t) e) l =
  put_token sym (with_balances (foldl (λ b av, <[av.1 := av.2]> b) b l) bl ex t) e.
Proof.
  revert b. induction l as [|[a v] l IH]; intros b; cbn [foldl]; [done|].
  unfold credit at 2. rewrite token_at_put, put_put_token. cbn [fst snd].
  change (set_bal a v _) with (with_balances (<[a := v]> b) bl ex t). apply IH.
Qed.
Lemma fold_blacklist sym t b bl ex l e :
  foldl (λ e w, add_blacklist sym w e) (put_token sym (with_balances b bl ex t) e) l =
  put_token sym (with_balances b (foldl (λ s w, {[w]} ∪ s) bl l) ex t) e.
Proof.
  revert bl. induction l as [|w l IH]; intros bl; cbn [foldl]; [done|].
  unfold add_blacklist at 2. rewrite token_at_put, put_put_token.
  change (set_lists _ _ _) with (with_balances b ({[w]} ∪ bl) ex t). apply IH.
Qed.
Lemma fold_exempt sym t b bl ex l e :
  foldl (λ e w, add_fee_exempt sym w e) (put_token sym (with_balances b bl ex t) e) l =
  put_token sym (with_balances b bl (foldl (λ s w, {[w]} ∪ s) ex l) t) e.
Proof.
  revert ex. induction l as [|w l IH]; intros ex; cbn [foldl]; [done|].
  unfold add_fee_exempt at 2. rewrite token_at_put, put_put_token.
  change (set_lists _ _ _) with (with_balances b bl ({[w]} ∪ ex) t). apply IH.
Qed.

Lemma storable_balance m a v :
  balances_storable m → (a, v) ∈ iter_map m → a ≠ "" ∧ field a ∧ is_u64 v.
Proof. intros Hm. rewrite iter_map_perm. intros Hin%elem_of_map_to_list. by apply Hm. Qed.
Lemma token_lines_load sym t e : token_storable sym t → loads e (token_lines (sym, t)) (put_token sym t e).
Proof.
  intros Ht. pose proof Ht as (Hs & _ & _ & Hf & _ & _ & Hb & Hx & He).
  apply Forall_cons in Hf as [Hf _]. cbn [token_lines].
  eapply loads_cons; [by apply join_ne|by apply load_token_line|].
  change (mkToken _ _ _ _ _ _ _ _ _ _ _ _ _ _ ∅ ∅ ∅) with (with_balances ∅ ∅ ∅ t).
  eapply loads_app; [apply (loads_map _ _ (λ e av, credit sym av.1 av.2 e))|].
  { intros [a v] e' (? & ? & ?)%(storable_balance _ _ _ Hb). split; [by apply join_ne|].
    by apply load_balance_line. }
  rewrite fold_credit. eapply loads_app; [apply (loads_map _ _ (λ e w, add_blacklist sym w e))|].
  { intros w e' Hw%(iter_set_Forall _ _ _ Hx). split; [by apply join_ne|by apply load_blacklist_line]. }
  rewrite fold_blacklist.
  replace (put_token sym t e) with
    (foldl (λ e w, add_fee_exempt sym w e)
       (put_token sym (with_balances (balances t) (blacklist t) ∅ t) e) (iter_set (fee_exempt t))).
  - rewrite (fold_insert_map _ (balances t)) by apply iter_map_perm.
    rewrite (fold_insert_set _ (blacklist t)) by apply iter_set_perm.
    rewrite (right_id_L ∅ (∪) (balances t)), (right_id_L ∅ (∪) (blacklist t)).
    apply (loads_map _ _ (λ e w, add_fee_exempt sym w e)).
    intros w e' Hw%(iter_set_Forall _ _ _ He). split; [by apply join_ne|by apply load_exempt_line].
  - rewrite fold_exempt, (fold_insert_set _ (fee_exempt t)) by apply iter_set_perm.
    rewrite (right_id_L ∅ (∪) (fee_exempt t)). by destruct t.
Qed.

Lemma fold_nft col l m e :
  foldl (λ e ia, put_nft col ia.1 ia.2 e) (put_collection col m e) l =
  put_collection col (foldl (λ m ia, <[ia.1 := ia.2]> m) m l) e.
Proof.
  revert m. induction l as [|[i a] l IH]; intros m; cbn [foldl]; [done|]. rewrite <-IH. f_equal.
  unfold put_nft, put_collection. cbn [tokens nfts pools fst snd]. rewrite lookup_insert_eq.
  by rewrite insert_insert_eq.
Qed.
Lemma nft_lines_load col m e :
  collection_storable col m → nfts e !! col = None → loads e (nft_lines (col, m)) (put_collection col m e).
Proof.
  intros (Hc & Hf & Hne & Hm) Hn. unfold nft_lines. cbn [fst snd].
  assert (Hl : ∀ ia, ia ∈ iter_map m → nft_owner ia.2 ≠ "" ∧ ia.1 ≠ "" ∧ field ia.1 ∧
    field (nft_owner ia.2) ∧ free_of "010" (metadata ia.2) = true).
  { intros [i a]. rewrite iter_map_perm. intros Hin%elem_of_map_to_list.
    apply Hm in Hin as (? & ? & ? & ? & ?). done. }
  replace (put_collection col m e) with (foldl (λ e ia, put_nft col ia.1 ia.2 e) e (iter_map m)).
  - apply (loads_map _ _ (λ e ia, put_nft col ia.1 ia.2 e)).
    intros ia e' (? & ? & ? & ? & ?)%Hl. split; [by apply join_ne|by apply load_nft_line].
  - pose proof (iter_map_perm m) as Hp. destruct (iter_map m) as [|[i a] l] eqn:El.
    { by apply Permutation_nil_l, eq_sym, map_to_list_empty_iff in Hp. }
    cbn [foldl fst snd]. unfold put_nft at 2. rewrite Hn. cbn [default].
    rewrite fold_nft. f_equal.
    change (foldl (λ m0 ia, <[ia.1:=ia.2]> m0) (<[i:=a]> ∅) l) with
      (foldl (λ (m0 : gmap string NftAsset) ia, <[ia.1:=ia.2]> m0) ∅ ((i, a) :: l)).
    rewrite (fold_insert_map _ m) by done. apply (right_id_L ∅ (∪)).
Qed.

Definition with_lps (b : gmap string Z) (p : Pool) : Pool :=
  set_pool (reserve0 p) (reserve1 p) (lp_total_supply p) b p.
Lemma pool_lines_load k p e : pool_storable k p → loads e (pool_lines (k, p)) (put_pool k p e).
Proof.
  intros Hp. pose proof Hp as (_ & _ & _ & Hb). unfold pool_lines. cbn [snd].
  eapply loads_cons; [by apply join_ne|by apply load_pool_line|].
  change (bare_pool p) with (with_lps ∅ p).
  enough (G : ∀ l b, (∀ a v, (a, v) ∈ l → a ≠ "" ∧ field a ∧ is_u64 v) →
    loads (put_pool k (with_lps b p) e)
      ((λ av, join "|" ["L"; token0 p; token1 p; av.1; to_string av.2]) <$> l)
      (put_pool k (with_lps (foldl (λ b av, <[av.1 := av.2]> b) b l) p) e)).
  { specialize (G (iter_map (lp_balances p)) ∅ (λ a v, storable_balance _ a v Hb)).
    rewrite (fold_insert_map _ (lp_balances p)), (right_id_L ∅ (∪)) in G by apply iter_map_perm.
    by destruct p. }
  induction l as [|[a v] l IH]; intros b Hl; [apply loads_nil|].
  destruct (Hl a v ltac:(left)) as (? & ? & ?). cbn [fmap list_fmap fst snd foldl].
  eapply loads_cons; [by apply join_ne| |].
  - apply (load_lp_line k p a v _ (with_lps b p)); try done. cbn [pools put_pool]. apply lookup_insert_eq.
  - set (e1 := put_pool k (set_pool _ _ _ _ _) _).
    assert (He1 : e1 = put_pool k (with_lps (<[a := v]> b) p) e)
      by (unfold e1, put_pool; cbn [tokens nfts pools]; by rewrite insert_insert_eq).
    rewrite He1. apply IH. intros a' v' Hin. apply Hl. by apply list_elem_of_further.
Qed.

(** ** The whole dump *)

Lemma fold_tokens l e :
  foldl (λ e kv, put_token kv.1 kv.2 e) e l =
  mkTokenEngine (foldl (λ m kv, <[kv.1 := kv.2]> m) (tokens e) l) (nfts e) (pools e).
Proof. revert e. induction l as [|kv l IH]; intros e; cbn [foldl]; [by destruct e|by rewrite IH]. Qed.
Lemma fold_pools l e :
  foldl (λ e kv, put_pool kv.1 kv.2 e) e l =
  mkTokenEngine (tokens e) (nfts e) (foldl (λ m kv, <[kv.1 := kv.2]> m) (pools e) l).
Proof. revert e. induction l as [|kv l IH]; intros e; cbn [foldl]; [by destruct e|by rewrite IH]. Qed.
Lemma fold_collections l e :
  foldl (λ e kv, put_collection kv.1 kv.2 e) e l =
  mkTokenEngine (tokens e) (foldl (λ m kv, <[kv.1 := kv.2]> m) (nfts e) l) (pools e).
Proof. revert e. induction l as [|kv l IH]; intros e; cbn [foldl]; [by destruct e|by rewrite IH]. Qed.

Lemma nft_lines_loads l e :
  NoDup l.*1 → (∀ col m, (col, m) ∈ l → collection_storable col m ∧ nfts e !! col = None) →
  loads e (concat (nft_lines <$> l)) (foldl (λ e kv, put_collection kv.1 kv.2 e) e l).
Proof.
  revert e. induction l as [|[col m] l IH]; intros e; cbn [fmap list_fmap concat foldl fst snd].
  { intros _ _. apply loads_nil. }
  intros [Hc Hnd]%NoDup_cons Hl. destruct (Hl col m ltac:(left)) as [Hm Hn].
  eapply loads_app; [by apply nft_lines_load|]. apply IH; [done|]. intros col' m' Hin.
  destruct (Hl col' m') as [Hm' Hn']; [by right|]. split; [done|]. cbn [nfts put_collection].
  rewrite lookup_insert_ne; [done|]. intros ->. apply Hc. by apply (list_elem_of_fmap_2 fst) in Hin.
Qed.

Lemma state_lines_load e : storable e → loads engine_empty (state_lines e) e.
Proof.
  intros (Ht & Hn & Hp). unfold state_lines.
  eapply loads_app; [apply (loads_concat _ token_lines (λ e kv, put_token kv.1 kv.2 e))|].
  { intros [s t] e' Hin. apply token_lines_load. by apply (iter_map_Forall _ _ _ _ Ht). }
  rewrite fold_tokens, (fold_insert_map _ (tokens e)) by apply iter_map_perm.
  rewrite (right_id_L ∅ (∪) (tokens e) : tokens e ∪ tokens engine_empty = _).
  eapply loads_app; [apply nft_lines_loads|].
  { rewrite iter_map_perm. apply NoDup_fst_map_to_list. }
  { intros col m Hin. split; [by apply (iter_map_Forall _ _ _ _ Hn)|apply lookup_empty]. }
  rewrite fold_collections, (fold_insert_map _ (nfts e)) by apply iter_map_perm.
  cbn [tokens nfts pools]. rewrite (right_id_L ∅ (∪) (nfts e) : nfts e ∪ nfts engine_empty = _).
  set (e2 := mkTokenEngine (tokens e) (nfts e) _).
  assert (G : loads e2 (concat (pool_lines <$> iter_map (pools e)))
                (foldl (λ e kv, put_pool kv.1 kv.2 e) e2 (iter_map (pools e)))).
  { apply loads_concat. intros [k p] e' Hin. apply pool_lines_load. by apply (iter_map_Forall _ _ _ _ Hp). }
  unfold e2 in G. rewrite fold_pools, (fold_insert_map _ (pools e)) in G by apply iter_map_perm.
  cbn [tokens nfts pools] in G.
  rewrite (right_id_L ∅ (∪) (pools e) : pools e ∪ pools engine_empty = _) in G. by destruct e.
Qed.

(** No line of the dump contains a newline of its own. *)
Lemma state_lines_clean e : storable e → clean "010" (state_lines e).
Proof.
  intros (Ht & Hn & Hp). unfold state_lines. rewrite app_assoc.
  apply Forall_app; split; [apply Forall_app; split|]; apply concat_clean.
  - intros [s t] Hin%(iter_map_Forall _ _ _ _ Ht). destruct Hin as (_ & _ & _ & Hf & _ & _ & Hb & Hx & He).
    cleanup. cbn [token_lines]. apply Forall_cons. split; [by_line|].
    apply Forall_app; split; [|apply Forall_app; split]; apply fmap_clean.
    + intros [a v] (? & [] & ?)%(storable_balance _ _ _ Hb). by_line.
    + intros w []%(iter_set_Forall _ _ _ Hx). by_line.
    + intros w []%(iter_set_Forall _ _ _ He). by_line.
  - intros [col m] Hin%(iter_map_Forall _ _ _ _ Hn). destruct Hin as (? & [] & ? & Hm).
    apply fmap_clean. intros [i a] Hin%(iter_map_Forall _ _ _ _ Hm). cleanup. by_line.
  - intros [k p] Hin%(iter_map_Forall _ _ _ _ Hp).
    destruct (pool_storable_names _ _ Hin) as ([] & [] & _). destruct Hin as (_ & _ & _ & Hb).
    unfold pool_lines. cbn [snd]. apply Forall_cons. split; [by_line|]. apply fmap_clean.
    intros [a v] (? & [] & ?)%(storable_balance _ _ _ Hb). by_line.
Qed.

(** Loading a dump gives the engine back, in whatever order the maps are visited, as long
    as no stored text contains a separator. *)
Theorem load_dump_state e : storable e → load_state (dump_state e) = (e, Ok ()).
Proof.
  intros He. unfold load_state, dump_state. rewrite getlines_unlines by by apply state_lines_clean.
  by rewrite (state_lines_load e He).
Qed.
End readback.
