(* ===== verification/Toy.v ===== *)
(** * Concrete instances for the witnesses

    Executable stand-ins for the third-party primitives and a small network, on
    which the theorems' hypotheses are evaluated. They only show that hypotheses can
    hold together: nothing is proved about the program from them. *)
From S2P Require Import Prelude ConsensusRules Strings Crypto Types Wire WireProofs Block Staking.
From S2P Require Import Shielded Script Chain ChainBlock ChainProofs.

(** A forty-bit polynomial hash of a byte string, as [n] little-endian bytes. *)
Fixpoint poly (h : Z) (s : string) : Z :=
  match s with
  | "" => h
  | String c s => poly (Z.land (h * 263 + byte_of_char c + 1) 1099511627775) s
  end.
Definition toy_hash (n : nat) (s : string) : string := put_le n (poly 7 s).

Lemma toy_hash_length n s : String.length (toy_hash n s) = n.
Proof. apply put_le_length. Qed.

(** A two-byte key signs a message with a digest of both. *)
Definition toy_signature (pk msg : string) : string := toy_hash 8 (pk +:+ msg).

#[export] Instance toy_crypto : Crypto := {|
  evp_sha3_512 := toy_hash 64;
  evp_sha256 := toy_hash 32;
  oqs_sizes s := match s with
                 | MlDsa87 => Some (mkPqKeySizes 2 2 64)
                 | SlhDsaShake256s => Some (mkPqKeySizes 3 3 64)
                 | Unknown => None
                 end;
  oqs_ctx_probe _ := true;
  oqs_sig_verify pk msg sig := String.eqb sig (toy_signature pk msg);
  oqs_sig_verify_with_ctx ctx pk msg sig := String.eqb sig (toy_signature (ctx +:+ pk) msg);
|}.

(** A verifier that accepts every proof. *)
#[export] Instance toy_stark : Stark := {|
  stark_linked := true;
  addition_shielded_image_id := zero_h32;
  addition_shielded_verify _ _ := 0;
|}.

Lemma toy_digests : sha3_512_digests.
Proof. intros s. apply toy_hash_length. Qed.

(** A regtest-like network with staking and the shielded pool on. *)
Definition toy_cfg : ChainConfig := {|
  network_id := "ADDITION_REGTEST_V1"; genesis_timestamp := 1000; max_supply := 50000000;
  block_reward := 50; target_block_time_sec := 60; pow_algorithm := Sha3_512;
  initial_difficulty_target := U64_MAX; min_difficulty_target := 1;
  max_difficulty_target := U64_MAX; retarget_window := 30; difficulty_fork_height := U64_MAX;
  lwma_window := 60; legacy_min_difficulty_target := 0; halving_interval := 210000;
  subsidy_floor := 0; require_pq_signatures := true; allow_zero_reward_blocks := true;
  min_fee := 1; staking_activation_height := 2; stake_min_amount := 10; stake_maturity := 0;
  stake_unbond_delay := 5; stake_votes_per_block := 5; stake_vote_quorum := 1;
  stake_min_live_tickets := 1; stake_reward_bps := 3000; max_block_weight := 2097152;
  shielded_enabled := true;
|}.

Definition alice_pk : string := bytes_to_hex (put_le 2 17).
Definition alice : string := hash_committed_address "ml-dsa-87" (put_le 2 17).
Definition bob_pk : string := bytes_to_hex (put_le 2 23).
Definition bob : string := hash_committed_address "ml-dsa-87" (put_le 2 23).

Definition toy_sign (pk msg : string) : string := "pq=" +:+ bytes_to_hex (toy_signature pk msg).

(** A block on top of [c] with a coinbase of [reward] to [who]. *)
Definition toy_block (c : Chain) (outs : list TxOutput) (txs : list Transaction)
    (vs : list StakeVote) (ss : list SlashEvidence) : Block :=
  let h := next_height c in
  let coinbase := mkTransaction [] outs "" "" "" 0 h "" in
  let body := mkBlock (mkBlockHeader h (hash_block_header (header (tip c))) (1000 + h) 0
                         (chain_target c) "") (coinbase :: txs) vs ss in
  mkBlock (mkBlockHeader h (hash_block_header (header (tip c))) (1000 + h) 0 (chain_target c)
             (compute_block_commitment body)) (coinbase :: txs) vs ss.

Definition toy_add (c : Chain) (b : Block) : Chain := (add_block toy_cfg 5000 c b).1.

Definition sign_tx (pk : string) (tx : Transaction) : Transaction :=
  mkTransaction (inputs tx) (outputs tx) (signer tx) (signer_pubkey tx)
    (toy_sign pk (hash_transaction (unsigned_tx tx))) (fee tx) (nonce tx) (shielded tx).

(** Block 1 pays Alice; in block 2 she locks ten coins as stake and pays Bob. *)
Definition toy0 : Chain := reset toy_cfg.
Definition block1 : Block := toy_block toy0 [mkTxOutput alice 50] [] [] [].
Definition toy1 : Chain := toy_add toy0 block1.
Definition txid_of (b : Block) (n : nat) : string :=
  hash_transaction (nth n (transactions b) empty_transaction).

Definition alice_tx : Transaction :=
  sign_tx (put_le 2 17) (mkTransaction [mkTxInput (txid_of block1 0) 0 ""]
    [mkTxOutput kStakeAddress 10; mkTxOutput bob 30; mkTxOutput alice 8] alice alice_pk "" 2 1 "").
Definition block2 : Block := toy_block toy1 [mkTxOutput bob 52] [alice_tx] [] [].
Definition toy2 : Chain := toy_add toy1 block2.

Lemma toy_blocks_accepted :
  (add_block toy_cfg 5000 toy0 block1).2 = Ok () ∧ (add_block toy_cfg 5000 toy1 block2).2 = Ok ().
Proof. split; vm_compute; reflexivity. Qed.

Lemma toy_reachable : reachable toy_cfg toy1 ∧ reachable toy_cfg toy2.
Proof.
  assert (H1 : reachable toy_cfg toy1).
  { refine (reach_add _ 5000 toy0 block1 toy1 (add_block toy_cfg 5000 toy0 block1).2 _ _ _).
    - constructor.
    - by_eval.
    - unfold toy1, toy_add. apply surjective_pairing. }
  split; [done|].
  refine (reach_add _ 5000 toy1 block2 toy2 (add_block toy_cfg 5000 toy1 block2).2 H1 _ _).
  - by_eval.
  - unfold toy2, toy_add. apply surjective_pairing.
Qed.

(** Block 3 carries Alice's vote on block 2; her later contradicting vote is the
    slash evidence of block 4. *)
Definition ticket : string := outpoint_key (hash_transaction alice_tx) 0.
Definition toy_vote (hash : string) : StakeVote :=
  mkStakeVote ticket 2 hash true
    (toy_sign (put_le 2 17) (stake_vote_message (network_id toy_cfg) 2 hash ticket true)).
Definition vote2 : StakeVote := toy_vote (hash_block_header (header block2)).
Definition block3 : Block :=
  toy_block toy2 [mkTxOutput bob 35; mkTxOutput alice 15] [] [vote2] [].
Definition toy3 : Chain := toy_add toy2 block3.
Definition evidence : SlashEvidence := mkSlashEvidence vote2 (toy_vote "another block").
Definition vote3 : StakeVote :=
  mkStakeVote ticket 3 (hash_block_header (header block3)) true
    (toy_sign (put_le 2 17) (stake_vote_message (network_id toy_cfg) 3
       (hash_block_header (header block3)) ticket true)).
Definition block4 : Block :=
  toy_block toy3 [mkTxOutput bob 35; mkTxOutput alice 15] [] [vote3] [evidence].

Lemma toy_votes_accepted :
  (add_block toy_cfg 5000 toy2 block3).2 = Ok () ∧ (add_block toy_cfg 5000 toy3 block4).2 = Ok () ∧
  validate_block_staking toy_cfg toy2 block3 = Ok ().
Proof. split_and!; vm_compute; reflexivity. Qed.

(** A shielded bundle that spends one note and creates another. *)
Definition h32 (n : Z) : string := put_le 32 n.
Definition toy_note : EncryptedNote := mkEncryptedNote "kem" "aead".
Definition toy_bundle1 : Bundle := mkBundle 20 0 zero_h32 [] [h32 1; h32 2] [toy_note; toy_note] "p".
Definition toy_pool1 : State := apply toy_bundle1 state_init.
Definition toy_bundle2 : Bundle :=
  mkBundle 0 5 (tree_root (tree toy_pool1)) [h32 9] [h32 3] [toy_note] "p".
Definition toy_pool2 : State := apply toy_bundle2 toy_pool1.

Lemma collision_free_dups l :
  NoDup (evp_sha3_512 <$> remove_dups l) → collision_free (.∈ l).
Proof.
  intros Hnd%collision_free_list a b Ha Hb. apply Hnd; by apply elem_of_remove_dups.
Qed.

Lemma pair_with {A B} (x : A * B) b : x.2 = b → x = (x.1, b).
Proof. intros <-. apply surjective_pairing. Qed.

Lemma toy_accept2 : add_block toy_cfg 5000 toy1 block2 = (toy2, Ok ()).
Proof. unfold toy2, toy_add. apply pair_with, toy_blocks_accepted. Qed.
