(* ===== verification/WitnessCore.v ===== *)
(** * Witnesses: the rules, the codecs and the hashes

    Each theorem with hypotheses, applied to concrete values on which its
    hypotheses are evaluated. *)
From S2P Require Import Prelude ConsensusRules Strings Crypto Types Wire WireProofs Block Staking.
From S2P Require Import Shielded ShieldedProofs Script ScriptProofs Chain ChainBlock ChainProofs.
From S2P Require Import Toy.

(** ** Consensus rules *)

Lemma lwma_next_target_exact_witness :
  lwma_next_target [0; 60; 130; 170] [9000; 9000; 9100; 9200] 60 1 U64_MAX 7 =
  lwma_spec [0; 60; 130; 170] [9000; 9000; 9100; 9200] 60 1 U64_MAX.
Proof.
  apply lwma_next_target_exact; try by_eval.
  intros t Ht. apply (proj1 (Forall_forall is_u64 [9000; 9000; 9100; 9200])); [|done].
  by_eval.
Defined.

Lemma lwma_next_target_move_witness :
  let next := lwma_next_target [0; 60; 130; 170] [9000; 9000; 9100; 9200] 60 1 U64_MAX 7 in
  1 ≤ next ≤ U64_MAX ∧ 9200 / 2 ≤ next ≤ 2 * 9200.
Proof.
  apply (lwma_next_target_move [0; 60; 130; 170] [9000; 9000; 9100; 9200] 60 1 U64_MAX 7); try by_eval.
  intros t Ht. apply (proj1 (Forall_forall is_u64 [9000; 9000; 9100; 9200])); [|done].
  by_eval.
Defined.

(** The mainnet schedule: the cap of fifty million is reached at height 27,272,727. *)
Lemma scheduled_total_emission_correct_witness :
  scheduled_total_emission 50000000 4 5681819 1 = (50000000, 27272727) ∧
  emission_result 50000000 4 5681819 1 (scheduled_total_emission 50000000 4 5681819 1).
Proof.
  split; [vm_compute; reflexivity|].
  apply (scheduled_total_emission_correct 50000000 4 5681819 1); lia.
Defined.

(** ** Signatures and addresses *)

Definition toy_query (n : Z) (msg : string) : string * string * string :=
  let pk := bytes_to_hex (put_le 2 n) in (pk, msg, toy_sign (put_le 2 n) msg).
Definition toy_queries : list (string * string * string) :=
  [toy_query 17 "pay bob"; toy_query 17 "pay bob"; (alice_pk, "pay eve", toy_sign (put_le 2 23) "pay eve")].

Lemma sig_cache_equiv_witness :
  (verify_all (sig_cache_clear (mkSigCache true ∅ 0 0)) toy_queries).2 = uncached_query <$> toy_queries ∧
  uncached_query <$> toy_queries = [true; true; false].
Proof.
  split; [|vm_compute; reflexivity]. apply sig_cache_equiv.
  - apply Forall_forall. unfold query_nul_free. by_eval.
  - apply (collision_free_mono _ (.∈ query_preimage <$> toy_queries)).
    + intros s (q & Hq & ->). by apply list_elem_of_fmap_2.
    + apply collision_free_dups. by_eval.
Defined.

(** ** Wire format *)

Definition signed_tx : Transaction :=
  mkTransaction [mkTxInput "abcd" 1 "w"] [mkTxOutput "bob" 5; mkTxOutput "00ff" 6]
    "alice" "abba" "pq=00ff" 3 4 "00aa".

Lemma decode_encode_tx_v3_witness : decode_tx_v3 (encode_tx_v3 signed_tx) = Ok signed_tx.
Proof. apply decode_encode_tx_v3. by_eval. Defined.

Lemma decode_encode_block_v3_witness : decode_block_v3 (encode_block_v3 block4) = Ok block4.
Proof. apply decode_encode_block_v3. by_eval. Defined.

Lemma block_weight_exact_witness : block_weight block2 = str_size (encode_block_v3 block2).
Proof. apply block_weight_exact; vm_compute; reflexivity. Defined.

(** ** Hashes *)

Lemma hash_transaction_commits_witness :
  alice_tx ≠ unsigned_tx alice_tx ∧ unsigned alice_tx = unsigned (unsigned_tx alice_tx).
Proof.
  split; [by vm_compute|]. apply hash_transaction_commits.
  - by_eval.
  - by_eval.
  - apply collision_free_dups. by_eval.
  - vm_compute. reflexivity.
Defined.


(** ** Staking *)

Definition pool3 : list StakeTicket :=
  [mkStakeTicket "b:0" "bob" "" 30 1; mkStakeTicket "a:1" "al" "" 20 1; mkStakeTicket "c:0" "cy" "" 0 2].

Lemma select_tickets_spec_witness :
  NoDup (select_tickets pool3 "seed" 5) ∧
  (∀ i, i ∈ select_tickets pool3 "seed" 5 → ∃ t, t ∈ pool3 ∧ id t = i ∧ 0 < ticket_amount t) ∧
  length (select_tickets pool3 "seed" 5) =
    Nat.min (Z.to_nat 5) (length (positive_tickets pool3)).
Proof.
  apply select_tickets_spec; by_eval.
Defined.

Lemma select_tickets_order_witness :
  select_tickets pool3 "seed" 2 = select_tickets (reverse pool3) "seed" 2.
Proof.
  apply select_tickets_order; [by_eval|].
  symmetry. apply reverse_Permutation.
Defined.

Lemma stake_reward_split_witness :
  0 ≤ stake_reward_per_vote 1003 3000 4 ∧
  stake_reward_per_vote 1003 3000 4 * 4 ≤ stake_reward_pool 1003 3000 ≤ 1003 ∧
  stake_reward_pool 1003 3000 < stake_reward_per_vote 1003 3000 4 * 4 + 4.
Proof. apply stake_reward_split; unfold is_u64; lia. Defined.

Lemma stake_vote_message_binds_witness :
  "NET" = "NET" ∧ 7 = 7 ∧ "ab" = "ab" ∧ "t:0" = "t:0" ∧ true = true.
Proof. apply stake_vote_message_binds; try reflexivity; lia. Defined.

(** ** Shielded pool *)

Lemma from_to_tx_field_witness : from_tx_field (to_tx_field toy_bundle2) = Ok toy_bundle2.
Proof.
  apply from_to_tx_field; [by_eval|].
  vm_compute. congruence.
Defined.

Lemma append_all_root_witness :
  leaves (append_all [h32 1; h32 2; h32 3]) = [h32 1; h32 2; h32 3] ∧
  tree_root (append_all [h32 1; h32 2; h32 3]) = subroot kTreeDepth 0 [h32 1; h32 2; h32 3].
Proof. apply append_all_root. vm_compute. congruence. Defined.

Lemma toy_pool_run : pool_run state_init [toy_bundle1; toy_bundle2] toy_pool2.
Proof.
  apply (pool_spend _ toy_bundle1 ∅); [vm_compute; reflexivity|].
  apply (pool_spend _ toy_bundle2 ∅); [vm_compute; reflexivity|]. apply pool_done.
Qed.

Lemma no_double_spend_witness :
  NoDup ([toy_bundle1; toy_bundle2] ≫= nullifiers) ∧
  ∀ nf, nullifier_spent toy_pool2 nf = true ↔ nf ∈ [toy_bundle1; toy_bundle2] ≫= nullifiers.
Proof. apply (no_double_spend [toy_bundle1; toy_bundle2]), toy_pool_run. Defined.


(** ** Scripts *)

Definition htlc : Node :=
  Or (And (Sha3 (bytes_to_hex (put_le 64 5))) (Pk "bob")) (And (After 100) (Pk "alice")).

Lemma parse_print_witness : parse (print htlc) = Ok htlc.
Proof. apply parse_print. by_eval. Defined.

Lemma parse_sound_witness : print htlc = print htlc ∧ script_wf htlc.
Proof. apply parse_sound. vm_compute. reflexivity. Defined.

Definition htlc_witness : Witness := mkWitness (print htlc) [("abba", "pq=00")] ["00ff"].
Lemma decode_encode_witness_witness :
  decode_witness (encode_witness htlc_witness) = Ok htlc_witness.
Proof. apply decode_encode_witness. by_eval. Defined.

Lemma path_sound_witness :
  let cs := [h32 1; h32 2; h32 3] in
  let sibs := default [] (path 2 (append_all cs)) in
  length sibs = kTreeDepth ∧ climb 2 (h32 3) sibs = tree_root (append_all cs).
Proof.
  apply (path_sound [h32 1; h32 2; h32 3] 2); [vm_compute; congruence|lia|vm_compute; reflexivity].
Defined.
