(* ===== verification/WitnessChain.v ===== *)
(** * Witnesses: the chain and the transaction pool

    The theorems on reachable states and accepted blocks, applied to the blocks of
    [Toy]: a payment with a stake lock, a vote and slash evidence. An order of the pool
    that satisfies the interface, and pools run under it. *)
From stdpp Require Import sorting.
From S2P Require Import Prelude ConsensusRules Strings Crypto Types Wire WireProofs Block Staking.
From S2P Require Import Shielded ShieldedProofs Script ScriptProofs Chain ChainBlock ChainProofs.
From S2P Require Import ChainSupply ChainRules Mempool Toy.

Lemma add_block_error_unchanged_witness :
  let r := add_block toy_cfg 5000 toy1 block1 in
  r.2 = Err "invalid height" ∧ r.1 = toy1.
Proof.
  split; [vm_compute; reflexivity|].
  apply (add_block_error_unchanged toy_cfg 5000 toy1 block1 _ "invalid height").
  - vm_compute. reflexivity.
  - apply pair_with. vm_compute. reflexivity.
Defined.

(** Toy1 reorganises to the longer chain. *)
Definition candidate : list Block := [make_genesis toy_cfg U64_MAX; block1; block2].

Lemma replace_with_chain_spec_witness :
  let r := replace_with_chain toy_cfg 5000 toy1 candidate in
  cumulative_work toy1 < cumulative_work r.1 ∧
  ∃ g bs, candidate = g :: bs ∧ built toy_cfg r.1 bs.
Proof.
  apply (replace_with_chain_spec toy_cfg 5000 toy1 candidate _ (Ok ())).
  - apply toy_reachable.
  - by_eval.
  - apply pair_with. vm_compute. reflexivity.
Defined.

(** The node that reorganised and the node that only extended agree. *)
Lemma state_determined_by_blocks_witness :
  (replace_with_chain toy_cfg 5000 toy1 candidate).1 = toy2.
Proof.
  apply (state_determined_by_blocks toy_cfg).
  - apply (reach_replace _ 5000 toy1 candidate _ (replace_with_chain toy_cfg 5000 toy1 candidate).2).
    + apply toy_reachable.
    + by_eval.
    + apply surjective_pairing.
  - apply toy_reachable.
  - vm_compute. reflexivity.
Defined.

Lemma supply_cap_witness :
  utxo_value (utxo_set toy2) + pool_value (blocks toy2) ≤ total_emitted toy2 ∧
  total_emitted toy2 ≤ max_supply toy_cfg ∧
  total_emitted toy2 ≤
    list_sum (λ b, compute_block_reward toy_cfg (height (header b))) (tail (blocks toy2)).
Proof. apply (supply_cap toy_cfg); [by_eval|vm_compute; congruence..|apply toy_reachable]. Defined.

Lemma chain_linked_witness :
  (∀ i p b, blocks toy2 !! i = Some p → blocks toy2 !! S i = Some b → linked toy_cfg p b) ∧
  cumulative_work toy2 = u64 (total_work (blocks toy2)).
Proof. apply chain_linked; [by_eval|apply toy_reachable]. Defined.

Lemma account_nonces_increase_witness :
  StronglySorted Z.lt (nonces_of alice (blocks toy2 ≫= transactions)) ∧
  signer_last_nonce toy2 !! alice = last (nonces_of alice (blocks toy2 ≫= transactions)) ∧
  signer_last_nonce toy2 !! alice = Some 1.
Proof.
  destruct (account_nonces_increase toy_cfg toy2 alice) as [H1 H2]; [apply toy_reachable|].
  split_and!; [exact H1|exact H2|vm_compute; reflexivity].
Defined.

Lemma accepted_spend_authorized_witness :
  let coinbase := nth 0 (transactions block2) empty_transaction in
  ∃ ck, apply_all toy_cfg (set_applying (height (header block2)) toy1) [coinbase] = (ck, Ok ()) ∧
    (signer alice_tx ≠ "" → signed alice_tx) ∧
    ∀ i, i ∈ inputs alice_tx → ∃ u, unspent (utxo_set ck) (input_key i) = Some u ∧
      if is_empty (signer alice_tx)
      then verify_input (u_owner u) (witness i)
             (mkSpendContext (sighash alice_tx) (next_height ck) (u_height u)) = Ok ()
      else may_spend ck (signer alice_tx) (input_key i) u.
Proof.
  apply (accepted_spend_authorized toy_cfg 5000 toy1 block2 toy2
           [nth 0 (transactions block2) empty_transaction] alice_tx []).
  - apply toy_reachable.
  - apply toy_accept2.
  - vm_compute. reflexivity.
  - vm_compute. discriminate.
Defined.

(** Bob's output of a ticket spend is frozen; here a frozen coin of his own. *)
Definition frozen_chain : Chain :=
  set_utxo_index (<["ab:0" := mkUTXO bob 10 false 9 1]> (utxo_set toy1)) (address_index toy1) toy1.
Definition frozen_tx : Transaction :=
  mkTransaction [mkTxInput "ab" 0 ""] [mkTxOutput alice 9] bob bob_pk "pq=00" 1 1 "".

Lemma frozen_coin_rejected_witness :
  validate_transaction toy_cfg frozen_chain frozen_tx true ≠ Ok ().
Proof.
  apply (frozen_coin_rejected toy_cfg frozen_chain frozen_tx true (mkTxInput "ab" 0 "")
           (mkUTXO bob 10 false 9 1)).
  - apply list_elem_of_here.
  - vm_compute. reflexivity.
  - vm_compute. reflexivity.
Defined.

Lemma apply_transaction_outputs_witness :
  let c := set_applying 2 toy1 in
  let txid := hash_transaction alice_tx in
  ∃ u, unspent (utxo_set (apply_transaction toy_cfg c alice_tx txid true).1)
         (outpoint_key txid (Z.of_nat 1)) = Some u ∧
    u_owner u = bob ∧ u_amount u = 30 ∧
    u_spendable_height u =
      if spends_ticket c alice_tx then u64 (context_height c + stake_unbond_delay toy_cfg) else 0.
Proof.
  apply (apply_transaction_outputs toy_cfg (set_applying 2 toy1) alice_tx
           (hash_transaction alice_tx) true _ 1 (mkTxOutput bob 30)).
  - apply pair_with. vm_compute. reflexivity.
  - reflexivity.
Defined.

Definition ticket_utxo : UTXO := mkUTXO kStakeAddress 10 false 0 2.
Definition alice_ticket : StakeTicket := mkStakeTicket ticket alice alice_pk 10 2.

Lemma slash_burns_witness :
  let c' := burn_ticket toy2 evidence in
  tickets c' !! ticket = None ∧ unspent (utxo_set c') ticket = None ∧
  utxo_value (utxo_set c') = utxo_value (utxo_set toy2) - 10 ∧
  total_slashed c' = total_slashed toy2 + 10 ∧ total_emitted c' = total_emitted toy2.
Proof.
  apply (slash_burns toy2 evidence alice_ticket ticket_utxo).
  - vm_compute. reflexivity.
  - vm_compute. reflexivity.
  - by_eval.
Defined.


(** ** The transaction pool *)

Definition fee_le (a b : Transaction) : Prop := fee_before b a = false.
#[export] Instance fee_le_dec : RelDecision fee_le.
Proof. intros a b. unfold fee_le. apply _. Defined.

(** [fee_before] is a lexicographic order on three numbers. *)
Lemma fee_before_spec a b :
  fee_before a b = true ↔
  fee b < fee a ∨ fee a = fee b ∧ ((length (outputs a) < length (outputs b))%nat ∨
    length (outputs a) = length (outputs b) ∧ nonce a < nonce b).
Proof.
  unfold fee_before. destruct (Z.eqb_spec (fee a) (fee b)); cbn [negb].
  - destruct (Nat.eqb_spec (length (outputs a)) (length (outputs b))); cbn [negb];
      rewrite ?Z.ltb_lt, ?Nat.ltb_lt; lia.
  - rewrite Z.ltb_lt. lia.
Qed.
#[export] Instance fee_le_total : Total fee_le.
Proof.
  intros a b. unfold fee_le. rewrite <-!not_true_iff_false, !fee_before_spec. lia.
Qed.
#[export] Instance fee_le_trans : Transitive fee_le.
Proof.
  intros a b c. unfold fee_le. rewrite <-!not_true_iff_false, !fee_before_spec. lia.
Qed.

Lemma slots_elem l s :
  s ∈ remove_dups (filter (λ s, s ≠ "") (signer <$> l)) ↔ s ≠ "" ∧ s ∈ signer <$> l.
Proof. by rewrite elem_of_remove_dups, list_elem_of_filter. Qed.

#[export] Instance toy_pool_order : MempoolOrder := {|
  fee_sort := merge_sort fee_le;
  fee_sort_perm := merge_sort_Permutation fee_le;
  fee_sort_sorted := StronglySorted_merge_sort fee_le;
  slot_order l := remove_dups (filter (λ s, s ≠ "") (signer <$> l));
  slot_order_nodup l := NoDup_remove_dups _;
  slot_order_elem := slots_elem;
|}.

(** Two transactions that reveal the same nullifier. *)
Definition spend_note (n : Z) : Transaction :=
  mkTransaction [] [mkTxOutput alice 5] "" "" "" n 0 (to_tx_field toy_bundle2).

(** [submit] keeps one of them; [replace], which refills the pool after a
    reorganisation, keeps both. *)
Lemma replace_keeps_conflict :
  let m := (submit mempool_empty (spend_note 1)).1 in
  (submit m (spend_note 2)).2 = false ∧
  pending (replace m [spend_note 1; spend_note 2]) = [spend_note 1; spend_note 2] ∧
  shielded_nullifier_keys (spend_note 1) = shielded_nullifier_keys (spend_note 2).
Proof. vm_compute. auto. Qed.
