(* ===== verification/WitnessMarket.v ===== *)
(** * Witnesses: tokens, pools, routes and their store

    A market of three tokens and two pools, and what the engine does in a few corners. *)
From stdpp Require Import sorting.
From S2P Require Import Prelude ConsensusRules Strings Lines Crypto Types Wire WireProofs Block.
From S2P Require Import Staking Shielded Script Chain ChainBlock ChainProofs ChainSupply Mempool.
From S2P Require Import Mining Wallet WalletProofs TokenEngine TokenProofs TokenSafety TokenState.
From S2P Require Import TokenStateProofs Toy.

(** Containers visited in the order of the finite maps. *)
#[export] Instance toy_order : IterationOrder := {|
  iter_map A m := map_to_list m;
  iter_map_perm A m := reflexivity _;
  iter_set X := elements X;
  iter_set_perm X := reflexivity _;
|}.

Definition run {A} (r : TokenEngine * result A) : TokenEngine := r.1.
Definition run_add (r : option (TokenEngine * result ())) : TokenEngine :=
  match r with Some (e, _) => e | None => engine_empty end.

Definition market1 : TokenEngine := run (create_token engine_empty "AAA" "ann" 1000000 50000).
Definition market2 : TokenEngine := run (create_token market1 "BBB" "ann" 1000000 50000).
Definition market3 : TokenEngine := run (create_token market2 "CCC" "ann" 1000000 50000).
Definition market4 : TokenEngine := run (create_pool market3 "AAA" "BBB" 30).
Definition market5 : TokenEngine := run (create_pool market4 "BBB" "CCC" 30).
Definition market6 : TokenEngine := run_add (add_liquidity 100 market5 "AAA" "BBB" "ann" 10000 20000).
Definition market : TokenEngine := run_add (add_liquidity 100 market6 "BBB" "CCC" "ann" 10000 5000).

Lemma pair_eta {A B} (p : A * B) : p = (p.1, p.2).
Proof. by destruct p. Qed.
Lemma run_add_eq r e x : r = Some (e, x) → r = Some (run_add r, x).
Proof. by intros ->. Qed.

Lemma market5_reachable : engine_reachable market5.
Proof.
  eapply reach_step; [eapply reach_step; [eapply reach_step; [eapply reach_step; [eapply reach_step;
    [apply reach_empty|]|]|]|]|].
  - eapply (step_create _ "AAA" "AAA" "ann" 1000000 50000 18 false "" 0 market1); [by_eval..|apply pair_eta].
  - eapply (step_create _ "BBB" "BBB" "ann" 1000000 50000 18 false "" 0 market2); [by_eval..|apply pair_eta].
  - eapply (step_create _ "CCC" "CCC" "ann" 1000000 50000 18 false "" 0 market3); [by_eval..|apply pair_eta].
  - eapply (step_create_pool _ "AAA" "BBB" 30 market4); [by_eval|apply pair_eta].
  - eapply (step_create_pool _ "BBB" "CCC" 30 market5); [by_eval|apply pair_eta].
Qed.
Lemma market_reachable : engine_reachable market.
Proof.
  eapply reach_step; [eapply reach_step; [apply market5_reachable|]|].
  - eapply (step_add _ 100 "AAA" "BBB" "ann" 10000 20000 market6 (Ok ())); [by_eval..|].
    vm_compute. reflexivity.
  - eapply (step_add _ 100 "BBB" "CCC" "ann" 10000 5000 market (Ok ())); [by_eval..|].
    vm_compute. reflexivity.
Qed.

Lemma isqrt_u64_spec_witness :
  (∃ fuel, isqrt_u64 fuel 200000000 = Some (Z.sqrt 200000000)) ∧ ¬ ∃ fuel, isqrt_u64 fuel 3 = Some (Z.sqrt 3).
Proof.
  destruct (isqrt_u64_spec 200000000) as [_ H1]; [by_eval|].
  destruct (isqrt_u64_spec 3) as [_ H2]; [by_eval|]. split.
  - apply H1. intros n Hn He. assert (n ≤ 14142 ∨ 14143 ≤ n) as [|] by lia; nia.
  - intros Hf. by apply (proj1 H2 Hf 2).
Defined.

(** A first deposit of one and three never returns. *)
Lemma deposit_hangs fuel : add_liquidity fuel market5 "AAA" "BBB" "ann" 1 3 = None.
Proof.
  assert (H : isqrt_u64 fuel 3 = None).
  { apply (isqrt_diverges 2 fuel); [lia|by_eval]. }
  unfold add_liquidity. cbn [is_empty String.eqb orb Z.eqb].
  replace (pools market5 !! pool_key "AAA" "BBB") with (Some (mkPool "AAA" "BBB" 0 0 30 0 ∅))
    by (vm_compute; reflexivity).
  cbn [token0 token1 String.eqb Ascii.eqb Bool.eqb].
  replace (_ || _) with false by (vm_compute; reflexivity).
  unfold lp_minted. cbn [lp_total_supply Z.eqb]. change (U64_MAX / 3 <? 1) with false.
  change (1 * 3) with 3. cbn match. by rewrite H.
Qed.

Lemma token_conservation_witness :
  (∀ s t, tokens market !! s = Some t →
    (∀ who, 0 ≤ bal t who) ∧ 0 ≤ pooled market s ∧
    map_sum (λ v, v) (balances t) + pooled market s ≤ total_supply t ≤ t_max_supply t) ∧
  (∀ k p, pools market !! k = Some p →
    k = pool_key (token0 p) (token1 p) ∧ 0 ≤ reserve0 p ∧ 0 ≤ reserve1 p ∧ 0 ≤ fee_bps p < 10000 ∧
    map_sum (λ v, v) (lp_balances p) = lp_total_supply p).
Proof. apply (token_conservation market). apply market_reachable. Defined.

Lemma swap_constant_product_witness :
  ∃ p p', pools market !! pool_key "AAA" "BBB" = Some p ∧
    pools (run (swap_exact_in market "AAA" "BBB" "ann" 100 190)) =
      <[pool_key "AAA" "BBB" := p']> (pools market) ∧
    reserve0 p * reserve1 p ≤ reserve0 p' * reserve1 p'.
Proof.
  destruct (swap_constant_product market "AAA" "BBB" "ann" 100 190
    (run (swap_exact_in market "AAA" "BBB" "ann" 100 190)) (Ok 197)) as (p & p' & H).
  - apply market_reachable.
  - by_eval.
  - vm_compute. reflexivity.
  - destruct H as (Hp & Hps & _ & _ & _ & _ & _ & Hprod & _).
    exact (ex_intro _ p (ex_intro _ p' (conj Hp (conj Hps Hprod)))).
Defined.

Definition route := ["AAA"; "BBB"; "CCC"].
Lemma swap_route_atomic_witness :
  bal_of (run (swap_route_exact_in market route "ann" 100 90)) "CCC" "ann" =
  bal_of market "CCC" "ann" + 96 ∧
  (let r := swap_route_exact_in market route "ann" 100 97 in pools r.1 = pools market).
Proof.
  split.
  - pose proof (swap_route_atomic market route "ann" 100 90
      (run (swap_route_exact_in market route "ann" 100 90)) (Ok 96)) as H.
    destruct H as (_ & _ & _ & H); [apply market_reachable|by_eval|vm_compute; reflexivity|].
    rewrite H. vm_compute. reflexivity.
  - pose proof (swap_route_atomic market route "ann" 100 97
      (run (swap_route_exact_in market route "ann" 100 97)) (Err "slippage exceeded on route")) as H.
    destruct H as (H & _); [apply market_reachable|by_eval|vm_compute; reflexivity|exact H].
Defined.


(** ** The store *)

Lemma load_dump_state_witness : load_state (dump_state market) = (market, Ok ()).
Proof. apply (load_dump_state market). by_eval. Defined.

(** An account name with a separator is not storable, and forges a balance: one unit sent
    to it comes back from the store as nine million units of another account, above the
    token's maximum supply. *)
Definition forged_name : string := "mal|9000000".
Definition before_restart : TokenEngine := run (transfer market "AAA" "ann" forged_name 1).
Definition after_restart : TokenEngine := run (load_state (dump_state before_restart)).

Lemma store_forges_balance :
  engine_reachable before_restart ∧ bal_of before_restart "AAA" "mal" = 0 ∧
  (load_state (dump_state before_restart)).2 = Ok () ∧
  bal_of after_restart "AAA" "mal" = 9000000 ∧ t_max_supply (token_at after_restart "AAA") = 1000000.
Proof.
  split; [|by_eval].
  refine (reach_step market before_restart market_reachable
    (step_transfer market "AAA" "ann" forged_name 1 before_restart
      (transfer market "AAA" "ann" forged_name 1).2 _ (pair_eta _))).
  by_eval.
Qed.

(** ** Alice's wallet *)

(** The wallet of a two-byte key. *)
Definition toy_wallet (k : Z) : Wallet :=
  mkWallet (hash_committed_address "ml-dsa-87" (put_le 2 k)) (bytes_to_hex (put_le 2 k)) (toy_sign (put_le 2 k)).
Definition alice_wallet : Wallet := toy_wallet 17.
Definition bob_wallet : Wallet := toy_wallet 23.

Lemma toy_signature_hex pk msg :
  let b := toy_signature pk msg in
  is_ok (is_hex_strict (bytes_to_hex b) 128) = true ∧ hex_to_bytes (bytes_to_hex b) = Ok b ∧
  negb (is_empty b) = true ∧ (String.length b <=? 64)%nat = true.
Proof.
  intros b. assert (Hl : String.length b = 8%nat) by apply toy_hash_length.
  assert (Hne : b ≠ "") by (intros E; by rewrite E in Hl).
  assert (Hhex : bytes_to_hex b ≠ "").
  { intros E. apply (f_equal String.length) in E. rewrite bytes_to_hex_length, Hl in E. discriminate. }
  split_and!.
  - unfold is_hex_strict. rewrite (proj2 (is_empty_false _) Hhex), bytes_to_hex_length, Hl, bytes_to_hex_chars.
    reflexivity.
  - apply hex_to_bytes_to_hex; [exact Hne|]. rewrite Hl. apply Nat.leb_le. reflexivity.
  - by rewrite (proj2 (is_empty_false _) Hne).
  - by rewrite Hl.
Qed.

Lemma toy_signs k msg :
  hex_to_bytes (bytes_to_hex (put_le 2 k)) = Ok (put_le 2 k) → is_ok (is_hex_strict (bytes_to_hex (put_le 2 k)) 4) = true →
  verify_message_signature_hybrid_uncached (bytes_to_hex (put_le 2 k)) msg (toy_sign (put_le 2 k) msg) = true.
Proof.
  intros Hk Hx. destruct (toy_signature_hex (put_le 2 k) msg) as (H1 & H2 & H3 & H4). unfold toy_sign.
  set (h := bytes_to_hex (toy_signature (put_le 2 k) msg)) in *.
  assert (Hs : substr_from ("pq=" +:+ h) 3 = h) by reflexivity.
  unfold verify_message_signature_hybrid_uncached. rewrite Hs. clear Hs.
  change (starts_with "pq=" ("pq=" +:+ h)) with true. rewrite bytes_to_hex_length, put_le_length.
  change (Nat.even (2 * 2)) with true. change (Nat.div2 (2 * 2)) with 2%nat.
  change (infer_sig_scheme_from_key_bytes 2) with MlDsa87.
  change (get_scheme_sizes MlDsa87) with (Some (mkPqKeySizes 2 2 64)).
  cbn [public_key signature_len]. rewrite Hk.
  change (64 * 2)%nat with 128%nat. rewrite H1, H2, H3, H4.
  unfold pq_verify_message. cbn [oqs_sizes toy_crypto public_key signature_len oqs_sig_verify].
  rewrite String.eqb_refl, H3, H4, put_le_length.
  change (2 * 2)%nat with 4%nat. rewrite Hx. vm_compute. reflexivity.
Qed.

Lemma alice_wallet_ok : wallet_ok alice_wallet.
Proof. split; [vm_compute; reflexivity|]. intros msg. apply toy_signs; vm_compute; reflexivity. Qed.
Lemma bob_wallet_ok : wallet_ok bob_wallet.
Proof. split; [vm_compute; reflexivity|]. intros msg. apply toy_signs; vm_compute; reflexivity. Qed.

Definition alice_send : result Transaction := build_signed_send toy_cfg no_view alice_wallet toy2 bob 5 2.

(** Alice owns one unspent coin of 8: she can pay 5 with a fee of 2 but not 50. *)
Lemma build_signed_send_spec_witness :
  is_ok alice_send = true ∧
  match alice_send with
  | Err e => e = "insufficient balance" ∧ available no_view toy2 (address alice_wallet) < 5 + 2
  | Ok tx =>
      5 + 2 ≤ available no_view toy2 (address alice_wallet) ∧ validate_transaction toy_cfg toy2 tx true = Ok () ∧
      head (outputs tx) = Some (mkTxOutput bob 5) ∧
      Forall (λ o, recipient o = address alice_wallet) (tail (outputs tx)) ∧
      ∃ taken, inputs_hold no_view toy2 (address alice_wallet) (inputs tx) taken ∧
        list_sum entry_value taken = list_sum amount (outputs tx) + fee tx
  end ∧
  (build_signed_send toy_cfg no_view alice_wallet toy2 bob 50 2 = Err "insufficient balance").
Proof.
  split; [vm_compute; reflexivity|]. split; [|vm_compute; reflexivity].
  apply (build_signed_send_spec toy_cfg no_view alice_wallet toy2 bob 5 2).
  - by_eval.
  - apply toy_reachable.
  - exact alice_wallet_ok.
  - split; [by_eval|discriminate].
  - discriminate.
  - discriminate.
  - reflexivity.
  - by_eval.
  - by_eval.
  - by_eval.
Defined.

(** The balances of the toy chain after Alice's stake and payment. *)
Lemma reachable_typed_witness :
  (∀ k u, utxo_set toy2 !! k = Some u → is_u64 (u_amount u) ∧
     ∃ i, key_input k = Some (Ok i) ∧ is_u32 (output_index i) ∧ outpoint_key (previous_txid i) (output_index i) = k) ∧
  (∀ who, owned (utxo_set toy2) who ≤ Chain.balance_of toy2 who ≤ U64_MAX) ∧
  (∀ who pk, pubkey_registry toy2 !! who = Some pk → signer_binds_pubkey who pk = Ok ()) ∧
  applying_height toy2 = 0.
Proof.
  apply (reachable_typed toy_cfg toy2); [by_eval|apply toy_reachable].
Defined.
