(* ===== verification/WitnessMining.v ===== *)
(** * Witnesses: mining

    The theorems on the nonce search and on block production, applied to searches that
    run the race of [PowSearch] on the toy chain. *)
From S2P Require Import Prelude ConsensusRules Strings Crypto Types Wire WireProofs Block Staking.
From S2P Require Import Shielded Script Chain ChainBlock ChainProofs Mempool MempoolProofs PowSearch.
From S2P Require Import Mining MiningProofs Toy WitnessChain.

(** ** A race of two workers *)

(** Nonce 1 meets the target, nonce 0 does not. *)
Definition race_header : BlockHeader := mkBlockHeader 1 "" 0 0 0 "".
Definition race_cfg : PowSearchConfig :=
  mkPowSearchConfig Sha3_512 (default 0 (hash_head64 (nonce_hash race_header 1))) 0 0.
Definition race_hash : string := nonce_hash race_header 1.
Definition race_won : PowSearchResult := mkPowSearchResult true false false 1 race_hash.

Lemma nonce_0_misses : nonce_meets race_header race_cfg 0 = Some false.
Proof. vm_compute. reflexivity. Qed.
Lemma nonce_1_hits : nonce_meets race_header race_cfg 1 = Some true.
Proof. vm_compute. reflexivity. Qed.

Local Ltac advance := eapply rtc_l; [eexists|].
Local Ltac fire := first [reflexivity|lia|by_eval].

(** Worker 0 misses between worker 1's hit and its claim. *)
Lemma race_won_possible : search_block_pow race_header race_cfg 2 race_won.
Proof.
  eexists. split; [|split].
  - advance; [apply (scan_on race_header race_cfg 2 1 _ 1); fire|].
    advance; [apply (scan_on race_header race_cfg 2 0 _ 0); fire|].
    advance; [apply (poll_hit race_header race_cfg 2 1 _ 1); [reflexivity|apply nonce_1_hits]|].
    advance; [apply (poll_miss race_header race_cfg 2 0 _ 0); [reflexivity|apply nonce_0_misses]|].
    advance; [apply (claim_won race_header race_cfg 2 1 _ 1); reflexivity|].
    advance; [apply (scan_end race_header race_cfg 2 0 _ 2); [reflexivity|by right]|].
    advance; [apply (store_nonce race_header race_cfg 2 1 _ 1); reflexivity|].
    advance; [apply (store_hash race_header race_cfg 2 1 _ 1); reflexivity|].
    apply rtc_refl.
  - repeat constructor.
  - reflexivity.
Qed.

Lemma pow_search_spec_witness :
  r_header_hash race_won = hash_block_header (with_nonce race_header (r_nonce race_won)) ∧
  pow_meets_target (algorithm race_cfg) (r_header_hash race_won) (target race_cfg) = Some true.
Proof.
  apply (pow_search_spec race_header race_cfg 2 ltac:(by_eval) race_won race_won_possible).
  reflexivity.
Defined.

(** ** A search of one worker *)

(** It tries nonce 0 and is then told to stop. *)
Definition toy_outcome (h : BlockHeader) (sc : PowSearchConfig) : PowSearchResult :=
  match nonce_meets h sc 0 with
  | Some true => mkPowSearchResult true false false 0 (nonce_hash h 0)
  | _ => mkPowSearchResult false false true 0 ""
  end.
Definition toy_search : Search := mkSearch "regtest" 0 5000 toy_outcome.

Lemma toy_search_runs h sc : search_block_pow h sc 1 (outcome toy_search h sc).
Proof.
  assert (Hi : race_init sc 1 = mkRace false false false 0 "" [Scanning 0]).
  { unfold race_init, n_threads, resolve_mine_threads. cbn. by destruct (threads sc) as [|[|]]. }
  unfold outcome, toy_search, toy_outcome. destruct (nonce_meets h sc 0) as [[]|] eqn:Hn.
  - eexists. split; [|split].
    + rewrite Hi. advance; [apply (scan_on h sc 1 0 _ 0); fire|].
      advance; [apply (poll_hit h sc 1 0 _ 0); [reflexivity|exact Hn]|].
      advance; [apply (claim_won h sc 1 0 _ 0); reflexivity|].
      advance; [apply (store_nonce h sc 1 0 _ 0); reflexivity|].
      advance; [apply (store_hash h sc 1 0 _ 0); reflexivity|].
      apply rtc_refl.
    + repeat constructor.
    + reflexivity.
  - eexists. split; [|split].
    + rewrite Hi. advance; [apply (scan_on h sc 1 0 _ 0); fire|].
      advance; [apply (poll_stop h sc 1 0 _ 0); reflexivity|]. apply rtc_refl.
    + repeat constructor.
    + reflexivity.
  - eexists. split; [|split].
    + rewrite Hi. advance; [apply (scan_on h sc 1 0 _ 0); fire|].
      advance; [apply (poll_stop h sc 1 0 _ 0); reflexivity|]. apply rtc_refl.
    + repeat constructor.
    + reflexivity.
Qed.

(** Bob mines block 3 with Alice's vote on block 2. *)
Lemma vote_block_mined :
  is_ok (mine_and_add_block_with_votes toy_cfg 1003 toy_search toy2 bob [] [vote2] []).2 = true.
Proof. vm_compute. reflexivity. Qed.

Lemma mined_block_spec_witness :
  ∃ c' hash, mine_and_add_block_with_votes toy_cfg 1003 toy_search toy2 bob [] [vote2] [] = (c', Ok hash) ∧
  let vs := if staking_active_at toy_cfg (next_height toy2) then [vote2] else [] in
  ∃ b owners, add_block toy_cfg (clock toy_search) toy2 b = (c', Ok ()) ∧ blocks c' = blocks toy2 ++ [b] ∧
    hash = hash_block_header (header b) ∧ tail (transactions b) = [] ∧ votes b = vs ∧
    list_sum amount (front_outputs b) = max_mintable_at toy_cfg toy2 (next_height toy2) + list_sum fee [] ∧
    rewards_match (front_outputs b) owners (per_vote_reward toy_cfg toy2 [] vs) = true ∧
    (if 0 <? per_vote_reward toy_cfg toy2 [] vs then paid_owners toy2 (approvals vs) owners else owners = []).
Proof.
  pose proof vote_block_mined as Hok.
  destruct (mine_and_add_block_with_votes toy_cfg 1003 toy_search toy2 bob [] [vote2] []) as [c' [hash|e]] eqn:Hrun;
    [|discriminate Hok].
  exists c', hash. split; [reflexivity|].
  apply (mined_block_spec toy_cfg 1 1003 toy_search toy2 bob [] [vote2] [] c' hash).
  - by_eval.
  - by_eval.
  - by_eval.
  - constructor.
  - by_eval.
  - exact toy_search_runs.
  - exact Hrun.
Defined.

(** ** An empty block *)

(** The weight of an empty block on [toy1], whatever its nonce. *)
Lemma empty_block_fits b n :
  empty_block toy_cfg b toy1 bob 1002 →
  block_weight (mkBlock (with_nonce (header b) n) (transactions b) [] []) ≤ max_block_weight toy_cfg.
Proof.
  intros (Htx & Hv & Hs & Hm & Hh & Hp & Ht & Hd). unfold compute_block_commitment in Hm.
  rewrite Hv, Hs, Htx in Hm. unfold block_weight, with_nonce.
  cbn [header previous_hash merkle_root transactions]. rewrite Hm, Htx, Hp. vm_compute. discriminate.
Qed.

Lemma empty_block_found b :
  empty_block toy_cfg b toy1 bob 1002 →
  found (outcome toy_search (header b) (search_config toy_cfg toy_search b)) = true.
Proof.
  intros (Htx & Hv & Hs & Hm & Hh & Hp & Ht & Hd). unfold compute_block_commitment in Hm.
  rewrite Hv, Hs, Htx in Hm. unfold outcome, toy_search, toy_outcome, nonce_meets, nonce_hash, with_nonce, search_config.
  cbn [algorithm target]. rewrite Hm, Hh, Hp, Ht, Hd. vm_compute. reflexivity.
Qed.

Lemma empty_block_extends_witness :
  ∃ c' hash, mine_and_add_block toy_cfg 1002 toy_search toy1 bob [] = (c', Ok hash) ∧
    length (blocks c') = S (length (blocks toy1)) ∧ height_of c' = height_of toy1 + 1.
Proof.
  apply (empty_block_extends toy_cfg 1 1002 toy_search toy1 bob).
  1-6, 10, 14: by_eval.
  - vm_compute. reflexivity.
  - discriminate.
  - discriminate.
  - vm_compute. discriminate.
  - by_eval.
  - vm_compute. discriminate.
  - intros b Hb n. exact (empty_block_fits b n Hb).
  - exact toy_search_runs.
  - exact empty_block_found.
Defined.

(** ** The miner's pool *)

Definition toy_miner : Miner := mkMiner toy1 (pool_after [OpSubmit alice_tx]) 0 0 0 0.

Lemma mining_keeps_transactions_witness :
  let '(m', r) := mine_next_block toy_cfg 1002 toy_search (Some []) None 100000 bob 10 toy_miner in
  ∃ fetched rest,
    fetched ++ rest ≡ₚ pending (m_pool toy_miner) ∧
    let valid := filter (λ tx, is_ok (validate_transaction toy_cfg (m_chain toy_miner) tx true) = true) fetched in
    match r with
    | Err _ => pending (m_pool m') ≡ₚ rest ++ valid
    | Ok _ => ∃ b, add_block toy_cfg (clock toy_search) (m_chain toy_miner) b = (m_chain m', Ok ()) ∧
                   tail (transactions b) ++ pending (m_pool m') ≡ₚ rest ++ valid
    end.
Proof.
  assert (Hm : m_pool toy_miner = pool_after [OpSubmit alice_tx])
    by (unfold toy_miner; cbn [m_pool]; reflexivity).
  pose proof (mining_keeps_transactions toy_cfg 1002 toy_search (Some []) None 100000 bob 10
                [OpSubmit alice_tx] toy_miner Hm) as H. revert H.
  destruct (mine_next_block toy_cfg 1002 toy_search (Some []) None 100000 bob 10 toy_miner) as [m' r].
  exact (λ H, H).
Defined.
