(* ===== verification/WitnessNet.v ===== *)
(** * Witnesses: onions, the engines beside the chain, and the command interfaces *)
From S2P Require Import Prelude ConsensusRules Strings Lines Crypto Toy WitnessMarket Onion OnionProofs.
From S2P Require Import Bridge BridgeProofs RpcAccess RpcProofs.

(** ** An onion for three hops

    A key encapsulation that hides nothing, of the sizes of ML-KEM-1024. *)
#[export] Instance toy_onion : OnionCrypto := {|
  OQS_KEM_new := Some (mkKemLengths kKemPk kKemSk kKemCt);
  OQS_KEM_encaps coins pk := Some (resize kKemCt coins, xor (take 32 (resize kKemCt coins)) (take 32 pk));
  OQS_KEM_decaps sk ct := Some (xor (take 32 ct) (take 32 sk));
  HMAC_sha3_512 key msg := resize 64 (key ++ msg);
  aes_256_ctr key n := resize n key;
|}.

Definition route_pk (x : Z) : Bytes := replicate kKemPk x.
Definition route_sk (x : Z) : Bytes := replicate kKemSk x.
Definition toy_hops : list OnionHop :=
  [mkOnionHop (route_pk 3) "c1" 120 900; mkOnionHop (route_pk 5) "c2" 110 800; mkOnionHop (route_pk 9) "" 100 700].

Lemma toy_primitives : primitives_ok.
Proof.
  split; [reflexivity| |].
  - intros coins pk ct ss [= <- _]. apply resize_length.
  - intros key n. apply resize_length.
Qed.
Lemma toy_keypair x : keypair (route_pk x) (route_sk x).
Proof.
  split; [apply length_replicate|]. split; [apply length_replicate|]. intros coins.
  eexists _, _. split; [reflexivity|]. cbn [OQS_KEM_decaps toy_onion]. unfold route_pk, route_sk.
  by rewrite !take_replicate.
Qed.
Lemma toy_hops_ok : Forall2 (λ h sk, hop_ok h ∧ keypair (pubkey h) sk) toy_hops [route_sk 3; route_sk 5; route_sk 9].
Proof.
  repeat (constructor; [split; [|apply toy_keypair]|]); [..|constructor].
  all: unfold hop_ok, is_u64; cbn; repeat split; lia.
Qed.

Lemma onion_peels_witness :
  chans_ok toy_hops ∧
  ∃ packet ps, build toy_hops "pay" [] (λ n, replicate n 7) = Ok packet ∧ length packet = kPacket ∧
    peel_all [route_sk 3; route_sk 5; route_sk 9] packet "pay" = Ok ps ∧ Forall2 learns ps toy_hops.
Proof.
  assert (Hc : chans_ok toy_hops) by (cbn; repeat split; discriminate). split; [exact Hc|].
  apply (onion_peels toy_hops [route_sk 3; route_sk 5; route_sk 9] "pay" [] (λ n, replicate n 7)).
  - exact toy_primitives.
  - intros n. apply length_replicate.
  - unfold toy_hops, kMaxHops. cbn [length]. lia.
  - exact toy_hops_ok.
  - exact Hc.
Defined.

(** ** The bridge

    Alice attests; the replay of her attestation and a burn without a user are refused. *)
Definition bridge_att (tag : string) (n : Z) : string := toy_sign (put_le 2 17) (Bridge.request tag "eth" "bob" n).
Definition bridge_calls : list Call :=
  [CRegister "eth"; CSetKey "eth" alice_pk; CLock "eth" "bob" 100;
   CMintAttested "eth" "bob" 60 (bridge_att "bridge_mint" 60);
   CMintAttested "eth" "bob" 60 (bridge_att "bridge_mint" 60);
   CMint "eth" "carol" 90; CBurn "eth" "carol" 30; CBurn "eth" "" 0;
   CReleaseAttested "eth" "bob" 40 (bridge_att "bridge_release" 40)].


(** 150 coins are minted against 100 locked. *)
Lemma mint_reserves_nothing :
  let e := (run ∅ (take 7 bridge_calls)).1 in
  pool e "eth" = 100 ∧ Bridge.wrapped_balance e "eth" "bob" + Bridge.wrapped_balance e "eth" "carol" = 120.
Proof. vm_compute. split; reflexivity. Qed.

(** After a burn without a user name, which is refused, the saved engine is not read back. *)
Lemma refused_burn_unreadable :
  let e := (run ∅ [CRegister "eth"]).1 in
  let e' := (Bridge.burn_wrapped e "eth" "" 0).1 in
  is_ok (Bridge.burn_wrapped e "eth" "" 0).2 = false ∧
  (Bridge.load_state (Bridge.dump_state e)).2 = Some (Ok ()) ∧
  (Bridge.load_state (Bridge.dump_state e')).2 = Some (Err "invalid bridge wrapped line").
Proof. vm_compute. conjs; reflexivity. Qed.

Definition saved_bridge : gmap string Bridge.ChainState := (run ∅ (take 7 bridge_calls)).1.
Lemma load_dumped_bridge_witness :
  storable saved_bridge ∧ Bridge.load_state (Bridge.dump_state saved_bridge) = (saved_bridge, Some (Ok ())).
Proof.
  assert (H : bool_decide (storable saved_bridge) = true) by (vm_compute; reflexivity).
  apply bool_decide_eq_true_1 in H. split; [exact H|]. exact (load_dumped_bridge saved_bridge H).
Defined.

(** ** The command interfaces *)

(** A server that counts the commands it runs and answers with the line. *)
#[export] Instance toy_rpc : Rpc nat := {|
  run_command n cmd line trusted := (S n, line);
  network_mode _ := "regtest";
  strict_admin_mode _ := true;
|}.

Lemma http_serves_text_witness :
  dispatch_public_read_rpc 0%nat "getblock 7&x=%+" = (1%nat, "getblock 7&x=%+") ∧
  dispatch_public_read_rpc 0%nat (get_request "getblock 7&x=%+") =
  (1%nat, http_rpc_response 200 "getblock 7&x=%+" text_plain).
Proof.
  split; [vm_compute; reflexivity|].
  exact (http_serves_text 0%nat "getblock 7&x=%+" ltac:(discriminate) eq_refl).
Defined.

Lemma jsonrpc_serves_text_witness :
  dispatch_public_read_rpc 0%nat "getblock 7 full" = (1%nat, "getblock 7 full") ∧
  dispatch_public_read_rpc 0%nat (post_request "getblock" ["7"; "full"] "id 1") =
  (1%nat, http_rpc_response 200 (jsonrpc_result_body (json_text "id 1") "getblock 7 full") app_json).
Proof.
  split; [vm_compute; reflexivity|].
  pose proof (jsonrpc_serves_text 0%nat "getblock" ["7"; "full"] "id 1" eq_refl) as H.
  apply H; [by repeat constructor|reflexivity].
Defined.

(** A tab in a parameter splits it into two words of the command. *)
Lemma tab_splits_parameter :
  let line := (dispatch_public_jsonrpc 0%nat "getblock" [String "7" (String tab "9")] "1").2 in
  line = jsonrpc_result_body "1" ("getblock 7" +:+ String tab "9") ∧
  word (skip_spaces (word ("7" +:+ String tab "9")).2) = ("9", "").
Proof. vm_compute. split; reflexivity. Qed.

(** A request cut off after a comma is accepted. *)
Lemma truncated_request_accepted :
  parse_jsonrpc_request ("{" +:+ RpcAccess.field "jsonrpc" (quoted "2.0") +:+ "," +:+
    RpcAccess.field "method" (quoted "peers") +:+ ",") = ("null", Ok ("peers", [])).
Proof. vm_compute. reflexivity. Qed.
