(* ===== verification/WitnessChannel.v ===== *)
(** * Witnesses: payment channels

    Bob funds channels with Alice on the toy chain; they pay, route a payment, and one
    of them cheats. Then the same two as nodes that negotiate their channel by messages: honest
    updates, and the messages that take Bob's money without a preimage. *)
From S2P Require Import Prelude ConsensusRules Strings Lines Crypto Types Wire WireProofs Block.
From S2P Require Import Staking Shielded Script ScriptProofs Chain ChainBlock Mempool Channel.
From S2P Require Import ChannelPenalty ChannelProofs ChannelRoute ChannelPeer ChannelText Wallet.
From S2P Require Import WalletProofs ChannelOpen Onion RChannel RChannelOut RChannelProofs.
From S2P Require Import RChannelUpdate Toy WitnessMarket WitnessNet.

Definition toy_open : result (Channel * Channel * list Transaction) :=
  open_channel no_view toy2 bob_wallet alice_wallet 20 5 "aa" "bb".
Definition dead : Channel := new_channel "" "" (λ _, "") "" true (mkInfo "" "" 0 "" 0 0 0) "".
Definition bob_end : Channel := match toy_open with Ok (c, _, _) => c | Err _ => dead end.
Definition alice_end : Channel := match toy_open with Ok (_, c, _) => c | Err _ => dead end.

Lemma toy_open_ok : is_ok toy_open = true.
Proof. vm_compute. reflexivity. Qed.

Definition pre : string := "c0ffee".
Definition toy_ops : list (bool * Op) :=
  [(true, OPay 4); (true, OAdd 3 (hash_preimage_hex pre) 50); (false, OPay 100); (false, OSettle 0 pre);
   (false, OAdd 2 (hash_preimage_hex pre) 50); (true, OFail 1); (true, OPay 8)].


Definition toy_run : option (Channel * Channel * list (result ())) := run_ops toy_ops bob_end alice_end.
Lemma toy_run_verdicts :
  (λ r, (cur r.1.1, r.2)) <$> toy_run =
  Some (mkState 5 8 12 [] 2, [Ok (); Ok (); Err "insufficient channel balance"; Ok (); Ok (); Ok (); Err "insufficient channel balance"]).
Proof. vm_compute. reflexivity. Qed.

(** A second channel, from Alice to Bob, extends the route. *)
Definition toy_open2 : result (Channel * Channel * list Transaction) :=
  open_channel no_view toy2 alice_wallet bob_wallet 7 0 "cc" "dd".
Definition alice_end2 : Channel := match toy_open2 with Ok (c, _, _) => c | Err _ => dead end.
Definition bob_end2 : Channel := match toy_open2 with Ok (_, c, _) => c | Err _ => dead end.
Lemma toy_open2_ok : is_ok toy_open2 = true.
Proof. vm_compute. reflexivity. Qed.

Lemma opened_linked v c ka kb cap push sa sb r :
  open_channel v c ka kb cap push sa sb = r → is_ok r = true → wallet_ok ka → wallet_ok kb → is_u64 cap → 0 ≤ push →
  let ca := match r with Ok (c, _, _) => c | Err _ => dead end in
  let cb := match r with Ok (_, c, _) => c | Err _ => dead end in
  linked ca cb ∧ cur ca = mkState 0 (cap - push) push [] 0 ∧ info_fee (info ca) = 1.
Proof.
  intros Ho Hok Ha Hb Hc Hp. destruct r as [[[ca cb] txs]|]; [|done].
  by destruct (open_channel_linked _ _ _ _ _ _ _ _ _ _ _ Ha Hb Hc Hp Ho) as (? & ? & ? & ? & ?).
Qed.
Lemma ends_linked : linked bob_end alice_end ∧ cur bob_end = mkState 0 15 5 [] 0 ∧ info_fee (info bob_end) = 1.
Proof.
  apply (opened_linked no_view toy2 bob_wallet alice_wallet 20 5 "aa" "bb" toy_open);
    [reflexivity|exact toy_open_ok|exact bob_wallet_ok|exact alice_wallet_ok|by_eval|done].
Qed.
Lemma ends2_linked : linked alice_end2 bob_end2 ∧ cur alice_end2 = mkState 0 7 0 [] 0 ∧ info_fee (info alice_end2) = 1.
Proof.
  apply (opened_linked no_view toy2 alice_wallet bob_wallet 7 0 "cc" "dd" toy_open2);
    [reflexivity|exact toy_open2_ok|exact alice_wallet_ok|exact bob_wallet_ok|by_eval|done].
Qed.

(** Bob pays 2 to himself through Alice, who keeps a fee of 1. *)
Definition toy_store : list Channel := [bob_end; alice_end; alice_end2; bob_end2].
Definition toy_route : list Hop := [mkHop 0 1; mkHop 2 3].
Lemma route_payment_atomic_witness :
  hop_amounts 2 2 1 0 toy_route = [(mkHop 0 1, 3); (mkHop 2 3, 2)] ∧
  ∃ store' r, route_payment toy_store toy_route 2 pre 100 10 1 = Some (store', r) ∧
    same_at (.∉ route_ends toy_route) toy_store store' ∧
    match r with
    | Ok _ => Forall (λ ha, affords toy_store ha.1 ha.2) (hop_amounts (length toy_route) 2 1 0 toy_route) ∧
        Forall (λ ha, hop_moved toy_store store' ha.1 ha.2) (hop_amounts (length toy_route) 2 1 0 toy_route)
    | Err _ => ¬ Forall (λ ha, affords toy_store ha.1 ha.2) (hop_amounts (length toy_route) 2 1 0 toy_route) ∧
        Forall (λ h, hop_moved toy_store store' h 0) toy_route
    end.
Proof.
  split; [reflexivity|]. destruct ends_linked as (L1 & C1 & F1), ends2_linked as (L2 & C2 & F2).
  apply (route_payment_atomic toy_store toy_route 2 pre 100 10 1).
  - exact toy_digests.
  - intros E. apply (f_equal is_empty) in E. vm_compute in E. discriminate E.
  - by_eval.
  - constructor; [|constructor; [|constructor]]; cbn [fst snd].
    + exists bob_end, alice_end. rewrite C1, F1. split; [split; [reflexivity|split; [reflexivity|assumption]]|]. by_eval.
    + exists alice_end2, bob_end2. rewrite C2, F2. split; [split; [reflexivity|split; [reflexivity|assumption]]|]. by_eval.
Defined.

(** Bob pays 4 and then broadcasts the state before the payment. *)
Definition ends_after (r : option (Channel * Channel * result ())) : Channel * Channel :=
  match r with Some (p, q, _) => (p, q) | None => (dead, dead) end.
Definition after_pay : Channel * Channel := ends_after (pay bob_end alice_end 4).
Definition cheat : Transaction := signed_local_commitment bob_end.
Definition victim : Channel := after_pay.2.
Definition leaked : string := rev_secret bob_end 0.

Lemma victim_sides :
  is_a victim = false ∧ String.eqb (local_address victim) alice = true ∧ String.eqb (local_public_key victim) alice_pk = true.
Proof. conjs; vm_compute; reflexivity. Qed.
Lemma victim_knows :
  candidates victim 0 = [mkState 0 15 5 [] 0] ∧ remote_secrets victim !! 0 = Some leaked ∧
  remote_hashes victim !! 0 = Some (hash_preimage_hex leaked).
Proof. conjs; vm_compute; reflexivity. Qed.

Lemma victim_linked : linked after_pay.1 victim.
Proof.
  destruct ends_linked as (L & Hc & Hf).
  destruct (run_op_refines true bob_end alice_end (OPay 4) 0 toy_digests L) as (p & q & Hrun & Hl & _).
  - rewrite Hc. by_eval.
  - cbn. rewrite Hf. lia.
  - unfold victim, after_pay. cbn [run_op driver] in Hrun. rewrite Hrun. exact Hl.
Qed.

Lemma victim_ok : channel_ok victim.
Proof.
  split.
  - split; vm_compute; reflexivity.
  - split; vm_compute; reflexivity.
  - vm_compute. reflexivity.
  - split; vm_compute; [discriminate|reflexivity].
  - split; vm_compute; [discriminate|reflexivity].
  - split; [split; vm_compute; reflexivity|vm_compute; discriminate].
  - vm_compute. reflexivity.
  - exact (k_sign _ _ (l_qp _ _ victim_linked)).
Qed.

Lemma cheat_facts :
  is_hash_arg (hash_preimage_hex leaked) ∧ is_lower_hex_max leaked (2 * kMaxPreimageBytes) = true ∧ nonce cheat = 0 ∧
  unsigned cheat = unsigned (remote_commitment victim (hash_preimage_hex leaked) (mkState 0 15 5 [] 0)) ∧
  takeable victim cheat = 14.
Proof. conjs; [split; vm_compute; reflexivity|vm_compute; reflexivity..]. Qed.
Lemma cheat_collision_free : collision_free (.∈ penalty_hashed victim cheat (hash_preimage_hex leaked)).
Proof. apply collision_free_dups. by_eval. Qed.
Lemma cheat_fee : info_fee (info victim) = 1.
Proof. vm_compute. reflexivity. Qed.

(** Alice takes the 14 that the old state gives Bob, less the fee. *)
Lemma revoked_commitment_punished_witness :
  ∃ t, penalty_for victim cheat = Some t ∧
    outputs t = [mkTxOutput (local_address victim) (takeable victim cheat - info_fee (info victim))] ∧
    fee t = info_fee (info victim) ∧ NoDup (output_index <$> inputs t) ∧
    (∀ v o, outputs cheat !! v = Some o → recipient o ≠ local_address victim → Z.of_nat v ∈ output_index <$> inputs t) ∧
    ∀ i, i ∈ inputs t → previous_txid i = hash_transaction cheat ∧
      ∃ o, outputs cheat !! Z.to_nat (output_index i) = Some o ∧
        ∀ h uh, verify_input (recipient o) (witness i) (mkSpendContext (sighash t) h uh) = Ok ().
Proof.
  destruct victim_knows as (Hcand & Hsec & Hhash), cheat_facts as (Hr & Hl & Hn & Hu & Ht).
  apply (revoked_commitment_punished victim victim_ok leaked (mkState 0 15 5 [] 0) cheat).
  - exact toy_digests.
  - exact Hr.
  - exact Hl.
  - rewrite Hn. exact Hsec.
  - rewrite Hn. exact Hhash.
  - rewrite Hn, Hcand. apply list_elem_of_singleton. reflexivity.
  - rewrite Hn, Hcand. constructor; [by_eval|constructor].
  - exact Hu.
  - exact cheat_collision_free.
  - rewrite cheat_fee, Ht. split; [reflexivity|discriminate].
Defined.

(** ** A proposed update *)

(** Alice, who has an HTLC offered by Bob waiting, is asked to settle one of her own. *)
Definition local_side : Channel :=
  mkChannel "addr-b" "pk-b" (λ _, "") "pk-a" false (mkInfo "addr-a" "addr-b" 100 "tx" 0 6 1) "seed"
    (mkState 4 50 20 [mkHtlc 0 false 30 (hash_preimage_hex pre) 70] 1) None "sig" None ∅ ∅ ∅ ∅.
Definition asked : State := mkState 5 80 20 [] 1.
Definition asked_more : State := mkState 5 90 10 [] 1.

Lemma local_side_sound : sound (info local_side) (cur local_side).
Proof.
  split; [reflexivity|by_eval|by_eval|by_eval|]. constructor; [|constructor].
  split; [reflexivity|split; [vm_compute; reflexivity|reflexivity]].
Qed.

(** With the preimage she gives the HTLC up and no more. *)
Lemma classify_peer_update_safe_witness :
  (∃ y, Some (mkHtlc 0 false 30 (hash_preimage_hex pre) 70) = Some y ∧ y ∈ htlcs (cur local_side) ∧
    offered_by_a y = is_a local_side ∧ hash_preimage_hex pre = payment_hash y ∧
    claim (is_a local_side) (cur local_side) - h_amount y ≤ claim (is_a local_side) asked) ∧
  classify_peer_update local_side asked "" 60 = Err "bad preimage" ∧
  classify_peer_update local_side asked_more pre 60 = Err "htlc removal does not balance".
Proof.
  split; [|split; vm_compute; reflexivity].
  assert (E : classify_peer_update local_side asked pre 60 =
              Ok (SettleHtlc, Some (mkHtlc 0 false 30 (hash_preimage_hex pre) 70))) by (vm_compute; reflexivity).
  exact (classify_peer_update_safe local_side asked pre 60 SettleHtlc (Some (mkHtlc 0 false 30 (hash_preimage_hex pre) 70))
    local_side_sound ltac:(apply NoDup_singleton) ltac:(constructor) E).
Defined.

(** ** The channel file *)

(** Alice in the middle of an update, with an abandoned state of the same number. *)
Definition saved : Channel :=
  let s n a b := mkState n a b [mkHtlc 0 false 3 "ab12" 70] 1 in
  mkChannel "addr-b" "pk-b" (λ m, m) "pk-a" false (mkInfo "addr-a" "addr-b" 100 "" 0 6 1) "seed"
    (s 4 50 47) (Some (s 5 40 57)) "sig" (Some "sig2") {[4 := "h4"; 5 := "h5"; 10 := "h10"]} {[3 := "s3"]}
    {[3 := s 3 60 37; 2 := mkState 2 60 40 [] 0]} {[5 := [s 5 45 52; s 5 30 67]]}.

Lemma saved_ok : file_ok saved.
Proof.
  split.
  - repeat constructor; discriminate.
  - split; [by left|discriminate].
  - split; [right; by split|discriminate].
  - by_eval.
  - by_eval.
  - intros s [= <-]. by_eval.
  - intros s [= <-]. by split.
  - apply map_Forall_to_list. repeat constructor; discriminate.
  - apply map_Forall_to_list. repeat constructor; discriminate.
  - apply map_Forall_to_list. by_eval.
  - apply map_Forall_to_list. by_eval.
  - reflexivity.
Qed.

(** ** Corners of the protocol *)

(** The capacity check sums modulo 2^64: balances far above the capacity pass it. *)
Lemma validate_next_wraps : validate_next bob_end (mkState 1 U64_MAX 21 [] 0) = Ok ().
Proof. vm_compute. reflexivity. Qed.

(** A payment of 2^64 - 1 wraps together with the reserve: the payer gains one. *)
Lemma pay_wraps :
  (λ r, (cur r.1.1, r.2)) <$> pay bob_end alice_end U64_MAX = Some (mkState 1 16 4 [] 0, Ok ()).
Proof. vm_compute. reflexivity. Qed.

(** Only the length of a payment hash is checked: this HTLC is accepted, and the script
    of its output, whose revocation branch the penalty needs, does not parse. *)
Fixpoint letters (n : nat) : string := match n with O => "" | S n => String "G" (letters n) end.
Definition odd_htlc : Htlc := mkHtlc 0 true 3 (letters 128) 50.
Lemma odd_htlc_accepted :
  validate_next bob_end (mkState 1 12 5 [odd_htlc] 1) = Ok () ∧
  is_ok (parse (penalty_htlc_script alice_end (rev_hash bob_end 1) odd_htlc)) = false.
Proof. split; vm_compute; reflexivity. Qed.

(** A revocation of a number that was revoked before is accepted again, and replaces the
    hash of a commitment that may already be signed. *)
Lemma stale_revocation_accepted :
  let '(c, r) := receive_revoke victim (mkRevoke 0 leaked (zeros 128)) in
  r = Ok () ∧ remote_hashes victim !! 2 = Some (rev_hash bob_end 2) ∧ remote_hashes c !! 2 = Some (zeros 128).
Proof. vm_compute. split_and!; reflexivity. Qed.

(** ** Channels between nodes *)

#[export] Instance toy_env : ChanEnv := {|
  load_wallet_keys _ := Err "unknown wallet";
  random_hex _ := Err "RAND_bytes failed";
  onion_keygen _ := None;
  disk_takes _ _ := true;
  junk := 0;
|}.

(** A server with one channel and, for its first HTLC, the HTLC it was forwarded from. *)
Definition serving (c : Channel) : Server :=
  mkServer {["ab" := new_remote "w" "peer" "open" c]} ∅ true ∅ {["ab:0" := "cd:5"]} ∅ [] "" [] [] ∅ 0 ∅ None None.
Definition say (ms : list string) (s : Server) : Server := foldl (λ s m, (handle_channel_message 100 7 s m).1) s ms.
Definition state_of (s : Server) : option State := (λ r, cur (ch r)) <$> rchannels s !! "ab".

(** Bob offers Alice an HTLC of 10; she is to settle it. *)
Definition offered : Channel * Channel := 
  ends_after (update bob_end alice_end (with_htlc bob_end 10 (hash_preimage_hex pre) 50)).
Definition upd (c : Channel) (next : State) (kind extra : string) : string :=
  join "|" ["UPD"; "ab"; encode_state next; cs_sig (sign_remote_commitment c next); kind; extra].
Definition rev (c : Channel) (n : Z) : string :=
  join "|" ["REV"; "ab"; to_string n; rev_secret c n; rev_hash c (n + 2)].
Definition settled : State := mkState 2 5 15 [] 1.

Lemma offered_state : state_of (serving offered.1) = Some (mkState 1 5 5 [mkHtlc 0 true 10 (hash_preimage_hex pre) 50] 1).
Proof. vm_compute. reflexivity. Qed.

(** Alice proposes to set Bob's balance to 2^64-1; the sum of the state wraps to the
    capacity. Then she gives the HTLC back, and the balance wraps to 9. *)
Definition wrapped : State := mkState 2 U64_MAX 11 [mkHtlc 0 true 10 (hash_preimage_hex pre) 50] 1.
Definition robbed : State := mkState 3 9 11 [] 1.
Definition later (c : Channel) (h : string) : Channel := set_remote (<[3 := h]> (remote_hashes c)) (remote_secrets c) c.
Lemma wrapped_update_steals :
  let a := offered.2 in
  let s := say [upd a wrapped "PAY" "-"; rev a 1; upd (later a (rev_hash offered.1 3)) robbed "FAIL" "-"; rev a 2]
             (serving offered.1) in
  state_of s = Some robbed ∧ mclaim true robbed = 9 ∧ mclaim true <$> state_of (serving offered.1) = Some 15.
Proof. vm_compute. auto. Qed.

(** Alice has 9; she pays Bob 5 and revokes, instead of the state she leaves, the one
    before it once more. Bob moves on without the means to punish a return to it. *)
Definition paid : Channel * Channel := after_pay.
Lemma stale_rev_accepted :
  let s := say [upd paid.2 (mkState 2 16 4 [] 0) "PAY" "-";
                join "|" ["REV"; "ab"; "0"; rev_secret paid.2 0; rev_hash paid.2 3]] (serving paid.1) in
  state_of s = Some (mkState 2 16 4 [] 0) ∧
  (λ r, remote_secrets (ch r) !! 1) <$> rchannels s !! "ab" = Some None.
Proof. vm_compute. auto. Qed.

(** Two HTLCs of one identifier pass for a payment: the identifiers of [n.htlcs] are
    compared as a set. *)
Lemma duplicate_htlcs_accepted :
  let h := mkHtlc 0 true 10 (hash_preimage_hex pre) 50 in
  classify_peer_update offered.1 (mkState 2 5 5 [h; h] 1) "" 7 = Ok (Pay, None).
Proof. vm_compute. reflexivity. Qed.

(** ** The honest settlement *)

Definition settle_update : string := upd offered.2 settled "SETTLE" pre.
Definition settle_rev : string := rev offered.2 1.
Definition before : Server := serving offered.1.
Definition between : Server := (handle_channel_message 100 7 before settle_update).1.

Lemma before_ok : srv_ok before.
Proof.
  split; [reflexivity| |apply map_Forall_empty].
  apply map_Forall_singleton. split; cbn [ch new_remote].
  - split; [by_eval|]. vm_compute. repeat constructor.
  - intros E. apply (f_equal is_empty) in E. vm_compute in E. discriminate E.
  - intros E. vm_compute in E. discriminate E.
  - intros p E. vm_compute in E. discriminate E.
Qed.

(** The update was noted; the revocation that follows takes it in and queues the preimage
    for the channel the HTLC came from. *)
Definition noted : RemoteChannel := default (new_remote "" "" "" dead) (rchannels between !! "ab").
Definition rev_fields : list string := split_bar "|" settle_rev.
Definition after : Server := (handle_rev between "ab" noted rev_fields).1.
Definition taken : RemoteChannel := default (new_remote "" "" "" dead) (rchannels after !! "ab").
Lemma between_ok : srv_ok between.
Proof. refine (proj1 (message_kept 100 7 before settle_update before_ok _)). vm_compute. reflexivity. Qed.
Lemma noted_at : rchannels between !! "ab" = Some noted.
Proof.
  unfold noted. assert (H : is_Some (rchannels between !! "ab")) by by_eval. by destruct H as [r ->].
Qed.
Lemma taken_at : rchannels after !! "ab" = Some taken.
Proof.
  unfold taken. assert (H : is_Some (rchannels after !! "ab")) by by_eval. by destruct H as [r ->].
Qed.
Lemma noted_pending : pending (ch noted) = Some settled.
Proof. vm_compute. reflexivity. Qed.
Lemma noted_facts :
  cur (ch noted) = mkState 1 5 5 [mkHtlc 0 true 10 (hash_preimage_hex pre) 50] 1 ∧
  in_effect noted = line ["SETTLE"; "0"; pre] ∧ links between !! "ab:0" = Some "cd:5" ∧
  cur (ch taken) = settled.
Proof. conjs; vm_compute; reflexivity. Qed.
Lemma revoked_in_effects_witness :
  srv_ok between ∧ line ["SETTLE"; "cd"; "5"; pre] ∈ actions after.
Proof.
  split; [exact between_ok|]. destruct noted_facts as (Hc & He & Hl & Ht).
  destruct (revoked_in_effects between "ab" noted settled rev_fields after
              (handle_rev between "ab" noted rev_fields).2 taken) as [[H _]|(_ & _ & H)].
  - exact between_ok.
  - exact noted_at.
  - exact noted_pending.
  - apply surjective_pairing.
  - exact taken_at.
  - rewrite H, Hc in Ht. apply (f_equal st_n) in Ht. vm_compute in Ht. discriminate Ht.
  - apply (H (mkHtlc 0 true 10 (hash_preimage_hex pre) 50)).
    + rewrite Hc. by left.
    + by_eval.
    + reflexivity.
    + exact He.
    + exact Hl.
    + reflexivity.
    + reflexivity.
    + discriminate.
Defined.

(** ** Bob pays Alice 4 over the network *)

Definition paying : State := mkState 1 11 9 [] 0.
Definition bob_out : RemoteChannel := set_out "upd" (encode_state paying) "PAY" "-" "" (new_remote "w" "alice:1" "open" bob_end).
Definition alice_in : RemoteChannel := new_remote "w" "bob:1" "open" alice_end.
Definition node_of (r : RemoteChannel) : Server :=
  mkServer {["ab" := r]} ∅ true ∅ ∅ ∅ [] "" [] [] ∅ 0 ∅ None None.
Definition pay_message : string :=
  join "|" ["UPD"; "ab"; encode_state paying; cs_sig (sign_remote_commitment bob_end paying); "PAY"; "-"].
Definition rev_message_1 : string :=
  join "|" ["REV"; "ab"; to_string (st_n (cur bob_end)); rev_secret bob_end (st_n (cur bob_end));
            rev_hash bob_end (u64 (st_n (cur bob_end) + 2))].
Lemma at_put_single r : at_id (node_of r) "ab" = r.
Proof. unfold at_id. cbn. by rewrite lookup_singleton_eq. Qed.
Lemma paying_ok : validate_next bob_end paying = Ok () ∧
  classify_peer_update alice_end paying "" 7 = Ok (Pay, None) ∧ state_field paying.
Proof.
  split; [vm_compute; reflexivity|]. split; [vm_compute; reflexivity|]. split; [by_eval|constructor].
Qed.
Lemma drive_is_update_witness :
  let '(t1, y1) := handle_channel_message 100 7 (node_of alice_in) pay_message in
  let '(t2, y2) := handle_channel_message 101 7 t1 rev_message_1 in
  ∃ s' rq', rchan_drive 99 "ab" (node_of bob_out) (mkNet [([], y1); ([], y2)] []) =
    (s', mkNet [] [("alice:1", "CHAN|" +:+ pay_message); ("alice:1", "CHAN|" +:+ rev_message_1)], Ok ()) ∧
    ch (at_id s' "ab") = advanced bob_end alice_end paying ∧
    idle t2 "ab" rq' ∧ ch rq' = advanced alice_end bob_end paying.
Proof.
  destruct ends_linked as (L & Hc & _). destruct paying_ok as (Hv & Hk & Hs).
  assert (Hn : is_u64 (st_n (cur bob_end) + 2)) by (rewrite Hc; by_eval).
  pose proof (update_linked bob_end alice_end paying toy_digests L Hn) as Hu. rewrite Hv in Hu.
  assert (Ht : idle (node_of alice_in) "ab" alice_in) by (split; [done|apply lookup_singleton_eq|done..]).
  assert (Hr : at_id (node_of bob_out) "ab" = bob_out) by apply at_put_single.
  assert (Hcur : cur (ch alice_in) = cur (ch bob_out)) by (change (cur alice_end = cur bob_end); pose proof (k_cur _ _ (l_pq _ _ L)); congruence).
  assert (Hst : 0 ≤ st_n (cur (ch bob_out)) < U64_MAX)
    by (change (0 ≤ st_n (cur bob_end) < U64_MAX); rewrite Hc; by_eval).
  pose proof (drive_is_update (λ _ _, eq_refl) 100 101 99 7 (node_of bob_out) (node_of alice_in) "ab" bob_out alice_in paying
    Pay None _ _ Hr eq_refl eq_refl eq_refl Ht Hu Hk ltac:(discriminate) Hcur Hst Hs eq_refl eq_refl eq_refl) as H.
  cbv zeta in H. change (ch bob_out) with bob_end in H. change (out_kind bob_out) with "PAY" in H.
  change (or_bar (out_extra bob_out)) with "-" in H. change (rpeer bob_out) with "alice:1" in H.
  fold pay_message rev_message_1 in H.
  destruct (handle_channel_message 100 7 (node_of alice_in) pay_message) as [t1 y1].
  destruct (handle_channel_message 101 7 t1 rev_message_1) as [t2 y2].
  destruct H as (s' & r' & rq' & H1 & H2 & H3 & _ & _ & H4 & H5).
  exists s', rq'. rewrite H2. exact (conj H1 (conj H3 (conj H4 H5))).
Defined.
