(* ===== verification/WitnessNode.v ===== *)
(** * Witnesses: the node, its network and its files

    Among them a saved chain and pool read back, and the files that do not come back as they
    were written. *)
From S2P Require Import Prelude ConsensusRules Strings Lines Crypto Types Wire WireProofs Block.
From S2P Require Import Staking Shielded Script Chain ChainBlock ChainProofs Mempool MempoolProofs.
From S2P Require Import Mining Dandelion DandelionProofs Peers PeersProofs Votes NodeCodec.
From S2P Require Import NodeCodecProofs Node NodeInbound NodeProofs StateStore StateStoreProofs Toy.
From S2P Require Import WitnessChain.

(** ** Dandelion *)

Definition toy_params : Params := mkParams 600 30 10.
Definition toy_draws : Draws := mkDraws false (λ l, l) (λ _, O) 5.
Lemma toy_draws_ok : draws_ok toy_params toy_draws.
Proof. split; [done|]. split; [done|]. cbn. lia. Qed.

Definition three : list string := ["10.0.0.1:1"; "10.0.0.2:1"; "10.0.0.3:1"].
Definition routed_router : Router := (route toy_params 700 toy_draws new_router "10.0.0.1:1" three).1.
Lemma stem_routing_witness :
  ("10.0.0.2:1" ∈ three ∧ "10.0.0.2:1" ≠ "10.0.0.1:1") ∧
  (route toy_params 800 toy_draws (events toy_params routed_router [ERoute 750 toy_draws "" three; EExpired 760]).1
     "10.0.0.1:1" three).2 = Stem "10.0.0.2:1".
Proof.
  pose proof (stem_routing toy_params 700 toy_draws new_router "10.0.0.1:1" three routed_router (Stem "10.0.0.2:1")
    toy_draws_ok) as H.
  destruct H as (H1 & H2 & H3); [vm_compute; reflexivity|]. split; [by split|]. apply H3.
  - discriminate.
  - repeat (apply Forall_cons; split); [..|apply Forall_nil]; by_eval || (cbn; split; [vm_compute; reflexivity|split; [by_eval|discriminate]]).
  - cbn. split; [vm_compute; reflexivity|]. split; [by_eval|discriminate].
Defined.

Lemma embargo_ends_witness :
  is_embargoed new_router "tx" = false ∧
  ∃ i t' l, ([EExpired 720] ++ [EExpired 740]) !! i = Some (EExpired t') ∧
    (events toy_params (embargo toy_params 700 toy_draws new_router "tx") ([EExpired 720] ++ [EExpired 740])).2 !! i =
      Some (AExpired l) ∧ "tx" ∈ l ∧ 700 + embargo_base_seconds toy_params ≤ t'.
Proof.
  split; [reflexivity|]. apply (embargo_ends toy_params 700 toy_draws new_router "tx" [EExpired 720] 740).
  - reflexivity.
  - exact toy_draws_ok.
  - by_eval || (intros H%list_elem_of_singleton; discriminate).
  - cbn. lia.
Defined.

(** ** Quorums *)

Definition four : gset string := {["a"; "b"; "c"; "d"]}.
Definition split_votes : list Vote :=
  [("a", 7, "X"); ("b", 7, "X"); ("c", 7, "X"); ("b", 7, "Y"); ("c", 7, "Y"); ("d", 7, "Y")].
Lemma quorum_intersection_witness :
  (size four = 4%nat) ∧
  ∃ X : gset string, X ⊆ four ∧ (size four < 3 * size X)%nat ∧
    ∀ p, p ∈ X → (p, 7, "X") ∈ split_votes ∧ (p, 7, "Y") ∈ split_votes.
Proof.
  split; [vm_compute; reflexivity|]. apply (quorum_intersection split_votes four 7 "X" "Y").
  - apply Forall_forall. by_eval.
  - vm_compute. reflexivity.
  - discriminate.
  - vm_compute. reflexivity.
  - vm_compute. reflexivity.
Defined.

(** ** A block for an old peer *)

Lemma adapt_preserves_witness :
  adapt_for_peer ("BLK|" +:+ encode_block_payload block4) 2 ≠ "" ∧
  let m := adapt_for_peer ("BLK|" +:+ encode_block_payload block4) 2 in
  (m = "" ∧ 2 < kProtoV4 ∧ ∃ tx, tx ∈ transactions block4 ∧ cannot_send 2 tx = true) ∨
  ∃ payload, m = "BLK|" +:+ payload ∧ decode_block_payload payload = Ok block4.
Proof.
  split; [vm_compute; discriminate|]. apply (adapt_preserves "BLK|" 2 block4).
  - by_eval.
  - by_eval.
  - by left.
Defined.

(** ** A node and its peers

    The relay of private messages and the channels are stand-ins; Alice's key signs. *)
#[export] Instance toy_inet : Inet := {| inet_pton_ok s := all_chars (λ c, is_digit_char c || Ascii.eqb c ".") s |}.
#[export] Instance toy_signer : Signer := {| sign_message_hybrid sk msg := Some (toy_sign sk msg) |}.
#[export] Instance toy_relay : PmRelay nat := {|
  accept_package r _ _ := (r, Ok false);
  accept_wire r _ _ := (Datatypes.S r, Ok false);
  accept_delete r _ _ := (r, Err "unknown message");
|}.
#[export] Instance toy_chan : ChanHandler nat := {| chan_handler _ w _ _ _ := (w, Ok "CHANOK") |}.

Definition toy_node : Node nat nat :=
  mkNode _ _ (mkLedger toy2 mempool_empty ∅ ∅ ∅ [])
    (mkSessions (set_limits 8 8 3600 new_network) ∅ ∅ ∅ ∅ ∅ ∅)
    (mkVoting [] ∅ [] ∅ ∅ ∅) (mkIdentity "node" alice_pk (put_le 2 17) None ∅ ∅)
    (mkStemPool true new_router ∅ []) (Some O) (Some O) "".
Lemma toy_node_ok : node_ok toy_cfg toy_node.
Proof.
  split; [apply toy_reachable| | |reflexivity].
  - split; [|by intros ?? ?..]. apply (peer_table 8 8 3600 []).
  - split; [constructor|by intros ? ?%elem_of_nil|done].
Qed.

Definition bob_sk : string := put_le 2 23.
Definition hello_line (peer nonce : string) : string :=
  let body := "4|ADDITION_REGTEST_V1|5000|" +:+ nonce +:+ "|" +:+ bob_pk in
  peer +:+ " HELLO|" +:+ body +:+ "|" +:+ toy_sign bob_sk body.
Definition toy_traffic : list NodeEvent :=
  [Line 5000 toy_draws "10.0.0.1:1 REQWORK|"; Line 5000 toy_draws (hello_line "10.0.0.1:1" "n1");
   Line 5001 toy_draws "10.0.0.1:1 REQINV|0|9"; Line 5001 toy_draws ("10.0.0.1:1 SVOTE|" +:+ encode_stake_vote vote2);
   Line 5002 toy_draws ("10.0.0.1:1 BLK|" +:+ encode_block_payload block3); Line 5003 toy_draws "10.0.0.1:1 PMSG|hi";
   Line 5003 toy_draws (hello_line "10.0.0.1:1" "n1"); RefreshVotes].
Definition toy_after : Node nat nat := run toy_cfg toy_params toy_node toy_traffic.

Lemma toy_traffic_typed : Forall event_typed toy_traffic.
Proof. by repeat constructor. Qed.

Lemma node_invariant_witness :
  (height_of (n_chain toy_after) = 3 ∧ pm_relay toy_after = Some 1%nat) ∧ node_ok toy_cfg toy_after.
Proof.
  split; [split; vm_compute; reflexivity|].
  exact (node_invariant toy_cfg toy_params toy_node toy_traffic toy_traffic_typed toy_node_ok).
Defined.

Lemma handshake_authentic_witness :
  (pinned_peer_pubkeys (sessions (run toy_cfg toy_params toy_node (take 6 toy_traffic))) !! "10.0.0.1:1" = Some bob_pk) ∧
  (handshake_ok (sessions toy_node) !! "10.0.0.1:1" = Some true ∨
   ∃ pk ev now m, ev ∈ take 6 toy_traffic ∧ delivers ev = Some (now, "10.0.0.1:1", m) ∧ genuine_hello toy_cfg now m pk ∧
     pinned_peer_pubkeys (sessions (run toy_cfg toy_params toy_node (take 6 toy_traffic))) !! "10.0.0.1:1" = Some pk).
Proof.
  split; [vm_compute; reflexivity|].
  assert (Ht : Forall event_typed (take 6 toy_traffic)) by repeat constructor.
  destruct (handshake_authentic toy_cfg toy_params toy_node (take 6 toy_traffic) Ht) as [_ H].
  apply (H "10.0.0.1:1"). vm_compute. reflexivity.
Defined.



(** A peer's announcement takes the place of the rotation the node has proposed, votes
    under any names are counted, and the commit installs the peer's key with an empty
    private key. *)
Definition hijack : list NodeEvent :=
  let rot := "rotate|" +:+ bob_pk +:+ "|evil|1" in
  let vote v := "10.0.0.1:1 IDVOTE|r1|" +:+ v +:+ "|" +:+ bob_pk +:+ "|" +:+ toy_sign bob_sk ("idvote|r1|" +:+ v) in
  [ProposeRotation 5000 "new" "new secret" 60; Line 5000 toy_draws (hello_line "10.0.0.1:1" "n1");
   Line 5001 toy_draws ("10.0.0.1:1 IDROTATE|r1|" +:+ bob_pk +:+ "|evil|1|" +:+ toy_sign bob_sk rot);
   Line 5001 toy_draws (vote "x"); Line 5001 toy_draws (vote "y"); CommitRotation 5002].
Lemma rotation_hijacked :
  let i := identity (run toy_cfg toy_params toy_node hijack) in
  node_public_key i = "evil" ∧ node_private_key i = "".
Proof. vm_compute. split; reflexivity. Qed.

(** Unsigned HELLOs under the id of an authenticated peer end its session and ban it. *)
Lemma impostor_bans_peer :
  let n := run toy_cfg toy_params toy_node (take 2 toy_traffic) in
  let n' := run toy_cfg toy_params n (replicate 12 (Line 5001 toy_draws "10.0.0.1:1 HELLO|x")) in
  handshake_ok (sessions n) !! "10.0.0.1:1" = Some true ∧
  is_banned 5002 (s_peers (sessions n')) "10.0.0.1:1" = true.
Proof. vm_compute. split; reflexivity. Qed.

(** ** The files of a node *)

(** The chain with Alice's stake and a vote on it, loaded an hour later. *)
Lemma toy3_reachable : reachable toy_cfg toy3.
Proof.
  refine (reach_add _ 5000 toy2 block3 toy3 (add_block toy_cfg 5000 toy2 block3).2 (proj2 toy_reachable) _ _).
  - by_eval.
  - unfold toy3, toy_add. apply surjective_pairing.
Qed.
Lemma load_saved_chain_witness :
  load_chain toy_cfg "" 8600 (reset toy_cfg) (Some (save_chain toy_cfg "regtest" toy3)) = (toy3, Ok ()).
Proof.
  refine (load_saved_chain toy_cfg "regtest" "" 8600 toy3 toy3_reachable _ _ _ _).
  - by_eval.
  - by_eval.
  - by_eval.
  - by_eval.
Defined.

Definition pool_ops : list op := [OpSubmit alice_tx].
Lemma load_saved_mempool_witness :
  snapshot (pool_after pool_ops) = [alice_tx] ∧
  load_mempool mempool_empty (Some (save_mempool (pool_after pool_ops))) = (pool_after pool_ops, ok ()).
Proof.
  split.
  - vm_compute. reflexivity.
  - refine (load_saved_mempool pool_ops mempool_empty _). by_eval.
Defined.

(** A recipient is any text, and the file separates by bars and newlines: a block that
    every node accepts is one that no node that stored it can start from. *)
Definition barred_block : Block := toy_block toy0 [mkTxOutput "ali|ce" 50] [] [] [].
Definition barred_chain : Chain := toy_add toy0 barred_block.
Lemma accepted_chain_unloadable :
  (add_block toy_cfg 5000 toy0 barred_block).2 = Ok () ∧
  (load_chain toy_cfg "stoull" 8600 (reset toy_cfg) (Some (save_chain toy_cfg "regtest" barred_chain))).2 =
  Err "chain load failed: state parse exception: stoull".
Proof. split; vm_compute; reflexivity. Qed.

(** The pins of the node's peers: the key of a peer named [victim|x] is read back as a
    key of [victim]. *)
Lemma barred_peer_repins :
  load_pins (Some (save_pins [("victim", "aa"); ("victim|bb", "cc")])) = [("victim", "aa"); ("victim", "bb|cc")].
Proof. vm_compute. reflexivity. Qed.
