(* ===== verification/WitnessSync.v ===== *)
(** * Witnesses: the node as a client

    A node that downloads blocks and changes forks, and what a peer can do to a client. *)
From S2P Require Import Prelude ConsensusRules Strings Lines Crypto Types Wire WireProofs Block Staking Shielded Script.
From S2P Require Import Chain ChainBlock ChainProofs Mempool Mining Wallet Votes Dandelion Peers PeersProofs.
From S2P Require Import NodeCodec Node NodeInbound NodeProofs NodeSync NodeGossip NodeSyncProofs StateStoreProofs NodeCatchUp.
From S2P Require Import Toy WitnessChain WitnessMarket WitnessNode.

(** An allocator with room for a million million blocks, and no private messages. *)
#[export] Instance toy_heap : Heap := {| can_reserve z := z <? 10 ^ 12 |}.
#[export] Instance toy_queue : PmQueue nat := {| undelivered_for _ r _ := (r, []); mark_delivered r _ _ := r |}.

(** ** Blocks of an honest peer *)

(** A node at chain [c] that knows the client [id] of protocol 4. *)
Definition server (c : Chain) (id : string) : Node nat nat :=
  set_sessions (mkSessions (set_limits 8 8 3600 new_network) {[id := true]} {[id := kProtoV4]} ∅ ∅ ∅ ∅)
    (set_ledger (mkLedger c mempool_empty ∅ ∅ ∅ []) toy_node).
Definition reply_of (c : Chain) (id line : string) : string :=
  (handle_p2p_line toy_cfg toy_params 5000 toy_draws (server c id) line).2.
Definition serve (c : Chain) (id line : string) : Turn := mkTurn [] 5000 false [reply_of c id line].
Lemma reply_served c id line :
  (String.length line + 1 <=? kMaxLineBytes)%nat = true → String.eqb (parse_line line).1 id = true →
  starts_with "ok:" (reply_of c id line) = true → served (R := nat) (W := nat) toy_cfg toy_params c line (reply_of c id line).
Proof.
  intros Hf%Nat.leb_le He%String.eqb_eq Hr. split; [done|]. exists 5000, toy_draws, (server c id). split; [done|].
  split; [|done]. rewrite He. unfold peer_proto. cbn. by rewrite lookup_singleton_eq.
Qed.
Lemma serve_answers c id line :
  (String.length line + 1 <=? kMaxLineBytes)%nat = true → String.eqb (parse_line line).1 id = true →
  starts_with "ok:" (reply_of c id line) = true → answers (R := nat) (W := nat) toy_cfg toy_params c line (serve c id line).
Proof. intros H1 H2 H3. split; [done|]. split; [done|]. eexists. split; [done|]. by apply reply_served. Qed.

Definition client_at (c : Chain) (net : list Turn) : Host nat nat :=
  mkHost _ _ (set_ledger (mkLedger c mempool_empty ∅ ∅ ∅ []) toy_node) (mkClient ∅ ∅ ∅) net 5000 false [].
Definition inv_line : string := "node REQINV|0|24".
Definition behind : Host nat nat :=
  client_at toy1 [serve toy2 "node" inv_line; mkTurn [] 5000 false [reply_of toy2 "node" (blk_line "node" block2)]].
Lemma catch_up_witness :
  (height_of (n_chain (h_node behind)) = 1 ∧ height_of toy2 = 2) ∧
  let '(h', r) := fetch_blocks_from_peer toy_cfg toy_params "10.0.0.9:1" "node" behind in
  r = Some (true, "") ∧ n_chain (h_node h') = toy2.
Proof.
  split; [split; vm_compute; reflexivity|].
  apply (catch_up toy_cfg toy_params toy2 [block2] "10.0.0.9:1" "node" (reply_of toy2 "node" inv_line) behind
    (serve toy2 "node" inv_line) (mkTurn [] 5000 false [reply_of toy2 "node" (blk_line "node" block2)]) []).
  - exact toy_digests.
  - by_eval.
  - apply toy_reachable.
  - apply toy_reachable.
  - vm_compute. reflexivity.
  - split; repeat constructor.
  - vm_compute. reflexivity.
  - by_eval.
  - by_eval.
  - by_eval.
  - apply Forall_singleton. split; [vm_compute; reflexivity|]. exact (not_elem_of_empty _).
  - split; [discriminate|reflexivity].
  - reflexivity.
  - reflexivity.
  - reflexivity.
  - reflexivity.
  - reflexivity.
  - apply (reply_served toy2 "node" inv_line); vm_compute; reflexivity.
  - apply Forall2_cons. split; [|apply Forall2_nil; done]. apply (reply_served toy2 "node" (blk_line "node" block2)); vm_compute; reflexivity.
Defined.

(** ** A heavier fork *)

Definition fork_block1 : Block := toy_block toy0 [mkTxOutput bob 50] [] [] [].
Definition fork1 : Chain := toy_add toy0 fork_block1.
Definition fork_block2 : Block := toy_block fork1 [mkTxOutput bob 50] [] [] [].
Definition fork2 : Chain := toy_add fork1 fork_block2.
Lemma fork_reachable : reachable toy_cfg fork2.
Proof.
  assert (H1 : reachable toy_cfg fork1).
  { refine (reach_add _ 5000 toy0 fork_block1 fork1 (add_block toy_cfg 5000 toy0 fork_block1).2 _ _ _).
    - constructor.
    - by_eval.
    - unfold fork1, toy_add. apply surjective_pairing. }
  refine (reach_add _ 5000 fork1 fork_block2 fork2 (add_block toy_cfg 5000 fork1 fork_block2).2 H1 _ _).
  - by_eval.
  - unfold fork2, toy_add. apply surjective_pairing.
Qed.
Definition fork_net : list Turn :=
  [serve fork2 "node" inv_line; serve fork2 "node" "node REQH|"; serve fork2 "node" "node REQBLK|0";
   serve fork2 "node" "node REQBLK|1"; serve fork2 "node" "node REQBLK|2"].
Definition forked : Host nat nat := client_at toy1 fork_net.
Lemma heavier_fork_adopted_witness :
  (blocks toy1 !! 1%nat = Some block1 ∧ blocks fork2 !! 1%nat = Some fork_block1) ∧
  let '(h', r) := fetch_blocks_from_peer toy_cfg toy_params "10.0.0.9:1" "node" forked in
  r = Some (true, "") ∧ n_chain (h_node h') = fork2.
Proof.
  assert (E : blocks toy1 !! 1%nat = Some block1 ∧ blocks fork2 !! 1%nat = Some fork_block1) by (split; vm_compute; reflexivity).
  split; [exact E|].
  apply (heavier_fork_adopted toy_cfg toy_params fork2 "10.0.0.9:1" "node" forked (serve fork2 "node" inv_line)
    (serve fork2 "node" "node REQH|")
    [serve fork2 "node" "node REQBLK|0"; serve fork2 "node" "node REQBLK|1"; serve fork2 "node" "node REQBLK|2"] [] 1
    block1 fork_block1).
  - exact toy_digests.
  - by_eval.
  - apply toy_reachable.
  - apply fork_reachable.
  - vm_compute. reflexivity.
  - vm_compute. reflexivity.
  - vm_compute. reflexivity.
  - split; vm_compute; [discriminate|reflexivity].
  - apply E.
  - apply E.
  - vm_compute. discriminate.
  - by_eval.
  - vm_compute. reflexivity.
  - by_eval.
  - split; [discriminate|reflexivity].
  - reflexivity.
  - reflexivity.
  - apply (serve_answers fork2 "node" inv_line); vm_compute; reflexivity.
  - apply (serve_answers fork2 "node" "node REQH|"); vm_compute; reflexivity.
  - change (blocks fork2) with [nth 0 (blocks fork2) block1; nth 1 (blocks fork2) block1; nth 2 (blocks fork2) block1].
    apply Forall2_cons; split; [apply (serve_answers fork2 "node" "node REQBLK|0"); vm_compute; reflexivity|].
    apply Forall2_cons; split; [apply (serve_answers fork2 "node" "node REQBLK|1"); vm_compute; reflexivity|].
    apply Forall2_cons; split; [apply (serve_answers fork2 "node" "node REQBLK|2"); vm_compute; reflexivity|].
    apply Forall2_nil. done.
Defined.

(** ** Whatever the peers answer *)

Definition remote : string := "10.0.0.9:1".
Definition ack_reply (nonce : string) : string :=
  let body := "4|ADDITION_REGTEST_V1|5000|" +:+ nonce +:+ "|" +:+ bob_pk in
  "ok:HELLO_ACK|" +:+ body +:+ "|" +:+ toy_sign bob_sk body.
Definition asking (n : Node nat nat) (net : list Turn) : Host nat nat := mkHost _ _ n (mkClient ∅ ∅ ∅) net 5000 false [].
(** A peer sends lines of its own while the node waits for the answer to its request. *)
Definition busy : Host nat nat :=
  asking toy_node [mkTurn toy_traffic 5000 false [ack_reply "s0-5000"]; mkTurn [] 5001 false ["ok:CHANOK"]].
Lemma busy_typed : typed_turns (h_net busy).
Proof. apply Forall_cons. split; [exact toy_traffic_typed|]. apply Forall_cons. by split. Qed.
Definition asked : Host nat nat := (client_run toy_cfg toy_params [RequestPeer remote "CHAN|hi"; FlushGossip] busy).1.
Lemma client_authentic_witness :
  (outbound_hs_ok (h_client asked) !! remote = Some true) ∧
  ∃ req resp, (remote, [req], [resp]) ∈ h_log asked ∧
    ((∃ pk, genuine_ack toy_cfg req resp pk ∧ pinned_peer_pubkeys (sessions (h_node asked)) !! remote = Some pk) ∨
     persist_leftover_reply resp = true).
Proof.
  assert (H : outbound_hs_ok (h_client asked) !! remote = Some true) by (vm_compute; reflexivity). split; [exact H|].
  exact (client_authentic toy_cfg toy_params [RequestPeer remote "CHAN|hi"; FlushGossip] busy remote busy_typed eq_refl H).
Defined.

(** ** What a peer can do to a client *)

(** Lines that old nodes sent count as a handshake: a peer without any key is authenticated
    under an endpoint that has another key pinned. *)
Definition pinned_node : Node nat nat :=
  set_sessions (mkSessions (set_limits 8 8 3600 new_network) ∅ ∅ ∅ ∅ {[remote := alice_pk]} ∅) toy_node.
Lemma leftover_reply_authenticates :
  let '(h, r) := request_peer toy_cfg toy_params remote "CHAN|hi"
    (asking pinned_node [mkTurn [] 5000 false ["ok"]; mkTurn [] 5000 false ["ok:HAVEWORK|0"]; mkTurn [] 5000 false ["ok:CHANOK"]]) in
  r = Some (Ok "CHANOK") ∧ outbound_hs_ok (h_client h) !! remote = Some true ∧
  pinned_peer_pubkeys (sessions (h_node h)) !! remote = Some alice_pk.
Proof. vm_compute. by split_and!. Qed.

(** A height that no allocator has room for ends a synchronisation with an exception. *)
Definition with_peer : Node nat nat := update_table (λ p, (add_peer 5000 p remote).1) toy_node.
Definition says (reply : string) : Turn := mkTurn [] 5000 false [reply].
Lemma claimed_height_throws :
  (sync_once toy_cfg toy_params
     (asking with_peer [says (ack_reply "s0-5000"); says "ok:ADDR|"; says "ok:HAVEWORK|99"; says "ok:HAVEH|99";
                        says "ok:INV|1:another block"; says "ok:HAVEH|18446744073709551614"])).2 = None.
Proof. vm_compute. reflexivity. Qed.

(** A chain with more work that is not higher is never asked for: the synchronisation with
    such a peer succeeds, and the node stays on the lighter fork. *)
Lemma heavier_not_higher_ignored :
  let '(h, r) := sync_once toy_cfg toy_params
    (asking with_peer [says (ack_reply "s0-5000"); says "ok:ADDR|"; says "ok:HAVEWORK|99"; says "ok:HAVEH|2"]) in
  r = Some (Ok ()) ∧ cumulative_work (n_chain (h_node h)) < 99 ∧ length (h_log h) = 4%nat.
Proof. vm_compute. by split_and!. Qed.
