(* ===== verification/WitnessPm.v ===== *)
(** * Witnesses: private messages

    Alice and Bob with a key encapsulation that hides nothing, of the sizes of ML-KEM-1024:
    a session in which frames overtake each other, and a message over two relays. *)
From S2P Require Import Prelude Strings Lines Crypto Types Block StateStore PqSession PmRelay PqMessenger.
From S2P Require Import PqSessionProofs PmRelayProofs PqCodecProofs Toy WitnessMarket.

Definition pad (n : nat) (s : string) : string := str_take n (s +:+ zeros n).
Lemma pad_length n s : String.length (pad n s) = n.
Proof.
  assert (Hz : ∀ n, String.length (zeros n) = n) by (clear; induction n; cbn; congruence).
  unfold pad. rewrite str_length_take, str_length_app, Hz. lia.
Qed.
Lemma pad_ne n s : n ≠ O → pad n s ≠ "".
Proof. intros Hn E. apply (f_equal String.length) in E. rewrite pad_length in E. by destruct n. Qed.
Definition kKemSizes : KemSizes := mkKemSizes (Z.to_nat 1568) (Z.to_nat 3168) (Z.to_nat 1568) 32.
#[export] Instance toy_pm : PmCrypto := {|
  OQS_KEM_ml_kem_1024 := Some kKemSizes;
  OQS_KEM_keypair coins := Some (pad (Z.to_nat 1568) (pad 16 coins), pad (Z.to_nat 3168) (pad 16 coins));
  OQS_KEM_encaps coins pk := Some (pad (Z.to_nat 1568) (pad 16 coins), pad 16 coins +:+ str_take 16 pk);
  OQS_KEM_decaps sk ct := Some (str_take 16 ct +:+ str_take 16 sk);
  OQS_SIG_keypair _ := None;
  OQS_SIG_sign sk msg := Some (toy_signature sk msg);
  HMAC_sha3_512 key msg := toy_hash 64 (key +:+ msg);
  gcm_seal key iv aad text := pad 16 key +:+ text;
  gcm_open key iv aad s := if String.eqb (str_take 16 s) (pad 16 key) then Some (str_drop 16 s) else None;
|}.
Lemma pad_pad n s : (16 ≤ n)%nat → str_take 16 (pad n (pad 16 s)) = pad 16 s.
Proof.
  intros Hn. pose proof (pad_length 16 s) as Hl. unfold pad at 1. generalize dependent (pad 16 s). intros t Hl.
  assert (H : ∀ k n (a b : string), (String.length a = k)%nat → (k ≤ n)%nat → str_take k (str_take n (a +:+ b)) = a).
  { clear. induction k as [|k IH]; intros n a b Ha Hn; [by destruct a|]. destruct a as [|c a]; [done|]. destruct n as [|n]; [lia|].
    rewrite str_app_cons. cbn. f_equal. apply IH; cbn in Ha; lia. }
  by apply H.
Qed.
#[export] Instance toy_pm_laws : PmLaws toy_pm.
Proof.
  split.
  - by intros k [= <-].
  - intros k coins pk sk [= <-] H. injection H as <- <-. rewrite !pad_length. split; [done|]. split; [done|]. by apply pad_ne.
  - intros k coins pk ct ss [= <-] H. injection H as <- _. rewrite pad_length. split; [done|]. by apply pad_ne.
  - intros coins coins' pk sk ct ss H1 H2.
    assert (E1 : (pad (Z.to_nat 1568) (pad 16 coins), pad (Z.to_nat 3168) (pad 16 coins)) = (pk, sk)) by exact (inj Some _ _ H1).
    assert (E2 : (pad (Z.to_nat 1568) (pad 16 coins'), pad 16 coins' +:+ str_take 16 pk) = (ct, ss)) by exact (inj Some _ _ H2).
    apply pair_equal_spec in E1 as [<- <-], E2 as [<- <-]. unfold OQS_KEM_decaps, toy_pm. by rewrite !pad_pad by lia.
  - intros key msg. apply toy_hash_length.
  - intros key iv aad text. cbn [gcm_open gcm_seal toy_pm]. pose proof (pad_length 16 key) as Hl.
    by rewrite (take_len 16), (drop_len 16), String.eqb_refl.
  - intros key iv aad text. cbn [gcm_seal toy_pm]. rewrite str_length_app, pad_length. lia.
Qed.
Lemma pm_digests : sha3_512_digests.
Proof. intros s. apply toy_hash_length. Qed.

(** ** A conversation *)

Definition coins (x : string) : Rand := mkRand x x "aaaaaaaaaaaa" "sessionsessionse".
Definition key_of (x : string) : string * string := default ("", "") (OQS_KEM_keypair x).
Definition card (x : string) : KeyPackage := mkKeyPackage "-" x (key_of x).1 "relay" 0 10 "sig".
Definition opened : Session * Init :=
  match start_init (coins "one") "alice" "sk" (card "alice") (card "bob") "hello" with
  | Ok p => p
  | Err _ => (empty_session, mkInit "" "" "" "" "" "" "" "")
  end.
Definition alice_session : Session := opened.1.
Definition bob_session : Session :=
  match accept_init opened.2 (key_of "bob").2 "bob" (card "alice") with Ok p => p.1 | Err _ => empty_session end.
Lemma opened_ok : start_init (coins "one") "alice" "sk" (card "alice") (card "bob") "hello" = Ok opened.
Proof. vm_compute. reflexivity. Qed.
Lemma accepted_ok : accept_init opened.2 (key_of "bob").2 "bob" (card "alice") = Ok (bob_session, "hello").
Proof. vm_compute. reflexivity. Qed.

Lemma some_default {A} (d : A) o : match o with Some _ => true | None => false end = true → o = Some (default d o).
Proof. by destruct o. Qed.
(** Moves that can be played are an exchange. *)
Inductive Move := Say (x : bool) (r : Rand) (text : string) | Take (i : nat).
Definition play (w : World) (mv : Move) : option World :=
  match mv with
  | Say x r text =>
      match encrypt r (side w x) text with
      | Ok (s, f) =>
          if (String.length (r_iv r) =? 12)%nat && (length (unseen x (sent w)) <? 256)%nat &&
             (Z.of_nat (length (sent w)) <? 4294967294) &&
             (negb (need_step (side w x)) || negb (bool_decide (PqSession.h32 (my_pub s) ∈ PqSession.h32 <$> keys w)))
          then Some (set_side x s w (sent w ++ [mkSent x f text false]) (if need_step (side w x) then keys w ++ [my_pub s] else keys w))
          else None
      | Err _ => None
      end
  | Take i =>
      m ← sent w !! i;
      if seen m then None
      else match decrypt (frame m) (side w (negb (from m))) with
           | Ok (s, _) => Some (set_side (negb (from m)) s w (<[i := mark_seen m]> (sent w)) (keys w))
           | Err _ => None
           end
  end.
Fixpoint plays (w : World) (ms : list Move) : option World :=
  match ms with [] => Some w | mv :: ms => w ← play w mv; plays w ms end.
Lemma play_exchange w0 w mv w' : exchange w0 w → play w mv = Some w' → exchange w0 w'.
Proof.
  intros Hw. destruct mv as [x r text|i]; cbn [play].
  - destruct (encrypt r (side w x) text) as [[s f]|] eqn:He; [|done]. destruct (_ && _) eqn:E; [|done]. intros [= <-].
    apply andb_prop in E as [E H4]. apply andb_prop in E as [E H3]. apply andb_prop in E as [H1 H2].
    apply Nat.eqb_eq in H1. apply Nat.ltb_lt in H2. apply Z.ltb_lt in H3.
    apply (ex_send w0 w x r text); try done. intros Hn. rewrite Hn in H4. cbn [negb orb] in H4.
    apply negb_true_iff, bool_decide_eq_false in H4. done.
  - intros (m & Hi & H)%bind_Some. destruct (seen m) eqn:Hs; [done|].
    destruct (decrypt _ _) as [[s text]|] eqn:Hd; [|done]. injection H as <-. by apply (ex_deliver w0 w i m s text).
Qed.
Lemma plays_exchange w0 ms : ∀ w w', exchange w0 w → plays w ms = Some w' → exchange w0 w'.
Proof.
  induction ms as [|mv ms IH]; intros w w' Hw; [by intros [= <-]|]. cbn [plays]. intros (w1 & H1 & H2)%bind_Some.
  by apply (IH w1); [eapply play_exchange|].
Qed.

(** Alice's second frame overtakes the first, Bob answers, and Alice's next chain arrives
    before the first frame does. *)
Definition moves : list Move :=
  [Say true (coins "a1") "first"; Say true (coins "a2") "second"; Take 1; Say false (coins "b1") "answer"; Take 2;
   Say true (coins "a3") "third"; Take 3].
Definition played : World := default (two_sides alice_session bob_session) (plays (two_sides alice_session bob_session) moves).
Lemma played_exchange : exchange (two_sides alice_session bob_session) played.
Proof.
  apply (plays_exchange _ moves (two_sides alice_session bob_session)); [apply ex_start|].
  apply some_default. vm_compute. reflexivity.
Qed.
Definition first_sent : Sent := default (mkSent true (mkFrame "" "" "" "" 0 0 "" "") "" false) (sent played !! 0%nat).
Lemma ok_pair (s s' : Session) (t t' : string) : Ok (s, t) = Ok (s', t') → s = s'.
Proof. congruence. Qed.
(** Bob's files hold a session. *)
Definition files_with (id text : string) : Messenger :=
  mkMessenger "dir" {[ session_path (mkMessenger "dir" ∅ None) "bob" id := text ]} None.
Lemma files_with_held id text : m_files (files_with id text) !! session_path (files_with id text) "bob" id = Some text.
Proof. apply lookup_singleton_eq. Qed.
Definition bobs_files : Messenger := files_with (sid alice_session) (ser (side played false)).


(** ** A message over two relays *)

Definition draws : PmRand := mkPmRand "kem" "0123456789abcdef" "nonce-nonce-".
Definition bob_pk : string := (key_of "bob").1.
Definition bob_sk : string := (key_of "bob").2.
Definition alice_relay : PmStore := empty_store "keys".
Definition bob_relay : PmStore := (ensure_key "bob" "bob" (empty_store "keys")).1.
Definition posted : PmStore * result string := pm_send_frame 1000 draws (bytes_to_hex bob_pk) "AMM1..." 600 alice_relay.
Definition posted_id : string := bytes_to_hex (pm_id draws).
Lemma posted_ok : posted = (posted.1, Ok posted_id).
Proof. vm_compute. reflexivity. Qed.
Lemma bob_relay_ok : relay_ok bob_relay.
Proof. apply (relay_step_ok (empty_store "keys") (PmKey "bob" "bob")), empty_store_ok. Qed.
Lemma message_arrives_witness :
  ∃ e body r2', envs posted.1 !! posted_id = Some e ∧ wire e = "PMSG|" +:+ body ∧
    accept_wire 900 "10.0.0.1:1" body bob_relay = (r2', Ok false) ∧ pm_read 1050 "bob" posted_id r2' = Ok "AMM1..." ∧
    ∃ r2'' token r1'', pm_remove "bob" posted_id r2' = (r2'', Ok ()) ∧
      accept_delete "10.0.0.1:1" (join "|" [posted_id; token]) posted.1 = (r1'', Ok false) ∧ envs r1'' !! posted_id = None.
Proof.
  destruct (message_arrives pm_digests 1000 draws bob_pk bob_sk "bob" "AMM1..." true 600 alice_relay posted.1 posted_id
              900 "10.0.0.1:1" "bob" bob_relay) as (e & body & r2' & He & Hb & Ha & Hr & r2'' & token & r1'' & Hm & _ & _ & Hd & Hg).
  - vm_compute. reflexivity.
  - reflexivity.
  - reflexivity.
  - done.
  - done.
  - exact posted_ok.
  - reflexivity.
  - reflexivity.
  - exact bob_relay_ok.
  - vm_compute. reflexivity.
  - vm_compute. reflexivity.
  - vm_compute. reflexivity.
  - done.
  - vm_compute. reflexivity.
  - apply Nat.ltb_lt. vm_compute. reflexivity.
  - vm_compute. discriminate.
  - exists e, body, r2'. split; [exact He|]. split; [exact Hb|]. split; [exact Ha|]. split; [exact (proj1 (Hr 1050 eq_refl))|].
    exists r2'', token, r1''. split; [exact Hm|]. split; [exact Hd|exact Hg].
Defined.

(** Someone who does not know the token cannot delete the envelope. *)
Definition before_delete : list PmOp := [PmSend 1000 draws (bytes_to_hex bob_pk) "AMM1..." true 600].
Definition meddling : list PmOp :=
  [PmClock 1100; PmDelete "10.0.0.2:2" (join "|" [posted_id; bytes_to_hex (pad 32 "guess")]); PmRemove "bob" posted_id].
Definition posted_env : Env := default (mkEnv "" "" "" "" "" "" 0) (envs (pm_run (empty_store "keys") before_delete) !! posted_id).
Lemma posted_env_there : envs (pm_run (empty_store "keys") before_delete) !! posted_id = Some posted_env.
Proof. apply some_default. vm_compute. reflexivity. Qed.

(** ** What the code does against its intent *)

(** A session that has sent its initial frame and heard nothing accepts a frame under a key
    that anyone can compute. *)
Lemma forged_frame_opens s text :
  peer_rk s = "" → ckr s = "" → nr s = 0 → skipped s = ∅ →
  let mk := (kdf_ck "").1 in
  let f := mkFrame (sid s) "" "" "" 0 0 "iv-of-twelve" (gcm_seal mk "iv-of-twelve" (frame_aad (sid s) "" "" "" 0 0) text) in
  ∃ s', decrypt f s = Ok (s', text).
Proof.
  intros Hp Hc Hn Hs mk f.
  assert (Hk : ∃ s', message_key f s = Ok (s', mk)).
  { unfold message_key. rewrite Hs, lookup_empty. cbn [f_rk_pub f f_n]. rewrite Hp. change (String.eqb "" "") with true.
    cbn [mbind result_bind]. rewrite Hn. change (0 <? 0) with false. unfold skip_to. rewrite Hc.
    cbn [String.length Nat.eqb negb or_err mbind result_bind]. rewrite Hc, (surjective_pairing (kdf_ck "")). by eexists. }
  destruct Hk as (s' & Hk). exists s'. unfold decrypt. rewrite Hk. cbn [mbind result_bind f_iv f_sid f_rk_pub f_step_ct f_to f_pn f_n f_ct f].
  by rewrite aead_opens.
Qed.
(** Dropping what has expired forgets which key packages a peer has been given. *)
Lemma purge_forgets_packages now peer hex r :
  envs r !! PqSession.h32 hex = None → tombstones r !! PqSession.h32 hex = None →
  ∀ ids, delivered (purge now (note_delivered peer (pkg_line_id hex) r)) !! peer = Some ids → pkg_line_id hex ∉ ids.
Proof.
  intros He Ht ids H Hin. unfold purge in H. cbn [delivered] in H. rewrite lookup_fmap in H. apply fmap_Some in H as (ids0 & _ & ->).
  unfold purge_delivered in Hin. apply elem_of_filter in Hin as [[Hk|Hk] _];
    assert (E : (if (2 <? String.length (pkg_line_id hex))%nat then str_drop 2 (pkg_line_id hex) else pkg_line_id hex) = PqSession.h32 hex)
      by (unfold pkg_line_id; rewrite str_length_app, (h32_length pm_digests); reflexivity);
    cbv zeta in Hk; rewrite E in Hk; destruct Hk as [x Hk]; apply map_lookup_filter_Some in Hk as [Hk _];
    (assert (Hx : None = Some x) by (rewrite <- Hk; symmetry; first [exact He | exact Ht])); discriminate.
Qed.
